(* ===== verification/_CoqProject ===== *)
-Q . S2P
Prelude.v
Word.v
Float32.v
Isa.v
Alu.v
Util.v
Cosim.v
Machine.v
Trap.v
Tlb.v
ExecArith.v
ExecMem.v
ExecControl.v
Interp.v
Sdmmc.v
Device.v
System.v
CosimRun.v
CString.v
Gdb.v
Invariant.v
Safety.v
Confinement.v
TrapProps.v
TlbProps.v
VectorProps.v
SchedProps.v
SyncProps.v
DebugProps.v
MemoryProps.v
GdbProps.v
KernelList.v
KernelDefs.v
VmAreaMap.v
Sched.v
RwLock.v
VmPage.v
TranslationMap.v
BootMap.v
SdDriver.v
Mkfs.v
Fs.v
SerialBoot.v
Parallel.v
Sort.v
VmCache.v
VmFault.v
VmSpace.v
KernelFs.v
KernelLoader.v
KernelHeap.v
Slab.v
Process.v
ThreadLife.v
Vga.v
Printf.v
Stdio.v
Syscall.v
KernelTrap.v
UserCalls.v
