(* ===== verification/Prelude.v ===== *)
(** * A verification development for the Nyuzi processor's C software

    Nyuzi is a GPGPU: a processor in SystemVerilog (src/hardware), an emulator of it in C
    (src/tools/emulator), the programs that put software on a board (src/tools/serial_boot,
    src/tools/mkfs, src/software/bootrom), and the software that runs on it: a bare-metal
    support library (src/software/libs/libos) and a small multitasking kernel
    (src/software/kernel).  The development models the C code of these parts and proves that
    it does what it is for.  Definitions keep the names of the C functions, types and fields;
    the comment at the top of each file says which C file it models and what was abstracted.

    ** Conventions

    - Integers are [Z]; a [uint32_t] is in [0 .. 2^32 - 1] and every operation that can leave
      that range is wrapped where C wraps it ([u32], [s32] of Word).
    - A struct is a record, an enum an inductive type with the encoding its constructors have
      ([CEnum]); [r <| field := v |>] assigns a field.  Static variables are the fields of a
      record that the functions of their file pass along.
    - A function that can leave through [exit], a failed [assert] or a bad access returns a
      [result]; [x <-- a;; b] goes on only when [a] is [Done].  An index outside an array,
      a null or dangling pointer and an uninitialised byte that is used are faults and not
      default values: a theorem that says [Done] says that they do not happen.
    - Loops that are not structural take fuel, chosen from the data they run over (the bytes of
      a file, the length of an array, the blocks of a read); running out is a fault of its own,
      [OutOfFuel], and the theorems show the result, so they show that the fuel is enough.
      Loops that wait for a device (SdDriver) or a peer (SerialBoot) have the C code's own retry
      counts as bounds where it has them.

    ** The emulator (src/tools/emulator)

    - Word, Float32: util.h; fixed-width integers, bit fields, [next_set_bit], single precision
      arithmetic.  Isa: instruction-set.h, the constants of processor.h and device.h.
    - Util: util.c; random numbers, hexadecimal vectors, the memory image loader.
    - Machine, Alu, Trap, Tlb, ExecArith, ExecMem, ExecControl, Interp: processor.c.  The state
      ([machine]), one definition per instruction format, traps and interrupts, translation,
      and the loops [execute_instructions] and [dbg_single_step].  The processor reaches its
      devices through the class [Host].
    - Device, Sdmmc, System: device.c, fbwindow.c, sdmmc.c, main.c.  System is the instance of
      [Host] and the run loop.  Cosim, CosimRun: cosimulation.c.  CString, Gdb: remote-gdb.c.

    What is shown:
    - safety (Invariant, Safety): every 32-bit word can be executed in every well-formed state;
      the state stays well-formed, and the exact list of hazards the code has ([instruction_hazard])
      is the only way to a fault; the same for whole runs from power-up, and for the SD
      card alone (Sdmmc);
    - protection (Confinement): user mode changes privileged state only by entering a handler;
    - the instruction set: on one core synchronized stores are atomic under every interleaving (SyncProps),
      traps return where they were taken and interrupts reach their threads (TrapProps), the TLB
      (TlbProps), vector arithmetic, scatter and gather (VectorProps), loads after stores
      (MemoryProps), fair scheduling (SchedProps);
    - the devices as queues (Device), the SD protocol round trip (Sdmmc), the debugger's memory
      commands and breakpoints (GdbProps, DebugProps), the loader (Util).

    ** Getting software and files onto a board

    - SdDriver: libos/bare-metal/sdmmc.c over the class [Registers]; the class [SdCard] states
      what a card promises, and the emulator's registers and card are instances of both.
    - Mkfs, Fs: tools/mkfs/mkfs.c and libos/bare-metal/fs.c.  The image one writes, the other
      mounts from any [SdCard] and serves byte for byte.
    - Parallel: libos schedule.c; for every interleaving of the caller and the workers each job
      of [parallel_execute] runs once, and the race that breaks this is shown.  Sort: qsort and
      bsearch of libc over arrays of bytes.
    - SerialBoot: bootrom/boot.c and tools/serial_boot/serial_boot.c, run against each other
      over a line that loses nothing; the board's memory ends as the emulator's loader would
      leave it.

    ** The kernel (src/software/kernel)

    - KernelList: list.h on pointers in a heap, refined to operations on sequences.  The files
      below use sequences where the code uses these lists.
    - VmAreaMap: vm_area_map.c; placing, finding and removing areas.  A search gives the best free
      place; the one place that its first test overlooks is named ([overlooked]).
    - VmPage: vm_page.c and the bitmaps of util.c; the page allocator, its reference counts, and
      physical memory.  TranslationMap: vm_translation_map.c over VmPage; page tables refine one
      table per map and one for the kernel, destroying a map gives back its pages, and one case
      of kernel mappings is shown to be lost.  BootMap: the page tables the boot code builds and
      the two words of the kernel image it writes, up to the first state of the kernel's
      translation maps.
    - VmCache: vm_cache.c; refines a map from places (a cache and an offset) to pages, and
      counts who holds each cache and page.  VmFault: [soft_fault] of vm_address_space.c; a
      fault maps a page with the contents the chain of caches has there, changes no other
      mapping, and keeps what the caches hold elsewhere.  VmSpace: the rest of vm_address_space.c; areas are created, faulted
      in and destroyed, and two ways in which destroying one loses count are shown.
    - KernelFs: the kernel's sd_card.c and fs.c over the same classes as SdDriver and Fs; what
      mkfs packed is served in blocks, and a read that fails is shown to stop every later one.
      KernelLoader: loader.c; after [load_program] a fault anywhere in the program maps what
      the ELF file has there, zeros past the file's end, the stack zero; and a small bss that
      shares a page with file data is shown to start with file bytes.
    - Sched, RwLock: the scheduler of thread.c and rwlock.c.  A system of threads interleaves
      their steps on one hardware thread (safe, no thread waits for nobody) and on two (a race
      is exhibited).
    - KernelHeap, Slab: kernel_heap.c and slab.c; objects in use never overlap, whatever the
      slab allocators and their users do; for blocks of [kmalloc] that are used, freed and
      allocated again it is shown that they can.  Process, ThreadLife: the rest of thread.c and the idle test
      of main.c; every thread is in one place of the scheduler and in the list of its process
      until the reaper takes it, and no process is ever destroyed.
    - Printf: vprintf of libc.c and vfprintf of libs/libc; the scanner and its states against a
      parsed format, and integers against numerals.  Stdio: stdio.c and atoi over it.
    - Vga: vga.c of both and hardware/fpga/common/vga_sequencer.sv, which runs the microprogram
      the driver makes.
    - Syscall, KernelTrap, UserCalls: syscall.c, user_copy.S, trap.c.  [system] is the kernel
      with its console, its fault handlers and the device registers; a load of the kernel from a
      user address ([load_byte]) faults pages in as handle_trap would.  UserCalls shows a trap of
      a loaded program from the frame in to the frame out: what a call reads of the program is
      what its pages hold, and its areas where there is no page yet; a bad pointer in the user
      half is an error, or stops the kernel where user_copy is not used and the code gets to it
      (exec reads a path only as far as it agrees with a name of the directory).

    What a function does while it holds its spinlock with interrupts off is one step; what it
    does outside is interleaved where the theorems depend on it.

    ** Defects

    Where the code does not do what it means to, the model does what the code does.  The
    theorems named in the manifest's findings prove the behaviour (for instance
    [kernel_mapping_lost], [wakeup_race], [destroy_area_miscounts], [shrinking_call_overruns]),
    and the theorems about the intended behaviour have the hypothesis that excludes it.

    ** Not modelled

    - Output for people: traces, statistics and register dumps of the emulator, progress bars;
      of the kernel what the address spaces, the loader and panic print.
    - Host I/O: windows, sockets, terminals, option parsing, serial port settings.
    - Assembly (start.S, trap_entry.S, context_switch.S) and the hardware but the sequencer.
    - The polling of uart.c: a character put out is there.
    - The stores a user program makes between two faults: the loader's theorem is about the
      memory as faults leave it.
    - Page faults of other threads while one waits for a file: [soft_fault] is one step, and
      [read_file] a parameter that keeps the kernel's state.
    - Of the C library (src/software/libs/libc): streams that are files, time.c, math.c, and of
      string.c all but what the modelled code calls.  dlmalloc.c there is third-party code.
    - librender (C++), applications, benchmarks and tests.

    ** This file

    The result type of fallible C code, record update, C enumerations, generic list and
    integer lemmas, and the automation shared by every file. *)

From Stdlib Require Import ZArith Lia.
From stdpp Require Export base tactics list numbers.
From stdpp Require Import options.

#[global] Unset Default Goal Selector.
#[export] Set Default Goal Selector "1".

Declare Scope nyuzi_scope.
Delimit Scope nyuzi_scope with nyuzi.
#[global] Open Scope nyuzi_scope.
#[global] Open Scope Z_scope.

(** ** Outcomes of C code

    A C function that can end the process, fail an [assert], or touch memory
    outside an object returns a [result].  The faults are kept apart:
    [HostExit] is the code's own [exit], [AssertFailed] an [assert] that does not
    hold, and [OutOfBounds] an access outside an array (undefined behaviour).
    [OutOfFuel] is the model's: a polling loop that outlived its bound. *)

Inductive fault :=
| HostExit
| AssertFailed
| OutOfBounds
| OutOfFuel.

Inductive result (A : Type) :=
| Done (a : A)
| Fault (f : fault).

Arguments Done {A} a.
Arguments Fault {A} f.

#[export] Instance fault_eq_dec : EqDecision fault.
Proof. solve_decision. Defined.

Definition bind_result {A B} (c : result A) (k : A -> result B) : result B :=
  match c with
  | Done a => k a
  | Fault f => Fault f
  end.

Notation "x <-- c ;; k" := (bind_result c (fun x => k))
  (at level 20, c at level 99, k at level 200, only parsing) : nyuzi_scope.
Notation "' p <-- c ;; k" := (bind_result c (fun x => match x with p => k end))
  (at level 20, p pattern, c at level 99, k at level 200, only parsing) : nyuzi_scope.

(** [returns Q E c]: whenever [c] completes its value satisfies [Q], and it can
    only fault with a fault allowed by [E]. *)
Definition returns {A} (Q : A -> Prop) (E : fault -> Prop) (c : result A) : Prop :=
  match c with
  | Done a => Q a
  | Fault f => E f
  end.

Lemma returns_done {A} (Q : A -> Prop) E a : Q a -> returns Q E (Done a).
Proof. done. Qed.

Lemma returns_fault {A} (Q : A -> Prop) (E : fault -> Prop) f :
  E f -> returns Q E (Fault f).
Proof. done. Qed.

Lemma returns_bind {A B} (P : A -> Prop) (Q : B -> Prop) E c (k : A -> result B) :
  returns P E c -> (forall a, P a -> returns Q E (k a)) ->
  returns Q E (bind_result c k).
Proof. destruct c; simpl; auto. Qed.

Lemma returns_weaken {A} (P Q : A -> Prop) (E F : fault -> Prop) c :
  returns P E c -> (forall a, P a -> Q a) -> (forall f, E f -> F f) -> returns Q F c.
Proof. destruct c; simpl; auto. Qed.

Lemma returns_and {A} (P Q : A -> Prop) E F c :
  returns P E c -> returns Q F c ->
  returns (fun a => P a /\ Q a) (fun f => E f /\ F f) c.
Proof. destruct c; simpl; auto. Qed.

Lemma returns_Done_inv {A} (Q : A -> Prop) E c a :
  returns Q E c -> c = Done a -> Q a.
Proof. intros H ->. exact H. Qed.

Lemma bind_Done_inv {A B} (c : result A) (k : A -> result B) b :
  bind_result c k = Done b -> exists a, c = Done a /\ k a = Done b.
Proof. destruct c; [eauto | discriminate]. Qed.

Lemma bind_assoc {A B C} (c : result A) (f : A -> result B) (g : B -> result C) :
  bind_result (bind_result c f) g = bind_result c (fun a => bind_result (f a) g).
Proof. by destruct c. Qed.

(** Repeating a fallible step [n] times. *)
Fixpoint iterate_result {A} (n : nat) (step : A -> result A) (a : A) : result A :=
  match n with
  | O => Done a
  | S n' => a' <-- step a;; iterate_result n' step a'
  end.

Lemma returns_iterate {A} (I : A -> Prop) E (step : A -> result A) n a :
  (forall a, I a -> returns I E (step a)) -> I a ->
  returns I E (iterate_result n step a).
Proof.
  intros Hstep. revert a. induction n as [|n IH]; intros a Ha; simpl; [done|].
  eapply returns_bind; [by apply Hstep|]. auto.
Qed.

(** ** Record update

    [r <| f := v |>] replaces one field of a record.  The instance for a field is
    found by abstracting the projection in the record's eta expansion, which the
    record provides as its [Fields] instance. *)

Class Fields (R : Type) := rebuild : R -> R.
Class Update {R E : Type} (field : R -> E) := update : (E -> E) -> R -> R.

Ltac find_update :=
  match goal with
  | |- @Update ?R ?E ?field =>
      let inst := constr:(_ : Fields R) in
      let g := fresh "g" in
      let r := fresh "r" in
      refine (fun (g : E -> E) (r : R) => _);
      let whole := eval hnf in (inst r) in
      let parts := eval pattern (field r) in whole in
      lazymatch parts with
      | ?rest _ => let body := eval cbv beta in (rest (g (field r))) in exact body
      end
  end.

#[export] Hint Extern 1 (Update _) => find_update : typeclass_instances.

#[warnings="-postfix-notation-not-level-1"]
Notation "r <| f := v |>" := (update (field := f) (fun _ => v) r)
  (at level 12, left associativity, f at next level, v at level 99) : nyuzi_scope.
#[warnings="-postfix-notation-not-level-1"]
Notation "r <| f ::= g |>" := (update (field := f) g r)
  (at level 12, left associativity, f at next level, g at level 99) : nyuzi_scope.

(** ** C enumerations

    A C enum is an inductive type with the integer each constructor stands for.
    An integer outside the enumerators decodes to [None]: that is the [default]
    branch of a [switch]. *)

Class CEnum (E : Type) := {
  enum_value : E -> Z;
  enum_all : list E;
  enum_all_complete : forall e, e ∈ enum_all;
  enum_value_inj : forall e1 e2, enum_value e1 = enum_value e2 -> e1 = e2
}.

Definition enum_of_Z {E} `{CEnum E} (z : Z) : option E :=
  List.find (fun e => enum_value e =? z) enum_all.

Lemma enum_of_Z_value {E} `{CEnum E} (e : E) : enum_of_Z (enum_value e) = Some e.
Proof.
  unfold enum_of_Z. destruct (List.find _ _) as [e'|] eqn:Hf.
  - apply List.find_some in Hf as [_ Heq]. apply Z.eqb_eq in Heq.
    f_equal. by apply enum_value_inj.
  - pose proof (List.find_none _ _ Hf e (proj1 (list_elem_of_In _ _) (enum_all_complete e))) as Hn.
    simpl in Hn. by rewrite Z.eqb_refl in Hn.
Qed.

Lemma enum_of_Z_Some {E} `{CEnum E} z (e : E) :
  enum_of_Z z = Some e <-> z = enum_value e.
Proof.
  split; [|intros ->; apply enum_of_Z_value].
  intros Hf. apply List.find_some in Hf as [_ Heq]. by apply Z.eqb_eq in Heq.
Qed.

Ltac solve_enum :=
  match goal with
  | |- forall e, e ∈ _ => intros []; rewrite list_elem_of_In; simpl; tauto
  | |- forall e1 e2, _ = _ -> e1 = e2 =>
      intros [] []; simpl; intros Hv; first [reflexivity | discriminate Hv]
  end.

(** ** Automation *)

(** Splits on the enumerator a field decodes to. *)
Ltac destruct_enum :=
  match goal with
  | |- context [match ?x with _ => _ end] =>
      match x with enum_of_Z _ => destruct x as [[]|] end
  end.

(** Splits every boolean and option the goal branches on. *)
Ltac split_cases :=
  repeat match goal with
  | |- context [match ?x with _ => _ end] => destruct x eqn:?; simpl
  end.

(** Turns boolean comparisons on integers into arithmetic hypotheses. *)
Ltac bool_to_prop :=
  repeat match goal with
  | H : (_ && _)%bool = true |- _ => apply andb_prop in H as [? ?]
  | H : (_ || _)%bool = false |- _ => apply orb_false_elim in H as [? ?]
  | H : negb _ = true |- _ => apply negb_true_iff in H
  | H : negb _ = false |- _ => apply negb_false_iff in H
  | H : (_ =? _) = true |- _ => apply Z.eqb_eq in H
  | H : (_ =? _) = false |- _ => apply Z.eqb_neq in H
  | H : (_ <? _) = true |- _ => apply Z.ltb_lt in H
  | H : (_ <? _) = false |- _ => apply Z.ltb_ge in H
  | H : (_ <=? _) = true |- _ => apply Z.leb_le in H
  | H : (_ <=? _) = false |- _ => apply Z.leb_gt in H
  end.

(** Evaluates a decidable proposition on concrete values. *)
Ltac vm_decide := apply (bool_decide_unpack _); vm_compute; exact I.
