(* ===== verification/Word.v ===== *)
(** * Word: C's fixed-width integers and the bit helpers of tools/emulator/util.h

    A [uint32_t] is a [Z] in [0 .. 2^32 - 1].  Arithmetic wraps explicitly with
    [u32]; [s32] reads the same bits as an [int32_t]. *)

From S2P Require Export Prelude.

(** ** Ranges and conversions *)

Definition is_unsigned (w z : Z) : Prop := 0 <= z < 2 ^ w.
Definition is_u32 (z : Z) : Prop := is_unsigned 32 z.
Definition is_u64 (z : Z) : Prop := is_unsigned 64 z.

#[export]
Instance is_unsigned_dec w z : Decision (is_unsigned w z).
Proof. unfold is_unsigned. apply _. Defined.
#[export]
Instance is_u32_dec z : Decision (is_u32 z).
Proof. unfold is_u32. apply _. Defined.
#[export]
Instance is_u64_dec z : Decision (is_u64 z).
Proof. unfold is_u64. apply _. Defined.

(** Conversion to [uint8_t], [uint16_t], [uint32_t], [uint64_t]. *)
Definition u8 (z : Z) : Z := z mod 2 ^ 8.
Definition u16 (z : Z) : Z := z mod 2 ^ 16.
Definition u32 (z : Z) : Z := z mod 2 ^ 32.
Definition u64 (z : Z) : Z := z mod 2 ^ 64.

(** The two's complement reading of a [w]-bit pattern. *)
Definition signed (w z : Z) : Z :=
  let z := z mod 2 ^ w in if z <? 2 ^ (w - 1) then z else z - 2 ^ w.
Definition s8 (z : Z) : Z := signed 8 z.
Definition s16 (z : Z) : Z := signed 16 z.
Definition s32 (z : Z) : Z := signed 32 z.

(** [~x] on a [uint32_t]. *)
Definition lnot32 (z : Z) : Z := u32 (Z.lnot z).

(** A C comparison used as a value. *)
Definition b2z (b : bool) : Z := if b then 1 else 0.

(** ** util.h *)

Definition endian_swap32 (value : Z) : Z :=
  Z.lor (Z.lor (Z.lor
    (Z.shiftl (Z.land value 0x000000ff) 24)
    (Z.shiftl (Z.land value 0x0000ff00) 8))
    (Z.shiftr (Z.land value 0x00ff0000) 8))
    (Z.shiftr (Z.land value 0xff000000) 24).

Definition extract_unsigned_bits (word low_bit size : Z) : Z :=
  Z.land (Z.shiftr word low_bit) (Z.shiftl 1 size - 1).

Definition extract_signed_bits (word low_bit size : Z) : Z :=
  let mask := Z.shiftl 1 size - 1 in
  let value := Z.land (Z.shiftr word low_bit) mask in
  if Z.land value (Z.shiftl 1 (size - 1)) =? 0 then value
  else Z.lor value (lnot32 mask).

(** [__builtin_clz] and [__builtin_ctz] of a non-zero [uint32_t]. *)
Definition builtin_clz (value : Z) : Z := 31 - Z.log2 value.

Fixpoint trailing_zeros (p : positive) : Z :=
  match p with
  | xO q => 1 + trailing_zeros q
  | _ => 0
  end.

Definition builtin_ctz (value : Z) : Z :=
  match value with Zpos p => trailing_zeros p | _ => 0 end.

(** [(1 << (index + 1)) - 1] is computed in [int].  For [index = 31] the shift
    count is the width, which C leaves undefined: [host_shl_32] is the value the
    host produces for [1 << 32] (1 on x86, 0 on ARM). *)
Definition lower_bits_mask (host_shl_32 index : Z) : Z :=
  u32 ((if index + 1 =? 32 then host_shl_32 else Z.shiftl 1 (index + 1)) - 1).

Definition next_set_bit_on (host_shl_32 bitmask index : Z) : Z :=
  let lower_mask := Z.land (lower_bits_mask host_shl_32 index) bitmask in
  if lower_mask =? 0 then 31 - builtin_clz bitmask
  else 31 - builtin_clz lower_mask.

Definition next_set_bit (bitmask index : Z) : Z := next_set_bit_on 1 bitmask index.

(** ** Ranges *)

Create HintDb words discriminated.
#[export] Hint Constants Opaque : words.
#[export] Hint Variables Opaque : words.

Lemma is_unsigned_bits w z :
  0 <= w -> is_unsigned w z <-> 0 <= z /\ forall i, w <= i -> Z.testbit z i = false.
Proof.
  intros Hw. unfold is_unsigned. split.
  - intros [H0 H1]. split; [done|]. intros i Hi.
    destruct (Z.eq_dec z 0) as [->|Hz]; [apply Z.testbit_0_l|].
    apply Z.bits_above_log2; [done|]. apply Z.log2_lt_pow2; [lia|].
    pose proof (Z.pow_le_mono_r 2 w i). lia.
  - intros [H0 Hbits]. split; [done|].
    destruct (Z.lt_ge_cases z (2 ^ w)) as [?|Hge]; [done|exfalso].
    assert (0 < z) by (pose proof (Z.pow_pos_nonneg 2 w); lia).
    assert (Hb : Z.testbit z (Z.log2 z) = true) by by apply Z.bit_log2.
    rewrite Hbits in Hb; [done|]. apply Z.log2_le_pow2; lia.
Qed.

Lemma is_unsigned_mod w z : 0 <= w -> is_unsigned w (z mod 2 ^ w).
Proof. intros Hw. apply Z.mod_pos_bound. by apply Z.pow_pos_nonneg. Qed.

Lemma is_unsigned_lor w a b :
  0 <= w -> is_unsigned w a -> is_unsigned w b -> is_unsigned w (Z.lor a b).
Proof.
  intros Hw. rewrite !is_unsigned_bits by done. intros [Ha Ha'] [Hb Hb']. split.
  - by apply Z.lor_nonneg.
  - intros i Hi. by rewrite Z.lor_spec, Ha', Hb' by done.
Qed.

Lemma is_unsigned_lxor w a b :
  0 <= w -> is_unsigned w a -> is_unsigned w b -> is_unsigned w (Z.lxor a b).
Proof.
  intros Hw. rewrite !is_unsigned_bits by done. intros [Ha Ha'] [Hb Hb']. split.
  - apply Z.lxor_nonneg. lia.
  - intros i Hi. by rewrite Z.lxor_spec, Ha', Hb' by done.
Qed.

Lemma is_unsigned_land w a b :
  0 <= w -> is_unsigned w a -> is_unsigned w (Z.land a b).
Proof.
  intros Hw. rewrite !is_unsigned_bits by done. intros [Ha Ha']. split.
  - apply Z.land_nonneg. lia.
  - intros i Hi. by rewrite Z.land_spec, Ha' by done.
Qed.

Lemma is_unsigned_land_r w a b :
  0 <= w -> is_unsigned w b -> is_unsigned w (Z.land a b).
Proof. rewrite Z.land_comm. apply is_unsigned_land. Qed.

Lemma is_unsigned_shiftr w a n :
  0 <= w -> 0 <= n -> is_unsigned w a -> is_unsigned w (Z.shiftr a n).
Proof.
  intros Hw Hn. rewrite !is_unsigned_bits by done. intros [Ha Ha']. split.
  - by apply Z.shiftr_nonneg.
  - intros i Hi. rewrite Z.shiftr_spec by lia. apply Ha'. lia.
Qed.

Lemma is_unsigned_mono w v z : 0 <= w <= v -> is_unsigned w z -> is_unsigned v z.
Proof. unfold is_unsigned. intros ??. pose proof (Z.pow_le_mono_r 2 w v). lia. Qed.

Lemma is_u32_u32 z : is_u32 (u32 z).
Proof. by apply is_unsigned_mod. Qed.
Lemma is_u32_lor a b : is_u32 a -> is_u32 b -> is_u32 (Z.lor a b).
Proof. by apply is_unsigned_lor. Qed.
Lemma is_u32_lxor a b : is_u32 a -> is_u32 b -> is_u32 (Z.lxor a b).
Proof. by apply is_unsigned_lxor. Qed.
Lemma is_u32_land a b : is_u32 a -> is_u32 (Z.land a b).
Proof. by apply is_unsigned_land. Qed.
Lemma is_u32_land_r a b : is_u32 b -> is_u32 (Z.land a b).
Proof. by apply is_unsigned_land_r. Qed.
Lemma is_u32_shiftr a n : 0 <= n -> is_u32 a -> is_u32 (Z.shiftr a n).
Proof. by apply is_unsigned_shiftr. Qed.
Lemma is_u32_lnot32 z : is_u32 (lnot32 z).
Proof. apply is_u32_u32. Qed.
Lemma is_u32_b2z b : is_u32 (b2z b).
Proof. destruct b; split; simpl; lia. Qed.
Lemma u32_id z : is_u32 z -> u32 z = z.
Proof. apply Z.mod_small. Qed.
Lemma signed_u32 z : s32 (u32 z) = s32 z.
Proof. unfold s32, signed, u32. by rewrite Zmod_mod. Qed.

Lemma s32_small z : - 2 ^ 31 <= z < 2 ^ 31 -> s32 z = z.
Proof.
  intros Hz. unfold s32, signed. cbv zeta. change (2 ^ (32 - 1)) with (2 ^ 31).
  destruct (Z.lt_ge_cases z 0).
  - rewrite <- (Z_mod_plus_full z 1), Z.mod_small by lia.
    destruct (Z.ltb_spec (z + 1 * 2 ^ 32) (2 ^ 31)); lia.
  - rewrite Z.mod_small by lia. destruct (Z.ltb_spec z (2 ^ 31)); lia.
Qed.
Lemma is_u32_const z : (0 <=? z) && (z <? 2 ^ 32) = true -> is_u32 z.
Proof. intros ?. bool_to_prop. by split. Qed.

#[export] Hint Resolve is_u32_u32 is_u32_lor is_u32_lxor is_u32_lnot32 is_u32_b2z : words.
#[export] Hint Resolve is_u32_land | 2 : words.
#[export] Hint Resolve is_u32_land_r | 3 : words.
#[export] Hint Extern 2 (is_u32 (Z.shiftr _ _)) => apply is_u32_shiftr; [lia|] : words.
#[export] Hint Extern 1 (is_u32 Z0) => apply is_u32_const; reflexivity : words.
#[export] Hint Extern 1 (is_u32 (Zpos _)) => apply is_u32_const; reflexivity : words.

(** ** Bit fields *)

Lemma extract_unsigned_bits_spec word low size :
  0 <= low -> 0 <= size ->
  extract_unsigned_bits word low size = (word / 2 ^ low) mod 2 ^ size.
Proof.
  intros Hl Hs. unfold extract_unsigned_bits.
  rewrite Z.shiftl_1_l, Z.shiftr_div_pow2 by done.
  replace (2 ^ size - 1) with (Z.ones size) by (rewrite Z.ones_equiv; lia).
  by rewrite Z.land_ones.
Qed.

Lemma extract_unsigned_bits_range word low size :
  0 <= low -> 0 <= size -> is_unsigned size (extract_unsigned_bits word low size).
Proof. intros. rewrite extract_unsigned_bits_spec by done. by apply is_unsigned_mod. Qed.

Lemma is_u32_extract_unsigned word low size :
  0 <= low -> 0 <= size <= 32 -> is_u32 (extract_unsigned_bits word low size).
Proof.
  intros. apply (is_unsigned_mono size); [lia|]. apply extract_unsigned_bits_range; lia.
Qed.

Lemma is_u32_extract_signed word low size :
  0 <= low -> 0 <= size <= 32 -> is_u32 (extract_signed_bits word low size).
Proof.
  intros Hl Hs. unfold extract_signed_bits.
  pose proof (is_u32_extract_unsigned word low size Hl Hs) as Hu.
  unfold extract_unsigned_bits in Hu. destruct (_ =? _); auto with words.
Qed.

#[export] Hint Extern 2 (is_u32 (extract_unsigned_bits _ _ _)) =>
  apply is_u32_extract_unsigned; lia : words.
#[export] Hint Extern 2 (is_u32 (extract_signed_bits _ _ _)) =>
  apply is_u32_extract_signed; lia : words.

Lemma is_signed_range w z : 0 < w -> - 2 ^ (w - 1) <= signed w z < 2 ^ (w - 1).
Proof.
  intros Hw. unfold signed. cbv zeta.
  pose proof (is_unsigned_mod w z ltac:(lia)) as [H0 H1].
  assert (2 ^ w = 2 * 2 ^ (w - 1)) by (rewrite <- Z.pow_succ_r by lia; f_equal; lia).
  case_match; bool_to_prop; lia.
Qed.

Lemma signed_mod w z : 0 < w -> signed w z mod 2 ^ w = z mod 2 ^ w.
Proof.
  intros Hw. unfold signed. cbv zeta.
  case_match; [|rewrite Zminus_mod, Z_mod_same_full, Z.sub_0_r]; by rewrite !Zmod_mod.
Qed.

Lemma u32_s32 z : u32 (s32 z) = u32 z.
Proof. by apply signed_mod. Qed.

(** ** Byte order *)

(** Bit [i] of the swapped word is the same bit of the opposite byte. *)
Definition swapped_bit (i : Z) : Z := 8 * (3 - i / 8) + i mod 8.

Ltac small_cases i n :=
  match n with
  | 0 => exfalso; lia
  | _ => let n' := eval compute in (n - 1) in
         destruct (Z.eq_dec i n') as [->|?]; [|small_cases i n']
  end.

Lemma endian_swap32_bit v i :
  0 <= i < 32 -> Z.testbit (endian_swap32 v) i = Z.testbit v (swapped_bit i).
Proof.
  intros Hi. unfold endian_swap32.
  rewrite !Z.lor_spec, !Z.shiftl_spec, !Z.shiftr_spec, !Z.land_spec by lia.
  small_cases i 32; cbn -[Z.testbit];
    repeat match goal with
    | |- context [Z.testbit ?c ?k] =>
        let b := eval vm_compute in (Z.testbit c k) in
        match b with
        | true => change (Z.testbit c k) with true
        | false => change (Z.testbit c k) with false
        end
    end;
    rewrite ?andb_false_r, ?andb_true_r, ?orb_false_r, ?orb_false_l; reflexivity.
Qed.

Lemma is_u32_endian_swap32 v : is_u32 v -> is_u32 (endian_swap32 v).
Proof.
  intros Hv. unfold endian_swap32.
  assert (Hs : forall m k, 0 <= m -> 0 <= k -> m * 2 ^ k < 2 ^ 32 ->
    is_u32 (Z.shiftl (Z.land v m) k)).
  { intros m k Hm Hk Hlt. rewrite Z.shiftl_mul_pow2 by done.
    assert (0 <= Z.land v m <= m).
    { split; [apply Z.land_nonneg; lia|].
      rewrite Z.land_comm. apply Z.ldiff_le; [done|].
      apply Z.bits_inj'; intros i ?.
      rewrite Z.ldiff_spec, Z.land_spec, Z.bits_0. by destruct (Z.testbit m i), (Z.testbit v i). }
    pose proof (Z.pow_pos_nonneg 2 k). split; nia. }
  repeat apply is_u32_lor; first [apply Hs; lia | auto with words].
Qed.
#[export] Hint Resolve is_u32_endian_swap32 : words.

Lemma u32_bits_inj a b :
  is_u32 a -> is_u32 b ->
  (forall i, 0 <= i < 32 -> Z.testbit a i = Z.testbit b i) -> a = b.
Proof.
  intros Ha Hb Hbits. apply Z.bits_inj'. intros i Hi.
  destruct (Z.lt_ge_cases i 32) as [?|?]; [by apply Hbits|].
  apply is_unsigned_bits in Ha as [_ ->]; [|done..].
  by apply is_unsigned_bits in Hb as [_ ->].
Qed.

Lemma swapped_bit_involutive i :
  0 <= i < 32 -> 0 <= swapped_bit i < 32 /\ swapped_bit (swapped_bit i) = i.
Proof. unfold swapped_bit. intros. Z.div_mod_to_equations. lia. Qed.

Lemma endian_swap32_involutive v : is_u32 v -> endian_swap32 (endian_swap32 v) = v.
Proof.
  intros Hv. apply u32_bits_inj; auto with words. intros i Hi.
  destruct (swapped_bit_involutive i Hi) as [Hr Heq].
  by rewrite !endian_swap32_bit, Heq.
Qed.

(** ** Scanning bits *)

Lemma builtin_clz_log2 z : 31 - builtin_clz z = Z.log2 z.
Proof. unfold builtin_clz. lia. Qed.

Lemma builtin_clz_range z : 0 < z -> is_u32 z -> 0 <= builtin_clz z < 32.
Proof.
  unfold builtin_clz. intros Hz [_ Hlt].
  pose proof (Z.log2_nonneg z). apply Z.log2_lt_pow2 in Hlt; lia.
Qed.

Lemma trailing_zeros_spec p :
  0 <= trailing_zeros p /\ Z.testbit (Zpos p) (trailing_zeros p) = true /\
  forall i, 0 <= i < trailing_zeros p -> Z.testbit (Zpos p) i = false.
Proof.
  induction p as [p _|p (H0 & H1 & H2)|]; [split_and!; [done..|intros; simpl in *; lia]| |
    split_and!; [done..|intros; simpl in *; lia]].
  cbn [trailing_zeros]. change (Zpos p~0) with (2 * Zpos p). split_and!; [lia| |].
  - rewrite Z.add_comm. change (1 + trailing_zeros p) with (1 + trailing_zeros p).
    replace (trailing_zeros p + 1) with (Z.succ (trailing_zeros p)) by lia.
    by rewrite Z.testbit_even_succ.
  - intros i Hi. destruct (Z.eq_dec i 0) as [->|?]; [apply Z.testbit_even_0|].
    replace i with (Z.succ (i - 1)) by lia. rewrite Z.testbit_even_succ by lia.
    apply H2. lia.
Qed.

Lemma builtin_ctz_spec z :
  0 < z ->
  0 <= builtin_ctz z /\ Z.testbit z (builtin_ctz z) = true /\
  forall i, 0 <= i < builtin_ctz z -> Z.testbit z i = false.
Proof. intros. destruct z; [lia| |lia]. apply trailing_zeros_spec. Qed.

Lemma builtin_ctz_range z : 0 < z -> is_u32 z -> 0 <= builtin_ctz z < 32.
Proof.
  intros Hz Hu. destruct (builtin_ctz_spec z Hz) as (H0 & H1 & _). split; [done|].
  apply is_unsigned_bits in Hu as [_ Hb]; [|lia].
  destruct (Z.lt_ge_cases (builtin_ctz z) 32); [done|]. by rewrite Hb in H1.
Qed.

(** The bit chosen is set; it is the highest set bit at or below [index] if there
    is one, and otherwise the highest set bit of all. *)
Definition chosen_bit (bitmask index r : Z) : Prop :=
  0 <= r < 32 /\ Z.testbit bitmask r = true /\
  ((r <= index /\ forall i, r < i <= index -> Z.testbit bitmask i = false) \/
   ((forall i, 0 <= i <= index -> Z.testbit bitmask i = false) /\
    forall i, r < i -> Z.testbit bitmask i = false)).

Lemma lower_bits_mask_land host bitmask index :
  is_u32 bitmask -> 0 <= index < 32 -> host = 0 \/ host = 1 ->
  Z.land (lower_bits_mask host index) bitmask = bitmask mod 2 ^ (index + 1) \/
  index = 31 /\ Z.land (lower_bits_mask host index) bitmask = 0.
Proof.
  intros Hu Hi Hh. unfold lower_bits_mask.
  assert (Hm : forall k, 0 <= k -> Z.land (2 ^ k - 1) bitmask = bitmask mod 2 ^ k).
  { intros k Hk. replace (2 ^ k - 1) with (Z.ones k) by (rewrite Z.ones_equiv; lia).
    by rewrite Z.land_comm, Z.land_ones. }
  destruct (Z.eqb_spec (index + 1) 32) as [He|He].
  - destruct Hh as [->| ->].
    + left. rewrite He. change (u32 (0 - 1)) with (2 ^ 32 - 1). by apply Hm.
    + right. split; [lia|]. done.
  - left. rewrite Z.shiftl_1_l, u32_id; [apply Hm; lia|].
    pose proof (Z.pow_le_mono_r 2 (index + 1) 31).
    pose proof (Z.pow_pos_nonneg 2 (index + 1)). split; lia.
Qed.

Lemma log2_top_bit z :
  0 < z -> is_u32 z -> 0 <= Z.log2 z < 32 /\ Z.testbit z (Z.log2 z) = true /\
  forall i, Z.log2 z < i -> Z.testbit z i = false.
Proof.
  intros Hz Hu. split_and!; [apply Z.log2_nonneg| |by apply Z.bit_log2|].
  - apply Z.log2_lt_pow2; [done|]. apply Hu.
  - intros. apply Z.bits_above_log2; lia.
Qed.

Lemma next_set_bit_on_chosen host bitmask index :
  host = 0 \/ host = 1 -> 0 < bitmask -> is_u32 bitmask -> 0 <= index < 32 ->
  chosen_bit bitmask index (next_set_bit_on host bitmask index).
Proof.
  intros Hh Hp Hu Hi. unfold next_set_bit_on. rewrite !builtin_clz_log2.
  destruct (log2_top_bit bitmask Hp Hu) as (Ht1 & Ht2 & Ht3).
  destruct (lower_bits_mask_land host bitmask index Hu Hi Hh) as [->|[-> ->]]; cycle 1.
  { rewrite Z.eqb_refl. split_and!; [lia..|done|left].
    split; [lia|]. intros. apply Ht3. lia. }
  assert (Hlow : forall i, 0 <= i <= index ->
    Z.testbit (bitmask mod 2 ^ (index + 1)) i = Z.testbit bitmask i)
    by (intros; apply Z.mod_pow2_bits_low; lia).
  destruct (Z.eqb_spec (bitmask mod 2 ^ (index + 1)) 0) as [H0|H0].
  { split_and!; [lia..|done|right]. split; [|done].
    intros i ?. by rewrite <- Hlow, H0, Z.testbit_0_l. }
  pose proof (is_unsigned_mod (index + 1) bitmask ltac:(lia)) as [Hm1 Hm2].
  assert (Hlt : Z.log2 (bitmask mod 2 ^ (index + 1)) < index + 1)
    by (apply Z.log2_lt_pow2; lia).
  pose proof (Z.log2_nonneg (bitmask mod 2 ^ (index + 1))).
  assert (Hb : Z.testbit (bitmask mod 2 ^ (index + 1))
    (Z.log2 (bitmask mod 2 ^ (index + 1))) = true) by (apply Z.bit_log2; lia).
  split_and!; [lia..| |left; split; [lia|]].
  - rewrite <- Hb. symmetry. apply Hlow. lia.
  - intros i ?. rewrite <- Hlow by lia. apply Z.bits_above_log2; lia.
Qed.

(** ** Masks *)

Lemma land_disjoint a b m n :
  Z.land m n = 0 -> Z.land (Z.land a m) (Z.land b n) = 0.
Proof.
  intros Hmn. apply Z.bits_inj'. intros i _. rewrite !Z.land_spec, Z.testbit_0_l.
  assert (Hi : Z.testbit (Z.land m n) i = false) by (rewrite Hmn; apply Z.testbit_0_l).
  rewrite Z.land_spec in Hi.
  by destruct (Z.testbit a i), (Z.testbit b i), (Z.testbit m i), (Z.testbit n i).
Qed.

Lemma lor_disjoint_add a b : Z.land a b = 0 -> Z.lor a b = a + b.
Proof. intros H. rewrite Z.add_nocarry_lxor by done. symmetry. by apply Z.lxor_lor. Qed.

(** ** Lane masks: [mask & (1 << lane)] *)

Definition lane_enabled (mask : Z) (lane : nat) : bool :=
  negb (Z.land mask (Z.shiftl 1 (Z.of_nat lane)) =? 0).

Lemma lane_enabled_testbit mask lane : lane_enabled mask lane = Z.testbit mask (Z.of_nat lane).
Proof.
  unfold lane_enabled. rewrite Z.shiftl_1_l.
  destruct (Z.testbit mask (Z.of_nat lane)) eqn:Hb.
  - apply negb_true_iff, Z.eqb_neq. intros H0.
    apply (f_equal (fun z => Z.testbit z (Z.of_nat lane))) in H0.
    by rewrite Z.land_spec, Hb, Z.pow2_bits_true, Z.testbit_0_l in H0 by lia.
  - apply negb_false_iff, Z.eqb_eq. apply Z.bits_inj'. intros i Hi.
    rewrite Z.land_spec, Z.testbit_0_l.
    destruct (Z.eq_dec i (Z.of_nat lane)) as [->|?]; [by rewrite Hb|].
    rewrite Z.pow2_bits_false by lia. apply andb_false_r.
Qed.
