(* ===== verification/Float32.v ===== *)
(** * Float32: IEEE 754 single precision, as the emulator's C [float]

    [value_as_float] and [value_as_int] of tools/emulator/util.h reinterpret a
    32-bit pattern.  The arithmetic is the Standard Library's executable
    specification of IEEE 754 (round to nearest, ties to even) at 24 bits of
    precision, which is what C's [float] operators compute. *)

From Stdlib Require Export SpecFloat.
From S2P Require Export Word.

Definition f32_prec : Z := 24.
Definition f32_emax : Z := 128.

(** ** Bit patterns *)

Definition value_as_float (value : Z) : spec_float :=
  let sign := Z.testbit value 31 in
  let expo := extract_unsigned_bits value 23 8 in
  let frac := extract_unsigned_bits value 0 23 in
  if expo =? 255 then if frac =? 0 then S754_infinity sign else S754_nan
  else if expo =? 0 then
    match frac with
    | Zpos m => S754_finite sign m (-149)
    | _ => S754_zero sign
    end
  else
    match frac + 2 ^ 23 with
    | Zpos m => S754_finite sign m (expo - 150)
    | _ => S754_nan
    end.

Definition sign_bit (s : bool) : Z := if s then 2 ^ 31 else 0.

(** Every NaN becomes the one pattern 0x7fffffff. *)
Definition value_as_int (value : spec_float) : Z :=
  match value with
  | S754_nan => 0x7fffffff
  | S754_zero s => sign_bit s
  | S754_infinity s => sign_bit s + 255 * 2 ^ 23
  | S754_finite s m e =>
      if Zpos m <? 2 ^ 23 then u32 (sign_bit s + Zpos m)
      else u32 (sign_bit s + (e + 150) * 2 ^ 23 + (Zpos m - 2 ^ 23))
  end.

(** ** C operators on [float] *)

Definition f32_add := SFadd f32_prec f32_emax.
Definition f32_sub := SFsub f32_prec f32_emax.
Definition f32_mul := SFmul f32_prec f32_emax.
Definition f32_div := SFdiv f32_prec f32_emax.

(** [(float)(int32_t) value]. *)
Definition f32_of_int (z : Z) : spec_float := binary_normalize f32_prec f32_emax z 0 false.

Definition f32_one : spec_float := S754_finite false 8388608 (-23).

(** [(int32_t) f], rounding towards zero.  C leaves a value outside [int32_t]
    undefined; the model returns what x86's conversion instruction does, the
    "integer indefinite" -2^31. *)
Definition f32_to_int (f : spec_float) : Z :=
  match f with
  | S754_zero _ => 0
  | S754_finite s m e =>
      let mag := Z.shiftl (Zpos m) e in
      let v := if s then - mag else mag in
      if (- 2 ^ 31 <=? v) && (v <? 2 ^ 31) then v else - 2 ^ 31
  | _ => - 2 ^ 31
  end.

Definition is_nan (f : spec_float) : bool :=
  match f with S754_nan => true | _ => false end.

(** C's comparison operators: all but [!=] are false when an operand is NaN. *)
Definition f32_gt (x y : spec_float) : bool := SFltb y x.
Definition f32_ge (x y : spec_float) : bool := SFleb y x.
Definition f32_lt (x y : spec_float) : bool := SFltb x y.
Definition f32_le (x y : spec_float) : bool := SFleb x y.
Definition f32_eq (x y : spec_float) : bool := SFeqb x y.
Definition f32_ne (x y : spec_float) : bool := negb (SFeqb x y).

(** ** Facts *)

Lemma is_u32_value_as_int f : is_u32 (value_as_int f).
Proof.
  destruct f as [[]|[]| |s m e]; simpl; try (by split); auto with words.
  destruct (_ <? _); auto with words.
Qed.
#[export] Hint Resolve is_u32_value_as_int : words.

(** A u32 is the sum of its sign, exponent and fraction fields. *)
Lemma float_fields v :
  is_u32 v ->
  v = sign_bit (Z.testbit v 31) + extract_unsigned_bits v 23 8 * 2 ^ 23
      + extract_unsigned_bits v 0 23.
Proof.
  intros [H0 H1]. rewrite !extract_unsigned_bits_spec by lia.
  rewrite Z.testbit_odd, Z.shiftr_div_pow2 by lia.
  assert (0 <= v / 2 ^ 31 < 2) by (split; [apply Z.div_pos | apply Z.div_lt_upper_bound]; lia).
  assert (Hs : sign_bit (Z.odd (v / 2 ^ 31)) = v / 2 ^ 31 * 2 ^ 31).
  { assert (v / 2 ^ 31 = 0 \/ v / 2 ^ 31 = 1) as [-> | ->] by lia; reflexivity. }
  rewrite Hs. change (2 ^ 0) with 1. rewrite Z.div_1_r.
  Z.div_mod_to_equations. lia.
Qed.

(** ** Reinterpreting a pattern both ways *)

Definition is_nan_pattern (v : Z) : Prop :=
  extract_unsigned_bits v 23 8 = 255 /\ extract_unsigned_bits v 0 23 <> 0.

Lemma value_as_int_as_float v :
  is_u32 v -> ~ is_nan_pattern v -> value_as_int (value_as_float v) = v.
Proof.
  intros Hv Hnan. pose proof (float_fields v Hv) as Hf. unfold value_as_float, is_nan_pattern in *.
  pose proof (extract_unsigned_bits_range v 23 8 ltac:(lia) ltac:(lia)) as [He0 He1].
  pose proof (extract_unsigned_bits_range v 0 23 ltac:(lia) ltac:(lia)) as [Hm0 Hm1].
  set (e := extract_unsigned_bits v 23 8) in *. set (m := extract_unsigned_bits v 0 23) in *.
  set (s := Z.testbit v 31) in *.
  destruct (Z.eqb_spec e 255) as [He|He].
  { destruct (Z.eqb_spec m 0); [|tauto]. unfold value_as_int. lia. }
  destruct (Z.eqb_spec e 0) as [He'|He'].
  - destruct m as [|p|p]; [simpl; lia| |lia].
    unfold value_as_int. destruct (Z.ltb_spec (Zpos p) (2 ^ 23)); [|lia].
    rewrite u32_id; [lia|]. replace (_ + _) with v by lia. done.
  - destruct (m + 2 ^ 23) as [|p|p] eqn:Hp; [lia| |lia].
    unfold value_as_int. destruct (Z.ltb_spec (Zpos p) (2 ^ 23)); [lia|].
    replace (sign_bit s + (e - 150 + 150) * 2 ^ 23 + (Zpos p - 2 ^ 23)) with v by lia.
    by apply u32_id.
Qed.

Lemma value_as_int_nan v :
  is_nan_pattern v -> value_as_int (value_as_float v) = 0x7fffffff.
Proof.
  intros [He Hm]. unfold value_as_float. rewrite He. simpl.
  destruct (Z.eqb_spec (extract_unsigned_bits v 0 23) 0); done.
Qed.
