(* ===== verification/Isa.v ===== *)
(** * Isa: tools/emulator/instruction-set.h

    The enumerations of the instruction set, each an inductive type with the
    encoding its constructors have.  A field of an instruction is cast to an enum
    in C; a value outside the enumerators is [None] here and reaches the
    [default] branch of the switch that reads it. *)

From S2P Require Export Word.

Definition LINK_REG : nat := 31.
Definition INSTRUCTION_NOP : Z := 0.

Definition TLB_PRESENT : Z := 1.
Definition TLB_WRITE_ENABLE : Z := 2.
Definition TLB_EXECUTABLE : Z := 4.
Definition TLB_SUPERVISOR : Z := 8.
Definition TLB_GLOBAL : Z := 16.

Inductive arithmetic_op :=
| OP_OR | OP_AND | OP_SYSCALL | OP_XOR | OP_ADD_I | OP_SUB_I | OP_MULL_I | OP_MULH_U
| OP_ASHR | OP_SHR | OP_SHL | OP_CLZ | OP_SHUFFLE | OP_CTZ | OP_MOVE | OP_CMPEQ_I
| OP_CMPNE_I | OP_CMPGT_I | OP_CMPGE_I | OP_CMPLT_I | OP_CMPLE_I | OP_CMPGT_U
| OP_CMPGE_U | OP_CMPLT_U | OP_CMPLE_U | OP_GETLANE | OP_FTOI | OP_RECIPROCAL
| OP_SEXT8 | OP_SEXT16 | OP_MULH_I | OP_ADD_F | OP_SUB_F | OP_MUL_F | OP_ITOF
| OP_CMPGT_F | OP_CMPGE_F | OP_CMPLT_F | OP_CMPLE_F | OP_CMPEQ_F | OP_CMPNE_F
| OP_BREAKPOINT.

Definition arithmetic_op_value (e : arithmetic_op) : Z :=
  match e with
  | OP_OR => 0 | OP_AND => 1 | OP_SYSCALL => 2 | OP_XOR => 3 | OP_ADD_I => 5
  | OP_SUB_I => 6 | OP_MULL_I => 7 | OP_MULH_U => 8 | OP_ASHR => 9 | OP_SHR => 10
  | OP_SHL => 11 | OP_CLZ => 12 | OP_SHUFFLE => 13 | OP_CTZ => 14 | OP_MOVE => 15
  | OP_CMPEQ_I => 16 | OP_CMPNE_I => 17 | OP_CMPGT_I => 18 | OP_CMPGE_I => 19
  | OP_CMPLT_I => 20 | OP_CMPLE_I => 21 | OP_CMPGT_U => 22 | OP_CMPGE_U => 23
  | OP_CMPLT_U => 24 | OP_CMPLE_U => 25 | OP_GETLANE => 26 | OP_FTOI => 27
  | OP_RECIPROCAL => 28 | OP_SEXT8 => 29 | OP_SEXT16 => 30 | OP_MULH_I => 31
  | OP_ADD_F => 32 | OP_SUB_F => 33 | OP_MUL_F => 34 | OP_ITOF => 42 | OP_CMPGT_F => 44
  | OP_CMPGE_F => 45 | OP_CMPLT_F => 46 | OP_CMPLE_F => 47 | OP_CMPEQ_F => 48
  | OP_CMPNE_F => 49 | OP_BREAKPOINT => 62
  end.

#[export]
Instance arithmetic_op_enum : CEnum arithmetic_op.
Proof.
  refine {|
    enum_value := arithmetic_op_value;
    enum_all := [OP_OR; OP_AND; OP_SYSCALL; OP_XOR; OP_ADD_I; OP_SUB_I; OP_MULL_I;
      OP_MULH_U; OP_ASHR; OP_SHR; OP_SHL; OP_CLZ; OP_SHUFFLE; OP_CTZ;
      OP_MOVE; OP_CMPEQ_I; OP_CMPNE_I; OP_CMPGT_I; OP_CMPGE_I; OP_CMPLT_I;
      OP_CMPLE_I; OP_CMPGT_U; OP_CMPGE_U; OP_CMPLT_U; OP_CMPLE_U; OP_GETLANE;
      OP_FTOI; OP_RECIPROCAL; OP_SEXT8; OP_SEXT16; OP_MULH_I; OP_ADD_F;
      OP_SUB_F; OP_MUL_F; OP_ITOF; OP_CMPGT_F; OP_CMPGE_F; OP_CMPLT_F;
      OP_CMPLE_F; OP_CMPEQ_F; OP_CMPNE_F; OP_BREAKPOINT] |}; solve_enum.
Defined.

#[export]
Instance arithmetic_op_eq_dec : EqDecision arithmetic_op.
Proof. solve_decision. Defined.

Inductive register_arith_format :=
| FMT_RA_SS | FMT_RA_VS | FMT_RA_VS_M | FMT_RA_VV | FMT_RA_VV_M.

Definition register_arith_format_value (e : register_arith_format) : Z :=
  match e with
  | FMT_RA_SS => 0 | FMT_RA_VS => 1 | FMT_RA_VS_M => 2 | FMT_RA_VV => 4
  | FMT_RA_VV_M => 5
  end.

#[export]
Instance register_arith_format_enum : CEnum register_arith_format.
Proof.
  refine {|
    enum_value := register_arith_format_value;
    enum_all := [FMT_RA_SS; FMT_RA_VS; FMT_RA_VS_M; FMT_RA_VV; FMT_RA_VV_M] |}; solve_enum.
Defined.

#[export]
Instance register_arith_format_eq_dec : EqDecision register_arith_format.
Proof. solve_decision. Defined.

Inductive immediate_arith_format :=
| FMT_IMM_S | FMT_IMM_V | FMT_IMM_MOVEHI | FMT_IMM_VM.

Definition immediate_arith_format_value (e : immediate_arith_format) : Z :=
  match e with
  | FMT_IMM_S => 0 | FMT_IMM_V => 1 | FMT_IMM_MOVEHI => 2 | FMT_IMM_VM => 3
  end.

#[export]
Instance immediate_arith_format_enum : CEnum immediate_arith_format.
Proof.
  refine {|
    enum_value := immediate_arith_format_value;
    enum_all := [FMT_IMM_S; FMT_IMM_V; FMT_IMM_MOVEHI; FMT_IMM_VM] |}; solve_enum.
Defined.

#[export]
Instance immediate_arith_format_eq_dec : EqDecision immediate_arith_format.
Proof. solve_decision. Defined.

Inductive memory_op :=
| MEM_BYTE | MEM_BYTE_SEXT | MEM_SHORT | MEM_SHORT_EXT | MEM_LONG | MEM_SYNC
| MEM_CONTROL_REG | MEM_BLOCK_VECTOR | MEM_BLOCK_VECTOR_MASK | MEM_SCGATH
| MEM_SCGATH_MASK.

Definition memory_op_value (e : memory_op) : Z :=
  match e with
  | MEM_BYTE => 0 | MEM_BYTE_SEXT => 1 | MEM_SHORT => 2 | MEM_SHORT_EXT => 3
  | MEM_LONG => 4 | MEM_SYNC => 5 | MEM_CONTROL_REG => 6 | MEM_BLOCK_VECTOR => 7
  | MEM_BLOCK_VECTOR_MASK => 8 | MEM_SCGATH => 13 | MEM_SCGATH_MASK => 14
  end.

#[export]
Instance memory_op_enum : CEnum memory_op.
Proof.
  refine {|
    enum_value := memory_op_value;
    enum_all := [MEM_BYTE; MEM_BYTE_SEXT; MEM_SHORT; MEM_SHORT_EXT; MEM_LONG; MEM_SYNC;
      MEM_CONTROL_REG; MEM_BLOCK_VECTOR; MEM_BLOCK_VECTOR_MASK; MEM_SCGATH;
      MEM_SCGATH_MASK] |}; solve_enum.
Defined.

#[export]
Instance memory_op_eq_dec : EqDecision memory_op.
Proof. solve_decision. Defined.

Inductive branch_type :=
| BRANCH_REGISTER | BRANCH_ZERO | BRANCH_NOT_ZERO | BRANCH_ALWAYS | BRANCH_CALL_OFFSET
| BRANCH_CALL_REGISTER | BRANCH_ERET.

Definition branch_type_value (e : branch_type) : Z :=
  match e with
  | BRANCH_REGISTER => 0 | BRANCH_ZERO => 1 | BRANCH_NOT_ZERO => 2 | BRANCH_ALWAYS => 3
  | BRANCH_CALL_OFFSET => 4 | BRANCH_CALL_REGISTER => 6 | BRANCH_ERET => 7
  end.

#[export]
Instance branch_type_enum : CEnum branch_type.
Proof.
  refine {|
    enum_value := branch_type_value;
    enum_all := [BRANCH_REGISTER; BRANCH_ZERO; BRANCH_NOT_ZERO; BRANCH_ALWAYS;
      BRANCH_CALL_OFFSET; BRANCH_CALL_REGISTER; BRANCH_ERET] |}; solve_enum.
Defined.

#[export]
Instance branch_type_eq_dec : EqDecision branch_type.
Proof. solve_decision. Defined.

Inductive control_register :=
| CR_THREAD_ID | CR_TRAP_HANDLER | CR_TRAP_PC | CR_TRAP_REASON | CR_FLAGS
| CR_TRAP_ACCESS_ADDR | CR_CYCLE_COUNT | CR_TLB_MISS_HANDLER | CR_SAVED_FLAGS
| CR_CURRENT_ASID | CR_PAGE_DIR | CR_SCRATCHPAD0 | CR_SCRATCHPAD1 | CR_SUBCYCLE
| CR_INTERRUPT_ENABLE | CR_INTERRUPT_ACK | CR_INTERRUPT_PENDING | CR_INTERRUPT_TRIGGER
| CR_JTAG_DATA | CR_SYSCALL_INDEX | CR_SUSPEND_THREAD | CR_RESUME_THREAD.

Definition control_register_value (e : control_register) : Z :=
  match e with
  | CR_THREAD_ID => 0 | CR_TRAP_HANDLER => 1 | CR_TRAP_PC => 2 | CR_TRAP_REASON => 3
  | CR_FLAGS => 4 | CR_TRAP_ACCESS_ADDR => 5 | CR_CYCLE_COUNT => 6
  | CR_TLB_MISS_HANDLER => 7 | CR_SAVED_FLAGS => 8 | CR_CURRENT_ASID => 9
  | CR_PAGE_DIR => 10 | CR_SCRATCHPAD0 => 11 | CR_SCRATCHPAD1 => 12 | CR_SUBCYCLE => 13
  | CR_INTERRUPT_ENABLE => 14 | CR_INTERRUPT_ACK => 15 | CR_INTERRUPT_PENDING => 16
  | CR_INTERRUPT_TRIGGER => 17 | CR_JTAG_DATA => 18 | CR_SYSCALL_INDEX => 19
  | CR_SUSPEND_THREAD => 20 | CR_RESUME_THREAD => 21
  end.

#[export]
Instance control_register_enum : CEnum control_register.
Proof.
  refine {|
    enum_value := control_register_value;
    enum_all := [CR_THREAD_ID; CR_TRAP_HANDLER; CR_TRAP_PC; CR_TRAP_REASON; CR_FLAGS;
      CR_TRAP_ACCESS_ADDR; CR_CYCLE_COUNT; CR_TLB_MISS_HANDLER;
      CR_SAVED_FLAGS; CR_CURRENT_ASID; CR_PAGE_DIR; CR_SCRATCHPAD0;
      CR_SCRATCHPAD1; CR_SUBCYCLE; CR_INTERRUPT_ENABLE; CR_INTERRUPT_ACK;
      CR_INTERRUPT_PENDING; CR_INTERRUPT_TRIGGER; CR_JTAG_DATA;
      CR_SYSCALL_INDEX; CR_SUSPEND_THREAD; CR_RESUME_THREAD] |}; solve_enum.
Defined.

#[export]
Instance control_register_eq_dec : EqDecision control_register.
Proof. solve_decision. Defined.

Inductive trap_type :=
| TT_RESET | TT_ILLEGAL_INSTRUCTION | TT_PRIVILEGED_OP | TT_INTERRUPT | TT_SYSCALL
| TT_UNALIGNED_ACCESS | TT_PAGE_FAULT | TT_TLB_MISS | TT_ILLEGAL_STORE
| TT_SUPERVISOR_ACCESS | TT_NOT_EXECUTABLE | TT_BREAKPOINT.

Definition trap_type_value (e : trap_type) : Z :=
  match e with
  | TT_RESET => 0 | TT_ILLEGAL_INSTRUCTION => 1 | TT_PRIVILEGED_OP => 2
  | TT_INTERRUPT => 3 | TT_SYSCALL => 4 | TT_UNALIGNED_ACCESS => 5 | TT_PAGE_FAULT => 6
  | TT_TLB_MISS => 7 | TT_ILLEGAL_STORE => 8 | TT_SUPERVISOR_ACCESS => 9
  | TT_NOT_EXECUTABLE => 10 | TT_BREAKPOINT => 11
  end.

#[export]
Instance trap_type_enum : CEnum trap_type.
Proof.
  refine {|
    enum_value := trap_type_value;
    enum_all := [TT_RESET; TT_ILLEGAL_INSTRUCTION; TT_PRIVILEGED_OP; TT_INTERRUPT;
      TT_SYSCALL; TT_UNALIGNED_ACCESS; TT_PAGE_FAULT; TT_TLB_MISS;
      TT_ILLEGAL_STORE; TT_SUPERVISOR_ACCESS; TT_NOT_EXECUTABLE; TT_BREAKPOINT] |}; solve_enum.
Defined.

#[export]
Instance trap_type_eq_dec : EqDecision trap_type.
Proof. solve_decision. Defined.

Inductive cache_control_op :=
| CC_DTLB_INSERT | CC_DINVALIDATE | CC_DFLUSH | CC_INVALIDATE_TLB
| CC_INVALIDATE_TLB_ALL | CC_ITLB_INSERT.

Definition cache_control_op_value (e : cache_control_op) : Z :=
  match e with
  | CC_DTLB_INSERT => 0 | CC_DINVALIDATE => 1 | CC_DFLUSH => 2 | CC_INVALIDATE_TLB => 5
  | CC_INVALIDATE_TLB_ALL => 6 | CC_ITLB_INSERT => 7
  end.

#[export]
Instance cache_control_op_enum : CEnum cache_control_op.
Proof.
  refine {|
    enum_value := cache_control_op_value;
    enum_all := [CC_DTLB_INSERT; CC_DINVALIDATE; CC_DFLUSH; CC_INVALIDATE_TLB;
      CC_INVALIDATE_TLB_ALL; CC_ITLB_INSERT] |}; solve_enum.
Defined.

#[export]
Instance cache_control_op_eq_dec : EqDecision cache_control_op.
Proof. solve_decision. Defined.

(** ** Constants of processor.h and processor.c *)

Definition NUM_REGISTERS : nat := 32.
Definition NUM_VECTOR_LANES : nat := 16.
Definition CACHE_LINE_LENGTH : Z := 64.
Definition CACHE_LINE_MASK : Z := CACHE_LINE_LENGTH - 1.
Definition TLB_SETS : Z := 16.
Definition TLB_WAYS : Z := 4.
Definition PAGE_SIZE : Z := 0x1000.
Definition ROUND_TO_PAGE (addr : Z) : Z := Z.land addr (lnot32 (PAGE_SIZE - 1)).
Definition PAGE_OFFSET (addr : Z) : Z := Z.land addr (PAGE_SIZE - 1).
Definition INVALID_ADDR : Z := 0xffffffff.
Definition BREAKPOINT_INST : Z := 0x707fffff.

(** Constants of device.h the processor itself uses. *)
Definition DEVICE_BASE_ADDRESS : Z := 0xffff0000.
Definition REG_TIMER_INT : Z := 0xffff0240.
Definition INT_COSIM : Z := 0x00000001.
Definition INT_TIMER : Z := 0x00000002.
Definition INT_UART_RX : Z := 0x00000004.
Definition INT_PS2_RX : Z := 0x00000008.
Definition INT_VGA_FRAME : Z := 0x00000010.

(** ** Pages *)

Lemma PAGE_OFFSET_mod a : PAGE_OFFSET a = a mod PAGE_SIZE.
Proof. unfold PAGE_OFFSET. by apply (Z.land_ones a 12). Qed.

Lemma ROUND_TO_PAGE_sub a : is_u32 a -> ROUND_TO_PAGE a = a - a mod PAGE_SIZE.
Proof.
  intros Ha. rewrite <- PAGE_OFFSET_mod. unfold ROUND_TO_PAGE, PAGE_OFFSET.
  enough (Z.land a (lnot32 (PAGE_SIZE - 1)) + Z.land a (PAGE_SIZE - 1) = a) by lia.
  rewrite <- lor_disjoint_add by by apply land_disjoint.
  rewrite <- Z.land_lor_distr_r.
  change (Z.lor (lnot32 (PAGE_SIZE - 1)) (PAGE_SIZE - 1)) with (Z.ones 32).
  rewrite Z.land_ones by lia. by apply Z.mod_small.
Qed.

Lemma is_u32_ROUND_TO_PAGE a : is_u32 (ROUND_TO_PAGE a).
Proof. unfold ROUND_TO_PAGE. auto with words. Qed.
#[export] Hint Resolve is_u32_ROUND_TO_PAGE : words.

(** The page number and the offset put back together. *)
Lemma page_lor_offset pa va :
  Z.lor (ROUND_TO_PAGE pa) (PAGE_OFFSET va) = ROUND_TO_PAGE pa + va mod PAGE_SIZE.
Proof.
  rewrite <- PAGE_OFFSET_mod. unfold ROUND_TO_PAGE, PAGE_OFFSET.
  apply lor_disjoint_add. by apply land_disjoint.
Qed.
