(* ===== verification/Alu.v ===== *)
(** * Alu: the arithmetic of tools/emulator/processor.c

    [scalar_arithmetic_op] and [is_compare_op]: one lane of every arithmetic and
    comparison instruction, on 32-bit patterns. *)

From S2P Require Export Isa Float32.

Definition scalar_arithmetic_op (operation value1 value2 : Z) : Z :=
  match enum_of_Z operation with
  | Some OP_OR => Z.lor value1 value2
  | Some OP_AND => Z.land value1 value2
  | Some OP_XOR => Z.lxor value1 value2
  | Some OP_ADD_I => u32 (value1 + value2)
  | Some OP_SUB_I => u32 (value1 - value2)
  | Some OP_MULL_I => u32 (value1 * value2)
  | Some OP_MULH_U => u32 (Z.shiftr (u64 (value1 * value2)) 32)
  | Some OP_ASHR => u32 (Z.shiftr (s32 value1) (Z.land value2 31))
  | Some OP_SHR => Z.shiftr value1 (Z.land value2 31)
  | Some OP_SHL => u32 (Z.shiftl value1 (Z.land value2 31))
  | Some OP_CLZ => if value2 =? 0 then 32 else builtin_clz value2
  | Some OP_CTZ => if value2 =? 0 then 32 else builtin_ctz value2
  | Some OP_MOVE => value2
  | Some OP_CMPEQ_I => b2z (value1 =? value2)
  | Some OP_CMPNE_I => b2z (negb (value1 =? value2))
  | Some OP_CMPGT_I => b2z (s32 value2 <? s32 value1)
  | Some OP_CMPGE_I => b2z (s32 value2 <=? s32 value1)
  | Some OP_CMPLT_I => b2z (s32 value1 <? s32 value2)
  | Some OP_CMPLE_I => b2z (s32 value1 <=? s32 value2)
  | Some OP_CMPGT_U => b2z (value2 <? value1)
  | Some OP_CMPGE_U => b2z (value2 <=? value1)
  | Some OP_CMPLT_U => b2z (value1 <? value2)
  | Some OP_CMPLE_U => b2z (value1 <=? value2)
  | Some OP_FTOI => u32 (f32_to_int (value_as_float value2))
  | Some OP_RECIPROCAL =>
      (* Reciprocal only has 6 bits of accuracy *)
      let fresult := f32_div f32_one (value_as_float (Z.land value2 0xfffe0000)) in
      let iresult := value_as_int fresult in
      if is_nan fresult then iresult else Z.land iresult 0xfffe0000
  | Some OP_SEXT8 => u32 (s8 value2)
  | Some OP_SEXT16 => u32 (s16 value2)
  | Some OP_MULH_I => u32 (Z.shiftr (s32 value1 * s32 value2) 32)
  | Some OP_ADD_F => value_as_int (f32_add (value_as_float value1) (value_as_float value2))
  | Some OP_SUB_F => value_as_int (f32_sub (value_as_float value1) (value_as_float value2))
  | Some OP_MUL_F => value_as_int (f32_mul (value_as_float value1) (value_as_float value2))
  | Some OP_ITOF => value_as_int (f32_of_int (s32 value2))
  | Some OP_CMPGT_F => b2z (f32_gt (value_as_float value1) (value_as_float value2))
  | Some OP_CMPGE_F => b2z (f32_ge (value_as_float value1) (value_as_float value2))
  | Some OP_CMPLT_F => b2z (f32_lt (value_as_float value1) (value_as_float value2))
  | Some OP_CMPLE_F => b2z (f32_le (value_as_float value1) (value_as_float value2))
  | Some OP_CMPEQ_F => b2z (f32_eq (value_as_float value1) (value_as_float value2))
  | Some OP_CMPNE_F => b2z (f32_ne (value_as_float value1) (value_as_float value2))
  | _ => 0
  end.

Definition is_compare_op (op : Z) : bool :=
  ((enum_value OP_CMPEQ_I <=? op) && (op <=? enum_value OP_CMPLE_U))
  || ((enum_value OP_CMPGT_F <=? op) && (op <=? enum_value OP_CMPNE_F)).

(** ** Results are 32-bit patterns *)

Lemma is_u32_clz v : is_u32 v -> is_u32 (if v =? 0 then 32 else builtin_clz v).
Proof.
  intros Hv. destruct (Z.eqb_spec v 0); [by split|].
  pose proof (builtin_clz_range v ltac:(destruct Hv; lia) Hv). split; lia.
Qed.

Lemma is_u32_ctz v : is_u32 v -> is_u32 (if v =? 0 then 32 else builtin_ctz v).
Proof.
  intros Hv. destruct (Z.eqb_spec v 0); [by split|].
  pose proof (builtin_ctz_range v ltac:(destruct Hv; lia) Hv). split; lia.
Qed.
#[export] Hint Resolve is_u32_clz is_u32_ctz : words.

Lemma land_31_nonneg v : 0 <= Z.land v 31.
Proof. apply Z.land_nonneg. lia. Qed.

Lemma is_u32_scalar_arithmetic_op op a b :
  is_u32 a -> is_u32 b -> is_u32 (scalar_arithmetic_op op a b).
Proof.
  intros Ha Hb. unfold scalar_arithmetic_op.
  destruct (enum_of_Z op) as [[]|]; auto with words.
  - apply is_u32_shiftr; [apply land_31_nonneg | done].
  - cbv zeta. destruct (is_nan _); auto with words.
Qed.
#[export] Hint Resolve is_u32_scalar_arithmetic_op : words.

(** ** Comparison operators *)

Lemma is_compare_op_iff op :
  is_compare_op op = true <-> 16 <= op <= 25 \/ 44 <= op <= 49.
Proof.
  unfold is_compare_op, enum_value; simpl.
  rewrite orb_true_iff, !andb_true_iff, !Z.leb_le. tauto.
Qed.

Lemma compare_op_01 op a b :
  is_compare_op op = true ->
  scalar_arithmetic_op op a b = 0 \/ scalar_arithmetic_op op a b = 1.
Proof.
  rewrite is_compare_op_iff. intros Hop. unfold scalar_arithmetic_op, b2z.
  destruct (enum_of_Z op) as [o|] eqn:Ho; [|by left].
  apply enum_of_Z_Some in Ho. subst op.
  destruct o; simpl in Hop; (lia || (case_match; auto)).
Qed.

(** ** The two halves of a product *)

Lemma u32_div_mod z : is_u64 z -> u32 (Z.shiftr z 32) * 2 ^ 32 + u32 z = z.
Proof.
  intros [H0 H1]. rewrite Z.shiftr_div_pow2 by lia. unfold u32.
  rewrite (Z.mod_small (z / 2 ^ 32)); [Z.div_mod_to_equations; lia|].
  split; [by apply Z.div_pos|]. apply Z.div_lt_upper_bound; lia.
Qed.

Lemma s32_range z : - 2 ^ 31 <= s32 z < 2 ^ 31.
Proof. apply (is_signed_range 32). lia. Qed.

Lemma u32_mul_s32 a b : u32 (s32 a * s32 b) = u32 (a * b).
Proof.
  unfold u32. rewrite Zmult_mod, (Zmult_mod a b). f_equal. f_equal; apply u32_s32.
Qed.
