(* ===== verification/Util.v ===== *)
(** * Util: tools/emulator/util.c

    The xorshift128+ generator, the hex vector parser of the debugger and the
    cosimulator, and the $readmemh loader.  Characters are the [int]s that
    [fgetc] returns: 0 to 255, or [EOF]. *)

From S2P Require Export Isa.

(** ** Random numbers *)

Module Random.

Record state := { random_state0 : Z; random_state1 : Z }.

#[export]
Instance state_fields : Fields state :=
  fun s => Build_state (random_state0 s) (random_state1 s).

(** Returns the number and the new [random_state]. *)
Definition next_random (s : state) : Z * state :=
  let x := random_state0 s in
  let y := random_state1 s in
  let s := s <| random_state0 := y |> in
  let x := Z.lxor x (u64 (Z.shiftl x 23)) in
  let s := s <| random_state1 :=
    Z.lxor (Z.lxor (Z.lxor x y) (Z.shiftr x 17)) (Z.shiftr y 26) |> in
  (u64 (random_state1 s + y), s).

Fixpoint stir_random (n : nat) (s : state) : state :=
  match n with
  | O => s
  | S n' => stir_random n' (snd (next_random s))
  end.

Definition seed_random (value : Z) : state :=
  stir_random 5 {| random_state0 := value; random_state1 := value |}.

Definition wf (s : state) : Prop :=
  is_u64 (random_state0 s) /\ is_u64 (random_state1 s).

End Random.

(** ** Hexadecimal text *)

Module Hex.

Definition EOF : Z := -1.
Definition UINT32_MAX : Z := 0xffffffff.

Definition in_range (lo hi ch : Z) : bool := (lo <=? ch) && (ch <=? hi).

(** '0'..'9', 'a'..'f', 'A'..'F' *)
Definition hex_digit_val (ch : Z) : Z :=
  if in_range 48 57 ch then ch - 48
  else if in_range 97 102 ch then ch - 97 + 10
  else if in_range 65 70 ch then ch - 65 + 10
  else UINT32_MAX.

(** C's [isxdigit] and [isspace] in the C locale. *)
Definition isxdigit (ch : Z) : bool :=
  in_range 48 57 ch || in_range 97 102 ch || in_range 65 70 ch.
Definition isspace (ch : Z) : bool := in_range 9 13 ch || (ch =? 32).

(** A string is the list of its characters; reading at its end gives NUL, which
    is no digit, so parsing stops there. *)
Fixpoint parse_digits (count : nat) (c : list Z) (lane_value : Z) : option (Z * list Z) :=
  match count with
  | O => Some (lane_value, c)
  | S count' =>
      let digit_val := hex_digit_val (hd 0 c) in
      if digit_val =? UINT32_MAX then None
      else parse_digits count' (tl c) (u32 (Z.lor (Z.shiftl lane_value 4) digit_val))
  end.

Fixpoint parse_lanes (lanes : nat) (c : list Z) (endian_swap : bool) : option (list Z) :=
  match lanes with
  | O => Some []
  | S lanes' =>
      match parse_digits 8 c 0 with
      | None => None
      | Some (lane_value, c) =>
          match parse_lanes lanes' c endian_swap with
          | None => None
          | Some vector_values =>
              Some ((if endian_swap then endian_swap32 lane_value else lane_value)
                    :: vector_values)
          end
      end
  end.

(** [None] is the return value -1. *)
Definition parse_hex_vector (str : list Z) (endian_swap : bool) : option (list Z) :=
  parse_lanes NUM_VECTOR_LANES str endian_swap.

(** *** The $readmemh loader *)

Inductive scan_state :=
| SCAN_SPACE | SCAN_SLASH | SCAN_ADDRESS | SCAN_NUMBER
| SCAN_MULTI_LINE_COMMENT | SCAN_ASTERISK | SCAN_SINGLE_LINE_COMMENT.

#[export]
Instance scan_state_eq_dec : EqDecision scan_state.
Proof. solve_decision. Defined.

(** The locals of [read_hex_file] and the memory it fills. *)
Record scanner := {
  state : scan_state;
  number_value : Z;
  push_back_char : Z;
  address : Z;
  line_num : Z;
  memory : list Z
}.

#[export]
Instance scanner_fields : Fields scanner := fun s =>
  Build_scanner (state s) (number_value s) (push_back_char s) (address s) (line_num s)
    (memory s).

Inductive scan_outcome :=
| Scanning (s : scanner)   (** go round the loop again *)
| Finished (s : scanner)   (** [done = true]: return 0 *)
| Rejected (s : scanner).  (** a diagnostic is printed: return -1 *)

(** [memory[address] = value]: the array holds the words it was allocated with. *)
Definition store_word (memory : list Z) (address value : Z) : result (list Z) :=
  if (0 <=? address) && (address <? Z.of_nat (length memory))
  then Done (<[Z.to_nat address := value]> memory)
  else Fault OutOfBounds.

(** One pass of the [switch], on the character read. *)
Definition scan_char (memory_size : Z) (ch : Z) (s : scanner) : result scan_outcome :=
  match state s with
  | SCAN_SPACE =>
      if ch =? EOF then Done (Finished s)
      else if ch =? 47 then Done (Scanning (s <| state := SCAN_SLASH |>))
      else if ch =? 64 then
        Done (Scanning (s <| state := SCAN_ADDRESS |> <| number_value := 0 |>))
      else if isxdigit ch then
        Done (Scanning (s <| number_value := hex_digit_val ch |> <| state := SCAN_NUMBER |>))
      else if negb (isspace ch) then Done (Rejected s)
      else if ch =? 10 then Done (Scanning (s <| line_num ::= fun n => n + 1 |>))
      else Done (Scanning s)
  | SCAN_SLASH =>
      if ch =? 42 then Done (Scanning (s <| state := SCAN_MULTI_LINE_COMMENT |>))
      else if ch =? 47 then Done (Scanning (s <| state := SCAN_SINGLE_LINE_COMMENT |>))
      else Done (Rejected s)
  | SCAN_SINGLE_LINE_COMMENT =>
      if ch =? 10 then Done (Scanning (s <| state := SCAN_SPACE |>))
      else if ch =? EOF then Done (Finished s)
      else Done (Scanning s)
  | SCAN_MULTI_LINE_COMMENT =>
      if ch =? 42 then Done (Scanning (s <| state := SCAN_ASTERISK |>))
      else if ch =? EOF then Done (Rejected s)
      else Done (Scanning s)
  | SCAN_ASTERISK =>
      if ch =? 47 then Done (Scanning (s <| state := SCAN_SPACE |>))
      else if ch =? EOF then Done (Rejected s)
      else Done (Scanning s)
  | SCAN_NUMBER =>
      if isxdigit ch then
        if negb (Z.land (number_value s) 0xf0000000 =? 0) then Done (Rejected s)
        else Done (Scanning (s <| number_value ::= fun n =>
          u32 (Z.lor (Z.shiftl n 4) (hex_digit_val ch)) |>))
      else if memory_size <=? address s then Done (Rejected s)
      else
        memory' <-- store_word (memory s) (address s) (endian_swap32 (number_value s));;
        Done (Scanning (s <| memory := memory' |> <| address ::= fun a => u32 (a + 1) |>
          <| push_back_char := ch |> <| state := SCAN_SPACE |>))
  | SCAN_ADDRESS =>
      if isxdigit ch then
        Done (Scanning (s <| number_value ::= fun n =>
          u32 (Z.lor (Z.shiftl n 4) (hex_digit_val ch)) |>))
      else if memory_size <=? number_value s then Done (Rejected s)
      else Done (Scanning (s <| address := number_value s |>
        <| push_back_char := ch |> <| state := SCAN_SPACE |>))
  end.

(** The loop: [file] is what [fgetc] has still to return.  [None] means the fuel
    ran out, which [read_hex_file_total] excludes. *)
Fixpoint scan_loop (fuel : nat) (memory_size : Z) (file : list Z) (s : scanner)
  : option (result (Z * list Z)) :=
  match fuel with
  | O => None
  | S fuel' =>
      let '(ch, file, s) :=
        if push_back_char s =? -1 then (hd EOF file, tl file, s)
        else (push_back_char s, file, s <| push_back_char := -1 |>) in
      match scan_char memory_size ch s with
      | Fault f => Some (Fault f)
      | Done (Finished s) => Some (Done (0, memory s))
      | Done (Rejected s) => Some (Done (-1, memory s))
      | Done (Scanning s) => scan_loop fuel' memory_size file s
      end
  end.

Definition start_scan (memory : list Z) : scanner :=
  {| state := SCAN_SPACE; number_value := 0; push_back_char := -1; address := 0;
     line_num := 1; memory := memory |}.

(** Every character costs at most two passes of the loop, and the end of the file
    at most three. *)
Definition scan_fuel (file : list Z) : nat := (2 * length file + 3)%nat.

(** [file] is [None] when [fopen] fails. *)
Definition read_hex_file (file : option (list Z)) (memory : list Z) (memory_size : Z)
  : option (result (Z * list Z)) :=
  match file with
  | None => Some (Done (-1, memory))
  | Some chars => scan_loop (scan_fuel chars) memory_size chars (start_scan memory)
  end.

End Hex.

(** ** The generator never leaves its range and never loses information *)

Section RandomFacts.

Import Random.

Lemma next_random_wf s : wf s -> is_u64 (fst (next_random s)) /\ wf (snd (next_random s)).
Proof.
  intros [Hx Hy]. unfold next_random; simpl. split; [by apply is_unsigned_mod|].
  split; [done|]. unfold is_u64 in *; simpl.
  set (x' := Z.lxor _ (u64 _)).
  assert (is_unsigned 64 x') by (apply is_unsigned_lxor; [lia|done|by apply is_unsigned_mod]).
  clearbody x'. repeat apply is_unsigned_lxor; try lia; try done; by apply is_unsigned_shiftr.
Qed.

Lemma xor_shiftr_zero w n c :
  0 < n -> is_unsigned w c -> Z.lxor c (Z.shiftr c n) = 0 -> c = 0.
Proof.
  intros Hn [H0 _] Hx. apply Z.lxor_eq in Hx.
  rewrite Z.shiftr_div_pow2 in Hx by lia.
  destruct (Z.eq_dec c 0); [done|]. pose proof (Z.pow_gt_1 2 n).
  assert (c / 2 ^ n < c) by (apply Z.div_lt; lia). lia.
Qed.

Lemma xor_shiftl_zero n c :
  0 < n -> is_u64 c -> Z.lxor c (u64 (Z.shiftl c n)) = 0 -> c = 0.
Proof.
  intros Hn [H0 H1] Hx. apply Z.lxor_eq in Hx.
  destruct (Z.eq_dec c 0); [done|exfalso].
  destruct (builtin_ctz_spec c ltac:(lia)) as (Hk & Hb & Hlow).
  rewrite Hx in Hb at 1. unfold u64 in Hb.
  destruct (Z.lt_ge_cases (builtin_ctz c) 64) as [?|?].
  - rewrite Z.mod_pow2_bits_low, Z.shiftl_spec in Hb by lia.
    destruct (Z.lt_ge_cases (builtin_ctz c - n) 0).
    + by rewrite Z.testbit_neg_r in Hb by lia.
    + by rewrite Hlow in Hb by lia.
  - by rewrite Z.mod_pow2_bits_high in Hb by lia.
Qed.

Lemma u64_shiftl_lxor a b n :
  u64 (Z.shiftl (Z.lxor a b) n) = Z.lxor (u64 (Z.shiftl a n)) (u64 (Z.shiftl b n)).
Proof.
  unfold u64. rewrite Z.shiftl_lxor. rewrite <- !Z.land_ones by lia.
  apply Z.bits_inj'. intros i ?. rewrite !Z.lxor_spec, !Z.land_spec, Z.lxor_spec.
  by destruct (Z.testbit (Z.ones 64) i), (Z.testbit (Z.shiftl a n) i), (Z.testbit (Z.shiftl b n) i).
Qed.

Lemma lxor_swap a b c d : Z.lxor (Z.lxor a b) (Z.lxor c d) = Z.lxor (Z.lxor a c) (Z.lxor b d).
Proof. rewrite !Z.lxor_assoc. f_equal. by rewrite <- !Z.lxor_assoc, (Z.lxor_comm b). Qed.

Lemma xor_shiftl_inj n a b :
  0 < n -> is_u64 a -> is_u64 b ->
  Z.lxor a (u64 (Z.shiftl a n)) = Z.lxor b (u64 (Z.shiftl b n)) -> a = b.
Proof.
  intros Hn Ha Hb Heq. apply Z.lxor_eq. apply (xor_shiftl_zero n); [done| |].
  - by apply is_unsigned_lxor.
  - rewrite u64_shiftl_lxor, lxor_swap, Heq. apply Z.lxor_nilpotent.
Qed.

Lemma xor_shiftr_inj w n a b :
  0 <= w -> 0 < n -> is_unsigned w a -> is_unsigned w b ->
  Z.lxor a (Z.shiftr a n) = Z.lxor b (Z.shiftr b n) -> a = b.
Proof.
  intros Hw Hn Ha Hb Heq. apply Z.lxor_eq. apply (xor_shiftr_zero w n); [done| |].
  - by apply is_unsigned_lxor.
  - rewrite Z.shiftr_lxor, lxor_swap, Heq. apply Z.lxor_nilpotent.
Qed.

Lemma lxor_cancel_r a b c : Z.lxor a c = Z.lxor b c -> a = b.
Proof.
  intros Heq. rewrite <- (Z.lxor_0_r a), <- (Z.lxor_0_r b), <- (Z.lxor_nilpotent c).
  by rewrite <- !Z.lxor_assoc, Heq.
Qed.

Lemma next_random_inj s1 s2 :
  wf s1 -> wf s2 -> snd (next_random s1) = snd (next_random s2) -> s1 = s2.
Proof.
  destruct s1 as [x1 y1], s2 as [x2 y2]. intros [Hx1 Hy1] [Hx2 Hy2] Heq.
  unfold next_random in Heq; simpl in *. injection Heq as -> Heq. f_equal.
  set (a1 := Z.lxor x1 _) in Heq. set (a2 := Z.lxor x2 _) in Heq.
  assert (Ha1 : is_u64 a1) by (apply is_unsigned_lxor; [lia|done|by apply is_unsigned_mod]).
  assert (Ha2 : is_u64 a2) by (apply is_unsigned_lxor; [lia|done|by apply is_unsigned_mod]).
  apply (xor_shiftl_inj 23); [lia|done..|].
  apply (xor_shiftr_inj 64 17); [lia..|done|done|].
  assert (Hr : forall a, Z.lxor (Z.lxor (Z.lxor a y2) (Z.shiftr a 17)) (Z.shiftr y2 26)
    = Z.lxor (Z.lxor a (Z.shiftr a 17)) (Z.lxor y2 (Z.shiftr y2 26))).
  { intros a. rewrite !Z.lxor_assoc. f_equal. rewrite <- !Z.lxor_assoc. f_equal.
    apply Z.lxor_comm. }
  rewrite !Hr in Heq.
  by apply lxor_cancel_r in Heq.
Qed.

Lemma next_random_nonzero s :
  wf s -> s <> Build_state 0 0 -> snd (next_random s) <> Build_state 0 0.
Proof.
  intros Hs Hne Heq. apply Hne. apply next_random_inj; [done|by split|]. by rewrite Heq.
Qed.

End RandomFacts.

(** ** Hexadecimal text: printing, parsing, loading *)

Section HexFacts.

Import Hex.

(** [printf("%0<n>x", w)]: the low [n] digits, most significant first. *)
Definition hex_digit_char (d : Z) : Z := if d <? 10 then 48 + d else 97 + (d - 10).

Fixpoint print_hex (n : nat) (w : Z) : list Z :=
  match n with
  | O => []
  | S n' => hex_digit_char (w / 16 ^ Z.of_nat n') :: print_hex n' (w mod 16 ^ Z.of_nat n')
  end.

(** One line of a memory image: a word and a newline. *)
Definition image_line (w : Z) : list Z := print_hex 8 w ++ [10].

Lemma hex_digit_char_ok d :
  0 <= d < 16 -> hex_digit_val (hex_digit_char d) = d /\ isxdigit (hex_digit_char d) = true.
Proof. intros Hd. small_cases d 16; vm_compute; auto. Qed.

Lemma hex_digit_not_max d : 0 <= d < 16 -> (d =? UINT32_MAX) = false.
Proof. intros. apply Z.eqb_neq. unfold UINT32_MAX. lia. Qed.

Lemma push_nibble acc d :
  0 <= acc -> 0 <= d < 16 -> acc * 16 + d < 2 ^ 32 ->
  u32 (Z.lor (Z.shiftl acc 4) d) = acc * 16 + d.
Proof.
  intros Ha Hd Hlt.
  assert (H0 : Z.land (Z.shiftl acc 4) d = 0).
  { apply Z.bits_inj'. intros i Hi. rewrite Z.land_spec, Z.bits_0.
    destruct (Z.lt_ge_cases i 4).
    - by rewrite Z.shiftl_spec, Z.testbit_neg_r by lia.
    - assert (is_unsigned 4 d) as Hu by (split; lia).
      apply is_unsigned_bits in Hu as [_ ->]; [|lia..]. by rewrite andb_false_r. }
  rewrite lor_disjoint_add by done. rewrite Z.shiftl_mul_pow2 by lia.
  apply Z.mod_small. lia.
Qed.

Lemma top_digit n w :
  0 <= w < 16 ^ Z.of_nat (S n) ->
  0 <= w / 16 ^ Z.of_nat n < 16 /\ 0 <= w mod 16 ^ Z.of_nat n < 16 ^ Z.of_nat n /\
  w / 16 ^ Z.of_nat n * 16 ^ Z.of_nat n + w mod 16 ^ Z.of_nat n = w /\
  16 ^ Z.of_nat (S n) = 16 * 16 ^ Z.of_nat n.
Proof.
  intros [H0 H1]. pose proof (Z.pow_pos_nonneg 16 (Z.of_nat n)).
  assert (He : 16 ^ Z.of_nat (S n) = 16 * 16 ^ Z.of_nat n)
    by (rewrite Nat2Z.inj_succ; apply Z.pow_succ_r; lia).
  rewrite He in H1. split_and!; [apply Z.div_pos; lia|apply Z.div_lt_upper_bound; lia| | | |done].
  1,2: apply Z.mod_pos_bound; lia.
  pose proof (Z.div_mod w (16 ^ Z.of_nat n)). lia.
Qed.

Lemma parse_print_digits n w acc rest :
  0 <= acc -> 0 <= w < 16 ^ Z.of_nat n -> acc * 16 ^ Z.of_nat n + w < 2 ^ 32 ->
  parse_digits n (print_hex n w ++ rest) acc = Some (acc * 16 ^ Z.of_nat n + w, rest).
Proof.
  revert w acc. induction n as [|n IH]; intros w acc Hacc Hw Hlt.
  { change (16 ^ Z.of_nat 0) with 1 in *. cbn. do 2 f_equal. lia. }
  destruct (top_digit n w Hw) as (Hd & Hm & Hsum & Hp).
  destruct (hex_digit_char_ok _ Hd) as [Hv _].
  pose proof (Z.pow_pos_nonneg 16 (Z.of_nat n)).
  cbn [parse_digits print_hex app hd tl]. rewrite Hv, hex_digit_not_max by done.
  rewrite push_nibble by (try lia; nia). rewrite IH; [|nia..]. do 2 f_equal. nia.
Qed.

(** *** Termination of the loader *)

Definition pending (s : scan_state) : nat :=
  match s with SCAN_NUMBER | SCAN_ADDRESS => 1%nat | _ => 0%nat end.

Definition scan_measure (file : list Z) (s : scanner) : nat :=
  (2 * length file + (if (push_back_char s =? -1)%Z then 0 else 2) + pending (state s))%nat.

Lemma pending_le s : (pending s <= 1)%nat.
Proof. destruct s; simpl; lia. Qed.

(** What a pass can leave behind: either the character at the end of the file
    ends the loop, or the bookkeeping of the states and the pushed-back
    character stays small. *)
Lemma scan_char_progress size ch s s' :
  push_back_char s = -1 -> scan_char size ch s = Done (Scanning s') ->
  (push_back_char s' = -1 /\ (ch = EOF -> state s' = SCAN_SPACE /\ (state s = SCAN_NUMBER \/ state s = SCAN_ADDRESS))) \/
  (push_back_char s' = ch /\ state s' = SCAN_SPACE /\ (state s = SCAN_NUMBER \/ state s = SCAN_ADDRESS)).
Proof.
  intros Hp. unfold scan_char.
  repeat (case_match; try discriminate); intros Hs; simpl in *;
    try (apply bind_Done_inv in Hs as (? & ? & Hs)); injection Hs as <-; simpl;
    bool_to_prop; try (left; split; [done|intros ->; done || naive_solver]); naive_solver.
Qed.

Lemma scan_loop_total fuel size file s :
  (scan_measure file s < fuel)%nat -> exists r, scan_loop fuel size file s = Some r.
Proof.
  revert file s. induction fuel as [|fuel IH]; intros file s Hm; [lia|]. cbn [scan_loop].
  unfold scan_measure in Hm.
  destruct (Z.eqb_spec (push_back_char s) (-1)) as [Hp|Hp].
  - destruct (scan_char size (hd EOF file) s) as [[s'|s'|s']|] eqn:Hs; eauto.
    apply IH. unfold scan_measure. pose proof (pending_le (state s')).
    destruct (scan_char_progress _ _ _ _ Hp Hs) as [[-> He]|(-> & Hst & H')].
    + destruct file as [|c file]; simpl in *; [|lia].
      destruct (He eq_refl) as [Hst [H'|H']]; rewrite Hst, H' in *; simpl in *; lia.
    + rewrite Hst. destruct H' as [H'|H']; rewrite H' in Hm;
        destruct file as [|c file]; simpl in *; try (destruct (c =? -1)); lia.
  - set (s0 := s <| push_back_char := -1 |>).
    destruct (scan_char size (push_back_char s) s0) as [[s'|s'|s']|] eqn:Hs; eauto.
    apply IH. unfold scan_measure. pose proof (pending_le (state s')).
    destruct (scan_char_progress _ _ s0 _ eq_refl Hs) as [[-> He]|(-> & Hst & H')].
    + simpl. lia.
    + rewrite Hst. change (state s0) with (state s) in H'.
      destruct (push_back_char s =? -1); destruct H' as [H'|H']; rewrite H' in Hm;
        simpl in *; lia.
Qed.

(** *** Loading an image *)

Lemma hex_digit_char_plain d :
  0 <= d < 16 ->
  (hex_digit_char d =? EOF) = false /\ (hex_digit_char d =? 47) = false /\
  (hex_digit_char d =? 64) = false.
Proof. intros Hd. small_cases d 16; vm_compute; auto. Qed.

Lemma high_nibble_clear v : is_unsigned 28 v -> (Z.land v 0xf0000000 =? 0) = true.
Proof.
  intros Hv. apply Z.eqb_eq. change 0xf0000000 with (Z.land (-1) 0xf0000000).
  rewrite <- (Z.mod_small v (2 ^ 28) Hv), <- Z.land_ones by lia. by apply land_disjoint.
Qed.

Lemma scan_loop_digits n k size w rest s :
  state s = SCAN_NUMBER \/ state s = SCAN_ADDRESS -> push_back_char s = -1 ->
  0 <= number_value s -> 0 <= w < 16 ^ Z.of_nat n ->
  number_value s * 16 ^ Z.of_nat n + w < 2 ^ 32 ->
  scan_loop (n + k) size (print_hex n w ++ rest) s =
  scan_loop k size rest (s <| number_value := number_value s * 16 ^ Z.of_nat n + w |>).
Proof.
  revert w s. induction n as [|n IH]; intros w s Hst Hp Hn Hw Hlt.
  { change (16 ^ Z.of_nat 0) with 1 in *. simpl. f_equal. destruct s; cbn in *.
    unfold update. f_equal. lia. }
  destruct (top_digit n w Hw) as (Hd & Hm & Hsum & Hpow).
  destruct (hex_digit_char_ok _ Hd) as [Hv Hx].
  pose proof (Z.pow_pos_nonneg 16 (Z.of_nat n)).
  set (d := w / 16 ^ Z.of_nat n) in *.
  assert (Hnv : number_value s * 16 + d < 2 ^ 32) by nia.
  cbn [Nat.add print_hex app scan_loop hd tl]. fold d. rewrite Hp, Z.eqb_refl.
  assert (Hstep : scan_char size (hex_digit_char d) s =
    Done (Scanning (s <| number_value := number_value s * 16 + d |>))).
  { unfold scan_char. destruct Hst as [-> | ->]; rewrite Hx; [|]; cbn -[Z.land];
      rewrite ?high_nibble_clear by (split; lia); cbn; unfold update;
      by rewrite Hv, push_nibble. }
  rewrite Hstep. rewrite IH; [|done..|cbn; lia|done|cbn; nia].
  f_equal. destruct s; unfold update; cbn in *. f_equal. nia.
Qed.

Lemma store_word_ok memory a v :
  0 <= a < Z.of_nat (length memory) -> store_word memory a v = Done (<[Z.to_nat a := v]> memory).
Proof.
  intros [Ha Hb]. unfold store_word.
  by rewrite (proj2 (Z.leb_le _ _) Ha), (proj2 (Z.ltb_lt _ _) Hb).
Qed.

(** From the space before it, a printed word is read into [number_value]. *)
Lemma scan_loop_word k size w rest s :
  state s = SCAN_SPACE -> push_back_char s = -1 -> is_u32 w ->
  scan_loop (8 + k) size (print_hex 8 w ++ rest) s =
  scan_loop k size rest (s <| number_value := w |> <| state := SCAN_NUMBER |>).
Proof.
  intros Hst Hp Hw. assert (Hw' : 0 <= w < 16 ^ Z.of_nat 8) by exact Hw.
  destruct (top_digit 7 w Hw') as (Hd & Hm & Hsum & _).
  destruct (hex_digit_char_ok _ Hd) as [Hv Hx].
  destruct (hex_digit_char_plain _ Hd) as (E1 & E2 & E3).
  change (print_hex 8 w) with
    (hex_digit_char (w / 16 ^ Z.of_nat 7) :: print_hex 7 (w mod 16 ^ Z.of_nat 7)).
  set (d := w / 16 ^ Z.of_nat 7) in *. set (m := w mod 16 ^ Z.of_nat 7) in *. clearbody d m.
  change (8 + k)%nat with (S (7 + k)). remember (7 + k)%nat as fuel.
  cbn [scan_loop app hd tl]. rewrite Hp, Z.eqb_refl. unfold scan_char at 1.
  rewrite Hst, E1, E2, E3, Hx, Hv. subst fuel.
  change (16 ^ Z.of_nat 7) with 268435456 in *.
  rewrite scan_loop_digits; [|by left|done|cbn; lia|exact Hm|cbn; lia].
  f_equal. destruct s; unfold update; cbn in *. by f_equal.
Qed.

Lemma scan_loop_line k size w rest s :
  state s = SCAN_SPACE -> push_back_char s = -1 -> is_u32 w ->
  0 <= address s < size -> address s < Z.of_nat (length (memory s)) ->
  scan_loop (10 + k) size (image_line w ++ rest) s =
  scan_loop k size rest
    (s <| number_value := w |> <| memory ::= <[Z.to_nat (address s) := endian_swap32 w]> |>
       <| address ::= fun a => u32 (a + 1) |> <| line_num ::= fun n => n + 1 |>).
Proof.
  intros Hst Hp Hw [Ha0 Ha1] Ha2. unfold image_line. rewrite <- app_assoc.
  rewrite (scan_loop_word (2 + k)) by done.
  destruct s as [st nv pb ad ln mem]. unfold update. cbn in Hst, Hp, Ha0, Ha1, Ha2.
  cbn -[Z.leb store_word endian_swap32]. rewrite Hp.
  cbn -[Z.leb store_word endian_swap32].
  rewrite (proj2 (Z.leb_gt _ _) Ha1), store_word_ok by done. by subst.
Qed.

(** [@a] and a newline set the address. *)
Lemma scan_loop_address k size a rest s :
  state s = SCAN_SPACE -> push_back_char s = -1 -> is_u32 a -> a < size ->
  scan_loop (11 + k) size (64 :: image_line a ++ rest) s =
  scan_loop k size rest
    (s <| number_value := a |> <| address := a |> <| line_num ::= fun n => n + 1 |>).
Proof.
  intros Hst Hp Ha Hlt. unfold image_line. rewrite <- app_assoc.
  destruct s as [st nv pb ad ln mem]. cbn in Hst, Hp. subst.
  change (11 + k)%nat with (S (8 + (2 + k))). remember (8 + (2 + k))%nat as fuel.
  cbn -[print_hex]. subst fuel.
  rewrite scan_loop_digits; [|by right|done|cbn; lia|exact Ha|cbn; destruct Ha; lia].
  unfold update. cbn -[Z.leb]. change (0 * 16 ^ Z.of_nat 8 + a) with a.
  by rewrite (proj2 (Z.leb_gt _ _) Hlt).
Qed.

(** The words already loaded, then what memory held before. *)
Definition loaded (ws : list Z) (mem : list Z) : list Z :=
  map endian_swap32 ws ++ drop (length ws) mem.

Lemma loaded_length ws mem : (length ws <= length mem)%nat -> length (loaded ws mem) = length mem.
Proof. intros. unfold loaded. rewrite length_app, length_map, length_drop. lia. Qed.

Lemma loaded_snoc ws w mem :
  (length ws < length mem)%nat ->
  <[length ws := endian_swap32 w]> (loaded ws mem) = loaded (ws ++ [w]) mem.
Proof.
  intros Hlt. unfold loaded. rewrite map_app, <- app_assoc.
  destruct (drop (length ws) mem) as [|x rest] eqn:Hd.
  { apply (f_equal length) in Hd. rewrite length_drop in Hd. simpl in Hd. lia. }
  rewrite (insert_app_r_alt _ _ (length ws)) by (rewrite length_map; lia).
  rewrite length_map, Nat.sub_diag. simpl. do 2 f_equal.
  rewrite length_app. simpl.
  assert (rest = drop 1 (drop (length ws) mem)) as -> by by rewrite Hd.
  rewrite drop_drop. f_equal; lia.
Qed.

Lemma scan_loop_image ws size k done mem s :
  state s = SCAN_SPACE -> push_back_char s = -1 -> memory s = loaded done mem ->
  address s = Z.of_nat (length done) -> Forall is_u32 ws ->
  Z.of_nat (length (done ++ ws)) <= size -> (length (done ++ ws) <= length mem)%nat ->
  size < 2 ^ 32 ->
  scan_loop (10 * length ws + S k) size (List.concat (map image_line ws)) s =
  Some (Done (0, loaded (done ++ ws) mem)).
Proof.
  revert done s. induction ws as [|w ws IH]; intros done s Hst Hp Hmem Ha Hws Hs1 Hs2 Hsz.
  { rewrite app_nil_r. destruct s; cbn in Hst, Hp, Hmem; subst; reflexivity. }
  inversion Hws as [|?? Hw Hws']; subst. rewrite length_app in Hs1, Hs2. simpl in Hs1, Hs2.
  change (List.concat (map image_line (w :: ws))) with
    (image_line w ++ List.concat (map image_line ws)).
  replace (10 * length (w :: ws) + S k)%nat with (10 + (10 * length ws + S k))%nat
    by (simpl; lia).
  rewrite scan_loop_line; [|done|done|done|rewrite Ha; lia|rewrite Ha, Hmem, loaded_length; lia].
  rewrite (IH (done ++ [w])); [by rewrite <- app_assoc|done|done| | |done|..].
  - cbn. rewrite Ha, Hmem, Nat2Z.id. apply loaded_snoc. lia.
  - cbn. rewrite Ha, length_app. simpl. rewrite u32_id by (split; lia). lia.
  - rewrite !length_app. simpl. lia.
  - rewrite !length_app. simpl. lia.
  - done.
Qed.

Lemma image_line_length w : length (image_line w) = 9%nat.
Proof. done. Qed.

Lemma image_length ws : length (List.concat (map image_line ws)) = (9 * length ws)%nat.
Proof.
  induction ws as [|w ws IH]; [done|]. cbn [map List.concat].
  rewrite length_app, IH, image_line_length. simpl. lia.
Qed.

End HexFacts.

(** ** Properties *)

Section UtilProperties.

Import Hex.

Lemma scan_asterisk_text text k size rest s :
  state s = SCAN_ASTERISK -> push_back_char s = -1 ->
  Forall (fun c => c <> 47 /\ c <> EOF) text ->
  scan_loop (length text + k) size (text ++ rest) s = scan_loop k size rest s.
Proof.
  intros Hst Hp Htext. induction Htext as [|c text [H1 H2] _ IH]; [done|].
  cbn [length Nat.add app scan_loop hd tl]. rewrite Hp, Z.eqb_refl.
  unfold scan_char at 1. rewrite Hst, (proj2 (Z.eqb_neq _ _) H1), (proj2 (Z.eqb_neq _ _) H2).
  exact IH.
Qed.

(** Loading a memory image written as one hexadecimal word a line (the format
    [$readmemh] reads) succeeds and stores exactly those words, byte-swapped, from
    address 0, leaving the rest of memory as it was. *)
Theorem read_hex_file_image ws mem memory_size :
  Forall is_u32 ws -> (length ws <= length mem)%nat ->
  Z.of_nat (length mem) <= memory_size < 2 ^ 32 ->
  read_hex_file (Some (List.concat (map image_line ws))) mem memory_size =
  Some (Done (0, map endian_swap32 ws ++ drop (length ws) mem)).
Proof.
  intros Hws Hlen [Hm1 Hm2]. unfold read_hex_file, scan_fuel. rewrite image_length.
  replace (2 * (9 * length ws) + 3)%nat with (10 * length ws + S (8 * length ws + 2))%nat by lia.
  apply (scan_loop_image ws memory_size _ [] mem); try done; simpl; lia.
Qed.

Lemma read_hex_file_image_witness :
  read_hex_file (Some (List.concat (map image_line [0x01000000; 0xdeadbeef]))) [7; 8; 9; 10] 16
  = Some (Done (0, [1; 0xefbeadde; 9; 10])).
Proof.
  rewrite (read_hex_file_image [0x01000000; 0xdeadbeef] [7; 8; 9; 10] 16);
    [reflexivity|vm_decide|simpl; lia|simpl; lia].
Defined.

(** C40: The loader always finishes: whatever the file holds, the loop stops within
    the fuel [read_hex_file] gives it, with a return code or with the out-of-bounds
    store of a bad address. *)
Theorem read_hex_file_terminates file mem memory_size :
  exists r, read_hex_file file mem memory_size = Some r.
Proof.
  destruct file as [chars|]; [|by eexists].
  apply scan_loop_total. unfold scan_measure, scan_fuel. simpl. lia.
Qed.

(** The bound the loader checks is in bytes while the address it guards counts
    words: an image that places a word at any address between the end of the word
    array and [memory_size] makes [read_hex_file] write outside the array. *)
Theorem read_hex_file_overrun a w mem memory_size :
  is_u32 a -> is_u32 w -> Z.of_nat (length mem) <= a < memory_size ->
  read_hex_file (Some (64 :: image_line a ++ image_line w)) mem memory_size =
  Some (Fault OutOfBounds).
Proof.
  intros Ha Hw [H1 H2]. unfold read_hex_file, scan_fuel.
  replace (2 * length _ + 3)%nat with (11 + (8 + 22))%nat
    by (cbn [length]; rewrite length_app, !image_line_length; lia).
  rewrite scan_loop_address by done. unfold image_line. rewrite scan_loop_word by done.
  cbn -[Z.leb store_word]. rewrite (proj2 (Z.leb_gt _ _) H2). unfold store_word.
  by rewrite (proj2 (Z.ltb_ge _ _) H1), andb_false_r.
Qed.

Lemma read_hex_file_overrun_witness :
  read_hex_file (Some (64 :: image_line 4 ++ image_line 1)) [0; 0; 0; 0] 16
  = Some (Fault OutOfBounds).
Proof. apply (read_hex_file_overrun 4 1); [by split|by split|simpl; lia]. Defined.

(** A [*] inside a block comment is never forgotten: after it, the next [/]
    ends the comment however much text lies between, so [* a / b] closes a comment
    that the format only closes at [*/]. *)
Theorem comment_closed_by_later_slash text k size rest s :
  state s = SCAN_MULTI_LINE_COMMENT -> push_back_char s = -1 ->
  Forall (fun c => c <> 47 /\ c <> EOF) text ->
  scan_loop (length text + 2 + k) size (42 :: text ++ 47 :: rest) s =
  scan_loop k size rest (s <| state := SCAN_SPACE |>).
Proof.
  intros Hst Hp Htext. replace (length text + 2 + k)%nat with (S (length text + S k)) by lia.
  cbn [scan_loop hd tl]. rewrite Hp, Z.eqb_refl. unfold scan_char at 1. rewrite Hst.
  change (42 =? 42) with true. cbv iota.
  rewrite scan_asterisk_text by done.
  cbn [scan_loop hd tl]. change (push_back_char (s <| state := SCAN_ASTERISK |>))
    with (push_back_char s). rewrite Hp, Z.eqb_refl. reflexivity.
Qed.

Lemma comment_closed_by_later_slash_witness :
  scan_loop (1 + 2 + 1) 16 (42 :: [32] ++ 47 :: [])
    (start_scan [] <| state := SCAN_MULTI_LINE_COMMENT |>) = Some (Done (0, [])).
Proof.
  rewrite (comment_closed_by_later_slash [32] 1 16 []); [reflexivity|done|done|].
  repeat constructor; discriminate.
Defined.

Lemma parse_lanes_print vs swap :
  Forall is_u32 vs ->
  parse_lanes (length vs) (List.concat (map (print_hex 8) vs)) swap =
  Some (map (fun v => if swap then endian_swap32 v else v) vs).
Proof.
  intros Hvs. induction Hvs as [|v vs [H0 H1] _ IH]; [done|].
  cbn [length parse_lanes map List.concat].
  rewrite parse_print_digits by (simpl; lia).
  change (0 * 16 ^ Z.of_nat 8 + v) with v. by rewrite IH.
Qed.

(** Sixteen lanes printed with "%08x" parse back to the same lanes (byte-swapped
    when the caller asks): what the debugger and the cosimulator print, the parser
    reads. *)
Theorem parse_hex_vector_print vs swap :
  Forall is_u32 vs -> length vs = NUM_VECTOR_LANES ->
  parse_hex_vector (List.concat (map (print_hex 8) vs)) swap =
  Some (map (fun v => if swap then endian_swap32 v else v) vs).
Proof. intros Hvs Hlen. unfold parse_hex_vector. rewrite <- Hlen. by apply parse_lanes_print. Qed.

Lemma parse_hex_vector_print_witness :
  parse_hex_vector (List.concat (map (print_hex 8) (replicate 16 0x12345678))) true =
  Some (replicate 16 0x78563412).
Proof.
  apply (parse_hex_vector_print (replicate 16 0x12345678) true); [|reflexivity].
  apply Forall_replicate. by split.
Defined.

End UtilProperties.

Section RandomProperties.

Import Random.

Lemma stir_random_nonzero n s :
  wf s -> s <> Build_state 0 0 ->
  wf (stir_random n s) /\ stir_random n s <> Build_state 0 0.
Proof.
  revert s. induction n as [|n IH]; intros s Hs Hne; [done|].
  apply IH; [by apply next_random_wf | by apply next_random_nonzero].
Qed.

(** The generator is injective on its states, so it never loses entropy, and a
    non-zero seed never reaches the absorbing all-zero state, however many numbers
    are drawn. *)
Theorem random_never_degenerates seed draws :
  is_u64 seed -> seed <> 0 ->
  (forall s1 s2, wf s1 -> wf s2 -> snd (next_random s1) = snd (next_random s2) -> s1 = s2) /\
  wf (stir_random draws (seed_random seed)) /\
  stir_random draws (seed_random seed) <> Build_state 0 0.
Proof.
  intros Hs Hne. split; [apply next_random_inj|]. unfold seed_random.
  apply stir_random_nonzero; apply (stir_random_nonzero 5);
    (by split) || (intros Heq; by injection Heq).
Qed.

Lemma random_never_degenerates_witness :
  stir_random 3 (seed_random 42) <> Build_state 0 0.
Proof. apply (random_never_degenerates 42 3); [by split|done]. Defined.

End RandomProperties.
