(* ===== verification/Cosim.v ===== *)
(** * Cosim: the side-effect checks of tools/emulator/cosimulation.c

    The Verilog model announces each instruction's side effect; the emulator then
    runs until it produces one, and these functions, called from the processor,
    compare the two.  The diagnostics they print are left out. *)

From S2P Require Export Isa.

Inductive event :=
| EVENT_NONE
| EVENT_MEM_STORE
| EVENT_VECTOR_WRITEBACK
| EVENT_SCALAR_WRITEBACK.

#[export]
Instance event_eq_dec : EqDecision event.
Proof. solve_decision. Defined.

(** The module's static variables. *)
Record cosim_state := {
  expected_event : event;
  expected_register : Z;
  expected_address : Z;
  expected_mask : Z;
  expected_values : list Z;
  expected_pc : Z;
  expected_thread : Z;
  cosim_mismatch : bool;
  cosim_event_triggered : bool
}.

#[export]
Instance cosim_state_fields : Fields cosim_state := fun c =>
  Build_cosim_state (expected_event c) (expected_register c) (expected_address c)
    (expected_mask c) (expected_values c) (expected_pc c) (expected_thread c)
    (cosim_mismatch c) (cosim_event_triggered c).

Definition cosim_init : cosim_state :=
  {| expected_event := EVENT_NONE; expected_register := 0; expected_address := 0;
     expected_mask := 0; expected_values := replicate NUM_VECTOR_LANES 0; expected_pc := 0;
     expected_thread := 0; cosim_mismatch := false; cosim_event_triggered := false |}.

Definition lanes : list nat := seq 0 NUM_VECTOR_LANES.

Definition masked_vectors_equal (mask : Z) (values1 values2 : list Z) : bool :=
  forallb (fun lane => negb (lane_enabled mask lane)
                       || ((values1 !!! lane) =? (values2 !!! lane))) lanes.

(** An event is recorded as seen; a difference also sets [cosim_mismatch]. *)
Definition cosim_record (matched : bool) (c : cosim_state) : cosim_state :=
  let c := c <| cosim_event_triggered := true |> in
  if matched then c else c <| cosim_mismatch := true |>.

Definition cosim_check_set_scalar_reg (pc reg value : Z) (c : cosim_state) : cosim_state :=
  cosim_record
    (bool_decide (expected_event c = EVENT_SCALAR_WRITEBACK)
     && (expected_pc c =? pc)
     && (expected_register c =? reg)
     && ((expected_values c !!! 0%nat) =? value)) c.

Definition cosim_check_set_vector_reg (pc reg mask : Z) (values : list Z) (c : cosim_state)
  : cosim_state :=
  cosim_record
    (bool_decide (expected_event c = EVENT_VECTOR_WRITEBACK)
     && (expected_pc c =? pc)
     && (expected_register c =? reg)
     && masked_vectors_equal mask (expected_values c) values
     && (expected_mask c =? Z.land mask 0xffff)) c.

(** Lane [n] of a block store covers bits [60 - 4n .. 63 - 4n] of the byte mask. *)
Definition vector_byte_mask (mask : Z) : Z :=
  fold_left (fun byte_mask lane =>
    if lane_enabled mask lane
    then Z.lor byte_mask (Z.shiftr 0xf000000000000000 (Z.of_nat lane * 4))
    else byte_mask) lanes 0.

Definition cosim_check_vector_store (pc address mask : Z) (values : list Z) (c : cosim_state)
  : cosim_state :=
  let byte_mask := vector_byte_mask mask in
  cosim_record
    (bool_decide (expected_event c = EVENT_MEM_STORE)
     && (expected_pc c =? pc)
     && (expected_address c =? Z.land address (lnot32 (Z.of_nat NUM_VECTOR_LANES * 4 - 1)))
     && (expected_mask c =? byte_mask)
     && masked_vectors_equal mask (expected_values c) values) c.

(** The bytes a scalar store of [size] at [address] covers, in the line's byte mask. *)
Definition scalar_byte_mask (address size : Z) : Z :=
  u64 (Z.shiftl (Z.shiftl 1 size - 1)
         (CACHE_LINE_MASK - Z.land address CACHE_LINE_MASK - (size - 1))).

Definition cosim_check_scalar_store (pc address size value : Z) (c : cosim_state) : cosim_state :=
  let hardware_value :=
    expected_values c !!! Z.to_nat (Z.land address CACHE_LINE_MASK / 4) in
  let '(hardware_value, value) :=
    if size <? 4 then
      let mask := Z.shiftl 1 (size * 8) - 1 in
      (Z.land hardware_value mask, Z.land value mask)
    else (hardware_value, value) in
  let reference_mask := scalar_byte_mask address size in
  cosim_record
    (bool_decide (expected_event c = EVENT_MEM_STORE)
     && (expected_pc c =? pc)
     && (expected_address c =? Z.land address (lnot32 CACHE_LINE_MASK))
     && (expected_mask c =? reference_mask)
     && (hardware_value =? value)) c.

(** ** What a check decides *)

Lemma masked_vectors_equal_spec mask v1 v2 :
  masked_vectors_equal mask v1 v2 = true <->
  forall lane, (lane < NUM_VECTOR_LANES)%nat -> Z.testbit mask (Z.of_nat lane) = true ->
    v1 !!! lane = v2 !!! lane.
Proof.
  unfold masked_vectors_equal, lanes. rewrite forallb_forall. split.
  - intros H lane Hl Hb. specialize (H lane). rewrite in_seq in H.
    specialize (H ltac:(lia)). rewrite lane_enabled_testbit, Hb in H. by apply Z.eqb_eq.
  - intros H lane Hin. apply in_seq in Hin. rewrite lane_enabled_testbit.
    destruct (Z.testbit mask (Z.of_nat lane)) eqn:Hb; [|done]. simpl.
    apply Z.eqb_eq, H; [lia|done].
Qed.

Lemma cosim_record_triggered b c : cosim_event_triggered (cosim_record b c) = true.
Proof. by destruct b. Qed.

Lemma cosim_record_mismatch b c :
  cosim_mismatch (cosim_record b c) = cosim_mismatch c || negb b.
Proof. destruct b; simpl; by rewrite ?orb_false_r, ?orb_true_r. Qed.
