(* ===== verification/Machine.v ===== *)
(** * Machine: the state of tools/emulator/processor.c

    The structures [thread], [tlb_entry], [core], [processor] and [breakpoint]
    are records with the C fields; the back pointers ([thread->core],
    [core->proc]) are replaced by a [thread_ptr], the position of a thread in the
    core and thread arrays.  A [machine] adds the modules the processor calls: the
    cosimulation checks and, through the [Host] interface, the devices. *)

From S2P Require Export Cosim Alu Util.

(** ** Structures *)

Record trap_state := {
  trap_cause : Z;
  saved_pc : Z;
  access_address : Z;
  scratchpad0 : Z;
  scratchpad1 : Z;
  saved_subcycle : Z;
  syscall_index : Z;
  saved_enable_interrupt : bool;
  saved_enable_mmu : bool;
  saved_enable_supervisor : bool
}.

#[export]
Instance trap_state_fields : Fields trap_state := fun s =>
  Build_trap_state (trap_cause s) (saved_pc s) (access_address s) (scratchpad0 s)
    (scratchpad1 s) (saved_subcycle s) (syscall_index s) (saved_enable_interrupt s)
    (saved_enable_mmu s) (saved_enable_supervisor s).

(** [saved_trap_state] has [TRAP_LEVELS = 2] slots: the current trap and, for a
    TLB miss inside another trap, the one it interrupted. *)
Record thread := {
  id : Z;
  last_sync_load_addr : Z;
  pc : Z;
  asid : Z;
  page_dir : Z;
  interrupt_mask : Z;
  latched_interrupts : Z;
  enable_interrupt : bool;
  enable_mmu : bool;
  enable_supervisor : bool;
  subcycle : Z;
  scalar_reg : list Z;
  vector_reg : list (list Z);
  saved_trap_state_0 : trap_state;
  saved_trap_state_1 : trap_state
}.

#[export]
Instance thread_fields : Fields thread := fun t =>
  Build_thread (id t) (last_sync_load_addr t) (pc t) (asid t) (page_dir t)
    (interrupt_mask t) (latched_interrupts t) (enable_interrupt t) (enable_mmu t)
    (enable_supervisor t) (subcycle t) (scalar_reg t) (vector_reg t)
    (saved_trap_state_0 t) (saved_trap_state_1 t).

Record tlb_entry := {
  entry_asid : Z;
  virtual_address : Z;
  phys_addr_and_flags : Z
}.

#[export]
Instance tlb_entry_fields : Fields tlb_entry := fun e =>
  Build_tlb_entry (entry_asid e) (virtual_address e) (phys_addr_and_flags e).

Record core := {
  threads : list thread;
  trap_handler_pc : Z;
  tlb_miss_handler_pc : Z;
  phys_tlb_update_addr : Z;
  is_level_triggered : Z;
  itlb : list tlb_entry;
  next_itlb_way : Z;
  dtlb : list tlb_entry;
  next_dtlb_way : Z
}.

#[export]
Instance core_fields : Fields core := fun c =>
  Build_core (threads c) (trap_handler_pc c) (tlb_miss_handler_pc c)
    (phys_tlb_update_addr c) (is_level_triggered c) (itlb c) (next_itlb_way c) (dtlb c)
    (next_dtlb_way c).

Record breakpoint := {
  bp_address : Z;
  original_instruction : Z;
  restart : bool
}.

#[export]
Instance breakpoint_fields : Fields breakpoint := fun b =>
  Build_breakpoint (bp_address b) (original_instruction b) (restart b).

(** [breakpoints] is the linked list, head first. *)
Record processor := {
  total_threads : Z;
  thread_enable_mask : Z;
  num_cores : Z;
  threads_per_core : Z;
  cores : list core;
  breakpoints : list breakpoint;
  memory : list Z;
  memory_size : Z;
  interrupt_levels : Z;
  random_thread_sched : bool;
  crashed : bool;
  single_stepping : bool;
  stop_on_fault : bool;
  enable_cosim : bool;
  current_timer_count : Z;
  total_instructions : Z
}.

#[export]
Instance processor_fields : Fields processor := fun p =>
  Build_processor (total_threads p) (thread_enable_mask p) (num_cores p)
    (threads_per_core p) (cores p) (breakpoints p) (memory p) (memory_size p)
    (interrupt_levels p) (random_thread_sched p) (crashed p) (single_stepping p)
    (stop_on_fault p) (enable_cosim p) (current_timer_count p) (total_instructions p).

#[export]
Instance trap_state_inhabited : Inhabited trap_state :=
  populate (Build_trap_state 0 0 0 0 0 0 0 false false false).
#[export]
Instance thread_inhabited : Inhabited thread :=
  populate (Build_thread 0 0 0 0 0 0 0 false false false 0 [] [] inhabitant inhabitant).
#[export]
Instance tlb_entry_inhabited : Inhabited tlb_entry := populate (Build_tlb_entry 0 0 0).
#[export]
Instance core_inhabited : Inhabited core := populate (Build_core [] 0 0 0 0 [] 0 [] 0).

(** ** What the processor asks of its host

    [read_device_register] may clear interrupt lines of the processor, so it also
    returns the lines to clear.  [host_wf] is the invariant of the host's state the
    laws are stated for. *)

Class Host (D : Type) := {
  write_device_register : Z -> Z -> D -> result D;
  read_device_register : Z -> D -> Z * Z * D;
  host_next_random : D -> Z * D;
  host_wf : D -> Prop;
  write_device_wf : forall a v d, is_u32 v -> host_wf d ->
    returns host_wf (fun f => f = HostExit) (write_device_register a v d);
  read_device_wf : forall a d, host_wf d ->
    is_u32 (read_device_register a d).1.1 /\ host_wf (read_device_register a d).2;
  next_random_host_wf : forall d, host_wf d ->
    0 <= (host_next_random d).1 /\ host_wf (host_next_random d).2
}.

Record machine (D : Type) := {
  proc : processor;
  cosim : cosim_state;
  host : D
}.
Arguments Build_machine {D} proc cosim host.
Arguments proc {D} m.
Arguments cosim {D} m.
Arguments host {D} m.

#[export]
Instance machine_fields {D} : Fields (machine D) := fun m =>
  Build_machine (proc m) (cosim m) (host m).

(** ** Pointers to threads *)

Record thread_ptr := { p_core : nat; p_thread : nat }.

#[export]
Instance thread_ptr_eq_dec : EqDecision thread_ptr.
Proof. solve_decision. Defined.

(** [&proc->cores[thread_id / threads_per_core].threads[thread_id % threads_per_core]] *)
Definition get_thread (p : processor) (thread_id : Z) : thread_ptr :=
  {| p_core := Z.to_nat (thread_id / threads_per_core p);
     p_thread := Z.to_nat (thread_id mod threads_per_core p) |}.

Section Access.

Context {D : Type}.
Implicit Types m : machine D.

Definition the_core (t : thread_ptr) m : core := cores (proc m) !!! p_core t.
Definition the_thread (t : thread_ptr) m : thread := threads (the_core t m) !!! p_thread t.

Definition on_proc (f : processor -> processor) m : machine D := m <| proc ::= f |>.
Definition on_core (t : thread_ptr) (f : core -> core) m : machine D :=
  on_proc (fun p => p <| cores ::= alter f (p_core t) |>) m.
Definition on_thread (t : thread_ptr) (f : thread -> thread) m : machine D :=
  on_core t (fun c => c <| threads ::= alter f (p_thread t) |>) m.

End Access.

(** ** Memory: [UINT8_PTR], [UINT16_PTR] and [UINT32_PTR]

    The words are in the host's byte order, which is little-endian: element [i] of
    [bits] bits is the [i mod (32 / bits)]-th from the bottom of its word. *)

Definition load_element (bits i : Z) (mem : list Z) : result Z :=
  let per_word := 32 / bits in
  if (0 <=? i) && (i / per_word <? Z.of_nat (length mem)) then
    Done (extract_unsigned_bits (mem !!! Z.to_nat (i / per_word)) (i mod per_word * bits) bits)
  else Fault OutOfBounds.

Definition replace_bits (word low bits value : Z) : Z :=
  Z.lor (Z.ldiff word (Z.shiftl (Z.ones bits) low)) (Z.shiftl (value mod 2 ^ bits) low).

Definition store_element (bits i value : Z) (mem : list Z) : result (list Z) :=
  let per_word := 32 / bits in
  if (0 <=? i) && (i / per_word <? Z.of_nat (length mem)) then
    Done (alter (fun w => replace_bits w (i mod per_word * bits) bits value)
            (Z.to_nat (i / per_word)) mem)
  else Fault OutOfBounds.

Definition load8 (address : Z) := load_element 8 address.
Definition load16 (address : Z) := load_element 16 (address / 2).
Definition load32 (address : Z) := load_element 32 (address / 4).
Definition store8 (address : Z) := store_element 8 address.
Definition store16 (address : Z) := store_element 16 (address / 2).
Definition store32 (address : Z) := store_element 32 (address / 4).

(** ** Start-up *)

(** Where [proc->memory] comes from: [malloc] and [memset], [malloc] filled with
    random words, or a mapped file. *)
Inductive memory_source :=
| ClearedMemory
| RandomMemory (seed : Random.state)
| SharedMemory (words : list Z).

Fixpoint random_words (n : nat) (s : Random.state) : list Z :=
  match n with
  | O => []
  | S n' => let '(r, s) := Random.next_random s in u32 r :: random_words n' s
  end.

Definition initial_memory (memory_size : Z) (source : memory_source) : list Z :=
  let words := Z.to_nat (memory_size / 4) in
  match source with
  | ClearedMemory => replicate words 0
  | RandomMemory seed => random_words words seed
  | SharedMemory contents => contents
  end.

Definition zero_trap_state : trap_state := Build_trap_state 0 0 0 0 0 0 0 false false false.

Definition init_thread (thread_id : Z) : thread :=
  {| id := thread_id; last_sync_load_addr := INVALID_ADDR; pc := 0; asid := 0; page_dir := 0;
     interrupt_mask := 0; latched_interrupts := 0; enable_interrupt := false;
     enable_mmu := false; enable_supervisor := true; subcycle := 0;
     scalar_reg := replicate NUM_REGISTERS 0;
     vector_reg := replicate NUM_REGISTERS (replicate NUM_VECTOR_LANES 0);
     saved_trap_state_0 := zero_trap_state <| saved_enable_supervisor := true |>;
     saved_trap_state_1 := zero_trap_state |}.

(** [malloc] leaves the other fields of a TLB entry undefined: [uninit]. *)
Definition init_tlb (uninit : tlb_entry) : list tlb_entry :=
  replicate (Z.to_nat (TLB_SETS * TLB_WAYS)) (uninit <| virtual_address := INVALID_ADDR |>).

Definition init_core (uninit : tlb_entry) (threads_per_core core_id : Z) : core :=
  {| threads := map (fun thread_id => init_thread (core_id * threads_per_core + Z.of_nat thread_id))
       (seq 0 (Z.to_nat threads_per_core));
     trap_handler_pc := 0; tlb_miss_handler_pc := 0; phys_tlb_update_addr := 0;
     is_level_triggered := 0; itlb := init_tlb uninit; next_itlb_way := 0;
     dtlb := init_tlb uninit; next_dtlb_way := 0 |}.

Definition init_processor (uninit : tlb_entry) (memory_size num_cores threads_per_core : Z)
  (source : memory_source) : result processor :=
  if negb (num_cores * threads_per_core <=? 32) then Fault AssertFailed
  else Done
    {| total_threads := threads_per_core * num_cores; thread_enable_mask := 1;
       num_cores := num_cores; threads_per_core := threads_per_core;
       cores := map (fun core_id => init_core uninit threads_per_core (Z.of_nat core_id))
         (seq 0 (Z.to_nat num_cores));
       breakpoints := []; memory := initial_memory memory_size source;
       memory_size := memory_size; interrupt_levels := 0; random_thread_sched := false;
       crashed := false; single_stepping := false; stop_on_fault := false;
       enable_cosim := false; current_timer_count := 0; total_instructions := 0 |}.

(** ** Small entry points of processor.h *)

Definition enable_random_thread_sched (p : processor) : processor :=
  p <| random_thread_sched := true |>.
Definition enable_cosimulation (p : processor) : processor := p <| enable_cosim := true |>.
Definition dbg_set_stop_on_fault (stop : bool) (p : processor) : processor :=
  p <| stop_on_fault := stop |>.
Definition get_total_threads (p : processor) : Z := total_threads p.
Definition is_proc_halted (p : processor) : bool := (thread_enable_mask p =? 0) || crashed p.
Definition is_stopped_on_fault (p : processor) : bool := crashed p.

(** The offset into memory of the region, after the bounds test. *)
Definition get_memory_region_ptr (p : processor) (address length : Z) : result Z :=
  if negb (length <? memory_size p) then Fault AssertFailed
  else if (memory_size p <? address) || (memory_size p <? u32 (address + length)) then Done 0
  else Done address.

Definition clear_interrupt (int_bitmap : Z) (p : processor) : processor :=
  p <| interrupt_levels ::= fun l => Z.land l (lnot32 int_bitmap) |>.
