(* ===== verification/Trap.v ===== *)
(** * Trap: register writes, traps and interrupts of processor.c *)

From S2P Require Export Machine.

Section Trap.

Context {D : Type}.
Implicit Types m : machine D.

(** [thread->pc - 4]: the instruction being executed. *)
Definition current_pc (t : thread_ptr) m : Z := u32 (pc (the_thread t m) - 4).

(** Calls a cosimulation check when [enable_cosim] is set. *)
Definition with_cosim (check : cosim_state -> cosim_state) m : machine D :=
  if enable_cosim (proc m) then m <| cosim ::= check |> else m.

(** ** Registers *)

Definition set_scalar_reg (t : thread_ptr) (reg : nat) (value : Z) m : machine D :=
  let m := with_cosim (cosim_check_set_scalar_reg (current_pc t m) (Z.of_nat reg) value) m in
  on_thread t (fun th => th <| scalar_reg ::= <[reg := value]> |>) m.

(** The lanes the mask enables take the new values. *)
Definition masked_update (mask : Z) (values old : list Z) : list Z :=
  imap (fun lane o => if lane_enabled mask lane then values !!! lane else o) old.

Definition set_vector_reg (t : thread_ptr) (reg : nat) (mask : Z) (values : list Z) m
  : machine D :=
  let m := with_cosim
    (cosim_check_set_vector_reg (current_pc t m) (Z.of_nat reg) mask values) m in
  on_thread t (fun th => th <| vector_reg ::= alter (masked_update mask values) reg |>) m.

(** ** Synchronized loads

    The loop runs over [proc->total_threads] entries of [core->threads], an array
    of [threads_per_core]. *)
Fixpoint invalidate_threads (ids : list nat) (line : Z) (ths : list thread)
  : result (list thread) :=
  match ids with
  | [] => Done ths
  | i :: ids' =>
      match ths !! i with
      | None => Fault OutOfBounds
      | Some th =>
          invalidate_threads ids' line
            (if last_sync_load_addr th =? line
             then <[i := th <| last_sync_load_addr := INVALID_ADDR |>]> ths else ths)
      end
  end.

Definition invalidate_sync_address (t : thread_ptr) (address : Z) m : result (machine D) :=
  ths <-- invalidate_threads (seq 0 (Z.to_nat (total_threads (proc m))))
            (address / CACHE_LINE_LENGTH) (threads (the_core t m));;
  Done (on_core t (fun c => c <| threads := ths |>) m).

(** ** Traps *)

Definition flag_if (b : bool) (flag : Z) : Z := if b then flag else 0.

(** The traps [stop_on_fault], or a missing handler, turns into a crash. *)
Definition stops_on_fault (t : thread_ptr) (type : trap_type) m : bool :=
  (stop_on_fault (proc m) || (trap_handler_pc (the_core t m) =? 0))
  && negb (bool_decide (type = TT_TLB_MISS))
  && negb (bool_decide (type = TT_INTERRUPT))
  && negb (bool_decide (type = TT_SYSCALL)).

Definition crash m : machine D := on_proc (fun p => p <| crashed := true |>) m.

(** The state saved in slot 0 when [th] traps. *)
Definition saved_state_of (trap_address : Z) (type : trap_type) (is_store is_data_cache : bool)
  (syscall : Z) (th : thread) : trap_state :=
  saved_trap_state_0 th
    <| trap_cause := Z.lor (Z.lor (enum_value type) (flag_if is_store 0x10))
                       (flag_if is_data_cache 0x20) |>
    <| saved_pc := if negb (subcycle th =? 0) && bool_decide (type = TT_INTERRUPT)
                   then pc th else u32 (pc th - 4) |>
    <| saved_enable_interrupt := enable_interrupt th |>
    <| saved_enable_mmu := enable_mmu th |>
    <| saved_enable_supervisor := enable_supervisor th |>
    <| saved_subcycle := subcycle th |>
    <| access_address := trap_address |>
    <| syscall_index := syscall |>.

Definition enter_handler (c : core) (trap_address : Z) (type : trap_type)
  (is_store is_data_cache : bool) (syscall : Z) (th : thread) : thread :=
  let th := th
    <| saved_trap_state_1 := saved_trap_state_0 th |>
    <| saved_trap_state_0 := saved_state_of trap_address type is_store is_data_cache syscall th |>
    <| enable_interrupt := false |> in
  let th :=
    if bool_decide (type = TT_TLB_MISS)
    then th <| pc := tlb_miss_handler_pc c |> <| enable_mmu := false |>
    else th <| pc := trap_handler_pc c |> in
  th <| subcycle := 0 |> <| enable_supervisor := true |>.

Definition raise_trap (t : thread_ptr) (trap_address : Z) (type : trap_type)
  (is_store is_data_cache : bool) (syscall : Z) m : machine D :=
  if stops_on_fault t type m then
    (* reset PC to faulting instruction *)
    crash (on_thread t (fun th => th <| pc ::= fun p => u32 (p - 4) |>) m)
  else
    on_thread t
      (enter_handler (the_core t m) trap_address type is_store is_data_cache syscall) m.

(** ** Interrupts *)

(** Level-triggered lines come from the processor, the others are latched. *)
Definition get_pending_interrupts (t : thread_ptr) m : Z :=
  let level := is_level_triggered (the_core t m) in
  Z.lor (Z.land level (interrupt_levels (proc m)))
        (Z.land (lnot32 level) (latched_interrupts (the_thread t m))).

Definition try_to_dispatch_interrupt (t : thread_ptr) m : machine D :=
  let pending := get_pending_interrupts t m in
  let th := the_thread t m in
  if negb (enable_interrupt th) then m
  else if negb (Z.land pending (interrupt_mask th) =? 0) then
    (* An interrupt saves the PC of the next instruction, but only if a
       multicycle instruction is not active. *)
    let m := if subcycle th =? 0
             then on_thread t (fun th => th <| pc ::= fun p => u32 (p + 4) |>) m else m in
    raise_trap t 0 TT_INTERRUPT false false 0 m
  else m.

(** Every thread, core by core. *)
Definition all_threads (p : processor) : list thread_ptr :=
  flat_map (fun core_id =>
    map (fun thread_id => {| p_core := core_id; p_thread := thread_id |})
      (seq 0 (Z.to_nat (threads_per_core p))))
    (seq 0 (Z.to_nat (num_cores p))).

Definition interrupt_thread (int_bitmap : Z) m (t : thread_ptr) : machine D :=
  try_to_dispatch_interrupt t
    (on_thread t (fun th => th <| latched_interrupts ::= fun l => Z.lor l int_bitmap |>) m).

Definition raise_interrupt (int_bitmap : Z) m : machine D :=
  let m := on_proc (fun p => p <| interrupt_levels ::= fun l => Z.lor l int_bitmap |>) m in
  fold_left (interrupt_thread int_bitmap) (all_threads (proc m)) m.

(** The Verilog model took an interrupt at [at_pc]. *)
Definition cosim_interrupt (thread_id at_pc : Z) m : machine D :=
  let t := get_thread (proc m) thread_id in
  let m := if negb (at_pc =? pc (the_thread t m))
           then on_thread t (fun th => th <| subcycle := 0 |>) m else m in
  let m := on_thread t (fun th => th <| pc := at_pc |>
             <| latched_interrupts ::= fun l => Z.lor l INT_COSIM |>) m in
  try_to_dispatch_interrupt t m.

End Trap.
