(* ===== verification/Tlb.v ===== *)
(** * Tlb: address translation of processor.c

    [translate_address] and the cache control instructions that maintain the two
    translation lookaside buffers of a core. *)

From S2P Require Export Trap.

Definition flag_set (word flag : Z) : bool := negb (Z.land word flag =? 0).

(** A buffer is [TLB_SETS] sets of [TLB_WAYS] entries; [tlb_base] is the first
    entry of an address's set. *)
Definition tlb_base (address : Z) : nat := Z.to_nat (((address / PAGE_SIZE) mod TLB_SETS) * TLB_WAYS).
Definition set_ways (address : Z) : list nat := seq (tlb_base address) (Z.to_nat TLB_WAYS).

Definition way_matches (page asid : Z) (e : tlb_entry) : bool :=
  (virtual_address e =? page)
  && (flag_set (phys_addr_and_flags e) TLB_GLOBAL || (entry_asid e =? asid)).

(** The first way of the set that holds [page] for this address space. *)
Definition find_way (tlb : list tlb_entry) (page asid : Z) : option nat :=
  List.find (fun way => way_matches page asid (tlb !!! way)) (set_ways page).

Section Tlb.

Context {D : Type}.
Implicit Types m : machine D.

(** An address the machine has no memory for.  This is not a fault of the
    hardware but a debugging aid of the emulator. *)
Definition out_of_range (physical : Z) m : bool :=
  (memory_size (proc m) <=? physical) && (physical <? DEVICE_BASE_ADDRESS).

(** What a matching entry says about the access. *)
Definition check_entry (t : thread_ptr) (e : tlb_entry) (address : Z)
  (is_store is_data_access : bool) m : option Z * machine D :=
  let flags := phys_addr_and_flags e in
  if negb (flag_set flags TLB_PRESENT) then
    (None, raise_trap t address TT_PAGE_FAULT is_store is_data_access 0 m)
  else if flag_set flags TLB_SUPERVISOR && negb (enable_supervisor (the_thread t m)) then
    (None, raise_trap t address TT_SUPERVISOR_ACCESS is_store is_data_access 0 m)
  else if negb (flag_set flags TLB_EXECUTABLE) && negb is_data_access then
    (None, raise_trap t address TT_NOT_EXECUTABLE false false 0 m)
  else if is_store && negb (flag_set flags TLB_WRITE_ENABLE) then
    (None, raise_trap t address TT_ILLEGAL_STORE true is_data_access 0 m)
  else
    let physical := Z.lor (ROUND_TO_PAGE flags) (PAGE_OFFSET address) in
    if out_of_range physical m then (None, crash m) else (Some physical, m).

(** [Some] is the physical address; [None] is the return value [false]. *)
Definition translate_address (t : thread_ptr) (address : Z) (is_store is_data_access : bool) m
  : option Z * machine D :=
  let th := the_thread t m in
  if negb (enable_mmu th) then
    if out_of_range address m then (None, crash m) else (Some address, m)
  else
    let tlb := (if is_data_access then dtlb else itlb) (the_core t m) in
    match find_way tlb (ROUND_TO_PAGE address) (asid th) with
    | Some way => check_entry t (tlb !!! way) address is_store is_data_access m
    | None => (None, raise_trap t address TT_TLB_MISS is_store is_data_access 0 m)
    end.

(** ** Maintenance *)

(** A matching entry takes the new physical address; otherwise the next way is
    replaced.  [next_way] is [*way_ptr]. *)
Definition tlb_insert (page flags asid next_way : Z) (tlb : list tlb_entry) : list tlb_entry :=
  match find_way tlb page asid with
  | Some way => alter (fun e => e <| phys_addr_and_flags := flags |>) way tlb
  | None =>
      alter (fun e => e <| virtual_address := page |> <| phys_addr_and_flags := flags |>
                        <| entry_asid := asid |>)
        (tlb_base page + Z.to_nat next_way)%nat tlb
  end.

Definition advance_way (next_way : Z) : Z := u32 (next_way + 1) mod TLB_WAYS.

Definition invalidate_entry (page : Z) (e : tlb_entry) : tlb_entry :=
  if virtual_address e =? page then e <| virtual_address := INVALID_ADDR |> else e.

Definition tlb_invalidate (page : Z) (tlb : list tlb_entry) : list tlb_entry :=
  fold_left (fun tlb way => alter (invalidate_entry page) way tlb) (set_ways page) tlb.

Definition tlb_invalidate_all (tlb : list tlb_entry) : list tlb_entry :=
  map (fun e => e <| virtual_address := INVALID_ADDR |>) tlb.

(** [&thread->scalar_reg[n]] for a register field of an instruction. *)
Definition reg_field (instruction low : Z) : nat :=
  Z.to_nat (extract_unsigned_bits instruction low 5).
Definition get_scalar (t : thread_ptr) (reg : nat) m : Z := scalar_reg (the_thread t m) !!! reg.
Definition get_vector (t : thread_ptr) (reg : nat) m : list Z :=
  vector_reg (the_thread t m) !!! reg.

Definition privileged_op (t : thread_ptr) m : machine D :=
  raise_trap t 0 TT_PRIVILEGED_OP false false 0 m.
Definition illegal_instruction (t : thread_ptr) m : machine D :=
  raise_trap t 0 TT_ILLEGAL_INSTRUCTION false false 0 m.

Definition is_supervisor (t : thread_ptr) m : bool := enable_supervisor (the_thread t m).

(** The flush needs its address translated only for the trap this may raise. *)
Definition cache_flush (t : thread_ptr) (instruction : Z) m : machine D :=
  let offset := extract_signed_bits instruction 15 10 in
  snd (translate_address t (u32 (get_scalar t (reg_field instruction 0) m + offset)) false true m).

Definition cache_tlb_insert (t : thread_ptr) (instruction : Z) (data : bool) m : machine D :=
  let page := ROUND_TO_PAGE (get_scalar t (reg_field instruction 0) m) in
  let flags := get_scalar t (reg_field instruction 5) m in
  let asid := asid (the_thread t m) in
  if negb (is_supervisor t m) then privileged_op t m
  else if data then
    on_core t (fun c => c <| dtlb ::= tlb_insert page flags asid (next_dtlb_way c) |>
                          <| next_dtlb_way ::= advance_way |>) m
  else
    on_core t (fun c => c <| itlb ::= tlb_insert page flags asid (next_itlb_way c) |>
                          <| next_itlb_way ::= advance_way |>) m.

Definition cache_tlb_invalidate (t : thread_ptr) (instruction : Z) m : machine D :=
  let offset := extract_signed_bits instruction 15 10 in
  let page := ROUND_TO_PAGE (u32 (get_scalar t (reg_field instruction 0) m + offset)) in
  if negb (is_supervisor t m) then privileged_op t m
  else on_core t (fun c => c <| itlb ::= tlb_invalidate page |> <| dtlb ::= tlb_invalidate page |>) m.

Definition cache_tlb_invalidate_all (t : thread_ptr) m : machine D :=
  if negb (is_supervisor t m) then privileged_op t m
  else on_core t (fun c => c <| itlb ::= tlb_invalidate_all |> <| dtlb ::= tlb_invalidate_all |>) m.

Definition execute_cache_control_inst (t : thread_ptr) (instruction : Z) m : machine D :=
  match enum_of_Z (extract_unsigned_bits instruction 25 3) with
  | Some CC_DINVALIDATE =>
      if negb (is_supervisor t m) then privileged_op t m else cache_flush t instruction m
  | Some CC_DFLUSH => cache_flush t instruction m
  | Some CC_DTLB_INSERT => cache_tlb_insert t instruction true m
  | Some CC_ITLB_INSERT => cache_tlb_insert t instruction false m
  | Some CC_INVALIDATE_TLB => cache_tlb_invalidate t instruction m
  | Some CC_INVALIDATE_TLB_ALL => cache_tlb_invalidate_all t m
  | None => m
  end.

End Tlb.
