(* ===== verification/ExecArith.v ===== *)
(** * ExecArith: register and immediate arithmetic instructions of processor.c *)

From S2P Require Export Tlb.

(** Compare results are packed by shifting them in from the top of 16 bits, so
    lane [n] ends in bit [n]. *)
Definition pack_compare (compare : nat -> Z) : Z :=
  fold_left (fun result lane =>
    Z.lor (Z.shiftr result 1) (if compare lane =? 0 then 0 else 0x8000)) lanes 0.

Definition scalar_compare (result : Z) : Z := if result =? 0 then 0 else 0xffff.

(** The source operand of lane [lane]: a scalar is the same in every lane. *)
Inductive operand :=
| ScalarOperand (value : Z)
| VectorOperand (values : list Z).

Definition operand_lane (o : operand) (lane : nat) : Z :=
  match o with
  | ScalarOperand value => value
  | VectorOperand values => values !!! lane
  end.

Definition vector_arith (op : Z) (values1 : list Z) (o : operand) : list Z :=
  map (fun lane => scalar_arithmetic_op op (values1 !!! lane) (operand_lane o lane)) lanes.

Definition vector_compare (op : Z) (values1 : list Z) (o : operand) : Z :=
  pack_compare (fun lane => scalar_arithmetic_op op (values1 !!! lane) (operand_lane o lane)).

Definition shuffle (src1 src2 : list Z) : list Z :=
  map (fun lane => src1 !!! Z.to_nat (Z.land (src2 !!! lane) 0xf)) lanes.

Section ExecArith.

Context {D : Type}.
Implicit Types m : machine D.

(** ** Register operands *)

Definition register_compare (t : thread_ptr) (fmt op : Z) (op1reg op2reg destreg : nat) m
  : machine D :=
  match enum_of_Z fmt with
  | Some FMT_RA_SS =>
      set_scalar_reg t destreg (scalar_compare
        (scalar_arithmetic_op op (get_scalar t op1reg m) (get_scalar t op2reg m))) m
  | Some FMT_RA_VS | Some FMT_RA_VS_M =>
      set_scalar_reg t destreg
        (vector_compare op (get_vector t op1reg m) (ScalarOperand (get_scalar t op2reg m))) m
  | Some FMT_RA_VV | Some FMT_RA_VV_M =>
      set_scalar_reg t destreg
        (vector_compare op (get_vector t op1reg m) (VectorOperand (get_vector t op2reg m))) m
  | None => illegal_instruction t m
  end.

Definition register_vector (t : thread_ptr) (fmt op : Z) (op1reg op2reg destreg maskreg : nat) m
  : machine D :=
  let store mask o :=
    let result :=
      if bool_decide (enum_of_Z op = Some OP_SHUFFLE)
      then shuffle (get_vector t op1reg m) (get_vector t op2reg m)
      else vector_arith op (get_vector t op1reg m) o in
    set_vector_reg t destreg mask result m in
  match enum_of_Z fmt with
  | Some FMT_RA_VS_M => store (get_scalar t maskreg m) (ScalarOperand (get_scalar t op2reg m))
  | Some FMT_RA_VV_M => store (get_scalar t maskreg m) (VectorOperand (get_vector t op2reg m))
  | Some FMT_RA_VS => store 0xffff (ScalarOperand (get_scalar t op2reg m))
  | Some FMT_RA_VV => store 0xffff (VectorOperand (get_vector t op2reg m))
  | _ => illegal_instruction t m
  end.

Definition execute_register_arith_inst (t : thread_ptr) (instruction : Z) m : machine D :=
  let fmt := extract_unsigned_bits instruction 26 3 in
  let op := extract_unsigned_bits instruction 20 6 in
  let op1reg := reg_field instruction 0 in
  let op2reg := reg_field instruction 15 in
  let destreg := reg_field instruction 5 in
  let maskreg := reg_field instruction 10 in
  if bool_decide (enum_of_Z op = Some OP_BREAKPOINT) then
    raise_trap t 0 TT_BREAKPOINT false false 0 m
  else if bool_decide (enum_of_Z op = Some OP_GETLANE) then
    set_scalar_reg t destreg
      (get_vector t op1reg m !!! Z.to_nat (Z.land (get_scalar t op2reg m) 0xf)) m
  else if is_compare_op op then register_compare t fmt op op1reg op2reg destreg m
  else if bool_decide (enum_of_Z fmt = Some FMT_RA_SS) then
    set_scalar_reg t destreg
      (scalar_arithmetic_op op (get_scalar t op1reg m) (get_scalar t op2reg m)) m
  else register_vector t fmt op op1reg op2reg destreg maskreg m.

(** ** Immediate operands *)

Definition immediate_value (fmt instruction : Z) : Z :=
  match enum_of_Z fmt with
  | Some FMT_IMM_VM => extract_signed_bits instruction 15 9
  | Some FMT_IMM_MOVEHI =>
      Z.lor (Z.shiftl (extract_unsigned_bits instruction 10 14) 18)
            (Z.shiftl (extract_unsigned_bits instruction 0 5) 13)
  | _ => extract_signed_bits instruction 10 14
  end.

Definition immediate_compare (t : thread_ptr) (fmt op imm_value : Z) (op1reg destreg : nat) m
  : machine D :=
  match enum_of_Z fmt with
  | Some FMT_IMM_V | Some FMT_IMM_VM =>
      set_scalar_reg t destreg
        (vector_compare op (get_vector t op1reg m) (ScalarOperand imm_value)) m
  | Some FMT_IMM_S =>
      set_scalar_reg t destreg
        (scalar_compare (scalar_arithmetic_op op (get_scalar t op1reg m) imm_value)) m
  | _ => illegal_instruction t m
  end.

Definition immediate_vector (t : thread_ptr) (fmt op imm_value : Z)
  (op1reg destreg maskreg : nat) m : machine D :=
  let store mask :=
    set_vector_reg t destreg mask
      (vector_arith op (get_vector t op1reg m) (ScalarOperand imm_value)) m in
  match enum_of_Z fmt with
  | Some FMT_IMM_VM => store (get_scalar t maskreg m)
  | Some FMT_IMM_V => store 0xffff
  | _ => illegal_instruction t m
  end.

Definition execute_immediate_arith_inst (t : thread_ptr) (instruction : Z) m : machine D :=
  let fmt := extract_unsigned_bits instruction 29 2 in
  let op := extract_unsigned_bits instruction 24 5 in
  let op1reg := reg_field instruction 0 in
  let maskreg := reg_field instruction 10 in
  let destreg := reg_field instruction 5 in
  let imm_value := immediate_value fmt instruction in
  if bool_decide (enum_of_Z op = Some OP_SYSCALL) then
    raise_trap t 0 TT_SYSCALL false false (extract_unsigned_bits instruction 10 14) m
  else if bool_decide (enum_of_Z op = Some OP_GETLANE) then
    set_scalar_reg t destreg (get_vector t op1reg m !!! Z.to_nat (Z.land imm_value 0xf)) m
  else if is_compare_op op then immediate_compare t fmt op imm_value op1reg destreg m
  else if bool_decide (enum_of_Z fmt = Some FMT_IMM_S)
          || bool_decide (enum_of_Z fmt = Some FMT_IMM_MOVEHI) then
    set_scalar_reg t destreg (scalar_arithmetic_op op (get_scalar t op1reg m) imm_value) m
  else immediate_vector t fmt op imm_value op1reg destreg maskreg m.

End ExecArith.
