(* ===== verification/ExecMem.v ===== *)
(** * ExecMem: load, store, block, scatter and gather instructions of processor.c *)

From S2P Require Export ExecArith.

Section ExecMem.

Context {D : Type} `{Host D}.
Implicit Types m : machine D.

(** [extract_unsigned_bits(instruction, 29, 1)] *)
Definition is_load_inst (instruction : Z) : bool :=
  negb (extract_unsigned_bits instruction 29 1 =? 0).

Definition memory_op_field (instruction : Z) : option memory_op :=
  enum_of_Z (extract_unsigned_bits instruction 25 4).

Definition is_device_address (physical_address : Z) : bool :=
  DEVICE_BASE_ADDRESS <=? physical_address.

Definition cache_line (physical_address : Z) : Z := physical_address / CACHE_LINE_LENGTH.

(** ** Scalar accesses *)

Definition access_size (op : option memory_op) : Z :=
  match op with
  | Some MEM_BYTE | Some MEM_BYTE_SEXT => 1
  | Some MEM_SHORT | Some MEM_SHORT_EXT => 2
  | _ => 4
  end.

(** A device read returns the register and drops the lines the device clears. *)
Definition load_device (physical_address : Z) m : Z * machine D :=
  let '(value, cleared, d) := read_device_register physical_address (host m) in
  (value, on_proc (clear_interrupt cleared) (m <| host := d |>)).

Definition set_sync_addr (t : thread_ptr) (line : Z) m : machine D :=
  on_thread t (fun th => th <| last_sync_load_addr := line |>) m.

(** The value a load reads; [None] when the encoding is illegal. *)
Definition scalar_load_value (t : thread_ptr) (op : option memory_op) (physical_address : Z) m
  : result (option Z * machine D) :=
  let mem := memory (proc m) in
  match op with
  | Some MEM_LONG =>
      if is_device_address physical_address then
        let '(value, m) := load_device physical_address m in Done (Some value, m)
      else value <-- load32 physical_address mem;; Done (Some value, m)
  | Some MEM_BYTE => value <-- load8 physical_address mem;; Done (Some value, m)
  | Some MEM_BYTE_SEXT => value <-- load8 physical_address mem;; Done (Some (u32 (s8 value)), m)
  | Some MEM_SHORT => value <-- load16 physical_address mem;; Done (Some value, m)
  | Some MEM_SHORT_EXT => value <-- load16 physical_address mem;; Done (Some (u32 (s16 value)), m)
  | Some MEM_SYNC =>
      value <-- load32 physical_address mem;;
      Done (Some value, set_sync_addr t (cache_line physical_address) m)
  | Some MEM_CONTROL_REG => Fault AssertFailed
  | _ => Done (None, m)
  end.

Definition set_memory (mem : list Z) m : machine D := on_proc (fun p => p <| memory := mem |>) m.

(** A register written without a cosimulation event. *)
Definition set_scalar_quietly (t : thread_ptr) (reg : nat) (value : Z) m : machine D :=
  on_thread t (fun th => th <| scalar_reg ::= <[reg := value]> |>) m.

(** What follows a store that reached memory. *)
Definition after_store (t : thread_ptr) (physical_address address size value : Z) m
  : result (machine D) :=
  m <-- invalidate_sync_address t physical_address m;;
  Done (with_cosim (cosim_check_scalar_store (current_pc t m) address size value) m).

Definition store_device (physical_address value : Z) m : result (machine D) :=
  if physical_address =? REG_TIMER_INT then
    Done (on_proc (fun p => p <| current_timer_count := value |>) m)
  else d <-- write_device_register physical_address value (host m);; Done (m <| host := d |>).

Definition scalar_store (t : thread_ptr) (op : option memory_op) (destsrcreg : nat)
  (address physical_address : Z) m : result (machine D) :=
  let value_to_store := get_scalar t destsrcreg m in
  let mem := memory (proc m) in
  let finish m := after_store t physical_address address (access_size op) value_to_store m in
  match op with
  | Some MEM_BYTE | Some MEM_BYTE_SEXT =>
      mem <-- store8 physical_address (u8 value_to_store) mem;; finish (set_memory mem m)
  | Some MEM_SHORT | Some MEM_SHORT_EXT =>
      mem <-- store16 physical_address (u16 value_to_store) mem;; finish (set_memory mem m)
  | Some MEM_LONG =>
      if is_device_address physical_address then store_device physical_address value_to_store m
      else mem <-- store32 physical_address value_to_store mem;; finish (set_memory mem m)
  | Some MEM_SYNC =>
      if cache_line physical_address =? last_sync_load_addr (the_thread t m) then
        let m := set_scalar_quietly t destsrcreg 1 m in
        mem <-- store32 physical_address value_to_store mem;; finish (set_memory mem m)
      else Done (set_scalar_quietly t destsrcreg 0 m)
  | Some MEM_CONTROL_REG => Fault AssertFailed
  | _ => Done (illegal_instruction t m)
  end.

Definition execute_scalar_load_store_inst (t : thread_ptr) (instruction : Z) m
  : result (machine D) :=
  let op := memory_op_field instruction in
  let destsrcreg := reg_field instruction 5 in
  let is_load := is_load_inst instruction in
  let address := u32 (get_scalar t (reg_field instruction 0) m
                      + extract_signed_bits instruction 10 15) in
  if negb (address mod access_size op =? 0) then
    Done (raise_trap t address TT_UNALIGNED_ACCESS (negb is_load) true 0 m)
  else
    match translate_address t address (negb is_load) true m with
    | (None, m) => Done m
    | (Some physical_address, m) =>
        if is_device_address physical_address && negb (bool_decide (op = Some MEM_LONG)) then
          Done (crash m)
        else if is_load then
          '(value, m) <-- scalar_load_value t op physical_address m;;
          match value with
          | Some value => Done (set_scalar_reg t destsrcreg value m)
          | None => Done (illegal_instruction t m)
          end
        else scalar_store t op destsrcreg address physical_address m
    end.

(** ** Block accesses *)

(** The mask and the offset of the vector formats; [None] is [assert(0)]. *)
Definition vector_operands (t : thread_ptr) (unmasked masked : memory_op) (instruction : Z) m
  : option (Z * Z) :=
  if bool_decide (memory_op_field instruction = Some unmasked) then
    Some (0xffff, extract_signed_bits instruction 10 15)
  else if bool_decide (memory_op_field instruction = Some masked) then
    Some (get_scalar t (reg_field instruction 10) m, extract_signed_bits instruction 15 10)
  else None.

(** [block_ptr[lane]] for every lane, [word] being the index of lane 0. *)
Fixpoint load_block (word : Z) (count : nat) (mem : list Z) : result (list Z) :=
  match count with
  | O => Done []
  | S count' =>
      value <-- load_element 32 word mem;;
      rest <-- load_block (word + 1) count' mem;;
      Done (value :: rest)
  end.

Fixpoint store_block (word : Z) (mask : Z) (values : list Z) (ids : list nat) (mem : list Z)
  : result (list Z) :=
  match ids with
  | [] => Done mem
  | lane :: ids' =>
      if lane_enabled mask lane then
        mem <-- store_element 32 (word + Z.of_nat lane) (values !!! lane) mem;;
        store_block word mask values ids' mem
      else store_block word mask values ids' mem
  end.

Definition block_store (t : thread_ptr) (address physical_address mask : Z) (destsrcreg : nat) m
  : result (machine D) :=
  let store_value := get_vector t destsrcreg m in
  if Z.land mask 0xffff =? 0 then Done m
  else
    let m := with_cosim
      (cosim_check_vector_store (current_pc t m) address mask store_value) m in
    mem <-- store_block (physical_address / 4) mask store_value lanes (memory (proc m));;
    invalidate_sync_address t physical_address (set_memory mem m).

Definition execute_block_load_store_inst (t : thread_ptr) (instruction : Z) m
  : result (machine D) :=
  let destsrcreg := reg_field instruction 5 in
  let is_load := is_load_inst instruction in
  match vector_operands t MEM_BLOCK_VECTOR MEM_BLOCK_VECTOR_MASK instruction m with
  | None => Fault AssertFailed
  | Some (mask, offset) =>
      let address := u32 (get_scalar t (reg_field instruction 0) m + offset) in
      if negb (Z.land address (Z.of_nat NUM_VECTOR_LANES * 4 - 1) =? 0) then
        Done (raise_trap t address TT_UNALIGNED_ACCESS (negb is_load) true 0 m)
      else
        match translate_address t address (negb is_load) true m with
        | (None, m) => Done m
        | (Some physical_address, m) =>
            if is_device_address physical_address then Done (crash m)
            else if is_load then
              load_value <-- load_block (physical_address / 4) NUM_VECTOR_LANES (memory (proc m));;
              Done (set_vector_reg t destsrcreg mask load_value m)
            else block_store t address physical_address mask destsrcreg m
        end
  end.

(** ** Scatter and gather: one lane each time the instruction executes *)

Definition gather_lane (t : thread_ptr) (mask physical_address : Z) (lane destsrcreg : nat) m
  : result (machine D) :=
  value <-- (if lane_enabled mask lane then load32 physical_address (memory (proc m)) else Done 0);;
  Done (set_vector_reg t destsrcreg (Z.land mask (Z.shiftl 1 (Z.of_nat lane)))
          (<[lane := value]> (replicate NUM_VECTOR_LANES 0)) m).

Definition scatter_lane (t : thread_ptr) (mask address physical_address : Z)
  (lane destsrcreg : nat) m : result (machine D) :=
  if lane_enabled mask lane then
    let value := get_vector t destsrcreg m !!! lane in
    mem <-- store32 physical_address value (memory (proc m));;
    after_store t physical_address address 4 value (set_memory mem m)
  else Done m.

(** The next lane, or the end of the instruction. *)
Definition advance_subcycle (th : thread) : thread :=
  let next := u32 (subcycle th + 1) in
  if next =? Z.of_nat NUM_VECTOR_LANES then th <| subcycle := 0 |>
  else th <| subcycle := next |> <| pc ::= fun p => u32 (p - 4) |>.

Definition execute_scatter_gather_inst (t : thread_ptr) (instruction : Z) m
  : result (machine D) :=
  let destsrcreg := reg_field instruction 5 in
  let is_load := is_load_inst instruction in
  match vector_operands t MEM_SCGATH MEM_SCGATH_MASK instruction m with
  | None => Fault AssertFailed
  | Some (mask, offset) =>
      let subcycle := subcycle (the_thread t m) in
      if Z.of_nat NUM_VECTOR_LANES <=? subcycle then Fault OutOfBounds
      else
        let lane := Z.to_nat subcycle in
        let address := u32 (get_vector t (reg_field instruction 0) m !!! lane + offset) in
        if lane_enabled mask lane && negb (Z.land address 3 =? 0) then
          Done (raise_trap t address TT_UNALIGNED_ACCESS (negb is_load) true 0 m)
        else
          match translate_address t address (negb is_load) true m with
          | (None, m) => Done m
          | (Some physical_address, m) =>
              if is_device_address physical_address then Done (crash m)
              else
                m <-- (if is_load then gather_lane t mask physical_address lane destsrcreg m
                       else scatter_lane t mask address physical_address lane destsrcreg m);;
                Done (on_thread t advance_subcycle m)
          end
  end.

End ExecMem.
