(* ===== verification/ExecControl.v ===== *)
(** * ExecControl: control registers, branches and memory dispatch of processor.c *)

From S2P Require Export ExecMem.

(** The three flags as bits of a word. *)
Definition flags_word (interrupt mmu supervisor : bool) : Z :=
  Z.lor (Z.lor (flag_if interrupt 1) (flag_if mmu 2)) (flag_if supervisor 4).

Section ExecControl.

Context {D : Type} `{Host D}.
Implicit Types m : machine D.

(** ** Control registers *)

Definition control_register_value (t : thread_ptr) (cr_index : Z) m : Z :=
  let th := the_thread t m in
  let saved := saved_trap_state_0 th in
  match enum_of_Z cr_index with
  | Some CR_THREAD_ID => id th
  | Some CR_TRAP_HANDLER => trap_handler_pc (the_core t m)
  | Some CR_TRAP_PC => saved_pc saved
  | Some CR_TRAP_REASON => trap_cause saved
  | Some CR_FLAGS => flags_word (enable_interrupt th) (enable_mmu th) (enable_supervisor th)
  | Some CR_SAVED_FLAGS =>
      flags_word (saved_enable_interrupt saved) (saved_enable_mmu saved)
        (saved_enable_supervisor saved)
  | Some CR_CURRENT_ASID => asid th
  | Some CR_PAGE_DIR => page_dir th
  | Some CR_TRAP_ACCESS_ADDR => access_address saved
  | Some CR_CYCLE_COUNT => u32 (total_instructions (proc m))
  | Some CR_TLB_MISS_HANDLER => tlb_miss_handler_pc (the_core t m)
  | Some CR_SCRATCHPAD0 => scratchpad0 saved
  | Some CR_SCRATCHPAD1 => scratchpad1 saved
  | Some CR_SUBCYCLE => saved_subcycle saved
  | Some CR_INTERRUPT_PENDING => Z.land (get_pending_interrupts t m) (interrupt_mask th)
  | Some CR_INTERRUPT_ENABLE => interrupt_mask th
  | Some CR_INTERRUPT_TRIGGER => is_level_triggered (the_core t m)
  | Some CR_SYSCALL_INDEX => syscall_index saved
  | _ => 0xffffffff
  end.

Definition read_control_register (t : thread_ptr) (cr_index : Z) (dst_src_reg : nat) m
  : machine D :=
  set_scalar_reg t dst_src_reg (control_register_value t cr_index m) m.

Definition flag_bit (value bit : Z) : bool := negb (Z.land value bit =? 0).

Definition on_saved (f : trap_state -> trap_state) (t : thread_ptr) m : machine D :=
  on_thread t (fun th => th <| saved_trap_state_0 ::= f |>) m.

Definition write_flags (t : thread_ptr) (value : Z) m : machine D :=
  let m := on_thread t (fun th => th <| enable_interrupt := flag_bit value 1 |>
             <| enable_mmu := flag_bit value 2 |> <| enable_supervisor := flag_bit value 4 |>) m in
  (* An interrupt may have occurred while interrupts were disabled. *)
  if flag_bit value 1 then try_to_dispatch_interrupt t m else m.

Definition write_control_register (t : thread_ptr) (cr_index : Z) (dst_src_reg : nat) m
  : machine D :=
  let value := get_scalar t dst_src_reg m in
  match enum_of_Z cr_index with
  | Some CR_TRAP_HANDLER => on_core t (fun c => c <| trap_handler_pc := value |>) m
  | Some CR_TRAP_PC => on_saved (fun s => s <| saved_pc := value |>) t m
  | Some CR_FLAGS => write_flags t value m
  | Some CR_SAVED_FLAGS =>
      on_saved (fun s => s <| saved_enable_interrupt := flag_bit value 1 |>
        <| saved_enable_mmu := flag_bit value 2 |>
        <| saved_enable_supervisor := flag_bit value 4 |>) t m
  | Some CR_CURRENT_ASID => on_thread t (fun th => th <| asid := value |>) m
  | Some CR_PAGE_DIR => on_thread t (fun th => th <| page_dir := value |>) m
  | Some CR_TLB_MISS_HANDLER => on_core t (fun c => c <| tlb_miss_handler_pc := value |>) m
  | Some CR_SCRATCHPAD0 => on_saved (fun s => s <| scratchpad0 := value |>) t m
  | Some CR_SCRATCHPAD1 => on_saved (fun s => s <| scratchpad1 := value |>) t m
  | Some CR_SUBCYCLE => on_saved (fun s => s <| saved_subcycle := value |>) t m
  | Some CR_INTERRUPT_ENABLE => on_thread t (fun th => th <| interrupt_mask := value |>) m
  | Some CR_INTERRUPT_ACK =>
      on_thread t (fun th => th <| latched_interrupts ::= fun l => Z.land l (lnot32 value) |>) m
  | Some CR_INTERRUPT_TRIGGER => on_core t (fun c => c <| is_level_triggered := value |>) m
  | Some CR_SUSPEND_THREAD =>
      on_proc (fun p => p <| thread_enable_mask ::= fun e => Z.land e (lnot32 value) |>) m
  | Some CR_RESUME_THREAD =>
      on_proc (fun p => p <| thread_enable_mask ::= fun e =>
        Z.lor e (Z.land value (Z.shiftl 1 (total_threads p) - 1)) |>) m
  | _ => m
  end.

Definition execute_control_register_inst (t : thread_ptr) (instruction : Z) m : machine D :=
  let cr_index := extract_unsigned_bits instruction 0 5 in
  let dst_src_reg := reg_field instruction 5 in
  if negb (is_supervisor t m) then privileged_op t m
  else if is_load_inst instruction then read_control_register t cr_index dst_src_reg m
  else write_control_register t cr_index dst_src_reg m.

(** ** Memory instructions *)

Definition execute_memory_access_inst (t : thread_ptr) (instruction : Z) m
  : result (machine D) :=
  match memory_op_field instruction with
  | Some MEM_BYTE | Some MEM_BYTE_SEXT | Some MEM_SHORT | Some MEM_SHORT_EXT
  | Some MEM_LONG | Some MEM_SYNC => execute_scalar_load_store_inst t instruction m
  | Some MEM_CONTROL_REG => Done (execute_control_register_inst t instruction m)
  | Some MEM_BLOCK_VECTOR | Some MEM_BLOCK_VECTOR_MASK =>
      execute_block_load_store_inst t instruction m
  | Some MEM_SCGATH | Some MEM_SCGATH_MASK => execute_scatter_gather_inst t instruction m
  | None => Done (illegal_instruction t m)
  end.

(** ** Branches *)

Definition set_pc (t : thread_ptr) (value : Z) m : machine D :=
  on_thread t (fun th => th <| pc := value |>) m.

Definition branch_by (t : thread_ptr) (offset : Z) m : machine D :=
  on_thread t (fun th => th <| pc ::= fun p => u32 (p + offset) |>) m.

(** Restores the state saved by the current trap, and pops the nested one. *)
Definition restore_trap_state (th : thread) : thread :=
  let saved := saved_trap_state_0 th in
  th <| enable_interrupt := saved_enable_interrupt saved |>
     <| enable_mmu := saved_enable_mmu saved |>
     <| pc := saved_pc saved |>
     <| subcycle := saved_subcycle saved |>
     <| enable_supervisor := saved_enable_supervisor saved |>
     <| saved_trap_state_0 := saved_trap_state_1 th |>.

Definition execute_eret (t : thread_ptr) m : machine D :=
  if negb (is_supervisor t m) then privileged_op t m
  else
    let m := on_thread t restore_trap_state m in
    (* There may be other interrupts pending *)
    if enable_interrupt (the_thread t m) then try_to_dispatch_interrupt t m else m.

Definition execute_branch_inst (t : thread_ptr) (instruction : Z) m : machine D :=
  let src_reg := reg_field instruction 0 in
  (* Subtract 4 because PC was already incremented after fetching instruction *)
  let offset20 := u32 (extract_signed_bits instruction 5 20 * 4 - 4) in
  let offset25 := u32 (extract_signed_bits instruction 0 25 * 4 - 4) in
  match enum_of_Z (extract_unsigned_bits instruction 25 3) with
  | Some BRANCH_REGISTER => set_pc t (get_scalar t src_reg m) m
  | Some BRANCH_ZERO => if get_scalar t src_reg m =? 0 then branch_by t offset20 m else m
  | Some BRANCH_NOT_ZERO =>
      if negb (get_scalar t src_reg m =? 0) then branch_by t offset20 m else m
  | Some BRANCH_ALWAYS => branch_by t offset25 m
  | Some BRANCH_CALL_OFFSET =>
      let m := set_scalar_reg t LINK_REG (pc (the_thread t m)) m in branch_by t offset25 m
  | Some BRANCH_CALL_REGISTER =>
      let m := set_scalar_reg t LINK_REG (pc (the_thread t m)) m in
      set_pc t (get_scalar t src_reg m) m
  | Some BRANCH_ERET => execute_eret t m
  | None => illegal_instruction t m
  end.

End ExecControl.
