(* ===== verification/Interp.v ===== *)
(** * Interp: the execution loops and debugger entry points of processor.c *)

From S2P Require Export ExecControl.

(** ** Breakpoints *)

Fixpoint lookup_breakpoint (bps : list breakpoint) (at_pc : Z) : option breakpoint :=
  match bps with
  | [] => None
  | bp :: rest => if bp_address bp =? at_pc then Some bp else lookup_breakpoint rest at_pc
  end.

(** An update through the pointer [lookup_breakpoint] returns. *)
Fixpoint update_breakpoint (f : breakpoint -> breakpoint) (at_pc : Z) (bps : list breakpoint)
  : list breakpoint :=
  match bps with
  | [] => []
  | bp :: rest =>
      if bp_address bp =? at_pc then f bp :: rest else bp :: update_breakpoint f at_pc rest
  end.

(** Unlinks the first breakpoint at [at_pc]. *)
Fixpoint unlink_breakpoint (at_pc : Z) (bps : list breakpoint) : list breakpoint :=
  match bps with
  | [] => []
  | bp :: rest => if bp_address bp =? at_pc then rest else bp :: unlink_breakpoint at_pc rest
  end.

(** The return value, and the processor: -1 reports an error. *)
Definition dbg_set_breakpoint (at_pc : Z) (p : processor) : result (Z * processor) :=
  match lookup_breakpoint (breakpoints p) at_pc with
  | Some _ => Done (-1, p)
  | None =>
      if (memory_size p <=? at_pc) || negb (Z.land at_pc 3 =? 0) then Done (-1, p)
      else
        instruction <-- load32 at_pc (memory p);;
        let original :=
          if instruction =? BREAKPOINT_INST then INSTRUCTION_NOP else instruction in
        mem <-- store32 at_pc BREAKPOINT_INST (memory p);;
        Done (0, p <| breakpoints ::= cons {| bp_address := at_pc;
                       original_instruction := original; restart := false |} |>
                   <| memory := mem |>)
  end.

Definition dbg_clear_breakpoint (at_pc : Z) (p : processor) : result (Z * processor) :=
  match lookup_breakpoint (breakpoints p) at_pc with
  | Some bp =>
      mem <-- store32 at_pc (original_instruction bp) (memory p);;
      Done (0, p <| memory := mem |> <| breakpoints ::= unlink_breakpoint at_pc |>)
  | None => Done (-1, p)
  end.

(** ** One instruction *)

Section Interp.

Context {D : Type} `{Host D}.
Implicit Types m : machine D.

(** Everything but the breakpoint test. *)
Definition dispatch_plain (t : thread_ptr) (instruction : Z) m : result (machine D) :=
  if Z.land instruction 0xe0000000 =? 0xc0000000 then
    Done (execute_register_arith_inst t instruction m)
  else if Z.land instruction 0x80000000 =? 0 then
    if instruction =? BREAKPOINT_INST then Fault AssertFailed
    else if negb (instruction =? INSTRUCTION_NOP) then
      Done (execute_immediate_arith_inst t instruction m)
    else Done m
  else if Z.land instruction 0xc0000000 =? 0x80000000 then
    execute_memory_access_inst t instruction m
  else if Z.land instruction 0xf0000000 =? 0xf0000000 then
    Done (execute_branch_inst t instruction m)
  else if Z.land instruction 0xf0000000 =? 0xe0000000 then
    Done (execute_cache_control_inst t instruction m)
  else Done m.

(** The interpreter found [BREAKPOINT_INST]: [false] means execution stops here.
    [goto restart] runs the original instruction, which the code asserts is not
    another [BREAKPOINT_INST]. *)
Definition hit_breakpoint (t : thread_ptr) m : result (bool * machine D) :=
  let at_pc := current_pc t m in
  match lookup_breakpoint (breakpoints (proc m)) at_pc with
  | None => Done (true, illegal_instruction t m)
  | Some bp =>
      let set_restart b := on_proc (fun p => p <| breakpoints ::=
        update_breakpoint (fun bp => bp <| restart := b |>) at_pc |>) in
      if restart bp || single_stepping (proc m) then
        m <-- dispatch_plain t (original_instruction bp) (set_restart false m);;
        Done (true, m)
      else
        let m := set_restart true m in
        Done (false, on_thread t (fun th => th <| pc ::= fun p => u32 (p - 4) |>) m)
  end.

Definition dispatch (t : thread_ptr) (instruction : Z) m : result (bool * machine D) :=
  if instruction =? BREAKPOINT_INST then hit_breakpoint t m
  else m <-- dispatch_plain t instruction m;; Done (true, m).

Definition count_instruction m : machine D :=
  on_proc (fun p => p <| total_instructions ::= fun n => n + 1 |>) m.

Definition execute_instruction (t : thread_ptr) m : result (bool * machine D) :=
  let fetch_pc := pc (the_thread t m) in
  let m := on_thread t (fun th => th <| pc ::= fun p => u32 (p + 4) |>) m in
  if negb (Z.land fetch_pc 3 =? 0) then
    Done (true, raise_trap t (pc (the_thread t m)) TT_UNALIGNED_ACCESS false false 0 m)
  else
    match translate_address t fetch_pc false false m with
    | (None, m) => Done (true, m)
    | (Some physical_pc, m) =>
        instruction <-- load32 physical_pc (memory (proc m));;
        dispatch t instruction (count_instruction m)
    end.

(** ** The timer and the scheduling loops *)

Definition timer_tick m : machine D :=
  if 0 <? current_timer_count (proc m) then
    let fires := current_timer_count (proc m) =? 1 in
    let m := on_proc (fun p => p <| current_timer_count ::= fun c => c - 1 |>) m in
    if fires then raise_interrupt INT_TIMER m else m
  else m.

(** One pass of either loop: the thread is chosen by [choose], which may draw a
    random number.  [None] is the end of the loop, with the return value. *)
Definition schedule_step (choose : Z -> machine D -> Z * machine D) (next_thread : Z) m
  : result (option bool * Z * machine D) :=
  if thread_enable_mask (proc m) =? 0 then Done (Some false, next_thread, m)
  else if crashed (proc m) then Done (Some false, next_thread, m)
  else
    let '(next_thread, m) := choose next_thread m in
    '(continue, m) <-- execute_instruction (get_thread (proc m) next_thread) m;;
    if negb continue then Done (Some false, next_thread, m)
    else Done (None, next_thread, timer_tick m).

Fixpoint schedule (choose : Z -> machine D -> Z * machine D) (total_instructions : nat)
  (next_thread : Z) m : result (bool * machine D) :=
  match total_instructions with
  | O => Done (true, m)
  | S remaining =>
      '(stop, next_thread, m) <-- schedule_step choose next_thread m;;
      match stop with
      | Some r => Done (r, m)
      | None => schedule choose remaining next_thread m
      end
  end.

Definition choose_random (next_thread : Z) m : Z * machine D :=
  let '(r, d) := host_next_random (host m) in
  (next_set_bit (thread_enable_mask (proc m)) (u32 r mod total_threads (proc m)),
   m <| host := d |>).

Definition choose_round_robin (next_thread : Z) m : Z * machine D :=
  (next_set_bit (thread_enable_mask (proc m)) (Z.land (u32 (next_thread + 31)) 31), m).

Definition execute_instructions (total_instructions : nat) m : result (bool * machine D) :=
  let m := on_proc (fun p => p <| single_stepping := false |>) m in
  if random_thread_sched (proc m) then schedule choose_random total_instructions 0 m
  else schedule choose_round_robin total_instructions 0 m.

(** ** Debugger *)

Definition dbg_get_pc (thread_id : Z) m : Z := pc (the_thread (get_thread (proc m) thread_id) m).

Definition dbg_single_step (thread_id : Z) m : result (machine D) :=
  let m := on_proc (fun p => p <| single_stepping := true |>) m in
  '(_, m) <-- execute_instruction (get_thread (proc m) thread_id) m;;
  Done (timer_tick m).

Definition dbg_get_scalar_reg (thread_id : Z) (reg_id : nat) m : Z :=
  get_scalar (get_thread (proc m) thread_id) reg_id m.

Definition dbg_set_scalar_reg (thread_id : Z) (reg_id : nat) (value : Z) m : machine D :=
  set_scalar_reg (get_thread (proc m) thread_id) reg_id value m.

Definition dbg_get_vector_reg (thread_id : Z) (reg_id : nat) m : list Z :=
  get_vector (get_thread (proc m) thread_id) reg_id m.

Definition dbg_set_vector_reg (thread_id : Z) (reg_id : nat) (values : list Z) m : machine D :=
  on_thread (get_thread (proc m) thread_id)
    (fun th => th <| vector_reg ::= <[reg_id := values]> |>) m.

Definition dbg_read_memory_byte (address : Z) m : result Z :=
  if memory_size (proc m) <=? address then Done 0xff else load8 address (memory (proc m)).

Definition dbg_write_memory_byte (address byte : Z) m : result (machine D) :=
  if address <? memory_size (proc m) then
    mem <-- store8 address byte (memory (proc m));; Done (set_memory mem m)
  else Done m.

End Interp.
