(* ===== verification/Sdmmc.v ===== *)
(** * Sdmmc: the SD card of tools/emulator/sdmmc.c, in SPI mode

    The static variables are a record, the block device file is the list of its
    bytes ([None] before [open_sdmmc_device]), and a byte that [malloc] left
    undefined is [None]: reading one is a fault, like an index outside the buffer.
    POSIX [read] returns what the file holds past the offset, and [write] extends
    the file; [lseek] fails only when no file is open.  [malloc] succeeds. *)

From S2P Require Export Util.

Definition INIT_CLOCKS : Z := 80.
Definition SD_COMMAND_LENGTH : nat := 6.
Definition DATA_TOKEN : Z := 0xfe.

Inductive sd_command :=
| CMD_GO_IDLE_STATE | CMD_SEND_OP_COND | CMD_SEND_IF_COND | CMD_SET_BLOCKLEN
| CMD_READ_SINGLE_BLOCK | CMD_WRITE_SINGLE_BLOCK | CMD_APP_OP_COND | CMD_APP_CMD.

Definition sd_command_value (c : sd_command) : Z :=
  match c with
  | CMD_GO_IDLE_STATE => 0 | CMD_SEND_OP_COND => 1 | CMD_SEND_IF_COND => 8
  | CMD_SET_BLOCKLEN => 16 | CMD_READ_SINGLE_BLOCK => 17 | CMD_WRITE_SINGLE_BLOCK => 24
  | CMD_APP_OP_COND => 41 | CMD_APP_CMD => 55
  end.

#[export]
Instance sd_command_enum : CEnum sd_command.
Proof.
  refine {|
    enum_value := sd_command_value;
    enum_all := [CMD_GO_IDLE_STATE; CMD_SEND_OP_COND; CMD_SEND_IF_COND; CMD_SET_BLOCKLEN;
      CMD_READ_SINGLE_BLOCK; CMD_WRITE_SINGLE_BLOCK; CMD_APP_OP_COND; CMD_APP_CMD] |};
  solve_enum.
Defined.

Inductive sd_state :=
| STATE_INIT_WAIT | STATE_IDLE | STATE_RECEIVE_COMMAND | STATE_READ_CMD_RESPONSE
| STATE_READ_DATA_TOKEN | STATE_SEND_R1 | STATE_SEND_R3 | STATE_SEND_R7
| STATE_READ_TRANSFER | STATE_WRITE_CMD_RESPONSE | STATE_WRITE_DATA_TOKEN
| STATE_WRITE_TRANSFER | STATE_WRITE_DATA_RESPONSE.

#[export]
Instance sd_state_eq_dec : EqDecision sd_state.
Proof. solve_decision. Defined.

(** The module's static variables; [random_state] is the one of util.c, which
    [next_random] shares with the rest of the emulator. *)
Record sdmmc := {
  block_fd : option (list Z);
  current_state : sd_state;
  chip_select : Z;
  state_delay : Z;
  transfer_address : Z;
  transfer_count : Z;
  block_length : Z;
  init_clock_count : Z;
  command : list Z;
  command_length : Z;
  block_buffer : list (option Z);
  in_idle_state : bool;
  check_pattern : Z;
  voltage : Z;
  is_app_cmd : bool;
  random_state : Random.state
}.

#[export]
Instance sdmmc_fields : Fields sdmmc := fun s =>
  Build_sdmmc (block_fd s) (current_state s) (chip_select s) (state_delay s)
    (transfer_address s) (transfer_count s) (block_length s) (init_clock_count s) (command s)
    (command_length s) (block_buffer s) (in_idle_state s) (check_pattern s) (voltage s)
    (is_app_cmd s) (random_state s).

(** The values static initialisation gives. *)
Definition sdmmc_init (random : Random.state) : sdmmc :=
  {| block_fd := None; current_state := STATE_INIT_WAIT; chip_select := 0; state_delay := 0;
     transfer_address := 0; transfer_count := 0; block_length := 0; init_clock_count := 0;
     command := replicate SD_COMMAND_LENGTH 0; command_length := 0; block_buffer := [];
     in_idle_state := false; check_pattern := 0; voltage := 0; is_app_cmd := false;
     random_state := random |}.

Definition malloc (size : Z) : list (option Z) := replicate (Z.to_nat size) None.

(** [file] is [None] when it cannot be opened: the result is -1. *)
Definition open_sdmmc_device (file : option (list Z)) (s : sdmmc) : Z * sdmmc :=
  match block_fd s, file with
  | Some _, _ => (0, s)
  | None, None => (-1, s)
  | None, Some bytes =>
      (0, s <| block_fd := Some bytes |> <| block_length := 512 |>
            <| block_buffer := malloc 512 |>)
  end.

(** [values + offset]: despite its name, the first byte is the highest. *)
Definition read_little_endian (values : list Z) (offset : nat) : Z :=
  Z.lor (Z.lor (Z.lor (Z.shiftl (values !!! offset) 24)
                      (Z.shiftl (values !!! S offset) 16))
               (Z.shiftl (values !!! S (S offset)) 8))
        (values !!! S (S (S offset))).

(** [next_random() & 0xf] *)
Definition random_delay (s : sdmmc) : Z * sdmmc :=
  let '(r, random) := Random.next_random (random_state s) in
  (Z.land r 0xf, s <| random_state := random |>).

(** ** The block device file *)

Definition read_file (offset count : Z) (file : list Z) : list Z :=
  take (Z.to_nat count) (drop (Z.to_nat offset) file).

Definition write_file (offset : Z) (bytes file : list Z) : list Z :=
  let start := Z.to_nat offset in
  match bytes with
  | [] => file
  | _ => take start (file ++ replicate (start - length file) 0)
         ++ bytes ++ drop (start + length bytes) file
  end.

(** ** Commands *)

Definition block_offset (s : sdmmc) : Z :=
  u32 (read_little_endian (command s) 1 * block_length s).

Definition read_single_block (s : sdmmc) : result sdmmc :=
  if in_idle_state s then Fault HostExit
  else
    let s := s <| transfer_address := block_offset s |> in
    match block_fd s with
    | None => Fault HostExit
    | Some file =>
        let got := read_file (transfer_address s) (block_length s) file in
        if negb (Z.of_nat (length got) =? block_length s) then Fault HostExit
        else
          let '(delay, s) := random_delay
            (s <| block_buffer := map Some got |> <| transfer_count := 0 |>
               <| current_state := STATE_READ_CMD_RESPONSE |>) in
          Done (s <| state_delay := delay |>)
    end.

Definition write_single_block (s : sdmmc) : result sdmmc :=
  if in_idle_state s then Fault HostExit
  else
    let '(delay, s) := random_delay
      (s <| transfer_address := block_offset s |> <| transfer_count := 0 |>
         <| current_state := STATE_WRITE_CMD_RESPONSE |>) in
    Done (s <| state_delay := delay |>).

Definition set_block_length (s : sdmmc) : result sdmmc :=
  if in_idle_state s then Fault HostExit
  else
    let length := read_little_endian (command s) 1 in
    Done (s <| block_length := length |> <| block_buffer := malloc length |>
            <| current_state := STATE_SEND_R1 |>).

Definition process_app_command (c : option sd_command) (s : sdmmc) : result sdmmc :=
  let s := s <| is_app_cmd := false |> in
  match c with
  | Some CMD_APP_OP_COND =>
      Done (s <| current_state := STATE_SEND_R3 |> <| transfer_count := 0 |>
              <| in_idle_state := false |>)
  | _ => Fault HostExit
  end.

Definition process_plain_command (c : option sd_command) (s : sdmmc) : result sdmmc :=
  match c with
  | Some CMD_GO_IDLE_STATE =>
      match block_fd s with
      | Some _ => Done (s <| in_idle_state := true |> <| current_state := STATE_SEND_R1 |>)
      | None => Done s
      end
  | Some CMD_SEND_OP_COND =>
      Done (s <| current_state := STATE_SEND_R1 |> <| in_idle_state := false |>)
  | Some CMD_SEND_IF_COND =>
      Done (s <| current_state := STATE_SEND_R7 |> <| transfer_count := 0 |>
              <| voltage := Z.land (command s !!! 3%nat) 0xf |>
              <| check_pattern := command s !!! 4%nat |>)
  | Some CMD_SET_BLOCKLEN => set_block_length s
  | Some CMD_READ_SINGLE_BLOCK => read_single_block s
  | Some CMD_WRITE_SINGLE_BLOCK => write_single_block s
  | Some CMD_APP_CMD => Done (s <| is_app_cmd := true |> <| current_state := STATE_SEND_R1 |>)
  | Some CMD_APP_OP_COND | None => Fault HostExit
  end.

Definition process_command (s : sdmmc) : result sdmmc :=
  let c := enum_of_Z (Z.land (command s !!! 0%nat) 0x3f) in
  if is_app_cmd s then process_app_command c s else process_plain_command c s.

(** ** One byte each way

    The states of [transfer_sdmmc_byte]; each returns the [int] result. *)

Definition selected (s : sdmmc) : bool := chip_select s =? 0.

Definition idle_byte (value : Z) (s : sdmmc) : result (Z * sdmmc) :=
  if selected s && (Z.land value 0xc0 =? 0x40) then
    Done (0xff, s <| current_state := STATE_RECEIVE_COMMAND |>
                  <| command ::= <[0%nat := u8 value]> |> <| command_length := 1 |>)
  else Done (0xff, s).

Definition init_wait_byte (value : Z) (s : sdmmc) : result (Z * sdmmc) :=
  let s := s <| init_clock_count ::= fun n => u32 (n + 8) |> in
  if selected s && (init_clock_count s <? INIT_CLOCKS) then Fault HostExit
  else idle_byte value s.

Definition receive_command_byte (value : Z) (s : sdmmc) : result (Z * sdmmc) :=
  if selected s then
    if negb (command_length s <? Z.of_nat SD_COMMAND_LENGTH) then Fault OutOfBounds
    else
      let s := s <| command ::= <[Z.to_nat (command_length s) := u8 value]> |>
                 <| command_length ::= fun n => n + 1 |> in
      if command_length s =? Z.of_nat SD_COMMAND_LENGTH then
        s <-- process_command s;; Done (0xff, s <| command_length := 0 |>)
      else Done (0xff, s)
  else Done (0xff, s).

Definition send_r1_byte (s : sdmmc) : result (Z * sdmmc) :=
  Done (b2z (in_idle_state s), s <| current_state := STATE_IDLE |>).

Definition count_transfer (s : sdmmc) : sdmmc := s <| transfer_count ::= fun n => u32 (n + 1) |>.

Definition send_r3_byte (s : sdmmc) : result (Z * sdmmc) :=
  let result := if transfer_count s =? 0 then b2z (in_idle_state s) else 0 in
  let s := if negb (transfer_count s =? 0) && (transfer_count s =? 4)
           then s <| current_state := STATE_IDLE |> else s in
  Done (result, count_transfer s).

Definition send_r7_byte (s : sdmmc) : result (Z * sdmmc) :=
  let n := transfer_count s in
  let s := count_transfer s in
  if n =? 0 then Done (1, s)
  else if (n =? 1) || (n =? 2) then Done (0, s)
  else if n =? 3 then Done (voltage s, s)
  else if n =? 4 then Done (check_pattern s, s <| current_state := STATE_IDLE |>)
  else Done (0xff, s).

(** The wait before a command is answered; a new delay is drawn for the next wait. *)
Definition command_response_byte (next : sd_state) (s : sdmmc) : result (Z * sdmmc) :=
  if state_delay s =? 0 then
    let '(delay, s) := random_delay (s <| current_state := next |>) in
    Done (0, s <| state_delay := delay |>)
  else Done (0xff, s <| state_delay ::= fun n => n - 1 |>).

Definition read_data_token_byte (s : sdmmc) : result (Z * sdmmc) :=
  if state_delay s =? 0 then Done (DATA_TOKEN, s <| current_state := STATE_READ_TRANSFER |>)
  else Done (0xff, s <| state_delay ::= fun n => n - 1 |>).

(** [block_buffer] holds [char]s, which are signed: a byte of 0x80 or more is
    returned as a negative [int]. *)
Definition read_transfer_byte (s : sdmmc) : result (Z * sdmmc) :=
  if transfer_count s <? block_length s then
    match block_buffer s !! Z.to_nat (transfer_count s) with
    | Some (Some byte) => Done (s8 byte, count_transfer s)
    | _ => Fault OutOfBounds
    end
  else
    let s := if transfer_count s =? u32 (block_length s + 1)
             then s <| current_state := STATE_IDLE |> else s in
    Done (0xff, count_transfer s).

Definition write_data_token_byte (value : Z) (s : sdmmc) : result (Z * sdmmc) :=
  Done (0xff, if value =? DATA_TOKEN then s <| current_state := STATE_WRITE_TRANSFER |> else s).

Definition write_transfer_byte (value : Z) (s : sdmmc) : result (Z * sdmmc) :=
  if transfer_count s <? block_length s then
    match block_buffer s !! Z.to_nat (transfer_count s) with
    | Some _ =>
        Done (0xff, count_transfer
          (s <| block_buffer ::= <[Z.to_nat (transfer_count s) := Some (Z.land value 0xff)]> |>))
    | None => Fault OutOfBounds
    end
  else
    let s := if transfer_count s =? u32 (block_length s + 1)
             then s <| current_state := STATE_WRITE_DATA_RESPONSE |> else s in
    Done (0xff, count_transfer s).

(** The bytes [write] is given: the whole buffer, which must be defined. *)
Definition buffer_bytes (s : sdmmc) : result (list Z) :=
  match mapM id (block_buffer s) with
  | Some bytes => Done bytes
  | None => Fault OutOfBounds
  end.

Definition write_data_response_byte (s : sdmmc) : result (Z * sdmmc) :=
  match block_fd s with
  | None => Fault HostExit
  | Some file =>
      bytes <-- buffer_bytes s;;
      Done (0x05, s <| current_state := STATE_IDLE |>
                    <| block_fd := Some (write_file (transfer_address s) bytes file) |>)
  end.

Definition transfer_sdmmc_byte (value : Z) (s : sdmmc) : result (Z * sdmmc) :=
  match current_state s with
  | STATE_INIT_WAIT => init_wait_byte value s
  | STATE_IDLE => idle_byte value s
  | STATE_RECEIVE_COMMAND => receive_command_byte value s
  | STATE_SEND_R1 => send_r1_byte s
  | STATE_SEND_R3 => send_r3_byte s
  | STATE_SEND_R7 => send_r7_byte s
  | STATE_READ_CMD_RESPONSE => command_response_byte STATE_READ_DATA_TOKEN s
  | STATE_READ_DATA_TOKEN => read_data_token_byte s
  | STATE_READ_TRANSFER => read_transfer_byte s
  | STATE_WRITE_CMD_RESPONSE => command_response_byte STATE_WRITE_DATA_TOKEN s
  | STATE_WRITE_DATA_TOKEN => write_data_token_byte value s
  | STATE_WRITE_TRANSFER => write_transfer_byte value s
  | STATE_WRITE_DATA_RESPONSE => write_data_response_byte s
  end.

Definition set_sdmmc_cs (value : Z) (s : sdmmc) : sdmmc :=
  s <| chip_select := Z.land value 1 |>.

(** A run of the bus: the bytes sent, the results returned. *)
Fixpoint transfer_bytes (values : list Z) (s : sdmmc) : result (list Z * sdmmc) :=
  match values with
  | [] => Done ([], s)
  | value :: values' =>
      '(byte, s) <-- transfer_sdmmc_byte value s;;
      '(bytes, s) <-- transfer_bytes values' s;;
      Done (byte :: bytes, s)
  end.

(** ** The card's invariant

    Every field is in the range of its C type; the buffer is as long as a block;
    and it is defined wherever the current state will read it. *)

Definition is_u8 (z : Z) : Prop := is_unsigned 8 z.

Definition buffer_defined (s : sdmmc) : Prop := Forall is_Some (block_buffer s).

(** The bytes received so far. *)
Definition buffer_filled (s : sdmmc) : Prop :=
  forall i b, block_buffer s !! i = Some b -> Z.of_nat i < transfer_count s -> is_Some b.

Definition state_invariant (s : sdmmc) : Prop :=
  match current_state s with
  | STATE_READ_CMD_RESPONSE | STATE_READ_DATA_TOKEN =>
      buffer_defined s /\ transfer_count s = 0
  | STATE_READ_TRANSFER | STATE_WRITE_DATA_RESPONSE => buffer_defined s
  | STATE_WRITE_CMD_RESPONSE | STATE_WRITE_DATA_TOKEN => transfer_count s = 0
  | STATE_WRITE_TRANSFER => buffer_filled s
  | STATE_SEND_R3 | STATE_SEND_R7 => transfer_count s <= 4
  | _ => True
  end.

Record card_wf (s : sdmmc) : Prop := {
  wf_file : forall file, block_fd s = Some file -> Forall is_u8 file;
  wf_delay : 0 <= state_delay s <= 15;
  wf_transfer_address : is_u32 (transfer_address s);
  wf_transfer_count : is_u32 (transfer_count s);
  wf_block_length : is_u32 (block_length s);
  wf_command : length (command s) = SD_COMMAND_LENGTH /\ Forall is_u8 (command s);
  wf_command_length : 0 <= command_length s < Z.of_nat SD_COMMAND_LENGTH;
  wf_buffer : Z.of_nat (length (block_buffer s)) = block_length s;
  wf_buffer_bytes : Forall (fun b => forall v, b = Some v -> is_u8 v) (block_buffer s);
  wf_check_pattern : is_u8 (check_pattern s);
  wf_voltage : is_u8 (voltage s);
  wf_random : Random.wf (random_state s);
  wf_state : state_invariant s
}.

Lemma is_u8_u8 z : is_u8 (u8 z).
Proof. by apply is_unsigned_mod. Qed.

Lemma is_u8_land_255 z : is_u8 (Z.land z 0xff).
Proof. apply is_unsigned_land_r; [lia|]. split; lia. Qed.

Lemma total_u8 (l : list Z) i : Forall is_u8 l -> is_u8 (l !!! i).
Proof.
  intros Hl. rewrite list_lookup_total_alt. destruct (l !! i) as [v|] eqn:E; simpl.
  - by eapply Forall_lookup in E.
  - split; vm_compute; congruence.
Qed.

Lemma random_delay_range s :
  card_wf s -> 0 <= (random_delay s).1 <= 15 /\ Random.wf (random_state (random_delay s).2).
Proof.
  intros Hs. unfold random_delay.
  pose proof (next_random_wf (random_state s) (wf_random s Hs)) as [Hr Hw].
  destruct (Random.next_random (random_state s)) as [r random]; simpl in *. split; [|done].
  pose proof (Z.land_ones r 4 ltac:(lia)) as Hl. change (Z.ones 4) with 0xf in Hl.
  rewrite Hl. pose proof (Z.mod_pos_bound r (2 ^ 4) eq_refl) as Hb.
  change (2 ^ 4) with 16 in *. lia.
Qed.

Lemma random_delay_eq s :
  random_delay s = ((random_delay s).1, s <| random_state := random_state (random_delay s).2 |>).
Proof. unfold random_delay. by destruct (Random.next_random (random_state s)). Qed.

#[local] Opaque random_delay.

Lemma read_little_endian_u32 values offset :
  Forall is_u8 values -> is_u32 (read_little_endian values offset).
Proof.
  intros Hv. unfold read_little_endian.
  assert (Hs : forall v n, is_u8 v -> 0 <= n <= 24 -> is_u32 (Z.shiftl v n)).
  { intros v n [? ?] [? ?]. rewrite Z.shiftl_mul_pow2 by lia.
    assert (2 ^ n <= 2 ^ 24) by (apply Z.pow_le_mono_r; lia).
    assert (0 < 2 ^ n) by (apply Z.pow_pos_nonneg; lia). split; nia. }
  repeat apply is_u32_lor; try apply Hs; try apply total_u8; try done; try lia.
  apply (is_unsigned_mono 8); [lia|]. by apply total_u8.
Qed.

Lemma malloc_length size : 0 <= size -> Z.of_nat (length (malloc size)) = size.
Proof. intros. unfold malloc. rewrite length_replicate. lia. Qed.

Lemma malloc_bytes size : Forall (fun b => forall v, b = Some v -> is_u8 v) (malloc size).
Proof. apply Forall_replicate. discriminate. Qed.

(** Shows that a record differing from a well-formed card in a few fields is one. *)
Ltac rebuild_card H :=
  destruct H; constructor; simpl; try done; try apply is_u32_u32; try lia.

(** An [int] the card returns, and the card. *)
Definition byte_result (r : Z * sdmmc) : Prop := -128 <= r.1 <= 255 /\ card_wf r.2.
Definition only_exit (f : fault) : Prop := f = HostExit.

Lemma defined_map_Some l : Forall is_Some (map (@Some Z) l).
Proof. apply Forall_fmap, Forall_true. eauto. Qed.

Lemma bytes_map_Some l :
  Forall is_u8 l -> Forall (fun b => forall v, b = Some v -> is_u8 v) (map Some l).
Proof. intros H. apply Forall_fmap. eapply List.Forall_impl; [|exact H]. intros x Hx v [= <-]. done. Qed.

Lemma is_u32_block_offset s : is_u32 (block_offset s).
Proof. apply is_u32_u32. Qed.

Lemma read_single_block_wf s : card_wf s -> returns card_wf only_exit (read_single_block s).
Proof.
  intros Hs. unfold read_single_block. destruct (in_idle_state s); [done|]. simpl.
  destruct (block_fd s) as [file|] eqn:Hf; [|done].
  destruct (_ =? _) eqn:Hgot; [|done]. bool_to_prop. simpl.
  rewrite random_delay_eq. simpl.
  pose proof (random_delay_range s Hs) as [? ?].
  rebuild_card Hs.
  - by rewrite length_map.
  - apply bytes_map_Some. apply Forall_take, Forall_drop. eauto.
  - split; [apply defined_map_Some|done].
Qed.

Lemma write_single_block_wf s : card_wf s -> returns card_wf only_exit (write_single_block s).
Proof.
  intros Hs. unfold write_single_block. destruct (in_idle_state s); [done|]. simpl.
  rewrite random_delay_eq. pose proof (random_delay_range s Hs) as [? ?]. simpl.
  rebuild_card Hs.
Qed.

Lemma set_block_length_wf s : card_wf s -> returns card_wf only_exit (set_block_length s).
Proof.
  intros Hs. unfold set_block_length. destruct (in_idle_state s); [done|]. simpl.
  assert (Hl : is_u32 (read_little_endian (command s) 1))
    by (apply read_little_endian_u32, (wf_command s Hs)).
  rebuild_card Hs.
  - apply malloc_length, Hl.
  - apply malloc_bytes.
Qed.

Lemma process_command_wf s : card_wf s -> returns card_wf only_exit (process_command s).
Proof.
  intros Hs. unfold process_command. destruct (is_app_cmd s).
  - destruct (enum_of_Z _) as [[]|]; try done. simpl. rebuild_card Hs.
  - assert (Hv : forall i, is_u8 (command s !!! i))
      by (intros; apply total_u8, (wf_command s Hs)).
    destruct (enum_of_Z _) as [[]|]; try done; simpl.
    + destruct (block_fd s) eqn:Hf; [simpl; rebuild_card Hs|exact Hs].
    + rebuild_card Hs.
    + rebuild_card Hs. apply is_unsigned_land; [lia|apply Hv].
    + by apply set_block_length_wf.
    + by apply read_single_block_wf.
    + by apply write_single_block_wf.
    + rebuild_card Hs.
Qed.

(** *** The states *)

Lemma idle_byte_wf value s : card_wf s -> returns byte_result only_exit (idle_byte value s).
Proof.
  intros Hs. unfold idle_byte. destruct (_ && _); simpl; split; simpl; try done.
  rebuild_card Hs. destruct wf_command0 as [Hl Hb]. split; [by rewrite length_insert|].
  apply Forall_insert; [done|apply is_u8_u8].
Qed.

Lemma init_wait_byte_wf value s :
  card_wf s -> returns byte_result only_exit (init_wait_byte value s).
Proof.
  intros Hs. unfold init_wait_byte. destruct (_ && _); [done|]. apply idle_byte_wf.
  rebuild_card Hs.
Qed.

(** No command looks at [command_length]. *)
Lemma process_command_length n s :
  process_command (s <| command_length := n |>)
  = s' <-- process_command s;; Done (s' <| command_length := n |>).
Proof.
  unfold process_command. simpl. destruct (is_app_cmd s).
  - by destruct (enum_of_Z _) as [[]|].
  - destruct (enum_of_Z _) as [[]|]; try done; simpl.
    + by destruct (block_fd s).
    + unfold set_block_length. simpl. by destruct (in_idle_state s).
    + unfold read_single_block. simpl. destruct (in_idle_state s), (block_fd s); try done.
      unfold block_offset. simpl. by destruct (_ =? _).
    + unfold write_single_block. simpl. by destruct (in_idle_state s).
Qed.

Lemma receive_command_byte_wf value s :
  card_wf s -> returns byte_result only_exit (receive_command_byte value s).
Proof.
  intros Hs. unfold receive_command_byte. destruct (selected s); [|by split].
  pose proof (wf_command_length s Hs) as Hl.
  rewrite (proj2 (Z.ltb_lt _ _)) by apply Hl.
  set (base := s <| command ::= <[Z.to_nat (command_length s) := u8 value]> |>).
  assert (Hc : forall n, 0 <= n < Z.of_nat SD_COMMAND_LENGTH ->
    card_wf (base <| command_length := n |>)).
  { intros n Hn. rebuild_card Hs. destruct wf_command0 as [Hcl Hb].
    split; [by rewrite length_insert|]. apply Forall_insert; [done|apply is_u8_u8]. }
  change (base <| command_length ::= fun n => n + 1 |>)
    with (base <| command_length := command_length s + 1 |>).
  cbv zeta. destruct (command_length _ =? _) eqn:Hfull; bool_to_prop; simpl in Hfull.
  - rewrite process_command_length, bind_assoc.
    pose proof (process_command_wf _ (Hc 0 ltac:(done))) as Hp.
    rewrite process_command_length in Hp.
    destruct (process_command base) as [s'|]; simpl in *; [by split|done].
  - split; [simpl; lia|]. apply Hc. simpl in Hl. simpl. lia.
Qed.

Lemma command_response_byte_wf next s :
  next = STATE_READ_DATA_TOKEN \/ next = STATE_WRITE_DATA_TOKEN ->
  card_wf s ->
  (next = STATE_READ_DATA_TOKEN -> buffer_defined s /\ transfer_count s = 0) ->
  (next = STATE_WRITE_DATA_TOKEN -> transfer_count s = 0) ->
  returns byte_result only_exit (command_response_byte next s).
Proof.
  intros Hnext Hs Hread Hwrite. unfold command_response_byte.
  destruct (state_delay s =? 0) eqn:Hd; bool_to_prop.
  - rewrite random_delay_eq. pose proof (random_delay_range s Hs) as [Hr Hw]. simpl.
    split; simpl; [lia|]. rebuild_card Hs.
    destruct Hnext as [-> | ->]; simpl; [by apply Hread|by apply Hwrite].
  - split; simpl; [lia|]. rebuild_card Hs.
Qed.

Lemma read_transfer_byte_wf s :
  card_wf s -> current_state s = STATE_READ_TRANSFER ->
  returns byte_result only_exit (read_transfer_byte s).
Proof.
  intros Hs Hstate. unfold read_transfer_byte.
  pose proof (wf_state s Hs) as Hdef. unfold state_invariant in Hdef. rewrite Hstate in Hdef.
  destruct (transfer_count s <? block_length s) eqn:Hlt; bool_to_prop.
  - pose proof (wf_buffer s Hs). pose proof (wf_transfer_count s Hs) as [? ?].
    destruct (lookup_lt_is_Some_2 (block_buffer s) (Z.to_nat (transfer_count s)))
      as [b Hb]; [lia|].
    rewrite Hb. destruct (proj1 (Forall_lookup _ _) Hdef _ _ Hb) as [byte ->].
    split; simpl.
    + pose proof (is_signed_range 8 byte). change (s8 byte) with (signed 8 byte). lia.
    + rebuild_card Hs. unfold state_invariant. simpl. by rewrite Hstate.
  - split; simpl; [lia|]. destruct (_ =? _); rebuild_card Hs.
    unfold state_invariant. simpl. by rewrite Hstate.
Qed.

Lemma transfer_count_step s :
  is_u32 (transfer_count s) ->
  u32 (transfer_count s + 1) = transfer_count s + 1 \/ u32 (transfer_count s + 1) = 0.
Proof.
  intros [? ?]. destruct (Z.eq_dec (transfer_count s) (2 ^ 32 - 1)) as [-> |].
  - by right.
  - left. apply Z.mod_small. lia.
Qed.

Lemma write_transfer_byte_wf value s :
  card_wf s -> current_state s = STATE_WRITE_TRANSFER ->
  returns byte_result only_exit (write_transfer_byte value s).
Proof.
  intros Hs Hstate. unfold write_transfer_byte.
  pose proof (wf_state s Hs) as Hfilled. unfold state_invariant in Hfilled.
  rewrite Hstate in Hfilled. unfold buffer_filled in Hfilled.
  pose proof (wf_buffer s Hs). pose proof (wf_transfer_count s Hs) as [? ?].
  pose proof (transfer_count_step s (wf_transfer_count s Hs)) as Hstep.
  destruct (transfer_count s <? block_length s) eqn:Hlt; bool_to_prop.
  - destruct (lookup_lt_is_Some_2 (block_buffer s) (Z.to_nat (transfer_count s)))
      as [b Hb]; [lia|]. rewrite Hb. split; simpl; [lia|]. rebuild_card Hs.
    + by rewrite length_insert.
    + apply Forall_insert; [done|]. intros v [= <-]. apply is_u8_land_255.
    + unfold state_invariant. simpl. rewrite Hstate. unfold buffer_filled. simpl.
      intros i b' Hi Hlt'. apply list_lookup_insert_Some in Hi as [(_ & <- & _)|[Hne Hi]].
      * by eexists.
      * eapply Hfilled; [exact Hi|]. lia.
  - split; simpl; [lia|]. destruct (_ =? _) eqn:Hend; bool_to_prop; rebuild_card Hs.
    + apply Forall_lookup. intros i b Hi. eapply Hfilled; [exact Hi|].
      apply lookup_lt_Some in Hi. simpl in Hi. lia.
    + unfold state_invariant. simpl. rewrite Hstate. unfold buffer_filled. simpl.
      intros i b Hi Hlt'. eapply Hfilled; [exact Hi|]. apply lookup_lt_Some in Hi. lia.
Qed.

Lemma defined_mapM (l : list (option Z)) :
  Forall is_Some l -> exists bytes, mapM id l = Some bytes /\ l = map Some bytes.
Proof.
  induction 1 as [|b l [v ->] _ (bytes & Hm & ->)].
  - by exists [].
  - exists (v :: bytes). simpl. by rewrite Hm.
Qed.

Lemma write_file_bytes offset bytes file :
  Forall is_u8 bytes -> Forall is_u8 file -> Forall is_u8 (write_file offset bytes file).
Proof.
  intros Hb Hf. unfold write_file. destruct bytes as [|b bytes]; [done|].
  apply Forall_app. split.
  - apply Forall_take, Forall_app. split; [done|]. apply Forall_replicate. by split.
  - apply Forall_app. split; [done|]. by apply Forall_drop.
Qed.

Lemma buffer_bytes_spec s :
  card_wf s -> buffer_defined s ->
  exists bytes, buffer_bytes s = Done bytes /\ block_buffer s = map Some bytes
    /\ Forall is_u8 bytes /\ Z.of_nat (length bytes) = block_length s.
Proof.
  intros Hs Hdef. destruct (defined_mapM _ Hdef) as (bytes & Hm & Hl).
  exists bytes. unfold buffer_bytes. rewrite Hm. split; [done|]. split; [done|]. split.
  - pose proof (wf_buffer_bytes s Hs) as Hb. rewrite Hl in Hb. apply Forall_fmap in Hb.
    eapply List.Forall_impl; [|exact Hb]. intros v Hv. by apply Hv.
  - rewrite <- (wf_buffer s Hs), Hl. by rewrite length_map.
Qed.

Lemma write_data_response_byte_wf s :
  card_wf s -> current_state s = STATE_WRITE_DATA_RESPONSE ->
  returns byte_result only_exit (write_data_response_byte s).
Proof.
  intros Hs Hstate. unfold write_data_response_byte.
  pose proof (wf_state s Hs) as Hdef. unfold state_invariant in Hdef. rewrite Hstate in Hdef.
  destruct (block_fd s) as [file|] eqn:Hf; [|done].
  destruct (buffer_bytes_spec s Hs Hdef) as (bytes & -> & _ & Hb & _).
  split; simpl; [lia|]. rebuild_card Hs. intros file' [= <-]. apply write_file_bytes; auto.
Qed.

Lemma is_u8_int v : is_u8 v -> -128 <= v <= 255.
Proof. intros [? ?]. lia. Qed.

Lemma send_r3_byte_wf s :
  card_wf s -> current_state s = STATE_SEND_R3 -> returns byte_result only_exit (send_r3_byte s).
Proof.
  intros Hs Hstate. pose proof (wf_state s Hs) as Hn. unfold state_invariant in Hn.
  rewrite Hstate in Hn. pose proof (wf_transfer_count s Hs) as [? ?].
  assert (Hu : u32 (transfer_count s + 1) = transfer_count s + 1) by (apply Z.mod_small; lia).
  unfold send_r3_byte. split; simpl.
  - destruct (transfer_count s =? 0); [destruct (in_idle_state s)|]; simpl; lia.
  - destruct (transfer_count s =? 0) eqn:E0, (transfer_count s =? 4) eqn:E4; bool_to_prop;
      simpl; rebuild_card Hs; unfold state_invariant; simpl; rewrite Hstate; lia.
Qed.

Lemma send_r7_byte_wf s :
  card_wf s -> current_state s = STATE_SEND_R7 -> returns byte_result only_exit (send_r7_byte s).
Proof.
  intros Hs Hstate. pose proof (wf_state s Hs) as Hn. unfold state_invariant in Hn.
  rewrite Hstate in Hn. pose proof (wf_transfer_count s Hs) as [? ?].
  assert (Hu : u32 (transfer_count s + 1) = transfer_count s + 1) by (apply Z.mod_small; lia).
  pose proof (is_u8_int _ (wf_voltage s Hs)). pose proof (is_u8_int _ (wf_check_pattern s Hs)).
  unfold send_r7_byte. destruct (_ =? 0) eqn:E0; [|destruct (_ || _) eqn:E1;
    [|destruct (_ =? 3) eqn:E3; [|destruct (_ =? 4) eqn:E4]]]; bool_to_prop; split; simpl;
    try lia; rebuild_card Hs; unfold state_invariant; simpl; rewrite Hstate; try lia.
Qed.

Lemma transfer_sdmmc_byte_wf value s :
  card_wf s -> returns byte_result only_exit (transfer_sdmmc_byte value s).
Proof.
  intros Hs. unfold transfer_sdmmc_byte.
  pose proof (wf_state s Hs) as Hinv. unfold state_invariant in Hinv.
  destruct (current_state s) eqn:Hstate.
  - by apply init_wait_byte_wf.
  - by apply idle_byte_wf.
  - by apply receive_command_byte_wf.
  - apply command_response_byte_wf; auto. discriminate.
  - unfold read_data_token_byte. destruct (state_delay s =? 0) eqn:Hd; bool_to_prop;
      split; simpl; unfold DATA_TOKEN; try lia; rebuild_card Hs. apply Hinv.
  - split; simpl; [destruct (in_idle_state s); simpl; lia|]. rebuild_card Hs.
  - by apply send_r3_byte_wf.
  - by apply send_r7_byte_wf.
  - by apply read_transfer_byte_wf.
  - apply command_response_byte_wf; auto. discriminate.
  - unfold write_data_token_byte. split; simpl; [lia|]. destruct (_ =? _); [|done].
    rebuild_card Hs. unfold state_invariant, buffer_filled. simpl. intros. lia.
  - by apply write_transfer_byte_wf.
  - by apply write_data_response_byte_wf.
Qed.

Lemma set_sdmmc_cs_wf value s : card_wf s -> card_wf (set_sdmmc_cs value s).
Proof. intros Hs. rebuild_card Hs. Qed.

Lemma sdmmc_init_wf random : Random.wf random -> card_wf (sdmmc_init random).
Proof.
  intros Hr. constructor; simpl; try done; try lia; try (split; vm_compute; congruence).
  - split; [done|]. repeat constructor; vm_compute; congruence.
Qed.

Lemma open_sdmmc_device_wf file s :
  (forall bytes, file = Some bytes -> Forall is_u8 bytes) ->
  block_fd s = None -> current_state s = STATE_INIT_WAIT ->
  card_wf s -> card_wf (open_sdmmc_device file s).2.
Proof.
  intros Hfile Hfd Hstate Hs. unfold open_sdmmc_device. rewrite Hfd.
  destruct file as [bytes|]; [|done]. rebuild_card Hs.
  - apply malloc_bytes.
  - unfold state_invariant. simpl. by rewrite Hstate.
Qed.

(** ** Exchanges with the card

    [exchange s sent received s'] : sending the bytes [sent] returns [received]. *)

Definition exchange (s : sdmmc) (sent received : list Z) (s' : sdmmc) : Prop :=
  transfer_bytes sent s = Done (received, s').

Lemma exchange_nil s : exchange s [] [] s.
Proof. done. Qed.

Lemma exchange_cons s s1 s2 v r sent received :
  transfer_sdmmc_byte v s = Done (r, s1) -> exchange s1 sent received s2 ->
  exchange s (v :: sent) (r :: received) s2.
Proof. unfold exchange. intros H1 H2. simpl. rewrite H1. simpl. by rewrite H2. Qed.

Lemma exchange_one s s1 v r :
  transfer_sdmmc_byte v s = Done (r, s1) -> exchange s [v] [r] s1.
Proof. intros H1. eapply exchange_cons; [exact H1|apply exchange_nil]. Qed.

Lemma exchange_app s s1 s2 a b x y :
  exchange s a x s1 -> exchange s1 b y s2 -> exchange s (a ++ b) (x ++ y) s2.
Proof.
  revert s x. induction a as [|v a IH]; intros s x Ha Hb.
  - injection Ha as <- <-. done.
  - unfold exchange in Ha. simpl in Ha.
    apply bind_Done_inv in Ha as [[r s'] [Hr Ha]].
    apply bind_Done_inv in Ha as [[rs s''] [Hrs Ha]]. injection Ha as <- <-.
    eapply exchange_cons; [exact Hr|]. by apply IH.
Qed.

(** The six bytes of a command: the number, a big-endian argument, a checksum. *)
Definition argument_bytes (argument : Z) : list Z :=
  map (fun low => extract_unsigned_bits argument low 8) [24; 16; 8; 0].

Definition command_packet (c : sd_command) (argument crc : Z) : list Z :=
  (0x40 + enum_value c) :: argument_bytes argument ++ [crc].

(** The card is selected, initialised, and waits for a command. *)
Record card_ready (s : sdmmc) : Prop := {
  ready_wf : card_wf s;
  ready_state : current_state s = STATE_IDLE;
  ready_selected : chip_select s = 0;
  ready_not_idle : in_idle_state s = false;
  ready_not_app : is_app_cmd s = false
}.

Lemma u8_extract argument low : 0 <= low -> is_u8 (extract_unsigned_bits argument low 8).
Proof. intros Hl. split; by apply extract_unsigned_bits_range. Qed.

(** A value shifted over a narrower one is added to it. *)
Lemma lor_shiftl_add a n b : 0 <= n -> is_unsigned n b -> Z.lor (Z.shiftl a n) b = a * 2 ^ n + b.
Proof.
  intros Hn Hb. rewrite lor_disjoint_add; [by rewrite Z.shiftl_mul_pow2|].
  apply is_unsigned_bits in Hb as [_ Hb]; [|done].
  apply Z.bits_inj'. intros i Hi. rewrite Z.land_spec, Z.bits_0.
  destruct (Z.lt_ge_cases i n).
  - rewrite Z.shiftl_spec, Z.testbit_neg_r by lia. done.
  - rewrite Hb by done. apply andb_false_r.
Qed.

Lemma read_little_endian_sum v0 v1 v2 v3 v4 rest :
  is_u8 v2 -> is_u8 v3 -> is_u8 v4 ->
  read_little_endian (v0 :: v1 :: v2 :: v3 :: v4 :: rest) 1
  = ((v1 * 256 + v2) * 256 + v3) * 256 + v4.
Proof.
  intros [? ?] [? ?] [? ?]. unfold read_little_endian. simpl.
  assert (Hlor : forall a n b, 0 <= n -> 0 <= b < 2 ^ n -> Z.lor (a * 2 ^ n) b = a * 2 ^ n + b).
  { intros a n b Hn Hb. rewrite <- (lor_shiftl_add a n b) by done.
    by rewrite Z.shiftl_mul_pow2. }
  rewrite !Z.shiftl_mul_pow2 by lia.
  rewrite (Hlor v1 24 (v2 * 2 ^ 16)) by lia.
  replace (v1 * 2 ^ 24 + v2 * 2 ^ 16) with ((v1 * 2 ^ 8 + v2) * 2 ^ 16) by lia.
  rewrite (Hlor _ 16 (v3 * 2 ^ 8)) by lia.
  replace ((v1 * 2 ^ 8 + v2) * 2 ^ 16 + v3 * 2 ^ 8)
    with (((v1 * 2 ^ 8 + v2) * 2 ^ 8 + v3) * 2 ^ 8) by lia.
  rewrite (Hlor _ 8 v4) by lia. lia.
Qed.

Lemma argument_bytes_value argument crc v0 :
  is_u32 argument ->
  read_little_endian (v0 :: argument_bytes argument ++ [crc]) 1 = argument.
Proof.
  intros [Ha0 Ha1]. unfold argument_bytes. cbn [map app].
  rewrite read_little_endian_sum by by apply u8_extract.
  rewrite !extract_unsigned_bits_spec by done.
  change (2 ^ 24) with 16777216. change (2 ^ 16) with 65536. change (2 ^ 8) with 256.
  change (2 ^ 0) with 1. change (2 ^ 32) with 4294967296 in Ha1.
  Z.div_mod_to_equations. lia.
Qed.

(** The card gathers a whole command before it acts on it. *)
Lemma exchange_command s c argument crc :
  card_ready s -> is_u8 crc ->
  let sent := command_packet c argument crc in
  forall s',
    process_command (s <| command := sent |> <| current_state := STATE_RECEIVE_COMMAND |>
                       <| command_length := 6 |>) = Done s' ->
    exchange s sent (replicate 6 0xff) (s' <| command_length := 0 |>).
Proof.
  intros [Hwf Hstate Hcs _ _] Hcrc sent s' Hs'. subst sent.
  destruct (wf_command s Hwf) as [Hlen _]. 
  destruct s; simpl in *. subst.
  destruct command0 as [|c0 [|c1 [|c2 [|c3 [|c4 [|c5 []]]]]]]; try discriminate Hlen.
  unfold exchange, command_packet, argument_bytes in *. cbn [map app] in *.
  assert (Hu : forall low, 0 <= low -> u8 (extract_unsigned_bits argument low 8)
    = extract_unsigned_bits argument low 8).
  { intros. by apply Z.mod_small, u8_extract. }
  assert (Hc : u8 (0x40 + enum_value c) = 0x40 + enum_value c) by by destruct c.
  eapply (exchange_cons _ _ _ _ _ _ (replicate 5 0xff)).
  { unfold transfer_sdmmc_byte. simpl. unfold idle_byte, selected. simpl.
    assert ((Z.land (64 + sd_command_value c) 192 =? 64) = true) as -> by by destruct c.
    simpl. simpl in Hc. rewrite Hc. reflexivity. }
  do 4 (eapply (exchange_cons _ _ _ _ _ _ (replicate _ 0xff));
    [unfold transfer_sdmmc_byte; simpl; unfold receive_command_byte, selected; simpl;
     rewrite Hu by done; reflexivity|]).
  apply exchange_one.
  unfold transfer_sdmmc_byte; simpl; unfold receive_command_byte, selected; simpl.
  replace (u8 crc) with crc by (symmetry; by apply Z.mod_small).
  match type of Hs' with process_command ?X = _ =>
    match goal with |- context [process_command ?Y] => change Y with X end end.
  by rewrite Hs'.
Qed.

#[local] Opaque argument_bytes read_little_endian.

(** The wait, and the answer that ends it. *)
Lemma exchange_wait (step : sdmmc -> result (Z * sdmmc)) (answer : Z) (after : sdmmc -> sdmmc)
  filler d s :
  (forall n, transfer_sdmmc_byte filler (s <| state_delay := n |>)
             = step (s <| state_delay := n |>)) ->
  (forall n, 0 < n -> step (s <| state_delay := n |>)
             = Done (0xff, s <| state_delay := n - 1 |>)) ->
  step (s <| state_delay := 0 |>) = Done (answer, after (s <| state_delay := 0 |>)) ->
  exchange (s <| state_delay := Z.of_nat d |>) (replicate (d + 1) filler)
    (replicate d 0xff ++ [answer]) (after (s <| state_delay := 0 |>)).
Proof.
  intros Hbyte Hwait Hend. induction d as [|d IH].
  - apply exchange_one. by rewrite Hbyte.
  - eapply exchange_cons; [|exact IH]. rewrite Hbyte, Hwait by lia.
    by replace (Z.of_nat (S d) - 1) with (Z.of_nat d) by lia.
Qed.

Lemma count_transfer_nat k s :
  Z.of_nat k + 1 < 2 ^ 32 ->
  count_transfer (s <| transfer_count := Z.of_nat k |>)
  = s <| transfer_count := Z.of_nat (S k) |>.
Proof.
  intros Hk. unfold count_transfer, update. simpl. f_equal.
  unfold u32. rewrite Z.mod_small; lia.
Qed.

(** The data phase of a read, from byte [k] on. *)
Lemma exchange_read_data data filler n k s :
  current_state s = STATE_READ_TRANSFER -> block_buffer s = map Some data ->
  Z.of_nat (length data) = block_length s -> block_length s + 1 < 2 ^ 32 ->
  (k + n <= length data)%nat ->
  exchange (s <| transfer_count := Z.of_nat k |>) (replicate n filler)
    (map s8 (take n (drop k data))) (s <| transfer_count := Z.of_nat (k + n) |>).
Proof.
  intros Hstate Hbuf Hlen Hmax. revert k. induction n as [|n IH]; intros k Hk.
  - rewrite Nat.add_0_r. apply exchange_nil.
  - destruct (lookup_lt_is_Some_2 data k) as [byte Hb]; [lia|].
    rewrite (drop_S _ byte) by done. simpl.
    eapply exchange_cons; [|replace (k + S n)%nat with (S k + n)%nat by lia; apply IH; lia].
    unfold transfer_sdmmc_byte. simpl. rewrite Hstate. unfold read_transfer_byte. simpl.
    rewrite (proj2 (Z.ltb_lt _ _)) by lia. rewrite Nat2Z.id, Hbuf, list_lookup_fmap, Hb. simpl.
    by rewrite count_transfer_nat by lia.
Qed.

(** The two checksum bytes that end the data phase of a read. *)
Lemma exchange_read_checksum filler s :
  current_state s = STATE_READ_TRANSFER -> transfer_count s = block_length s ->
  0 <= block_length s -> block_length s + 1 < 2 ^ 32 ->
  exists n, is_u32 n /\
  exchange s [filler; filler] [0xff; 0xff]
    (s <| current_state := STATE_IDLE |> <| transfer_count := n |>).
Proof.
  intros Hstate Hcount H0 Hmax. exists (u32 (block_length s + 1 + 1)). split; [auto with words|].
  assert (Hu : u32 (block_length s + 1) = block_length s + 1) by (apply Z.mod_small; lia).
  eapply exchange_cons; [|eapply exchange_one].
  - unfold transfer_sdmmc_byte. rewrite Hstate. unfold read_transfer_byte.
    rewrite (proj2 (Z.ltb_ge _ _)) by lia. rewrite Hu, (proj2 (Z.eqb_neq _ _)) by lia. reflexivity.
  - unfold transfer_sdmmc_byte. simpl. rewrite Hstate. unfold read_transfer_byte. simpl.
    rewrite Hcount, Hu, (proj2 (Z.ltb_ge _ _)), Z.eqb_refl by lia.
    unfold count_transfer, update. simpl. by rewrite Hcount, Hu.
Qed.

(** The data phase of a write, from byte [k] on. *)
Lemma exchange_write_data data k s :
  Forall is_u8 data -> current_state s = STATE_WRITE_TRANSFER ->
  Z.of_nat (length (block_buffer s)) = block_length s -> block_length s + 1 < 2 ^ 32 ->
  (k + length data <= length (block_buffer s))%nat ->
  exchange (s <| transfer_count := Z.of_nat k |>) data (replicate (length data) 0xff)
    (s <| transfer_count := Z.of_nat (k + length data) |>
       <| block_buffer := take k (block_buffer s) ++ map Some data
                          ++ drop (k + length data) (block_buffer s) |>).
Proof.
  revert k s. induction data as [|byte data IH]; intros k s Hbytes Hstate Hlen Hmax Hk.
  - simpl. rewrite Nat.add_0_r, take_drop. apply exchange_nil.
  - pose proof (Forall_inv Hbytes) as Hbyte. apply Forall_inv_tail in Hbytes. simpl in Hk.
    set (s1 := s <| block_buffer ::= <[k := Some byte]> |>).
    assert (Hl1 : length (block_buffer s1) = length (block_buffer s)) by apply length_insert.
    change (replicate (length (byte :: data)) 0xff) with (0xff :: replicate (length data) 0xff).
    eapply exchange_cons.
    + unfold transfer_sdmmc_byte. simpl. rewrite Hstate. unfold write_transfer_byte. simpl.
      rewrite (proj2 (Z.ltb_lt _ _)) by lia. rewrite Nat2Z.id.
      destruct (lookup_lt_is_Some_2 (block_buffer s) k) as [b ->]; [lia|].
      replace (Z.land byte 0xff) with byte.
      2:{ change 0xff with (Z.ones 8). rewrite Z.land_ones by lia. symmetry. by apply Z.mod_small. }
      change (update _ (s <| transfer_count := Z.of_nat k |>)) with (s1 <| transfer_count := Z.of_nat k |>).
      rewrite count_transfer_nat by lia. reflexivity.
    + specialize (IH (S k) s1 Hbytes Hstate).
      rewrite Hl1 in IH. specialize (IH Hlen Hmax ltac:(lia)).
      replace (k + length (byte :: data))%nat with (S k + length data)%nat by (simpl; lia).
      assert (Hbuf : take (S k) (block_buffer s1) ++ map Some data
          ++ drop (S k + length data) (block_buffer s1)
        = take k (block_buffer s) ++ map Some (byte :: data)
          ++ drop (S k + length data) (block_buffer s)).
      { change (block_buffer s1) with (<[k := Some byte]> (block_buffer s)).
        rewrite (take_S_r _ k (Some byte)) by (apply list_lookup_insert_eq; lia).
        rewrite take_insert_ge, drop_insert_lt by lia. by rewrite <- app_assoc. }
      rewrite Hbuf in IH. exact IH.
Qed.

Lemma exchange_write_checksum c1 c2 s :
  current_state s = STATE_WRITE_TRANSFER -> transfer_count s = block_length s ->
  0 <= block_length s -> block_length s + 1 < 2 ^ 32 ->
  exists n, is_u32 n /\
  exchange s [c1; c2] [0xff; 0xff]
    (s <| current_state := STATE_WRITE_DATA_RESPONSE |> <| transfer_count := n |>).
Proof.
  intros Hstate Hcount H0 Hmax. exists (u32 (block_length s + 1 + 1)). split; [auto with words|].
  assert (Hu : u32 (block_length s + 1) = block_length s + 1) by (apply Z.mod_small; lia).
  eapply exchange_cons; [|eapply exchange_one].
  - unfold transfer_sdmmc_byte. rewrite Hstate. unfold write_transfer_byte.
    rewrite (proj2 (Z.ltb_ge _ _)) by lia. rewrite Hu, (proj2 (Z.eqb_neq _ _)) by lia. reflexivity.
  - unfold transfer_sdmmc_byte. simpl. rewrite Hstate. unfold write_transfer_byte. simpl.
    rewrite Hcount, Hu, (proj2 (Z.ltb_ge _ _)), Z.eqb_refl by lia.
    unfold count_transfer, update. simpl. by rewrite Hcount, Hu.
Qed.

Lemma transfer_bytes_wf sent s :
  card_wf s ->
  returns (fun r => Forall (fun b => -128 <= b <= 255) r.1 /\ card_wf r.2) only_exit
    (transfer_bytes sent s).
Proof.
  revert s. induction sent as [|v sent IH]; intros s Hs; simpl.
  - split; [apply Forall_nil_2|done].
  - eapply returns_bind; [by apply transfer_sdmmc_byte_wf|]. intros [r s1] [Hr Hs1].
    eapply returns_bind; [by apply IH|]. intros [rs s2] [Hrs Hs2].
    split; [|done]. by apply List.Forall_cons.
Qed.

Lemma exchange_wf s sent received s' : card_wf s -> exchange s sent received s' -> card_wf s'.
Proof.
  intros Hs He. pose proof (transfer_bytes_wf sent s Hs) as Hr. rewrite He in Hr. apply Hr.
Qed.

(** The delay left, as a number of bytes. *)
Definition delay_of (s : sdmmc) : nat := Z.to_nat (state_delay s).

Lemma delay_of_le s : card_wf s -> (delay_of s <= 15)%nat.
Proof. intros Hs. pose proof (wf_delay s Hs). unfold delay_of. lia. Qed.

Lemma set_delay s : card_wf s -> s <| state_delay := Z.of_nat (delay_of s) |> = s.
Proof.
  intros Hs. pose proof (wf_delay s Hs). unfold delay_of. rewrite Z2Nat.id by lia. by destruct s.
Qed.

Lemma exchange_command_response filler response next s :
  card_wf s -> current_state s = response ->
  (response = STATE_READ_CMD_RESPONSE /\ next = STATE_READ_DATA_TOKEN
   \/ response = STATE_WRITE_CMD_RESPONSE /\ next = STATE_WRITE_DATA_TOKEN) ->
  exists r d,
  exchange s (replicate (delay_of s + 1) filler) (replicate (delay_of s) 0xff ++ [0])
    (s <| current_state := next |> <| random_state := r |> <| state_delay := d |>).
Proof.
  intros Hs Hstate Hnext. set (s0 := s <| current_state := next |>).
  exists (random_state (random_delay s0).2), (random_delay s0).1.
  rewrite <- (set_delay s Hs) at 1.
  apply (exchange_wait (command_response_byte next) 0
    (fun _ => s <| current_state := next |> <| random_state := random_state (random_delay s0).2 |>
                <| state_delay := (random_delay s0).1 |>)).
  - intros n. unfold transfer_sdmmc_byte. simpl. rewrite Hstate.
    by destruct Hnext as [[-> ->]|[-> ->]].
  - intros n Hn. unfold command_response_byte. simpl. by rewrite (proj2 (Z.eqb_neq _ _)) by lia.
  - unfold command_response_byte. simpl. rewrite random_delay_eq. simpl. reflexivity.
Qed.

Lemma exchange_data_token filler s :
  card_wf s -> current_state s = STATE_READ_DATA_TOKEN ->
  exchange s (replicate (delay_of s + 1) filler) (replicate (delay_of s) 0xff ++ [DATA_TOKEN])
    (s <| state_delay := 0 |> <| current_state := STATE_READ_TRANSFER |>).
Proof.
  intros Hs Hstate. rewrite <- (set_delay s Hs) at 1.
  apply (exchange_wait read_data_token_byte DATA_TOKEN
    (fun s => s <| current_state := STATE_READ_TRANSFER |>)).
  - intros n. unfold transfer_sdmmc_byte. simpl. by rewrite Hstate.
  - intros n Hn. unfold read_data_token_byte. simpl. by rewrite (proj2 (Z.eqb_neq _ _)) by lia.
  - done.
Qed.

(** What a completed exchange leaves: the card waits again, with [file] stored. *)
Definition card_holds (s : sdmmc) (file : list Z) (s' : sdmmc) : Prop :=
  card_ready s' /\ block_fd s' = Some file /\ block_length s' = block_length s.

Definition block_in_range (s : sdmmc) (block : Z) : Prop :=
  is_u32 block /\ block_length s + 1 < 2 ^ 32 /\ block * block_length s < 2 ^ 32.

Lemma read_file_length offset count file :
  0 <= offset -> 0 <= count -> offset + count <= Z.of_nat (length file) ->
  Z.of_nat (length (read_file offset count file)) = count.
Proof. intros. unfold read_file. rewrite length_take, length_drop. lia. Qed.

Lemma process_read s block crc file :
  card_ready s -> block_fd s = Some file -> block_in_range s block ->
  (block + 1) * block_length s <= Z.of_nat (length file) ->
  let sent := command_packet CMD_READ_SINGLE_BLOCK block crc in
  exists r d,
    process_command (s <| command := sent |> <| current_state := STATE_RECEIVE_COMMAND |>
                       <| command_length := 6 |>)
    = Done (s <| command := sent |> <| command_length := 6 |>
              <| transfer_address := block * block_length s |>
              <| block_buffer :=
                   map Some (read_file (block * block_length s) (block_length s) file) |>
              <| transfer_count := 0 |> <| current_state := STATE_READ_CMD_RESPONSE |>
              <| random_state := r |> <| state_delay := d |>).
Proof.
  intros [Hwf _ _ Hidle Happ] Hfd (Hblock & Hmax & Hoff) Hlen sent.
  destruct (wf_block_length s Hwf) as [Hl0 _]. destruct Hblock as [Hb0 Hb1].
  unfold process_command. simpl. rewrite Happ. simpl. unfold read_single_block. simpl.
  rewrite Hidle, Hfd. unfold block_offset. simpl. subst sent.
  unfold command_packet. simpl. rewrite argument_bytes_value by by split.
  unfold u32. rewrite Z.mod_small by nia.
  rewrite read_file_length by nia. rewrite Z.eqb_refl. simpl.
  rewrite random_delay_eq. simpl. eexists _, _. reflexivity.
Qed.

Lemma exchange_read_block s block crc filler file :
  card_ready s -> is_u8 crc -> block_fd s = Some file -> block_in_range s block ->
  (block + 1) * block_length s <= Z.of_nat (length file) ->
  exists d1 d2 s', (d1 <= 15)%nat /\ (d2 <= 15)%nat /\
    exchange s
      (command_packet CMD_READ_SINGLE_BLOCK block crc
       ++ replicate (d1 + 1) filler ++ replicate (d2 + 1) filler
       ++ replicate (Z.to_nat (block_length s)) filler ++ [filler; filler])
      (replicate 6 0xff ++ (replicate d1 0xff ++ [0]) ++ (replicate d2 0xff ++ [DATA_TOKEN])
       ++ map s8 (read_file (block * block_length s) (block_length s) file) ++ [0xff; 0xff]) s' /\
    card_holds s file s'.
Proof.
  intros Hs Hcrc Hfd Hrange Hlen.
  pose proof (ready_wf s Hs) as Hwf. destruct (wf_block_length s Hwf) as [Hl0 _].
  assert (Hgot : Z.of_nat (length (read_file (block * block_length s) (block_length s) file))
    = block_length s) by (destruct Hrange as ([? ?] & ? & ?); apply read_file_length; nia).
  destruct (process_read s block crc file Hs Hfd Hrange Hlen) as (r1 & d1 & Hp).
  pose proof (exchange_command s CMD_READ_SINGLE_BLOCK block crc Hs Hcrc _ Hp) as E1.
  set (got := read_file _ _ file) in *.
  match type of E1 with exchange _ _ _ ?x => set (s1 := x) in * end.
  pose proof (exchange_wf _ _ _ _ Hwf E1) as W1.
  destruct (exchange_command_response filler _ STATE_READ_DATA_TOKEN s1 W1 eq_refl
    ltac:(by left)) as (r2 & d2 & E2).
  match type of E2 with exchange _ _ _ ?x => set (s2 := x) in * end.
  pose proof (exchange_wf _ _ _ _ W1 E2) as W2.
  pose proof (exchange_data_token filler s2 W2 eq_refl) as E3.
  match type of E3 with exchange _ _ _ ?x => set (s3 := x) in * end.
  pose proof (exchange_read_data got filler (length got) 0 s3 eq_refl eq_refl Hgot
    (proj1 (proj2 Hrange)) ltac:(lia)) as E4.
  change (s3 <| transfer_count := Z.of_nat 0 |>) with s3 in E4.
  rewrite drop_0, firstn_all, Nat.add_0_l in E4.
  match type of E4 with exchange _ _ _ ?x => set (s4 := x) in * end.
  destruct (exchange_read_checksum filler s4 eq_refl Hgot Hl0 (proj1 (proj2 Hrange)))
    as (n & _ & E5).
  match type of E5 with exchange _ _ _ ?x => set (s5 := x) in * end.
  assert (E : exchange s _ _ s5) by
    exact (exchange_app _ _ _ _ _ _ _ E1 (exchange_app _ _ _ _ _ _ _ E2
      (exchange_app _ _ _ _ _ _ _ E3 (exchange_app _ _ _ _ _ _ _ E4 E5)))).
  exists (delay_of s1), (delay_of s2), s5.
  split; [by apply delay_of_le|]. split; [by apply delay_of_le|]. split.
  - replace (Z.to_nat (block_length s)) with (length got) by lia. exact E.
  - split; [|split; [exact Hfd|done]]. constructor; try apply Hs; [|done].
    exact (exchange_wf _ _ _ _ Hwf E).
Qed.

Lemma process_write s block crc :
  card_ready s -> block_in_range s block ->
  let sent := command_packet CMD_WRITE_SINGLE_BLOCK block crc in
  exists r d,
    process_command (s <| command := sent |> <| current_state := STATE_RECEIVE_COMMAND |>
                       <| command_length := 6 |>)
    = Done (s <| command := sent |> <| command_length := 6 |>
              <| transfer_address := block * block_length s |>
              <| transfer_count := 0 |> <| current_state := STATE_WRITE_CMD_RESPONSE |>
              <| random_state := r |> <| state_delay := d |>).
Proof.
  intros [Hwf _ _ Hidle Happ] (Hblock & Hmax & Hoff) sent.
  destruct (wf_block_length s Hwf) as [Hl0 _]. destruct Hblock as [Hb0 Hb1].
  unfold process_command. simpl. rewrite Happ. simpl. unfold write_single_block. simpl.
  rewrite Hidle. unfold block_offset. simpl. subst sent.
  unfold command_packet. simpl. rewrite argument_bytes_value by by split.
  unfold u32. rewrite Z.mod_small by nia.
  rewrite random_delay_eq. simpl. eexists _, _. reflexivity.
Qed.

Lemma exchange_data_response filler s file data :
  current_state s = STATE_WRITE_DATA_RESPONSE -> block_fd s = Some file ->
  block_buffer s = map Some data ->
  exchange s [filler] [0x05]
    (s <| current_state := STATE_IDLE |>
       <| block_fd := Some (write_file (transfer_address s) data file) |>).
Proof.
  intros Hstate Hfd Hbuf. apply exchange_one. unfold transfer_sdmmc_byte. rewrite Hstate.
  unfold write_data_response_byte, buffer_bytes. rewrite Hfd, Hbuf.
  replace (mapM id (map Some data)) with (Some data); [done|].
  clear. symmetry. induction data as [|v data IH]; [done|]. simpl. by rewrite IH.
Qed.

Lemma exchange_write_block s block crc filler file data c1 c2 :
  card_ready s -> is_u8 crc -> block_fd s = Some file -> block_in_range s block ->
  Forall is_u8 data -> Z.of_nat (length data) = block_length s ->
  exists d s', (d <= 15)%nat /\
    exchange s
      (command_packet CMD_WRITE_SINGLE_BLOCK block crc
       ++ replicate (d + 1) filler ++ [DATA_TOKEN] ++ data ++ [c1; c2] ++ [filler])
      (replicate 6 0xff ++ (replicate d 0xff ++ [0]) ++ [0xff]
       ++ replicate (length data) 0xff ++ [0xff; 0xff] ++ [0x05]) s' /\
    card_holds s (write_file (block * block_length s) data file) s'.
Proof.
  intros Hs Hcrc Hfd Hrange Hdata Hlen.
  pose proof (ready_wf s Hs) as Hwf. destruct (wf_block_length s Hwf) as [Hl0 _].
  pose proof (wf_buffer s Hwf) as Hbuf.
  destruct (process_write s block crc Hs Hrange) as (r1 & d1 & Hp).
  pose proof (exchange_command s CMD_WRITE_SINGLE_BLOCK block crc Hs Hcrc _ Hp) as E1.
  match type of E1 with exchange _ _ _ ?x => set (s1 := x) in * end.
  pose proof (exchange_wf _ _ _ _ Hwf E1) as W1.
  destruct (exchange_command_response filler _ STATE_WRITE_DATA_TOKEN s1 W1 eq_refl
    ltac:(by right)) as (r2 & d2 & E2).
  match type of E2 with exchange _ _ _ ?x => set (s2 := x) in * end.
  assert (E3 : exchange s2 [DATA_TOKEN] [0xff]
    (s2 <| current_state := STATE_WRITE_TRANSFER |>)) by by apply exchange_one.
  set (s3 := s2 <| current_state := STATE_WRITE_TRANSFER |>) in *.
  pose proof (exchange_write_data data 0 s3 Hdata eq_refl Hbuf (proj1 (proj2 Hrange))
    ltac:(simpl; lia)) as E4.
  change (s3 <| transfer_count := Z.of_nat 0 |>) with s3 in E4.
  rewrite Nat.add_0_l, take_0, app_nil_l, drop_ge, app_nil_r in E4 by (simpl; lia).
  match type of E4 with exchange _ _ _ ?x => set (s4 := x) in * end.
  destruct (exchange_write_checksum c1 c2 s4 eq_refl Hlen Hl0 (proj1 (proj2 Hrange)))
    as (n & _ & E5).
  match type of E5 with exchange _ _ _ ?x => set (s5 := x) in * end.
  pose proof (exchange_data_response filler s5 file data eq_refl Hfd eq_refl) as E6.
  match type of E6 with exchange _ _ _ ?x => set (s6 := x) in * end.
  assert (E : exchange s _ _ s6) by
    exact (exchange_app _ _ _ _ _ _ _ E1 (exchange_app _ _ _ _ _ _ _ E2
      (exchange_app _ _ _ _ _ _ _ E3 (exchange_app _ _ _ _ _ _ _ E4
      (exchange_app _ _ _ _ _ _ _ E5 E6))))).
  exists (delay_of s1), s6. split; [by apply delay_of_le|]. split; [exact E|].
  split; [|done]. constructor; try apply Hs; [|done].
  exact (exchange_wf _ _ _ _ Hwf E).
Qed.

Lemma write_file_length offset bytes file :
  0 <= offset -> (length bytes > 0)%nat ->
  (length (write_file offset bytes file)
   = length bytes + (Z.to_nat offset + (length file - (Z.to_nat offset + length bytes))))%nat.
Proof.
  intros H0 Hn. unfold write_file. destruct bytes as [|b bytes]; [simpl in Hn; lia|].
  rewrite !length_app, length_take, length_app, length_replicate, length_drop. lia.
Qed.

Lemma read_write_file offset bytes file :
  0 <= offset ->
  read_file offset (Z.of_nat (length bytes)) (write_file offset bytes file) = bytes.
Proof.
  intros H0. unfold read_file, write_file. rewrite Nat2Z.id.
  destruct bytes as [|b bytes]; [done|].
  rewrite drop_app_ge; rewrite length_take, length_app, length_replicate; [|lia].
  replace (_ - _ `min` _)%nat with 0%nat by lia. rewrite drop_0.
  by rewrite take_app_length.
Qed.

(** ** The properties of the card *)

(** What the emulated processor can do to the card. *)
Inductive bus_operation :=
| TransferByte (value : Z)
| SelectCard (value : Z).

Definition bus_step (op : bus_operation) (s : sdmmc) : result (list Z * sdmmc) :=
  match op with
  | TransferByte value => '(r, s) <-- transfer_sdmmc_byte value s;; Done ([r], s)
  | SelectCard value => Done ([], set_sdmmc_cs value s)
  end.

Fixpoint bus_run (ops : list bus_operation) (s : sdmmc) : result (list Z * sdmmc) :=
  match ops with
  | [] => Done ([], s)
  | op :: ops' =>
      '(r, s) <-- bus_step op s;;
      '(rs, s) <-- bus_run ops' s;;
      Done (r ++ rs, s)
  end.

Definition file_of_bytes (file : option (list Z)) : Prop :=
  forall bytes, file = Some bytes -> Forall is_u8 bytes.

(** C38: however a program drives the SD card, from power-up and with or without a
    block device, the card model never indexes its command or block buffer out of
    bounds and never transmits or stores a byte of the block buffer that was not
    written before; the only abnormal end is the emulator's own [exit] on a protocol
    error.  Every result fits a byte, read as signed or unsigned. *)
Theorem sdmmc_memory_safe random file ops :
  Random.wf random -> file_of_bytes file ->
  returns (fun r => Forall (fun b => -128 <= b <= 255) r.1 /\ card_wf r.2) only_exit
    (bus_run ops (open_sdmmc_device file (sdmmc_init random)).2).
Proof.
  intros Hr Hf.
  assert (Hs : card_wf (open_sdmmc_device file (sdmmc_init random)).2)
    by (apply open_sdmmc_device_wf; [done|done|done|by apply sdmmc_init_wf]).
  revert Hs. generalize (open_sdmmc_device file (sdmmc_init random)).2.
  induction ops as [|op ops IH]; intros s Hs; simpl.
  - split; [apply Forall_nil_2|done].
  - eapply (returns_bind (fun r => Forall (fun b => -128 <= b <= 255) r.1 /\ card_wf r.2)).
    + destruct op as [value|value]; simpl.
      * eapply returns_bind; [by apply transfer_sdmmc_byte_wf|]. intros [r s'] [Hb Hs'].
        split; [|done]. simpl. apply List.Forall_cons; [done|apply Forall_nil_2].
      * split; [apply Forall_nil_2|by apply set_sdmmc_cs_wf].
    + intros [r s'] [Hb Hs']. eapply returns_bind; [by apply IH|].
      intros [rs s''] [Hbs Hs'']. split; [|done]. by apply Forall_app.
Qed.

Lemma sdmmc_memory_safe_witness :
  let ops := SelectCard 1 :: replicate 10 (TransferByte 0xff) ++ [SelectCard 0] ++
    map TransferByte (command_packet CMD_GO_IDLE_STATE 0 0x95 ++ [0xff]) in
  Random.wf (Random.seed_random 1) /\ file_of_bytes (Some [1; 2; 3]) /\
  returns (fun r => Forall (fun b => -128 <= b <= 255) r.1 /\ card_wf r.2) only_exit
    (bus_run ops (open_sdmmc_device (Some [1; 2; 3]) (sdmmc_init (Random.seed_random 1))).2).
Proof.
  assert (Hr : Random.wf (Random.seed_random 1)) by (split; vm_decide).
  assert (Hf : file_of_bytes (Some [1; 2; 3])).
  { intros bytes [= <-]. repeat constructor; vm_compute; congruence. }
  split; [exact Hr|]. split; [exact Hf|].
  exact (sdmmc_memory_safe (Random.seed_random 1) (Some [1; 2; 3]) _ Hr Hf).
Defined.

(** Reading a block.  An initialised card that is sent CMD17 for a block inside
    its file answers 0 after at most 15 idle bytes, the data token after at most 15
    more, then the block's bytes in file order (as signed [char]s), two checksum
    bytes, and is ready for the next command with the file unchanged. *)
Theorem sd_read_block s block crc filler file :
  card_ready s -> is_u8 crc -> block_fd s = Some file -> block_in_range s block ->
  (block + 1) * block_length s <= Z.of_nat (length file) ->
  exists d1 d2 s', (d1 <= 15)%nat /\ (d2 <= 15)%nat /\
    exchange s
      (command_packet CMD_READ_SINGLE_BLOCK block crc
       ++ replicate (d1 + 1) filler ++ replicate (d2 + 1) filler
       ++ replicate (Z.to_nat (block_length s)) filler ++ [filler; filler])
      (replicate 6 0xff ++ (replicate d1 0xff ++ [0]) ++ (replicate d2 0xff ++ [DATA_TOKEN])
       ++ map s8 (read_file (block * block_length s) (block_length s) file) ++ [0xff; 0xff]) s' /\
    card_holds s file s'.
Proof. apply exchange_read_block. Qed.

(** C6: what is written is read back.  After CMD24, the data token, one block of
    bytes and a checksum, the card accepts the data (response 5), the file holds the
    block at its address, and CMD17 for the same block returns exactly those bytes. *)
Theorem sd_write_then_read s block crc filler file data c1 c2 :
  card_ready s -> is_u8 crc -> block_fd s = Some file -> block_in_range s block ->
  Forall is_u8 data -> Z.of_nat (length data) = block_length s ->
  exists d s' d1 d2 s'', (d <= 15)%nat /\ (d1 <= 15)%nat /\ (d2 <= 15)%nat /\
    exchange s
      (command_packet CMD_WRITE_SINGLE_BLOCK block crc
       ++ replicate (d + 1) filler ++ [DATA_TOKEN] ++ data ++ [c1; c2] ++ [filler])
      (replicate 6 0xff ++ (replicate d 0xff ++ [0]) ++ [0xff]
       ++ replicate (length data) 0xff ++ [0xff; 0xff] ++ [0x05]) s' /\
    card_holds s (write_file (block * block_length s) data file) s' /\
    exchange s'
      (command_packet CMD_READ_SINGLE_BLOCK block crc
       ++ replicate (d1 + 1) filler ++ replicate (d2 + 1) filler
       ++ replicate (length data) filler ++ [filler; filler])
      (replicate 6 0xff ++ (replicate d1 0xff ++ [0]) ++ (replicate d2 0xff ++ [DATA_TOKEN])
       ++ map s8 data ++ [0xff; 0xff]) s'' /\
    card_holds s (write_file (block * block_length s) data file) s''.
Proof.
  intros Hs Hcrc Hfd Hrange Hdata Hlen.
  destruct (exchange_write_block s block crc filler file data c1 c2) as
    (d & s' & Hd & Hw & Hready & Hfd' & Hbl); try done.
  destruct Hrange as ([Hb0 Hb1] & Hmax & Hoff).
  destruct (exchange_read_block s' block crc filler _ Hready Hcrc Hfd') as
    (d1 & d2 & s'' & Hd1 & Hd2 & Hr & Hready2 & Hfd2 & Hbl2).
  - unfold block_in_range. by rewrite Hbl.
  - rewrite Hbl. destruct data as [|v data]; [simpl in *; nia|].
    rewrite write_file_length by (simpl; nia). nia.
  - pose proof (read_write_file (block * block_length s) data file ltac:(nia)) as Hread.
    rewrite Hbl in Hr. rewrite Hlen in Hread. rewrite Hread in Hr.
    replace (Z.to_nat (block_length s)) with (length data) in Hr by lia.
    exists d, s', d1, d2, s''. do 4 (split; [done|]). split; [by split|]. split; [exact Hr|].
    split; [exact Hready2|]. split; [exact Hfd2|]. by rewrite Hbl2.
Qed.

(** An initialised card with two-byte blocks and a file of three. *)
Definition small_card : sdmmc :=
  sdmmc_init (Random.seed_random 7) <| block_fd := Some [1; 2; 3; 4; 0xfe; 6] |>
    <| current_state := STATE_IDLE |> <| block_length := 2 |> <| block_buffer := [None; None] |>.

Lemma small_card_ready : card_ready small_card.
Proof.
  constructor; try done. pose proof (sdmmc_init_wf (Random.seed_random 7)) as Hi.
  destruct Hi as []; [split; vm_decide|]. constructor; simpl; try done.
  - intros file [= <-]. repeat constructor; vm_compute; congruence.
  - repeat constructor; discriminate.
Qed.

Lemma sd_read_block_witness :
  exists d1 d2 s', (d1 <= 15)%nat /\ (d2 <= 15)%nat /\
    exchange small_card
      (command_packet CMD_READ_SINGLE_BLOCK 2 0 ++ replicate (d1 + 1) 0xff
       ++ replicate (d2 + 1) 0xff ++ replicate 2 0xff ++ [0xff; 0xff])
      (replicate 6 0xff ++ (replicate d1 0xff ++ [0]) ++ (replicate d2 0xff ++ [DATA_TOKEN])
       ++ [-2; 6] ++ [0xff; 0xff]) s' /\ card_holds small_card [1; 2; 3; 4; 0xfe; 6] s'.
Proof.
  refine (sd_read_block small_card 2 0 0xff [1; 2; 3; 4; 0xfe; 6] small_card_ready _ eq_refl _ _).
  - by split.
  - by repeat split.
  - done.
Defined.

Lemma sd_write_then_read_witness :
  exists d s' d1 d2 s'', (d <= 15)%nat /\ (d1 <= 15)%nat /\ (d2 <= 15)%nat /\
    exchange small_card
      (command_packet CMD_WRITE_SINGLE_BLOCK 1 0 ++ replicate (d + 1) 0xff ++ [DATA_TOKEN]
       ++ [9; 8] ++ [0; 0] ++ [0xff])
      (replicate 6 0xff ++ (replicate d 0xff ++ [0]) ++ [0xff] ++ replicate 2 0xff
       ++ [0xff; 0xff] ++ [0x05]) s' /\
    card_holds small_card [1; 2; 9; 8; 0xfe; 6] s' /\
    exchange s'
      (command_packet CMD_READ_SINGLE_BLOCK 1 0 ++ replicate (d1 + 1) 0xff
       ++ replicate (d2 + 1) 0xff ++ replicate 2 0xff ++ [0xff; 0xff])
      (replicate 6 0xff ++ (replicate d1 0xff ++ [0]) ++ (replicate d2 0xff ++ [DATA_TOKEN])
       ++ [9; 8] ++ [0xff; 0xff]) s'' /\
    card_holds small_card [1; 2; 9; 8; 0xfe; 6] s''.
Proof.
  refine (sd_write_then_read small_card 1 0 0xff [1; 2; 3; 4; 0xfe; 6] [9; 8] 0 0
    small_card_ready _ eq_refl _ _ eq_refl).
  - by split.
  - by repeat split.
  - repeat constructor; vm_compute; congruence.
Defined.
