(* ===== verification/Device.v ===== *)
(** * Device: the memory mapped peripherals of tools/emulator/device.c

    The keyboard and serial ring buffers, the UART and SD card registers, and what
    the emulator shows of the program: the serial output, the frame buffer
    settings of fbwindow.c and the interrupts [send_host_interrupt] of main.c
    forwards to the pipe. *)

From S2P Require Export Sdmmc.

Definition KEY_BUFFER_SIZE : Z := 64.
Definition SERIAL_BUFFER_SIZE : Z := 64.

Definition REG_HOST_INTERRUPT : Z := 0xffff0018.
Definition REG_SERIAL_STATUS : Z := 0xffff0040.
Definition REG_SERIAL_INPUT : Z := 0xffff0044.
Definition REG_SERIAL_OUTPUT : Z := 0xffff0048.
Definition REG_KEYBOARD_STATUS : Z := 0xffff0080.
Definition REG_KEYBOARD_READ : Z := 0xffff0084.
Definition REG_SD_WRITE_DATA : Z := 0xffff00c0.
Definition REG_SD_READ_DATA : Z := 0xffff00c4.
Definition REG_SD_STATUS : Z := 0xffff00c8.
Definition REG_SD_CONTROL : Z := 0xffff00cc.
Definition REG_VGA_ENABLE : Z := 0xffff0180.
Definition REG_VGA_BASE : Z := 0xffff0188.

(** ** Ring buffers

    [key_buf] and [serial_read_buf] with their head and tail; both hold
    [size] = 64 elements. *)

Record ring := { buf : list Z; head : Z; tail : Z }.

#[export]
Instance ring_fields : Fields ring := fun r => Build_ring (buf r) (head r) (tail r).

Definition ring_init (size : Z) : ring :=
  {| buf := replicate (Z.to_nat size) 0; head := 0; tail := 0 |}.

Definition ring_empty (r : ring) : bool := head r =? tail r.

(** The value read, 0 when there is none. *)
Definition ring_read (size : Z) (r : ring) : Z * ring :=
  if negb (ring_empty r) then
    (buf r !!! Z.to_nat (tail r), r <| tail := (tail r + 1) mod size |>)
  else (0, r).

(** A full buffer discards its oldest element. *)
Definition ring_write (size value : Z) (r : ring) : ring :=
  let r := r <| buf ::= <[Z.to_nat (head r) := value]> |>
             <| head := (head r + 1) mod size |> in
  if head r =? tail r then r <| tail := (tail r + 1) mod size |> else r.

(** ** The devices *)

Record devices := {
  key_buf : ring;
  serial_read_buf : ring;
  last_sdmmc_response : Z;
  sd_card : sdmmc;
  stdout : list Z;
  fb_enabled : bool;
  fb_address : Z;
  interrupt_pipe : option (list Z)
}.

#[export]
Instance devices_fields : Fields devices := fun d =>
  Build_devices (key_buf d) (serial_read_buf d) (last_sdmmc_response d) (sd_card d)
    (stdout d) (fb_enabled d) (fb_address d) (interrupt_pipe d).

(** [pipe] tells whether [-o] named a pipe ([send_interrupt_fd >= 0]). *)
Definition devices_init (card : sdmmc) (pipe : bool) : devices :=
  {| key_buf := ring_init KEY_BUFFER_SIZE; serial_read_buf := ring_init SERIAL_BUFFER_SIZE;
     last_sdmmc_response := 0; sd_card := card; stdout := []; fb_enabled := false;
     fb_address := 0; interrupt_pipe := if pipe then Some [] else None |}.

(** Writes one byte to the pipe, if there is one. *)
Definition send_host_interrupt (num : Z) (d : devices) : devices :=
  d <| interrupt_pipe ::= fmap (fun sent => sent ++ [u8 num]) |>.

Definition enable_frame_buffer (enable : bool) (d : devices) : devices :=
  d <| fb_enabled := enable |>.

Definition set_frame_buffer_address (address : Z) (d : devices) : devices :=
  d <| fb_address := address |>.

(** [switch (address)]: no register, no effect.  [transfer_sdmmc_byte] takes an
    [int], so the value is converted. *)
Definition write_register (address value : Z) (d : devices) : result devices :=
  if address =? REG_SERIAL_OUTPUT then
    Done (d <| stdout ::= fun out => out ++ [Z.land value 0xff] |>)
  else if address =? REG_SD_WRITE_DATA then
    '(response, card) <-- transfer_sdmmc_byte (s32 value) (sd_card d);;
    Done (d <| last_sdmmc_response := response |> <| sd_card := card |>)
  else if address =? REG_SD_CONTROL then
    Done (d <| sd_card ::= set_sdmmc_cs (Z.land value 1) |>)
  else if address =? REG_VGA_ENABLE then
    Done (enable_frame_buffer (negb (Z.land value 1 =? 0)) d)
  else if address =? REG_VGA_BASE then Done (set_frame_buffer_address value d)
  else if address =? REG_HOST_INTERRUPT then Done (send_host_interrupt value d)
  else Done d.

(** The value, and the interrupt lines [clear_interrupt] is called with. *)
Definition read_serial_input (d : devices) : Z * Z * devices :=
  let '(value, r) := ring_read SERIAL_BUFFER_SIZE (serial_read_buf d) in
  (value, if ring_empty r then INT_UART_RX else 0, d <| serial_read_buf := r |>).

Definition read_keyboard (d : devices) : Z * Z * devices :=
  let '(value, r) := ring_read KEY_BUFFER_SIZE (key_buf d) in
  (value, if ring_empty r then INT_PS2_RX else 0, d <| key_buf := r |>).

Definition read_register (address : Z) (d : devices) : Z * Z * devices :=
  if address =? REG_SERIAL_STATUS then
    (Z.lor 1 (if negb (ring_empty (serial_read_buf d)) then 2 else 0), 0, d)
  else if address =? REG_SERIAL_INPUT then read_serial_input d
  else if address =? REG_KEYBOARD_STATUS then
    ((if negb (ring_empty (key_buf d)) then 1 else 0), 0, d)
  else if address =? REG_KEYBOARD_READ then read_keyboard d
  else if address =? REG_SD_READ_DATA then (u32 (last_sdmmc_response d), 0, d)
  else if address =? REG_SD_STATUS then (1, 0, d)
  else (0xffffffff, 0, d).

Definition put_key (scan_code : Z) (d : devices) : devices :=
  d <| key_buf ::= ring_write KEY_BUFFER_SIZE scan_code |>.

(** [serial_read_buf] holds bytes. *)
Definition put_serial_char (scan_code : Z) (d : devices) : devices :=
  d <| serial_read_buf ::= ring_write SERIAL_BUFFER_SIZE (u8 scan_code) |>.

(** ** The ring buffers are bounded queues *)

Record ring_wf (size : Z) (r : ring) : Prop := {
  ring_size : 1 < size;
  ring_buf : Z.of_nat (length (buf r)) = size;
  ring_head : 0 <= head r < size;
  ring_tail : 0 <= tail r < size
}.

(** The elements waiting, oldest first. *)
Definition ring_length (size : Z) (r : ring) : nat := Z.to_nat ((head r - tail r) mod size).

(** [count] elements of a circular buffer from position [from]. *)
Definition window (size : Z) (elements : list Z) (from : Z) (count : nat) : list Z :=
  map (fun i => elements !!! Z.to_nat ((from + Z.of_nat i) mod size)) (seq 0 count).

Definition ring_contents (size : Z) (r : ring) : list Z :=
  window size (buf r) (tail r) (ring_length size r).

(** The abstract queue: at most [size - 1] elements, the oldest is dropped. *)
Definition queue_write (size value : Z) (q : list Z) : list Z :=
  if Z.of_nat (length q) =? size - 1 then tl q ++ [value] else q ++ [value].

Definition queue_read (q : list Z) : Z * list Z := (hd 0 q, tl q).

Lemma sub_mod_cases size h t :
  0 <= h < size -> 0 <= t < size ->
  (t <= h /\ (h - t) mod size = h - t) \/ (h < t /\ (h - t) mod size = h - t + size).
Proof.
  intros. destruct (Z.le_gt_cases t h).
  - left. split; [done|]. apply Z.mod_small. lia.
  - right. split; [done|]. symmetry. apply (Z.mod_unique_pos _ _ (-1)); lia.
Qed.

Lemma succ_mod_cases size n :
  0 <= n < size ->
  (n + 1 < size /\ (n + 1) mod size = n + 1) \/ (n + 1 = size /\ (n + 1) mod size = 0).
Proof.
  intros. destruct (Z.lt_ge_cases (n + 1) size).
  - left. split; [done|]. apply Z.mod_small. lia.
  - right. split; [lia|]. replace (n + 1) with size by lia. apply Z.mod_same. lia.
Qed.

Lemma add_mod_cases size t i :
  0 <= t < size -> 0 <= i < size ->
  (t + i < size /\ (t + i) mod size = t + i)
  \/ (size <= t + i /\ (t + i) mod size = t + i - size).
Proof.
  intros. destruct (Z.lt_ge_cases (t + i) size).
  - left. split; [done|]. apply Z.mod_small. lia.
  - right. split; [done|]. symmetry. apply (Z.mod_unique_pos _ _ 1); lia.
Qed.

Lemma window_length size l from count : length (window size l from count) = count.
Proof. unfold window. by rewrite length_map, length_seq. Qed.

Lemma window_tl size l from count :
  1 < size -> tl (window size l from (S count)) = window size l ((from + 1) mod size) count.
Proof.
  intros Hs. unfold window. simpl. rewrite <- seq_shift, List.map_map. apply map_ext. intros i.
  do 2 f_equal. rewrite Z.add_mod_idemp_l by lia. f_equal. lia.
Qed.

(** Writing at the end of a window that does not fill the buffer. *)
Lemma window_append size l from count v :
  1 < size -> Z.of_nat (length l) = size -> 0 <= from < size -> Z.of_nat count < size ->
  window size (<[Z.to_nat ((from + Z.of_nat count) mod size) := v]> l) from (S count)
  = window size l from count ++ [v].
Proof.
  intros Hs Hl Hf Hc. unfold window. rewrite seq_S, map_app. simpl.
  pose proof (Z.mod_pos_bound (from + Z.of_nat count) size ltac:(lia)). f_equal.
  - apply map_ext_in. intros i Hi. apply in_seq in Hi.
    apply list_lookup_total_insert_ne. intros Heq. apply (f_equal Z.of_nat) in Heq.
    pose proof (Z.mod_pos_bound (from + Z.of_nat i) size ltac:(lia)).
    rewrite !Z2Nat.id in Heq by lia.
    destruct (add_mod_cases size from (Z.of_nat i)) as [[? ?]|[? ?]];
      destruct (add_mod_cases size from (Z.of_nat count)) as [[? ?]|[? ?]]; lia.
  - f_equal. apply list_lookup_total_insert_eq. lia.
Qed.

Lemma ring_length_lt size r : ring_wf size r -> Z.of_nat (ring_length size r) < size.
Proof.
  intros [Hs _ Hh Ht]. unfold ring_length.
  pose proof (Z.mod_pos_bound (head r - tail r) size ltac:(lia)). lia.
Qed.

Lemma ring_head_position size r :
  ring_wf size r -> (tail r + Z.of_nat (ring_length size r)) mod size = head r.
Proof.
  intros [Hs _ Hh Ht]. unfold ring_length.
  pose proof (Z.mod_pos_bound (head r - tail r) size ltac:(lia)).
  rewrite Z2Nat.id, Z.add_mod_idemp_r by lia.
  replace (tail r + (head r - tail r)) with (head r) by lia. by apply Z.mod_small.
Qed.

Lemma ring_contents_length size r : length (ring_contents size r) = ring_length size r.
Proof. apply window_length. Qed.

Lemma ring_empty_length size r :
  ring_wf size r -> ring_empty r = bool_decide (ring_length size r = 0%nat).
Proof.
  intros [Hs _ Hh Ht]. unfold ring_empty, ring_length.
  destruct (sub_mod_cases size (head r) (tail r) Hh Ht) as [[? ->]|[? ->]];
    destruct (head r =? tail r) eqn:E; bool_to_prop; symmetry;
    first [apply bool_decide_eq_true_2 | apply bool_decide_eq_false_2]; lia.
Qed.

Lemma ring_read_wf size r : ring_wf size r -> ring_wf size (ring_read size r).2.
Proof.
  intros [Hs Hb Hh Ht]. unfold ring_read. destruct (negb _); [|by constructor].
  constructor; simpl; try done. apply Z.mod_pos_bound. lia.
Qed.

Lemma ring_write_wf size v r : ring_wf size r -> ring_wf size (ring_write size v r).
Proof.
  intros [Hs Hb Hh Ht]. unfold ring_write.
  destruct (_ =? _); constructor; simpl; rewrite ?length_insert; try done;
    apply Z.mod_pos_bound; lia.
Qed.

(** One step of the head or the tail, as a change of length. *)
Lemma ring_length_step size h t :
  1 < size -> 0 <= h < size -> 0 <= t < size ->
  ((h - (t + 1) mod size) mod size = if h =? t then size - 1 else (h - t) mod size - 1)
  /\ (((h + 1) mod size - t) mod size
      = if (h + 1) mod size =? t then 0 else (h - t) mod size + 1).
Proof.
  intros Hs Hh Ht. pose proof (sub_mod_cases size h t Hh Ht).
  pose proof (succ_mod_cases size t Ht). pose proof (succ_mod_cases size h Hh).
  pose proof (sub_mod_cases size h ((t + 1) mod size) Hh (Z.mod_pos_bound (t + 1) size ltac:(lia))).
  pose proof (sub_mod_cases size ((h + 1) mod size) t (Z.mod_pos_bound (h + 1) size ltac:(lia)) Ht).
  split; [destruct (h =? t) eqn:E|destruct ((h + 1) mod size =? t) eqn:E]; bool_to_prop; lia.
Qed.

(** Reading takes the oldest element. *)
Lemma ring_read_contents size r :
  ring_wf size r ->
  (ring_read size r).1 = hd 0 (ring_contents size r)
  /\ ring_contents size (ring_read size r).2 = tl (ring_contents size r).
Proof.
  intros Hr. pose proof (ring_empty_length size r Hr) as Hempty. destruct Hr as [Hs _ Hh Ht].
  unfold ring_read. rewrite Hempty. unfold ring_contents.
  destruct (ring_length_step size (head r) (tail r) Hs Hh Ht) as [Hlen _].
  case_bool_decide as Hn; simpl.
  - by rewrite Hn.
  - destruct (ring_length size r) as [|n] eqn:Hl; [done|]. split.
    + simpl. by rewrite Z.add_0_r, Z.mod_small.
    + rewrite window_tl by done. f_equal. unfold ring_length in *. simpl. rewrite Hlen.
      destruct (head r =? tail r) eqn:E; bool_to_prop; [|lia].
      rewrite E, Z.sub_diag, Z.mod_0_l in Hl by lia. lia.
Qed.

(** Writing appends, and drops the oldest element of a full buffer. *)
Lemma ring_write_contents size v r :
  ring_wf size r ->
  ring_contents size (ring_write size v r) = queue_write size v (ring_contents size r).
Proof.
  intros Hr. pose proof (ring_length_lt size r Hr) as Hlt.
  pose proof (ring_head_position size r Hr) as Hhead. destruct Hr as [Hs Hb Hh Ht].
  pose proof (window_append size (buf r) (tail r) (ring_length size r) v Hs Hb Ht Hlt) as Happ.
  rewrite Hhead in Happ. unfold queue_write. rewrite ring_contents_length.
  destruct (ring_length_step size (head r) (tail r) Hs Hh Ht) as [_ Hlen].
  pose proof (sub_mod_cases size (head r) (tail r) Hh Ht) as Hsub.
  pose proof (succ_mod_cases size (head r) Hh) as Hsucc.
  unfold ring_write. simpl. destruct ((head r + 1) mod size =? tail r) eqn:E.
  - bool_to_prop. rewrite (proj2 (Z.eqb_eq _ _)) by (unfold ring_length; lia).
    unfold ring_contents. simpl.
    assert (Hn : ring_length size r = S (Z.to_nat (size - 2))) by (unfold ring_length; lia).
    assert (Htl : tl (window size (buf r) (tail r) (ring_length size r)) ++ [v]
      = tl (window size (buf r) (tail r) (ring_length size r) ++ [v])) by (by rewrite Hn).
    rewrite Htl, <- Happ, window_tl by done. f_equal. unfold ring_length. simpl. rewrite E.
    destruct (ring_length_step size (tail r) (tail r) Hs Ht Ht) as [Hlast _].
    rewrite Hlast, Z.eqb_refl. unfold ring_length in Hn. lia.
  - bool_to_prop. rewrite (proj2 (Z.eqb_neq _ _)) by (unfold ring_length; lia).
    unfold ring_contents. simpl. rewrite <- Happ. f_equal. unfold ring_length. simpl.
    rewrite Hlen. lia.
Qed.

(** ** The devices keep their invariant *)

Record devices_wf (d : devices) : Prop := {
  wf_key_buf : ring_wf KEY_BUFFER_SIZE (key_buf d);
  wf_keys : Forall is_u32 (buf (key_buf d));
  wf_serial_buf : ring_wf SERIAL_BUFFER_SIZE (serial_read_buf d);
  wf_serial : Forall is_u32 (buf (serial_read_buf d));
  wf_card : card_wf (sd_card d)
}.

Ltac rebuild_devices H := destruct H; constructor; simpl; try done.

Lemma ring_init_wf size : 1 < size -> ring_wf size (ring_init size).
Proof.
  intros Hs. constructor; simpl; try lia. rewrite length_replicate. lia.
Qed.

Lemma devices_init_wf card pipe : card_wf card -> devices_wf (devices_init card pipe).
Proof.
  intros Hc. assert (Hz : Forall is_u32 (replicate 64 0)) by by apply Forall_replicate.
  by constructor; first [apply ring_init_wf | exact Hz | idtac].
Qed.

Lemma ring_write_elements size v r :
  is_u32 v -> Forall is_u32 (buf r) -> Forall is_u32 (buf (ring_write size v r)).
Proof.
  intros Hv Hr. unfold ring_write. destruct (_ =? _); simpl; by apply Forall_insert.
Qed.

Lemma ring_read_elements size r :
  Forall is_u32 (buf r) ->
  is_u32 (ring_read size r).1 /\ Forall is_u32 (buf (ring_read size r).2).
Proof.
  intros Hr. unfold ring_read. destruct (negb _); simpl; [|by split]. split; [|done].
  rewrite list_lookup_total_alt. destruct (buf r !! _) eqn:E; [|by split].
  by eapply Forall_lookup in E.
Qed.

Lemma write_register_wf address value d :
  devices_wf d -> returns devices_wf (fun f => f = HostExit) (write_register address value d).
Proof.
  intros Hd. unfold write_register.
  destruct (_ =? REG_SERIAL_OUTPUT); [rebuild_devices Hd|].
  destruct (_ =? REG_SD_WRITE_DATA).
  { eapply returns_bind; [apply transfer_sdmmc_byte_wf, Hd|]. intros [r card] [_ Hc].
    rebuild_devices Hd. }
  destruct (_ =? REG_SD_CONTROL); [rebuild_devices Hd; by apply set_sdmmc_cs_wf|].
  destruct (_ =? REG_VGA_ENABLE); [rebuild_devices Hd|].
  destruct (_ =? REG_VGA_BASE); [rebuild_devices Hd|].
  destruct (_ =? REG_HOST_INTERRUPT); [rebuild_devices Hd|exact Hd].
Qed.

Lemma read_register_wf address d :
  devices_wf d ->
  is_u32 (read_register address d).1.1 /\ devices_wf (read_register address d).2.
Proof.
  intros Hd. unfold read_register.
  destruct (_ =? REG_SERIAL_STATUS); [split; [|done]; simpl; by destruct (negb _)|].
  destruct (_ =? REG_SERIAL_INPUT).
  { unfold read_serial_input. pose proof (ring_read_wf _ _ (wf_serial_buf d Hd)).
    pose proof (ring_read_elements SERIAL_BUFFER_SIZE _ (wf_serial d Hd)) as [? ?].
    destruct (ring_read _ _) as [v r]. split; [done|]. rebuild_devices Hd. }
  destruct (_ =? REG_KEYBOARD_STATUS); [split; [|done]; simpl; by destruct (negb _)|].
  destruct (_ =? REG_KEYBOARD_READ).
  { unfold read_keyboard. pose proof (ring_read_wf _ _ (wf_key_buf d Hd)).
    pose proof (ring_read_elements KEY_BUFFER_SIZE _ (wf_keys d Hd)) as [? ?].
    destruct (ring_read _ _) as [v r]. split; [done|]. rebuild_devices Hd. }
  destruct (_ =? REG_SD_READ_DATA); [split; [simpl; auto with words|done]|].
  destruct (_ =? REG_SD_STATUS); by split.
Qed.

Lemma put_key_wf code d : is_u32 code -> devices_wf d -> devices_wf (put_key code d).
Proof.
  intros Hc Hd. rebuild_devices Hd; [by apply ring_write_wf|by apply ring_write_elements].
Qed.

Lemma put_serial_char_wf code d : devices_wf d -> devices_wf (put_serial_char code d).
Proof.
  intros Hd. rebuild_devices Hd; [by apply ring_write_wf|].
  apply ring_write_elements; [|done]. apply (is_unsigned_mono 8); [lia|apply is_u8_u8].
Qed.

(** ** Refinement: the keyboard and the UART are queues *)

Inductive input_event :=
| KeyPressed (scan_code : Z)
| CharReceived (char : Z)
| RegisterRead (address : Z).

(** What the program sees, and the devices. *)
Definition input_step (e : input_event) (d : devices) : option Z * devices :=
  match e with
  | KeyPressed code => (None, put_key code d)
  | CharReceived char => (None, put_serial_char char d)
  | RegisterRead address => let '(v, _, d) := read_register address d in (Some v, d)
  end.

Record input_spec := { keys : list Z; chars : list Z }.

(** The specification: two queues of at most 63 elements, no buffer positions. *)
Definition spec_step (e : input_event) (q : input_spec) : option Z * input_spec :=
  match e with
  | KeyPressed code =>
      (None, {| keys := queue_write KEY_BUFFER_SIZE code (keys q); chars := chars q |})
  | CharReceived char =>
      (None, {| keys := keys q;
                chars := queue_write SERIAL_BUFFER_SIZE (u8 char) (chars q) |})
  | RegisterRead address =>
      if address =? REG_SERIAL_STATUS then
        (Some (if decide (chars q = []) then 1 else 3), q)
      else if address =? REG_SERIAL_INPUT then
        (Some (queue_read (chars q)).1, {| keys := keys q; chars := (queue_read (chars q)).2 |})
      else if address =? REG_KEYBOARD_STATUS then
        (Some (if decide (keys q = []) then 0 else 1), q)
      else if address =? REG_KEYBOARD_READ then
        (Some (queue_read (keys q)).1, {| keys := (queue_read (keys q)).2; chars := chars q |})
      else (None, q)
  end.

(** Only these registers belong to the two input devices. *)
Definition input_register (e : input_event) : Prop :=
  match e with
  | RegisterRead address =>
      In address [REG_SERIAL_STATUS; REG_SERIAL_INPUT; REG_KEYBOARD_STATUS; REG_KEYBOARD_READ]
  | KeyPressed code => is_u32 code
  | CharReceived _ => True
  end.

Fixpoint observe {S} (step : input_event -> S -> option Z * S) (events : list input_event) (s : S)
  : list (option Z) :=
  match events with
  | [] => []
  | e :: events' => let '(o, s) := step e s in o :: observe step events' s
  end.

Definition input_queues (d : devices) : input_spec :=
  {| keys := ring_contents KEY_BUFFER_SIZE (key_buf d);
     chars := ring_contents SERIAL_BUFFER_SIZE (serial_read_buf d) |}.

Lemma ring_empty_contents size r :
  ring_wf size r -> ring_empty r = bool_decide (ring_contents size r = []).
Proof.
  intros Hr. rewrite (ring_empty_length size r Hr), <- ring_contents_length.
  apply bool_decide_ext. by destruct (ring_contents size r).
Qed.

Lemma input_step_refines e d :
  devices_wf d -> input_register e ->
  (input_step e d).1 = (spec_step e (input_queues d)).1
  /\ input_queues (input_step e d).2 = (spec_step e (input_queues d)).2
  /\ devices_wf (input_step e d).2.
Proof.
  intros Hd He. pose proof (wf_key_buf d Hd) as Hk. pose proof (wf_serial_buf d Hd) as Hs.
  destruct e as [code|char|address].
  - split; [done|]. split; [|by apply put_key_wf].
    unfold input_queues. simpl. by rewrite ring_write_contents.
  - split; [done|]. split; [|by apply put_serial_char_wf].
    unfold input_queues. simpl. by rewrite ring_write_contents.
  - pose proof (read_register_wf address d Hd) as [_ Hd'].
    assert (Hw : devices_wf (input_step (RegisterRead address) d).2)
      by (simpl; by destruct (read_register address d) as [[v c] d']).
    destruct (ring_read_contents _ _ Hk) as [Hk1 Hk2].
    destruct (ring_read_contents _ _ Hs) as [Hs1 Hs2].
    repeat destruct He as [<-|He]; [| | | |done].
    + split; [|by split]. simpl. rewrite (ring_empty_contents _ _ Hs).
      by case_bool_decide; case_decide.
    + change (input_step _ d) with
        (let '(v, _, d') := read_serial_input d in (Some v, d')) in *.
      unfold read_serial_input in *. destruct (ring_read _ (serial_read_buf d)) as [v r].
      simpl in *. subst. split; [done|]. split; [|done]. unfold input_queues. simpl.
      by rewrite Hs2.
    + split; [|by split]. simpl. rewrite (ring_empty_contents _ _ Hk).
      by case_bool_decide; case_decide.
    + change (input_step _ d) with
        (let '(v, _, d') := read_keyboard d in (Some v, d')) in *.
      unfold read_keyboard in *. destruct (ring_read _ (key_buf d)) as [v r].
      simpl in *. subst. split; [done|]. split; [|done]. unfold input_queues. simpl.
      by rewrite Hk2.
Qed.

(** C32: refinement: whatever sequence of key presses, received characters and
    register reads, the program reads from the keyboard and UART registers exactly
    what two first-in first-out queues of 63 elements would give, a full queue
    dropping its oldest element: the ring positions never show. *)
Theorem input_devices_are_queues events d :
  devices_wf d -> Forall input_register events ->
  observe input_step events d = observe spec_step events (input_queues d).
Proof.
  intros Hd He. revert d Hd. induction He as [|e events He _ IH]; intros d Hd; [done|].
  destruct (input_step_refines e d Hd He) as (H1 & H2 & H3). simpl.
  destruct (input_step e d) as [o d'], (spec_step e (input_queues d)) as [o' q']. simpl in *.
  subst. f_equal. by apply IH.
Qed.

Lemma input_devices_are_queues_witness :
  let d := devices_init (sdmmc_init (Random.seed_random 1)) false in
  let events := [KeyPressed 0x1c; CharReceived 0x141; RegisterRead REG_SERIAL_STATUS;
    RegisterRead REG_SERIAL_INPUT; RegisterRead REG_KEYBOARD_READ] in
  devices_wf d /\ Forall input_register events /\
  observe input_step events d = [None; None; Some 3; Some 0x41; Some 0x1c] /\
  observe input_step events d = observe spec_step events (input_queues d).
Proof.
  intros d events.
  assert (Hd : devices_wf d).
  { apply devices_init_wf, sdmmc_init_wf. split; vm_decide. }
  assert (He : Forall input_register events) by (repeat constructor; vm_compute; tauto || done).
  split; [exact Hd|]. split; [exact He|]. split; [vm_compute; reflexivity|].
  exact (input_devices_are_queues events d Hd He).
Defined.
