(* ===== verification/System.v ===== *)
(** * System: the emulator put together, from main.c, device.c and fbwindow.c

    The [Host] the processor asks for is implemented by the devices of Device.v.
    On top of it: the events that come from outside (keys, serial characters, the
    interrupt pipe, the frame buffer refresh) and the run loop of [main]. *)

From S2P Require Export Interp Device.

(** ** The devices are a host *)

(** [next_random] of util.c: the generator is shared with the SD card. *)
Definition draw_random (d : devices) : Z * devices :=
  let '(r, random) := Random.next_random (random_state (sd_card d)) in
  (r, d <| sd_card ::= fun card => card <| random_state := random |> |>).

Lemma draw_random_wf d : devices_wf d -> 0 <= (draw_random d).1 /\ devices_wf (draw_random d).2.
Proof.
  intros Hd. unfold draw_random.
  pose proof (next_random_wf (random_state (sd_card d)) (wf_random _ (wf_card d Hd))) as [[Hr _] Hw].
  destruct (Random.next_random _) as [r random]. split; [done|].
  destruct Hd as [? ? ? ? Hc]. constructor; simpl; try done. destruct Hc; by constructor.
Qed.

#[export]
Instance device_host : Host devices := {
  write_device_register := write_register;
  read_device_register := read_register;
  host_next_random := draw_random;
  host_wf := devices_wf;
  write_device_wf := fun a v d _ Hd => write_register_wf a v d Hd;
  read_device_wf := read_register_wf;
  next_random_host_wf := draw_random_wf
}.

(** ** Events from outside *)

Section Events.

Implicit Types m : machine devices.

Definition enqueue_key (scan_code : Z) m : machine devices :=
  raise_interrupt INT_PS2_RX (m <| host ::= put_key scan_code |>).

Definition enqueue_serial_char (scan_code : Z) m : machine devices :=
  raise_interrupt INT_UART_RX (m <| host ::= put_serial_char scan_code |>).

(** [interrupt_id] is a [char], signed: a byte of 0x80 or more passes the test
    [interrupt_id > 16], and a shift by a negative amount is undefined. *)
Definition pipe_interrupt (interrupt_id : Z) m : result (machine devices) :=
  if 16 <? interrupt_id then Done m
  else if interrupt_id <? 0 then Fault OutOfBounds
  else Done (raise_interrupt (Z.shiftl 1 interrupt_id) m).

(** What the host has ready: a byte in the interrupt pipe, characters typed.  An
    invalid interrupt makes the function return before the characters are read. *)
Record host_input := { pipe_byte : option Z; typed : list Z }.

Definition poll_inputs (input : host_input) m : result (machine devices) :=
  let read_typed m := Done (fold_left (fun m c => enqueue_serial_char c m) (typed input) m) in
  match pipe_byte input with
  | None => read_typed m
  | Some byte =>
      if 16 <? s8 byte then Done m
      else m <-- pipe_interrupt (s8 byte) m;; read_typed m
  end.

(** The pixels go to SDL; the program sees an edge of the interrupt line. *)
Definition update_frame_buffer (fb_width fb_height : Z) m : result (machine devices) :=
  if negb (fb_enabled (host m)) then Done m
  else
    _ <-- get_memory_region_ptr (proc m) (fb_address (host m)) (u32 (fb_width * fb_height * 4));;
    Done (on_proc (clear_interrupt INT_VGA_FRAME) (raise_interrupt INT_VGA_FRAME m)).

End Events.

(** ** Start and run *)

(** The debugger and the cosimulator name threads by number; a number past the last
    thread makes the code read past [proc->cores]. *)
Definition known_thread (p : processor) (thread_id : Z) : bool :=
  (0 <=? thread_id) && (thread_id <? total_threads p).

Definition step_thread (thread_id : Z) (m : machine devices) : result (machine devices) :=
  if known_thread (proc m) thread_id then dbg_single_step thread_id m else Fault OutOfBounds.

Definition load_hex_file (file : option (list Z)) (p : processor)
  : option (result (Z * processor)) :=
  match Hex.read_hex_file file (memory p) (memory_size p) with
  | None => None
  | Some r => Some ('(status, mem) <-- r;; Done (status, p <| memory := mem |>))
  end.

(** [fwrite] of [MIN(memory_size, length)] bytes from [base_address] on. *)
Fixpoint read_bytes (address : Z) (count : nat) (mem : list Z) : result (list Z) :=
  match count with
  | O => Done []
  | S count' =>
      byte <-- load8 address mem;;
      bytes <-- read_bytes (address + 1) count' mem;;
      Done (byte :: bytes)
  end.

Definition write_memory_to_file (base_address length : Z) (p : processor) : result (list Z) :=
  read_bytes base_address (Z.to_nat (Z.min (memory_size p) length)) (memory p).

(** The loop of [MODE_NORMAL] without a window, once per element of [inputs]: the
    list ends where the observation does, or the loop ends by itself ([false]). *)
Fixpoint run_normal (batch : nat) (inputs : list host_input) (m : machine devices)
  : result (bool * machine devices) :=
  match inputs with
  | [] => Done (true, m)
  | input :: inputs' =>
      '(continue, m) <-- execute_instructions batch m;;
      if negb continue then Done (false, m)
      else m <-- poll_inputs input m;; run_normal batch inputs' m
  end.
