(* ===== verification/CosimRun.v ===== *)
(** * CosimRun: the driver of tools/emulator/cosimulation.c

    [run_cosimulation] reads the side effects the Verilog model announces, one per
    line, and steps the emulator until it produces the same one.  A line is given
    here as [sscanf] splits it; what the code does with the fields is modelled. *)

From S2P Require Export System.

Inductive cosim_line :=
| LineStore (pc thread_id address write_mask : Z) (value_str : list Z)
| LineVector (pc thread_id reg write_mask : Z) (value_str : list Z)
| LineScalar (pc thread_id reg scalar_value : Z)
| LineHalted
| LineInterrupt (thread_id pc : Z)
| LineOther.

Section CosimRun.

Implicit Types m : machine devices.

(** [expected_...] before the emulator is run. *)
Definition expect (e : event) (pc thread_id reg_or_address mask : Z) (values : list Z)
  (c : cosim_state) : cosim_state :=
  let c := c <| expected_event := e |> <| expected_pc := pc |>
             <| expected_thread := thread_id |> in
  match e with
  | EVENT_MEM_STORE =>
      c <| expected_address := reg_or_address |> <| expected_mask := mask |>
        <| expected_values := values |>
  | EVENT_VECTOR_WRITEBACK =>
      c <| expected_register := reg_or_address |> <| expected_mask := mask |>
        <| expected_values := values |>
  | EVENT_SCALAR_WRITEBACK =>
      c <| expected_register := reg_or_address |>
        <| expected_values ::= <[0%nat := values !!! 0%nat]> |>
  | EVENT_NONE => c
  end.

(** The loop that single steps until an event: at most [count] instructions. *)
Fixpoint step_until_event (count : nat) (thread_id : Z) m : result (machine devices) :=
  match count with
  | O => Done m
  | S count' =>
      if cosim_event_triggered (cosim m) then Done m
      else m <-- step_thread thread_id m;; step_until_event count' thread_id m
  end.

Definition EVENT_LIMIT : nat := 500.

Definition run_until_next_event (thread_id : Z) m : result (bool * machine devices) :=
  let m := m <| cosim ::= fun c => c <| cosim_mismatch := false |>
                                     <| cosim_event_triggered := false |> |> in
  m <-- step_until_event EVENT_LIMIT thread_id m;;
  Done (cosim_event_triggered (cosim m) && negb (cosim_mismatch (cosim m)), m).

(** [None]: read the next line; [Some] is the value returned. *)
Definition check_event (thread_id : Z) m : result (option Z * machine devices) :=
  '(ok, m) <-- run_until_next_event thread_id m;;
  Done (if ok then None else Some (-1), m).

Definition cosim_step (line : cosim_line) m : result (option Z * machine devices) :=
  match line with
  | LineStore pc thread_id address write_mask value_str =>
      match Hex.parse_hex_vector value_str true with
      | None => Done (Some (-1), m)
      | Some values =>
          check_event thread_id
            (m <| cosim ::= expect EVENT_MEM_STORE pc thread_id address write_mask values |>)
      end
  | LineVector pc thread_id reg write_mask value_str =>
      match Hex.parse_hex_vector value_str false with
      | None => Done (Some (-1), m)
      | Some values =>
          check_event thread_id
            (m <| cosim ::= expect EVENT_VECTOR_WRITEBACK pc thread_id reg write_mask values |>)
      end
  | LineScalar pc thread_id reg scalar_value =>
      check_event thread_id
        (m <| cosim ::= expect EVENT_SCALAR_WRITEBACK pc thread_id reg 0 [scalar_value] |>)
  | LineInterrupt thread_id pc =>
      if known_thread (proc m) thread_id then Done (None, cosim_interrupt thread_id pc m)
      else Fault OutOfBounds
  | LineHalted | LineOther => Done (None, m)
  end.

(** The lines up to [***HALTED***]; [None] when that line was read. *)
Fixpoint cosim_lines (lines : list cosim_line) m : result (option Z * machine devices) :=
  match lines with
  | [] => Done (Some (-1), m)
  | LineHalted :: _ => Done (None, m)
  | line :: lines' =>
      '(stop, m) <-- cosim_step line m;;
      match stop with
      | Some status => Done (Some status, m)
      | None => cosim_lines lines' m
      end
  end.

(** The model has halted: the emulator must halt too, without another event.
    [None] when [fuel] instructions were not enough. *)
Fixpoint drain (fuel : nat) m : result (option Z * machine devices) :=
  if is_proc_halted (proc m) then Done (Some 0, m)
  else
    match fuel with
    | O => Done (None, m)
    | S fuel' =>
        '(_, m) <-- execute_instructions 1 m;;
        if cosim_mismatch (cosim m) then Done (Some (-1), m) else drain fuel' m
    end.

Definition run_cosimulation (fuel : nat) (lines : list cosim_line) m
  : result (option Z * machine devices) :=
  let m := on_proc enable_cosimulation m in
  '(stop, m) <-- cosim_lines lines m;;
  match stop with
  | Some status => Done (Some status, m)
  | None =>
      drain fuel (m <| cosim ::= fun c => c <| cosim_event_triggered := false |>
                                            <| expected_event := EVENT_NONE |> |>)
  end.

End CosimRun.
