(* ===== verification/CString.v ===== *)
(** * CString: the C strings the debugger works on

    A character is a [Z] from 0 to 255, a C string the list of its characters up to
    the NUL.  The functions of <string.h>, <stdio.h> and <stdlib.h> that
    remote-gdb.c and main.c use, in the C locale. *)

From Stdlib Require Import Ascii String.
From S2P Require Export Util.

Fixpoint chars (s : string) : list Z :=
  match s with
  | EmptyString => []
  | String c rest => Z.of_N (N_of_ascii c) :: chars rest
  end.

Definition char_of (c : ascii) : Z := Z.of_N (N_of_ascii c).

(** The string at [offset] of a [char] array: a fault when it is not terminated
    inside the array. *)
Fixpoint until_nul (buffer : list Z) : result (list Z) :=
  match buffer with
  | [] => Fault OutOfBounds
  | c :: rest => if c =? 0 then Done [] else s <-- until_nul rest;; Done (c :: s)
  end.

Definition string_at (offset : nat) (buffer : list Z) : result (list Z) :=
  until_nul (drop offset buffer).

(** [strcmp(a, b) == 0] *)
Definition strcmp_equal (a b : list Z) : bool := bool_decide (a = b).

(** [memcmp(buffer + offset, text, length) == 0] on a literal. *)
Definition memcmp_equal (offset : nat) (buffer text : list Z) : bool :=
  bool_decide (take (length text) (drop offset buffer) = text).

(** [strchr]: the offset of the first occurrence. *)
Fixpoint strchr (c : Z) (s : list Z) : option nat :=
  match s with
  | [] => None
  | x :: rest => if x =? c then Some O else S <$> strchr c rest
  end.

(** *** [strtoul] *)

Definition digit_of (base ch : Z) : option Z :=
  let v := Hex.hex_digit_val ch in if v <? base then Some v else None.

(** The digits at the start of [s]: the value, clamped to [ULONG_MAX] at the end,
    and how many there are. *)
Fixpoint scan_digits (base : Z) (s : list Z) (acc : Z) (count : nat) : Z * nat :=
  match s with
  | [] => (acc, count)
  | c :: rest =>
      match digit_of base c with
      | Some d => scan_digits base rest (acc * base + d) (S count)
      | None => (acc, count)
      end
  end.

Fixpoint skip_spaces (s : list Z) : nat :=
  match s with
  | [] => O
  | c :: rest => if Hex.isspace c then S (skip_spaces rest) else O
  end.

Definition ULONG_MAX : Z := 2 ^ 64 - 1.

(** An optional "0x" counts only in front of a digit. *)
Definition prefix_length (base : Z) (s : list Z) : nat :=
  match s with
  | z :: x :: d :: _ =>
      if (base =? 16) && (z =? 48) && ((x =? 120) || (x =? 88))
         && bool_decide (is_Some (digit_of 16 d)) then 2%nat else O
  | _ => O
  end.

(** The value and the number of characters consumed ([endptr]); no digits, nothing
    consumed.  A minus sign negates in [unsigned long]. *)
Definition strtoul (base : Z) (s : list Z) : Z * nat :=
  let spaces := skip_spaces s in
  let '(negative, sign) :=
    match drop spaces s with
    | c :: _ => if c =? 45 then (true, 1%nat) else if c =? 43 then (false, 1%nat) else (false, O)
    | [] => (false, O)
    end in
  let start := (spaces + sign)%nat in
  let start := (start + prefix_length base (drop start s))%nat in
  let '(value, count) := scan_digits base (drop start s) 0 O in
  match count with
  | O => (0, O)
  | _ =>
      (if ULONG_MAX <? value then ULONG_MAX
       else if negative then u64 (- value) else value, (start + count)%nat)
  end.

(** [(uint32_t) strtoul(s, NULL, 16)] *)
Definition parse_hex32 (s : list Z) : Z := u32 (strtoul 16 s).1.

(** main.c: a number of an option, in hexadecimal after "0x". *)
Definition parse_num_arg (argval : list Z) : Z :=
  match argval with
  | 48 :: 120 :: rest => u32 (strtoul 16 rest).1
  | _ => u32 (strtoul 10 argval).1
  end.

(** *** [printf] *)

Definition hex_digits (v : Z) : nat := if v =? 0 then 1%nat else Z.to_nat (Z.log2 v / 4 + 1).

(** ["%0<width>x"] *)
Definition format_hex (width : nat) (v : Z) : list Z := print_hex (Nat.max width (hex_digits v)) v.

Fixpoint decimal_digits (fuel : nat) (v : Z) (rest : list Z) : list Z :=
  match fuel with
  | O => rest
  | S fuel' =>
      let rest := (48 + v mod 10) :: rest in
      if v / 10 =? 0 then rest else decimal_digits fuel' (v / 10) rest
  end.

(** ["%u"]: a 32-bit number has at most ten digits. *)
Definition format_unsigned (v : Z) : list Z := decimal_digits 10 v [].
