(* ===== verification/Gdb.v ===== *)
(** * Gdb: the debugger protocol of tools/emulator/remote-gdb.c

    One connection: packets are read from the bytes the client sends, each command
    acts on the machine and answers with a packet.  The two [char] arrays keep
    what earlier commands left in them; an index outside is a fault.  Socket
    set-up is left out, and [write] succeeds. *)

From Stdlib Require Import Ascii String.
From S2P Require Export System CString.

Definition TRAP_SIGNAL : Z := 5.
Definition REQUEST_SIZE : nat := 256.
Definition RESPONSE_SIZE : nat := 1024.
Definition GENERIC_REGS : list string := ["fp"; "sp"; "ra"]%string.

(** The locals of [remote_gdb_main_loop] and [last_signals]; [sent] is what was
    written to the socket. *)
Record session := {
  request : list Z;
  response : list Z;
  last_signals : list Z;
  current_thread : Z;
  no_ack_mode : bool;
  sent : list Z
}.

#[export]
Instance session_fields : Fields session := fun g =>
  Build_session (request g) (response g) (last_signals g) (current_thread g) (no_ack_mode g)
    (sent g).

(** A new connection; the arrays start with whatever was on the stack. *)
Definition start_session (request response : list Z) (p : processor) : session :=
  {| request := request; response := response;
     last_signals := replicate (Z.to_nat (get_total_threads p)) 0;
     current_thread := 0; no_ack_mode := false; sent := [] |}.

(** ** Packets *)

(** Everything up to and including [stop] is consumed; [None] is the end of the
    connection. *)
Fixpoint read_until (stop : Z) (input : list Z) : option (list Z * list Z) :=
  match input with
  | [] => None
  | ch :: input' =>
      if ch =? stop then Some ([], input')
      else '(body, rest) ← read_until stop input'; Some (ch :: body, rest)
  end.

(** [request[packet_len] = 0] is out of bounds when the packet fills the array. *)
Definition store_request (body : list Z) (g : session) : result session :=
  let kept := take REQUEST_SIZE body in
  if (length kept <? REQUEST_SIZE)%nat then
    Done (g <| request ::= fun old => kept ++ 0 :: drop (S (length kept)) old |>)
  else Fault OutOfBounds.

(** [None]: [read_packet] returned -1.  The two checksum bytes are discarded. *)
Definition read_packet (input : list Z) (g : session) : option (result session * list Z) :=
  '(_, input) ← read_until (char_of "$") input;
  '(body, input) ← read_until (char_of "#") input;
  Some (store_request body g, drop 2 input).

Definition checksum (text : list Z) : Z := fold_left (fun sum c => u8 (sum + c)) text 0.

(** The text between the dollar sign and the hash, and its checksum. *)
Definition packet (text : list Z) : list Z :=
  [char_of "$"] ++ text ++ [char_of "#"] ++ format_hex 2 (checksum text).

Definition send_response_packet (text : list Z) (g : session) : session :=
  g <| sent ::= fun s => s ++ packet text |>.

(** [vsnprintf] into 256 bytes, with a size of 255. *)
Definition send_formatted_response (text : list Z) (g : session) : session :=
  send_response_packet (take 254 text) g.

Definition ok : list Z := chars "OK".

(** [strcpy] or [sprintf] at an offset of the response array. *)
Definition write_string (offset : nat) (text buffer : list Z) : result (list Z) :=
  if (offset + length text <? length buffer)%nat then
    Done (take offset buffer ++ text ++ 0 :: drop (S (offset + length text)) buffer)
  else Fault OutOfBounds.

(** [send_response_packet(response)] *)
Definition send_response (g : session) : result session :=
  text <-- string_at 0 (response g);; Done (send_response_packet text g).

Definition print_response (offset : nat) (text : list Z) (g : session) : result session :=
  buffer <-- write_string offset text (response g);; Done (g <| response := buffer |>).

(** ** Commands *)

Section Commands.

Implicit Types m : machine devices.

(** [batch] is [screen_refresh_rate].  One element of [polls] per pass: the list
    ends when the client sends data. *)
Fixpoint run_until_interrupt (batch : nat) (window : option (Z * Z)) (polls : list host_input) m
  : result (machine devices) :=
  match polls with
  | [] => Done m
  | input :: polls' =>
      '(continue, m) <-- execute_instructions batch m;;
      if negb continue then Done m
      else
        m <-- match window with
              | Some (fb_width, fb_height) =>
                  m <-- update_frame_buffer fb_width fb_height m;; poll_inputs input m
              | None => Done m
              end;;
        run_until_interrupt batch window polls' m
  end.

Definition decode_nibble (c : Z) : result Z :=
  let v := Hex.hex_digit_val c in
  if v =? Hex.UINT32_MAX then Fault AssertFailed else Done v.

Definition decode_hex_byte (offset : nat) (buffer : list Z) : result Z :=
  match drop offset buffer with
  | high :: low :: _ =>
      h <-- decode_nibble high;; l <-- decode_nibble low;;
      Done (u8 (Z.lor (Z.shiftl h 4) l))
  | _ => Fault OutOfBounds
  end.

(** [last_signals[current_thread] = signal] and the stop reply. *)
Definition stop_reply (g : session) : result session :=
  match last_signals g !! Z.to_nat (current_thread g) with
  | None => Fault OutOfBounds
  | Some signal => Done (send_formatted_response (chars "S" ++ format_hex 2 signal) g)
  end.

Definition trapped (g : session) : result session :=
  match last_signals g !! Z.to_nat (current_thread g) with
  | None => Fault OutOfBounds
  | Some _ =>
      stop_reply (g <| last_signals ::= <[Z.to_nat (current_thread g) := TRAP_SIGNAL]> |>)
  end.

(** 'H': thread numbers start at 1. *)
Definition pick_thread (g : session) m : result session :=
  s <-- string_at 2 (request g);;
  let thid := parse_hex32 s in
  if (get_total_threads (proc m) <? thid) || (thid =? 0) then Done (send_response_packet [] g)
  else Done (send_response_packet ok (g <| current_thread := thid - 1 |>)).

Fixpoint print_memory (start : Z) (offset count : nat) (g : session) m : result session :=
  match count with
  | O => Done g
  | S count' =>
      byte <-- dbg_read_memory_byte (u32 (start + Z.of_nat offset)) m;;
      g <-- print_response (2 * offset) (format_hex 2 byte) g;;
      print_memory start (S offset) count' g m
  end.

Fixpoint parse_memory (start : Z) (data offset count : nat) (g : session) m
  : result (machine devices) :=
  match count with
  | O => Done m
  | S count' =>
      byte <-- decode_hex_byte (data + 2 * offset) (request g);;
      m <-- dbg_write_memory_byte (u32 (start + Z.of_nat offset)) byte m;;
      parse_memory start data (S offset) count' g m
  end.

(** 'm' and 'M': start, a separator, length, a separator, data. *)
Definition memory_operands (g : session) : result (Z * Z * nat) :=
  s <-- string_at 1 (request g);;
  let '(start, used) := strtoul 16 s in
  let len_ptr := (1 + used)%nat in
  s <-- string_at (S len_ptr) (request g);;
  let '(length, used) := strtoul 16 s in
  Done (u32 start, u32 length, (S len_ptr + used)%nat).

Definition read_memory (g : session) m : result session :=
  '(start, length, _) <-- memory_operands g;;
  if Z.of_nat RESPONSE_SIZE / 2 <? length then Fault AssertFailed
  else g <-- print_memory start 0 (Z.to_nat length) g m;; send_response g.

Definition write_memory (g : session) m : result (session * machine devices) :=
  '(start, length, data_ptr) <-- memory_operands g;;
  m <-- parse_memory start (S data_ptr) 0 (Z.to_nat length) g m;;
  Done (send_response_packet ok g, m).

Definition hex_register (value : Z) : list Z := format_hex 8 (endian_swap32 value).

Fixpoint print_lanes (lane : nat) (values : list Z) (g : session) : result session :=
  match values with
  | [] => Done g
  | value :: values' =>
      g <-- print_response (lane * 8) (hex_register value) g;; print_lanes (S lane) values' g
  end.

(** 'p' and 'g' *)
Definition read_register_command (g : session) m : result session :=
  s <-- string_at 1 (request g);;
  let reg_id := parse_hex32 s in
  if reg_id <? 32 then
    Done (send_formatted_response
            (hex_register (dbg_get_scalar_reg (current_thread g) (Z.to_nat reg_id) m)) g)
  else if reg_id <? 64 then
    g <-- print_lanes 0 (dbg_get_vector_reg (current_thread g) (Z.to_nat (reg_id - 32)) m) g;;
    send_response g
  else if reg_id =? 64 then
    Done (send_formatted_response (hex_register (dbg_get_pc (current_thread g) m)) g)
  else Done (send_response_packet [] g).

(** 'G' *)
Definition write_register_command (g : session) m : result (session * machine devices) :=
  s <-- string_at 1 (request g);;
  let '(reg_id, used) := strtoul 16 s in
  let reg_id := u32 reg_id in
  let data_ptr := (1 + used)%nat in
  if reg_id <? 32 then
    s <-- string_at (S data_ptr) (request g);;
    Done (send_response_packet ok g,
          dbg_set_scalar_reg (current_thread g) (Z.to_nat reg_id)
            (endian_swap32 (parse_hex32 s)) m)
  else if reg_id <? 64 then
    s <-- string_at (S data_ptr) (request g);;
    match Hex.parse_hex_vector s true with
    | None => Done (send_response_packet [] g, m)
    | Some reg_value =>
        Done (send_response_packet ok g,
              dbg_set_vector_reg (current_thread g) (Z.to_nat (reg_id - 32)) reg_value m)
    end
  else Done (send_response_packet [] g, m).

(** [snprintf] truncates to the room left. *)
Fixpoint thread_list (i : Z) (count : nat) (offset : nat) (g : session) : result session :=
  match count with
  | O => Done g
  | S count' =>
      if (offset <? RESPONSE_SIZE)%nat then
        let text := chars "," ++ format_unsigned i in
        g <-- print_response offset (take (RESPONSE_SIZE - offset - 1) text) g;;
        thread_list (i + 1) count' (offset + length text) g
      else Done g
  end.

Definition thread_info (g : session) m : result session :=
  g <-- print_response 0 (chars "m1") g;;
  g <-- thread_list 2 (Z.to_nat (get_total_threads (proc m) - 1)) 2 g;;
  send_response g.

Definition scalar_register_info (reg_id : Z) : list Z :=
  let n := format_unsigned reg_id in
  chars "name:s" ++ n
  ++ chars ";bitsize:32;encoding:uint;format:hex;set:General Purpose Scalar Registers;gcc:"
  ++ n ++ chars ";dwarf:" ++ n ++ chars ";".

Definition vector_register_info (reg_id : Z) : list Z :=
  let n := format_unsigned reg_id in
  chars "name:v" ++ format_unsigned (reg_id - 32)
  ++ chars ";bitsize:512;encoding:uint;format:vector-uint32;"
  ++ chars "set:General Purpose Vector Registers;gcc:" ++ n ++ chars ";dwarf:" ++ n ++ chars ";".

Definition register_info (g : session) : result session :=
  s <-- string_at 13 (request g);;
  let reg_id := parse_hex32 s in
  if (reg_id <? 32) || (reg_id =? 64) then
    let text := scalar_register_info reg_id in
    g <-- print_response 0 text g;;
    g <-- (if reg_id =? 64 then print_response (length text) (chars "generic:pc;") g
           else if 29 <=? reg_id then
             match GENERIC_REGS !! Z.to_nat (reg_id - 29) with
             | Some name => print_response (length text) (chars "generic:" ++ chars name ++ chars ";") g
             | None => Fault OutOfBounds
             end
           else Done g);;
    send_response g
  else if reg_id <? 64 then Done (send_formatted_response (vector_register_info reg_id) g)
  else Done (send_response_packet [] g).

(** 'q' *)
Definition query (g : session) m : result session :=
  s <-- string_at 1 (request g);;
  let reply text := Done (send_response_packet (chars text) g) in
  if strcmp_equal s (chars "LaunchSuccess") then reply "OK"%string
  else if strcmp_equal s (chars "HostInfo") then
    reply "triple:nyuzi;endian:little;ptrsize:4"%string
  else if strcmp_equal s (chars "ProcessInfo") then reply "pid:1"%string
  else if strcmp_equal s (chars "fThreadInfo") then thread_info g m
  else if strcmp_equal s (chars "sThreadInfo") then reply "l"%string
  else if memcmp_equal 1 (request g) (chars "ThreadStopInfo") then stop_reply g
  else if memcmp_equal 1 (request g) (chars "RegisterInfo") then register_info g
  else if strcmp_equal s (chars "C") then
    Done (send_formatted_response (chars "QC" ++ format_hex 2 (u32 (current_thread g + 1))) g)
  else Done (send_response_packet [] g).

(** 'Q' *)
Definition set_value (g : session) : result session :=
  s <-- string_at 1 (request g);;
  if strcmp_equal s (chars "StartNoAckMode") then
    Done (send_response_packet ok (g <| no_ack_mode := true |>))
  else Done (send_response_packet [] g).

(** 's' and 'S' *)
Definition single_step (g : session) m : result (session * machine devices) :=
  m <-- step_thread (current_thread g) m;; g <-- trapped g;; Done (g, m).

(** 'v': a step names a thread, which is not checked. *)
Definition v_command (batch : nat) (window : option (Z * Z)) (polls : list host_input)
  (g : session) m : result (session * machine devices) :=
  s <-- string_at 0 (request g);;
  if strcmp_equal s (chars "vCont?") then
    Done (send_response_packet (chars "vCont;C;c;S;s") g, m)
  else if memcmp_equal 0 (request g) (chars "vCont;") then
    match strchr (char_of "s") s with
    | Some sreq =>
        s <-- string_at (sreq + 2) (request g);;
        single_step (g <| current_thread := u32 (parse_hex32 s - 1) |>) m
    | None => m <-- run_until_interrupt batch window polls m;; g <-- trapped g;; Done (g, m)
    end
  else Done (send_response_packet [] g, m).

(** 'z' and 'Z': the address follows the breakpoint type. *)
Definition breakpoint_command
  (change : Z -> processor -> result (Z * processor)) (g : session) m
  : result (session * machine devices) :=
  s <-- string_at 3 (request g);;
  '(status, p) <-- change (parse_hex32 s) (proc m);;
  Done (send_response_packet (if status <? 0 then [] else ok) g, m <| proc := p |>).

(** ** The command loop *)

Definition no_machine (c : result session) m : result (session * machine devices) :=
  g <-- c;; Done (g, m).

(** One command, after the acknowledgement; [None] is the kill command. *)
Definition execute_command (batch : nat) (window : option (Z * Z)) (polls : list host_input)
  (g : session) m : result (option (session * machine devices)) :=
  let continuing c := r <-- c;; Done (Some r) in
  let command c := (request g !!! 0%nat =? char_of c) in
  if command "A"%char then continuing (Done (send_response_packet ok g, m))
  else if command "c"%char || command "C"%char then
    continuing (m <-- run_until_interrupt batch window polls m;; g <-- trapped g;; Done (g, m))
  else if command "H"%char then continuing (no_machine (pick_thread g m) m)
  else if command "k"%char then Done None
  else if command "m"%char then continuing (no_machine (read_memory g m) m)
  else if command "M"%char then continuing (write_memory g m)
  else if command "p"%char || command "g"%char then continuing (no_machine (read_register_command g m) m)
  else if command "G"%char then continuing (write_register_command g m)
  else if command "q"%char then continuing (no_machine (query g m) m)
  else if command "Q"%char then continuing (no_machine (set_value g) m)
  else if command "s"%char || command "S"%char then continuing (single_step g m)
  else if command "v"%char then continuing (v_command batch window polls g m)
  else if command "z"%char then continuing (breakpoint_command dbg_clear_breakpoint g m)
  else if command "Z"%char then continuing (breakpoint_command dbg_set_breakpoint g m)
  else if command "?"%char then continuing (no_machine (stop_reply g) m)
  else continuing (Done (send_response_packet [] g, m)).

(** '+' is sent until the client turns acknowledgements off. *)
Definition acknowledge (g : session) : session :=
  if no_ack_mode g then g else g <| sent ::= fun s => s ++ [char_of "+"] |>.

(** A connection: [polls] gives, for each packet, what the host had ready while it
    ran.  Ends with the client's data or the kill command. *)
Fixpoint serve (batch : nat) (window : option (Z * Z)) (polls : list (list host_input))
  (input : list Z) (g : session) m : result (session * machine devices) :=
  match polls with
  | [] => Done (g, m)
  | p :: polls' =>
      match read_packet input g with
      | None => Done (g, m)
      | Some (received, input) =>
          g <-- received;;
          let g := acknowledge g in
          r <-- execute_command batch window p g m;;
          match r with
          | None => Done (g, m)
          | Some (g, m) => serve batch window polls' input g m
          end
      end
  end.

End Commands.
