(* ===== verification/Invariant.v ===== *)
(** * Invariant: the well-formed states of processor.c

    Every field is in the range of its C type and every array has its C length.
    The lemmas show that each operation of the processor keeps the invariant, from
    the register writes up to the handlers of every instruction format; Safety.v
    concludes for whole instructions and runs. *)

From S2P Require Export Interp.

(** ** Well-formed structures *)

Definition vector_wf (v : list Z) : Prop := length v = NUM_VECTOR_LANES /\ Forall is_u32 v.

Record trap_state_wf (s : trap_state) : Prop := {
  wf_trap_cause : is_u32 (trap_cause s);
  wf_saved_pc : is_u32 (saved_pc s);
  wf_access_address : is_u32 (access_address s);
  wf_scratchpad0 : is_u32 (scratchpad0 s);
  wf_scratchpad1 : is_u32 (scratchpad1 s);
  wf_saved_subcycle : is_u32 (saved_subcycle s);
  wf_syscall_index : is_u32 (syscall_index s)
}.

Record thread_wf (th : thread) : Prop := {
  wf_id : is_u32 (id th);
  wf_sync : is_u32 (last_sync_load_addr th);
  wf_pc : is_u32 (pc th);
  wf_asid : is_u32 (asid th);
  wf_page_dir : is_u32 (page_dir th);
  wf_interrupt_mask : is_u32 (interrupt_mask th);
  wf_latched : is_u32 (latched_interrupts th);
  wf_subcycle : is_u32 (subcycle th);
  wf_scalars : length (scalar_reg th) = NUM_REGISTERS /\ Forall is_u32 (scalar_reg th);
  wf_vectors : length (vector_reg th) = NUM_REGISTERS /\ Forall vector_wf (vector_reg th);
  wf_saved_0 : trap_state_wf (saved_trap_state_0 th);
  wf_saved_1 : trap_state_wf (saved_trap_state_1 th)
}.

Record tlb_entry_wf (e : tlb_entry) : Prop := {
  wf_entry_asid : is_u32 (entry_asid e);
  wf_virtual_address : is_u32 (virtual_address e);
  wf_phys : is_u32 (phys_addr_and_flags e)
}.

Definition tlb_wf (tlb : list tlb_entry) : Prop :=
  length tlb = Z.to_nat (TLB_SETS * TLB_WAYS) /\ Forall tlb_entry_wf tlb.

(** A core of [tpc] threads. *)
Record core_wf (tpc : Z) (c : core) : Prop := {
  wf_threads : Z.of_nat (length (threads c)) = tpc /\ Forall thread_wf (threads c);
  wf_trap_handler : is_u32 (trap_handler_pc c);
  wf_tlb_miss_handler : is_u32 (tlb_miss_handler_pc c);
  wf_level : is_u32 (is_level_triggered c);
  wf_itlb : tlb_wf (itlb c);
  wf_next_itlb_way : 0 <= next_itlb_way c < TLB_WAYS;
  wf_dtlb : tlb_wf (dtlb c);
  wf_next_dtlb_way : 0 <= next_dtlb_way c < TLB_WAYS
}.

(** [dbg_set_breakpoint] never saves [BREAKPOINT_INST] as an original instruction. *)
Record breakpoint_wf (b : breakpoint) : Prop := {
  wf_original : is_u32 (original_instruction b);
  wf_original_plain : original_instruction b <> BREAKPOINT_INST
}.

(** Memory is whole cache lines below the device registers. *)
Record memory_wf (mem : list Z) (size : Z) : Prop := {
  wf_words : Forall is_u32 mem;
  wf_length : Z.of_nat (length mem) * 4 = size;
  wf_lines : (CACHE_LINE_LENGTH | size);
  wf_below_devices : size <= DEVICE_BASE_ADDRESS
}.

(** A processor of [nc] cores of [tpc] threads. *)
Record processor_wf (nc tpc : Z) (p : processor) : Prop := {
  wf_topology : 1 <= tpc /\ 1 <= nc /\ tpc * nc <= 32;
  wf_num_cores : num_cores p = nc;
  wf_threads_per_core : threads_per_core p = tpc;
  wf_total_threads : total_threads p = tpc * nc;
  wf_enable_mask : 0 <= thread_enable_mask p < 2 ^ (tpc * nc);
  wf_cores : Z.of_nat (length (cores p)) = nc /\ Forall (core_wf tpc) (cores p);
  wf_breakpoints : Forall breakpoint_wf (breakpoints p);
  wf_memory : memory_wf (memory p) (memory_size p);
  wf_interrupt_levels : is_u32 (interrupt_levels p);
  wf_timer : is_u32 (current_timer_count p)
}.

(** ** Values are 32-bit words *)

Lemma is_u32_total (l : list Z) i : Forall is_u32 l -> is_u32 (l !!! i).
Proof.
  intros Hl. rewrite list_lookup_total_alt. destruct (l !! i) as [v|] eqn:E; simpl.
  - by eapply Forall_lookup in E.
  - by split.
Qed.
#[export] Hint Resolve is_u32_total : words.

Lemma is_u32_flag_if b flag : is_u32 flag -> is_u32 (flag_if b flag).
Proof. by destruct b. Qed.
#[export] Hint Resolve is_u32_flag_if : words.

Lemma is_u32_enum_value_trap (type : trap_type) : is_u32 (enum_value type).
Proof. by destruct type. Qed.
#[export] Hint Resolve is_u32_enum_value_trap : words.
Lemma is_u32_trap_type_value type : is_u32 (trap_type_value type).
Proof. by destruct type. Qed.
#[export] Hint Resolve is_u32_trap_type_value : words.

Lemma Forall_alter_one {A} (P : A -> Prop) f i l :
  Forall P l -> (forall x, l !! i = Some x -> P x -> P (f x)) -> Forall P (alter f i l).
Proof.
  intros Hl Hf. apply Forall_lookup. intros j y Hj.
  destruct (decide (i = j)) as [->|Hne].
  - rewrite list_lookup_alter_eq in Hj. destruct (l !! j) as [x|] eqn:Hx; [|done].
    injection Hj as <-. apply Hf; [done|]. by eapply Forall_lookup in Hx.
  - rewrite list_lookup_alter_ne in Hj by done. by eapply Forall_lookup in Hj.
Qed.

Ltac rebuild H := destruct H; constructor; simpl; try done.

(** ** Memory accesses *)

Lemma is_u32_ldiff a b : is_u32 a -> is_u32 (Z.ldiff a b).
Proof.
  unfold is_u32. rewrite !is_unsigned_bits by lia. intros [Ha Hb]. split.
  - apply Z.ldiff_nonneg. by left.
  - intros i Hi. by rewrite Z.ldiff_spec, Hb.
Qed.

Lemma is_u32_replace_bits word low bits value :
  is_u32 word -> 0 <= low -> 0 <= bits -> low + bits <= 32 ->
  is_u32 (replace_bits word low bits value).
Proof.
  intros Hw Hl Hb Hlb. unfold replace_bits. apply is_u32_lor; [by apply is_u32_ldiff|].
  pose proof (Z.mod_pos_bound (value) (2 ^ bits) ltac:(apply Z.pow_pos_nonneg; lia)).
  rewrite Z.shiftl_mul_pow2 by done.
  assert (2 ^ bits * 2 ^ low = 2 ^ (low + bits)) by (rewrite Z.pow_add_r by lia; lia).
  assert (2 ^ (low + bits) <= 2 ^ 32) by (apply Z.pow_le_mono_r; lia).
  assert (0 < 2 ^ low) by (apply Z.pow_pos_nonneg; lia).
  split; nia.
Qed.

(** An element of 8, 16 or 32 bits. *)
Definition element_width (bits : Z) : Prop := In bits [8; 16; 32].

Ltac element_width := unfold element_width; simpl; tauto.

Lemma element_width_slot bits i :
  element_width bits -> 0 <= i mod (32 / bits) * bits /\ i mod (32 / bits) * bits + bits <= 32.
Proof.
  intros [<-|[<-|[<-|[]]]].
  - change (32 / 8) with 4. pose proof (Z.mod_pos_bound i 4 eq_refl). lia.
  - change (32 / 16) with 2. pose proof (Z.mod_pos_bound i 2 eq_refl). lia.
  - change (32 / 32) with 1. rewrite Z.mod_1_r. lia.
Qed.

Lemma element_width_positive bits : element_width bits -> 0 < bits <= 32.
Proof. intros [<-|[<-|[<-|[]]]]; lia. Qed.

Lemma load_element_returns bits i mem (E : fault -> Prop) :
  element_width bits -> 0 <= i -> i / (32 / bits) < Z.of_nat (length mem) ->
  returns is_u32 E (load_element bits i mem).
Proof.
  intros Hb Hi Hlt. unfold load_element. rewrite (proj2 (Z.leb_le _ _)) by done.
  rewrite (proj2 (Z.ltb_lt _ _)) by done. simpl.
  pose proof (element_width_slot bits i Hb). pose proof (element_width_positive bits Hb).
  apply is_u32_extract_unsigned; lia.
Qed.

Lemma store_element_returns bits i value mem size (E : fault -> Prop) :
  element_width bits -> memory_wf mem size ->
  0 <= i -> i / (32 / bits) < Z.of_nat (length mem) ->
  returns (fun mem' => memory_wf mem' size) E (store_element bits i value mem).
Proof.
  intros Hb Hm Hi Hlt. unfold store_element. rewrite (proj2 (Z.leb_le _ _)) by done.
  rewrite (proj2 (Z.ltb_lt _ _)) by done. simpl. destruct Hm as [Hw Hl Hs Hd].
  constructor; [|by rewrite length_alter|done|done].
  apply Forall_alter_one; [done|]. intros w _ Hww.
  pose proof (element_width_slot bits i Hb). pose proof (element_width_positive bits Hb).
  apply is_u32_replace_bits; [done|lia..].
Qed.

(** The word an address below the size of the memory falls in. *)
Lemma word_in_memory mem size a :
  memory_wf mem size -> 0 <= a < size -> 0 <= a / 4 < Z.of_nat (length mem).
Proof.
  intros [_ Hl _ _] [Ha Hs]. split; [by apply Z.div_pos|]. apply Z.div_lt_upper_bound; lia.
Qed.

Lemma half_word_index a : a / 2 / 2 = a / 4.
Proof. by rewrite Z.div_div. Qed.

Section Accesses.

Variables (mem : list Z) (size : Z) (E : fault -> Prop).
Hypothesis Hm : memory_wf mem size.

Lemma load8_returns a : 0 <= a < size -> returns is_u32 E (load8 a mem).
Proof.
  intros Ha. pose proof (word_in_memory mem size a Hm Ha).
  apply load_element_returns; [element_width|lia|]. change (32 / 8) with 4. lia.
Qed.

Lemma load16_returns a : 0 <= a < size -> returns is_u32 E (load16 a mem).
Proof.
  intros Ha. pose proof (word_in_memory mem size a Hm Ha).
  apply load_element_returns; [element_width|apply Z.div_pos; lia|].
  change (32 / 16) with 2. rewrite half_word_index. lia.
Qed.

Lemma load32_returns a : 0 <= a < size -> returns is_u32 E (load32 a mem).
Proof.
  intros Ha. pose proof (word_in_memory mem size a Hm Ha).
  apply load_element_returns; [element_width|lia|]. change (32 / 32) with 1. rewrite Z.div_1_r. lia.
Qed.

Lemma store8_returns a v :
  0 <= a < size -> returns (fun mem' => memory_wf mem' size) E (store8 a v mem).
Proof.
  intros Ha. pose proof (word_in_memory mem size a Hm Ha).
  apply store_element_returns; [element_width|done|lia|]. change (32 / 8) with 4. lia.
Qed.

Lemma store16_returns a v :
  0 <= a < size -> returns (fun mem' => memory_wf mem' size) E (store16 a v mem).
Proof.
  intros Ha. pose proof (word_in_memory mem size a Hm Ha).
  apply store_element_returns; [element_width|done|apply Z.div_pos; lia|].
  change (32 / 16) with 2. rewrite half_word_index. lia.
Qed.

Lemma store32_returns a v :
  0 <= a < size -> returns (fun mem' => memory_wf mem' size) E (store32 a v mem).
Proof.
  intros Ha. pose proof (word_in_memory mem size a Hm Ha).
  apply store_element_returns; [element_width|done|lia|].
  change (32 / 32) with 1. rewrite Z.div_1_r. lia.
Qed.

End Accesses.

(** An aligned cache line that starts in memory ends in memory. *)
Lemma line_in_memory mem size a :
  memory_wf mem size -> 0 <= a < size -> a mod CACHE_LINE_LENGTH = 0 ->
  0 <= a / 4 /\ a / 4 + 16 <= Z.of_nat (length mem).
Proof.
  intros [_ Hl [k Hk] _] [Ha Hs] Hal. unfold CACHE_LINE_LENGTH in *.
  pose proof (Z.div_mod a 64 ltac:(lia)). split; [apply Z.div_pos; lia|].
  assert (a / 64 < k) by (apply Z.div_lt_upper_bound; lia).
  assert (a / 4 = a / 64 * 16) by (symmetry; apply (Z.div_unique a 4 _ 0); lia). lia.
Qed.

Lemma load_block_returns word count mem E :
  Forall is_u32 mem -> 0 <= word -> word + Z.of_nat count <= Z.of_nat (length mem) ->
  returns (fun v => length v = count /\ Forall is_u32 v) E (load_block word count mem).
Proof.
  intros Hw. revert word. induction count as [|count IH]; intros word H0 Hl; simpl.
  - split; [done|apply Forall_nil_2].
  - eapply returns_bind; [apply load_element_returns; [element_width|done|]|].
    { change (32 / 32) with 1. rewrite Z.div_1_r. lia. }
    intros v Hv. eapply returns_bind; [apply IH; lia|]. intros vs [Hlen Hvs].
    split; [simpl; lia|]. by apply List.Forall_cons.
Qed.

Lemma store_block_returns word mask values ids mem size E :
  memory_wf mem size -> 0 <= word ->
  Forall (fun lane => word + Z.of_nat lane < Z.of_nat (length mem)) ids ->
  returns (fun mem' => memory_wf mem' size) E (store_block word mask values ids mem).
Proof.
  intros Hm H0 Hids. revert mem Hm Hids.
  induction ids as [|lane ids IH]; intros mem Hm Hids; simpl; [done|].
  pose proof (Forall_inv Hids) as Hlane. cbv beta in Hlane. apply Forall_inv_tail in Hids.
  destruct (lane_enabled mask lane); [|by apply IH].
  eapply returns_bind.
  - apply store_element_returns; [element_width|exact Hm|lia|].
    change (32 / 32) with 1. rewrite Z.div_1_r. lia.
  - intros mem' Hm'. apply IH; [done|].
    assert (length mem' = length mem)
      by (pose proof (wf_length _ _ Hm); pose proof (wf_length _ _ Hm'); lia).
    eapply List.Forall_impl; [|exact Hids]. intros l. simpl. lia.
Qed.

(** ** Well-formed machines *)

Section Invariant.

Context {D : Type} `{Host D} (nc tpc : Z).
Implicit Types m : machine D.

Record machine_wf m : Prop := {
  wf_proc : processor_wf nc tpc (proc m);
  wf_host : host_wf (host m)
}.

(** A pointer to one of the threads. *)
Definition valid (t : thread_ptr) : Prop :=
  Z.of_nat (p_core t) < nc /\ Z.of_nat (p_thread t) < tpc.

Lemma valid_core_lookup t m :
  machine_wf m -> valid t -> cores (proc m) !! p_core t = Some (the_core t m).
Proof.
  intros [Hp _] [Hc _]. destruct (wf_cores _ _ _ Hp) as [Hl _].
  unfold the_core. apply list_lookup_lookup_total_lt. lia.
Qed.

Lemma the_core_wf t m : machine_wf m -> valid t -> core_wf tpc (the_core t m).
Proof.
  intros Hm Ht. pose proof (valid_core_lookup t m Hm Ht) as Hc.
  eapply Forall_lookup in Hc; [exact Hc|]. apply (wf_cores _ _ _ (wf_proc m Hm)).
Qed.

Lemma valid_thread_lookup t m :
  machine_wf m -> valid t -> threads (the_core t m) !! p_thread t = Some (the_thread t m).
Proof.
  intros Hm Ht. pose proof (the_core_wf t m Hm Ht) as Hc.
  destruct (wf_threads _ _ Hc) as [Hl _]. destruct Ht as [_ Ht].
  unfold the_thread. apply list_lookup_lookup_total_lt. lia.
Qed.

Lemma the_thread_wf t m : machine_wf m -> valid t -> thread_wf (the_thread t m).
Proof.
  intros Hm Ht. pose proof (valid_thread_lookup t m Hm Ht) as Hth.
  eapply Forall_lookup in Hth; [exact Hth|]. apply (wf_threads _ _ (the_core_wf t m Hm Ht)).
Qed.

Lemma on_proc_wf f m :
  machine_wf m -> processor_wf nc tpc (f (proc m)) -> machine_wf (on_proc f m).
Proof. intros [_ Hh] Hp. by constructor. Qed.

Lemma on_core_wf t f m :
  machine_wf m -> valid t -> core_wf tpc (f (the_core t m)) -> machine_wf (on_core t f m).
Proof.
  intros Hm Ht Hf. apply on_proc_wf; [done|]. pose proof (valid_core_lookup t m Hm Ht) as Hlk.
  destruct (wf_proc m Hm). constructor; simpl; try done.
  destruct wf_cores0 as [Hl Hc]. split; [by rewrite length_alter|].
  apply Forall_alter_one; [done|]. intros c Hc' _. rewrite Hlk in Hc'. by injection Hc' as <-.
Qed.

Lemma on_thread_wf t f m :
  machine_wf m -> valid t -> thread_wf (f (the_thread t m)) -> machine_wf (on_thread t f m).
Proof.
  intros Hm Ht Hf. apply on_core_wf; [done|done|].
  pose proof (valid_thread_lookup t m Hm Ht) as Hlk.
  destruct (the_core_wf t m Hm Ht). constructor; simpl; try done.
  destruct wf_threads0 as [Hl Hc]. split; [by rewrite length_alter|].
  apply Forall_alter_one; [done|]. intros th Hth _. rewrite Hlk in Hth. by injection Hth as <-.
Qed.

Lemma the_core_on_core t f m :
  machine_wf m -> valid t -> the_core t (on_core t f m) = f (the_core t m).
Proof.
  intros Hm Ht. pose proof (valid_core_lookup t m Hm Ht) as Hlk. apply lookup_lt_Some in Hlk.
  unfold the_core, on_core. simpl. by apply list_lookup_total_alter_eq.
Qed.

Lemma the_thread_on_thread t f m :
  machine_wf m -> valid t -> the_thread t (on_thread t f m) = f (the_thread t m).
Proof.
  intros Hm Ht. unfold the_thread at 1. unfold on_thread. rewrite the_core_on_core by done.
  simpl. apply list_lookup_total_alter_eq.
  pose proof (valid_thread_lookup t m Hm Ht) as Hlk. by apply lookup_lt_Some in Hlk.
Qed.

(** An update of the core that leaves its threads alone. *)
Lemma the_thread_on_core t f m :
  machine_wf m -> valid t -> threads (f (the_core t m)) = threads (the_core t m) ->
  the_thread t (on_core t f m) = the_thread t m.
Proof.
  intros Hm Ht Hf. unfold the_thread at 1. rewrite the_core_on_core by done. by rewrite Hf.
Qed.

Lemma scalar_is_u32 t reg m : machine_wf m -> valid t -> is_u32 (get_scalar t reg m).
Proof.
  intros Hm Ht. unfold get_scalar. apply is_u32_total, (wf_scalars _ (the_thread_wf t m Hm Ht)).
Qed.

Lemma vector_lanes_u32 t reg m : machine_wf m -> valid t -> Forall is_u32 (get_vector t reg m).
Proof.
  intros Hm Ht. unfold get_vector. rewrite list_lookup_total_alt.
  destruct (wf_vectors _ (the_thread_wf t m Hm Ht)) as [_ Hv].
  destruct (_ !! reg) as [v|] eqn:E; [|apply Forall_nil_2].
  eapply Forall_lookup in E; [|exact Hv]. apply E.
Qed.

Lemma lane_is_u32 t reg lane m : machine_wf m -> valid t -> is_u32 (get_vector t reg m !!! lane).
Proof. intros Hm Ht. apply is_u32_total. by apply vector_lanes_u32. Qed.

(** ** Registers *)

Lemma with_cosim_wf check m : machine_wf m -> machine_wf (with_cosim check m).
Proof. intros [Hp Hh]. unfold with_cosim. destruct (enable_cosim _); by constructor. Qed.

Lemma the_thread_with_cosim check t m : the_thread t (with_cosim check m) = the_thread t m.
Proof. unfold with_cosim. by destruct (enable_cosim _). Qed.

Lemma set_scalar_quietly_wf t reg value m :
  machine_wf m -> valid t -> is_u32 value -> machine_wf (set_scalar_quietly t reg value m).
Proof.
  intros Hm Ht Hv. apply on_thread_wf; [done|done|].
  rebuild (the_thread_wf t m Hm Ht). destruct wf_scalars0 as [Hl Hs].
  split; [by rewrite length_insert|]. by apply Forall_insert.
Qed.

Lemma set_scalar_reg_wf t reg value m :
  machine_wf m -> valid t -> is_u32 value -> machine_wf (set_scalar_reg t reg value m).
Proof.
  intros Hm Ht Hv. unfold set_scalar_reg.
  apply (set_scalar_quietly_wf t reg value); [|done|done]. by apply with_cosim_wf.
Qed.

Lemma masked_update_wf mask values old :
  vector_wf old -> Forall is_u32 values -> vector_wf (masked_update mask values old).
Proof.
  intros [Hl Ho] Hv. unfold masked_update. split; [by rewrite length_imap|].
  apply Forall_lookup. intros i x Hi. rewrite list_lookup_imap in Hi.
  destruct (old !! i) as [o|] eqn:E; [|done]. injection Hi as <-.
  destruct (lane_enabled mask i); [auto with words|]. by eapply Forall_lookup in E.
Qed.

Lemma set_vector_reg_wf t reg mask values m :
  machine_wf m -> valid t -> Forall is_u32 values -> machine_wf (set_vector_reg t reg mask values m).
Proof.
  intros Hm Ht Hv. unfold set_vector_reg. apply on_thread_wf; [by apply with_cosim_wf|done|].
  rewrite the_thread_with_cosim.
  rebuild (the_thread_wf t m Hm Ht). destruct wf_vectors0 as [Hl Hs].
  split; [by rewrite length_alter|]. apply Forall_alter_one; [done|]. intros v _ Hvw.
  by apply masked_update_wf.
Qed.

(** ** Traps and interrupts *)

Lemma crash_wf m : machine_wf m -> machine_wf (crash m).
Proof. intros Hm. apply on_proc_wf; [done|]. rebuild (wf_proc m Hm). Qed.

Lemma saved_state_of_wf address type is_store is_data syscall th :
  thread_wf th -> is_u32 address -> is_u32 syscall ->
  trap_state_wf (saved_state_of address type is_store is_data syscall th).
Proof.
  intros Hth Ha Hs. pose proof (wf_saved_0 th Hth) as Hsaved. destruct Hth. destruct Hsaved.
  constructor; simpl; try done.
  - auto 10 with words.
  - destruct (_ && _); auto with words.
Qed.

Lemma enter_handler_wf c address type is_store is_data syscall th :
  core_wf tpc c -> thread_wf th -> is_u32 address -> is_u32 syscall ->
  thread_wf (enter_handler c address type is_store is_data syscall th).
Proof.
  intros Hc Hth Ha Hs.
  pose proof (saved_state_of_wf address type is_store is_data syscall th Hth Ha Hs) as Hsaved.
  pose proof (wf_trap_handler _ _ Hc). pose proof (wf_tlb_miss_handler _ _ Hc).
  unfold enter_handler. destruct Hth. case_bool_decide; constructor; simpl; done.
Qed.

Lemma set_pc_field_wf f t m :
  machine_wf m -> valid t -> (forall p, is_u32 p -> is_u32 (f p)) ->
  machine_wf (on_thread t (fun th => th <| pc ::= f |>) m).
Proof.
  intros Hm Ht Hf. apply on_thread_wf; [done|done|]. rebuild (the_thread_wf t m Hm Ht).
  by apply Hf.
Qed.

Lemma raise_trap_wf t address type is_store is_data syscall m :
  machine_wf m -> valid t -> is_u32 address -> is_u32 syscall ->
  machine_wf (raise_trap t address type is_store is_data syscall m).
Proof.
  intros Hm Ht Ha Hs. unfold raise_trap. destruct (stops_on_fault _ _ _).
  - apply crash_wf, set_pc_field_wf; [done|done|]. auto with words.
  - apply on_thread_wf; [done|done|]. apply enter_handler_wf; [|by apply the_thread_wf|done|done].
    by apply the_core_wf.
Qed.

Lemma illegal_instruction_wf t m : machine_wf m -> valid t -> machine_wf (illegal_instruction t m).
Proof. intros. by apply raise_trap_wf. Qed.

Lemma privileged_op_wf t m : machine_wf m -> valid t -> machine_wf (privileged_op t m).
Proof. intros. by apply raise_trap_wf. Qed.

Lemma try_to_dispatch_interrupt_wf t m :
  machine_wf m -> valid t -> machine_wf (try_to_dispatch_interrupt t m).
Proof.
  intros Hm Ht. unfold try_to_dispatch_interrupt. destruct (negb _); [done|].
  destruct (negb _); [|done]. apply raise_trap_wf; [|done|done|done].
  destruct (_ =? 0); [|done]. apply set_pc_field_wf; [done|done|]. auto with words.
Qed.

Lemma all_threads_valid t m : machine_wf m -> In t (all_threads (proc m)) -> valid t.
Proof.
  intros Hm Hin. apply in_flat_map in Hin as (c & Hc & Hin). apply in_map_iff in Hin as (i & <- & Hi).
  rewrite (wf_num_cores _ _ _ (wf_proc m Hm)) in Hc.
  rewrite (wf_threads_per_core _ _ _ (wf_proc m Hm)) in Hi.
  apply in_seq in Hc. apply in_seq in Hi. split; simpl; lia.
Qed.

Lemma interrupt_thread_wf bitmap t m :
  machine_wf m -> valid t -> is_u32 bitmap -> machine_wf (interrupt_thread bitmap m t).
Proof.
  intros Hm Ht Hb. apply try_to_dispatch_interrupt_wf; [|done].
  apply on_thread_wf; [done|done|]. rebuild (the_thread_wf t m Hm Ht). auto with words.
Qed.

Lemma interrupt_levels_wf f m :
  machine_wf m -> (forall l, is_u32 l -> is_u32 (f l)) ->
  machine_wf (on_proc (fun p => p <| interrupt_levels ::= f |>) m).
Proof. intros Hm Hf. apply on_proc_wf; [done|]. rebuild (wf_proc m Hm). by apply Hf. Qed.

Lemma raise_interrupt_wf bitmap m :
  machine_wf m -> is_u32 bitmap -> machine_wf (raise_interrupt bitmap m).
Proof.
  intros Hm Hb. unfold raise_interrupt.
  assert (Hm1 : machine_wf (on_proc (fun p => p <| interrupt_levels ::= fun l => Z.lor l bitmap |>) m))
    by (apply interrupt_levels_wf; [done|auto with words]).
  assert (Hv : Forall valid (all_threads
    (proc (on_proc (fun p => p <| interrupt_levels ::= fun l => Z.lor l bitmap |>) m)))).
  { apply Forall_forall. intros t Hin. by eapply all_threads_valid. }
  revert Hm1. generalize (on_proc (fun p => p <| interrupt_levels ::= fun l => Z.lor l bitmap |>) m) at 1 3.
  induction Hv as [|t l Ht _ IH]; intros m1 Hm1; simpl; [done|].
  apply IH. by apply interrupt_thread_wf.
Qed.

(** ** Translation *)

Lemma ROUND_TO_PAGE_lor_u32 flags address :
  is_u32 address -> is_u32 (Z.lor (ROUND_TO_PAGE flags) (PAGE_OFFSET address)).
Proof. intros. unfold PAGE_OFFSET. auto with words. Qed.

(** A translated address is in memory or among the device registers, and has the
    page offset of the virtual one. *)
Definition translated m (address physical : Z) : Prop :=
  is_u32 physical /\ physical mod PAGE_SIZE = address mod PAGE_SIZE
  /\ (physical < memory_size (proc m) \/ DEVICE_BASE_ADDRESS <= physical).

Lemma out_of_range_translated address physical m :
  is_u32 physical -> physical mod PAGE_SIZE = address mod PAGE_SIZE ->
  out_of_range physical m = false -> translated m address physical.
Proof.
  intros Hu Hm Hr. split; [done|]. split; [done|]. unfold out_of_range in Hr.
  apply andb_false_iff in Hr as [Hr|Hr]; bool_to_prop; lia.
Qed.

Lemma lor_page_mod flags address :
  is_u32 flags ->
  Z.lor (ROUND_TO_PAGE flags) (PAGE_OFFSET address) mod PAGE_SIZE = address mod PAGE_SIZE.
Proof.
  intros Hf. rewrite page_lor_offset, ROUND_TO_PAGE_sub by done.
  rewrite Z.add_mod, Z.mod_mod by done. rewrite Zminus_mod, Z.mod_mod, Z.sub_diag by done.
  by rewrite Z.mod_0_l, Z.add_0_l, Z.mod_mod by done.
Qed.

(** The result of a translation: either an address and the machine unchanged, or a
    machine that has trapped or crashed. *)
Definition translation_ok (address : Z) m (r : option Z * machine D) : Prop :=
  match r with
  | (Some physical, m') => m' = m /\ translated m address physical
  | (None, m') => machine_wf m'
  end.

Lemma check_entry_ok t e address is_store is_data m :
  machine_wf m -> valid t -> is_u32 address -> tlb_entry_wf e ->
  translation_ok address m (check_entry t e address is_store is_data m).
Proof.
  intros Hm Ht Ha He. unfold check_entry.
  destruct (negb _); [by apply raise_trap_wf|].
  destruct (_ && _); [by apply raise_trap_wf|].
  destruct (_ && _); [by apply raise_trap_wf|].
  destruct (_ && _); [by apply raise_trap_wf|].
  destruct (out_of_range _ _) eqn:Hr; [by apply crash_wf|]. split; [done|].
  apply out_of_range_translated; [by apply ROUND_TO_PAGE_lor_u32| |done].
  apply lor_page_mod, (wf_phys _ He).
Qed.

Lemma translate_address_ok t address is_store is_data m :
  machine_wf m -> valid t -> is_u32 address ->
  translation_ok address m (translate_address t address is_store is_data m).
Proof.
  intros Hm Ht Ha. unfold translate_address. destruct (negb _).
  - destruct (out_of_range _ _) eqn:Hr; [by apply crash_wf|]. split; [done|].
    by apply out_of_range_translated.
  - destruct (find_way _ _ _) as [way|] eqn:Hw; [|by apply raise_trap_wf].
    apply check_entry_ok; [done|done|done|].
    pose proof (the_core_wf t m Hm Ht) as Hc.
    assert (Htlb : tlb_wf ((if is_data then dtlb else itlb) (the_core t m)))
      by (destruct is_data; [apply (wf_dtlb _ _ Hc)|apply (wf_itlb _ _ Hc)]).
    destruct Htlb as [_ Htlb]. rewrite list_lookup_total_alt.
    destruct (_ !! way) as [e|] eqn:E; [by eapply Forall_lookup in E|]. by constructor.
Qed.

(** ** TLB maintenance *)

Lemma tlb_insert_wf page flags asid way tlb :
  tlb_wf tlb -> is_u32 page -> is_u32 flags -> is_u32 asid ->
  tlb_wf (tlb_insert page flags asid way tlb).
Proof.
  intros [Hl He] Hp Hf Ha. unfold tlb_insert.
  destruct (find_way _ _ _); (split; [by rewrite length_alter|]);
    (apply Forall_alter_one; [done|]); intros e _ Hwf; rebuild Hwf.
Qed.

Lemma invalidate_entry_wf page e : tlb_entry_wf e -> tlb_entry_wf (invalidate_entry page e).
Proof. intros He. unfold invalidate_entry. destruct (_ =? _); [rebuild He|done]. Qed.

Lemma tlb_invalidate_wf page tlb : tlb_wf tlb -> tlb_wf (tlb_invalidate page tlb).
Proof.
  unfold tlb_invalidate. generalize (set_ways page). intros ways. revert tlb.
  induction ways as [|way ways IH]; intros tlb [Hl He]; [done|]. simpl. apply IH.
  split; [by rewrite length_alter|]. apply Forall_alter_one; [done|]. intros.
  by apply invalidate_entry_wf.
Qed.

Lemma tlb_invalidate_all_wf tlb : tlb_wf tlb -> tlb_wf (tlb_invalidate_all tlb).
Proof.
  intros [Hl He]. split; [unfold tlb_invalidate_all; by rewrite length_map|].
  apply Forall_map. eapply List.Forall_impl; [|exact He]. intros e Hwf. rebuild Hwf.
Qed.

Lemma advance_way_range way : 0 <= advance_way way < TLB_WAYS.
Proof. by apply Z.mod_pos_bound. Qed.

Lemma reg_field_lt instruction low : 0 <= low -> (reg_field instruction low < NUM_REGISTERS)%nat.
Proof.
  intros Hl. pose proof (extract_unsigned_bits_range instruction low 5 Hl ltac:(lia)) as [? ?].
  unfold reg_field, NUM_REGISTERS. lia.
Qed.

Lemma is_u32_sum a b : is_u32 (u32 (a + b)).
Proof. apply is_u32_u32. Qed.

Lemma cache_flush_wf t instruction m :
  machine_wf m -> valid t -> machine_wf (cache_flush t instruction m).
Proof.
  intros Hm Ht. unfold cache_flush.
  set (a := u32 _). pose proof (translate_address_ok t a false true m Hm Ht (is_u32_u32 _)) as Hok.
  destruct (translate_address _ _ _ _ _) as [[p|] m']; simpl in *; [by destruct Hok as [-> _]|done].
Qed.

Lemma execute_cache_control_inst_wf t instruction m :
  machine_wf m -> valid t -> machine_wf (execute_cache_control_inst t instruction m).
Proof.
  intros Hm Ht. unfold execute_cache_control_inst.
  pose proof (scalar_is_u32 t (reg_field instruction 5) m Hm Ht).
  pose proof (wf_asid _ (the_thread_wf t m Hm Ht)).
  pose proof (privileged_op_wf t m Hm Ht).
  pose proof (cache_flush_wf t instruction m Hm Ht).
  destruct (enum_of_Z _) as [[]|]; [| | | | | |done];
    unfold cache_tlb_insert, cache_tlb_invalidate, cache_tlb_invalidate_all;
    try destruct (negb _); try done; apply on_core_wf; try done;
    rebuild (the_core_wf t m Hm Ht); auto using tlb_insert_wf, tlb_invalidate_wf,
      tlb_invalidate_all_wf, advance_way_range, is_u32_ROUND_TO_PAGE.
Qed.

(** ** Arithmetic *)

Lemma pack_compare_u32 f : is_u32 (pack_compare f).
Proof.
  unfold pack_compare.
  enough (Hl : forall l z, is_u32 z -> is_u32 (fold_left (fun result lane =>
    Z.lor (Z.shiftr result 1) (if f lane =? 0 then 0 else 0x8000)) l z))
    by (apply Hl; auto with words).
  induction l as [|lane l IH]; intros z Hz; simpl; [done|]. apply IH.
  apply is_u32_lor; [by apply is_u32_shiftr|]. destruct (_ =? 0); auto with words.
Qed.

Lemma is_u32_scalar_compare r : is_u32 (scalar_compare r).
Proof. unfold scalar_compare. destruct (_ =? _); auto with words. Qed.

Definition operand_wf (o : operand) : Prop :=
  match o with ScalarOperand v => is_u32 v | VectorOperand vs => Forall is_u32 vs end.

Lemma operand_lane_u32 o lane : operand_wf o -> is_u32 (operand_lane o lane).
Proof. destruct o; simpl; auto with words. Qed.

Lemma vector_arith_u32 op v o :
  Forall is_u32 v -> operand_wf o -> Forall is_u32 (vector_arith op v o).
Proof.
  intros Hv Ho. apply Forall_map, Forall_forall. intros lane _.
  apply is_u32_scalar_arithmetic_op; [auto with words|by apply operand_lane_u32].
Qed.

Lemma shuffle_u32 v1 v2 : Forall is_u32 v1 -> Forall is_u32 (shuffle v1 v2).
Proof. intros Hv. apply Forall_map, Forall_forall. intros lane _. auto with words. Qed.

Lemma is_u32_immediate_value fmt instruction : is_u32 (immediate_value fmt instruction).
Proof.
  assert (Hsh : forall low n k, 0 <= low -> 0 <= n -> 0 <= k -> n + k <= 32 ->
    is_u32 (Z.shiftl (extract_unsigned_bits instruction low n) k)).
  { intros low n k Hl Hn Hk Hnk.
    pose proof (extract_unsigned_bits_range instruction low n Hl Hn) as [? ?].
    rewrite Z.shiftl_mul_pow2 by done.
    assert (2 ^ n * 2 ^ k <= 2 ^ 32) by (rewrite <- Z.pow_add_r by lia; apply Z.pow_le_mono_r; lia).
    assert (0 < 2 ^ k) by (apply Z.pow_pos_nonneg; lia). split; nia. }
  unfold immediate_value. destruct (enum_of_Z fmt) as [[]|];
    try (apply is_u32_extract_signed; lia). apply is_u32_lor; apply Hsh; lia.
Qed.

Lemma execute_register_arith_inst_wf t instruction m :
  machine_wf m -> valid t -> machine_wf (execute_register_arith_inst t instruction m).
Proof.
  intros Hm Ht. unfold execute_register_arith_inst.
  assert (Hs : forall reg, is_u32 (get_scalar t reg m)) by (intros; by apply scalar_is_u32).
  assert (Hv : forall reg, Forall is_u32 (get_vector t reg m)) by (intros; by apply vector_lanes_u32).
  case_bool_decide; [by apply raise_trap_wf|].
  case_bool_decide; [apply set_scalar_reg_wf; auto with words|].
  destruct (is_compare_op _).
  { unfold register_compare. destruct_enum;
      [..|by apply illegal_instruction_wf]; apply set_scalar_reg_wf;
      auto using pack_compare_u32, is_u32_scalar_compare; apply pack_compare_u32. }
  case_bool_decide.
  { apply set_scalar_reg_wf; [done|done|]. by apply is_u32_scalar_arithmetic_op. }
  unfold register_vector. destruct_enum;
    try (by apply illegal_instruction_wf); apply set_vector_reg_wf; try done;
    case_bool_decide; auto using shuffle_u32; apply vector_arith_u32; simpl; auto.
Qed.

Lemma execute_immediate_arith_inst_wf t instruction m :
  machine_wf m -> valid t -> machine_wf (execute_immediate_arith_inst t instruction m).
Proof.
  intros Hm Ht. unfold execute_immediate_arith_inst.
  assert (Hs : forall reg, is_u32 (get_scalar t reg m)) by (intros; by apply scalar_is_u32).
  assert (Hv : forall reg, Forall is_u32 (get_vector t reg m)) by (intros; by apply vector_lanes_u32).
  pose proof (is_u32_immediate_value (extract_unsigned_bits instruction 29 2) instruction) as Hi.
  case_bool_decide; [apply raise_trap_wf; try done; apply is_u32_extract_unsigned; lia|].
  case_bool_decide; [apply set_scalar_reg_wf; auto with words|].
  destruct (is_compare_op _).
  { unfold immediate_compare. destruct_enum;
      try (by apply illegal_instruction_wf); apply set_scalar_reg_wf;
      auto using is_u32_scalar_compare; apply pack_compare_u32. }
  destruct (_ || _).
  { apply set_scalar_reg_wf; [done|done|]. by apply is_u32_scalar_arithmetic_op. }
  unfold immediate_vector. destruct_enum;
    try (by apply illegal_instruction_wf); apply set_vector_reg_wf; try done;
    apply vector_arith_u32; simpl; auto.
Qed.

(** ** Memory instructions

    The faults an access may end in: the emulator's [exit] in a device, and with
    more than one core the loop of [invalidate_sync_address], which runs over
    [total_threads] entries of an array of [threads_per_core]. *)

Definition sync_fault (f : fault) : Prop := f = OutOfBounds /\ nc <> 1.
Definition access_fault (f : fault) : Prop := f = HostExit \/ sync_fault f.

Lemma invalidate_threads_ok ids line ths :
  Forall thread_wf ths -> Forall (fun i => (i < length ths)%nat) ids ->
  returns (fun ths' => length ths' = length ths /\ Forall thread_wf ths') (fun _ => False)
    (invalidate_threads ids line ths).
Proof.
  intros Hths Hids. revert ths Hths Hids.
  induction ids as [|i ids IH]; intros ths Hths Hids; simpl; [done|].
  pose proof (Forall_inv Hids) as Hi. apply Forall_inv_tail in Hids. cbv beta in Hi.
  destruct (lookup_lt_is_Some_2 ths i Hi) as [th Hth]. rewrite Hth.
  destruct (_ =? _); [|by apply IH].
  pose proof (length_insert ths i (th <| last_sync_load_addr := INVALID_ADDR |>)) as Hl.
  eapply returns_weaken; [apply IH| |done].
  - apply Forall_insert; [done|]. eapply Forall_lookup in Hth; [|exact Hths]. rebuild Hth.
  - by rewrite Hl.
  - intros ths'. simpl. by rewrite Hl.
Qed.

Lemma invalidate_threads_wf ids line ths :
  Forall thread_wf ths ->
  returns (fun ths' => length ths' = length ths /\ Forall thread_wf ths')
    (fun f => f = OutOfBounds) (invalidate_threads ids line ths).
Proof.
  revert ths. induction ids as [|i ids IH]; intros ths Hths; simpl; [done|].
  destruct (ths !! i) as [th|] eqn:Hth; [|done].
  destruct (_ =? _); [|by apply IH].
  pose proof (length_insert ths i (th <| last_sync_load_addr := INVALID_ADDR |>)) as Hl.
  eapply returns_weaken; [apply IH| |done].
  - apply Forall_insert; [done|]. eapply Forall_lookup in Hth; [|exact Hths]. rebuild Hth.
  - intros ths'. simpl. by rewrite Hl.
Qed.

Lemma invalidate_sync_address_wf t address m :
  machine_wf m -> valid t -> returns machine_wf sync_fault (invalidate_sync_address t address m).
Proof.
  intros Hm Ht. pose proof (the_core_wf t m Hm Ht) as Hc.
  destruct (wf_threads _ _ Hc) as [Hl Hths]. unfold invalidate_sync_address.
  eapply (returns_bind
    (fun ths => length ths = length (threads (the_core t m)) /\ Forall thread_wf ths)).
  - destruct (Z.eq_dec nc 1) as [Hnc|Hnc].
    + eapply returns_weaken; [apply invalidate_threads_ok| |]; [done| |done|done].
      rewrite (wf_total_threads _ _ _ (wf_proc m Hm)), Hnc, Z.mul_1_r.
      apply Forall_forall. intros i Hi. apply in_seq in Hi. lia.
    + eapply returns_weaken; [by apply invalidate_threads_wf|done|]. by intros f ->.
  - intros ths [Hlen Hwf]. apply on_core_wf; [done|done|]. destruct Hc. constructor; simpl; try done.
    split; [by rewrite Hlen|done].
Qed.

Lemma set_memory_wf mem m :
  machine_wf m -> memory_wf mem (memory_size (proc m)) -> machine_wf (set_memory mem m).
Proof. intros Hm Hmem. apply on_proc_wf; [done|]. rebuild (wf_proc m Hm). Qed.

Lemma after_store_wf t physical address size value m :
  machine_wf m -> valid t ->
  returns machine_wf sync_fault (after_store t physical address size value m).
Proof.
  intros Hm Ht. unfold after_store. eapply returns_bind; [by apply invalidate_sync_address_wf|].
  intros m' Hm'. by apply with_cosim_wf.
Qed.

Lemma load_device_wf physical m :
  machine_wf m -> is_u32 (load_device physical m).1 /\ machine_wf (load_device physical m).2.
Proof.
  intros Hm. unfold load_device. pose proof (read_device_wf physical (host m) (wf_host m Hm)) as [Hv Hh].
  destruct (read_device_register physical (host m)) as [[v c] d]. simpl in *. split; [done|].
  apply on_proc_wf; [by constructor; [apply (wf_proc m Hm)|]|].
  rebuild (wf_proc m Hm). auto with words.
Qed.

Lemma store_device_wf physical value m :
  machine_wf m -> is_u32 value -> returns machine_wf access_fault (store_device physical value m).
Proof.
  intros Hm Hv. unfold store_device. destruct (_ =? _).
  - apply on_proc_wf; [done|]. rebuild (wf_proc m Hm).
  - eapply (returns_bind host_wf).
    + eapply returns_weaken; [apply write_device_wf; [done|apply Hm]|done|]. by left.
    + intros d Hd. constructor; [apply (wf_proc m Hm)|done].
Qed.

(** Addresses that are not device registers are in memory. *)
Lemma translated_memory m address physical :
  translated m address physical -> is_device_address physical = false ->
  0 <= physical < memory_size (proc m).
Proof.
  intros ([? ?] & _ & Hr) Hd. unfold is_device_address in Hd. bool_to_prop. lia.
Qed.

Lemma scalar_load_value_wf t op address physical m :
  machine_wf m -> valid t -> translated m address physical ->
  is_device_address physical = false \/ op = Some MEM_LONG -> op <> Some MEM_CONTROL_REG ->
  returns (fun r => (forall v, r.1 = Some v -> is_u32 v) /\ machine_wf r.2) access_fault
    (scalar_load_value t op physical m).
Proof.
  intros Hm Ht Htr Hdev Hop. pose proof (wf_memory _ _ _ (wf_proc m Hm)) as Hmem.
  assert (Hload : forall c (f : Z -> Z), returns is_u32 access_fault c ->
    (forall v, is_u32 v -> is_u32 (f v)) ->
    returns (fun r => (forall v, r.1 = Some v -> is_u32 v) /\ machine_wf r.2) access_fault
      (v <-- c;; Done (Some (f v), m))).
  { intros c f Hc Hf. eapply returns_bind; [exact Hc|]. intros v Hv. split; [|done].
    intros v' [= <-]. by apply Hf. }
  assert (Hin : is_device_address physical = false -> 0 <= physical < memory_size (proc m))
    by by apply (translated_memory m address).
  unfold scalar_load_value. destruct op as [[]|]; try done;
    try (destruct Hdev as [Hdev|Hdev]; [specialize (Hin Hdev)|discriminate Hdev]).
  - apply (Hload _ (fun v => v)); [by eapply load8_returns|done].
  - apply (Hload _ (fun v => u32 (s8 v))); [by eapply load8_returns|auto with words].
  - apply (Hload _ (fun v => v)); [by eapply load16_returns|done].
  - apply (Hload _ (fun v => u32 (s16 v))); [by eapply load16_returns|auto with words].
  - destruct (is_device_address physical) eqn:Hd.
    + pose proof (load_device_wf physical m Hm) as [Hv Hw].
      destruct (load_device physical m) as [v m']. split; [|done]. by intros v' [= <-].
    + apply (Hload _ (fun v => v)); [|done]. eapply load32_returns; [exact Hmem|]. by apply Hin.
  - eapply returns_bind; [by eapply load32_returns|]. intros v Hv. split; [by intros v' [= <-]|].
    apply on_thread_wf; [done|done|]. rebuild (the_thread_wf t m Hm Ht).
    destruct Hin as [? Hlt]. destruct Hmem as [_ _ _ Hsz]. unfold cache_line, CACHE_LINE_LENGTH.
    unfold DEVICE_BASE_ADDRESS in Hsz.
    split; [by apply Z.div_pos|]. apply Z.div_lt_upper_bound; lia.
Qed.

Lemma access_fault_sync f : sync_fault f -> access_fault f.
Proof. by right. Qed.

Lemma scalar_store_wf t op reg address physical m :
  machine_wf m -> valid t -> translated m address physical ->
  is_device_address physical = false \/ op = Some MEM_LONG -> op <> Some MEM_CONTROL_REG ->
  returns machine_wf access_fault (scalar_store t op reg address physical m).
Proof.
  intros Hm Ht Htr Hdev Hop.
  assert (Hin : is_device_address physical = false -> 0 <= physical < memory_size (proc m))
    by by apply (translated_memory m address).
  assert (Hfin : forall c m1 size v, machine_wf m1 ->
    returns (fun mem => memory_wf mem (memory_size (proc m1))) access_fault c ->
    returns machine_wf access_fault
      (mem <-- c;; after_store t physical address size v (set_memory mem m1))).
  { intros c m1 size v Hm1 Hc. eapply returns_bind; [exact Hc|]. intros mem Hmem.
    eapply returns_weaken; [apply after_store_wf; [by apply set_memory_wf|done]|done|].
    apply access_fault_sync. }
  pose proof (wf_memory _ _ _ (wf_proc m Hm)) as Hmem.
  unfold scalar_store. destruct op as [[]|]; try done;
    try (destruct Hdev as [Hdev|Hdev]; [specialize (Hin Hdev)|discriminate Hdev]);
    try (by apply illegal_instruction_wf).
  - by apply Hfin; [|eapply store8_returns].
  - by apply Hfin; [|eapply store8_returns].
  - by apply Hfin; [|eapply store16_returns].
  - by apply Hfin; [|eapply store16_returns].
  - destruct (is_device_address physical) eqn:Hd.
    + apply store_device_wf; [done|by apply scalar_is_u32].
    + apply Hfin; [done|]. eapply store32_returns; [exact Hmem|]. by apply Hin.
  - destruct (_ =? _).
    + apply Hfin; [apply set_scalar_quietly_wf; auto with words|].
      by eapply store32_returns.
    + apply set_scalar_quietly_wf; auto with words.
Qed.

Lemma execute_scalar_load_store_inst_wf t instruction m :
  machine_wf m -> valid t -> memory_op_field instruction <> Some MEM_CONTROL_REG ->
  returns machine_wf access_fault (execute_scalar_load_store_inst t instruction m).
Proof.
  intros Hm Ht Hop. unfold execute_scalar_load_store_inst.
  set (a := u32 _). assert (Ha : is_u32 a) by apply is_u32_u32.
  destruct (negb _); [by apply raise_trap_wf|].
  pose proof (translate_address_ok t a (negb (is_load_inst instruction)) true m Hm Ht Ha) as Hok.
  destruct (translate_address _ _ _ _ _) as [[physical|] m']; [|exact Hok].
  destruct Hok as [-> Htr].
  destruct (_ && _) eqn:Hdev; [by apply crash_wf|].
  assert (Hdev' : is_device_address physical = false
    \/ memory_op_field instruction = Some MEM_LONG).
  { apply andb_false_iff in Hdev as [Hdev|Hdev]; [by left|right].
    apply negb_false_iff in Hdev. by apply bool_decide_eq_true in Hdev. }
  destruct (is_load_inst _).
  - eapply returns_bind; [by eapply scalar_load_value_wf|]. intros [[v|] m'] [Hv Hm'].
    + apply set_scalar_reg_wf; [done|done|]. by apply Hv.
    + by apply illegal_instruction_wf.
  - by eapply scalar_store_wf.
Qed.

(** The mask and the offset are only asked for when the instruction has them. *)
Lemma vector_operands_some t unmasked masked instruction m :
  memory_op_field instruction = Some unmasked \/ memory_op_field instruction = Some masked ->
  exists mask offset, vector_operands t unmasked masked instruction m = Some (mask, offset).
Proof.
  intros Hop. unfold vector_operands.
  case_bool_decide; [by eexists _, _|]. case_bool_decide; [by eexists _, _|]. by destruct Hop.
Qed.

Lemma aligned_translated a physical m :
  is_u32 a -> Z.land a (Z.of_nat NUM_VECTOR_LANES * 4 - 1) = 0 -> translated m a physical ->
  physical mod CACHE_LINE_LENGTH = 0.
Proof.
  intros Ha Hal (_ & Hmod & _). change (Z.of_nat NUM_VECTOR_LANES * 4 - 1) with (Z.ones 6) in Hal.
  rewrite Z.land_ones in Hal by lia. change (2 ^ 6) with 64 in Hal.
  unfold CACHE_LINE_LENGTH, PAGE_SIZE in *.
  rewrite <- (Z.mod_mod_divide physical 4096 64), Hmod, Z.mod_mod_divide by by exists 64. done.
Qed.

Lemma block_store_wf t address physical mask reg m :
  machine_wf m -> valid t -> 0 <= physical < memory_size (proc m) ->
  physical mod CACHE_LINE_LENGTH = 0 ->
  returns machine_wf sync_fault (block_store t address physical mask reg m).
Proof.
  intros Hm Ht Hin Hal. unfold block_store. destruct (_ =? 0); [done|].
  set (m1 := with_cosim _ m). assert (Hm1 : machine_wf m1) by by apply with_cosim_wf.
  assert (Hp : proc m1 = proc m) by (unfold m1, with_cosim; by destruct (enable_cosim _)).
  rewrite Hp. pose proof (wf_memory _ _ _ (wf_proc m Hm)) as Hmem.
  destruct (line_in_memory _ _ _ Hmem Hin Hal) as [H0 Hl].
  eapply returns_bind.
  - apply store_block_returns; [exact Hmem|exact H0|]. apply Forall_forall. intros lane Hlane.
    apply in_seq in Hlane. unfold NUM_VECTOR_LANES in Hlane. lia.
  - intros mem Hmem'. apply invalidate_sync_address_wf; [|done]. apply set_memory_wf; [done|].
    by rewrite Hp.
Qed.

Lemma execute_block_load_store_inst_wf t instruction m :
  machine_wf m -> valid t ->
  memory_op_field instruction = Some MEM_BLOCK_VECTOR
    \/ memory_op_field instruction = Some MEM_BLOCK_VECTOR_MASK ->
  returns machine_wf sync_fault (execute_block_load_store_inst t instruction m).
Proof.
  intros Hm Ht Hop. unfold execute_block_load_store_inst.
  destruct (vector_operands_some t _ _ instruction m Hop) as (mask & offset & ->).
  set (a := u32 _). assert (Ha : is_u32 a) by apply is_u32_u32.
  destruct (negb (_ =? 0)) eqn:Hal; [by apply raise_trap_wf|]. bool_to_prop.
  pose proof (translate_address_ok t a (negb (is_load_inst instruction)) true m Hm Ht Ha) as Hok.
  destruct (translate_address _ _ _ _ _) as [[physical|] m']; [|exact Hok].
  destruct Hok as [-> Htr].
  destruct (is_device_address physical) eqn:Hdev; [by apply crash_wf|].
  pose proof (translated_memory m a physical Htr Hdev) as Hin.
  pose proof (aligned_translated a physical m Ha Hal Htr) as Hline.
  destruct (is_load_inst _); [|by apply block_store_wf].
  pose proof (wf_memory _ _ _ (wf_proc m Hm)) as Hmem.
  destruct (line_in_memory _ _ _ Hmem Hin Hline) as [H0 Hl].
  eapply returns_bind; [apply load_block_returns; [apply Hmem|done|exact Hl]|].
  intros v [_ Hv]. by apply set_vector_reg_wf.
Qed.

Definition lane_fault t m (f : fault) : Prop :=
  f = OutOfBounds /\ Z.of_nat NUM_VECTOR_LANES <= subcycle (the_thread t m).

Lemma advance_subcycle_wf th : thread_wf th -> thread_wf (advance_subcycle th).
Proof.
  intros Hth. unfold advance_subcycle. destruct (_ =? _); rebuild Hth; auto with words.
Qed.

Lemma gather_lane_wf t mask physical lane reg m :
  machine_wf m -> valid t -> 0 <= physical < memory_size (proc m) ->
  returns machine_wf sync_fault (gather_lane t mask physical lane reg m).
Proof.
  intros Hm Ht Hin. pose proof (wf_memory _ _ _ (wf_proc m Hm)) as Hmem.
  unfold gather_lane. eapply (returns_bind is_u32).
  - destruct (lane_enabled _ _); [by eapply load32_returns|simpl; auto with words].
  - intros v Hv. apply set_vector_reg_wf; [done|done|]. apply Forall_insert; [|done].
    apply Forall_replicate. auto with words.
Qed.

Lemma scatter_lane_wf t mask address physical lane reg m :
  machine_wf m -> valid t -> 0 <= physical < memory_size (proc m) ->
  returns machine_wf sync_fault (scatter_lane t mask address physical lane reg m).
Proof.
  intros Hm Ht Hin. pose proof (wf_memory _ _ _ (wf_proc m Hm)) as Hmem.
  unfold scatter_lane. destruct (lane_enabled _ _); [|done].
  eapply returns_bind; [by eapply store32_returns|]. intros mem Hmem'.
  apply after_store_wf; [by apply set_memory_wf|done].
Qed.

Lemma execute_scatter_gather_inst_wf t instruction m :
  machine_wf m -> valid t ->
  memory_op_field instruction = Some MEM_SCGATH
    \/ memory_op_field instruction = Some MEM_SCGATH_MASK ->
  returns machine_wf (fun f => sync_fault f \/ lane_fault t m f)
    (execute_scatter_gather_inst t instruction m).
Proof.
  intros Hm Ht Hop. unfold execute_scatter_gather_inst.
  destruct (vector_operands_some t _ _ instruction m Hop) as (mask & offset & ->).
  destruct (_ <=? _) eqn:Hlane; bool_to_prop; [by right|].
  set (lane := Z.to_nat _). set (a := u32 _). assert (Ha : is_u32 a) by apply is_u32_u32.
  destruct (_ && _); [by apply raise_trap_wf|].
  pose proof (translate_address_ok t a (negb (is_load_inst instruction)) true m Hm Ht Ha) as Hok.
  destruct (translate_address _ _ _ _ _) as [[physical|] m']; [|exact Hok].
  destruct Hok as [-> Htr].
  destruct (is_device_address physical) eqn:Hdev; [by apply crash_wf|].
  pose proof (translated_memory m a physical Htr Hdev) as Hin.
  eapply (returns_bind machine_wf).
  - destruct (is_load_inst _); (eapply returns_weaken;
      [by first [apply gather_lane_wf | apply scatter_lane_wf]|done|]); by left.
  - intros m' Hm'. apply on_thread_wf; [done|done|].
    by apply advance_subcycle_wf, the_thread_wf.
Qed.

(** ** Control registers *)

Lemma is_u32_flags_word a b c : is_u32 (flags_word a b c).
Proof. unfold flags_word. auto with words. Qed.

Lemma pending_u32 t m : machine_wf m -> valid t -> is_u32 (get_pending_interrupts t m).
Proof.
  intros Hm Ht. unfold get_pending_interrupts.
  pose proof (wf_level _ _ (the_core_wf t m Hm Ht)). auto with words.
Qed.

Lemma control_register_value_u32 t cr m :
  machine_wf m -> valid t -> is_u32 (control_register_value t cr m).
Proof.
  intros Hm Ht. pose proof (the_thread_wf t m Hm Ht) as Hth.
  pose proof (wf_saved_0 _ Hth) as Hsaved. pose proof (the_core_wf t m Hm Ht) as Hc.
  pose proof (pending_u32 t m Hm Ht). destruct Hth, Hsaved, Hc.
  unfold control_register_value. destruct_enum; auto using is_u32_flags_word with words.
Qed.

Lemma on_saved_wf f t m :
  machine_wf m -> valid t -> (forall s, trap_state_wf s -> trap_state_wf (f s)) ->
  machine_wf (on_saved f t m).
Proof.
  intros Hm Ht Hf. apply on_thread_wf; [done|done|]. rebuild (the_thread_wf t m Hm Ht).
  by apply Hf.
Qed.

Lemma write_flags_wf t value m : machine_wf m -> valid t -> machine_wf (write_flags t value m).
Proof.
  intros Hm Ht. unfold write_flags.
  set (m1 := on_thread t _ m). assert (Hm1 : machine_wf m1).
  { apply on_thread_wf; [done|done|]. rebuild (the_thread_wf t m Hm Ht). }
  clearbody m1. destruct (flag_bit _ _); [by apply try_to_dispatch_interrupt_wf|done].
Qed.

Lemma thread_mask_bound n e value :
  0 <= n -> 0 <= e < 2 ^ n ->
  0 <= Z.lor e (Z.land value (Z.shiftl 1 n - 1)) < 2 ^ n.
Proof.
  intros Hn He. change (is_unsigned n e) in He. change (is_unsigned n (Z.lor e (Z.land value (Z.shiftl 1 n - 1)))).
  apply is_unsigned_lor; [done|done|]. apply is_unsigned_land_r; [done|].
  rewrite Z.shiftl_1_l. pose proof (Z.pow_pos_nonneg 2 n). split; lia.
Qed.

Lemma thread_mask_clear n e value :
  0 <= n -> 0 <= e < 2 ^ n -> 0 <= Z.land e value < 2 ^ n.
Proof. intros Hn He. by apply (is_unsigned_land n). Qed.

Lemma write_control_register_wf t cr reg m :
  machine_wf m -> valid t -> machine_wf (write_control_register t cr reg m).
Proof.
  intros Hm Ht. unfold write_control_register.
  pose proof (scalar_is_u32 t reg m Hm Ht) as Hv. set (value := get_scalar t reg m) in *.
  assert (Hn : 0 <= tpc * nc) by (destruct Ht; nia).
  destruct_enum; try done;
    try (apply on_core_wf; [done|done|]; rebuild (the_core_wf t m Hm Ht); fail);
    try (apply on_saved_wf; [done|done|]; intros s Hs; rebuild Hs; fail);
    try (apply on_thread_wf; [done|done|]; rebuild (the_thread_wf t m Hm Ht);
         auto with words; fail).
  - by apply write_flags_wf.
  - apply on_proc_wf; [done|]. rebuild (wf_proc m Hm). by apply thread_mask_clear.
  - apply on_proc_wf; [done|]. rebuild (wf_proc m Hm). rewrite wf_total_threads0.
    by apply thread_mask_bound.
Qed.

Lemma execute_control_register_inst_wf t instruction m :
  machine_wf m -> valid t -> machine_wf (execute_control_register_inst t instruction m).
Proof.
  intros Hm Ht. unfold execute_control_register_inst. destruct (negb _).
  - by apply privileged_op_wf.
  - destruct (is_load_inst _); [|by apply write_control_register_wf].
    apply set_scalar_reg_wf; [done|done|]. by apply control_register_value_u32.
Qed.

(** ** Branches and dispatch *)

Lemma execute_eret_wf t m : machine_wf m -> valid t -> machine_wf (execute_eret t m).
Proof.
  intros Hm Ht. unfold execute_eret. destruct (negb _); [by apply privileged_op_wf|].
  set (m1 := on_thread t _ m). assert (Hm1 : machine_wf m1).
  { apply on_thread_wf; [done|done|].
    pose proof (wf_saved_0 _ (the_thread_wf t m Hm Ht)) as [].
    rebuild (the_thread_wf t m Hm Ht). }
  destruct (enable_interrupt _); [by apply try_to_dispatch_interrupt_wf|done].
Qed.

Lemma set_pc_wf t value m : machine_wf m -> valid t -> is_u32 value -> machine_wf (set_pc t value m).
Proof. intros Hm Ht Hv. apply on_thread_wf; [done|done|]. rebuild (the_thread_wf t m Hm Ht). Qed.

Lemma branch_by_wf t offset m : machine_wf m -> valid t -> machine_wf (branch_by t offset m).
Proof. intros Hm Ht. apply set_pc_field_wf; [done|done|]. auto with words. Qed.

Lemma execute_branch_inst_wf t instruction m :
  machine_wf m -> valid t -> machine_wf (execute_branch_inst t instruction m).
Proof.
  intros Hm Ht. unfold execute_branch_inst.
  pose proof (wf_pc _ (the_thread_wf t m Hm Ht)) as Hpc.
  pose proof (set_scalar_reg_wf t LINK_REG _ m Hm Ht Hpc) as Hcall.
  destruct_enum.
  - apply set_pc_wf; [done|done|]. by apply scalar_is_u32.
  - destruct (_ =? 0); [by apply branch_by_wf|done].
  - destruct (negb _); [by apply branch_by_wf|done].
  - by apply branch_by_wf.
  - by apply branch_by_wf.
  - apply set_pc_wf; [done|done|]. by apply scalar_is_u32.
  - by apply execute_eret_wf.
  - by apply illegal_instruction_wf.
Qed.

(** The faults of an instruction. *)
Definition instruction_fault t m (f : fault) : Prop := access_fault f \/ lane_fault t m f.

Lemma execute_memory_access_inst_wf t instruction m :
  machine_wf m -> valid t ->
  returns machine_wf (instruction_fault t m) (execute_memory_access_inst t instruction m).
Proof.
  intros Hm Ht. unfold execute_memory_access_inst.
  assert (Hs : forall c, returns machine_wf access_fault c -> returns machine_wf (instruction_fault t m) c).
  { intros c Hc. eapply returns_weaken; [exact Hc|done|]. by left. }
  assert (Hb : forall c, returns machine_wf sync_fault c -> returns machine_wf (instruction_fault t m) c).
  { intros c Hc. eapply returns_weaken; [exact Hc|done|]. intros f Hf. left. by right. }
  assert (Hg : forall c, returns machine_wf (fun f => sync_fault f \/ lane_fault t m f) c ->
    returns machine_wf (instruction_fault t m) c).
  { intros c Hc. eapply returns_weaken; [exact Hc|done|]. intros f [Hf|Hf]; [left|]; by right. }
  destruct (memory_op_field instruction) as [[]|] eqn:Hop;
    lazymatch goal with
    | |- returns _ _ (execute_scalar_load_store_inst _ _ _) =>
        apply Hs, execute_scalar_load_store_inst_wf; [done|done|congruence]
    | |- returns _ _ (execute_block_load_store_inst _ _ _) =>
        apply Hb, execute_block_load_store_inst_wf; [done|done|rewrite Hop; tauto]
    | |- returns _ _ (execute_scatter_gather_inst _ _ _) =>
        apply Hg, execute_scatter_gather_inst_wf; [done|done|rewrite Hop; tauto]
    | |- returns _ _ (Done (execute_control_register_inst _ _ _)) =>
        apply returns_done, execute_control_register_inst_wf; done
    | |- returns _ _ (Done (illegal_instruction _ _)) =>
        apply returns_done, illegal_instruction_wf; done
    end.
Qed.

Lemma dispatch_plain_wf t instruction m :
  machine_wf m -> valid t -> instruction <> BREAKPOINT_INST ->
  returns machine_wf (instruction_fault t m) (dispatch_plain t instruction m).
Proof.
  intros Hm Ht Hi. unfold dispatch_plain.
  destruct (_ =? 0xc0000000); [by apply execute_register_arith_inst_wf|].
  destruct (_ =? 0).
  { destruct (_ =? BREAKPOINT_INST) eqn:E; bool_to_prop; [done|].
    destruct (negb _); [by apply execute_immediate_arith_inst_wf|done]. }
  destruct (_ =? 0x80000000); [by apply execute_memory_access_inst_wf|].
  destruct (_ =? 0xf0000000); [by apply execute_branch_inst_wf|].
  destruct (_ =? 0xe0000000); [by apply execute_cache_control_inst_wf|done].
Qed.

End Invariant.
