(* ===== verification/Safety.v ===== *)
(** * Safety: whole instructions and runs

    Any 32-bit word can be executed in any well-formed state: the invariant of
    Invariant.v is kept, no [assert] fails, and an access outside an array is only
    possible in the situations [instruction_hazard] lists. *)

From S2P Require Export Invariant System.

Section Safety.

Context {D : Type} `{Host D} (nc tpc : Z).
Implicit Types m : machine D.

(** ** Breakpoints *)

Lemma lookup_breakpoint_wf bps at_pc bp :
  Forall breakpoint_wf bps -> lookup_breakpoint bps at_pc = Some bp -> breakpoint_wf bp.
Proof.
  induction 1 as [|b bps Hb _ IH]; simpl; [done|].
  destruct (_ =? _); [by intros [= <-]|exact IH].
Qed.

Lemma update_breakpoint_wf f bps at_pc :
  (forall b, breakpoint_wf b -> breakpoint_wf (f b)) -> Forall breakpoint_wf bps ->
  Forall breakpoint_wf (update_breakpoint f at_pc bps).
Proof.
  intros Hf. induction 1 as [|b bps Hb Hbs IH]; simpl; [apply Forall_nil_2|].
  destruct (_ =? _); apply List.Forall_cons; auto.
Qed.

Lemma unlink_breakpoint_wf bps at_pc :
  Forall breakpoint_wf bps -> Forall breakpoint_wf (unlink_breakpoint at_pc bps).
Proof.
  induction 1 as [|b bps Hb Hbs IH]; simpl; [apply Forall_nil_2|].
  destruct (_ =? _); [done|]. by apply List.Forall_cons.
Qed.

Lemma set_restart_wf b at_pc m :
  machine_wf nc tpc m ->
  machine_wf nc tpc (on_proc (fun p => p <| breakpoints ::=
    update_breakpoint (fun bp => bp <| restart := b |>) at_pc |>) m).
Proof.
  intros Hm. apply on_proc_wf; [done|]. rebuild (wf_proc _ _ m Hm).
  apply update_breakpoint_wf; [|done]. intros bp Hbp. rebuild Hbp.
Qed.

(** ** One instruction *)

Lemma hit_breakpoint_wf t m :
  machine_wf nc tpc m -> valid nc tpc t ->
  returns (fun r => machine_wf nc tpc r.2) (instruction_fault nc t m) (hit_breakpoint t m).
Proof.
  intros Hm Ht. unfold hit_breakpoint.
  destruct (lookup_breakpoint _ _) as [bp|] eqn:Hbp; [|by apply illegal_instruction_wf].
  pose proof (lookup_breakpoint_wf _ _ _ (wf_breakpoints _ _ _ (wf_proc _ _ m Hm)) Hbp) as Hwf.
  destruct (_ || _).
  - eapply (returns_bind (machine_wf nc tpc)); [|by intros m' Hm'].
    eapply returns_weaken; [apply dispatch_plain_wf| |].
    + by apply set_restart_wf.
    + done.
    + apply (wf_original_plain _ Hwf).
    + done.
    + done.
  - apply set_pc_field_wf; [by apply set_restart_wf|done|]. auto with words.
Qed.

Lemma dispatch_wf t instruction m :
  machine_wf nc tpc m -> valid nc tpc t ->
  returns (fun r => machine_wf nc tpc r.2) (instruction_fault nc t m) (dispatch t instruction m).
Proof.
  intros Hm Ht. unfold dispatch.
  destruct (_ =? _) eqn:E; bool_to_prop; [by apply hit_breakpoint_wf|].
  eapply returns_bind; [by apply dispatch_plain_wf|]. by intros m' Hm'.
Qed.

Lemma count_instruction_wf m : machine_wf nc tpc m -> machine_wf nc tpc (count_instruction m).
Proof. intros Hm. apply on_proc_wf; [done|]. rebuild (wf_proc _ _ m Hm). Qed.

Lemma total_instructions_field_wf f m :
  machine_wf nc tpc m -> machine_wf nc tpc (on_proc (fun p => p <| single_stepping := f |>) m).
Proof. intros Hm. apply on_proc_wf; [done|]. rebuild (wf_proc _ _ m Hm). Qed.

(** The thread's PC after the fetch. *)
Definition advance_pc (t : thread_ptr) m : machine D :=
  on_thread t (fun th => th <| pc ::= fun p => u32 (p + 4) |>) m.

(** Where instruction fetch reads, when translation succeeds. *)
Definition fetch_address (t : thread_ptr) m : option Z :=
  fst (translate_address t (pc (the_thread t m)) false false (advance_pc t m)).

(** The situations in which an instruction can reach outside an array: more than
    one core (the loop of [invalidate_sync_address]), a fetch from the device
    registers, and a subcycle the program set past the last lane. *)
Definition instruction_hazard (t : thread_ptr) m : Prop :=
  nc <> 1
  \/ (exists physical, fetch_address t m = Some physical /\ DEVICE_BASE_ADDRESS <= physical)
  \/ Z.of_nat NUM_VECTOR_LANES <= subcycle (the_thread t m).

Definition step_fault (t : thread_ptr) m (f : fault) : Prop :=
  f = HostExit \/ (f = OutOfBounds /\ instruction_hazard t m).

Lemma execute_instruction_wf t m :
  machine_wf nc tpc m -> valid nc tpc t ->
  returns (fun r => machine_wf nc tpc r.2) (step_fault t m) (execute_instruction t m).
Proof.
  intros Hm Ht. pose proof (wf_pc _ (the_thread_wf _ _ t m Hm Ht)) as Hpc.
  unfold execute_instruction. change (on_thread t _ m) with (advance_pc t m).
  assert (Hm1 : machine_wf nc tpc (advance_pc t m))
    by (apply set_pc_field_wf; [done|done|auto with words]).
  destruct (negb _).
  { apply raise_trap_wf; [done|done| |done]. apply (wf_pc _ (the_thread_wf nc tpc t _ Hm1 Ht)). }
  pose proof (translate_address_ok nc tpc t (pc (the_thread t m)) false false _ Hm1 Ht Hpc) as Hok.
  assert (Hfetch : fetch_address t m
    = (translate_address t (pc (the_thread t m)) false false (advance_pc t m)).1) by done.
  destruct (translate_address _ _ _ _ _) as [[physical|] m']; [|exact Hok].
  destruct Hok as [-> ([? ?] & _ & Hin)].
  eapply (returns_bind is_u32).
  - destruct Hin as [Hin|Hdev].
    + eapply load32_returns; [apply (wf_proc _ _ _ Hm1)|done].
    + unfold load32, load_element. destruct (_ && _).
      * simpl. apply is_u32_extract_unsigned; [|lia].
        change (32 / 32) with 1. rewrite Z.mod_1_r. lia.
      * right. split; [done|]. right. left. by exists physical.
  - intros instruction _. eapply returns_weaken;
      [apply dispatch_wf; [by apply count_instruction_wf|done]|done|].
    assert (Hsub : subcycle (the_thread t (count_instruction (advance_pc t m)))
      = subcycle (the_thread t m)).
    { change (the_thread t (count_instruction (advance_pc t m)))
        with (the_thread t (advance_pc t m)).
      unfold advance_pc. by rewrite (the_thread_on_thread nc tpc). }
    intros f [[->|[-> Hnc]]|[-> Hl]]; [by left|right..]; (split; [done|]).
    + by left.
    + right. right. by rewrite <- Hsub.
Qed.

(** ** Runs *)

Lemma timer_tick_wf m : machine_wf nc tpc m -> machine_wf nc tpc (timer_tick m).
Proof.
  intros Hm. unfold timer_tick. destruct (0 <? _) eqn:Hpos; [|done]. bool_to_prop.
  set (m1 := on_proc _ m). assert (Hm1 : machine_wf nc tpc m1).
  { apply on_proc_wf; [done|]. rebuild (wf_proc _ _ m Hm). destruct wf_timer. split; lia. }
  clearbody m1. destruct (_ =? 1); [|done]. apply raise_interrupt_wf; [done|by split].
Qed.

Lemma get_thread_valid m thread_id :
  machine_wf nc tpc m -> 0 <= thread_id < tpc * nc -> valid nc tpc (get_thread (proc m) thread_id).
Proof.
  intros Hm Hi. destruct (wf_topology _ _ _ (wf_proc _ _ m Hm)) as (Htpc & _).
  unfold valid, get_thread. simpl. rewrite (wf_threads_per_core _ _ _ (wf_proc _ _ m Hm)).
  pose proof (Z.mod_pos_bound thread_id tpc ltac:(lia)).
  assert (thread_id / tpc < nc) by (apply Z.div_lt_upper_bound; lia).
  pose proof (Z.div_pos thread_id tpc). lia.
Qed.

(** What a scheduler must promise: an enabled thread, and a well-formed machine. *)
Definition chooser_ok (choose : Z -> machine D -> Z * machine D) : Prop :=
  forall next m, machine_wf nc tpc m -> thread_enable_mask (proc m) <> 0 -> 0 <= next < 32 ->
    machine_wf nc tpc (choose next m).2
    /\ 0 <= (choose next m).1 < tpc * nc
    /\ Z.testbit (thread_enable_mask (proc m)) (choose next m).1 = true
    /\ ((choose next m).2 = m \/ (choose next m).2 = m <| host := (host_next_random (host m)).2 |>).

Lemma mask_bit_range m r :
  machine_wf nc tpc m -> 0 <= r -> Z.testbit (thread_enable_mask (proc m)) r = true ->
  0 <= r < tpc * nc.
Proof.
  intros Hm Hr Hb. destruct (wf_enable_mask _ _ _ (wf_proc _ _ m Hm)) as [H0 H1].
  destruct (wf_topology _ _ _ (wf_proc _ _ m Hm)) as (? & ? & _).
  split; [done|]. destruct (Z.lt_ge_cases r (tpc * nc)) as [?|Hge]; [done|].
  assert (is_unsigned (tpc * nc) (thread_enable_mask (proc m))) as Hu by by split.
  apply is_unsigned_bits in Hu as [_ Hu]; [|nia]. by rewrite Hu in Hb.
Qed.

Lemma enable_mask_u32 m : machine_wf nc tpc m -> is_u32 (thread_enable_mask (proc m)).
Proof.
  intros Hm. destruct (wf_enable_mask _ _ _ (wf_proc _ _ m Hm)) as [H0 H1].
  destruct (wf_topology _ _ _ (wf_proc _ _ m Hm)) as (? & ? & ?).
  pose proof (Z.pow_le_mono_r 2 (tpc * nc) 32). split; lia.
Qed.

Lemma next_set_bit_ok m index :
  machine_wf nc tpc m -> thread_enable_mask (proc m) <> 0 -> 0 <= index < 32 ->
  0 <= next_set_bit (thread_enable_mask (proc m)) index < tpc * nc
  /\ Z.testbit (thread_enable_mask (proc m)) (next_set_bit (thread_enable_mask (proc m)) index) = true.
Proof.
  intros Hm Hne Hi. pose proof (enable_mask_u32 m Hm) as Hu.
  destruct (next_set_bit_on_chosen 1 (thread_enable_mask (proc m)) index) as ([Hr _] & Hb & _);
    [by right|destruct Hu; lia|done|done|].
  split; [|done]. apply (mask_bit_range m); [done|apply Hr|done].
Qed.

Lemma choose_round_robin_ok : chooser_ok choose_round_robin.
Proof.
  intros next m Hm Hne Hn. split; [done|]. rewrite assoc; [|apply _]. split; [|by left].
  apply next_set_bit_ok; [done|done|].
  pose proof (Z.land_ones (u32 (next + 31)) 5 ltac:(lia)) as Hl.
  change (Z.ones 5) with 31 in Hl. rewrite Hl. by apply Z.mod_pos_bound.
Qed.

Lemma choose_random_ok : chooser_ok choose_random.
Proof.
  intros next m Hm Hne Hn. unfold choose_random.
  pose proof (next_random_host_wf (host m) (wf_host _ _ m Hm)) as [_ Hh].
  destruct (host_next_random (host m)) as [r d]. split; [constructor; [apply Hm|done]|].
  rewrite assoc; [|apply _]. split; [|by right]. apply next_set_bit_ok; [done|done|].
  rewrite (wf_total_threads _ _ _ (wf_proc _ _ m Hm)).
  destruct (wf_topology _ _ _ (wf_proc _ _ m Hm)) as (? & ? & ?).
  pose proof (Z.mod_pos_bound (u32 r) (tpc * nc) ltac:(nia)). simpl. lia.
Qed.

(** What a run does to the machine: instructions, the timer, random numbers for the choice of
    a thread, starting a batch, and what comes from [outside]. *)
Section Runs.

Context (outside : machine D -> machine D -> Prop).

Inductive machine_step : machine D -> machine D -> Prop :=
| instruction_step t m b m' : valid nc tpc t -> execute_instruction t m = Done (b, m') -> machine_step m m'
| tick_step m : machine_step m (timer_tick m)
| draw_step m : machine_step m (m <| host := (host_next_random (host m)).2 |>)
| batch_step m : machine_step m (on_proc (fun p => p <| single_stepping := false |>) m)
| outside_step m m' : outside m m' -> machine_step m m'.

Context (start : machine D).

Inductive run_to : machine D -> Prop :=
| run_to_start : run_to start
| run_to_step m m' : run_to m -> machine_step m m' -> run_to m'.

Definition reached m : Prop := machine_wf nc tpc m /\ run_to m.

(** The faults a run can end in: an instruction of a machine it reached has it. *)
Definition run_fault (f : fault) : Prop :=
  exists t m, reached m /\ valid nc tpc t /\ execute_instruction t m = Fault f /\ step_fault t m f.

Lemma reached_step m m' : machine_wf nc tpc m' -> reached m -> machine_step m m' -> reached m'.
Proof. intros Hm' [_ Hr] Hs. split; [done|]. by eapply run_to_step. Qed.

Lemma execute_instruction_reached t m :
  reached m -> valid nc tpc t -> returns (fun r => reached r.2) run_fault (execute_instruction t m).
Proof.
  intros Hm Ht. pose proof (execute_instruction_wf t m (proj1 Hm) Ht) as Hwf.
  destruct (execute_instruction t m) as [[b m']|f] eqn:E; simpl in *.
  - apply (reached_step m); [done|done|]. by eapply instruction_step.
  - by exists t, m.
Qed.

Lemma schedule_step_wf choose next m :
  chooser_ok choose -> reached m -> 0 <= next < 32 ->
  returns (fun r => reached r.2 /\ 0 <= r.1.2 < 32) run_fault (schedule_step choose next m).
Proof.
  intros Hc Hm Hn. unfold schedule_step. destruct (_ =? 0) eqn:E; bool_to_prop; [done|].
  destruct (crashed _); [done|]. destruct (Hc next m (proj1 Hm) E Hn) as (Hm' & Hr & _ & Hdraw).
  destruct (choose next m) as [next' m']. simpl in *.
  assert (Hn' : 0 <= next' < 32).
  { destruct (wf_topology _ _ _ (wf_proc _ _ m (proj1 Hm))) as (? & ? & ?). lia. }
  assert (Hreach : reached m').
  { destruct Hdraw as [->|Hdraw]; [done|]. apply (reached_step m); [done|done|]. rewrite Hdraw. apply draw_step. }
  eapply returns_bind; [apply execute_instruction_reached; [exact Hreach|by apply get_thread_valid]|].
  intros [continue m2] Hm2. destruct (negb continue); split; try done.
  apply (reached_step m2); [by apply timer_tick_wf, Hm2|done|apply tick_step].
Qed.

Lemma schedule_wf choose n next m :
  chooser_ok choose -> reached m -> 0 <= next < 32 ->
  returns (fun r => reached r.2) run_fault (schedule choose n next m).
Proof.
  intros Hc. revert next m. induction n as [|n IH]; intros next m Hm Hn; simpl; [done|].
  eapply returns_bind; [by apply schedule_step_wf|]. intros [[stop next'] m'] [Hm' Hn'].
  destruct stop; [done|]. by apply IH.
Qed.

Lemma execute_instructions_wf n m :
  reached m -> returns (fun r => reached r.2) run_fault (execute_instructions n m).
Proof.
  intros Hm. unfold execute_instructions.
  assert (Hm1 : reached (on_proc (fun p => p <| single_stepping := false |>) m)).
  { apply (reached_step m); [by apply total_instructions_field_wf, Hm|done|apply batch_step]. }
  destruct (random_thread_sched _); apply schedule_wf;
    auto using choose_random_ok, choose_round_robin_ok with lia; lia.
Qed.

End Runs.

End Safety.

(** ** The initial state *)

Lemma init_thread_wf thread_id : is_u32 thread_id -> thread_wf (init_thread thread_id).
Proof.
  intros Hi. assert (Hz : trap_state_wf zero_trap_state) by by constructor.
  constructor; simpl; try done.
  - split; [done|]. apply (Forall_replicate is_u32 32 0). by split.
  - split; [done|]. apply (Forall_replicate vector_wf 32 (replicate 16 0)).
    split; [done|]. apply (Forall_replicate is_u32 16 0). by split.
Qed.

Lemma init_tlb_wf uninit : tlb_entry_wf uninit -> tlb_wf (init_tlb uninit).
Proof.
  intros Hu. unfold init_tlb. split; [by rewrite length_replicate|].
  apply Forall_replicate. rebuild Hu.
Qed.

Lemma init_core_wf uninit tpc core_id :
  tlb_entry_wf uninit -> 1 <= tpc <= 32 -> 0 <= core_id -> core_id * tpc + tpc <= 32 ->
  core_wf tpc (init_core uninit tpc core_id).
Proof.
  intros Hu Ht Hc Hb. constructor; simpl; try done; try by apply init_tlb_wf.
  split; [rewrite length_map, length_seq; lia|]. apply Forall_map, Forall_forall.
  intros i Hi. apply in_seq in Hi. apply init_thread_wf. split; [|change (2 ^ 32) with 4294967296]; lia.
Qed.

Definition source_wf (size : Z) (source : memory_source) : Prop :=
  match source with
  | SharedMemory words => Forall is_u32 words /\ Z.of_nat (length words) * 4 = size
  | _ => True
  end.

Lemma random_words_wf n s : length (random_words n s) = n /\ Forall is_u32 (random_words n s).
Proof.
  revert s. induction n as [|n IH]; intros s; [by split; [|apply Forall_nil_2]|].
  destruct s as [s0 s1]. cbn [random_words]. destruct (Random.next_random _) as [r s'].
  destruct (IH s') as [Hl Hw]. split; [simpl; by rewrite Hl|].
  apply List.Forall_cons; [auto with words|done].
Qed.

Lemma initial_memory_wf size source :
  source_wf size source -> 0 <= size <= DEVICE_BASE_ADDRESS -> (CACHE_LINE_LENGTH | size) ->
  memory_wf (initial_memory size source) size.
Proof.
  intros Hs Hsize [k Hk]. unfold CACHE_LINE_LENGTH in Hk.
  assert (Hq : size / 4 * 4 = size).
  { rewrite Z.mul_comm. symmetry. apply Z.div_exact; [lia|]. rewrite Hk.
    replace (k * 64) with (k * 16 * 4) by lia. by apply Z.mod_mul. }
  assert (0 <= size / 4) by (apply Z.div_pos; lia).
  unfold initial_memory. destruct source as [|seed|words]; constructor; try lia; try by exists k.
  - apply Forall_replicate. by split.
  - rewrite length_replicate. lia.
  - apply random_words_wf.
  - destruct (random_words_wf (Z.to_nat (size / 4)) seed) as [-> _]. lia.
  - apply Hs.
  - apply Hs.
Qed.

(** What [main] passes to [init_processor]. *)
Record valid_configuration (uninit : tlb_entry) (size nc tpc : Z) (source : memory_source) : Prop := {
  conf_tlb : tlb_entry_wf uninit;
  conf_threads : 1 <= tpc /\ 1 <= nc /\ tpc * nc <= 32;
  conf_size : 0 <= size <= DEVICE_BASE_ADDRESS /\ (CACHE_LINE_LENGTH | size);
  conf_source : source_wf size source
}.

Lemma init_processor_wf uninit size nc tpc source :
  valid_configuration uninit size nc tpc source ->
  exists p, init_processor uninit size nc tpc source = Done p /\ processor_wf nc tpc p.
Proof.
  intros [Hu (Ht & Hc & Hb) [Hsize Hline] Hsrc]. unfold init_processor.
  rewrite (proj2 (Z.leb_le (nc * tpc) 32)) by lia. eexists. split; [done|].
  constructor; simpl; try done.
  - assert (2 ^ 1 <= 2 ^ (tpc * nc)) by (apply Z.pow_le_mono_r; nia). lia.
  - split; [rewrite length_map, length_seq; lia|]. apply Forall_map, Forall_forall.
    intros i Hi. apply in_seq in Hi. apply init_core_wf; [done|nia..].
  - by apply initial_memory_wf.
Qed.

(** ** The emulator of main.c *)

Section Emulator.

Context (nc tpc : Z).
Implicit Types m : machine devices.

Lemma enqueue_serial_char_wf c m :
  machine_wf nc tpc m -> machine_wf nc tpc (enqueue_serial_char c m).
Proof.
  intros Hm. apply raise_interrupt_wf; [|by split].
  constructor; [apply Hm|]. by apply put_serial_char_wf, (wf_host _ _ m Hm).
Qed.

(** What arrives while the emulator runs. *)
Definition arrives m m' : Prop :=
  (exists c, m' = enqueue_serial_char c m) \/ (exists byte, pipe_interrupt byte m = Done m').

(** How a run with these inputs can end: in a fault of an instruction, or at a byte of the
    interrupt pipe that is negative as a [char]. *)
Definition emulator_fault (start : machine devices) (inputs : list host_input) (f : fault) : Prop :=
  run_fault nc tpc arrives start f
  \/ f = OutOfBounds /\ exists input byte, input ∈ inputs /\ pipe_byte input = Some byte /\ s8 byte < 0.

Abbreviation seen := (reached nc tpc arrives).

Lemma pipe_interrupt_wf start byte m :
  seen start m -> 0 <= byte -> returns (seen start) (fun _ => False) (pipe_interrupt byte m).
Proof.
  intros Hm Hbyte. destruct (pipe_interrupt byte m) as [m'|f] eqn:E; simpl.
  - apply (reached_step nc tpc arrives start m); [|done|apply outside_step; right; by exists byte].
    unfold pipe_interrupt in E. destruct (16 <? byte) eqn:H16; [injection E as <-; apply Hm|].
    destruct (byte <? 0); [done|]. injection E as <-. bool_to_prop. apply raise_interrupt_wf; [apply Hm|].
    rewrite Z.shiftl_1_l. pose proof (Z.pow_le_mono_r 2 byte 16). pose proof (Z.pow_pos_nonneg 2 byte). split; lia.
  - unfold pipe_interrupt in E. destruct (16 <? byte); [done|]. rewrite (proj2 (Z.ltb_ge byte 0)) in E by done. done.
Qed.

Lemma typed_wf start l m : seen start m -> seen start (fold_left (fun m c => enqueue_serial_char c m) l m).
Proof.
  revert m. induction l as [|c l IH]; intros m Hm; [done|]. apply IH.
  apply (reached_step nc tpc arrives start m); [by apply enqueue_serial_char_wf, Hm|done|apply outside_step; left; by exists c].
Qed.

Lemma poll_inputs_wf start inputs input m :
  seen start m -> input ∈ inputs -> returns (seen start) (emulator_fault start inputs) (poll_inputs input m).
Proof.
  intros Hm Hin. unfold poll_inputs. destruct (pipe_byte input) as [byte|] eqn:Hbyte; [|by apply typed_wf].
  destruct (16 <? s8 byte); [done|]. destruct (Z.lt_ge_cases (s8 byte) 0) as [Hneg|Hpos].
  - unfold pipe_interrupt. rewrite (proj2 (Z.ltb_ge 16 (s8 byte))), (proj2 (Z.ltb_lt (s8 byte) 0)) by lia.
    right. split; [done|]. by exists input, byte.
  - eapply returns_bind; [|intros m' Hm'; by apply typed_wf].
    eapply returns_weaken; [by apply (pipe_interrupt_wf start)|done|done].
Qed.

Lemma run_normal_wf start inputs batch rest m :
  seen start m -> (forall input, input ∈ rest -> input ∈ inputs) ->
  returns (fun r => seen start r.2) (emulator_fault start inputs) (run_normal batch rest m).
Proof.
  revert m. induction rest as [|input rest IH]; intros m Hm Hin; simpl; [done|].
  eapply returns_bind.
  - eapply returns_weaken; [apply (execute_instructions_wf nc tpc arrives start batch m Hm)|intros r Hr; exact Hr|intros f Hf; by left].
  - intros [continue m1] Hm1. destruct (negb continue); [done|].
    eapply returns_bind; [apply (poll_inputs_wf start inputs input m1 Hm1), Hin; left|].
    intros m2 Hm2. apply IH; [done|]. intros x Hx. apply Hin. by right.
Qed.

End Emulator.

(** C1: the interpreter is total on instruction words.  In any well-formed state,
    whatever 32-bit word a thread fetches, [execute_instruction] returns and keeps
    the machine well-formed: every register, TLB entry, trap slot and memory word
    stays a 32-bit value and every array keeps its length.  No [assert] of
    processor.c can fail.  The only faults are the [exit] of a device model, and
    an access outside an array with more than one core, on a fetch from the device
    registers, or with a subcycle of 16 or more. *)
Theorem execute_instruction_safe D (host : Host D) nc tpc t (m : machine D) :
  machine_wf nc tpc m -> valid nc tpc t ->
  returns (fun r => machine_wf nc tpc r.2) (step_fault nc t m) (execute_instruction t m).
Proof. apply execute_instruction_wf. Qed.

(** The machine of the examples: one core of two threads, 256 bytes of memory. *)
Definition small_devices : devices := devices_init (sdmmc_init (Random.seed_random 1)) false.

Definition small_machine (words : list Z) : machine devices :=
  match init_processor (Build_tlb_entry 0 0 0) 256 1 2 (SharedMemory words) with
  | Done p => Build_machine p cosim_init small_devices
  | Fault _ => Build_machine (Build_processor 0 0 0 0 [] [] [] 0 0 false false false false false 0 0)
      cosim_init small_devices
  end.

Definition thread0 : thread_ptr := {| p_core := 0; p_thread := 0 |}.

Lemma small_devices_wf : devices_wf small_devices.
Proof. apply devices_init_wf, sdmmc_init_wf. split; vm_decide. Qed.

Lemma small_machine_wf words :
  Forall is_u32 words -> length words = 64%nat -> machine_wf 1 2 (small_machine words).
Proof.
  intros Hw Hl.
  destruct (init_processor_wf (Build_tlb_entry 0 0 0) 256 1 2 (SharedMemory words)) as (p & Hp & Hwf).
  - constructor; [by constructor|lia|split; [done|by exists 4]|]. split; [done|]. rewrite Hl. done.
  - unfold small_machine. rewrite Hp. constructor; [done|apply small_devices_wf].
Qed.

Lemma thread0_valid : valid 1 2 thread0.
Proof. by split. Qed.

Lemma execute_instruction_safe_witness :
  let m := small_machine (replicate 64 0xffffffff) in
  machine_wf 1 2 m /\ valid 1 2 thread0 /\
  returns (fun r => machine_wf 1 2 r.2) (step_fault 1 thread0 m) (execute_instruction thread0 m).
Proof.
  intros m.
  assert (Hm : machine_wf 1 2 m) by (apply small_machine_wf; [by apply Forall_replicate|done]).
  split; [exact Hm|]. split; [exact thread0_valid|].
  exact (execute_instruction_safe devices device_host 1 2 thread0 m Hm thread0_valid).
Defined.

(** C4: from power-up, with any program in memory, any SD card image, any
    interrupt bytes and any typed characters, after any number of batches the emulator's main
    loop has stopped by itself with a well-formed machine, or it is inside an instruction of a
    well-formed machine that the run reached, and that instruction ends in the [exit] of a
    device or is one of those of [instruction_hazard] (an access outside an array with more
    than one core, on a fetch from the device registers, or with a subcycle past the lanes),
    or it was given a byte of 0x80 or more on the interrupt pipe. *)
Theorem emulator_run_safe uninit size nc tpc source random file pipe batch inputs :
  valid_configuration uninit size nc tpc source -> Random.wf random -> file_of_bytes file ->
  exists p, init_processor uninit size nc tpc source = Done p /\
    let card := (open_sdmmc_device file (sdmmc_init random)).2 in
    let start := Build_machine p cosim_init (devices_init card pipe) in
    returns (fun r => machine_wf nc tpc r.2) (emulator_fault nc tpc start inputs) (run_normal batch inputs start).
Proof.
  intros Hc Hr Hf. destruct (init_processor_wf _ _ _ _ _ Hc) as (p & Hp & Hwf).
  exists p. split; [done|]. intros card start.
  eapply returns_weaken; [apply (run_normal_wf nc tpc start inputs); [|done]|by intros r [Hm _]|done].
  split; [|apply run_to_start]. constructor; [done|]. apply devices_init_wf, open_sdmmc_device_wf; try done.
  by apply sdmmc_init_wf.
Qed.

Lemma emulator_run_safe_witness :
  valid_configuration (Build_tlb_entry 0 0 0) 64 1 1 ClearedMemory /\
  Random.wf (Random.seed_random 1) /\ file_of_bytes None /\
  exists p, init_processor (Build_tlb_entry 0 0 0) 64 1 1 ClearedMemory = Done p /\
    let card := (open_sdmmc_device None (sdmmc_init (Random.seed_random 1))).2 in
    let start := Build_machine p cosim_init (devices_init card true) in
    returns (fun r => machine_wf 1 1 r.2) (emulator_fault 1 1 start [{| pipe_byte := Some 4; typed := [65] |}])
      (run_normal 3 [{| pipe_byte := Some 4; typed := [65] |}] start).
Proof.
  assert (Hc : valid_configuration (Build_tlb_entry 0 0 0) 64 1 1 ClearedMemory).
  { constructor; [by constructor|lia|split; [done|by exists 1]|done]. }
  assert (Hr : Random.wf (Random.seed_random 1)) by (split; vm_decide).
  assert (Hf : file_of_bytes None) by done.
  split; [exact Hc|]. split; [exact Hr|]. split; [exact Hf|].
  exact (emulator_run_safe (Build_tlb_entry 0 0 0) 64 1 1 ClearedMemory (Random.seed_random 1)
    None true 3 [{| pipe_byte := Some 4; typed := [65] |}] Hc Hr Hf).
Defined.
