(* ===== verification/Confinement.v ===== *)
(** * Confinement: what a program in user mode can change

    The processor has no other protection than its own checks of
    [enable_supervisor].  Here every instruction a user-mode thread executes is
    shown to leave the privileged state alone, except by entering a handler. *)

From S2P Require Export Safety.

Section Confinement.

Context {D : Type} `{Host D}.
Implicit Types m : machine D.

(** ** The privileged state *)

(** The core's handlers, interrupt configuration and TLBs. *)
Definition core_view (c : core) :=
  (length (threads c), trap_handler_pc c, tlb_miss_handler_pc c, is_level_triggered c,
   (itlb c, next_itlb_way c), (dtlb c, next_dtlb_way c)).

(** The control registers of a thread. *)
Definition address_space_view (th : thread) :=
  (id th, asid th, page_dir th, interrupt_mask th, latched_interrupts th).

Definition mode_view (th : thread) :=
  (address_space_view th, (enable_interrupt th, enable_mmu th, enable_supervisor th),
   (saved_trap_state_0 th, saved_trap_state_1 th)).

(** No privileged state of any core or thread differs. *)
Record quiet m m' : Prop := {
  quiet_enable_mask : thread_enable_mask (proc m') = thread_enable_mask (proc m);
  quiet_cores : length (cores (proc m')) = length (cores (proc m));
  quiet_core : forall t, core_view (the_core t m') = core_view (the_core t m);
  quiet_thread : forall t, mode_view (the_thread t m') = mode_view (the_thread t m)
}.

Lemma quiet_refl m : quiet m m.
Proof. by constructor. Qed.

Lemma quiet_trans m1 m2 m3 : quiet m1 m2 -> quiet m2 m3 -> quiet m1 m3.
Proof.
  intros [E1 L1 C1 T1] [E2 L2 C2 T2]. constructor; congruence.
Qed.

#[local] Instance quiet_preorder : PreOrder quiet.
Proof. split; [exact quiet_refl|exact quiet_trans]. Qed.

(** ** Quiet updates *)

(** A view that an update preserves is preserved by applying it at one index. *)
Lemma total_alter_view {A B} `{Inhabited A} (view : A -> B) f i j (l : list A) :
  (forall x, view (f x) = view x) -> view (alter f i l !!! j) = view (l !!! j).
Proof.
  intros Hf. rewrite !list_lookup_total_alt. destruct (decide (i = j)) as [->|Hne].
  - rewrite list_lookup_alter_eq. destruct (l !! j); simpl; auto.
  - by rewrite list_lookup_alter_ne.
Qed.

Lemma on_proc_quiet f m :
  thread_enable_mask (f (proc m)) = thread_enable_mask (proc m) ->
  cores (f (proc m)) = cores (proc m) -> quiet m (on_proc f m).
Proof.
  intros He Hc. constructor; unfold the_core, the_thread; simpl; rewrite ?Hc; try done.
  intros t. unfold the_core. simpl. by rewrite Hc.
Qed.

Lemma cores_quiet m (m' : machine D) :
  thread_enable_mask (proc m') = thread_enable_mask (proc m) ->
  cores (proc m') = cores (proc m) -> quiet m m'.
Proof.
  intros He Hc. constructor; unfold the_core, the_thread; rewrite ?Hc; try done.
  intros t. unfold the_core. by rewrite Hc.
Qed.

Lemma on_core_quiet t f m :
  (forall c, core_view (f c) = core_view c) ->
  (forall c i, mode_view (threads (f c) !!! i) = mode_view (threads c !!! i)) ->
  quiet m (on_core t f m).
Proof.
  intros Hc Hth. constructor.
  - done.
  - apply length_alter.
  - intros t'. apply (total_alter_view core_view), Hc.
  - intros t'. unfold the_thread.
    apply (total_alter_view (fun c => mode_view (threads c !!! p_thread t'))). intros c. apply Hth.
Qed.

Lemma on_thread_quiet t f m :
  (forall th, mode_view (f th) = mode_view th) -> quiet m (on_thread t f m).
Proof.
  intros Hf. apply on_core_quiet.
  - intros c. unfold core_view. simpl. by rewrite length_alter.
  - intros c i. simpl. by apply total_alter_view.
Qed.

Lemma with_cosim_quiet check m : quiet m (with_cosim check m).
Proof. apply cores_quiet; unfold with_cosim; by destruct (enable_cosim _). Qed.

Lemma crash_quiet m : quiet m (crash m).
Proof. by apply on_proc_quiet. Qed.

Lemma set_scalar_quietly_quiet t reg v m : quiet m (set_scalar_quietly t reg v m).
Proof. by apply on_thread_quiet. Qed.

Lemma set_scalar_reg_quiet t reg v m : quiet m (set_scalar_reg t reg v m).
Proof.
  unfold set_scalar_reg. etransitivity; [apply with_cosim_quiet|]. by apply on_thread_quiet.
Qed.

Lemma set_vector_reg_quiet t reg mask v m : quiet m (set_vector_reg t reg mask v m).
Proof.
  unfold set_vector_reg. etransitivity; [apply with_cosim_quiet|]. by apply on_thread_quiet.
Qed.

Lemma set_memory_quiet mem m : quiet m (set_memory mem m).
Proof. by apply on_proc_quiet. Qed.

Lemma set_pc_quiet t v m : quiet m (set_pc t v m).
Proof. by apply on_thread_quiet. Qed.

Lemma branch_by_quiet t v m : quiet m (branch_by t v m).
Proof. by apply on_thread_quiet. Qed.

Lemma load_device_quiet a m : quiet m (load_device a m).2.
Proof.
  unfold load_device. destruct (read_device_register a (host m)) as [[v c] d].
  by apply cores_quiet.
Qed.

Lemma invalidate_threads_views ids line ths ths' :
  invalidate_threads ids line ths = Done ths' ->
  length ths' = length ths /\ forall i, mode_view (ths' !!! i) = mode_view (ths !!! i).
Proof.
  revert ths. induction ids as [|i ids IH]; intros ths Hd; simpl in Hd.
  - by injection Hd as <-.
  - destruct (ths !! i) as [th|] eqn:Hi; [|done].
    destruct (IH _ Hd) as [Hl Hv]. destruct (_ =? line); [|done].
    rewrite length_insert in Hl. split; [done|]. intros j. rewrite Hv.
    rewrite !list_lookup_total_alt. destruct (decide (i = j)) as [<-|Hne].
    + rewrite list_lookup_insert_eq by by eapply lookup_lt_Some. by rewrite Hi.
    + by rewrite list_lookup_insert_ne.
Qed.

Lemma invalidate_sync_address_quiet t a m m' :
  invalidate_sync_address t a m = Done m' -> quiet m m'.
Proof.
  unfold invalidate_sync_address. intros Hd.
  apply bind_Done_inv in Hd as (ths & Hths & Hd). injection Hd as <-.
  destruct (invalidate_threads_views _ _ _ _ Hths) as [Hl Hv].
  destruct (decide (p_core t < length (cores (proc m)))%nat) as [Hlt|Hge].
  - destruct (lookup_lt_is_Some_2 _ _ Hlt) as [c Hc].
    assert (Hcore : the_core t m = c) by (unfold the_core; by apply list_lookup_total_correct).
    constructor; [done|apply length_alter| |]; intros t'.
    + unfold the_core, on_core. simpl. destruct (decide (p_core t = p_core t')) as [<-|Hne].
      * rewrite list_lookup_total_alter_eq by done. unfold core_view. simpl. rewrite Hl.
        done.
      * by rewrite list_lookup_total_alter_ne.
    + unfold the_thread, the_core, on_core. simpl.
      destruct (decide (p_core t = p_core t')) as [<-|Hne].
      * rewrite list_lookup_total_alter_eq by done. simpl. apply Hv.
      * by rewrite list_lookup_total_alter_ne.
  - apply cores_quiet; [done|]. simpl. apply list_eq. intros i.
    rewrite list_lookup_alter. case_decide; [|done]. subst. by rewrite lookup_ge_None_2 by lia.
Qed.

(** ** Instructions in user mode

    An instruction changes unprivileged state and may then raise one trap. *)

Definition user_mode (t : thread_ptr) m : Prop := enable_supervisor (the_thread t m) = false.

Definition outcome (t : thread_ptr) m m' : Prop :=
  quiet m m' \/
  exists m1 address type is_store is_data syscall,
    quiet m m1 /\ m' = raise_trap t address type is_store is_data syscall m1.

Lemma user_mode_quiet t m m' : quiet m m' -> user_mode t m -> user_mode t m'.
Proof.
  intros Hq Hu. unfold user_mode. pose proof (quiet_thread _ _ Hq t) as Ht.
  unfold mode_view in Ht. by injection Ht as _ _ _ _ _ _ _ ->.
Qed.

Lemma outcome_quiet t m m' : quiet m m' -> outcome t m m'.
Proof. by left. Qed.

Lemma outcome_trap t address type is_store is_data syscall m :
  outcome t m (raise_trap t address type is_store is_data syscall m).
Proof. right. eexists m, _, _, _, _, _. by split. Qed.

Lemma outcome_trans t m m1 m' : quiet m m1 -> outcome t m1 m' -> outcome t m m'.
Proof.
  intros Hq [Hq'|(m2 & a & ty & st & da & sys & Hq' & ->)].
  - left. by etransitivity.
  - right. eexists m2, a, ty, st, da, sys. split; [by etransitivity|done].
Qed.

Lemma illegal_instruction_outcome t m : outcome t m (illegal_instruction t m).
Proof. apply outcome_trap. Qed.

Lemma privileged_op_outcome t m : outcome t m (privileged_op t m).
Proof. apply outcome_trap. Qed.

Lemma translate_address_outcome t address is_store is_data m :
  match translate_address t address is_store is_data m with
  | (Some _, m') => m' = m
  | (None, m') => outcome t m m'
  end.
Proof.
  unfold translate_address. destruct (negb _).
  - destruct (out_of_range _ _); [apply outcome_quiet, crash_quiet|done].
  - destruct (find_way _ _ _); [|apply outcome_trap]. unfold check_entry.
    destruct (negb _); [apply outcome_trap|].
    destruct (_ && _); [apply outcome_trap|].
    destruct (_ && _); [apply outcome_trap|].
    destruct (_ && _); [apply outcome_trap|].
    destruct (out_of_range _ _); [apply outcome_quiet, crash_quiet|done].
Qed.

Lemma user_cache_control t instruction m :
  user_mode t m -> outcome t m (execute_cache_control_inst t instruction m).
Proof.
  intros Hu.
  assert (Hflush : outcome t m (cache_flush t instruction m)).
  { unfold cache_flush. set (a := u32 _).
    pose proof (translate_address_outcome t a false true m) as Ht.
    destruct (translate_address _ _ _ _ _) as [[p|] m']; simpl; [rewrite Ht; by left|done]. }
  unfold execute_cache_control_inst, cache_tlb_insert, cache_tlb_invalidate,
    cache_tlb_invalidate_all, is_supervisor. rewrite Hu. cbn [negb].
  destruct (enum_of_Z _) as [[]|]; lazymatch goal with
    | |- outcome _ _ (cache_flush _ _ _) => exact Hflush
    | |- outcome _ _ (privileged_op _ _) => apply privileged_op_outcome
    | |- outcome _ ?m ?m => by left
    end.
Qed.

(** The cases of an arithmetic instruction: a register write or a trap. *)
Ltac arith_outcome :=
  lazymatch goal with
  | |- outcome _ _ (illegal_instruction _ _) => apply illegal_instruction_outcome
  | |- outcome _ _ (set_scalar_reg _ _ _ _) => apply outcome_quiet, set_scalar_reg_quiet
  | |- outcome _ _ (set_vector_reg _ _ _ _ _) => apply outcome_quiet, set_vector_reg_quiet
  end.

Lemma user_register_arith t instruction m :
  outcome t m (execute_register_arith_inst t instruction m).
Proof.
  unfold execute_register_arith_inst, register_compare, register_vector.
  case_bool_decide; [apply outcome_trap|].
  case_bool_decide; [apply outcome_quiet, set_scalar_reg_quiet|].
  destruct (is_compare_op _); [|case_bool_decide]; try destruct_enum; arith_outcome.
Qed.

Lemma user_immediate_arith t instruction m :
  outcome t m (execute_immediate_arith_inst t instruction m).
Proof.
  unfold execute_immediate_arith_inst, immediate_compare, immediate_vector.
  case_bool_decide; [apply outcome_trap|].
  case_bool_decide; [apply outcome_quiet, set_scalar_reg_quiet|].
  destruct (is_compare_op _); [|destruct (_ || _)]; try destruct_enum; arith_outcome.
Qed.

Lemma user_branch t instruction m :
  user_mode t m -> outcome t m (execute_branch_inst t instruction m).
Proof.
  intros Hu. unfold execute_branch_inst, execute_eret, is_supervisor. rewrite Hu. cbn [negb].
  destruct_enum.
  - apply outcome_quiet, set_pc_quiet.
  - destruct (_ =? 0); apply outcome_quiet; [apply branch_by_quiet|done].
  - destruct (negb _); apply outcome_quiet; [apply branch_by_quiet|done].
  - apply outcome_quiet, branch_by_quiet.
  - apply outcome_quiet. etransitivity; [apply set_scalar_reg_quiet|apply branch_by_quiet].
  - apply outcome_quiet. etransitivity; [apply set_scalar_reg_quiet|apply set_pc_quiet].
  - apply privileged_op_outcome.
  - apply illegal_instruction_outcome.
Qed.

(** What is shown of a computation: its result is an outcome, if it completes. *)
Definition confined (t : thread_ptr) m (c : result (machine D)) : Prop :=
  returns (outcome t m) (fun _ => True) c.

Lemma confined_bind {A} t m (P : A -> Prop) (c : result A) k :
  returns P (fun _ => True) c -> (forall a, P a -> confined t m (k a)) ->
  confined t m (bind_result c k).
Proof. apply returns_bind. Qed.

Lemma any_result {A} (c : result A) : returns (fun _ => True) (fun _ => True) c.
Proof. by destruct c. Qed.

Lemma quiet_result {A} (P : A -> Prop) (c : result A) :
  (forall a, c = Done a -> P a) -> returns P (fun _ => True) c.
Proof. destruct c; simpl; auto. Qed.

Lemma after_store_confined t physical address size value m :
  returns (quiet m) (fun _ => True) (after_store t physical address size value m).
Proof.
  unfold after_store. eapply returns_bind.
  - apply quiet_result. intros m' Hm'. exact (invalidate_sync_address_quiet _ _ _ _ Hm').
  - intros m' Hq. simpl. etransitivity; [exact Hq|apply with_cosim_quiet].
Qed.

Lemma store_confined t (c : result (list Z)) physical address size value m :
  returns (quiet m) (fun _ => True)
    (mem <-- c;; after_store t physical address size value (set_memory mem m)).
Proof.
  eapply returns_bind; [apply any_result|]. intros mem _.
  eapply returns_weaken; [apply after_store_confined| |done]. intros m' Hq.
  etransitivity; [apply set_memory_quiet|exact Hq].
Qed.

Lemma quiet_confined t m c : returns (quiet m) (fun _ => True) c -> confined t m c.
Proof. intros Hc. eapply returns_weaken; [exact Hc| |done]. apply outcome_quiet. Qed.

Lemma scalar_load_value_confined t op physical m :
  returns (fun r => quiet m r.2) (fun _ => True) (scalar_load_value t op physical m).
Proof.
  assert (Hl : forall (c : result Z) f, returns (fun r : option Z * machine D => quiet m r.2)
    (fun _ => True) (v <-- c;; Done (f v, m))).
  { intros c f. eapply returns_bind; [apply any_result|]. by intros v _. }
  unfold scalar_load_value. destruct op as [[]|]; try done; try apply Hl.
  - destruct (is_device_address _).
    + pose proof (load_device_quiet physical m). by destruct (load_device physical m).
    + apply (Hl _ Some).
  - eapply returns_bind; [apply any_result|]. intros v _. by apply on_thread_quiet.
Qed.

Lemma scalar_store_confined t op reg address physical m :
  confined t m (scalar_store t op reg address physical m).
Proof.
  unfold scalar_store. destruct op as [[]|]; try done;
    try (apply quiet_confined, store_confined); try apply illegal_instruction_outcome.
  - destruct (is_device_address _); [|apply quiet_confined, store_confined].
    apply quiet_confined. unfold store_device. destruct (_ =? _); [by apply on_proc_quiet|].
    eapply returns_bind; [apply any_result|]. intros d _. by apply cores_quiet.
  - destruct (_ =? _); apply quiet_confined.
    + eapply returns_weaken; [apply store_confined| |done]. intros m' Hq.
      etransitivity; [apply set_scalar_quietly_quiet|exact Hq].
    + apply set_scalar_quietly_quiet.
Qed.

Lemma user_scalar_access t instruction m :
  confined t m (execute_scalar_load_store_inst t instruction m).
Proof.
  unfold execute_scalar_load_store_inst. set (a := u32 _).
  destruct (negb _); [apply outcome_trap|].
  pose proof (translate_address_outcome t a (negb (is_load_inst instruction)) true m) as Ht.
  destruct (translate_address _ _ _ _ _) as [[physical|] m']; [|exact Ht]. subst m'.
  destruct (_ && _); [apply outcome_quiet, crash_quiet|].
  destruct (is_load_inst _); [|apply scalar_store_confined].
  eapply confined_bind; [apply scalar_load_value_confined|]. intros [[v|] m'] Hq; simpl in Hq.
  - apply outcome_quiet. etransitivity; [exact Hq|apply set_scalar_reg_quiet].
  - eapply outcome_trans; [exact Hq|apply illegal_instruction_outcome].
Qed.

Lemma user_block_access t instruction m :
  confined t m (execute_block_load_store_inst t instruction m).
Proof.
  unfold execute_block_load_store_inst. destruct (vector_operands _ _ _ _ _) as [[mask offset]|]; [|done].
  set (a := u32 _). destruct (negb _); [apply outcome_trap|].
  pose proof (translate_address_outcome t a (negb (is_load_inst instruction)) true m) as Ht.
  destruct (translate_address _ _ _ _ _) as [[physical|] m']; [|exact Ht]. subst m'.
  destruct (is_device_address _); [apply outcome_quiet, crash_quiet|].
  destruct (is_load_inst _).
  - eapply confined_bind; [apply any_result|]. intros v _. apply outcome_quiet, set_vector_reg_quiet.
  - unfold block_store. destruct (_ =? 0); [by apply quiet_confined|].
    eapply confined_bind; [apply any_result|]. intros mem _. apply quiet_confined, quiet_result.
    intros m' Hd. apply invalidate_sync_address_quiet in Hd.
    etransitivity; [apply with_cosim_quiet|]. etransitivity; [apply set_memory_quiet|exact Hd].
Qed.

Lemma user_scatter_gather t instruction m :
  confined t m (execute_scatter_gather_inst t instruction m).
Proof.
  unfold execute_scatter_gather_inst. destruct (vector_operands _ _ _ _ _) as [[mask offset]|]; [|done].
  destruct (_ <=? _); [done|]. set (a := u32 _). destruct (_ && _); [apply outcome_trap|].
  pose proof (translate_address_outcome t a (negb (is_load_inst instruction)) true m) as Ht.
  destruct (translate_address _ _ _ _ _) as [[physical|] m']; [|exact Ht]. subst m'.
  destruct (is_device_address _); [apply outcome_quiet, crash_quiet|].
  eapply (confined_bind _ _ (quiet m)).
  - destruct (is_load_inst _).
    + unfold gather_lane. eapply returns_bind; [apply any_result|]. intros v _.
      apply set_vector_reg_quiet.
    + unfold scatter_lane. destruct (lane_enabled _ _); [apply store_confined|done].
  - intros m' Hq. apply outcome_quiet. etransitivity; [exact Hq|]. apply on_thread_quiet.
    intros th. unfold advance_subcycle. by destruct (_ =? _).
Qed.

Lemma user_memory_access t instruction m :
  user_mode t m -> confined t m (execute_memory_access_inst t instruction m).
Proof.
  intros Hu. unfold execute_memory_access_inst.
  destruct (memory_op_field instruction) as [[]|]; lazymatch goal with
    | |- confined _ _ (execute_scalar_load_store_inst _ _ _) => apply user_scalar_access
    | |- confined _ _ (execute_block_load_store_inst _ _ _) => apply user_block_access
    | |- confined _ _ (execute_scatter_gather_inst _ _ _) => apply user_scatter_gather
    | |- confined _ _ (Done (execute_control_register_inst _ _ _)) =>
        unfold execute_control_register_inst, is_supervisor; rewrite Hu;
        apply privileged_op_outcome
    | |- confined _ _ (Done (illegal_instruction _ _)) => apply illegal_instruction_outcome
    end.
Qed.

Lemma user_dispatch_plain t instruction m :
  user_mode t m -> confined t m (dispatch_plain t instruction m).
Proof.
  intros Hu. unfold dispatch_plain.
  destruct (_ =? 0xc0000000); [apply user_register_arith|].
  destruct (_ =? 0).
  { destruct (_ =? BREAKPOINT_INST); [done|].
    destruct (negb _); [apply user_immediate_arith|by apply quiet_confined]. }
  destruct (_ =? 0x80000000); [by apply user_memory_access|].
  destruct (_ =? 0xf0000000); [by apply user_branch|].
  destruct (_ =? 0xe0000000); [by apply user_cache_control|by apply quiet_confined].
Qed.

Lemma user_instruction t m :
  user_mode t m -> returns (fun r => outcome t m r.2) (fun _ => True) (execute_instruction t m).
Proof.
  intros Hu. unfold execute_instruction.
  set (m1 := on_thread t _ m). assert (Hq1 : quiet m m1) by by apply on_thread_quiet.
  destruct (negb _); [eapply outcome_trans; [exact Hq1|apply outcome_trap]|].
  pose proof (translate_address_outcome t (pc (the_thread t m)) false false m1) as Ht.
  destruct (translate_address _ _ _ _ _) as [[physical|] m']; [|by eapply outcome_trans].
  subst m'. eapply returns_bind; [apply any_result|]. intros instruction _.
  set (m2 := count_instruction m1).
  assert (Hq2 : quiet m m2) by (etransitivity; [exact Hq1|by apply on_proc_quiet]).
  assert (Hplain : forall i m3, quiet m m3 ->
    returns (fun r : bool * machine D => outcome t m r.2) (fun _ => True)
      (m4 <-- dispatch_plain t i m3;; Done (true, m4))).
  { intros i m3 Hq3. eapply returns_bind; [apply (user_dispatch_plain t i m3)|].
    - by eapply user_mode_quiet.
    - intros m4 Ho. by eapply outcome_trans. }
  unfold dispatch. destruct (_ =? BREAKPOINT_INST); [|by apply Hplain].
  unfold hit_breakpoint. destruct (lookup_breakpoint _ _) as [bp|].
  - destruct (_ || _).
    + apply Hplain. etransitivity; [exact Hq2|by apply on_proc_quiet].
    + apply outcome_quiet. etransitivity; [exact Hq2|].
      refine (quiet_trans _ _ _ _ (on_thread_quiet _ _ _ _)); [by apply on_proc_quiet|done].
  - eapply outcome_trans; [exact Hq2|apply illegal_instruction_outcome].
Qed.

(** ** Entering a handler *)

(** [t] points into the arrays. *)
Definition live (t : thread_ptr) m : Prop :=
  (p_core t < length (cores (proc m)))%nat
  /\ (p_thread t < length (threads (the_core t m)))%nat.

Lemma live_quiet t m m' : quiet m m' -> live t m -> live t m'.
Proof.
  intros [_ Hl Hc _] [H1 H2]. unfold live. rewrite Hl.
  specialize (Hc t). unfold core_view in Hc. injection Hc as -> _ _ _ _ _ _ _. by split.
Qed.

Lemma live_thread_on_thread t f m :
  live t m -> the_thread t (on_thread t f m) = f (the_thread t m).
Proof.
  intros [H1 H2]. unfold the_thread at 1. unfold the_core, on_thread, on_core. simpl.
  rewrite list_lookup_total_alter_eq by done. simpl. by apply list_lookup_total_alter_eq.
Qed.

Lemma other_thread_on_thread t t' f m :
  t <> t' -> the_thread t' (on_thread t f m) = the_thread t' m.
Proof.
  intros Hne. unfold the_thread, the_core, on_thread, on_core. simpl.
  destruct (decide (p_core t = p_core t')) as [Hc|Hc].
  - assert (Hth : p_thread t <> p_thread t') by (destruct t, t'; simpl in *; congruence).
    rewrite <- Hc. rewrite !list_lookup_total_alt, list_lookup_alter_eq.
    destruct (cores (proc m) !! p_core t) as [c|]; [|done]. simpl.
    by rewrite list_lookup_alter_ne.
  - by rewrite list_lookup_total_alter_ne.
Qed.

(** The thread has entered one of the two handlers: supervisor mode, interrupts
    off, the interrupted user mode and the previous trap saved, and the address
    space untouched. *)
Record in_handler (c : core) (th th' : thread) : Prop := {
  handler_supervisor : enable_supervisor th' = true;
  handler_interrupts_off : enable_interrupt th' = false;
  handler_pc : pc th' = trap_handler_pc c \/ pc th' = tlb_miss_handler_pc c;
  handler_saved_mode : saved_enable_supervisor (saved_trap_state_0 th') = false;
  handler_saved_trap : saved_trap_state_1 th' = saved_trap_state_0 th;
  handler_address_space : address_space_view th' = address_space_view th
}.

(** The other threads, every core and the enable mask are as before. *)
Record only_thread (t : thread_ptr) m m' : Prop := {
  only_enable_mask : thread_enable_mask (proc m') = thread_enable_mask (proc m);
  only_core : forall t', core_view (the_core t' m') = core_view (the_core t' m);
  only_other : forall t', t' <> t -> mode_view (the_thread t' m') = mode_view (the_thread t' m)
}.

Lemma raise_trap_confined t address type is_store is_data syscall m m1 :
  live t m -> user_mode t m -> quiet m m1 ->
  let m' := raise_trap t address type is_store is_data syscall m1 in
  quiet m m' \/ only_thread t m m' /\ in_handler (the_core t m) (the_thread t m) (the_thread t m').
Proof.
  intros Hlive Hu Hq. simpl. unfold raise_trap. destruct (stops_on_fault _ _ _).
  - left. etransitivity; [exact Hq|].
    refine (quiet_trans _ _ _ _ (crash_quiet _)). by apply on_thread_quiet.
  - right. pose proof (live_quiet t m m1 Hq Hlive) as Hlive1.
    pose proof (user_mode_quiet t m m1 Hq Hu) as Hu1.
    pose proof (quiet_core _ _ Hq t) as Hct. pose proof (quiet_thread _ _ Hq t) as Htt.
    unfold core_view in Hct. injection Hct as _ Htrap Htlb _ _ _ _ _.
    unfold mode_view in Htt. injection Htt as Hid Hasid Hdir Hmask Hlatch _ _ _ Hs0 _.
    set (f := enter_handler _ _ _ _ _ _). split.
    + constructor.
      * apply Hq.
      * intros t'. rewrite <- (quiet_core _ _ Hq t').
        apply (total_alter_view core_view). intros c. unfold core_view. simpl.
        by rewrite length_alter.
      * intros t' Hne. rewrite other_thread_on_thread by done. apply Hq.
    + rewrite live_thread_on_thread by done. subst f. unfold enter_handler.
      case_bool_decide; constructor; simpl; try done; try tauto;
        unfold address_space_view; simpl; congruence || auto.
Qed.

End Confinement.

(** C2: user-mode confinement.  Whatever instruction a thread in user mode
    executes, the trap handlers, interrupt configuration, TLBs and thread enable
    mask, and the control registers of every other thread, are unchanged; the
    thread's own control registers are unchanged too, unless it entered one of the
    two handlers the supervisor installed, with interrupts off and its user mode
    saved.  There is no other way to supervisor mode. *)
Theorem user_mode_confinement D (host : Host D) t (m : machine D) :
  live t m -> user_mode t m ->
  returns (fun r => quiet m r.2
    \/ only_thread t m r.2 /\ in_handler (the_core t m) (the_thread t m) (the_thread t r.2))
    (fun _ => True) (execute_instruction t m).
Proof.
  intros Hlive Hu. eapply returns_weaken; [by apply user_instruction| |done].
  intros [b m'] [Hq|(m1 & a & ty & st & da & sys & Hq & ->)]; [by left|].
  by apply raise_trap_confined.
Qed.

(** A user-mode thread at address 0, whose first word tries to write CR_FLAGS. *)
Definition user_machine : machine devices :=
  on_core thread0 (fun c => c <| trap_handler_pc := 0x40 |>)
    (on_thread thread0 (fun th => th <| enable_supervisor := false |>)
      (small_machine (0x8c000004 :: replicate 63 0))).

Lemma user_mode_confinement_witness :
  live thread0 user_machine /\ user_mode thread0 user_machine /\
  returns (fun r => quiet user_machine r.2
    \/ only_thread thread0 user_machine r.2
       /\ in_handler (the_core thread0 user_machine) (the_thread thread0 user_machine)
            (the_thread thread0 r.2))
    (fun _ => True) (execute_instruction thread0 user_machine)
  /\ match execute_instruction thread0 user_machine with
     | Done (_, m') => trap_cause (saved_trap_state_0 (the_thread thread0 m')) = 2
     | Fault _ => False
     end.
Proof.
  assert (Hl : live thread0 user_machine) by (split; vm_compute; lia).
  assert (Hu : user_mode thread0 user_machine) by (vm_compute; reflexivity).
  split; [exact Hl|]. split; [exact Hu|]. split.
  - exact (user_mode_confinement devices device_host thread0 user_machine Hl Hu).
  - vm_compute. reflexivity.
Defined.
