(* ===== verification/TrapProps.v ===== *)
(** * TrapProps: traps return where they were taken, interrupts reach their threads *)

From Stdlib Require Finite.
From S2P Require Export Confinement.

Section TrapReturn.

Context {D : Type}.
Implicit Types m : machine D.

(** Where execution resumes: at the instruction that trapped, except for an
    interrupt inside a multicycle instruction, whose PC was already stepped back. *)
Definition resume_pc (type : trap_type) (th : thread) : Z :=
  if negb (subcycle th =? 0) && bool_decide (type = TT_INTERRUPT) then pc th
  else u32 (pc th - 4).

(** The state a trap interrupts. *)
Record resumed (type : trap_type) (th th' : thread) : Prop := {
  resumed_pc : pc th' = resume_pc type th;
  resumed_subcycle : subcycle th' = subcycle th;
  resumed_interrupt : enable_interrupt th' = enable_interrupt th;
  resumed_mmu : enable_mmu th' = enable_mmu th;
  resumed_supervisor : enable_supervisor th' = enable_supervisor th;
  resumed_saved : saved_trap_state_0 th' = saved_trap_state_0 th
}.

(** The handler kept the saved states, and stayed in supervisor mode. *)
Record handler_kept (th1 th2 : thread) : Prop := {
  kept_saved_0 : saved_trap_state_0 th2 = saved_trap_state_0 th1;
  kept_saved_1 : saved_trap_state_1 th2 = saved_trap_state_1 th1;
  kept_supervisor : enable_supervisor th2 = true
}.

Definition no_interrupt_waiting (t : thread_ptr) m : Prop :=
  Z.land (get_pending_interrupts t m) (interrupt_mask (the_thread t m)) = 0.

Lemma try_to_dispatch_nothing t m :
  no_interrupt_waiting t m -> try_to_dispatch_interrupt t m = m.
Proof.
  intros Hn. unfold try_to_dispatch_interrupt. destruct (negb _); [done|].
  unfold no_interrupt_waiting in Hn. by rewrite Hn, Z.eqb_refl.
Qed.

(** Changing only a thread's own registers leaves what is waiting. *)
Lemma live_core_on_thread t f m :
  live t m -> the_core t (on_thread t f m)
  = the_core t m <| threads ::= alter f (p_thread t) |>.
Proof.
  intros [Hl _]. unfold the_core, on_thread, on_core. simpl.
  by rewrite list_lookup_total_alter_eq.
Qed.

Lemma no_interrupt_on_thread t f m :
  live t m ->
  latched_interrupts (f (the_thread t m)) = latched_interrupts (the_thread t m) ->
  interrupt_mask (f (the_thread t m)) = interrupt_mask (the_thread t m) ->
  no_interrupt_waiting t m -> no_interrupt_waiting t (on_thread t f m).
Proof.
  intros Hl Hla Hma. unfold no_interrupt_waiting, get_pending_interrupts.
  rewrite live_thread_on_thread, live_core_on_thread by done. simpl. by rewrite Hla, Hma.
Qed.

Lemma restore_after_trap t address type is_store is_data syscall m m2 :
  live t m -> live t m2 -> stops_on_fault t type m = false ->
  handler_kept (the_thread t (raise_trap t address type is_store is_data syscall m))
    (the_thread t m2) ->
  (enable_interrupt (the_thread t m) = true -> no_interrupt_waiting t m2) ->
  resumed type (the_thread t m) (the_thread t (execute_eret t m2)).
Proof.
  intros Hl Hl2 Hstop [K0 K1 Ksup] Hint. unfold raise_trap in *. rewrite Hstop in *.
  rewrite live_thread_on_thread in K0, K1 by done.
  assert (Hs0 : saved_trap_state_0 (the_thread t m2)
    = saved_state_of address type is_store is_data syscall (the_thread t m)).
  { rewrite K0. unfold enter_handler. by case_bool_decide. }
  assert (Hs1 : saved_trap_state_1 (the_thread t m2) = saved_trap_state_0 (the_thread t m)).
  { rewrite K1. unfold enter_handler. by case_bool_decide. }
  unfold execute_eret, is_supervisor. rewrite Ksup. cbn [negb].
  assert (Hres : the_thread t (on_thread t restore_trap_state m2)
    = restore_trap_state (the_thread t m2)) by by apply live_thread_on_thread.
  assert (Hr : resumed type (the_thread t m) (restore_trap_state (the_thread t m2))).
  { constructor; unfold restore_trap_state; simpl; rewrite ?Hs0, ?Hs1; done. }
  destruct (enable_interrupt (the_thread t (on_thread t restore_trap_state m2))) eqn:He.
  - rewrite try_to_dispatch_nothing; [by rewrite Hres|].
    apply no_interrupt_on_thread; [done|done|done|]. apply Hint.
    rewrite Hres in He. by rewrite <- (resumed_interrupt _ _ _ Hr).
  - by rewrite Hres.
Qed.

End TrapReturn.

(** C33: trap and return.  Let a trap enter its handler, the emulator not being set to stop on
    that fault.  If the handler keeps the two saved trap states and stays in supervisor mode
    ([handler_kept]), and no interrupt is waiting that the trapped thread would take at once, then
    whatever else the handler does to registers, memory and devices, [eret] resumes the thread at the
    instruction that trapped, with its subcycle, interrupt, MMU and privilege flags and the
    saved state of the trap it interrupted. *)
Theorem trap_then_eret D t address type is_store is_data syscall (m m2 : machine D) :
  live t m -> live t m2 -> stops_on_fault t type m = false ->
  handler_kept (the_thread t (raise_trap t address type is_store is_data syscall m))
    (the_thread t m2) ->
  (enable_interrupt (the_thread t m) = true -> no_interrupt_waiting t m2) ->
  resumed type (the_thread t m) (the_thread t (execute_eret t m2)).
Proof. apply restore_after_trap. Qed.

Lemma trap_then_eret_witness :
  let m := small_machine (replicate 64 0) in
  let m2 := set_scalar_quietly thread0 5 7 (raise_trap thread0 0x1000 TT_TLB_MISS true true 0 m) in
  live thread0 m /\ live thread0 m2 /\ stops_on_fault thread0 TT_TLB_MISS m = false /\
  handler_kept (the_thread thread0 (raise_trap thread0 0x1000 TT_TLB_MISS true true 0 m))
    (the_thread thread0 m2) /\
  resumed TT_TLB_MISS (the_thread thread0 m) (the_thread thread0 (execute_eret thread0 m2)).
Proof.
  intros m m2.
  assert (Hl : live thread0 m) by (split; vm_compute; lia).
  assert (Hl2 : live thread0 m2) by (split; vm_compute; lia).
  assert (Hs : stops_on_fault thread0 TT_TLB_MISS m = false) by (vm_compute; reflexivity).
  assert (Hk : handler_kept (the_thread thread0 (raise_trap thread0 0x1000 TT_TLB_MISS true true 0 m))
    (the_thread thread0 m2)) by (split; vm_compute; reflexivity).
  split; [exact Hl|]. split; [exact Hl2|]. split; [exact Hs|]. split; [exact Hk|].
  apply (trap_then_eret devices thread0 0x1000 TT_TLB_MISS true true 0 m m2 Hl Hl2 Hs Hk).
  vm_compute. discriminate.
Defined.

(** ** Interrupt delivery *)

Section Delivery.

Context {D : Type} `{Host D}.
Implicit Types m : machine D.

(** A step that changes no thread but [t], no core and no interrupt line. *)
Record touches (t : thread_ptr) m m' : Prop := {
  touches_other : forall t', t' <> t -> the_thread t' m' = the_thread t' m;
  touches_core : forall t', core_view (the_core t' m') = core_view (the_core t' m);
  touches_cores : length (cores (proc m')) = length (cores (proc m));
  touches_levels : interrupt_levels (proc m') = interrupt_levels (proc m)
}.

Lemma touches_refl t m : touches t m m.
Proof. by constructor. Qed.

Lemma touches_trans t m1 m2 m3 : touches t m1 m2 -> touches t m2 m3 -> touches t m1 m3.
Proof.
  intros [O1 C1 N1 L1] [O2 C2 N2 L2]. constructor; try congruence.
  intros t' Hne. by rewrite O2, O1.
Qed.

Lemma on_thread_touches t f m : touches t m (on_thread t f m).
Proof.
  constructor; [intros; by apply other_thread_on_thread| |apply length_alter|done].
  intros t'. apply (total_alter_view core_view). intros c. unfold core_view. simpl.
  by rewrite length_alter.
Qed.

Lemma raise_interrupt_trap t m :
  raise_trap t 0 TT_INTERRUPT false false 0 m
  = on_thread t (enter_handler (the_core t m) 0 TT_INTERRUPT false false 0) m.
Proof.
  unfold raise_trap, stops_on_fault. rewrite (bool_decide_eq_true_2 (TT_INTERRUPT = TT_INTERRUPT)) by done.
  by rewrite !andb_false_r.
Qed.

Lemma interrupt_thread_touches bitmap t m : touches t m (interrupt_thread bitmap m t).
Proof.
  unfold interrupt_thread, try_to_dispatch_interrupt.
  set (m1 := on_thread t _ m). pose proof (on_thread_touches t _ m : touches t m m1) as H1.
  destruct (negb _); [done|]. destruct (negb _); [|done].
  rewrite raise_interrupt_trap. eapply touches_trans; [exact H1|].
  destruct (_ =? 0); [|apply on_thread_touches].
  eapply touches_trans; apply on_thread_touches.
Qed.

Lemma live_touches t t' m m' :
  touches t' m m' -> live t m -> live t m'.
Proof.
  intros [_ Hc Hn _] [H1 H2]. unfold live. rewrite Hn. specialize (Hc t). unfold core_view in Hc.
  injection Hc as -> _ _ _ _ _ _ _. by split.
Qed.

(** What is pending for [th] once the lines in [bitmap] are raised. *)
Definition pending_with (level levels bitmap : Z) (th : thread) : Z :=
  Z.lor (Z.land level levels)
        (Z.land (lnot32 level) (Z.lor (latched_interrupts th) bitmap)).

(** The thread an interrupt leaves: in the trap handler when it was enabled and
    unmasked, and otherwise with the lines latched. *)
Record delivered (c : core) (levels bitmap : Z) (th th' : thread) : Prop := {
  delivered_latched : latched_interrupts th' = Z.lor (latched_interrupts th) bitmap;
  delivered_taken :
    enable_interrupt th = true ->
    Z.land (pending_with (is_level_triggered c) levels bitmap th) (interrupt_mask th) <> 0 ->
    pc th' = trap_handler_pc c /\ enable_supervisor th' = true /\ enable_interrupt th' = false
    /\ trap_cause (saved_trap_state_0 th') = enum_value TT_INTERRUPT
    /\ saved_pc (saved_trap_state_0 th') = pc th
    /\ saved_subcycle (saved_trap_state_0 th') = subcycle th
    /\ saved_trap_state_1 th' = saved_trap_state_0 th;
  delivered_not_taken :
    enable_interrupt th = false
    \/ Z.land (pending_with (is_level_triggered c) levels bitmap th) (interrupt_mask th) = 0 ->
    th' = th <| latched_interrupts := Z.lor (latched_interrupts th) bitmap |>
}.

Lemma interrupt_thread_delivers bitmap t m :
  live t m -> is_u32 (pc (the_thread t m)) ->
  delivered (the_core t m) (interrupt_levels (proc m)) bitmap (the_thread t m)
    (the_thread t (interrupt_thread bitmap m t)).
Proof.
  intros Hl Hpc. unfold interrupt_thread.
  set (f := fun th : thread => th <| latched_interrupts ::= fun l => Z.lor l bitmap |>).
  set (m1 := on_thread t f m).
  assert (Hth : the_thread t m1 = f (the_thread t m)) by by apply live_thread_on_thread.
  assert (Hc : the_core t m1 = the_core t m <| threads ::= alter f (p_thread t) |>)
    by by apply live_core_on_thread.
  assert (Hl1 : live t m1) by (eapply live_touches; [apply on_thread_touches|done]).
  assert (Hp : get_pending_interrupts t m1
    = pending_with (is_level_triggered (the_core t m)) (interrupt_levels (proc m)) bitmap
        (the_thread t m)).
  { unfold get_pending_interrupts. by rewrite Hth, Hc. }
  unfold try_to_dispatch_interrupt. rewrite Hp, Hth.
  assert (He : enable_interrupt (f (the_thread t m)) = enable_interrupt (the_thread t m)) by done.
  assert (Hm : interrupt_mask (f (the_thread t m)) = interrupt_mask (the_thread t m)) by done.
  rewrite He, Hm. destruct (enable_interrupt (the_thread t m)) eqn:Hen; cbn [negb].
  2:{ rewrite Hth. constructor; [done|by rewrite Hen|]. done. }
  destruct (Z.land _ (interrupt_mask _) =? 0) eqn:Hz; cbn [negb]; bool_to_prop.
  { rewrite Hth. by constructor. }
  rewrite raise_interrupt_trap.
  set (m2 := if subcycle _ =? 0 then _ else m1).
  assert (Hth2 : the_thread t m2 = if subcycle (the_thread t m) =? 0
    then f (the_thread t m) <| pc := u32 (pc (the_thread t m) + 4) |> else f (the_thread t m)).
  { subst m2. simpl. destruct (_ =? 0); [|done]. rewrite live_thread_on_thread by done.
    by rewrite Hth. }
  assert (Hc2 : core_view (the_core t m2) = core_view (the_core t m)).
  { subst m2. pose proof (on_thread_touches t f m) as T1.
    destruct (subcycle _ =? 0); [|apply T1].
    rewrite (touches_core _ _ _ (on_thread_touches t _ m1)). apply T1. }
  assert (Hl2 : live t m2).
  { subst m2. destruct (_ =? 0); [|done]. eapply live_touches; [apply on_thread_touches|done]. }
  unfold core_view in Hc2. injection Hc2 as _ Htrap _ _ _ _ _ _.
  rewrite live_thread_on_thread, Hth2 by done. unfold enter_handler.
  rewrite (bool_decide_eq_false_2 (TT_INTERRUPT = TT_TLB_MISS)) by done.
  constructor.
  - by destruct (_ =? 0).
  - intros _ _. simpl. rewrite Htrap.
    destruct (subcycle (the_thread t m) =? 0) eqn:Hsub; simpl; rewrite Hsub; simpl; split_and!; try done.
    unfold u32. rewrite Zminus_mod_idemp_l. replace (pc (the_thread t m) + 4 - 4) with (pc (the_thread t m)) by lia.
    by apply Z.mod_small.
  - rewrite Hen. intros [?|?]; [done|congruence].
Qed.

Lemma all_threads_NoDup p : List.NoDup (all_threads p).
Proof.
  unfold all_threads.
  enough (Hn : forall n s, List.NoDup (flat_map (fun core_id =>
    map (fun thread_id => {| p_core := core_id; p_thread := thread_id |})
      (seq 0 (Z.to_nat (threads_per_core p)))) (seq s n))) by apply Hn.
  induction n as [|n IH]; intros s; simpl; [constructor|].
  apply List.NoDup_app; [|apply IH|].
  - apply Finite.Injective_map_NoDup; [|apply seq_NoDup]. intros x y Heq. by injection Heq.
  - intros x Hx Hin. apply in_map_iff in Hx as (i & <- & _).
    apply in_flat_map in Hin as (c & Hc & Hin). apply in_map_iff in Hin as (j & Heq & _).
    injection Heq as -> _. apply in_seq in Hc. lia.
Qed.

(** The other threads' turns do not disturb the thread's own. *)
Lemma fold_interrupt_other bitmap t l m :
  ~ In t l -> the_thread t (fold_left (interrupt_thread bitmap) l m) = the_thread t m.
Proof.
  revert m. induction l as [|t' l IH]; intros m Hn; simpl; [done|].
  rewrite IH by (intros ?; apply Hn; by right).
  apply (touches_other t' _ _ (interrupt_thread_touches bitmap t' m)).
  intros ->. apply Hn. by left.
Qed.

Lemma fold_interrupt_before bitmap t l m :
  live t m -> ~ In t l ->
  let m' := fold_left (interrupt_thread bitmap) l m in
  live t m' /\ the_thread t m' = the_thread t m
  /\ core_view (the_core t m') = core_view (the_core t m)
  /\ interrupt_levels (proc m') = interrupt_levels (proc m).
Proof.
  revert m. induction l as [|t' l IH]; intros m Hl Hn; simpl; [done|].
  pose proof (interrupt_thread_touches bitmap t' m) as Ht.
  destruct (IH (interrupt_thread bitmap m t')) as (I1 & I2 & I3 & I4).
  - by eapply live_touches.
  - intros ?. apply Hn. by right.
  - rewrite I2, I3, I4. split; [done|].
    rewrite (touches_other _ _ _ Ht), (touches_core _ _ _ Ht), (touches_levels _ _ _ Ht);
      [done|]. intros ->. apply Hn. by left.
Qed.

Lemma delivered_core c c' levels bitmap th th' :
  core_view c = core_view c' -> delivered c levels bitmap th th' -> delivered c' levels bitmap th th'.
Proof.
  intros Hc [D1 D2 D3]. unfold core_view in Hc. injection Hc as _ Ht _ Hl _ _ _ _.
  rewrite Ht, Hl in D2. rewrite Hl in D3. by constructor.
Qed.

End Delivery.

(** Interrupt delivery.  Raising interrupt lines reaches every thread of every
    core: the lines are latched in each; a thread that has interrupts enabled and
    one of its pending lines (latched, or raised for level-triggered lines) unmasked
    enters its core's trap handler, saving the PC of the next instruction even in
    the middle of a multicycle instruction; the others are otherwise unchanged. *)
Theorem interrupt_delivery D (host : Host D) nc tpc bitmap t (m : machine D) :
  machine_wf nc tpc m -> valid nc tpc t ->
  delivered (the_core t m) (Z.lor (interrupt_levels (proc m)) bitmap) bitmap (the_thread t m)
    (the_thread t (raise_interrupt bitmap m)).
Proof.
  intros Hm Ht. unfold raise_interrupt.
  set (m1 := on_proc _ m).
  assert (Hin : In t (all_threads (proc m1))).
  { apply in_flat_map. exists (p_core t). destruct Ht as [Hc Hth].
    pose proof (wf_proc _ _ m Hm) as Hp. simpl.
    rewrite (wf_num_cores _ _ _ Hp), (wf_threads_per_core _ _ _ Hp).
    split; [apply in_seq; lia|]. apply in_map_iff. exists (p_thread t).
    split; [by destruct t|apply in_seq; lia]. }
  assert (Hl : live t m1).
  { pose proof (valid_core_lookup nc tpc t m Hm Ht) as Hc.
    pose proof (valid_thread_lookup nc tpc t m Hm Ht) as Hth.
    apply lookup_lt_Some in Hc. apply lookup_lt_Some in Hth. by split. }
  apply in_split in Hin as (l1 & l2 & Hsplit).
  pose proof (all_threads_NoDup (proc m1)) as Hnd. rewrite Hsplit in *.
  apply NoDup_remove_2 in Hnd. rewrite in_app_iff in Hnd.
  assert (Hn1 : ~ In t l1) by tauto. assert (Hn2 : ~ In t l2) by tauto.
  rewrite fold_left_app. simpl. rewrite fold_interrupt_other by done.
  destruct (fold_interrupt_before bitmap t l1 m1 Hl Hn1) as (I1 & I2 & I3 & I4).
  pose proof (interrupt_thread_delivers bitmap t (fold_left (interrupt_thread bitmap) l1 m1) I1) as Hd1.
  rewrite I2, I4 in Hd1. eapply delivered_core; [exact I3|]. apply Hd1.
  apply (the_thread_wf nc tpc t m Hm Ht).
Qed.

Lemma interrupt_delivery_witness :
  let m := on_thread thread0 (fun th => th <| enable_interrupt := true |> <| interrupt_mask := 4 |>)
             (small_machine (replicate 64 0)) in
  machine_wf 1 2 m /\
  delivered (the_core thread0 m) (Z.lor (interrupt_levels (proc m)) 4) 4 (the_thread thread0 m)
    (the_thread thread0 (raise_interrupt 4 m)).
Proof.
  intros m.
  assert (Hm0 : machine_wf 1 2 (small_machine (replicate 64 0)))
    by (apply small_machine_wf; [by apply Forall_replicate|done]).
  assert (Hm : machine_wf 1 2 m).
  { apply on_thread_wf; [exact Hm0|exact thread0_valid|].
    rebuild (the_thread_wf 1 2 thread0 _ Hm0 thread0_valid). }
  split; [exact Hm|].
  exact (interrupt_delivery devices device_host 1 2 4 thread0 m Hm thread0_valid).
Defined.
