(* ===== verification/TlbProps.v ===== *)
(** * TlbProps: the TLBs translate what the supervisor put into them *)

From S2P Require Export Confinement.

(** ** Finding a way *)

Lemma find_way_Some tlb page asid way :
  find_way tlb page asid = Some way ->
  In way (set_ways page) /\ way_matches page asid (tlb !!! way) = true.
Proof. intros Hf. by apply List.find_some in Hf. Qed.

Lemma find_way_None tlb page asid way :
  find_way tlb page asid = None -> In way (set_ways page) ->
  way_matches page asid (tlb !!! way) = false.
Proof. intros Hf Hin. by apply (List.find_none _ _ Hf). Qed.

(** The search returns the first match, whatever the entries after it. *)
Lemma find_first {A} (p q : A -> bool) l x :
  List.find p l = Some x -> q x = true ->
  (forall y, In y l -> y <> x -> p y = false -> q y = false) ->
  List.find q l = Some x.
Proof.
  induction l as [|y l IH]; simpl; [done|]. intros Hf Hq Hother.
  destruct (p y) eqn:Hp.
  - injection Hf as ->. by rewrite Hq.
  - destruct (q y) eqn:Hqy; [|apply IH; auto].
    destruct (List.find_some _ _ Hf) as [Hin Hpx].
    assert (Hne : y <> x) by (intros ->; congruence).
    rewrite (Hother y (or_introl eq_refl) Hne Hp) in Hqy. done.
Qed.

Lemma find_only {A} `{EqDecision A} (q : A -> bool) l x :
  In x l -> q x = true -> (forall y, In y l -> y <> x -> q y = false) ->
  List.find q l = Some x.
Proof.
  induction l as [|y l IH]; simpl; [done|]. intros Hin Hq Hother.
  destruct (q y) eqn:Hqy.
  - destruct (decide (y = x)) as [->|Hne]; [done|]. by rewrite (Hother y) in Hqy by auto.
  - apply IH; [|done|auto]. destruct Hin as [->|Hin]; [congruence|done].
Qed.

Lemma set_ways_bound page way :
  In way (set_ways page) -> (way < Z.to_nat (TLB_SETS * TLB_WAYS))%nat.
Proof.
  intros Hin. apply in_seq in Hin. unfold tlb_base in *.
  pose proof (Z.mod_pos_bound (page / PAGE_SIZE) TLB_SETS ltac:(done)).
  unfold TLB_SETS, TLB_WAYS in *. lia.
Qed.

Lemma total_alter_same {A} `{Inhabited A} f i (l : list A) :
  (i < length l)%nat -> alter f i l !!! i = f (l !!! i).
Proof. apply list_lookup_total_alter_eq. Qed.

(** ** Insertion *)

(** No entry of the set maps the page for another address space through its global
    bit: an insertion that reuses such an entry keeps that entry's [asid]. *)
Definition no_foreign_global (tlb : list tlb_entry) (page asid : Z) : Prop :=
  forall way, In way (set_ways page) -> virtual_address (tlb !!! way) = page ->
    flag_set (phys_addr_and_flags (tlb !!! way)) TLB_GLOBAL = true ->
    entry_asid (tlb !!! way) = asid.

Lemma tlb_insert_find page flags asid next_way tlb :
  tlb_wf tlb -> 0 <= next_way < TLB_WAYS ->
  flag_set flags TLB_GLOBAL = true \/ no_foreign_global tlb page asid ->
  exists way, find_way (tlb_insert page flags asid next_way tlb) page asid = Some way
    /\ phys_addr_and_flags (tlb_insert page flags asid next_way tlb !!! way) = flags.
Proof.
  intros [Hl _] Hway Hglobal. unfold tlb_insert.
  destruct (find_way tlb page asid) as [way|] eqn:Hf.
  - exists way. destruct (find_way_Some _ _ _ _ Hf) as [Hin Hm].
    pose proof (set_ways_bound page way Hin) as Hb. rewrite <- Hl in Hb.
    rewrite (total_alter_same _ _ tlb) by done. split; [|done].
    refine (find_first _ _ _ _ Hf _ _).
    + rewrite total_alter_same by done. unfold way_matches in *. simpl.
      apply andb_prop in Hm as [Hv Hm]. rewrite Hv. simpl. bool_to_prop.
      destruct Hglobal as [->|Hno]; [done|].
      apply orb_prop in Hm as [Hm|Hm]; [|by rewrite Hm, orb_true_r].
      rewrite (Hno way Hin Hv Hm), Z.eqb_refl. apply orb_true_r.
    + intros y _ Hne. by rewrite list_lookup_total_alter_ne.
  - set (w := (tlb_base page + Z.to_nat next_way)%nat). exists w.
    assert (Hin : In w (set_ways page)) by (apply in_seq; unfold w; lia).
    pose proof (set_ways_bound page w Hin) as Hb. rewrite <- Hl in Hb.
    rewrite (total_alter_same _ _ tlb) by done. split; [|done].
    apply find_only; [done| |].
    + rewrite total_alter_same by done. unfold way_matches. simpl.
      by rewrite !Z.eqb_refl, orb_true_r.
    + intros y Hy Hne. rewrite list_lookup_total_alter_ne by done.
      by apply (find_way_None _ _ _ _ Hf).
Qed.

(** ** Invalidation *)

(** [tlb_invalidate] on any list of ways. *)
Definition invalidate_ways (page : Z) (ways : list nat) (tlb : list tlb_entry) : list tlb_entry :=
  fold_left (fun tlb way => alter (invalidate_entry page) way tlb) ways tlb.

Lemma invalidate_fold_other page ways tlb i :
  ~ In i ways ->
  invalidate_ways page ways tlb !!! i = tlb !!! i.
Proof.
  revert tlb. induction ways as [|w ways IH]; intros tlb Hn; simpl; [done|].
  rewrite IH by (intros ?; apply Hn; by right).
  apply list_lookup_total_alter_ne. intros ->. apply Hn. by left.
Qed.

Lemma invalidate_entry_gone page e :
  page <> INVALID_ADDR -> virtual_address (invalidate_entry page e) <> page.
Proof.
  intros Hp. unfold invalidate_entry. destruct (_ =? _) eqn:E; bool_to_prop; simpl; congruence.
Qed.

Lemma invalidate_fold_gone page ways tlb i :
  page <> INVALID_ADDR -> Forall (fun w => (w < length tlb)%nat) ways -> In i ways ->
  virtual_address (invalidate_ways page ways tlb !!! i)
  <> page.
Proof.
  intros Hp. revert tlb. induction ways as [|w ways IH]; intros tlb Hb Hin; simpl; [done|].
  pose proof (Forall_inv Hb) as Hw. apply Forall_inv_tail in Hb. cbv beta in Hw.
  destruct (in_dec Nat.eq_dec i ways) as [Hi|Hi].
  - apply IH; [|done]. by rewrite length_alter.
  - destruct Hin as [->|Hin]; [|done]. rewrite invalidate_fold_other by done.
    rewrite total_alter_same by done. by apply invalidate_entry_gone.
Qed.

Lemma set_ways_seq_fold page (tlb : list tlb_entry) :
  length tlb = Z.to_nat (TLB_SETS * TLB_WAYS) ->
  Forall (fun w => (w < length tlb)%nat) (set_ways page).
Proof.
  intros Hl. apply Forall_forall. intros w Hw. rewrite Hl. by apply (set_ways_bound page).
Qed.

(** An invalidated page misses in every address space. *)
Lemma tlb_invalidate_miss page asid tlb :
  tlb_wf tlb -> page <> INVALID_ADDR -> find_way (tlb_invalidate page tlb) page asid = None.
Proof.
  intros [Hl _] Hp. unfold find_way. destruct (List.find _ _) as [w|] eqn:Hf; [|done].
  apply List.find_some in Hf as [Hin Hm]. unfold way_matches in Hm. bool_to_prop.
  exfalso. unfold tlb_invalidate in *.
  by apply (invalidate_fold_gone page (set_ways page) tlb w Hp (set_ways_seq_fold page tlb Hl) Hin).
Qed.

(** Every other page is found as before. *)
Lemma find_ext {A} (p q : A -> bool) l : (forall x, In x l -> p x = q x) -> List.find p l = List.find q l.
Proof.
  induction l as [|x l IH]; simpl; [done|]. intros Heq. rewrite (Heq x) by by left.
  destruct (q x); [done|]. auto.
Qed.

Lemma invalidate_entry_other page page' asid e :
  page' <> page -> page' <> INVALID_ADDR ->
  way_matches page' asid (invalidate_entry page e) = way_matches page' asid e.
Proof.
  intros Hne Hv. unfold invalidate_entry. destruct (_ =? page) eqn:E; [|done]. bool_to_prop.
  unfold way_matches.
  change (virtual_address (e <| virtual_address := INVALID_ADDR |>)) with INVALID_ADDR.
  rewrite E, (proj2 (Z.eqb_neq INVALID_ADDR page')) by done.
  by rewrite (proj2 (Z.eqb_neq page page')) by done.
Qed.

Lemma invalidate_fold_keeps page page' asid ways tlb i :
  page' <> page -> page' <> INVALID_ADDR ->
  way_matches page' asid
    (invalidate_ways page ways tlb !!! i)
  = way_matches page' asid (tlb !!! i).
Proof.
  intros Hne Hv. revert tlb. induction ways as [|w ways IH]; intros tlb; simpl; [done|].
  rewrite IH. apply (total_alter_view (way_matches page' asid)).
  intros e. by apply invalidate_entry_other.
Qed.

Lemma tlb_invalidate_other page page' asid tlb :
  page' <> page -> page' <> INVALID_ADDR ->
  find_way (tlb_invalidate page tlb) page' asid = find_way tlb page' asid.
Proof.
  intros Hne Hv. apply find_ext. intros w _. by apply invalidate_fold_keeps.
Qed.

(** ** Translation after an insertion *)

(** The permission bits let the access through. *)
Definition access_allowed (flags : Z) (supervisor is_store is_data_access : bool) : Prop :=
  flag_set flags TLB_PRESENT = true
  /\ (flag_set flags TLB_SUPERVISOR = true -> supervisor = true)
  /\ (is_data_access = false -> flag_set flags TLB_EXECUTABLE = true)
  /\ (is_store = true -> flag_set flags TLB_WRITE_ENABLE = true).

Lemma check_entry_allowed {D} t e address is_store is_data (m : machine D) :
  access_allowed (phys_addr_and_flags e) (enable_supervisor (the_thread t m)) is_store is_data ->
  let physical := ROUND_TO_PAGE (phys_addr_and_flags e) + address mod PAGE_SIZE in
  out_of_range physical m = false ->
  check_entry t e address is_store is_data m = (Some physical, m).
Proof.
  intros (Hp & Hs & Hx & Hw) physical Hr. unfold check_entry. rewrite Hp. cbn [negb].
  destruct (flag_set _ TLB_SUPERVISOR) eqn:Es; [rewrite (Hs eq_refl)|]; cbn [negb andb].
  all: destruct is_data; [|rewrite (Hx eq_refl)]; cbn [negb andb]; rewrite ?andb_false_r.
  all: destruct is_store; [rewrite (Hw eq_refl)|]; cbn [negb andb].
  all: rewrite page_lor_offset; fold physical; by rewrite Hr.
Qed.

Lemma ROUND_TO_PAGE_not_invalid a : is_u32 a -> ROUND_TO_PAGE a <> INVALID_ADDR.
Proof.
  intros Ha. rewrite ROUND_TO_PAGE_sub by done. unfold INVALID_ADDR, PAGE_SIZE.
  Z.div_mod_to_equations. lia.
Qed.

(** The TLB an access goes through. *)
Definition tlb_of (data : bool) (c : core) : list tlb_entry := (if data then dtlb else itlb) c.

Section TlbInstructions.

Context {D : Type} `{Host D} (nc tpc : Z).
Implicit Types m : machine D.

Lemma tlb_of_wf data t m :
  machine_wf nc tpc m -> valid nc tpc t -> tlb_wf (tlb_of data (the_core t m)).
Proof.
  intros Hm Ht. pose proof (the_core_wf nc tpc t m Hm Ht) as Hc.
  destruct data; [apply (wf_dtlb _ _ Hc)|apply (wf_itlb _ _ Hc)].
Qed.

(** The machine after an insertion by a supervisor. *)
Lemma cache_tlb_insert_core t instruction data m :
  machine_wf nc tpc m -> valid nc tpc t -> is_supervisor t m = true ->
  let m' := cache_tlb_insert t instruction data m in
  the_thread t m' = the_thread t m /\ memory_size (proc m') = memory_size (proc m)
  /\ exists way, 0 <= way < TLB_WAYS /\
     tlb_of data (the_core t m')
     = tlb_insert (ROUND_TO_PAGE (get_scalar t (reg_field instruction 0) m))
         (get_scalar t (reg_field instruction 5) m) (asid (the_thread t m)) way
         (tlb_of data (the_core t m)).
Proof.
  intros Hm Ht Hs. pose proof (the_core_wf nc tpc t m Hm Ht) as Hc.
  simpl. unfold cache_tlb_insert. rewrite Hs. cbn [negb].
  destruct data; (split; [by apply (the_thread_on_core nc tpc)|split; [done|]]).
  - exists (next_dtlb_way (the_core t m)). split; [apply (wf_next_dtlb_way _ _ Hc)|].
    by rewrite (the_core_on_core nc tpc).
  - exists (next_itlb_way (the_core t m)). split; [apply (wf_next_itlb_way _ _ Hc)|].
    by rewrite (the_core_on_core nc tpc).
Qed.

Lemma cache_tlb_invalidate_core t instruction m :
  machine_wf nc tpc m -> valid nc tpc t -> is_supervisor t m = true ->
  let page := ROUND_TO_PAGE (u32 (get_scalar t (reg_field instruction 0) m
                                  + extract_signed_bits instruction 15 10)) in
  let m' := cache_tlb_invalidate t instruction m in
  the_thread t m' = the_thread t m
  /\ forall data, tlb_of data (the_core t m') = tlb_invalidate page (tlb_of data (the_core t m)).
Proof.
  intros Hm Ht Hs. simpl. unfold cache_tlb_invalidate. rewrite Hs. cbn [negb].
  split; [by apply (the_thread_on_core nc tpc)|].
  intros data. rewrite (the_core_on_core nc tpc) by done. by destruct data.
Qed.

End TlbInstructions.

(** A translation that was inserted is used.  After a supervisor inserts [flags]
    for a page with DTLBINSERT or ITLBINSERT, an access to any address of the page
    by the same thread translates to the physical page in [flags] with the same
    offset, provided the permission bits allow it, the machine has memory there,
    and no entry of the set is global for the page under another address space
    (unless the new entry is global too). *)
Theorem tlb_insert_then_translate D (host : Host D) nc tpc t instruction data address is_store
  (m : machine D) :
  machine_wf nc tpc m -> valid nc tpc t -> is_supervisor t m = true ->
  enable_mmu (the_thread t m) = true ->
  let page := ROUND_TO_PAGE (get_scalar t (reg_field instruction 0) m) in
  let flags := get_scalar t (reg_field instruction 5) m in
  let physical := ROUND_TO_PAGE flags + address mod PAGE_SIZE in
  let m' := cache_tlb_insert t instruction data m in
  ROUND_TO_PAGE address = page ->
  flag_set flags TLB_GLOBAL = true
    \/ no_foreign_global (tlb_of data (the_core t m)) page (asid (the_thread t m)) ->
  access_allowed flags true is_store data ->
  out_of_range physical m = false ->
  translate_address t address is_store data m' = (Some physical, m').
Proof.
  intros Hm Ht Hs Hmmu page flags physical m' Hpage Hglobal Hallowed Hrange.
  destruct (cache_tlb_insert_core nc tpc t instruction data m Hm Ht Hs)
    as (Hth & Hsize & way & Hway & Htlb). fold m' in Hth, Hsize, Htlb.
  destruct (tlb_insert_find page flags (asid (the_thread t m)) way _
    (tlb_of_wf nc tpc data t m Hm Ht) Hway Hglobal) as (w & Hfind & Hflags).
  unfold page, flags in Hfind, Hflags. rewrite <- Htlb in Hfind, Hflags.
  unfold translate_address. rewrite Hth, Hmmu. cbn [negb].
  change ((if data then dtlb else itlb) (the_core t m')) with (tlb_of data (the_core t m')).
  rewrite Hpage. unfold page. rewrite Hfind.
  unfold physical, flags. rewrite <- Hflags. apply check_entry_allowed.
  - rewrite Hflags, Hth. unfold is_supervisor in Hs. by rewrite Hs.
  - rewrite Hflags. unfold out_of_range. rewrite Hsize. exact Hrange.
Qed.

(** A supervisor with the MMU on: register 1 is a virtual address, register 2 an
    entry (physical page 0, present and writable). *)
Definition mmu_machine : machine devices :=
  on_thread thread0 (fun th => th <| enable_mmu := true |>
    <| scalar_reg ::= fun r => <[2%nat := 3]> (<[1%nat := 0x5000]> r) |>)
    (small_machine (replicate 64 0)).

(** DTLBINSERT of register 1 and register 2. *)
Definition dtlb_insert_inst : Z := 0xe0000041.

Lemma mmu_machine_wf : machine_wf 1 2 mmu_machine.
Proof.
  assert (Hm : machine_wf 1 2 (small_machine (replicate 64 0)))
    by (apply small_machine_wf; [by apply Forall_replicate|done]).
  apply on_thread_wf; [exact Hm|exact thread0_valid|].
  rebuild (the_thread_wf 1 2 thread0 _ Hm thread0_valid).
  split; [done|]. repeat (apply List.Forall_cons; [by split|]). apply Forall_nil_2.
Qed.

Lemma no_foreign_global_dec_sound tlb page asid :
  forallb (fun way => negb (virtual_address (tlb !!! way) =? page)
    || negb (flag_set (phys_addr_and_flags (tlb !!! way)) TLB_GLOBAL)
    || (entry_asid (tlb !!! way) =? asid)) (set_ways page) = true ->
  no_foreign_global tlb page asid.
Proof.
  intros Hall way Hin Hv Hg. rewrite forallb_forall in Hall. specialize (Hall way Hin).
  rewrite Hv, Hg, Z.eqb_refl in Hall. simpl in Hall. by apply Z.eqb_eq.
Qed.

Lemma tlb_insert_then_translate_witness :
  let m' := cache_tlb_insert thread0 dtlb_insert_inst true mmu_machine in
  machine_wf 1 2 mmu_machine /\ translate_address thread0 0x5024 true true m' = (Some 0x24, m').
Proof.
  split; [exact mmu_machine_wf|].
  refine (tlb_insert_then_translate devices device_host 1 2 thread0 dtlb_insert_inst true 0x5024 true
    mmu_machine mmu_machine_wf thread0_valid eq_refl eq_refl eq_refl _ _ eq_refl).
  - right. apply no_foreign_global_dec_sound. vm_compute. reflexivity.
  - repeat split; done.
Defined.

(** A translation that was invalidated is gone.  After TLBINVALIDATE of a page,
    the page misses in both TLBs for every address space, so any access to it with
    the MMU on raises a TLB miss, and every other page is found where it was. *)
Theorem tlb_invalidate_then_miss D (host : Host D) nc tpc t instruction (m : machine D) :
  machine_wf nc tpc m -> valid nc tpc t -> is_supervisor t m = true ->
  let page := ROUND_TO_PAGE (u32 (get_scalar t (reg_field instruction 0) m
                                  + extract_signed_bits instruction 15 10)) in
  let m' := cache_tlb_invalidate t instruction m in
  (forall data asid, find_way (tlb_of data (the_core t m')) page asid = None)
  /\ (forall address is_store data, enable_mmu (the_thread t m) = true ->
        ROUND_TO_PAGE address = page ->
        translate_address t address is_store data m'
        = (None, raise_trap t address TT_TLB_MISS is_store data 0 m'))
  /\ (forall data page' asid, page' <> page -> page' <> INVALID_ADDR ->
        find_way (tlb_of data (the_core t m')) page' asid
        = find_way (tlb_of data (the_core t m)) page' asid).
Proof.
  intros Hm Ht Hs page m'.
  destruct (cache_tlb_invalidate_core nc tpc t instruction m Hm Ht Hs) as [Hth Htlb].
  fold page m' in Hth, Htlb.
  assert (Hp : page <> INVALID_ADDR) by apply ROUND_TO_PAGE_not_invalid, is_u32_u32.
  assert (Hmiss : forall data asid, find_way (tlb_of data (the_core t m')) page asid = None).
  { intros data asid. rewrite Htlb. apply tlb_invalidate_miss; [|done].
    by apply (tlb_of_wf nc tpc). }
  split; [exact Hmiss|]. split.
  - intros address is_store data Hmmu Ha. unfold translate_address. rewrite Hth, Hmmu. cbn [negb].
    change ((if data then dtlb else itlb) (the_core t m')) with (tlb_of data (the_core t m')).
    by rewrite Ha, Hmiss.
  - intros data page' asid Hne Hv. rewrite Htlb. by apply tlb_invalidate_other.
Qed.

Lemma tlb_invalidate_then_miss_witness :
  let m := cache_tlb_insert thread0 dtlb_insert_inst true mmu_machine in
  let m' := cache_tlb_invalidate thread0 dtlb_insert_inst m in
  machine_wf 1 2 m /\ find_way (tlb_of true (the_core thread0 m)) 0x5000 0 = Some 20%nat /\
  find_way (tlb_of true (the_core thread0 m')) 0x5000 0 = None.
Proof.
  intros m m'.
  assert (Hm : machine_wf 1 2 m)
    by exact (execute_cache_control_inst_wf 1 2 thread0 dtlb_insert_inst _ mmu_machine_wf thread0_valid).
  split; [exact Hm|]. split; [vm_compute; reflexivity|].
  exact (proj1 (tlb_invalidate_then_miss devices device_host 1 2 thread0 dtlb_insert_inst m Hm
    thread0_valid eq_refl) true 0).
Defined.

(** Updating a global entry from another address space loses it.  The emulator
    rewrites only [phys_addr_and_flags] of a matching entry, not its [asid], so when
    the entry matched by its global bit and the new flags drop that bit, the entry
    just inserted no longer matches the thread that inserted it. *)
Theorem tlb_update_keeps_asid tlb page flags asid next_way way :
  tlb_wf tlb -> find_way tlb page asid = Some way ->
  entry_asid (tlb !!! way) <> asid -> flag_set flags TLB_GLOBAL = false ->
  way_matches page asid (tlb_insert page flags asid next_way tlb !!! way) = false.
Proof.
  intros [Hl _] Hf Hasid Hflags. destruct (find_way_Some _ _ _ _ Hf) as [Hin Hm].
  pose proof (set_ways_bound page way Hin) as Hb. rewrite <- Hl in Hb.
  unfold tlb_insert. rewrite Hf, total_alter_same by done. unfold way_matches. simpl.
  rewrite Hflags. simpl.
  rewrite (proj2 (Z.eqb_neq (entry_asid (tlb !!! way)) asid) Hasid). apply andb_false_r.
Qed.

Lemma tlb_update_keeps_asid_witness :
  let tlb := <[4%nat := Build_tlb_entry 1 0x1000 (TLB_PRESENT + TLB_GLOBAL)]>
               (init_tlb (Build_tlb_entry 0 0 0)) in
  tlb_wf tlb /\ find_way tlb 0x1000 2 = Some 4%nat /\
  way_matches 0x1000 2 (tlb_insert 0x1000 TLB_PRESENT 2 0 tlb !!! 4%nat) = false.
Proof.
  intros tlb.
  assert (Hw : tlb_wf tlb).
  { destruct (init_tlb_wf (Build_tlb_entry 0 0 0)) as [Hl Hf]; [by constructor|].
    unfold tlb. split; [by rewrite length_insert|]. by apply Forall_insert. }
  split; [exact Hw|]. split; [vm_compute; reflexivity|].
  apply (tlb_update_keeps_asid tlb 0x1000 TLB_PRESENT 2 0 4%nat Hw).
  - vm_compute. reflexivity.
  - vm_compute. discriminate.
  - reflexivity.
Defined.
