(* ===== verification/VectorProps.v ===== *)
(** * VectorProps: vector instructions, lane by lane *)

From S2P Require Export Confinement.

(** ** Packed comparisons *)

Lemma testbit_0x8000 i : 0 <= i -> Z.testbit 0x8000 i = (i =? 15).
Proof.
  intros Hi. change 0x8000 with (2 ^ 15). destruct (Z.eqb_spec i 15) as [->|Hne]; [done|].
  apply Z.pow2_bits_false. lia.
Qed.

(** After [k] lanes, lane [j] is in bit [16 - k + j]. *)
Lemma pack_compare_prefix (compare : nat -> Z) k i :
  (k <= 16)%nat -> 0 <= i ->
  Z.testbit (fold_left (fun result lane =>
    Z.lor (Z.shiftr result 1) (if compare lane =? 0 then 0 else 0x8000)) (seq 0 k) 0) i
  = (16 - Z.of_nat k <=? i) && (i <? 16)
    && negb (compare (Z.to_nat (i - (16 - Z.of_nat k))) =? 0).
Proof.
  revert i. induction k as [|k IH]; intros i Hk Hi.
  - simpl. rewrite Z.testbit_0_l.
    destruct (Z.leb_spec (16 - Z.of_nat 0) i), (Z.ltb_spec i 16); simpl; try done; lia.
  - rewrite seq_S, fold_left_app. cbn [fold_left].
    rewrite Z.lor_spec, Z.shiftr_spec, IH by lia.
    assert (Hbit : Z.testbit (if compare (0 + k)%nat =? 0 then 0 else 0x8000) i
      = (i =? 15) && negb (compare k =? 0)).
    { simpl. destruct (compare k =? 0); simpl;
        rewrite ?Z.testbit_0_l, ?testbit_0x8000, ?andb_false_r, ?andb_true_r; done. }
    rewrite Hbit. destruct (Z.eq_dec i 15) as [->|Hne].
    + replace (16 - Z.of_nat k <=? 15 + 1) with (16 - Z.of_nat k <=? 16) by done.
      change (15 + 1 <? 16) with false. rewrite andb_false_r. simpl.
      rewrite (proj2 (Z.leb_le _ _)) by lia. simpl.
      by replace (Z.to_nat (15 - (16 - Z.of_nat (S k)))) with k by lia.
    + rewrite (proj2 (Z.eqb_neq _ _) Hne), orb_false_r.
      replace (16 - Z.of_nat k <=? i + 1) with (16 - Z.of_nat (S k) <=? i)
        by (destruct (Z.leb_spec (16 - Z.of_nat (S k)) i), (Z.leb_spec (16 - Z.of_nat k) (i + 1)); lia).
      replace (i + 1 <? 16) with (i <? 16)
        by (destruct (Z.ltb_spec i 16), (Z.ltb_spec (i + 1) 16); lia).
      by replace (i + 1 - (16 - Z.of_nat k)) with (i - (16 - Z.of_nat (S k))) by lia.
Qed.

Lemma pack_compare_bit compare i :
  0 <= i ->
  Z.testbit (pack_compare compare) i = (i <? 16) && negb (compare (Z.to_nat i) =? 0).
Proof.
  intros Hi. unfold pack_compare, lanes, NUM_VECTOR_LANES. rewrite pack_compare_prefix by lia.
  change (16 - Z.of_nat 16) with 0. rewrite Z.sub_0_r, (proj2 (Z.leb_le 0 i)) by done. done.
Qed.

(** ** Masked writes *)

Lemma masked_update_lane mask values old lane :
  (lane < length old)%nat ->
  masked_update mask values old !!! lane
  = if Z.testbit mask (Z.of_nat lane) then values !!! lane else old !!! lane.
Proof.
  intros Hl. unfold masked_update. rewrite !list_lookup_total_alt, list_lookup_imap.
  destruct (lookup_lt_is_Some_2 old lane Hl) as [o ->]. simpl.
  by rewrite lane_enabled_testbit, list_lookup_total_alt.
Qed.

Lemma map_lanes_lookup (f : nat -> Z) lane :
  (lane < NUM_VECTOR_LANES)%nat -> map f lanes !!! lane = f lane.
Proof.
  intros Hl. unfold lanes. rewrite list_lookup_total_alt, list_lookup_fmap.
  by rewrite lookup_seq_lt by done.
Qed.

Section Registers.

Context {D : Type} `{Host D} (nc tpc : Z).
Implicit Types m : machine D.

Lemma get_scalar_set_scalar t reg reg' v m :
  machine_wf nc tpc m -> valid nc tpc t -> (reg < NUM_REGISTERS)%nat ->
  get_scalar t reg' (set_scalar_reg t reg v m) = if decide (reg = reg') then v else get_scalar t reg' m.
Proof.
  intros Hm Ht Hr. unfold get_scalar, set_scalar_reg.
  assert (Hm' : machine_wf nc tpc (with_cosim (cosim_check_set_scalar_reg (current_pc t m) (Z.of_nat reg) v) m))
    by by apply with_cosim_wf.
  rewrite (the_thread_on_thread nc tpc), the_thread_with_cosim by done. simpl.
  destruct (wf_scalars _ (the_thread_wf nc tpc t m Hm Ht)) as [Hl _].
  case_decide as Heq; [subst; apply list_lookup_total_insert_eq; lia|].
  by apply list_lookup_total_insert_ne.
Qed.

Lemma get_vector_set_vector t reg reg' mask v m :
  machine_wf nc tpc m -> valid nc tpc t -> (reg < NUM_REGISTERS)%nat ->
  get_vector t reg' (set_vector_reg t reg mask v m)
  = if decide (reg = reg') then masked_update mask v (get_vector t reg m) else get_vector t reg' m.
Proof.
  intros Hm Ht Hr. unfold get_vector, set_vector_reg.
  assert (Hm' : machine_wf nc tpc (with_cosim (cosim_check_set_vector_reg (current_pc t m) (Z.of_nat reg) mask v) m))
    by by apply with_cosim_wf.
  rewrite (the_thread_on_thread nc tpc), the_thread_with_cosim by done. simpl.
  destruct (wf_vectors _ (the_thread_wf nc tpc t m Hm Ht)) as [Hl _].
  case_decide as Heq; [subst; apply list_lookup_total_alter_eq; lia|].
  by apply list_lookup_total_alter_ne.
Qed.

Lemma get_vector_length t reg m :
  machine_wf nc tpc m -> valid nc tpc t -> (reg < NUM_REGISTERS)%nat ->
  length (get_vector t reg m) = NUM_VECTOR_LANES.
Proof.
  intros Hm Ht Hr. destruct (wf_vectors _ (the_thread_wf nc tpc t m Hm Ht)) as [Hl Hv].
  unfold get_vector. rewrite list_lookup_total_alt.
  destruct (lookup_lt_is_Some_2 (vector_reg (the_thread t m)) reg) as [v E]; [lia|].
  rewrite E. eapply Forall_lookup in E; [|exact Hv]. apply E.
Qed.

End Registers.

(** ** Arithmetic *)

(** The mask and second operand of a vector format. *)
Definition format_mask {D} (t : thread_ptr) (fmt : register_arith_format) (maskreg : nat) (m : machine D) : Z :=
  match fmt with
  | FMT_RA_VS_M | FMT_RA_VV_M => get_scalar t maskreg m
  | _ => 0xffff
  end.

Definition format_operand {D} (t : thread_ptr) (fmt : register_arith_format) (op2reg lane : nat) (m : machine D) : Z :=
  match fmt with
  | FMT_RA_VV | FMT_RA_VV_M => get_vector t op2reg m !!! lane
  | _ => get_scalar t op2reg m
  end.

(** Vector arithmetic is lane-wise.  An arithmetic instruction in a vector format
    sets each lane its mask enables to the scalar operation on that lane's operands
    (the second one broadcast in the scalar formats), and changes no other lane and
    no other register. *)
Theorem vector_arith_lanes D (host : Host D) nc tpc t instruction fmt (m : machine D) :
  machine_wf nc tpc m -> valid nc tpc t ->
  let op := extract_unsigned_bits instruction 20 6 in
  let dest := reg_field instruction 5 in
  extract_unsigned_bits instruction 26 3 = enum_value fmt -> fmt <> FMT_RA_SS ->
  is_compare_op op = false ->
  ~ In (enum_of_Z op) [Some OP_GETLANE; Some OP_SHUFFLE; Some OP_BREAKPOINT] ->
  let m' := execute_register_arith_inst t instruction m in
  (forall lane, (lane < NUM_VECTOR_LANES)%nat ->
    get_vector t dest m' !!! lane
    = if Z.testbit (format_mask t fmt (reg_field instruction 10) m) (Z.of_nat lane)
      then scalar_arithmetic_op op (get_vector t (reg_field instruction 0) m !!! lane)
             (format_operand t fmt (reg_field instruction 15) lane m)
      else get_vector t dest m !!! lane)
  /\ (forall reg, reg <> dest -> get_vector t reg m' = get_vector t reg m)
  /\ (forall reg, get_scalar t reg m' = get_scalar t reg m).
Proof.
  intros Hm Ht op dest Hfmt Hss Hcmp Hop m'.
  assert (Hdest : (dest < NUM_REGISTERS)%nat) by by apply reg_field_lt.
  assert (Hset : exists mask o,
    m' = set_vector_reg t dest mask (vector_arith op (get_vector t (reg_field instruction 0) m) o) m
    /\ mask = format_mask t fmt (reg_field instruction 10) m
    /\ forall lane, operand_lane o lane = format_operand t fmt (reg_field instruction 15) lane m).
  { subst m'. unfold execute_register_arith_inst. fold op dest. rewrite Hfmt, Hcmp.
    rewrite (bool_decide_eq_false_2 (enum_of_Z op = Some OP_BREAKPOINT)) by (intros E; apply Hop; simpl; auto).
    rewrite (bool_decide_eq_false_2 (enum_of_Z op = Some OP_GETLANE)) by (intros E; apply Hop; simpl; auto).
    unfold register_vector.
    rewrite (bool_decide_eq_false_2 (enum_of_Z op = Some OP_SHUFFLE)) by (intros E; apply Hop; simpl; auto).
    rewrite enum_of_Z_value. rewrite (bool_decide_eq_false_2 (Some fmt = Some FMT_RA_SS)) by congruence.
    destruct fmt; try done; eexists _, _; split; try reflexivity; by split. }
  destruct Hset as (mask & o & Hm' & -> & Ho). rewrite Hm'. split_and!.
  - intros lane Hlane. rewrite (get_vector_set_vector nc tpc) by done.
    rewrite decide_True by done.
    rewrite masked_update_lane by by rewrite (get_vector_length nc tpc).
    unfold vector_arith. by rewrite map_lanes_lookup, Ho.
  - intros reg Hne. rewrite (get_vector_set_vector nc tpc) by done. by rewrite decide_False.
  - intros reg. unfold get_scalar, set_vector_reg.
    rewrite (the_thread_on_thread nc tpc), the_thread_with_cosim; [done| |done].
    by apply with_cosim_wf.
Qed.

(** Register 5 is 0b101 and v2 counts up: v3{s5} = v2 + s5. *)
Definition vector_machine : machine devices :=
  on_thread thread0 (fun th => th <| scalar_reg ::= <[5%nat := 5]> |>
    <| vector_reg ::= <[2%nat := map Z.of_nat lanes]> |>)
    (small_machine (replicate 64 0)).

Definition masked_add_inst : Z := 0xc0000000 + 2 * 2 ^ 26 + 5 * 2 ^ 20 + 5 * 2 ^ 15 + 5 * 2 ^ 10 + 3 * 2 ^ 5 + 2.

Lemma vector_machine_wf : machine_wf 1 2 vector_machine.
Proof.
  assert (Hm : machine_wf 1 2 (small_machine (replicate 64 0)))
    by (apply small_machine_wf; [by apply Forall_replicate|done]).
  apply on_thread_wf; [exact Hm|exact thread0_valid|].
  rebuild (the_thread_wf 1 2 thread0 _ Hm thread0_valid).
  - split; [done|]. repeat (apply List.Forall_cons; [by split|]). apply Forall_nil_2.
  - split; [done|].
    assert (Hv : Forall is_u32 (map Z.of_nat lanes))
      by (repeat (apply List.Forall_cons; [by split|]); apply Forall_nil_2).
    assert (Hz : Forall is_u32 (replicate 16 0)) by by apply Forall_replicate.
    repeat (apply List.Forall_cons; [by split|]). apply Forall_nil_2.
Qed.

Lemma vector_arith_lanes_witness :
  machine_wf 1 2 vector_machine /\
  let m' := execute_register_arith_inst thread0 masked_add_inst vector_machine in
  forall lane, (lane < NUM_VECTOR_LANES)%nat ->
    get_vector thread0 3 m' !!! lane
    = if Z.testbit 5 (Z.of_nat lane)
      then scalar_arithmetic_op 5 (get_vector thread0 2 vector_machine !!! lane) 5 else
      get_vector thread0 3 vector_machine !!! lane.
Proof.
  split; [exact vector_machine_wf|].
  refine (proj1 (vector_arith_lanes devices device_host 1 2 thread0 masked_add_inst FMT_RA_VS_M
    vector_machine vector_machine_wf thread0_valid eq_refl _ eq_refl _)).
  - discriminate.
  - vm_compute. intuition discriminate.
Defined.

(** Vector comparisons pack one bit per lane.  A comparison in a vector format
    writes to its scalar destination the word whose bit [i] is the comparison of
    lane [i] for the 16 lanes, and whose other bits are zero. *)
Theorem vector_compare_lanes D (host : Host D) nc tpc t instruction fmt i (m : machine D) :
  machine_wf nc tpc m -> valid nc tpc t ->
  let op := extract_unsigned_bits instruction 20 6 in
  extract_unsigned_bits instruction 26 3 = enum_value fmt -> fmt <> FMT_RA_SS ->
  is_compare_op op = true -> 0 <= i ->
  Z.testbit (get_scalar t (reg_field instruction 5) (execute_register_arith_inst t instruction m)) i
  = (i <? 16) &&
    (scalar_arithmetic_op op (get_vector t (reg_field instruction 0) m !!! Z.to_nat i)
       (format_operand t fmt (reg_field instruction 15) (Z.to_nat i) m) =? 1).
Proof.
  intros Hm Ht op Hfmt Hss Hcmp Hi.
  assert (Hdest : (reg_field instruction 5 < NUM_REGISTERS)%nat) by by apply reg_field_lt.
  assert (H01 : forall a b, negb (scalar_arithmetic_op op a b =? 0) = (scalar_arithmetic_op op a b =? 1)).
  { intros a b. destruct (compare_op_01 op a b Hcmp) as [-> | ->]; done. }
  assert (Hno : forall o, op = enum_value o -> o <> OP_GETLANE /\ o <> OP_BREAKPOINT).
  { intros o Ho. apply is_compare_op_iff in Hcmp. rewrite Ho in Hcmp.
    split; intros ->; simpl in Hcmp; lia. }
  unfold execute_register_arith_inst. fold op. rewrite Hfmt, Hcmp.
  rewrite (bool_decide_eq_false_2 (enum_of_Z op = Some OP_BREAKPOINT))
    by (intros E; apply enum_of_Z_Some in E; by destruct (Hno _ E)).
  rewrite (bool_decide_eq_false_2 (enum_of_Z op = Some OP_GETLANE))
    by (intros E; apply enum_of_Z_Some in E; by destruct (Hno _ E)).
  unfold register_compare. rewrite enum_of_Z_value.
  destruct fmt; try done; rewrite (get_scalar_set_scalar nc tpc), decide_True by done;
    unfold vector_compare; rewrite pack_compare_bit by done; by rewrite H01.
Qed.

(** s4 = v2 < s5 *)
Definition compare_inst : Z := 0xc0000000 + 1 * 2 ^ 26 + 20 * 2 ^ 20 + 5 * 2 ^ 15 + 4 * 2 ^ 5 + 2.

Lemma vector_compare_lanes_witness :
  machine_wf 1 2 vector_machine /\
  Z.testbit (get_scalar thread0 4 (execute_register_arith_inst thread0 compare_inst vector_machine)) 3
  = true.
Proof.
  split; [exact vector_machine_wf|].
  refine (eq_trans (vector_compare_lanes devices device_host 1 2 thread0 compare_inst FMT_RA_VS 3
    vector_machine vector_machine_wf thread0_valid eq_refl _ eq_refl _) eq_refl).
  - discriminate.
  - done.
Defined.

(** ** Gather: sixteen executions make one vector load *)

Section Gather.

Context {D : Type} `{Host D} (nc tpc : Z) (t : thread_ptr) (instruction : Z) (m0 : machine D).

(** The instruction as [execute_instruction] runs it: the PC has been advanced. *)
Definition gather_step (m : machine D) : result (machine D) :=
  execute_scatter_gather_inst t instruction (advance_pc t m).

Definition lane_address (offset : Z) (lane : nat) : Z :=
  u32 (get_vector t (reg_field instruction 0) m0 !!! lane + offset).

(** What the word at a lane's address is; 0 outside memory. *)
Definition lane_word (offset : Z) (lane : nat) : Z :=
  match load32 (lane_address offset lane) (memory (proc m0)) with Done v => v | Fault _ => 0 end.

(** Machines that differ from the first one only in these fields of the thread (and in what the
    cosimulation checker has noted). *)
Definition only_vectors_differ (m : machine D) : Prop :=
  host m = host m0
  /\ proc m = proc (on_thread t (fun th => th <| vector_reg := vector_reg (the_thread t m) |>
                        <| subcycle := subcycle (the_thread t m) |> <| pc := pc (the_thread t m) |>) m0).

(** The machine after [k] lanes. *)
Record gathered (mask offset : Z) (k : nat) (m : machine D) : Prop := {
  gathered_wf : machine_wf nc tpc m;
  gathered_memory : memory (proc m) = memory (proc m0);
  gathered_size : memory_size (proc m) = memory_size (proc m0);
  gathered_mmu : enable_mmu (the_thread t m) = false;
  gathered_scalars : scalar_reg (the_thread t m) = scalar_reg (the_thread t m0);
  gathered_others : forall reg, reg <> (reg_field instruction 5) -> get_vector t reg m = get_vector t reg m0;
  gathered_lanes : forall lane, (lane < NUM_VECTOR_LANES)%nat ->
    get_vector t (reg_field instruction 5) m !!! lane
    = if (lane <? k)%nat && Z.testbit mask (Z.of_nat lane) then lane_word offset lane
      else get_vector t (reg_field instruction 5) m0 !!! lane;
  gathered_subcycle : subcycle (the_thread t m) = if (k =? 16)%nat then 0 else Z.of_nat k;
  gathered_pc : pc (the_thread t m) = if (k =? 16)%nat then u32 (pc (the_thread t m0) + 4)
                                      else pc (the_thread t m0);
  gathered_rest : only_vectors_differ m
}.

(** Every lane's address is in memory, and aligned where the mask enables it. *)
Definition lanes_in_memory (mask offset : Z) : Prop :=
  forall lane, (lane < NUM_VECTOR_LANES)%nat ->
    lane_address offset lane < memory_size (proc m0)
    /\ (Z.testbit mask (Z.of_nat lane) = true -> Z.land (lane_address offset lane) 3 = 0).

Hypothesis Hm0 : machine_wf nc tpc m0.
Hypothesis Ht : valid nc tpc t.
Hypothesis Hload : is_load_inst instruction = true.

Lemma list_eq_total {A} `{!Inhabited A} (l l' : list A) :
  length l = length l' -> (forall i, (i < length l)%nat -> l !!! i = l' !!! i) -> l = l'.
Proof.
  revert l'. induction l as [|x l IH]; intros [|y l'] Hl Hi; try done. f_equal.
  - apply (Hi 0%nat). simpl. lia.
  - apply IH; [by injection Hl|]. intros i Hlt. apply (Hi (S i)). simpl. lia.
Qed.

Lemma alter_alter {A} (f g : A -> A) i (l : list A) : alter f i (alter g i l) = alter (fun x => f (g x)) i l.
Proof. revert i. induction l as [|x l IH]; intros [|i]; simpl; f_equal; try done. exact (IH i). Qed.

Lemma on_thread_compose f g (m m' : machine D) :
  proc m = proc (on_thread t g m') -> proc (on_thread t f m) = proc (on_thread t (fun th => f (g th)) m').
Proof.
  intros Hp. unfold on_thread, on_core, on_proc in *. destruct m as [p h c], m' as [p' h' c']. unfold update in *. simpl in *.
  subst p. unfold update. simpl. f_equal. rewrite alter_alter. apply list_alter_ext; [|done].
  intros co _. simpl. unfold update. simpl. by rewrite alter_alter.
Qed.

Lemma on_thread_same f g (m : machine D) :
  machine_wf nc tpc m -> f (the_thread t m) = g (the_thread t m) -> on_thread t f m = on_thread t g m.
Proof.
  intros Hm Hfg. pose proof (valid_core_lookup _ _ t m Hm Ht) as Hc. pose proof (valid_thread_lookup _ _ t m Hm Ht) as Hth.
  unfold on_thread, on_core, on_proc. destruct m as [p h c]. unfold update. simpl. f_equal. unfold update. f_equal.
  apply list_alter_ext; [|done]. intros co Hco. simpl in Hc. rewrite Hc in Hco. injection Hco as <-.
  unfold update. f_equal. apply list_alter_ext; [|done]. intros th Hth'. rewrite Hth in Hth'. by injection Hth' as <-.
Qed.

Lemma only_vectors_start : only_vectors_differ m0.
Proof.
  split; [done|]. rewrite (on_thread_same _ (fun th => th) m0 Hm0) by by destruct (the_thread t m0).
  assert (Hid : forall A (l : list A) f i, (forall x, f x = x) -> alter f i l = l).
  { intros A l f i Hf. revert i. induction l as [|x l IH]; intros [|i]; simpl; [done..|by rewrite Hf|f_equal; exact (IH i)]. }
  unfold on_thread, on_core, on_proc. destruct m0 as [[] h c]. unfold update. simpl. unfold update. simpl. rewrite Hid; [done|].
  intros []. unfold update. simpl. by rewrite Hid.
Qed.

(** Updates of those fields of the thread alone. *)
Lemma only_vectors_update f (m m' : machine D) :
  machine_wf nc tpc m -> only_vectors_differ m -> host m' = host m -> proc m' = proc (on_thread t f m) ->
  (forall th, f th = th <| vector_reg := vector_reg (f th) |> <| subcycle := subcycle (f th) |> <| pc := pc (f th) |>) ->
  only_vectors_differ m'.
Proof.
  intros Hm [Hh Hp] Hh' Hp' Hf. split; [by rewrite Hh'|].
  assert (Hth : the_thread t m' = f (the_thread t m)).
  { rewrite <- (the_thread_on_thread nc tpc t f m Hm Ht). unfold the_thread, the_core. by rewrite Hp'. }
  assert (Hth0 : the_thread t m = the_thread t m0 <| vector_reg := vector_reg (the_thread t m) |>
    <| subcycle := subcycle (the_thread t m) |> <| pc := pc (the_thread t m) |>).
  { transitivity (the_thread t (on_thread t (fun th => th <| vector_reg := vector_reg (the_thread t m) |>
      <| subcycle := subcycle (the_thread t m) |> <| pc := pc (the_thread t m) |>) m0));
      [unfold the_thread at 1, the_core; by rewrite Hp|by rewrite (the_thread_on_thread nc tpc)]. }
  rewrite Hp', (on_thread_compose _ _ _ _ Hp). f_equal. apply on_thread_same; [done|]. cbv beta.
  rewrite <- Hth0, <- Hth. rewrite Hth at 1. rewrite (Hf (the_thread t m)), <- Hth, Hth0. by destruct (the_thread t m0).
Qed.

Lemma vector_operands_scalars t' unmasked masked instr (m m' : machine D) :
  scalar_reg (the_thread t' m') = scalar_reg (the_thread t' m) ->
  vector_operands t' unmasked masked instr m' = vector_operands t' unmasked masked instr m.
Proof. intros Hs. unfold vector_operands, get_scalar. by rewrite Hs. Qed.

Lemma gather_lane_result mask physical lane m :
  machine_wf nc tpc m -> 0 <= physical < memory_size (proc m) ->
  gather_lane t mask physical lane (reg_field instruction 5) m
  = Done (set_vector_reg t (reg_field instruction 5) (Z.land mask (Z.shiftl 1 (Z.of_nat lane)))
      (<[lane := if lane_enabled mask lane
                 then match load32 physical (memory (proc m)) with Done v => v | Fault _ => 0 end
                 else 0]> (replicate NUM_VECTOR_LANES 0)) m).
Proof.
  intros Hm Hin. unfold gather_lane. destruct (lane_enabled mask lane); [|done].
  pose proof (load32_returns _ _ (fun _ => False) (wf_memory _ _ _ (wf_proc _ _ m Hm)) _ Hin) as Hr.
  by destruct (load32 physical (memory (proc m))).
Qed.

Lemma lane_bit mask lane lane' :
  Z.testbit (Z.land mask (Z.shiftl 1 (Z.of_nat lane))) (Z.of_nat lane')
  = Z.testbit mask (Z.of_nat lane') && bool_decide (lane = lane').
Proof.
  rewrite Z.land_spec. f_equal. rewrite Z.shiftl_1_l. case_bool_decide as Heq.
  - subst. apply Z.pow2_bits_true. lia.
  - apply Z.pow2_bits_false. lia.
Qed.

Lemma advance_subcycle_fields k th :
  (k < 16)%nat -> subcycle th = Z.of_nat k ->
  subcycle (advance_subcycle th) = (if (S k =? 16)%nat then 0 else Z.of_nat (S k))
  /\ pc (advance_subcycle th) = (if (S k =? 16)%nat then pc th else u32 (pc th - 4)).
Proof.
  intros Hk Hs. unfold advance_subcycle. rewrite Hs.
  assert (Hu : u32 (Z.of_nat k + 1) = Z.of_nat (S k)) by (unfold u32; rewrite Z.mod_small; lia).
  rewrite Hu. destruct (Nat.eqb_spec (S k) 16) as [->|Hne]; [done|].
  unfold NUM_VECTOR_LANES. rewrite (proj2 (Z.eqb_neq _ _)) by lia. done.
Qed.

Lemma advance_subcycle_regs th :
  scalar_reg (advance_subcycle th) = scalar_reg th /\ vector_reg (advance_subcycle th) = vector_reg th
  /\ enable_mmu (advance_subcycle th) = enable_mmu th.
Proof. unfold advance_subcycle. by destruct (_ =? _). Qed.

(** The vector register after lane [k] is written. *)
Definition write_lane (mask offset : Z) (k : nat) (m : machine D) : machine D :=
  set_vector_reg t (reg_field instruction 5) (Z.land mask (Z.shiftl 1 (Z.of_nat k)))
    (<[k := if lane_enabled mask k then lane_word offset k else 0]>
       (replicate NUM_VECTOR_LANES 0)) m.

Lemma gather_step_result mask offset k m :
  vector_operands t MEM_SCGATH MEM_SCGATH_MASK instruction m0 = Some (mask, offset) ->
  lanes_in_memory mask offset -> (k < NUM_VECTOR_LANES)%nat -> gathered mask offset k m ->
  gather_step m = Done (on_thread t advance_subcycle (write_lane mask offset k (advance_pc t m))).
Proof.
  intros Hops Hlanes Hk G. unfold NUM_VECTOR_LANES in Hk. destruct G.
  rewrite (proj2 (Nat.eqb_neq k 16)) in * by lia.
  set (m1 := advance_pc t m).
  assert (Hth1 : the_thread t m1 = the_thread t m <| pc ::= fun p => u32 (p + 4) |>)
    by by apply (the_thread_on_thread nc tpc).
  assert (Hm1 : machine_wf nc tpc m1) by (apply set_pc_field_wf; [done|done|auto with words]).
  assert (Hptr : get_vector t (reg_field instruction 0) m1 !!! k = get_vector t (reg_field instruction 0) m0 !!! k).
  { unfold get_vector at 1. rewrite Hth1. change (get_vector t (reg_field instruction 0) m !!! k = get_vector t (reg_field instruction 0) m0 !!! k).
    destruct (decide ((reg_field instruction 0) = (reg_field instruction 5))) as [->|Hne]; [|by rewrite gathered_others0].
    rewrite gathered_lanes0 by done. by rewrite Nat.ltb_irrefl. }
  destruct (Hlanes k Hk) as [Hin Hal].
  assert (Haddr : u32 (get_vector t (reg_field instruction 0) m1 !!! k + offset) = lane_address offset k)
    by (by rewrite Hptr).
  assert (Hu : is_u32 (lane_address offset k)) by apply is_u32_u32.
  assert (Hrange : 0 <= lane_address offset k < memory_size (proc m1)).
  { change (memory_size (proc m1)) with (memory_size (proc m)). destruct Hu. lia. }
  pose proof (wf_below_devices _ _ (wf_memory _ _ _ (wf_proc _ _ m1 Hm1))) as Hdev.
  unfold gather_step, execute_scatter_gather_inst. fold m1.
  rewrite (vector_operands_scalars t _ _ _ m0 m1) by (by rewrite Hth1). rewrite Hops, Hload.
  cbn [negb]. replace (subcycle (the_thread t m1)) with (Z.of_nat k) by (by rewrite Hth1).
  rewrite (proj2 (Z.leb_gt _ _)) by (unfold NUM_VECTOR_LANES; lia). rewrite Nat2Z.id, Haddr.
  replace (lane_enabled mask k && negb (Z.land (lane_address offset k) 3 =? 0)) with false.
  2:{ rewrite lane_enabled_testbit. destruct (Z.testbit mask (Z.of_nat k)); [|done].
      by rewrite (Hal eq_refl). }
  unfold translate_address. replace (enable_mmu (the_thread t m1)) with false by (by rewrite Hth1).
  cbn [negb]. unfold out_of_range. rewrite (proj2 (Z.leb_gt _ _)) by apply Hrange. cbn [andb].
  unfold is_device_address. rewrite (proj2 (Z.leb_gt _ _)) by lia.
  rewrite gather_lane_result by done. unfold write_lane, lane_word.
  change (memory (proc m1)) with (memory (proc m)). by rewrite gathered_memory0.
Qed.

Lemma write_lane_lanes mask offset k lane m :
  machine_wf nc tpc m -> (k < NUM_VECTOR_LANES)%nat -> (lane < NUM_VECTOR_LANES)%nat ->
  get_vector t (reg_field instruction 5) (write_lane mask offset k m) !!! lane
  = if bool_decide (k = lane) && Z.testbit mask (Z.of_nat lane) then lane_word offset lane
    else get_vector t (reg_field instruction 5) m !!! lane.
Proof.
  intros Hm Hk Hl. assert (Hdest : ((reg_field instruction 5) < NUM_REGISTERS)%nat) by by apply reg_field_lt.
  unfold write_lane. rewrite (get_vector_set_vector nc tpc), decide_True by done.
  rewrite masked_update_lane by (by rewrite (get_vector_length nc tpc)).
  rewrite lane_bit, andb_comm. case_bool_decide as Heq; simpl; [|done].
  subst lane. destruct (Z.testbit mask (Z.of_nat k)) eqn:Hb; [|done].
  rewrite list_lookup_total_insert_eq by (unfold NUM_VECTOR_LANES in Hk; simpl; lia).
  by rewrite lane_enabled_testbit, Hb.
Qed.

(** One more lane. *)
Lemma gather_step_lane mask offset k m :
  vector_operands t MEM_SCGATH MEM_SCGATH_MASK instruction m0 = Some (mask, offset) ->
  lanes_in_memory mask offset -> (k < NUM_VECTOR_LANES)%nat ->
  gathered mask offset k m -> exists m', gather_step m = Done m' /\ gathered mask offset (S k) m'.
Proof.
  intros Hops Hlanes Hk G.
  eexists. split; [by apply gather_step_result|].
  assert (Hdest : ((reg_field instruction 5) < NUM_REGISTERS)%nat) by by apply reg_field_lt.
  destruct G. unfold NUM_VECTOR_LANES in Hk. rewrite (proj2 (Nat.eqb_neq k 16)) in * by lia.
  pose proof (wf_pc _ (the_thread_wf nc tpc t m gathered_wf0 Ht)) as [Hpc0 Hpc1].
  set (m1 := advance_pc t m).
  assert (Hth1 : the_thread t m1 = the_thread t m <| pc ::= fun p => u32 (p + 4) |>)
    by by apply (the_thread_on_thread nc tpc).
  assert (Hm1 : machine_wf nc tpc m1) by (apply set_pc_field_wf; [done|done|auto with words]).
  set (m2 := write_lane mask offset k m1).
  assert (Hm2 : machine_wf nc tpc m2).
  { apply set_vector_reg_wf; [done|done|]. apply Forall_insert.
    - apply Forall_replicate. auto with words.
    - destruct (lane_enabled mask k); [|auto with words]. unfold lane_word.
      pose proof (load32_returns _ _ (fun _ => False) (wf_memory _ _ _ (wf_proc _ _ m gathered_wf0))
        (lane_address offset k)) as Hr. rewrite gathered_memory0, gathered_size0 in Hr.
      destruct (Hlanes k Hk) as [Hin _]. destruct (is_u32_u32 (get_vector t (reg_field instruction 0) m0 !!! k + offset)) as [H0 _].
      specialize (Hr (conj H0 Hin)).
      destruct (load32 (lane_address offset k) (memory (proc m0))); [exact Hr|done]. }
  assert (Hth2 : the_thread t m2 = the_thread t m1 <| vector_reg := vector_reg (the_thread t m2) |>).
  { subst m2. unfold write_lane, set_vector_reg.
    rewrite (the_thread_on_thread nc tpc), the_thread_with_cosim; [done| |done].
    by apply with_cosim_wf. }
  assert (Hth : the_thread t (on_thread t advance_subcycle m2) = advance_subcycle (the_thread t m2))
    by by apply (the_thread_on_thread nc tpc).
  assert (Hsub2 : subcycle (the_thread t m2) = Z.of_nat k) by (by rewrite Hth2, Hth1).
  destruct (advance_subcycle_fields k (the_thread t m2) Hk Hsub2) as [Hsub Hpc].
  destruct (advance_subcycle_regs (the_thread t m2)) as (Hsc & Hvec & Hmmu).
  assert (Hget : forall reg, get_vector t reg (on_thread t advance_subcycle m2) = get_vector t reg m2)
    by (intros reg; unfold get_vector; by rewrite Hth, Hvec).
  assert (Hp2 : proc m2 = proc (on_thread t (fun th => th <| vector_reg ::=
     alter (masked_update (Z.land mask (Z.shiftl 1 (Z.of_nat k)))
      (<[k := if lane_enabled mask k then lane_word offset k else 0]>
       (replicate NUM_VECTOR_LANES 0))) (reg_field instruction 5) |>) m1)).
  { subst m2. unfold write_lane, set_vector_reg, with_cosim. by destruct (enable_cosim _). }
  constructor.
  - apply on_thread_wf; [done|done|]. by apply advance_subcycle_wf, (the_thread_wf nc tpc).
  - change (memory (proc m2) = memory (proc m0)). rewrite Hp2. exact gathered_memory0.
  - change (memory_size (proc m2) = memory_size (proc m0)). rewrite Hp2. exact gathered_size0.
  - by rewrite Hth, Hmmu, Hth2, Hth1.
  - by rewrite Hth, Hsc, Hth2, Hth1.
  - intros reg Hne. rewrite Hget. subst m2. unfold write_lane.
    rewrite (get_vector_set_vector nc tpc), decide_False by done.
    unfold get_vector at 1. rewrite Hth1. by apply gathered_others0.
  - intros lane Hlane. rewrite Hget. subst m2. rewrite write_lane_lanes by done.
    replace (get_vector t (reg_field instruction 5) m1) with (get_vector t (reg_field instruction 5) m) by (unfold get_vector; by rewrite Hth1).
    rewrite gathered_lanes0 by done.
    case_bool_decide as Heq.
    + subst lane. rewrite Nat.ltb_irrefl, (proj2 (Nat.ltb_lt k (S k))) by lia. done.
    + simpl. replace (lane <? S k)%nat with (lane <? k)%nat; [done|].
      destruct (Nat.ltb_spec lane k), (Nat.ltb_spec lane (S k)); lia.
  - by rewrite Hth, Hsub.
  - rewrite Hth, Hpc, Hth2, Hth1. simpl. rewrite gathered_pc0 in *.
    destruct (_ =? _)%nat; [done|]. unfold u32. rewrite Zminus_mod_idemp_l.
    replace (pc (the_thread t m0) + 4 - 4) with (pc (the_thread t m0)) by lia.
    by apply Z.mod_small.
  - apply (only_vectors_update (fun th => advance_subcycle (th <| pc ::= fun p => u32 (p + 4) |>
      <| vector_reg ::= alter (masked_update (Z.land mask (Z.shiftl 1 (Z.of_nat k)))
           (<[k := if lane_enabled mask k then lane_word offset k else 0]> (replicate NUM_VECTOR_LANES 0))) (reg_field instruction 5) |>)) m);
      [exact gathered_wf0|exact gathered_rest0| | |].
    + change (host m2 = host m). subst m2. unfold write_lane, set_vector_reg, with_cosim. by destruct (enable_cosim _).
    + apply (on_thread_compose advance_subcycle _ m2 m). rewrite Hp2.
      exact (on_thread_compose _ (fun th => th <| pc ::= fun p => u32 (p + 4) |>) m1 m eq_refl).
    + intros [] . unfold advance_subcycle. by destruct (_ =? _).
Qed.

Lemma gather_steps mask offset n k m :
  vector_operands t MEM_SCGATH MEM_SCGATH_MASK instruction m0 = Some (mask, offset) ->
  lanes_in_memory mask offset -> (k + n <= NUM_VECTOR_LANES)%nat -> gathered mask offset k m ->
  exists m', iterate_result n gather_step m = Done m' /\ gathered mask offset (k + n) m'.
Proof.
  intros Hops Hlanes. revert k m. induction n as [|n IH]; intros k m Hk G.
  - exists m. by rewrite Nat.add_0_r.
  - destruct (gather_step_lane mask offset k m Hops Hlanes ltac:(lia) G) as (m1 & Hs & G1).
    destruct (IH (S k) m1 ltac:(lia) G1) as (m2 & Hi & G2).
    exists m2. cbn [iterate_result]. rewrite Hs. cbn [bind_result]. split; [exact Hi|]. by replace (k + S n)%nat with (S k + n)%nat by lia.
Qed.

(** All the lanes. *)
Lemma gathered_result mask offset m :
  gathered mask offset 16 m ->
  proc m = proc (on_thread t (fun th => th
    <| vector_reg ::= alter (masked_update mask (map (lane_word offset) lanes)) (reg_field instruction 5) |>
    <| subcycle := 0 |> <| pc ::= fun p => u32 (p + 4) |>) m0).
Proof.
  intros [Hm _ _ _ _ Hothers Hlanes Hsub Hpc [_ ->]]. rewrite Hsub, Hpc. f_equal. apply on_thread_same; [done|]. cbv beta.
  assert (Hdest : ((reg_field instruction 5) < NUM_REGISTERS)%nat) by by apply reg_field_lt.
  unfold update. simpl. f_equal. destruct (wf_vectors _ (the_thread_wf nc tpc t m Hm Ht)) as [Hl _].
  destruct (wf_vectors _ (the_thread_wf nc tpc t m0 Hm0 Ht)) as [Hl0 _]. unfold get_vector in *.
  apply list_eq_total; [by rewrite length_alter, Hl|]. intros reg Hreg. rewrite Hl in Hreg.
  destruct (decide (reg = reg_field instruction 5)) as [->|Hne].
  - rewrite list_lookup_total_alter_eq by by rewrite Hl0. apply list_eq_total.
    + unfold masked_update. rewrite length_imap. fold (get_vector t (reg_field instruction 5) m) (get_vector t (reg_field instruction 5) m0).
      by rewrite !(get_vector_length nc tpc).
    + fold (get_vector t (reg_field instruction 5) m) (get_vector t (reg_field instruction 5) m0). rewrite (get_vector_length nc tpc) by done.
      intros lane Hlane. rewrite masked_update_lane by by rewrite (get_vector_length nc tpc).
      unfold get_vector. rewrite Hlanes by done. rewrite (proj2 (Nat.ltb_lt lane 16)) by done. cbn [andb].
      destruct (Z.testbit _ _); [symmetry; exact (map_lanes_lookup (lane_word offset) lane Hlane)|done].
  - rewrite Hothers by done. rewrite list_lookup_total_alter_ne; done.
Qed.

End Gather.

(** C5: a gather load is a vector of loads.  A gather instruction executes once per
    lane, with the subcycle counting lanes; sixteen executions from subcycle 0 (with
    the MMU off and every lane's address in memory, aligned where enabled) always
    complete, and leave in the destination, for each enabled lane, the word at that
    lane's original address -- even when the destination is the address vector --
    and in the other lanes the old value; the PC moves on by one instruction, the
    subcycle is 0 again, and nothing else of the processor or its devices has changed: no
    other register, field or thread, and no memory. *)
Theorem gather_is_vector_load D (host_ : Host D) nc tpc t instruction mask offset (m : machine D) :
  machine_wf nc tpc m -> valid nc tpc t -> is_load_inst instruction = true ->
  vector_operands t MEM_SCGATH MEM_SCGATH_MASK instruction m = Some (mask, offset) ->
  lanes_in_memory t instruction m mask offset ->
  subcycle (the_thread t m) = 0 -> enable_mmu (the_thread t m) = false ->
  exists m', iterate_result 16 (gather_step t instruction) m = Done m'
    /\ (forall lane, (lane < NUM_VECTOR_LANES)%nat ->
          get_vector t (reg_field instruction 5) m' !!! lane
          = if Z.testbit mask (Z.of_nat lane) then lane_word t instruction m offset lane
            else get_vector t (reg_field instruction 5) m !!! lane)
    /\ host m' = host m
    /\ proc m' = proc (on_thread t (fun th => th
         <| vector_reg ::= alter (masked_update mask (map (lane_word t instruction m offset) lanes)) (reg_field instruction 5) |>
         <| subcycle := 0 |> <| pc ::= fun p => u32 (p + 4) |>) m).
Proof.
  intros Hm Ht Hload Hops Hlanes Hsub Hmmu.
  assert (G : gathered nc tpc t instruction m mask offset 0 m)
    by (constructor; try done; by apply (only_vectors_start nc tpc)).
  destruct (gather_steps nc tpc t instruction m Hm Ht Hload mask offset 16 0 m Hops Hlanes (le_n _) G)
    as (m' & Hi & G').
  exists m'. split; [exact Hi|]. split; [|split].
  - intros lane Hl. rewrite (gathered_lanes _ _ _ _ _ _ _ _ _ G') by done. by rewrite (proj2 (Nat.ltb_lt lane (0 + 16))) by done.
  - apply (gathered_rest _ _ _ _ _ _ _ _ _ G').
  - by apply (gathered_result nc tpc).
Qed.

(** v2 = gather of v2 itself, whose lanes are 0, 4, 8, ... *)
Definition gather_machine : machine devices :=
  on_thread thread0 (fun th => th <| vector_reg ::= <[2%nat := map (fun i => 4 * Z.of_nat i) lanes]> |>)
    (small_machine (map (fun i => Z.of_nat i * 7) (seq 0 64))).

Definition gather_inst : Z := 0x80000000 + 2 ^ 29 + 13 * 2 ^ 25 + 2 * 2 ^ 5 + 2.

Lemma gather_machine_wf : machine_wf 1 2 gather_machine.
Proof.
  assert (Hw : Forall is_u32 (map (fun i => Z.of_nat i * 7) (seq 0 64)))
    by (repeat (apply List.Forall_cons; [by split|]); apply Forall_nil_2).
  pose proof (small_machine_wf _ Hw eq_refl) as Hm.
  apply on_thread_wf; [exact Hm|exact thread0_valid|].
  rebuild (the_thread_wf 1 2 thread0 _ Hm thread0_valid).
  split; [done|].
  assert (Hv : Forall is_u32 (map (fun i => 4 * Z.of_nat i) lanes))
    by (repeat (apply List.Forall_cons; [by split|]); apply Forall_nil_2).
  assert (Hz : Forall is_u32 (replicate 16 0)) by by apply Forall_replicate.
  repeat (apply List.Forall_cons; [by split|]). apply Forall_nil_2.
Qed.

Lemma gather_is_vector_load_witness :
  machine_wf 1 2 gather_machine /\
  exists m', iterate_result 16 (gather_step thread0 gather_inst) gather_machine = Done m' /\
    (forall lane, (lane < NUM_VECTOR_LANES)%nat ->
       get_vector thread0 2 m' !!! lane
       = if Z.testbit 0xffff (Z.of_nat lane) then lane_word thread0 gather_inst gather_machine 0 lane
         else get_vector thread0 2 gather_machine !!! lane).
Proof.
  split; [exact gather_machine_wf|].
  assert (Hload : is_load_inst gather_inst = true) by (vm_compute; reflexivity).
  assert (Hops : vector_operands thread0 MEM_SCGATH MEM_SCGATH_MASK gather_inst gather_machine
    = Some (0xffff, 0)) by (vm_compute; reflexivity).
  assert (Hlanes : lanes_in_memory thread0 gather_inst gather_machine 0xffff 0).
  { intros lane Hl. do 16 (destruct lane as [|lane]; [vm_compute; by split|]).
    unfold NUM_VECTOR_LANES in Hl. lia. }
  assert (Hsub : subcycle (the_thread thread0 gather_machine) = 0) by (vm_compute; reflexivity).
  assert (Hmmu : enable_mmu (the_thread thread0 gather_machine) = false) by (vm_compute; reflexivity).
  destruct (gather_is_vector_load devices device_host 1 2 thread0 gather_inst 0xffff 0 gather_machine
    gather_machine_wf thread0_valid Hload Hops Hlanes Hsub Hmmu) as (m' & Hi & Hl & _).
  exact (ex_intro _ m' (conj Hi Hl)).
Defined.
