(* ===== verification/SchedProps.v ===== *)
(** * SchedProps: scheduling, the timer, and the arithmetic unit *)

From S2P Require Export Safety.

(** ** Round robin *)

Section RoundRobin.

(** The distance, going down from [index], to the thread [r]. *)
Definition distance (index r : Z) : Z := (index - r) mod 32.

Definition previous (next : Z) : Z := Z.land (u32 (next + 31)) 31.

Lemma previous_mod next : 0 <= next < 32 -> previous next = (next - 1) mod 32.
Proof.
  intros Hn. unfold previous. pose proof (Z.land_ones (u32 (next + 31)) 5 ltac:(lia)) as Hl.
  change (Z.ones 5) with 31 in Hl. rewrite Hl. change (2 ^ 5) with 32.
  unfold u32. rewrite (Z.mod_small (next + 31)) by lia.
  replace (next + 31) with (next - 1 + 1 * 32) by lia. by rewrite Z.mod_add.
Qed.

(** The chosen thread is the nearest enabled one: every other enabled thread has
    come closer. *)
Lemma chosen_closer mask index c r :
  chosen_bit mask index c -> 0 <= index < 32 -> 0 <= r < 32 -> Z.testbit mask r = true ->
  c = r \/ distance ((c - 1) mod 32) r < distance index r.
Proof.
  intros (Hc & _ & Hchosen) Hi Hr Hbit. unfold distance.
  assert (Hcase : (c <= index /\ (r <= c \/ index < r)) \/ (index < r /\ r <= c)).
  { destruct Hchosen as [[Hle Hnone]|[Hnone Htop]].
    - left. split; [done|]. destruct (Z.le_gt_cases r c); [by left|]. right.
      destruct (Z.le_gt_cases r index); [|lia]. by rewrite Hnone in Hbit by lia.
    - right. destruct (Z.le_gt_cases r index); [by rewrite Hnone in Hbit by lia|].
      destruct (Z.le_gt_cases r c); [lia|]. by rewrite Htop in Hbit by lia. }
  destruct (Z.eq_dec c r) as [|Hne]; [by left|right].
  rewrite Zminus_mod_idemp_l. Z.div_mod_to_equations. lia.
Qed.

Context {D : Type} `{Host D} (nc tpc : Z) (m : machine D).

(** The next thread after [next], while the enable mask does not change. *)
Definition round_robin (next : Z) : Z := (choose_round_robin next m).1.

Hypothesis Hm : machine_wf nc tpc m.

Lemma round_robin_chosen next :
  thread_enable_mask (proc m) <> 0 -> 0 <= next < 32 ->
  chosen_bit (thread_enable_mask (proc m)) (previous next) (round_robin next).
Proof.
  intros Hne Hn. apply next_set_bit_on_chosen; [by right| | |].
  - destruct (enable_mask_u32 nc tpc m Hm). lia.
  - by apply (enable_mask_u32 nc tpc).
  - change (0 <= previous next < 32). rewrite previous_mod by done. by apply Z.mod_pos_bound.
Qed.

Lemma round_robin_reaches r d next :
  0 <= next < 32 -> 0 <= r < 32 -> Z.testbit (thread_enable_mask (proc m)) r = true ->
  distance (previous next) r < Z.of_nat d ->
  exists k, (1 <= k <= d)%nat /\ Nat.iter k round_robin next = r.
Proof.
  revert next. induction d as [|d IH]; intros next Hn Hr Hbit Hd.
  - unfold distance in Hd. pose proof (Z.mod_pos_bound (previous next - r) 32 eq_refl). lia.
  - assert (Hne : thread_enable_mask (proc m) <> 0)
      by (intros H0; by rewrite H0, Z.testbit_0_l in Hbit).
    pose proof (round_robin_chosen next Hne Hn) as Hc.
    assert (Hp : 0 <= previous next < 32)
      by (rewrite previous_mod by done; by apply Z.mod_pos_bound).
    destruct (chosen_closer _ _ _ r Hc Hp Hr Hbit) as [Heq|Hlt].
    + exists 1%nat. split; [lia|]. exact Heq.
    + destruct Hc as [Hc _]. rewrite <- previous_mod in Hlt by done.
      destruct (IH (round_robin next) Hc Hr Hbit ltac:(lia)) as (k & Hk & Hiter).
      exists (S k). split; [lia|]. rewrite Nat.iter_succ_r. exact Hiter.
Qed.

End RoundRobin.

(** Round-robin scheduling is fair.  While the enable mask does not change, the
    scheduler returns to every enabled thread within 32 steps, from wherever it
    stands. *)
Theorem round_robin_fair D (host : Host D) nc tpc (m : machine D) next r :
  machine_wf nc tpc m -> 0 <= next < 32 -> 0 <= r < 32 ->
  Z.testbit (thread_enable_mask (proc m)) r = true ->
  exists k, (1 <= k <= 32)%nat /\ Nat.iter k (round_robin m) next = r.
Proof.
  intros Hm Hn Hr Hbit. apply (round_robin_reaches nc tpc m Hm r 32 next Hn Hr Hbit).
  by apply Z.mod_pos_bound.
Qed.

Lemma round_robin_fair_witness :
  let m := on_proc (fun p => p <| thread_enable_mask := 3 |>) (small_machine (replicate 64 0)) in
  machine_wf 1 2 m /\ exists k, (1 <= k <= 32)%nat /\ Nat.iter k (round_robin m) 0 = 1.
Proof.
  intros m.
  assert (Hm : machine_wf 1 2 m).
  { apply on_proc_wf; [apply small_machine_wf; [by apply Forall_replicate|done]|].
    rebuild (wf_proc 1 2 _ (small_machine_wf (replicate 64 0) ltac:(by apply Forall_replicate) eq_refl)). }
  split; [exact Hm|].
  apply (round_robin_fair devices device_host 1 2 m 0 1 Hm); [lia|lia|vm_compute; reflexivity].
Defined.

(** ** The timer *)

Definition with_timer {D} (count : Z) (m : machine D) : machine D :=
  on_proc (fun p => p <| current_timer_count := count |>) m.

Lemma timer_tick_counts {D} (m : machine D) count :
  1 < count -> timer_tick (with_timer count m) = with_timer (count - 1) m.
Proof.
  intros Hc. unfold timer_tick. simpl.
  rewrite (proj2 (Z.ltb_lt 0 count)) by lia. by rewrite (proj2 (Z.eqb_neq count 1)) by lia.
Qed.

(** The timer fires exactly once, on time.  A timer set to [n] by a store to
    REG_TIMER_INT raises INT_TIMER at the [n]-th instruction and not before, and then
    stays off. *)
Theorem timer_fires_after D (m : machine D) (n : nat) :
  (1 <= n)%nat ->
  (forall k, (k < n)%nat ->
     Nat.iter k timer_tick (with_timer (Z.of_nat n) m) = with_timer (Z.of_nat (n - k)) m)
  /\ Nat.iter n timer_tick (with_timer (Z.of_nat n) m) = raise_interrupt INT_TIMER (with_timer 0 m)
  /\ timer_tick (with_timer 0 m) = with_timer 0 m.
Proof.
  intros Hn.
  assert (Hcount : forall k, (k < n)%nat ->
    Nat.iter k timer_tick (with_timer (Z.of_nat n) m) = with_timer (Z.of_nat (n - k)) m).
  { induction k as [|k IH]; intros Hk; simpl; [by rewrite Nat.sub_0_r|].
    rewrite IH by lia. rewrite timer_tick_counts by lia. f_equal. lia. }
  split; [exact Hcount|]. split; [|done].
  destruct n as [|n]; [lia|]. simpl. rewrite Hcount by lia.
  by replace (S n - n)%nat with 1%nat by lia.
Qed.

Lemma timer_fires_after_witness :
  let m := small_machine (replicate 64 0) in
  interrupt_levels (proc (Nat.iter 2 timer_tick (with_timer (Z.of_nat 3) m))) = 0 /\
  interrupt_levels (proc (Nat.iter 3 timer_tick (with_timer (Z.of_nat 3) m))) = INT_TIMER.
Proof.
  intros m. destruct (timer_fires_after devices m 3 ltac:(lia)) as (Hk & Hn & _).
  split.
  - rewrite (Hk 2%nat ltac:(lia)). vm_compute. reflexivity.
  - rewrite Hn. vm_compute. reflexivity.
Defined.

(** ** Arithmetic *)

Lemma mull_value a b : scalar_arithmetic_op (enum_value OP_MULL_I) a b = u32 (a * b).
Proof. unfold scalar_arithmetic_op. by rewrite enum_of_Z_value. Qed.

Lemma mulh_u_value a b :
  scalar_arithmetic_op (enum_value OP_MULH_U) a b = u32 (Z.shiftr (u64 (a * b)) 32).
Proof. unfold scalar_arithmetic_op. by rewrite enum_of_Z_value. Qed.

Lemma mulh_i_value a b :
  scalar_arithmetic_op (enum_value OP_MULH_I) a b = u32 (Z.shiftr (s32 a * s32 b) 32).
Proof. unfold scalar_arithmetic_op. by rewrite enum_of_Z_value. Qed.

(** Wide multiplication.  MULH and MULL are the two halves of the 64-bit product,
    of the unsigned operands with MULH_U and of the signed ones with MULH_I. *)
Theorem wide_multiply a b :
  is_u32 a -> is_u32 b ->
  let low := scalar_arithmetic_op (enum_value OP_MULL_I) a b in
  scalar_arithmetic_op (enum_value OP_MULH_U) a b * 2 ^ 32 + low = a * b
  /\ s32 (scalar_arithmetic_op (enum_value OP_MULH_I) a b) * 2 ^ 32 + low = s32 a * s32 b.
Proof.
  intros [Ha0 Ha1] [Hb0 Hb1] low. subst low. rewrite mull_value, mulh_u_value, mulh_i_value.
  split.
  - assert (Hu : is_u64 (a * b)) by (split; nia).
    replace (u64 (a * b)) with (a * b) by (symmetry; by apply Z.mod_small).
    by apply u32_div_mod.
  - pose proof (s32_range a) as Ra. pose proof (s32_range b) as Rb.
    rewrite signed_u32, Z.shiftr_div_pow2 by lia.
    rewrite s32_small.
    + rewrite <- u32_mul_s32. unfold u32. pose proof (Z.div_mod (s32 a * s32 b) (2 ^ 32)). lia.
    + split; [apply Z.div_le_lower_bound|apply Z.div_lt_upper_bound]; nia.
Qed.

Lemma wide_multiply_witness :
  scalar_arithmetic_op 8 0xffffffff 0xffffffff * 2 ^ 32 + scalar_arithmetic_op 7 0xffffffff 0xffffffff
  = 0xffffffff * 0xffffffff.
Proof. exact (proj1 (wide_multiply 0xffffffff 0xffffffff ltac:(by split) ltac:(by split))). Defined.

(** Reinterpreting a register as a float and back is the identity on every
    32-bit pattern that is not a NaN, and every NaN becomes 0x7fffffff, the pattern
    the hardware produces. *)
Theorem float_pattern_roundtrip v :
  is_u32 v ->
  (~ is_nan_pattern v -> value_as_int (value_as_float v) = v)
  /\ (is_nan_pattern v -> value_as_int (value_as_float v) = 0x7fffffff).
Proof.
  intros Hv. split; [by apply value_as_int_as_float|apply value_as_int_nan].
Qed.

Lemma float_pattern_roundtrip_witness :
  value_as_int (value_as_float 0x3f800000) = 0x3f800000 /\
  value_as_int (value_as_float 0xffc00001) = 0x7fffffff.
Proof.
  split.
  - apply (proj1 (float_pattern_roundtrip 0x3f800000 ltac:(by split))). vm_compute. intuition discriminate.
  - apply (proj2 (float_pattern_roundtrip 0xffc00001 ltac:(by split))). split; vm_compute; congruence.
Defined.
