(* ===== verification/SyncProps.v ===== *)
(** * SyncProps: synchronized loads and stores are atomic

    A sync load reserves its cache line for the thread; every store that reaches
    memory drops the reservations of its line.  So a sync store that succeeds finds
    the line as the sync load left it, whatever the other threads did in between. *)

From S2P Require Export Confinement.

(** Two memories agree on the words of a cache line. *)
Definition same_line (line : Z) (mem mem' : list Z) : Prop :=
  forall i : nat, Z.of_nat i / 16 = line -> mem' !! i = mem !! i.

Section Reservation.

Context {D : Type} `{Host D} (tpc : Z) (owner : thread_ptr) (line : Z).
Implicit Types m : machine D.

Hypothesis Howner : valid 1 tpc owner.
Hypothesis Hline : line <> INVALID_ADDR.

Definition reservation m : Z := last_sync_load_addr (the_thread owner m).

(** Either the owner's reservation and the line are untouched, or the owner no
    longer holds the line. *)
Record guarded m m' : Prop := {
  guarded_total : total_threads (proc m') = total_threads (proc m);
  guarded_cores : length (cores (proc m')) = length (cores (proc m));
  guarded_line :
    reservation m' = reservation m /\ same_line line (memory (proc m)) (memory (proc m'))
    \/ reservation m' <> line
}.

Lemma same_line_trans mem1 mem2 mem3 :
  same_line line mem1 mem2 -> same_line line mem2 mem3 -> same_line line mem1 mem3.
Proof. intros H1 H2 i Hi. by rewrite H2, H1. Qed.

Lemma guarded_refl m : guarded m m.
Proof. constructor; try done. by left. Qed.

Lemma guarded_trans m1 m2 m3 : guarded m1 m2 -> guarded m2 m3 -> guarded m1 m3.
Proof.
  intros [T1 C1 L1] [T2 C2 L2]. constructor; [congruence..|].
  destruct L2 as [[Hr2 Hs2]|?]; [|by right]. rewrite Hr2.
  destruct L1 as [[Hr1 Hs1]|?]; [left|by right].
  split; [done|by eapply same_line_trans].
Qed.

#[local] Instance guarded_preorder : PreOrder guarded.
Proof. split; [exact guarded_refl|exact guarded_trans]. Qed.

(** ** Updates that do not store *)

Lemma guarded_same m m' :
  total_threads (proc m') = total_threads (proc m) ->
  length (cores (proc m')) = length (cores (proc m)) ->
  memory (proc m') = memory (proc m) -> reservation m' = reservation m -> guarded m m'.
Proof. intros Ht Hc Hm Hr. constructor; [done..|]. left. split; [done|]. by rewrite Hm. Qed.

Lemma on_proc_guarded f m :
  total_threads (f (proc m)) = total_threads (proc m) ->
  cores (f (proc m)) = cores (proc m) -> memory (f (proc m)) = memory (proc m) ->
  guarded m (on_proc f m).
Proof.
  intros Ht Hc Hm. apply guarded_same; simpl; [done|by rewrite Hc|done|].
  unfold reservation, the_thread, the_core. simpl. by rewrite Hc.
Qed.

Lemma host_guarded f m : guarded m (m <| host ::= f |>).
Proof. by apply guarded_same. Qed.

Lemma on_core_guarded t f m :
  (forall c i, last_sync_load_addr (threads (f c) !!! i)
    = last_sync_load_addr (threads c !!! i)) -> guarded m (on_core t f m).
Proof.
  intros Hf. apply guarded_same; [done|apply length_alter|done|].
  apply (total_alter_view (fun c => last_sync_load_addr (threads c !!! p_thread owner))).
  intros c. apply Hf.
Qed.

Lemma on_thread_guarded t f m :
  (forall th, last_sync_load_addr (f th) = last_sync_load_addr th) -> guarded m (on_thread t f m).
Proof. intros Hf. apply on_core_guarded. intros c i. by apply total_alter_view. Qed.

Lemma with_cosim_guarded check m : guarded m (with_cosim check m).
Proof. by apply guarded_same; unfold with_cosim, reservation; destruct (enable_cosim _). Qed.

Lemma set_scalar_reg_guarded t reg v m : guarded m (set_scalar_reg t reg v m).
Proof. etransitivity; [apply with_cosim_guarded|by apply on_thread_guarded]. Qed.

Lemma set_vector_reg_guarded t reg mask v m : guarded m (set_vector_reg t reg mask v m).
Proof. etransitivity; [apply with_cosim_guarded|by apply on_thread_guarded]. Qed.

Lemma crash_guarded m : guarded m (crash m).
Proof. by apply on_proc_guarded. Qed.

Lemma raise_trap_guarded t address type is_store is_data syscall m :
  guarded m (raise_trap t address type is_store is_data syscall m).
Proof.
  unfold raise_trap. destruct (stops_on_fault _ _ _).
  - etransitivity; [|apply crash_guarded]. by apply on_thread_guarded.
  - apply on_thread_guarded. intros th. unfold enter_handler. by case_bool_decide.
Qed.

Lemma try_to_dispatch_interrupt_guarded t m : guarded m (try_to_dispatch_interrupt t m).
Proof.
  unfold try_to_dispatch_interrupt. destruct (negb _); [done|]. destruct (negb _); [|done].
  etransitivity; [|apply raise_trap_guarded]. destruct (_ =? 0); [by apply on_thread_guarded|done].
Qed.

Lemma raise_interrupt_guarded bitmap m : guarded m (raise_interrupt bitmap m).
Proof.
  unfold raise_interrupt. set (m0 := on_proc _ m).
  assert (H0 : guarded m m0) by by apply on_proc_guarded. revert H0.
  generalize (all_threads (proc m0)) as ts. generalize m0. clear m0.
  intros m0 ts. revert m0. induction ts as [|t ts IH]; intros m0 H0; simpl; [done|].
  apply IH. etransitivity; [exact H0|]. unfold interrupt_thread.
  etransitivity; [|apply try_to_dispatch_interrupt_guarded]. by apply on_thread_guarded.
Qed.

Lemma timer_tick_guarded m : guarded m (timer_tick m).
Proof.
  unfold timer_tick. destruct (0 <? _); [|done].
  set (m1 := on_proc _ m). assert (H1 : guarded m m1) by by apply on_proc_guarded.
  destruct (_ =? 1); [|done]. etransitivity; [exact H1|apply raise_interrupt_guarded].
Qed.

(** ** Stores *)

(** One core, with every thread of it. *)
Definition shaped m : Prop :=
  length (cores (proc m)) = 1%nat /\ total_threads (proc m) = tpc.

Lemma shaped_wf m : machine_wf 1 tpc m -> shaped m.
Proof.
  intros Hm. pose proof (wf_proc _ _ m Hm) as Hp.
  destruct (wf_cores _ _ _ Hp) as [Hl _]. pose proof (wf_total_threads _ _ _ Hp). split; lia.
Qed.

Lemma shaped_guarded m m' : guarded m m' -> shaped m -> shaped m'.
Proof. intros [Ht Hc _] [? ?]. split; congruence. Qed.

Lemma invalidate_threads_reservations ids at_line ths ths' :
  at_line <> INVALID_ADDR -> invalidate_threads ids at_line ths = Done ths' ->
  forall i, (last_sync_load_addr (ths' !!! i) = last_sync_load_addr (ths !!! i)
             \/ last_sync_load_addr (ths' !!! i) = INVALID_ADDR)
            /\ (In i ids -> last_sync_load_addr (ths' !!! i) <> at_line).
Proof.
  intros Hl. revert ths. induction ids as [|j ids IH]; intros ths Hd i; simpl in Hd.
  { injection Hd as <-. split; [by left|done]. }
  destruct (ths !! j) as [th|] eqn:Hj; [|done].
  set (ths1 := if last_sync_load_addr th =? at_line
    then <[j := th <| last_sync_load_addr := INVALID_ADDR |>]> ths else ths) in Hd.
  assert (H1 : (last_sync_load_addr (ths1 !!! i) = last_sync_load_addr (ths !!! i)
             \/ last_sync_load_addr (ths1 !!! i) = INVALID_ADDR)
            /\ (i = j -> last_sync_load_addr (ths1 !!! i) <> at_line)).
  { subst ths1. destruct (Z.eqb_spec (last_sync_load_addr th) at_line) as [Heq|Hne].
    - destruct (decide (i = j)) as [->|Hij].
      + rewrite list_lookup_total_insert_eq by by eapply lookup_lt_Some. simpl.
        split; [by right|congruence].
      + rewrite list_lookup_total_insert_ne by done. split; [by left|done].
    - split; [by left|]. intros ->. by rewrite (list_lookup_total_correct _ _ _ Hj). }
  destruct (IH _ Hd i) as [Hc Hin]. destruct H1 as [H1 Hj1]. split.
  - destruct Hc as [->|]; [done|by right].
  - intros [<-|Hi]; [|by apply Hin]. destruct Hc as [->| ->]; [by apply Hj1|congruence].
Qed.

(** Two memories differ at most in a line. *)
Definition same_outside (at_line : Z) (mem mem' : list Z) : Prop :=
  forall i : nat, Z.of_nat i / 16 <> at_line -> mem' !! i = mem !! i.

Lemma invalidate_guarded t physical m m1 m' :
  shaped m -> valid 1 tpc t -> 0 <= physical < 2 ^ 32 ->
  total_threads (proc m1) = total_threads (proc m) ->
  length (cores (proc m1)) = length (cores (proc m)) -> reservation m1 = reservation m ->
  same_outside (cache_line physical) (memory (proc m)) (memory (proc m1)) ->
  invalidate_sync_address t physical m1 = Done m' -> guarded m m'.
Proof.
  intros [Hc Ht] [Hvc Hvt] Hp Ht1 Hc1 Hr Hmem Hd. destruct Howner as [Hoc Hot].
  apply bind_Done_inv in Hd as (ths & Hths & Hd). injection Hd as <-.
  change (physical / CACHE_LINE_LENGTH) with (cache_line physical) in Hths.
  assert (Hinv : cache_line physical <> INVALID_ADDR)
    by (unfold cache_line, CACHE_LINE_LENGTH, INVALID_ADDR; Z.div_mod_to_equations; lia).
  destruct (invalidate_threads_reservations _ _ _ _ Hinv Hths (p_thread owner)) as [Hcase Hdrop].
  assert (Hres : reservation (on_core t (fun c => c <| threads := ths |>) m1)
                 = last_sync_load_addr (ths !!! p_thread owner)).
  { unfold reservation, the_thread, the_core, on_core. simpl.
    replace (p_core t) with (p_core owner) by lia.
    rewrite list_lookup_total_alter_eq by lia. done. }
  assert (Hr1 : last_sync_load_addr (threads (the_core t m1) !!! p_thread owner) = reservation m).
  { rewrite <- Hr. unfold reservation, the_thread, the_core.
    by replace (p_core t) with (p_core owner) by lia. }
  rewrite Hr1 in Hcase. constructor.
  - done.
  - etransitivity; [apply length_alter|done].
  - rewrite Hres. destruct (decide (cache_line physical = line)) as [Heq|Hne].
    + right. rewrite <- Heq. apply Hdrop, in_seq. lia.
    + destruct Hcase as [Hsame| ->]; [left|by right]. split; [done|].
      intros i Hi. apply Hmem. congruence.
Qed.

Lemma store_element_outside bits i value mem mem' physical :
  i / (32 / bits) = physical / 4 -> 0 <= physical ->
  store_element bits i value mem = Done mem' -> same_outside (cache_line physical) mem mem'.
Proof.
  unfold store_element. intros Hi Hp Hd. destruct (_ && _); [|done]. injection Hd as <-.
  intros j Hj. apply list_lookup_alter_ne. intros <-. apply Hj.
  unfold cache_line, CACHE_LINE_LENGTH. rewrite Hi.
  rewrite Z2Nat.id by by apply Z.div_pos. by rewrite Z.div_div.
Qed.

Lemma same_outside_trans at_line mem1 mem2 mem3 :
  same_outside at_line mem1 mem2 -> same_outside at_line mem2 mem3 ->
  same_outside at_line mem1 mem3.
Proof. intros H1 H2 i Hi. by rewrite H2, H1. Qed.

Lemma store_block_outside physical mask values ids mem mem' :
  physical mod CACHE_LINE_LENGTH = 0 -> 0 <= physical ->
  Forall (fun lane => (lane < NUM_VECTOR_LANES)%nat) ids ->
  store_block (physical / 4) mask values ids mem = Done mem' ->
  same_outside (cache_line physical) mem mem'.
Proof.
  intros Hal Hp. revert mem. induction ids as [|lane ids IH]; intros mem Hids Hd; simpl in Hd.
  { injection Hd as <-. by intros i _. }
  pose proof (Forall_inv Hids) as Hlane. pose proof (Forall_inv_tail Hids) as Htail.
  destruct (lane_enabled _ _); [|by apply IH].
  apply bind_Done_inv in Hd as (mem1 & Hst & Hd).
  eapply same_outside_trans; [|by apply IH].
  unfold CACHE_LINE_LENGTH, NUM_VECTOR_LANES in *.
  pose proof (store_element_outside 32 (physical / 4 + Z.of_nat lane) (values !!! lane) mem mem1
    (physical + 4 * Z.of_nat lane)) as Hs.
  replace (cache_line physical) with (cache_line (physical + 4 * Z.of_nat lane))
    by (unfold cache_line, CACHE_LINE_LENGTH; Z.div_mod_to_equations; lia).
  apply Hs; [|lia|exact Hst].
  change (32 / 32) with 1. rewrite Z.div_1_r. Z.div_mod_to_equations. lia.
Qed.

Lemma after_store_guarded t physical address size value mem m m1 :
  shaped m -> valid 1 tpc t -> 0 <= physical < 2 ^ 32 ->
  guarded m m1 -> reservation m1 = reservation m -> memory (proc m1) = memory (proc m) ->
  same_outside (cache_line physical) (memory (proc m)) mem ->
  returns (guarded m) (fun _ => True)
    (after_store t physical address size value (set_memory mem m1)).
Proof.
  intros Hs Ht Hp [Ht1 Hc1 _] Hr1 Hm1 Hmem. unfold after_store.
  destruct (invalidate_sync_address t physical (set_memory mem m1)) as [m2|f] eqn:Hd; [|done].
  simpl. etransitivity; [|apply with_cosim_guarded].
  by eapply (invalidate_guarded t physical m (set_memory mem m1)).
Qed.

Lemma store_guarded t (c : result (list Z)) physical address size value m m1 :
  shaped m -> valid 1 tpc t -> 0 <= physical < 2 ^ 32 ->
  guarded m m1 -> reservation m1 = reservation m -> memory (proc m1) = memory (proc m) ->
  (forall mem, c = Done mem -> same_outside (cache_line physical) (memory (proc m)) mem) ->
  returns (guarded m) (fun _ => True)
    (mem <-- c;; after_store t physical address size value (set_memory mem m1)).
Proof.
  intros Hs Ht Hp Hg Hr Hm Hc. destruct c as [mem|f]; [|done]. simpl.
  apply after_store_guarded; auto.
Qed.

(** ** Instructions *)

(** The owner takes no new reservation. *)
Definition is_sync_load (instruction : Z) : bool :=
  (Z.land instruction 0xc0000000 =? 0x80000000)
  && bool_decide (memory_op_field instruction = Some MEM_SYNC) && is_load_inst instruction.

Definition no_sync_load (t : thread_ptr) (instruction : Z) : Prop :=
  t = owner -> is_sync_load instruction = false.

(** What is shown of a computation. *)
Definition guards m (c : result (machine D)) : Prop := returns (guarded m) (fun _ => True) c.

Lemma guards_weaken m m1 c : guarded m m1 -> guards m1 c -> guards m c.
Proof.
  intros Hg Hc. eapply returns_weaken; [exact Hc| |done]. intros m' Hm'. by etransitivity.
Qed.

Lemma translate_address_guarded t address is_store is_data m :
  match translate_address t address is_store is_data m with
  | (Some _, m') => m' = m
  | (None, m') => guarded m m'
  end.
Proof.
  pose proof (translate_address_outcome t address is_store is_data m) as Ho.
  unfold translate_address in *. destruct (negb _).
  - destruct (out_of_range _ _); [apply crash_guarded|done].
  - destruct (find_way _ _ _); [|apply raise_trap_guarded]. unfold check_entry in *.
    destruct (negb _); [apply raise_trap_guarded|].
    destruct (_ && _); [apply raise_trap_guarded|].
    destruct (_ && _); [apply raise_trap_guarded|].
    destruct (_ && _); [apply raise_trap_guarded|].
    destruct (out_of_range _ _); [apply crash_guarded|done].
Qed.

(** A goal about one of the updates above. *)
Ltac guard_leaf :=
  lazymatch goal with
  | |- guarded ?m ?m => reflexivity
  | |- guarded _ (raise_trap _ _ _ _ _ _ _) => apply raise_trap_guarded
  | |- guarded _ (privileged_op _ _) => apply raise_trap_guarded
  | |- guarded _ (illegal_instruction _ _) => apply raise_trap_guarded
  | |- guarded _ (set_scalar_reg _ _ _ _) => apply set_scalar_reg_guarded
  | |- guarded _ (set_vector_reg _ _ _ _ _) => apply set_vector_reg_guarded
  | |- guarded _ (on_core _ _ _) => by apply on_core_guarded
  | |- guarded _ (on_saved _ _ _) => by apply on_thread_guarded
  | |- guarded _ (on_thread _ _ _) => by apply on_thread_guarded
  | |- guarded _ (set_pc _ _ _) => by apply on_thread_guarded
  | |- guarded _ (branch_by _ _ _) => by apply on_thread_guarded
  | |- guarded _ (on_proc _ _) => by apply on_proc_guarded
  | |- guarded _ (crash _) => apply crash_guarded
  end.

Lemma register_arith_guarded t instruction m :
  guarded m (execute_register_arith_inst t instruction m).
Proof.
  unfold execute_register_arith_inst, register_compare, register_vector.
  case_bool_decide; [guard_leaf|]. case_bool_decide; [guard_leaf|].
  destruct (is_compare_op _); [|case_bool_decide]; try destruct_enum; guard_leaf.
Qed.

Lemma immediate_arith_guarded t instruction m :
  guarded m (execute_immediate_arith_inst t instruction m).
Proof.
  unfold execute_immediate_arith_inst, immediate_compare, immediate_vector.
  case_bool_decide; [guard_leaf|]. case_bool_decide; [guard_leaf|].
  destruct (is_compare_op _); [|destruct (_ || _)]; try destruct_enum; guard_leaf.
Qed.

Lemma cache_control_guarded t instruction m :
  guarded m (execute_cache_control_inst t instruction m).
Proof.
  assert (Hflush : guarded m (cache_flush t instruction m)).
  { unfold cache_flush. set (a := u32 _).
    pose proof (translate_address_guarded t a false true m) as Ht.
    destruct (translate_address _ _ _ _ _) as [[p|] m']; simpl; [by rewrite Ht|done]. }
  unfold execute_cache_control_inst, cache_tlb_insert, cache_tlb_invalidate,
    cache_tlb_invalidate_all.
  destruct (enum_of_Z _) as [[]|]; try destruct (negb _); try exact Hflush; guard_leaf.
Qed.

Lemma branch_guarded t instruction m : guarded m (execute_branch_inst t instruction m).
Proof.
  unfold execute_branch_inst, execute_eret.
  destruct_enum; lazymatch goal with
    | |- guarded _ (set_pc _ _ (set_scalar_reg _ _ _ _)) =>
        etransitivity; [apply set_scalar_reg_guarded|guard_leaf]
    | |- guarded _ (branch_by _ _ (set_scalar_reg _ _ _ _)) =>
        etransitivity; [apply set_scalar_reg_guarded|guard_leaf]
    | |- guarded _ (if negb (is_supervisor _ _) then _ else _) => idtac
    | |- guarded _ (if ?b then _ else _) => destruct b; guard_leaf
    | |- _ => guard_leaf
    end.
  destruct (negb _); [guard_leaf|].
  set (m1 := on_thread t _ m). assert (H1 : guarded m m1) by by apply on_thread_guarded.
  destruct (enable_interrupt _); [|done].
  etransitivity; [exact H1|apply try_to_dispatch_interrupt_guarded].
Qed.

Lemma control_register_guarded t instruction m :
  guarded m (execute_control_register_inst t instruction m).
Proof.
  unfold execute_control_register_inst. destruct (negb _); [guard_leaf|].
  destruct (is_load_inst _); [apply set_scalar_reg_guarded|]. unfold write_control_register.
  destruct (enum_of_Z _) as [[]|]; try guard_leaf. unfold write_flags.
  set (m1 := on_thread t _ m). assert (H1 : guarded m m1) by by apply on_thread_guarded.
  generalize dependent m1. intros m1 H1. destruct (flag_bit _ _); [|done].
  etransitivity; [exact H1|apply try_to_dispatch_interrupt_guarded].
Qed.

(** ** Memory accesses *)

Lemma translated_physical t address is_store is_data physical m m' :
  machine_wf 1 tpc m -> valid 1 tpc t -> is_u32 address ->
  translate_address t address is_store is_data m = (Some physical, m') ->
  m' = m /\ is_u32 physical /\ translated m address physical.
Proof.
  intros Hm Ht Ha Heq. pose proof (translate_address_ok 1 tpc t address is_store is_data m Hm Ht Ha) as Hok.
  rewrite Heq in Hok. destruct Hok as [-> Htr]. split; [done|]. split; [apply Htr|exact Htr].
Qed.

Lemma scalar_load_value_guarded t op physical m :
  (t = owner -> op <> Some MEM_SYNC) ->
  returns (fun r => guarded m r.2) (fun _ => True) (scalar_load_value t op physical m).
Proof.
  intros Hop.
  assert (Hl : forall (c : result Z) f, returns (fun r : option Z * machine D => guarded m r.2)
    (fun _ => True) (v <-- c;; Done (f v, m))).
  { intros c f. eapply returns_bind; [apply any_result|]. intros v _. simpl. reflexivity. }
  unfold scalar_load_value.
  destruct op as [[]|]; try done; try apply Hl; try (simpl; reflexivity).
  - destruct (is_device_address _); [|apply (Hl _ Some)]. unfold load_device.
    destruct (read_device_register physical (host m)) as [[v c] d]. simpl. by apply guarded_same.
  - eapply returns_bind; [apply any_result|]. intros v _. simpl.
    apply guarded_same; try done; [apply length_alter|].
    unfold reservation, set_sync_addr. rewrite other_thread_on_thread; [done|].
    intros ->. by apply Hop.
Qed.

Lemma scalar_store_guarded t op reg address physical m :
  machine_wf 1 tpc m -> valid 1 tpc t -> is_u32 physical ->
  guards m (scalar_store t op reg address physical m).
Proof.
  intros Hm Ht Hp. pose proof (shaped_wf m Hm) as Hs. destruct (Hp) as [Hp0 Hp1].
  assert (Hst : forall bits i v m1, i / (32 / bits) = physical / 4 ->
    guarded m m1 -> reservation m1 = reservation m -> memory (proc m1) = memory (proc m) ->
    returns (guarded m) (fun _ => True)
      (mem <-- store_element bits i v (memory (proc m));;
       after_store t physical address (access_size op) (get_scalar t reg m) (set_memory mem m1))).
  { intros bits i v m1 Hi Hg Hr Hmem. apply store_guarded; try done.
    intros mem Hd. by eapply store_element_outside. }
  assert (H32 : physical / 4 / (32 / 32) = physical / 4)
    by (change (32 / 32) with 1; apply Z.div_1_r).
  unfold scalar_store, guards. destruct op as [[]|]; try done; try apply raise_trap_guarded.
  - by apply Hst.
  - by apply Hst.
  - apply Hst; try done. apply half_word_index.
  - apply Hst; try done. apply half_word_index.
  - destruct (is_device_address _); [|by apply Hst].
    unfold store_device. destruct (_ =? _); [by apply on_proc_guarded|].
    eapply returns_bind; [apply any_result|]. intros d _. apply host_guarded.
  - assert (Hg : forall v, guarded m (set_scalar_quietly t reg v m)) by (intros v; by apply on_thread_guarded).
    destruct (_ =? _); [|apply Hg]. apply Hst; try done.
    unfold reservation, set_scalar_quietly.
    apply (total_alter_view (fun c => last_sync_load_addr (threads c !!! p_thread owner))).
    intros c. by apply total_alter_view.
Qed.

Lemma scalar_access_guarded t instruction m :
  machine_wf 1 tpc m -> valid 1 tpc t ->
  (t = owner -> memory_op_field instruction = Some MEM_SYNC -> is_load_inst instruction = false) ->
  guards m (execute_scalar_load_store_inst t instruction m).
Proof.
  intros Hm Ht Hno. unfold execute_scalar_load_store_inst. set (a := u32 _).
  destruct (negb _); [apply raise_trap_guarded|].
  pose proof (translate_address_guarded t a (negb (is_load_inst instruction)) true m) as Hg.
  destruct (translate_address _ _ _ _ _) as [[physical|] m'] eqn:Htr; [|exact Hg].
  apply translated_physical in Htr as (-> & Hp & _); [|done|done|apply is_u32_sum].
  destruct (_ && _); [apply crash_guarded|].
  destruct (is_load_inst _) eqn:Hload; [|by apply scalar_store_guarded].
  eapply returns_bind.
  - apply scalar_load_value_guarded. intros Heq Hop. by specialize (Hno Heq Hop).
  - intros [[v|] m'] Hq; simpl in Hq |- *.
    + etransitivity; [exact Hq|apply set_scalar_reg_guarded].
    + etransitivity; [exact Hq|apply raise_trap_guarded].
Qed.

Lemma block_access_guarded t instruction m :
  machine_wf 1 tpc m -> valid 1 tpc t -> guards m (execute_block_load_store_inst t instruction m).
Proof.
  intros Hm Ht. unfold execute_block_load_store_inst.
  destruct (vector_operands _ _ _ _ _) as [[mask offset]|]; [|done].
  set (a := u32 _). destruct (negb _) eqn:Hal; [apply raise_trap_guarded|].
  apply negb_false_iff, Z.eqb_eq in Hal.
  pose proof (translate_address_guarded t a (negb (is_load_inst instruction)) true m) as Hg.
  destruct (translate_address _ _ _ _ _) as [[physical|] m'] eqn:Htr; [|exact Hg].
  apply translated_physical in Htr as (-> & [Hp0 Hp1] & Htr); [|done|done|apply is_u32_sum].
  destruct (is_device_address _); [apply crash_guarded|].
  destruct (is_load_inst _).
  - eapply returns_bind; [apply any_result|]. intros v _. apply set_vector_reg_guarded.
  - unfold block_store. destruct (_ =? 0); [simpl; reflexivity|]. set (m1 := with_cosim _ m).
    assert (H1 : guarded m m1) by apply with_cosim_guarded.
    assert (Hp : proc m1 = proc m) by (unfold m1, with_cosim; by destruct (enable_cosim _)).
    destruct (store_block _ _ _ _ _) as [mem|f] eqn:Hst; [|done]. simpl.
    destruct (invalidate_sync_address _ _ _) as [m2|f] eqn:Hd; [|done]. simpl.
    eapply (invalidate_guarded t physical m (set_memory mem m1)); try done.
    + by apply shaped_wf.
    + simpl. by rewrite Hp.
    + simpl. by rewrite Hp.
    + unfold reservation, the_thread, the_core. simpl. by rewrite Hp.
    + rewrite Hp in Hst. eapply store_block_outside; [|exact Hp0| |exact Hst].
      * eapply aligned_translated; [apply is_u32_sum|exact Hal|exact Htr].
      * apply Forall_forall. intros lane Hlane. apply in_seq in Hlane. lia.
Qed.

Lemma scatter_gather_guarded t instruction m :
  machine_wf 1 tpc m -> valid 1 tpc t -> guards m (execute_scatter_gather_inst t instruction m).
Proof.
  intros Hm Ht. unfold execute_scatter_gather_inst.
  destruct (vector_operands _ _ _ _ _) as [[mask offset]|]; [|done].
  destruct (_ <=? _); [done|]. set (a := u32 _). destruct (_ && _); [apply raise_trap_guarded|].
  pose proof (translate_address_guarded t a (negb (is_load_inst instruction)) true m) as Hg.
  destruct (translate_address _ _ _ _ _) as [[physical|] m'] eqn:Htr; [|exact Hg].
  apply translated_physical in Htr as (-> & [Hp0 Hp1] & Htr); [|done|done|apply is_u32_sum].
  destruct (is_device_address _); [apply crash_guarded|].
  eapply (returns_bind (guarded m)).
  - destruct (is_load_inst _).
    + unfold gather_lane. eapply returns_bind; [apply any_result|]. intros v _.
      apply set_vector_reg_guarded.
    + unfold scatter_lane. destruct (lane_enabled _ _); [|simpl; reflexivity].
      apply store_guarded; try done; [by apply shaped_wf|]. intros mem Hst.
      eapply store_element_outside; [|exact Hp0|exact Hst].
      change (32 / 32) with 1. apply Z.div_1_r.
  - intros m' Hq. simpl. etransitivity; [exact Hq|]. apply on_thread_guarded.
    intros th. unfold advance_subcycle. by destruct (_ =? _).
Qed.

(** ** One instruction, whatever it is *)

Lemma memory_access_guarded t instruction m :
  machine_wf 1 tpc m -> valid 1 tpc t -> no_sync_load t instruction ->
  Z.land instruction 0xc0000000 = 0x80000000 ->
  guards m (execute_memory_access_inst t instruction m).
Proof.
  intros Hm Ht Hno Hclass. unfold execute_memory_access_inst.
  assert (Hload : t = owner -> memory_op_field instruction = Some MEM_SYNC ->
    is_load_inst instruction = false).
  { intros Heq Hop. specialize (Hno Heq). unfold is_sync_load in Hno.
    rewrite Hclass, Z.eqb_refl, bool_decide_true in Hno by done. done. }
  destruct (memory_op_field instruction) as [[]|] eqn:Hop; lazymatch goal with
    | |- guards _ (execute_scalar_load_store_inst _ _ _) =>
        apply scalar_access_guarded; [done|done|by rewrite Hop]
    | |- guards _ (execute_block_load_store_inst _ _ _) => by apply block_access_guarded
    | |- guards _ (execute_scatter_gather_inst _ _ _) => by apply scatter_gather_guarded
    | |- guards _ (Done (execute_control_register_inst _ _ _)) => apply control_register_guarded
    | |- guards _ (Done (illegal_instruction _ _)) => apply raise_trap_guarded
    end.
Qed.

Lemma dispatch_plain_guarded t instruction m :
  machine_wf 1 tpc m -> valid 1 tpc t -> no_sync_load t instruction ->
  guards m (dispatch_plain t instruction m).
Proof.
  intros Hm Ht Hno. unfold dispatch_plain.
  destruct (_ =? 0xc0000000); [apply register_arith_guarded|].
  destruct (_ =? 0).
  { destruct (_ =? BREAKPOINT_INST); [done|].
    destruct (negb _); [apply immediate_arith_guarded|apply guarded_refl]. }
  destruct (Z.eqb_spec (Z.land instruction 0xc0000000) 0x80000000);
    [by apply memory_access_guarded|].
  destruct (_ =? 0xf0000000); [apply branch_guarded|].
  destruct (_ =? 0xe0000000); [apply cache_control_guarded|apply guarded_refl].
Qed.

(** The instruction the interpreter decodes: behind a breakpoint, the original one. *)
Definition effective_instruction (at_pc instruction : Z) m : Z :=
  if instruction =? BREAKPOINT_INST then
    match lookup_breakpoint (breakpoints (proc m)) at_pc with
    | Some bp => original_instruction bp
    | None => instruction
    end
  else instruction.

(** The next instruction of [t] is a sync load by the owner. *)
Definition reserves (t : thread_ptr) m : Prop :=
  t = owner /\ exists physical instruction,
    fetch_address t m = Some physical /\ load32 physical (memory (proc m)) = Done instruction
    /\ is_sync_load (effective_instruction (current_pc t (advance_pc t m)) instruction m) = true.

Lemma dispatch_guarded t instruction m :
  machine_wf 1 tpc m -> valid 1 tpc t ->
  no_sync_load t (effective_instruction (current_pc t m) instruction m) ->
  returns (fun r => guarded m r.2) (fun _ => True) (dispatch t instruction m).
Proof.
  intros Hm Ht Hno. unfold dispatch, effective_instruction in *.
  assert (Hplain : forall i m1, guarded m m1 -> machine_wf 1 tpc m1 -> no_sync_load t i ->
    returns (fun r : bool * machine D => guarded m r.2) (fun _ => True)
      (m2 <-- dispatch_plain t i m1;; Done (true, m2))).
  { intros i m1 Hg Hm1 Hi. eapply returns_bind; [by apply dispatch_plain_guarded|].
    intros m2 H2. simpl. by etransitivity. }
  destruct (instruction =? BREAKPOINT_INST); [|by apply Hplain].
  unfold hit_breakpoint. destruct (lookup_breakpoint _ _) as [bp|]; [|apply raise_trap_guarded].
  destruct (_ || _).
  - apply Hplain; [by apply on_proc_guarded| |exact Hno]. by apply set_restart_wf.
  - simpl. refine (guarded_trans _ _ _ _ (on_thread_guarded _ _ _ _)); [by apply on_proc_guarded|done].
Qed.

Lemma execute_instruction_guarded t m :
  machine_wf 1 tpc m -> valid 1 tpc t -> ~ reserves t m ->
  returns (fun r => guarded m r.2) (fun _ => True) (execute_instruction t m).
Proof.
  intros Hm Ht Hno. pose proof (wf_pc _ (the_thread_wf _ _ t m Hm Ht)) as Hpc.
  unfold execute_instruction. change (on_thread t _ m) with (advance_pc t m).
  assert (Hm1 : machine_wf 1 tpc (advance_pc t m))
    by (apply set_pc_field_wf; [done|done|auto with words]).
  assert (Hg1 : guarded m (advance_pc t m)) by by apply on_thread_guarded.
  destruct (negb _); [simpl; etransitivity; [exact Hg1|apply raise_trap_guarded]|].
  pose proof (translate_address_guarded t (pc (the_thread t m)) false false (advance_pc t m)) as Hg.
  assert (Hfetch : fetch_address t m
    = (translate_address t (pc (the_thread t m)) false false (advance_pc t m)).1) by done.
  destruct (translate_address _ _ _ _ _) as [[physical|] m'] eqn:Htr;
    [|simpl; by etransitivity].
  subst m'. destruct (load32 _ _) as [instruction|f] eqn:Hload; [|done]. simpl.
  eapply returns_weaken; [apply dispatch_guarded; [by apply count_instruction_wf|done|]| |done].
  - intros Heq. apply not_true_is_false. intros Hsync. apply Hno. split; [done|].
    by exists physical, instruction.
  - intros [b m'] Hm'. simpl in *. etransitivity; [exact Hg1|]. etransitivity; [|exact Hm'].
    by apply on_proc_guarded.
Qed.

End Reservation.

(** ** Interleavings *)

(** Any threads run, in any order, one instruction at a time with the timer behind
    it; the owner executes no further sync load. *)
Inductive interleaving {D} `{Host D} (tpc : Z) (owner : thread_ptr)
  : machine D -> machine D -> Prop :=
| InterleaveNone m : interleaving tpc owner m m
| InterleaveStep m m1 t b m2 :
    interleaving tpc owner m m1 -> valid 1 tpc t -> ~ reserves owner t m1 ->
    execute_instruction t m1 = Done (b, m2) -> interleaving tpc owner m (timer_tick m2).

Section Atomicity.

Context {D : Type} `{Host D} (tpc : Z) (owner : thread_ptr).
Implicit Types m : machine D.

Hypothesis Howner : valid 1 tpc owner.

Lemma interleaving_guarded line m m' :
  line <> INVALID_ADDR -> machine_wf 1 tpc m -> interleaving tpc owner m m' ->
  machine_wf 1 tpc m' /\ guarded owner line m m'.
Proof.
  intros Hline Hm Hil. induction Hil as [m|m m1 t b m2 Hil IH Ht Hno Hex].
  - split; [done|apply guarded_refl].
  - destruct (IH Hm) as [Hm1 Hg1]. clear IH.
    pose proof (returns_Done_inv _ _ _ _ (execute_instruction_wf 1 tpc t m1 Hm1 Ht) Hex) as Hm2.
    pose proof (returns_Done_inv _ _ _ _
      (execute_instruction_guarded tpc owner line Howner Hline t m1 Hm1 Ht Hno) Hex) as Hg2.
    split; [by apply timer_tick_wf|]. eapply guarded_trans; [exact Hg1|].
    eapply guarded_trans; [exact Hg2|apply timer_tick_guarded].
Qed.

(** Invalidation changes nothing else of a thread. *)
Lemma invalidate_threads_view {B} (view : thread -> B) ids line ths ths' :
  (forall th, view (th <| last_sync_load_addr := INVALID_ADDR |>) = view th) ->
  invalidate_threads ids line ths = Done ths' -> forall i, view (ths' !!! i) = view (ths !!! i).
Proof.
  intros Hview. revert ths. induction ids as [|j ids IH]; intros ths Hd i; simpl in Hd.
  { by injection Hd as <-. }
  destruct (ths !! j) as [th|] eqn:Hj; [|done]. rewrite (IH _ Hd i).
  destruct (_ =? line); [|done]. destruct (decide (i = j)) as [->|Hij].
  - rewrite list_lookup_total_insert_eq by by eapply lookup_lt_Some.
    by rewrite Hview, (list_lookup_total_correct _ _ _ Hj).
  - by rewrite list_lookup_total_insert_ne.
Qed.

Lemma invalidated_thread m physical m' t :
  shaped tpc m -> valid 1 tpc t -> is_u32 physical ->
  invalidate_sync_address owner physical m = Done m' ->
  scalar_reg (the_thread t m') = scalar_reg (the_thread t m) /\
  last_sync_load_addr (the_thread t m') <> cache_line physical.
Proof.
  intros [Hl Htotal] [Hc Ht] [Hp0 Hp1] Hd. destruct Howner as [Hoc Hot].
  apply bind_Done_inv in Hd as (ths & Hths & Hd). injection Hd as <-.
  change (physical / CACHE_LINE_LENGTH) with (cache_line physical) in Hths.
  assert (Hinv : cache_line physical <> INVALID_ADDR)
    by (unfold cache_line, CACHE_LINE_LENGTH, INVALID_ADDR; Z.div_mod_to_equations; lia).
  assert (Hth : the_thread t (on_core owner (fun c => c <| threads := ths |>) m) = ths !!! p_thread t).
  { unfold the_thread, the_core, on_core. simpl. replace (p_core t) with (p_core owner) by lia.
    by rewrite list_lookup_total_alter_eq by lia. }
  rewrite Hth. split.
  - rewrite (invalidate_threads_view scalar_reg _ _ _ _ ltac:(done) Hths).
    unfold the_thread, the_core. by replace (p_core t) with (p_core owner) by lia.
  - apply (proj2 (invalidate_threads_reservations _ _ _ _ Hinv Hths (p_thread t))).
    apply in_seq. lia.
Qed.

(** The two outcomes of a sync store. *)
Lemma scalar_store_sync m m' reg address physical :
  machine_wf 1 tpc m -> is_u32 physical -> (reg < NUM_REGISTERS)%nat ->
  is_device_address physical = false ->
  scalar_store owner (Some MEM_SYNC) reg address physical m = Done m' ->
  if cache_line physical =? last_sync_load_addr (the_thread owner m) then
    get_scalar owner reg m' = 1
    /\ store32 physical (get_scalar owner reg m) (memory (proc m)) = Done (memory (proc m'))
    /\ forall t, valid 1 tpc t -> last_sync_load_addr (the_thread t m') <> cache_line physical
  else get_scalar owner reg m' = 0 /\ memory (proc m') = memory (proc m).
Proof.
  intros Hm Hp Hreg Hdev Hd. unfold scalar_store in Hd.
  assert (Hset : forall v, get_scalar owner reg (set_scalar_quietly owner reg v m) = v).
  { intros v. unfold get_scalar, set_scalar_quietly.
    rewrite (the_thread_on_thread 1 tpc) by done. simpl.
    apply list_lookup_total_insert_eq.
    destruct (wf_scalars _ (the_thread_wf 1 tpc owner m Hm Howner)) as [-> _]. done. }
  destruct (_ =? _); [|injection Hd as <-; split; [apply Hset|done]].
  apply bind_Done_inv in Hd as (mem & Hst & Hd). unfold after_store in Hd.
  apply bind_Done_inv in Hd as (m2 & Hinv & Hd). injection Hd as <-.
  set (m1 := set_memory mem _) in Hinv.
  assert (Hmem2 : memory (proc m2) = mem).
  { apply bind_Done_inv in Hinv as (ths & _ & Hinv). by injection Hinv as <-. }
  assert (Hs1 : shaped tpc m1).
  { destruct (shaped_wf tpc m Hm) as [Hl Ht]. split; [|done].
    etransitivity; [apply length_alter|exact Hl]. }
  assert (Hfield : forall t, the_thread t (with_cosim
    (cosim_check_scalar_store (current_pc owner m2) address (access_size (Some MEM_SYNC))
      (get_scalar owner reg m)) m2) = the_thread t m2) by (intros t; apply the_thread_with_cosim).
  split; [|split].
  - unfold get_scalar. rewrite Hfield.
    rewrite (proj1 (invalidated_thread m1 physical m2 owner Hs1 Howner Hp Hinv)).
    apply Hset.
  - rewrite Hst. unfold with_cosim. destruct (enable_cosim _); simpl; by rewrite Hmem2.
  - intros t Ht. rewrite Hfield. by apply (invalidated_thread m1 physical m2 t).
Qed.

End Atomicity.

(** C3: synchronized stores are atomic on one core.  On a machine of one core, let a thread hold a
    reservation from a sync load, and let all the threads run for as long as they like, in any
    interleaving, the thread itself executing anything but another sync load.  Then its sync store
    to that line either fails, returning 0 and leaving memory alone, or returns 1,
    and then no instruction of any thread has changed the line since the load, the
    word is stored, and every other thread's reservation of the line is gone: of the
    threads that compete for a line, one wins.  (A store drops the reservations of the threads of
    its own core only, and indexes past them when there are more cores.) *)
Theorem sync_store_atomic D (host : Host D) tpc owner instruction physical (m m' m'' : machine D) :
  machine_wf 1 tpc m -> valid 1 tpc owner ->
  last_sync_load_addr (the_thread owner m) = cache_line physical ->
  interleaving tpc owner m m' ->
  memory_op_field instruction = Some MEM_SYNC -> is_load_inst instruction = false ->
  let reg := reg_field instruction 5 in
  let address := u32 (get_scalar owner (reg_field instruction 0) m'
                      + extract_signed_bits instruction 10 15) in
  address mod 4 = 0 ->
  translate_address owner address true true m' = (Some physical, m') ->
  is_device_address physical = false ->
  execute_scalar_load_store_inst owner instruction m' = Done m'' ->
  (get_scalar owner reg m'' = 0 /\ memory (proc m'') = memory (proc m'))
  \/ (get_scalar owner reg m'' = 1
      /\ same_line (cache_line physical) (memory (proc m)) (memory (proc m'))
      /\ store32 physical (get_scalar owner reg m') (memory (proc m')) = Done (memory (proc m''))
      /\ forall t, valid 1 tpc t ->
           last_sync_load_addr (the_thread t m'') <> cache_line physical).
Proof.
  intros Hm Ho Hres Hil Hop Hload reg address Hal Htr Hdev Hex.
  assert (Hinv : is_u32 physical -> cache_line physical <> INVALID_ADDR)
    by (intros [? ?]; unfold cache_line, CACHE_LINE_LENGTH, INVALID_ADDR;
        Z.div_mod_to_equations; lia).
  destruct (decide (cache_line physical = INVALID_ADDR)) as [Hbad|Hline].
  { (* such a line is outside the address space *)
    assert (Hm' : machine_wf 1 tpc m')
      by exact (proj1 (interleaving_guarded tpc owner Ho 0 m m' ltac:(done) Hm Hil)).
    apply translated_physical with (tpc := tpc) in Htr; [|done|done|apply is_u32_sum].
    destruct Htr as (_ & Hp & _). by destruct (Hinv Hp). }
  destruct (interleaving_guarded tpc owner Ho _ m m' Hline Hm Hil) as [Hm' [_ _ Hg]].
  unfold execute_scalar_load_store_inst in Hex. rewrite Hop, Hload in Hex.
  fold address in Hex. cbn [access_size negb] in Hex.
  rewrite Hal, Z.eqb_refl, Htr, Hdev in Hex. cbn [negb andb] in Hex.
  apply translated_physical with (tpc := tpc) in Htr as (_ & Hp & _);
    [|done|done|apply is_u32_sum].
  apply (scalar_store_sync tpc owner Ho) in Hex;
    [|done|done|by apply reg_field_lt|done].
  change (last_sync_load_addr (the_thread owner m')) with (reservation owner m') in Hex.
  destruct (Z.eqb_spec (cache_line physical) (reservation owner m')) as [Heq|Hne]; [right|by left].
  destruct Hex as (H1 & H2 & H3). split; [done|]. split; [|done].
  destruct Hg as [[_ Hsame]|Hlost]; [exact Hsame|congruence].
Qed.

(** Two threads over empty memory; the first has loaded from 0x80 and stores s1
    there, after the second executed an instruction. *)
Definition sync_machine : machine devices :=
  set_sync_addr thread0 2 (small_machine (replicate 64 0)).

Definition thread1 : thread_ptr := {| p_core := 0; p_thread := 1 |}.

Definition sync_machine_later : machine devices :=
  match execute_instruction thread1 sync_machine with
  | Done (_, m) => timer_tick m
  | Fault _ => sync_machine
  end.

Definition sync_store_inst : Z := 0x8a020020.

Lemma sync_store_atomic_witness :
  let reg := reg_field sync_store_inst 5 in
  let later := sync_machine_later in
  exists m'', execute_scalar_load_store_inst thread0 sync_store_inst later = Done m'' /\
  get_scalar thread0 1 m'' = 1 /\
  ((get_scalar thread0 reg m'' = 0 /\ memory (proc m'') = memory (proc later))
   \/ (get_scalar thread0 reg m'' = 1
       /\ same_line (cache_line 0x80) (memory (proc sync_machine)) (memory (proc later))
       /\ store32 0x80 (get_scalar thread0 reg later) (memory (proc later))
          = Done (memory (proc m''))
       /\ forall t, valid 1 2 t -> last_sync_load_addr (the_thread t m'') <> cache_line 0x80)).
Proof.
  intros reg later.
  assert (Hwf : machine_wf 1 2 (small_machine (replicate 64 0)))
    by (apply small_machine_wf; [by apply Forall_replicate|done]).
  assert (Hm : machine_wf 1 2 sync_machine).
  { apply on_thread_wf; [exact Hwf|apply thread0_valid|].
    rebuild (the_thread_wf 1 2 thread0 _ Hwf thread0_valid). }
  assert (Hil : interleaving 2 thread0 sync_machine later).
  { unfold later, sync_machine_later.
    destruct (execute_instruction thread1 sync_machine) as [[b m2]|f] eqn:He;
      [|apply InterleaveNone].
    eapply InterleaveStep; [apply InterleaveNone| | |exact He]; [by split|].
    intros [Heq _]. discriminate Heq. }
  assert (Hone : match execute_scalar_load_store_inst thread0 sync_store_inst later with
    | Done m => get_scalar thread0 1 m | Fault _ => 0 end = 1) by (vm_compute; reflexivity).
  assert (Htr : translate_address thread0 0x80 true true later = (Some 0x80, later))
    by (vm_compute; reflexivity).
  assert (Ha : u32 (get_scalar thread0 (reg_field sync_store_inst 0) later
    + extract_signed_bits sync_store_inst 10 15) = 0x80) by (vm_compute; reflexivity).
  destruct (execute_scalar_load_store_inst thread0 sync_store_inst later) as [m''|f] eqn:Hex;
    [|discriminate Hone].
  exists m''. split; [done|]. split; [exact Hone|].
  refine (sync_store_atomic devices device_host 2 thread0 sync_store_inst 0x80
    sync_machine later m'' Hm thread0_valid _ Hil _ _ _ _ _ Hex).
  - vm_compute. reflexivity.
  - vm_compute. reflexivity.
  - vm_compute. reflexivity.
  - rewrite Ha. reflexivity.
  - rewrite Ha. exact Htr.
  - reflexivity.
Defined.
