(* ===== verification/DebugProps.v ===== *)
(** * DebugProps: breakpoints

    A breakpoint replaces an instruction in memory by an illegal one; these theorems
    say what the program and the debugger can see of it. *)

From S2P Require Export Confinement.

(** ** Words of memory *)

Lemma replace_word w v : is_u32 w -> is_u32 v -> replace_bits w 0 32 v = v.
Proof.
  intros Hw Hv. unfold replace_bits. rewrite !Z.shiftl_0_r.
  replace (Z.ldiff w (Z.ones 32)) with 0.
  - rewrite Z.lor_0_l. by apply Z.mod_small.
  - symmetry. rewrite Z.ldiff_ones_r by lia. rewrite Z.shiftr_div_pow2, Z.div_small by (lia || done).
    apply Z.shiftl_0_l.
Qed.

Lemma load32_word a mem v :
  Forall is_u32 mem -> load32 a mem = Done v ->
  exists i, a / 4 = Z.of_nat i /\ mem !! i = Some v /\ is_u32 v.
Proof.
  unfold load32, load_element. change (32 / 32) with 1. rewrite Z.div_1_r, Z.mod_1_r.
  intros Hmem Hl. destruct (0 <=? a / 4) eqn:H0; [|done].
  destruct (a / 4 <? _) eqn:H1; [|done]. simpl in Hl. injection Hl as <-. bool_to_prop.
  exists (Z.to_nat (a / 4)). rewrite Z2Nat.id by done. split; [done|].
  destruct (lookup_lt_is_Some_2 mem (Z.to_nat (a / 4))) as [v Hv]; [lia|].
  pose proof (proj1 (Forall_lookup _ _) Hmem _ _ Hv) as Hu.
  rewrite (list_lookup_total_correct _ _ _ Hv).
  assert (He : extract_unsigned_bits v 0 32 = v).
  { unfold extract_unsigned_bits. rewrite Z.shiftr_0_r.
    change (Z.shiftl 1 32 - 1) with (Z.ones 32). rewrite Z.land_ones by lia. by apply Z.mod_small. }
  change (0 * 32) with 0. by rewrite He.
Qed.

Lemma store32_word a v mem i w :
  a / 4 = Z.of_nat i -> mem !! i = Some w -> is_u32 w -> is_u32 v ->
  store32 a v mem = Done (<[i := v]> mem).
Proof.
  intros Ha Hi Hw Hv. unfold store32, store_element. change (32 / 32) with 1.
  rewrite Z.div_1_r, Z.mod_1_r, Ha. pose proof (lookup_lt_Some _ _ _ Hi) as Hlt.
  rewrite (proj2 (Z.leb_le _ _)) by lia. rewrite (proj2 (Z.ltb_lt _ _)) by lia. simpl.
  rewrite Nat2Z.id. f_equal. apply list_eq. intros j. rewrite list_lookup_alter.
  case_decide as Hij; [subst j|by rewrite list_lookup_insert_ne].
  rewrite list_lookup_insert_eq by done. rewrite Hi. simpl. by rewrite replace_word.
Qed.

(** ** Setting and clearing *)

Lemma unlink_head bp bps : unlink_breakpoint (bp_address bp) (bp :: bps) = bps.
Proof. simpl. by rewrite Z.eqb_refl. Qed.

(** A breakpoint leaves no trace.  Setting a breakpoint at an instruction of the
    program succeeds once and puts the trap instruction in its place; setting it again
    fails; clearing it restores the processor exactly -- memory, breakpoint list and
    everything else. *)
Theorem breakpoint_set_clear nc tpc at_pc instruction (p : processor) :
  processor_wf nc tpc p -> lookup_breakpoint (breakpoints p) at_pc = None ->
  0 <= at_pc < memory_size p -> Z.land at_pc 3 = 0 ->
  load32 at_pc (memory p) = Done instruction -> instruction <> BREAKPOINT_INST ->
  exists p', dbg_set_breakpoint at_pc p = Done (0, p')
    /\ load32 at_pc (memory p') = Done BREAKPOINT_INST
    /\ dbg_set_breakpoint at_pc p' = Done (-1, p')
    /\ dbg_clear_breakpoint at_pc p' = Done (0, p).
Proof.
  intros Hp Hnone Hin Hal Hload Hne.
  pose proof (wf_memory _ _ _ Hp) as [Hmem _ _ _].
  destruct (load32_word _ _ _ Hmem Hload) as (i & Hi & Hlk & Hu).
  assert (Hb : is_u32 BREAKPOINT_INST) by by split.
  unfold dbg_set_breakpoint at 1. rewrite Hnone, Hal, Hload.
  rewrite (proj2 (Z.leb_gt _ _)) by lia. cbn [orb negb Z.eqb bind_result].
  rewrite (proj2 (Z.eqb_neq _ _) Hne), (store32_word _ _ _ i instruction) by done.
  cbn [bind_result]. set (p' := _ : processor). exists p'. split; [reflexivity|].
  assert (Hlt : (i < length (memory p))%nat) by by eapply lookup_lt_Some.
  assert (Hlk' : memory p' !! i = Some BREAKPOINT_INST) by by apply list_lookup_insert_eq.
  split; [|split].
  - unfold load32, load_element. change (32 / 32) with 1. rewrite Z.div_1_r, Z.mod_1_r, Hi.
    rewrite (proj2 (Z.leb_le _ _)) by lia.
    rewrite (proj2 (Z.ltb_lt _ _)) by (simpl; rewrite length_insert; lia). simpl.
    rewrite Nat2Z.id, list_lookup_total_insert_eq by done. reflexivity.
  - unfold dbg_set_breakpoint. simpl. by rewrite Z.eqb_refl.
  - unfold dbg_clear_breakpoint. simpl. rewrite Z.eqb_refl. simpl.
    rewrite (store32_word _ _ _ i BREAKPOINT_INST) by done. simpl.
    rewrite list_insert_insert_eq, (list_insert_id _ i instruction) by done.
    subst p'. destruct p. do 2 f_equal. unfold update. simpl. by rewrite Z.eqb_refl.
Qed.

Lemma breakpoint_set_clear_witness :
  let p := proc (small_machine (replicate 64 7)) in
  exists p', dbg_set_breakpoint 8 p = Done (0, p')
    /\ load32 8 (memory p') = Done BREAKPOINT_INST
    /\ dbg_set_breakpoint 8 p' = Done (-1, p')
    /\ dbg_clear_breakpoint 8 p' = Done (0, p).
Proof.
  intros p. apply (breakpoint_set_clear 1 2 8 7 p).
  - apply (wf_proc 1 2 _ (small_machine_wf (replicate 64 7)
      ltac:(apply Forall_replicate; by split) eq_refl)).
  - reflexivity.
  - split; [lia|reflexivity].
  - reflexivity.
  - reflexivity.
  - discriminate.
Defined.

(** ** Hitting and resuming *)

Section Resume.

Context {D : Type} `{Host D} (nc tpc : Z).
Implicit Types m : machine D.

Definition mark_restart (b : bool) (at_pc : Z) m : machine D :=
  on_proc (fun p => p <| breakpoints ::=
    update_breakpoint (fun bp => bp <| restart := b |>) at_pc |>) m.

(** Translation reads the cores and the size of memory, nothing else. *)
Lemma translate_on_proc f t address is_store is_data m physical m' :
  cores (f (proc m)) = cores (proc m) -> memory_size (f (proc m)) = memory_size (proc m) ->
  translate_address t address is_store is_data m = (Some physical, m') ->
  translate_address t address is_store is_data (on_proc f m) = (Some physical, on_proc f m).
Proof.
  intros Hc Hs. unfold translate_address, check_entry, out_of_range, the_thread, the_core. simpl.
  rewrite Hc, Hs.
  destruct (negb _); [destruct (_ && _); [done|by injection 1 as -> _]|].
  destruct (find_way _ _ _); [|done].
  do 4 (match goal with |- context [if ?b then _ else _] => destruct b; [done|] end).
  destruct (_ && _); [done|by injection 1 as -> _].
Qed.

Lemma lookup_update_breakpoint f at_pc bps bp :
  lookup_breakpoint bps at_pc = Some bp -> bp_address (f bp) = bp_address bp ->
  lookup_breakpoint (update_breakpoint f at_pc bps) at_pc = Some (f bp).
Proof.
  induction bps as [|b bps IH]; intros Hl Hf; simpl in *; [done|].
  destruct (bp_address b =? at_pc) eqn:E; simpl.
  - injection Hl as ->. by rewrite Hf, E.
  - rewrite E. by apply IH.
Qed.

Lemma update_breakpoint_twice f g at_pc bps bp :
  lookup_breakpoint bps at_pc = Some bp -> bp_address (g bp) = bp_address bp -> f (g bp) = bp ->
  update_breakpoint f at_pc (update_breakpoint g at_pc bps) = bps.
Proof.
  induction bps as [|b bps IH]; intros Hl Hg Hfg; simpl in *; [done|].
  destruct (bp_address b =? at_pc) eqn:E; simpl.
  - injection Hl as ->. by rewrite Hg, E, Hfg.
  - rewrite E. f_equal. by apply IH.
Qed.

Lemma mark_restart_twice at_pc m bp :
  lookup_breakpoint (breakpoints (proc m)) at_pc = Some bp -> restart bp = false ->
  mark_restart false at_pc (mark_restart true at_pc m) = m.
Proof.
  intros Hbp Hrs. unfold mark_restart, on_proc. destruct m as [p h c]. destruct p. simpl in *.
  unfold update. simpl. unfold update. simpl.
  rewrite (update_breakpoint_twice _ _ _ _ bp); [done|done|done|].
  destruct bp. unfold update. simpl in *. by rewrite Hrs.
Qed.

(** Updates of a thread that cancel leave the machine as it was. *)
Lemma alter_cancel {A} (f g : A -> A) i (l : list A) x :
  l !! i = Some x -> f (g x) = x -> alter f i (alter g i l) = l.
Proof.
  intros Hx Hfg. apply list_eq. intros j. rewrite !list_lookup_alter.
  destruct (decide (i = j)) as [<-|]; [|done]. rewrite Hx, decide_True by done. simpl. by rewrite Hfg.
Qed.

Lemma on_thread_cancel t f g m :
  machine_wf nc tpc m -> valid nc tpc t -> f (g (the_thread t m)) = the_thread t m ->
  on_thread t f (on_thread t g m) = m.
Proof.
  intros Hm Ht Hfg. pose proof (valid_core_lookup _ _ t m Hm Ht) as Hc.
  pose proof (valid_thread_lookup _ _ t m Hm Ht) as Hth.
  assert (Hcores : alter (fun c => c <| threads ::= alter f (p_thread t) |>) (p_core t)
    (alter (fun c => c <| threads ::= alter g (p_thread t) |>) (p_core t) (cores (proc m)))
    = cores (proc m)).
  { apply (alter_cancel _ _ _ _ _ Hc).
    pose proof (alter_cancel f g _ _ _ Hth Hfg) as Hths.
    destruct (the_core t m). unfold update in *. simpl in *. by rewrite Hths. }
  unfold on_thread, on_core, on_proc. destruct m as [p h c]. destruct p. simpl in *.
  unfold update in *. simpl in *. unfold update in *. by rewrite Hcores.
Qed.

(** One instruction, once its word is fetched. *)
Lemma execute_fetched t m physical instruction :
  Z.land (pc (the_thread t m)) 3 = 0 -> fetch_address t m = Some physical ->
  load32 physical (memory (proc m)) = Done instruction ->
  execute_instruction t m = dispatch t instruction (count_instruction (advance_pc t m)).
Proof.
  intros Hal Hf Hload. unfold execute_instruction, fetch_address in *.
  change (on_thread t _ m) with (advance_pc t m). rewrite Hal. cbn [Z.eqb negb].
  pose proof (translate_address_outcome t (pc (the_thread t m)) false false (advance_pc t m)) as Ho.
  destruct (translate_address _ _ _ _ _) as [[p|] m']; [|done]. simpl in Hf.
  injection Hf as ->. subst m'. change (memory (proc (advance_pc t m))) with (memory (proc m)).
  by rewrite Hload.
Qed.

End Resume.

(** A breakpoint stops the program before the instruction and is transparent
    after it.  A thread that reaches the address stops there with nothing changed but
    the breakpoint's restart flag and the instruction counter; run again, it executes
    the original instruction, exactly as the interpreter would have dispatched it had
    it been in memory, and the breakpoint list is as before the hit. *)
Theorem breakpoint_stops_then_resumes D (host : Host D) nc tpc t physical bp (m : machine D) :
  machine_wf nc tpc m -> valid nc tpc t ->
  let at_pc := pc (the_thread t m) in
  Z.land at_pc 3 = 0 -> fetch_address t m = Some physical ->
  load32 physical (memory (proc m)) = Done BREAKPOINT_INST ->
  lookup_breakpoint (breakpoints (proc m)) at_pc = Some bp ->
  restart bp = false -> single_stepping (proc m) = false ->
  original_instruction bp <> BREAKPOINT_INST ->
  let stopped := mark_restart true at_pc (count_instruction m) in
  execute_instruction t m = Done (false, stopped)
  /\ execute_instruction t stopped
     = dispatch t (original_instruction bp)
         (count_instruction (advance_pc t (count_instruction m))).
Proof.
  intros Hm Ht at_pc Hal Hf Hload Hbp Hrs Hss Hne stopped.
  pose proof (wf_pc _ (the_thread_wf _ _ t m Hm Ht)) as [Hpc0 Hpc1].
  assert (Hback : u32 (u32 (at_pc + 4) - 4) = at_pc).
  { unfold u32. rewrite Zminus_mod_idemp_l. replace (at_pc + 4 - 4) with at_pc by lia.
    by apply Z.mod_small. }
  assert (Hcur : forall m1, the_thread t m1 = the_thread t m -> machine_wf nc tpc m1 ->
    current_pc t (count_instruction (advance_pc t m1)) = at_pc).
  { intros m1 Heq Hm1. unfold current_pc.
    change (the_thread t (count_instruction (advance_pc t m1))) with (the_thread t (advance_pc t m1)).
    unfold advance_pc. rewrite (the_thread_on_thread nc tpc) by done. simpl. by rewrite Heq. }
  assert (Hms : machine_wf nc tpc (count_instruction m)) by by apply count_instruction_wf.
  split.
  - rewrite (execute_fetched t m physical BREAKPOINT_INST) by done.
    unfold dispatch. rewrite Z.eqb_refl. unfold hit_breakpoint. rewrite Hcur by done.
    change (breakpoints (proc (count_instruction (advance_pc t m)))) with (breakpoints (proc m)).
    change (single_stepping (proc (count_instruction (advance_pc t m)))) with (single_stepping (proc m)).
    rewrite Hbp, Hrs, Hss. cbn [orb]. do 2 f_equal.
    change (on_thread t (fun th => th <| pc ::= fun p => u32 (p - 4) |>)
      (on_thread t (fun th => th <| pc ::= fun p => u32 (p + 4) |>) stopped) = stopped).
    apply (on_thread_cancel nc tpc); [by apply set_restart_wf|done|].
    change (the_thread t stopped) with (the_thread t m). fold at_pc in Hback.
    subst at_pc. destruct (the_thread t m). unfold update. simpl in *. by rewrite Hback.
  - rewrite (execute_fetched t stopped physical BREAKPOINT_INST); [|done| |done].
    + unfold dispatch at 1. rewrite Z.eqb_refl. unfold hit_breakpoint.
      rewrite (Hcur stopped) by (done || by apply set_restart_wf).
      change (breakpoints (proc (count_instruction (advance_pc t stopped)))) with
        (update_breakpoint (fun bp => bp <| restart := true |>) at_pc (breakpoints (proc m))).
      rewrite (lookup_update_breakpoint _ _ _ bp) by done. cbn [restart orb].
      change (original_instruction (bp <| restart := true |>)) with (original_instruction bp).
      unfold dispatch. rewrite (proj2 (Z.eqb_neq _ _) Hne). f_equal. f_equal.
      change (mark_restart false at_pc (mark_restart true at_pc
        (count_instruction (advance_pc t (count_instruction m))))
        = count_instruction (advance_pc t (count_instruction m))).
      by apply (mark_restart_twice _ _ bp).
    + unfold fetch_address in *.
      change (fst (translate_address t (pc (the_thread t m)) false false
        (on_proc (fun p => p <| total_instructions ::= fun n => n + 1 |>
           <| breakpoints ::= update_breakpoint (fun bp => bp <| restart := true |>) at_pc |>)
          (advance_pc t m))) = Some physical).
      destruct (translate_address t (pc (the_thread t m)) false false (advance_pc t m))
        as [[p|] m'] eqn:Htr; simpl in Hf; [injection Hf as ->|done].
      refine (f_equal fst (translate_on_proc (fun p => p <| total_instructions ::= fun n => n + 1 |>
        <| breakpoints ::= update_breakpoint (fun bp => bp <| restart := true |>) at_pc |>)
        t _ false false (advance_pc t m) physical m' _ _ Htr)); reflexivity.
Qed.

(** The first thread of a machine with a breakpoint at address 0, over [MOVE s1, s0]. *)
Definition breakpoint_machine : machine devices :=
  on_proc (fun p => p <| breakpoints := [
      {| bp_address := 0; original_instruction := 0xc00f0020; restart := false |}] |>)
    (small_machine (BREAKPOINT_INST :: replicate 63 0)).

Lemma breakpoint_stops_then_resumes_witness :
  let m := breakpoint_machine in
  let stopped := mark_restart true 0 (count_instruction m) in
  execute_instruction thread0 m = Done (false, stopped)
  /\ execute_instruction thread0 stopped
     = dispatch thread0 0xc00f0020
         (count_instruction (advance_pc thread0 (count_instruction m))).
Proof.
  intros m stopped.
  apply (breakpoint_stops_then_resumes devices device_host 1 2 thread0 0
    {| bp_address := 0; original_instruction := 0xc00f0020; restart := false |} m).
  - assert (Hw : machine_wf 1 2 (small_machine (BREAKPOINT_INST :: replicate 63 0))).
    { apply small_machine_wf; [|done]. apply List.Forall_cons; [by split|].
      apply Forall_replicate. by split. }
    apply on_proc_wf; [exact Hw|]. rebuild (wf_proc 1 2 _ Hw).
    apply List.Forall_cons; [|done]. by split.
  - apply thread0_valid.
  - reflexivity.
  - reflexivity.
  - vm_compute. reflexivity.
  - reflexivity.
  - reflexivity.
  - reflexivity.
  - discriminate.
Defined.
