(* ===== verification/MemoryProps.v ===== *)
(** * MemoryProps: what a load reads back

    Bytes, half words and words are views of the same array; a store through one of
    them changes its own bits and no others. *)

From S2P Require Export Confinement.

(** ** Bits of a word *)

Lemma extract_bit word low size i :
  0 <= i -> 0 <= low -> 0 <= size ->
  Z.testbit (extract_unsigned_bits word low size) i = Z.testbit word (i + low) && (i <? size).
Proof.
  intros Hi Hl Hs. unfold extract_unsigned_bits. rewrite Z.shiftl_1_l.
  replace (2 ^ size - 1) with (Z.ones size) by (rewrite Z.ones_equiv; lia).
  rewrite Z.land_spec, Z.shiftr_spec by done. f_equal.
  destruct (Z.ltb_spec i size); [apply Z.ones_spec_low|apply Z.ones_spec_high]; lia.
Qed.

Lemma replace_bit word low bits value i :
  0 <= i -> 0 <= low -> 0 <= bits ->
  Z.testbit (replace_bits word low bits value) i
  = if (low <=? i) && (i <? low + bits) then Z.testbit value (i - low) else Z.testbit word i.
Proof.
  intros Hi Hl Hb. unfold replace_bits. rewrite Z.lor_spec, Z.ldiff_spec, !Z.shiftl_spec by done.
  destruct (Z.leb_spec low i); simpl.
  - destruct (Z.ltb_spec i (low + bits)); simpl.
    + rewrite Z.ones_spec_low, Z.mod_pow2_bits_low by lia. by rewrite andb_false_r.
    + rewrite Z.ones_spec_high, Z.mod_pow2_bits_high by lia. simpl.
      by rewrite andb_true_r, orb_false_r.
  - rewrite !(Z.testbit_neg_r _ (i - low)) by lia. simpl. by rewrite andb_true_r, orb_false_r.
Qed.

Lemma extract_replace_same word low bits value :
  0 <= low -> 0 <= bits ->
  extract_unsigned_bits (replace_bits word low bits value) low bits = value mod 2 ^ bits.
Proof.
  intros Hl Hb. apply Z.bits_inj'. intros i Hi.
  rewrite extract_bit, replace_bit by lia. rewrite (proj2 (Z.leb_le low _)) by lia.
  replace (i + low - low) with i by lia. destruct (Z.ltb_spec i bits); simpl.
  - rewrite (proj2 (Z.ltb_lt _ _)), Z.mod_pow2_bits_low by lia. apply andb_true_r.
  - by rewrite andb_false_r, Z.mod_pow2_bits_high by lia.
Qed.

Lemma extract_replace_other word low low' bits value :
  0 <= low -> 0 <= low' -> 0 <= bits -> low' + bits <= low \/ low + bits <= low' ->
  extract_unsigned_bits (replace_bits word low bits value) low' bits
  = extract_unsigned_bits word low' bits.
Proof.
  intros Hl Hl' Hb Hdis. apply Z.bits_inj'. intros i Hi. rewrite !extract_bit, replace_bit by lia.
  destruct (Z.ltb_spec i bits); [|by rewrite !andb_false_r].
  destruct (Z.leb_spec low (i + low')), (Z.ltb_spec (i + low') (low + bits)); simpl; lia || done.
Qed.

(** The upper half of a field above the lower one. *)
Lemma extract_halves word low size :
  0 <= low -> 0 <= size ->
  extract_unsigned_bits word low (2 * size)
  = extract_unsigned_bits word low size
    + 2 ^ size * extract_unsigned_bits word (low + size) size.
Proof.
  intros Hl Hs. set (a := extract_unsigned_bits word low size).
  set (b := extract_unsigned_bits word (low + size) size).
  replace (a + 2 ^ size * b) with (a + Z.shiftl b size)
    by (rewrite Z.shiftl_mul_pow2 by done; lia).
  assert (Hdis : Z.land a (Z.shiftl b size) = 0).
  { apply Z.bits_inj'. intros i Hi. rewrite Z.land_spec, Z.testbit_0_l, Z.shiftl_spec by done.
    unfold a. rewrite extract_bit by done. destruct (Z.ltb_spec i size).
    - by rewrite (Z.testbit_neg_r _ (i - size)), andb_false_r by lia.
    - by rewrite andb_false_r. }
  rewrite Z.add_nocarry_lxor by done. rewrite Z.lxor_lor by done.
  apply Z.bits_inj'. intros i Hi. rewrite Z.lor_spec, Z.shiftl_spec by done. unfold a, b.
  rewrite !(extract_bit word low) by lia. destruct (Z.lt_ge_cases i size).
  - rewrite (Z.testbit_neg_r _ (i - size)) by lia. rewrite !(proj2 (Z.ltb_lt _ _)) by lia.
    by rewrite orb_false_r.
  - rewrite extract_bit by lia. replace (i - size + (low + size)) with (i + low) by lia.
    rewrite (proj2 (Z.ltb_ge i size)), andb_false_r by lia. simpl. f_equal.
    destruct (Z.ltb_spec i (2 * size)), (Z.ltb_spec (i - size) size); lia || done.
Qed.

(** ** Elements of memory *)

Section Elements.

Context (bits : Z).
Hypothesis Hbits : element_width bits.

Lemma slots_disjoint i j :
  i <> j -> i / (32 / bits) = j / (32 / bits) ->
  j mod (32 / bits) * bits + bits <= i mod (32 / bits) * bits
  \/ i mod (32 / bits) * bits + bits <= j mod (32 / bits) * bits.
Proof.
  intros Hne Hdiv. pose proof (element_width_positive bits Hbits) as Hb.
  assert (Hpos : 0 < 32 / bits) by (apply Z.div_str_pos; lia).
  pose proof (Z.div_mod i (32 / bits)). pose proof (Z.div_mod j (32 / bits)).
  assert (Hmod : i mod (32 / bits) <> j mod (32 / bits)) by (intros Heq; apply Hne; lia).
  assert (i mod (32 / bits) < j mod (32 / bits) \/ j mod (32 / bits) < i mod (32 / bits)) by lia.
  nia.
Qed.

Lemma load_store_element i j value mem mem' :
  0 <= j -> store_element bits i value mem = Done mem' ->
  load_element bits j mem' = if i =? j then Done (value mod 2 ^ bits) else load_element bits j mem.
Proof.
  intros Hj Hst. pose proof (element_width_positive bits Hbits) as Hb.
  assert (Hpos : 0 < 32 / bits) by (apply Z.div_str_pos; lia).
  unfold store_element in Hst. destruct (0 <=? i) eqn:Hi; [|done].
  destruct (i / (32 / bits) <? _) eqn:Hlt; [|done]. simpl in Hst. injection Hst as <-.
  bool_to_prop. pose proof (Z.div_pos i _ Hi Hpos). pose proof (Z.div_pos j _ Hj Hpos).
  pose proof (Z.mod_pos_bound i _ Hpos). pose proof (Z.mod_pos_bound j _ Hpos).
  unfold load_element. rewrite length_alter. destruct (Z.eqb_spec i j) as [<-|Hne].
  - rewrite (proj2 (Z.leb_le _ _)), (proj2 (Z.ltb_lt _ _)) by lia. simpl.
    rewrite list_lookup_total_alter_eq by lia. f_equal. apply extract_replace_same; lia.
  - destruct (_ && _) eqn:Hin; [|done]. f_equal.
    destruct (Z.eq_dec (i / (32 / bits)) (j / (32 / bits))) as [Heq|Hneq].
    + rewrite <- Heq, list_lookup_total_alter_eq by lia.
      apply extract_replace_other; [nia..|by apply slots_disjoint].
    + by rewrite list_lookup_total_alter_ne by lia.
Qed.

End Elements.

Lemma even_half a : a mod 2 = 0 -> (a + 1) / 2 = a / 2.
Proof. intros. Z.div_mod_to_equations. lia. Qed.

Lemma load_element_pair bits i mem lo hi :
  element_width bits -> bits <> 32 -> 0 <= i -> i mod 2 = 0 ->
  load_element bits i mem = Done lo -> load_element bits (i + 1) mem = Done hi ->
  load_element (2 * bits) (i / 2) mem = Done (lo + 2 ^ bits * hi).
Proof.
  intros Hb Hne Hi Heven Hlo Hhi. unfold load_element in *.
  destruct (i / (32 / bits) <? _) eqn:Hl1; [|by rewrite andb_false_r in Hlo].
  rewrite (proj2 (Z.leb_le 0 i)) in Hlo by done. simpl in Hlo. injection Hlo as <-.
  destruct (_ && _) in Hhi; [|done]. injection Hhi as <-.
  assert (Hper : 32 / bits = 2 * (32 / (2 * bits))).
  { unfold element_width in Hb. simpl in Hb.
    destruct Hb as [<-|[<-|[<-|[]]]]; try reflexivity. congruence. }
  assert (Hpos : 0 < 32 / (2 * bits)).
  { unfold element_width in Hb. simpl in Hb.
    destruct Hb as [<-|[<-|[<-|[]]]]; try (vm_compute; reflexivity). congruence. }
  set (q := 32 / (2 * bits)) in *. rewrite Hper in *.
  assert (Hdiv : i / 2 / q = i / (2 * q)) by (rewrite Z.div_div by lia; f_equal; lia).
  assert (Hmod : (i / 2) mod q * (2 * bits) = i mod (2 * q) * bits).
  { rewrite (Z.rem_mul_r i 2 q) by lia. rewrite Heven. nia. }
  assert (Hdiv1 : (i + 1) / (2 * q) = i / (2 * q)).
  { rewrite <- !Z.div_div by lia. by rewrite even_half. }
  assert (Hmod1 : (i + 1) mod (2 * q) * bits = i mod (2 * q) * bits + bits).
  { rewrite !(Z.rem_mul_r _ 2 q) by lia. rewrite even_half by done.
    replace ((i + 1) mod 2) with 1 by (Z.div_mod_to_equations; lia). rewrite Heven. nia. }
  rewrite Hdiv, Hl1, (proj2 (Z.leb_le 0 (i / 2))) by (apply Z.div_pos; lia). simpl.
  rewrite Hmod, Hdiv1, Hmod1. pose proof (element_width_positive bits Hb).
  pose proof (Z.mod_pos_bound i (2 * q)). rewrite extract_halves by nia. reflexivity.
Qed.

(** The views of memory agree, in little-endian order: the half word at an even
    address is made of the two bytes there, the word at a multiple of four of the
    four bytes there, the lowest address holding the lowest bits. *)
Theorem memory_views_little_endian a mem b0 b1 b2 b3 :
  0 <= a -> a mod 4 = 0 ->
  load8 a mem = Done b0 -> load8 (a + 1) mem = Done b1 ->
  load8 (a + 2) mem = Done b2 -> load8 (a + 3) mem = Done b3 ->
  load16 a mem = Done (b0 + 2 ^ 8 * b1) /\ load16 (a + 2) mem = Done (b2 + 2 ^ 8 * b3)
  /\ load32 a mem = Done (b0 + 2 ^ 8 * b1 + 2 ^ 16 * b2 + 2 ^ 24 * b3).
Proof.
  intros Ha Hal H0 H1 H2 H3. unfold load8 in *.
  assert (Hlow : load16 a mem = Done (b0 + 2 ^ 8 * b1)).
  { apply (load_element_pair 8); [element_width|done|done| |done|done].
    Z.div_mod_to_equations. lia. }
  assert (Hhigh : load16 (a + 2) mem = Done (b2 + 2 ^ 8 * b3)).
  { apply (load_element_pair 8); [element_width|done|lia| |done|].
    - Z.div_mod_to_equations. lia.
    - by replace (a + 2 + 1) with (a + 3) by lia. }
  split; [done|]. split; [done|]. unfold load16, load32 in *.
  replace (a / 4) with (a / 2 / 2) by apply half_word_index.
  pose proof (load_element_pair 16 (a / 2) mem (b0 + 2 ^ 8 * b1) (b2 + 2 ^ 8 * b3)) as Hpair.
  change (2 * 16) with 32 in Hpair. rewrite Hpair.
  - f_equal. lia.
  - element_width.
  - done.
  - by apply Z.div_pos.
  - Z.div_mod_to_equations. lia.
  - done.
  - replace (a / 2 + 1) with ((a + 2) / 2) by (Z.div_mod_to_equations; lia). done.
Qed.

Lemma memory_views_little_endian_witness :
  load16 4 [0; 0x87654321] = Done (0x21 + 2 ^ 8 * 0x43)
  /\ load16 6 [0; 0x87654321] = Done (0x65 + 2 ^ 8 * 0x87)
  /\ load32 4 [0; 0x87654321] = Done (0x21 + 2 ^ 8 * 0x43 + 2 ^ 16 * 0x65 + 2 ^ 24 * 0x87).
Proof.
  apply (memory_views_little_endian 4 [0; 0x87654321] 0x21 0x43 0x65 0x87);
    (lia || vm_compute; reflexivity).
Defined.

(** ** Stores and loads *)

(** What a load of [op] returns after a store of the register value [v]. *)
Definition stored_value (op : memory_op) (v : Z) : Z :=
  match op with
  | MEM_BYTE => u8 v
  | MEM_BYTE_SEXT => u32 (s8 (u8 v))
  | MEM_SHORT => u16 v
  | MEM_SHORT_EXT => u32 (s16 (u16 v))
  | _ => v
  end.

Definition plain_op (op : memory_op) : Prop :=
  In op [MEM_BYTE; MEM_BYTE_SEXT; MEM_SHORT; MEM_SHORT_EXT; MEM_LONG].

Section StoreLoad.

Context {D : Type} `{Host D}.
Implicit Types m : machine D.

Lemma after_store_memory t physical address size value m m' :
  after_store t physical address size value m = Done m' -> memory (proc m') = memory (proc m).
Proof.
  unfold after_store, invalidate_sync_address. intros Hd.
  apply bind_Done_inv in Hd as (m1 & H1 & Hd). injection Hd as <-.
  apply bind_Done_inv in H1 as (ths & _ & H1). injection H1 as <-.
  unfold with_cosim. by destruct (enable_cosim _).
Qed.

(** The element a plain scalar operation addresses, and how a load extends it. *)
Definition element_bits (op : memory_op) : Z := 8 * access_size (Some op).

Definition extend (op : memory_op) (v : Z) : Z :=
  match op with
  | MEM_BYTE_SEXT => u32 (s8 v)
  | MEM_SHORT_EXT => u32 (s16 v)
  | _ => v
  end.

Lemma scalar_load_element t op physical m :
  plain_op op -> is_device_address physical = false ->
  scalar_load_value t (Some op) physical m
  = (v <-- load_element (element_bits op) (physical / access_size (Some op)) (memory (proc m));;
     Done (Some (extend op v), m)).
Proof.
  intros Hop Hdev. unfold plain_op in Hop. simpl in Hop. unfold scalar_load_value.
  intuition subst; unfold element_bits, extend; cbn [access_size];
    try rewrite Z.div_1_r; try rewrite Hdev; reflexivity.
Qed.

Lemma u8_idemp v : u8 v mod 2 ^ 8 = u8 v.
Proof. unfold u8. by rewrite Z.mod_mod. Qed.

Lemma u16_idemp v : u16 v mod 2 ^ 16 = u16 v.
Proof. unfold u16. by rewrite Z.mod_mod. Qed.

Lemma scalar_store_element t op reg address physical m m' :
  plain_op op -> is_device_address physical = false -> is_u32 (get_scalar t reg m) ->
  scalar_store t (Some op) reg address physical m = Done m' ->
  exists v, store_element (element_bits op) (physical / access_size (Some op)) v (memory (proc m))
      = Done (memory (proc m'))
    /\ extend op (v mod 2 ^ element_bits op) = stored_value op (get_scalar t reg m).
Proof.
  intros Hop Hdev Hv. unfold plain_op in Hop. simpl in Hop. unfold scalar_store. intros Hd.
  assert (Hone : physical / 1 = physical) by apply Z.div_1_r.
  intuition subst; unfold element_bits, extend, stored_value; cbn [access_size];
    rewrite ?Hdev in Hd; apply bind_Done_inv in Hd as (mem & Hst & Hd);
    apply after_store_memory in Hd; rewrite Hd; simpl; rewrite ?Hone; eexists; (split; [exact Hst|]);
    change (8 * 1) with 8; change (8 * 2) with 16; rewrite ?u8_idemp, ?u16_idemp; try done.
  by apply Z.mod_small.
Qed.

Lemma element_bits_width op : plain_op op -> element_width (element_bits op).
Proof. unfold plain_op. simpl. intuition subst; vm_compute; tauto. Qed.

End StoreLoad.

(** A load reads what was stored.  After a store of any width to memory, a load of
    the same kind from the same address -- by any thread -- returns the stored
    register truncated to that width and zero- or sign-extended, and loads of that
    width from every other address return what they did before. *)
Theorem store_then_load D (host : Host D) nc tpc t t' op reg address physical (m m' : machine D) :
  machine_wf nc tpc m -> valid nc tpc t -> plain_op op ->
  is_device_address physical = false -> 0 <= physical ->
  physical mod access_size (Some op) = 0 ->
  scalar_store t (Some op) reg address physical m = Done m' ->
  scalar_load_value t' (Some op) physical m'
    = Done (Some (stored_value op (get_scalar t reg m)), m')
  /\ forall other v, is_device_address other = false -> 0 <= other ->
       other mod access_size (Some op) = 0 -> other <> physical ->
       scalar_load_value t' (Some op) other m = Done (v, m) ->
       scalar_load_value t' (Some op) other m' = Done (v, m').
Proof.
  intros Hm Ht Hop Hdev Hp Hal Hst.
  assert (Hsize : 0 < access_size (Some op))
    by (unfold plain_op in Hop; simpl in Hop; intuition subst; reflexivity).
  apply scalar_store_element in Hst as (v & Hst & Hv); [|done|done|by apply (scalar_is_u32 nc tpc)].
  pose proof (fun j Hj => load_store_element _ (element_bits_width op Hop) _ j v _ _ Hj Hst) as Hrw.
  split.
  - rewrite scalar_load_element by done. rewrite Hrw by by apply Z.div_pos.
    rewrite Z.eqb_refl. simpl. by rewrite Hv.
  - intros other w Hdev' Ho Hal' Hne Hl. rewrite scalar_load_element in Hl |- * by done.
    rewrite Hrw by by apply Z.div_pos. rewrite (proj2 (Z.eqb_neq _ _)).
    + destruct (load_element _ _ (memory (proc m))) as [x|f]; [|done].
      simpl in *. by injection Hl as <-.
    + intros Heq. apply Hne. rewrite (Z.div_mod other (access_size (Some op))) by lia.
      rewrite (Z.div_mod physical (access_size (Some op))) by lia. by rewrite Heq, Hal, Hal'.
Qed.

(** Thread 0 stores the low half of s1 at 0x12. *)
Lemma store_then_load_witness :
  let m := on_thread thread0 (fun th => th <| scalar_reg ::= <[1%nat := 0x12348765]> |>)
             (small_machine (replicate 64 0)) in
  exists m', scalar_store thread0 (Some MEM_SHORT_EXT) 1 0x12 0x12 m = Done m'
  /\ scalar_load_value thread0 (Some MEM_SHORT_EXT) 0x12 m' = Done (Some 0xffff8765, m').
Proof.
  intros m.
  assert (Hm : machine_wf 1 2 m).
  { assert (Hw : machine_wf 1 2 (small_machine (replicate 64 0)))
      by (apply small_machine_wf; [by apply Forall_replicate|done]).
    exact (set_scalar_quietly_wf 1 2 thread0 1 0x12348765 _ Hw thread0_valid ltac:(by split)). }
  destruct (scalar_store thread0 (Some MEM_SHORT_EXT) 1 0x12 0x12 m) as [m'|f] eqn:Hst;
    [|vm_compute in Hst; discriminate].
  exists m'. split; [done|].
  assert (Hop : plain_op MEM_SHORT_EXT) by (unfold plain_op; simpl; tauto).
  exact (proj1 (store_then_load devices device_host 1 2 thread0 thread0 MEM_SHORT_EXT 1 0x12 0x12
    m m' Hm thread0_valid Hop eq_refl ltac:(lia) eq_refl Hst)).
Defined.
