(* ===== verification/GdbProps.v ===== *)
(** * GdbProps: what the debugger writes, it reads back

    The remote protocol end to end: packets, hexadecimal operands, and the memory
    commands. *)

From Stdlib Require Import Ascii String.
From S2P Require Export Gdb MemoryProps.

Open Scope list_scope.

(** ** Characters *)

(** A lower-case hexadecimal digit, as [printf] prints it. *)
Definition is_hex_char (c : Z) : Prop := 48 <= c <= 57 \/ 97 <= c <= 102.

Lemma hex_digit_is_char d : 0 <= d < 16 -> is_hex_char (hex_digit_char d).
Proof. intros Hd. unfold is_hex_char, hex_digit_char. destruct (Z.ltb_spec d 10); lia. Qed.

Lemma print_hex_chars n w : 0 <= w < 16 ^ Z.of_nat n -> Forall is_hex_char (print_hex n w).
Proof.
  revert w. induction n as [|n IH]; intros w Hw; simpl; [done|].
  destruct (top_digit n w Hw) as (Hd & Hm & _). apply List.Forall_cons; [|by apply IH].
  by apply hex_digit_is_char.
Qed.

Lemma length_print_hex n w : length (print_hex n w) = n.
Proof. revert w. induction n as [|n IH]; intros w; simpl; [done|]. by rewrite IH. Qed.

Lemma hex_digits_bound v : 0 <= v -> (1 <= hex_digits v)%nat /\ v < 16 ^ Z.of_nat (hex_digits v).
Proof.
  intros Hv. unfold hex_digits. destruct (Z.eqb_spec v 0) as [->|Hne]; [split; [lia|done]|].
  pose proof (Z.log2_nonneg v). pose proof (Z.log2_spec v ltac:(lia)) as [_ Hlt].
  pose proof (Z.div_pos (Z.log2 v) 4). split; [lia|].
  rewrite Z2Nat.id by lia. change 16 with (2 ^ 4). rewrite <- Z.pow_mul_r by lia.
  eapply Z.lt_le_trans; [exact Hlt|]. apply Z.pow_le_mono_r; [lia|].
  pose proof (Z.div_mod (Z.log2 v) 4). pose proof (Z.mod_pos_bound (Z.log2 v) 4). lia.
Qed.

Lemma hex_digits_small v n :
  0 <= v < 16 ^ Z.of_nat n -> (1 <= n)%nat -> (hex_digits v <= n)%nat.
Proof.
  intros [Hv Hlt] Hn. unfold hex_digits. destruct (Z.eqb_spec v 0) as [->|Hne]; [lia|].
  change 16 with (2 ^ 4) in Hlt. rewrite <- Z.pow_mul_r in Hlt by lia.
  apply Z.log2_lt_pow2 in Hlt; [|lia]. pose proof (Z.log2_nonneg v).
  assert (Z.log2 v / 4 < Z.of_nat n) by (apply Z.div_lt_upper_bound; lia).
  pose proof (Z.div_pos (Z.log2 v) 4). lia.
Qed.

Lemma format_byte b : is_u8 b -> format_hex 2 b = print_hex 2 b.
Proof.
  intros [H0 H1]. unfold format_hex. f_equal.
  pose proof (hex_digits_small b 2 ltac:(split; [lia|exact H1]) ltac:(lia)). lia.
Qed.

(** ** [strtoul] on a formatted number *)

Definition number (v : Z) : list Z := format_hex 0 v.

(** The text that follows a number: nothing a hexadecimal number could go on with. *)
Definition number_ends (rest : list Z) : Prop :=
  match rest with
  | [] => True
  | c :: _ => digit_of 16 c = None /\ c <> 120 /\ c <> 88
  end.

Lemma digit_of_hex_char d : 0 <= d < 16 -> digit_of 16 (hex_digit_char d) = Some d.
Proof.
  intros Hd. unfold digit_of. rewrite (proj1 (hex_digit_char_ok d Hd)).
  by rewrite (proj2 (Z.ltb_lt d 16)) by lia.
Qed.

Lemma scan_digits_print n w acc count rest :
  0 <= w < 16 ^ Z.of_nat n -> number_ends rest ->
  scan_digits 16 (print_hex n w ++ rest) acc count
  = (acc * 16 ^ Z.of_nat n + w, (count + n)%nat).
Proof.
  revert w acc count. induction n as [|n IH]; intros w acc count Hw Hrest.
  - change (16 ^ Z.of_nat 0) with 1 in *. simpl.
    destruct rest as [|c rest]; simpl; [|destruct Hrest as [-> _]]; f_equal; lia.
  - destruct (top_digit n w Hw) as (Hd & Hm & Hsum & Hp). cbn [print_hex app scan_digits].
    rewrite digit_of_hex_char by done. rewrite IH by done. f_equal; [nia|lia].
Qed.

Lemma hex_char_start c s :
  is_hex_char c -> skip_spaces (c :: s) = O /\ (c =? 45) = false /\ (c =? 43) = false
  /\ (c =? 120) = false /\ (c =? 88) = false.
Proof.
  intros Hc. unfold is_hex_char in Hc. simpl.
  assert (Hs : Hex.isspace c = false).
  { unfold Hex.isspace, Hex.in_range. apply orb_false_iff. split.
    - apply andb_false_iff. rewrite !Z.leb_gt. lia.
    - apply Z.eqb_neq. lia. }
  rewrite Hs, !Z.eqb_neq. split_and!; lia || done.
Qed.

Lemma no_prefix n w rest :
  (1 <= n)%nat -> 0 <= w < 16 ^ Z.of_nat n -> number_ends rest ->
  CString.prefix_length 16 (print_hex n w ++ rest) = O.
Proof.
  intros Hn Hw Hrest. pose proof (print_hex_chars n w Hw) as Hchars.
  assert (Hsecond : match print_hex n w ++ rest with
    | _ :: x :: _ => x <> 120 /\ x <> 88 | _ => True end).
  { pose proof (length_print_hex n w) as Hlen.
    destruct (print_hex n w) as [|a [|b l]]; simpl in *; [lia| |].
    - destruct rest as [|r rest]; [done|]. apply Hrest.
    - pose proof (Forall_inv (Forall_inv_tail Hchars)) as Hb. unfold is_hex_char in Hb. lia. }
  unfold CString.prefix_length. destruct (print_hex n w ++ rest) as [|z [|x [|d l]]]; try done.
  destruct Hsecond as [H1 H2]. rewrite !(proj2 (Z.eqb_neq x _)) by done.
  by rewrite andb_false_r.
Qed.

Lemma strtoul_number v rest :
  0 <= v <= ULONG_MAX -> number_ends rest ->
  strtoul 16 (number v ++ rest) = (v, length (number v)).
Proof.
  intros [Hv Hmax] Hrest. unfold number, format_hex. rewrite length_print_hex.
  destruct (hex_digits_bound v Hv) as [Hn Hlt]. rewrite Nat.max_r by lia.
  set (n := hex_digits v) in *. pose proof (print_hex_chars n v ltac:(lia)) as Hchars.
  assert (Hhead : exists c s, print_hex n v = c :: s /\ is_hex_char c).
  { pose proof (length_print_hex n v) as Hlen. destruct (print_hex n v) as [|c s]; simpl in Hlen; [lia|].
    exists c, s. split; [done|]. by apply Forall_inv in Hchars. }
  unfold strtoul. pose proof (no_prefix n v rest Hn ltac:(lia) Hrest) as Hpre.
  pose proof (scan_digits_print n v 0 0 rest ltac:(lia) Hrest) as Hscan.
  destruct Hhead as (c & s & Heq & Hc). rewrite Heq in *. cbn [app] in *.
  destruct (hex_char_start c (s ++ rest) Hc) as (-> & H45 & H43 & _ & _).
  cbn [drop]. rewrite H45, H43. cbn [Nat.add]. rewrite drop_0, Hpre. cbn [Nat.add].
  rewrite drop_0, Hscan. cbn [Z.mul Z.add]. rewrite Z.add_0_l.
  destruct n as [|n]; [lia|]. by rewrite (proj2 (Z.ltb_ge _ _)) by lia.
Qed.

(** ** Packets *)

(** Text that can travel in a packet: no NUL, no hash. *)
Definition plain_text (text : list Z) : Prop := Forall (fun c => c <> 0 /\ c <> char_of "#") text.

Lemma read_until_text stop text rest :
  Forall (fun c => c <> stop) text -> read_until stop (text ++ stop :: rest) = Some (text, rest).
Proof.
  induction text as [|c text IH]; intros Ht; simpl; [by rewrite Z.eqb_refl|].
  rewrite (proj2 (Z.eqb_neq _ _) (Forall_inv Ht)). by rewrite IH by exact (Forall_inv_tail Ht).
Qed.

Lemma until_nul_text text rest :
  Forall (fun c => c <> 0) text -> until_nul (text ++ 0 :: rest) = Done text.
Proof.
  induction text as [|c text IH]; intros Ht; simpl; [done|].
  rewrite (proj2 (Z.eqb_neq _ _) (Forall_inv Ht)). by rewrite IH by exact (Forall_inv_tail Ht).
Qed.

Lemma checksum_fold text acc : is_u8 acc -> is_u8 (fold_left (fun sum c => u8 (sum + c)) text acc).
Proof.
  revert acc. induction text as [|c text IH]; intros acc Ha; simpl; [done|].
  apply IH. apply Z.mod_pos_bound. lia.
Qed.

Lemma checksum_byte text : is_u8 (checksum text).
Proof. apply checksum_fold. by split. Qed.

Lemma plain_no_nul text : plain_text text -> Forall (fun c => c <> 0) text.
Proof. intros Ht. eapply List.Forall_impl; [|exact Ht]. by intros c [Hc _]. Qed.

Lemma plain_no_hash text : plain_text text -> Forall (fun c => c <> char_of "#") text.
Proof. intros Ht. eapply List.Forall_impl; [|exact Ht]. by intros c [_ Hc]. Qed.

(** The request buffer after a packet: the text, a NUL, and what was there. *)
Definition with_request (text : list Z) (g : session) : session :=
  g <| request ::= fun old => text ++ 0 :: drop (S (List.length text)) old |>.

Lemma read_packet_text text rest g :
  plain_text text -> (List.length text < REQUEST_SIZE)%nat ->
  read_packet (packet text ++ rest) g = Some (Done (with_request text g), rest).
Proof.
  intros Ht Hlen. unfold read_packet, packet.
  rewrite format_byte by apply checksum_byte. rewrite <- !app_assoc. cbn [app].
  cbn [read_until]. rewrite Z.eqb_refl. cbn [mbind option_bind].
  rewrite read_until_text by by apply plain_no_hash. cbn [mbind option_bind].
  pose proof (length_print_hex 2 (checksum text)) as Hsum.
  destruct (print_hex 2 (checksum text)) as [|a [|b [|]]]; try discriminate. cbn [app drop].
  rewrite drop_0. unfold store_request. rewrite take_ge by lia.
  by rewrite (proj2 (Nat.ltb_lt _ _)) by done.
Qed.

(** ** Bytes of memory *)

Definition hex_bytes (bytes : list Z) : list Z := List.concat (map (print_hex 2) bytes).

Lemma length_hex_bytes bytes : List.length (hex_bytes bytes) = (2 * List.length bytes)%nat.
Proof.
  induction bytes as [|b bytes IH]; [done|]. unfold hex_bytes in *.
  cbn [map List.concat]. rewrite length_app, length_print_hex, IH. simpl. lia.
Qed.

(** Stores at consecutive addresses. *)
Fixpoint write_bytes (address : Z) (bytes : list Z) (mem : list Z) : result (list Z) :=
  match bytes with
  | [] => Done mem
  | b :: bytes' => mem <-- store8 address b mem;; write_bytes (address + 1) bytes' mem
  end.

Lemma write_bytes_ok address bytes mem size :
  memory_wf mem size -> Forall is_u8 bytes -> 0 <= address ->
  address + Z.of_nat (List.length bytes) <= size ->
  exists mem', write_bytes address bytes mem = Done mem' /\ memory_wf mem' size
    /\ (forall i b, bytes !! i = Some b -> load8 (address + Z.of_nat i) mem' = Done b)
    /\ (forall a, 0 <= a -> a < address \/ address + Z.of_nat (List.length bytes) <= a ->
          load8 a mem' = load8 a mem).
Proof.
  revert address mem. induction bytes as [|b bytes IH]; intros address mem Hm Hb Ha Hs.
  { exists mem. split_and!; [done|done|by intros i b Hi|done]. }
  simpl in Hs. pose proof (store8_returns mem size (fun _ => False) Hm address b ltac:(lia)) as Hst.
  simpl. destruct (store8 address b mem) as [mem1|f] eqn:Hd; [|done]. simpl in Hst |- *.
  destruct (IH (address + 1) mem1) as (mem' & Hw & Hm' & Hin & Hout);
    [done|exact (Forall_inv_tail Hb)|lia|lia|].
  pose proof (fun j Hj => load_store_element 8 ltac:(element_width) address j b mem mem1 Hj Hd) as Hrw.
  exists mem'. split_and!; [done|done| |].
  - intros [|i] c Hi; simpl in Hi.
    + injection Hi as <-. rewrite Z.add_0_r, Hout by lia. unfold load8. rewrite Hrw by done.
      rewrite Z.eqb_refl, Z.mod_small; [done|]. exact (Forall_inv Hb).
    + replace (address + Z.of_nat (S i)) with (address + 1 + Z.of_nat i) by lia. by apply Hin.
  - intros a Ha0 Ha1. rewrite Hout by lia. unfold load8. rewrite Hrw by done.
    by rewrite (proj2 (Z.eqb_neq _ _)) by lia.
Qed.

Lemma decode_print_byte b rest offset buffer :
  is_u8 b -> drop offset buffer = print_hex 2 b ++ rest -> decode_hex_byte offset buffer = Done b.
Proof.
  intros [H0 H1] Hdrop. unfold decode_hex_byte. rewrite Hdrop.
  change (2 ^ 8) with 256 in H1. clear Hdrop. small_cases b 256; reflexivity.
Qed.

Section Commands.

Context (window : option (Z * Z)) (batch : nat).
Implicit Types (m : machine devices) (g : session).

Lemma set_memory_same m : set_memory (memory (proc m)) m = m.
Proof. by destruct m as [[] ? ?]. Qed.

Lemma parse_memory_bytes start data k bytes tail g m :
  Forall is_u8 bytes -> 0 <= start -> memory_size (proc m) < 2 ^ 32 ->
  start + Z.of_nat (k + List.length bytes) <= memory_size (proc m) ->
  drop (data + 2 * k) (request g) = hex_bytes bytes ++ tail ->
  parse_memory start data k (List.length bytes) g m
  = (mem <-- write_bytes (start + Z.of_nat k) bytes (memory (proc m));; Done (set_memory mem m)).
Proof.
  revert k m. induction bytes as [|b bytes IH]; intros k m Hb Hs0 Hsize Hend Hdrop.
  { simpl. by rewrite set_memory_same. }
  unfold hex_bytes in Hdrop. cbn [map List.concat] in Hdrop. rewrite <- app_assoc in Hdrop.
  cbn [List.length parse_memory write_bytes] in *.
  rewrite (decode_print_byte b _ _ _ (Forall_inv Hb) Hdrop). cbn [bind_result].
  unfold dbg_write_memory_byte. unfold u32. rewrite Z.mod_small by lia.
  rewrite (proj2 (Z.ltb_lt _ _)) by lia.
  destruct (store8 _ _ _) as [mem1|f]; [|done]. cbn [bind_result].
  rewrite IH; [|exact (Forall_inv_tail Hb)|done|exact Hsize|simpl; lia|].
  - replace (start + Z.of_nat (S k)) with (start + Z.of_nat k + 1) by lia.
    change (memory (proc (set_memory mem1 m))) with mem1. by destruct (write_bytes _ _ _).
  - replace (data + 2 * S k)%nat with (data + 2 * k + 2)%nat by lia.
    rewrite <- drop_drop, Hdrop. by rewrite drop_app_length' by by rewrite length_print_hex.
Qed.

(** The response buffer holds [printed] from its start. *)
Definition responding (printed : list Z) (g : session) : Prop :=
  List.length (response g) = RESPONSE_SIZE /\ take (List.length printed) (response g) = printed.

Lemma print_response_ok printed text g :
  responding printed g -> (List.length printed + List.length text < RESPONSE_SIZE)%nat ->
  exists buffer rest,
    print_response (List.length printed) text g = Done (g <| response := buffer |>)
    /\ buffer = (printed ++ text) ++ 0 :: rest /\ List.length buffer = RESPONSE_SIZE.
Proof.
  intros [Hlen Htake] Hfit. unfold print_response, write_string.
  rewrite Hlen, (proj2 (Nat.ltb_lt _ _)) by done. cbn [bind_result]. rewrite Htake.
  eexists _, _. split; [reflexivity|]. split; [by rewrite app_assoc|].
  rewrite !length_app. cbn [List.length]. rewrite length_drop. lia.
Qed.

Lemma print_memory_bytes start k bytes g m :
  (forall i b, bytes !! i = Some b -> load8 (start + Z.of_nat (k + i)) (memory (proc m)) = Done b) ->
  Forall is_u8 bytes -> 0 <= start -> memory_size (proc m) < 2 ^ 32 ->
  start + Z.of_nat (k + List.length bytes) <= memory_size (proc m) ->
  (2 * (k + List.length bytes) < RESPONSE_SIZE)%nat ->
  forall printed, List.length printed = (2 * k)%nat -> responding printed g ->
  exists buffer, print_memory start k (List.length bytes) g m = Done (g <| response := buffer |>)
    /\ responding (printed ++ hex_bytes bytes) (g <| response := buffer |>)
    /\ (bytes <> [] -> exists rest, buffer = (printed ++ hex_bytes bytes) ++ 0 :: rest).
Proof.
  revert k g. induction bytes as [|b bytes IH]; intros k g Hload Hb Hs0 Hsize Hend Hfit printed Hp Hr.
  { exists (response g). replace (g <| response := response g |>) with g by by destruct g.
    unfold hex_bytes. simpl. by rewrite app_nil_r. }
  cbn [List.length print_memory] in *. unfold u32. rewrite Z.mod_small by lia.
  unfold dbg_read_memory_byte. rewrite (proj2 (Z.leb_gt _ _)) by lia.
  pose proof (Hload 0%nat b eq_refl) as H0. rewrite Nat.add_0_r in H0. rewrite H0. cbn [bind_result].
  rewrite format_byte by exact (Forall_inv Hb). rewrite <- Hp.
  destruct (print_response_ok printed (print_hex 2 b) g Hr) as (buffer1 & rest1 & -> & Hb1 & Hl1);
    [rewrite length_print_hex; lia|]. cbn [bind_result].
  assert (Hr1 : responding (printed ++ print_hex 2 b) (g <| response := buffer1 |>)).
  { split; [exact Hl1|]. cbn. unfold update. cbn. rewrite Hb1. by rewrite take_app_length. }
  destruct (IH (S k) (g <| response := buffer1 |>)) with (printed := printed ++ print_hex 2 b)
    as (buffer & Hprint & Hresp & Hrest); try done.
  - intros i c Hi. replace (S k + i)%nat with (k + S i)%nat by lia. by apply Hload.
  - exact (Forall_inv_tail Hb).
  - lia.
  - lia.
  - rewrite length_app, length_print_hex. lia.
  - exists buffer. rewrite Hprint. unfold hex_bytes in *. cbn [map List.concat].
    rewrite app_assoc. split; [done|]. split; [exact Hresp|]. intros _.
    destruct bytes as [|b' bytes]; [|by apply Hrest].
    simpl in Hprint. injection Hprint as Heq. rewrite <- Heq. cbn. rewrite app_nil_r. by eexists.
Qed.

(** ** The memory commands *)

(** "<command><start>,<length>", both in hexadecimal. *)
Definition operands_text (command : ascii) (start : Z) (count : nat) : list Z :=
  char_of command :: number start ++ char_of "," :: number (Z.of_nat count).

Definition write_text (start : Z) (bytes : list Z) : list Z :=
  operands_text "M" start (List.length bytes) ++ char_of ":" :: hex_bytes bytes.

Lemma hex_chars_plain text : Forall is_hex_char text -> plain_text text.
Proof.
  intros Ht. eapply List.Forall_impl; [|exact Ht]. intros c Hc. unfold is_hex_char in Hc.
  split; [lia|]. change (char_of "#") with 35. lia.
Qed.

Lemma number_chars v : 0 <= v -> Forall is_hex_char (number v).
Proof.
  intros Hv. destruct (hex_digits_bound v Hv) as [_ Hlt]. unfold number, format_hex.
  apply print_hex_chars. rewrite Nat.max_r by lia. lia.
Qed.

Lemma hex_bytes_chars bytes : Forall is_u8 bytes -> Forall is_hex_char (hex_bytes bytes).
Proof.
  intros Hb. induction Hb as [|b bytes Hb _ IH]; [done|]. unfold hex_bytes. cbn [map List.concat].
  apply Forall_app. split; [|exact IH]. apply print_hex_chars. exact Hb.
Qed.

Lemma operands_plain command start count :
  0 <= start -> char_of command <> 0 /\ char_of command <> char_of "#" ->
  plain_text (operands_text command start count).
Proof.
  intros Hs Hc. apply List.Forall_cons; [exact Hc|]. apply Forall_app.
  split; [by apply hex_chars_plain, number_chars|]. apply List.Forall_cons; [by split|].
  apply hex_chars_plain, number_chars. lia.
Qed.

(** The operands are read back, whatever follows them. *)
Lemma memory_operands_text command start count after rest g :
  is_u32 start -> Z.of_nat count < 2 ^ 32 ->
  plain_text (operands_text command start count ++ after) -> number_ends after ->
  request g = (operands_text command start count ++ after) ++ 0 :: rest ->
  memory_operands g
  = Done (start, Z.of_nat count, List.length (operands_text command start count)).
Proof.
  intros [Hs0 Hs1] Hc Hplain Hafter Hreq. unfold memory_operands, string_at. rewrite Hreq.
  assert (Hskip : forall n, drop n ((operands_text command start count ++ after) ++ 0 :: rest)
    = drop n (operands_text command start count ++ after) ++ 0 :: rest
    \/ (List.length (operands_text command start count ++ after) < n)%nat).
  { intros n. destruct (Nat.le_gt_cases n (List.length (operands_text command start count ++ after)));
      [left; by rewrite drop_app_le|by right]. }
  assert (Hread : forall n, (n <= List.length (operands_text command start count ++ after))%nat ->
    until_nul (drop n ((operands_text command start count ++ after) ++ 0 :: rest))
    = Done (drop n (operands_text command start count ++ after))).
  { intros n Hn. destruct (Hskip n) as [->|]; [|lia].
    apply until_nul_text, Forall_drop, plain_no_nul. exact Hplain. }
  rewrite Hread by (rewrite length_app; unfold operands_text; simpl; lia). cbn [bind_result].
  unfold operands_text at 1. cbn [app drop]. rewrite drop_0, <- app_assoc. cbn [app].
  rewrite strtoul_number by (unfold ULONG_MAX; try lia; by vm_compute).
  set (a := List.length (number start)).
  rewrite Hread by (rewrite length_app; unfold operands_text; cbn [List.length];
                    rewrite length_app; simpl; fold a; lia). cbn [bind_result].
  assert (Hd : drop (S (1 + a)) (operands_text command start count ++ after)
    = number (Z.of_nat count) ++ after).
  { unfold operands_text. cbn [app Nat.add drop]. rewrite <- app_assoc. cbn [app].
    replace (S a) with (a + 1)%nat by lia. subst a. rewrite drop_app_add. simpl.
    by rewrite drop_0. }
  rewrite Hd, strtoul_number by (unfold ULONG_MAX; done || lia).
  unfold u32. rewrite !Z.mod_small by lia. do 2 f_equal.
  unfold operands_text. cbn [List.length]. rewrite length_app. cbn [List.length]. fold a. lia.
Qed.

End Commands.

Section MemoryCommands.

Implicit Types (m : machine devices) (g : session).

Lemma request_with_request text g :
  request (with_request text g) = text ++ 0 :: drop (S (List.length text)) (request g).
Proof. by destruct g. Qed.

Lemma write_text_plain start bytes :
  0 <= start -> Forall is_u8 bytes -> plain_text (write_text start bytes).
Proof.
  intros Hs Hb. apply Forall_app. split; [by apply operands_plain|].
  apply List.Forall_cons; [by split|]. by apply hex_chars_plain, hex_bytes_chars.
Qed.

(** 'M' stores the bytes and answers OK. *)
Lemma write_memory_text start bytes g m :
  is_u32 start -> Forall is_u8 bytes -> memory_size (proc m) < 2 ^ 32 ->
  start + Z.of_nat (List.length bytes) <= memory_size (proc m) ->
  write_memory (with_request (write_text start bytes) g) m
  = (mem <-- write_bytes start bytes (memory (proc m));;
     Done (send_response_packet ok (with_request (write_text start bytes) g), set_memory mem m)).
Proof.
  intros Hs Hb Hsize Hend. pose proof Hs as [Hs0 Hs1]. set (g1 := with_request _ g).
  set (old := drop (S (List.length (write_text start bytes))) (request g)).
  assert (Hreq : request g1 = write_text start bytes ++ 0 :: old) by apply request_with_request.
  unfold write_memory.
  rewrite (memory_operands_text "M" start (List.length bytes) (char_of ":" :: hex_bytes bytes) old g1);
    [|done|lia|by apply write_text_plain|by split|exact Hreq]. cbn [bind_result].
  rewrite Nat2Z.id.
  rewrite (parse_memory_bytes start _ 0 bytes (0 :: old) g1 m Hb Hs0 Hsize Hend).
  - rewrite Z.add_0_r. by destruct (write_bytes _ _ _).
  - rewrite Hreq. unfold write_text. rewrite <- app_assoc. cbn [app].
    set (ops := operands_text _ _ _).
    replace (S (List.length ops) + 2 * 0)%nat with (List.length ops + 1)%nat by lia.
    rewrite drop_app_add. simpl. by rewrite drop_0.
Qed.

(** 'm' answers with the bytes in hexadecimal and changes nothing. *)
Lemma read_memory_text start bytes g m :
  is_u32 start -> Forall is_u8 bytes -> memory_size (proc m) < 2 ^ 32 -> bytes <> [] ->
  start + Z.of_nat (List.length bytes) <= memory_size (proc m) ->
  (2 * List.length bytes < RESPONSE_SIZE)%nat -> List.length (response g) = RESPONSE_SIZE ->
  (forall i b, bytes !! i = Some b -> load8 (start + Z.of_nat i) (memory (proc m)) = Done b) ->
  let g1 := with_request (operands_text "m" start (List.length bytes)) g in
  exists buffer, read_memory g1 m
    = Done (send_response_packet (hex_bytes bytes) (g1 <| response := buffer |>)).
Proof.
  intros Hs Hb Hsize Hne Hend Hfit Hlen Hload g1. pose proof Hs as [Hs0 Hs1].
  set (old := drop (S (List.length (operands_text "m" start (List.length bytes)))) (request g)).
  assert (Hplain : plain_text (operands_text "m" start (List.length bytes)))
    by (apply operands_plain; [done|by split]).
  unfold read_memory.
  rewrite (memory_operands_text "m" start (List.length bytes) [] old g1);
    [|done|lia|by rewrite app_nil_r|done|rewrite app_nil_r; apply request_with_request].
  cbn [bind_result]. rewrite Nat2Z.id. change (Z.of_nat RESPONSE_SIZE / 2) with 512.
  unfold RESPONSE_SIZE in *. rewrite (proj2 (Z.ltb_ge _ _)) by lia.
  destruct (print_memory_bytes start 0 bytes g1 m Hload Hb Hs0 Hsize Hend ltac:(done) [] eq_refl)
    as (buffer & -> & _ & Hbuf).
  { split; [|done]. by destruct g. }
  destruct (Hbuf Hne) as [rest Hrest]. exists buffer. cbn [bind_result]. unfold send_response.
  unfold string_at. change (response (g1 <| response := buffer |>)) with buffer.
  rewrite drop_0, Hrest. cbn [app]. rewrite until_nul_text; [done|].
  by apply plain_no_nul, hex_chars_plain, hex_bytes_chars.
Qed.

(** What the client sees before each answer. *)
Definition ack g : list Z := if no_ack_mode g then [] else [char_of "+"].

Lemma sent_acknowledge g : sent (acknowledge g) = sent g ++ ack g.
Proof. unfold acknowledge, ack. destruct (no_ack_mode g); simpl; [by rewrite app_nil_r|done]. Qed.

Lemma acknowledge_with_request text g :
  acknowledge (with_request text g) = with_request text (acknowledge g).
Proof. unfold acknowledge. destruct g as [? ? ? ? [] ?]; reflexivity. Qed.

End MemoryCommands.

(** C30: what the debugger writes to memory, it reads back.  A client that sends an 'M'
    packet with any bytes (that fit a packet and memory) and then an 'm' packet for
    the same range is answered "OK" and then those bytes in hexadecimal; nothing of
    the machine but those bytes has changed. *)
Theorem gdb_memory_round_trip batch window nc tpc start bytes g (m : machine devices) :
  machine_wf nc tpc m -> is_u32 start -> Forall is_u8 bytes -> bytes <> [] ->
  start + Z.of_nat (List.length bytes) <= memory_size (proc m) ->
  (List.length (write_text start bytes) < REQUEST_SIZE)%nat ->
  List.length (response g) = RESPONSE_SIZE ->
  exists g' mem,
    serve batch window [[]; []]
      (packet (write_text start bytes) ++ packet (operands_text "m" start (List.length bytes))) g m
      = Done (g', set_memory mem m)
    /\ sent g' = sent g ++ (ack g ++ packet ok) ++ (ack g ++ packet (hex_bytes bytes))
    /\ forall a, 0 <= a -> a < start \/ start + Z.of_nat (List.length bytes) <= a ->
         load8 a mem = load8 a (memory (proc m)).
Proof.
  intros Hm Hs Hb Hne Hend Hfit Hresp. pose proof Hs as [Hs0 Hs1].
  pose proof (wf_memory _ _ _ (wf_proc _ _ m Hm)) as Hmem.
  assert (Hsize : memory_size (proc m) < 2 ^ 32)
    by (pose proof (wf_below_devices _ _ Hmem) as Hd; unfold DEVICE_BASE_ADDRESS in Hd; lia).
  destruct (write_bytes_ok start bytes _ _ Hmem Hb Hs0 Hend) as (mem & Hw & _ & Hin & Hout).
  assert (Hlen : (2 * List.length bytes < REQUEST_SIZE)%nat /\
    (List.length (operands_text "m" start (List.length bytes)) < REQUEST_SIZE)%nat).
  { unfold write_text in Hfit. rewrite length_app in Hfit. cbn [List.length] in Hfit.
    rewrite length_hex_bytes in Hfit. unfold operands_text in *. cbn [List.length] in *. lia. }
  destruct Hlen as [Hl1 Hl2]. cbn [serve].
  rewrite read_packet_text by (done || by apply write_text_plain). cbn [bind_result].
  rewrite acknowledge_with_request. set (g1 := with_request _ (acknowledge g)).
  assert (Hex1 : execute_command batch window [] g1 m
    = Done (Some (send_response_packet ok g1, set_memory mem m))).
  { unfold execute_command. change (request g1 !!! 0%nat) with (char_of "M").
    cbn -[write_memory send_response_packet]. subst g1.
    rewrite write_memory_text by done. by rewrite Hw. }
  rewrite Hex1. cbn [bind_result]. set (g2 := send_response_packet ok g1).
  rewrite <- (app_nil_r (packet (operands_text _ _ _))).
  rewrite read_packet_text; [|by apply operands_plain|done]. cbn [bind_result].
  rewrite acknowledge_with_request. set (g3 := acknowledge g2).
  assert (Hg3 : List.length (response g3) = RESPONSE_SIZE).
  { subst g3 g2 g1. rewrite <- Hresp. unfold acknowledge.
    destruct g as [? ? ? ? [] ?]; reflexivity. }
  destruct (read_memory_text start bytes g3 (set_memory mem m)) as (buffer & Hread); try done.
  { unfold RESPONSE_SIZE, REQUEST_SIZE in *. lia. }
  assert (Hex2 : execute_command batch window []
      (with_request (operands_text "m" start (List.length bytes)) g3) (set_memory mem m)
    = Done (Some (send_response_packet (hex_bytes bytes)
        (with_request (operands_text "m" start (List.length bytes)) g3 <| response := buffer |>),
        set_memory mem m))).
  { unfold execute_command.
    change (request (with_request (operands_text "m" start (List.length bytes)) g3) !!! 0%nat)
      with (char_of "m").
    cbn -[read_memory send_response_packet]. unfold no_machine. by rewrite Hread. }
  rewrite Hex2. cbn [bind_result]. eexists _, mem. split; [reflexivity|]. split; [|exact Hout].
  transitivity (sent g3 ++ packet (hex_bytes bytes)); [by destruct g3|].
  subst g3. rewrite sent_acknowledge.
  transitivity (((sent (acknowledge g) ++ packet ok) ++ ack g2) ++ packet (hex_bytes bytes)).
  { subst g2 g1. by destruct (acknowledge g). }
  rewrite sent_acknowledge. replace (ack g2) with (ack g).
  - by rewrite !app_assoc.
  - subst g2 g1. unfold ack, acknowledge. destruct g as [? ? ? ? [] ?]; reflexivity.
Qed.

Lemma gdb_memory_round_trip_witness :
  let m := small_machine (replicate 64 0) in
  let g := start_session (replicate 256 0) (replicate 1024 0) (proc m) in
  exists g' mem,
    serve 1 None [[]; []] (packet (CString.chars "M12,3:0abcff"%string) ++ packet (CString.chars "m12,3"%string)) g m
      = Done (g', set_memory mem m)
    /\ sent g' = CString.chars "+$OK#9a+$0abcff#22"%string
    /\ forall a, 0 <= a -> a < 0x12 \/ 0x12 + 3 <= a -> load8 a mem = load8 a (memory (proc m)).
Proof.
  intros m g.
  assert (Hm : machine_wf 1 2 m) by (apply small_machine_wf; [by apply Forall_replicate|done]).
  destruct (gdb_memory_round_trip 1 None 1 2 0x12 [0x0a; 0xbc; 0xff] g m Hm)
    as (g' & mem & Hserve & Hsent & Hout).
  - by split.
  - repeat (apply List.Forall_cons; [by split|]). done.
  - discriminate.
  - vm_compute. discriminate.
  - vm_compute. lia.
  - reflexivity.
  - exists g', mem. split; [exact Hserve|]. split; [|exact Hout].
    rewrite Hsent. vm_compute. reflexivity.
Defined.
