(* ===== verification/KernelList.v ===== *)
(** * KernelList: the intrusive lists of software/kernel/list.h

    A list is a circle of nodes through a head; a node is two pointers, and a heap
    maps addresses to nodes.  The operations are the C functions statement by
    statement; a pointer outside the heap is a fault.  The second half shows that
    they implement operations on sequences. *)

From S2P Require Export Prelude.
From stdpp Require Import list gmap.

#[local] Open Scope Z_scope.

(** ** Memory *)

Record list_node := { prev : Z; next : Z }.

#[export]
Instance list_node_fields : Fields list_node := fun n => Build_list_node (prev n) (next n).

Abbreviation heap := (gmap Z list_node).

Definition NULL : Z := 0.

Definition get_node (p : Z) (h : heap) : result list_node :=
  match h !! p with Some n => Done n | None => Fault OutOfBounds end.

Definition get_next (p : Z) (h : heap) : result Z := n <-- get_node p h;; Done (next n).
Definition get_prev (p : Z) (h : heap) : result Z := n <-- get_node p h;; Done (prev n).
Definition set_next (p v : Z) (h : heap) : result heap :=
  n <-- get_node p h;; Done (<[p := n <| next := v |>]> h).
Definition set_prev (p v : Z) (h : heap) : result heap :=
  n <-- get_node p h;; Done (<[p := n <| prev := v |>]> h).

(** ** Operations *)

Definition list_is_empty (node : Z) (h : heap) : result bool :=
  n <-- get_next node h;; Done (n =? node).

Definition list_init (list : Z) (h : heap) : result (Z * heap) :=
  h <-- set_next list list h;; h <-- set_prev list list h;; Done (list, h).

(** [node->prev->next = node; node->next->prev = node] *)
Definition link_neighbours (node : Z) (h : heap) : result heap :=
  p <-- get_prev node h;; h <-- set_next p node h;;
  n <-- get_next node h;; set_prev n node h.

Definition __list_add_head (list node : Z) (h : heap) : result (Z * heap) :=
  h <-- set_prev node list h;;
  n <-- get_next list h;; h <-- set_next node n h;;
  h <-- link_neighbours node h;; Done (node, h).

Definition __list_add_tail (list node : Z) (h : heap) : result (Z * heap) :=
  p <-- get_prev list h;; h <-- set_prev node p h;;
  h <-- set_next node list h;;
  h <-- link_neighbours node h;; Done (node, h).

Definition __list_add_after (prev node : Z) (h : heap) : result (Z * heap) :=
  h <-- set_prev node prev h;;
  n <-- get_next prev h;; h <-- set_next node n h;;
  h <-- link_neighbours node h;; Done (node, h).

Definition __list_add_before (next node : Z) (h : heap) : result (Z * heap) :=
  p <-- get_prev next h;; h <-- set_prev node p h;;
  h <-- set_next node next h;;
  h <-- link_neighbours node h;; Done (node, h).

(** [node->prev->next = node->next; node->next->prev = node->prev] *)
Definition unlink (node : Z) (h : heap) : result heap :=
  p <-- get_prev node h;; n <-- get_next node h;; h <-- set_next p n h;;
  n <-- get_next node h;; p <-- get_prev node h;; set_prev n p h.

Definition __list_remove_node (node : Z) (h : heap) : result (Z * heap) :=
  h <-- unlink node h;;
  h <-- set_next node NULL h;; h <-- set_prev node NULL h;; Done (node, h).

Definition __list_remove_head (list : Z) (h : heap) : result (Z * heap) :=
  empty <-- list_is_empty list h;;
  if empty then Done (NULL, h)
  else node <-- get_next list h;; h <-- unlink node h;; Done (node, h).

Definition __list_remove_tail (list : Z) (h : heap) : result (Z * heap) :=
  empty <-- list_is_empty list h;;
  if empty then Done (NULL, h)
  else node <-- get_prev list h;; h <-- unlink node h;; Done (node, h).

Definition __list_peek_head (list : Z) (h : heap) : result Z :=
  empty <-- list_is_empty list h;; if empty then Done NULL else get_next list h.

Definition __list_peek_tail (list : Z) (h : heap) : result Z :=
  empty <-- list_is_empty list h;; if empty then Done NULL else get_prev list h.

Definition __list_next (list node : Z) (h : heap) : result Z :=
  n <-- get_next node h;; if n =? list then Done NULL else Done n.

Definition __list_prev (list node : Z) (h : heap) : result Z :=
  p <-- get_prev node h;; if p =? list then Done NULL else Done p.

(** The macros the rest of the kernel uses; the second expands to the first's
    function. *)
Definition list_remove_head := __list_remove_head.
Definition list_remove_tail := __list_remove_head.

(** [list_for_each]: the nodes visited, with [fuel] for the length of the circle;
    [None] when it does not come back to the head. *)
Fixpoint list_for_each (fuel : nat) (head node : Z) (h : heap) : option (result (list Z)) :=
  match fuel with
  | O => None
  | S fuel' =>
      if node =? head then Some (Done [])
      else
        match get_next node h with
        | Fault f => Some (Fault f)
        | Done n =>
            match list_for_each fuel' head n h with
            | Some (Done nodes) => Some (Done (node :: nodes))
            | r => r
            end
        end
  end.

(** ** The same operations on sequences *)

Inductive list_op :=
| IsEmpty
| AddHead (node : Z) | AddTail (node : Z)
| AddAfter (prev node : Z) | AddBefore (next node : Z)
| RemoveNode (node : Z) | RemoveHead | RemoveTail
| PeekHead | PeekTail | Next (node : Z) | Prev (node : Z).

Definition keep_heap (c : result Z) (h : heap) : result (Z * heap) := r <-- c;; Done (r, h).

Definition run_op (head : Z) (op : list_op) (h : heap) : result (Z * heap) :=
  match op with
  | IsEmpty => b <-- list_is_empty head h;; Done (if b : bool then 1 else 0, h)
  | AddHead node => __list_add_head head node h
  | AddTail node => __list_add_tail head node h
  | AddAfter prev node => __list_add_after prev node h
  | AddBefore next node => __list_add_before next node h
  | RemoveNode node => __list_remove_node node h
  | RemoveHead => __list_remove_head head h
  | RemoveTail => __list_remove_tail head h
  | PeekHead => keep_heap (__list_peek_head head h) h
  | PeekTail => keep_heap (__list_peek_tail head h) h
  | Next node => keep_heap (__list_next head node h) h
  | Prev node => keep_heap (__list_prev head node h) h
  end.

Fixpoint run_ops (head : Z) (ops : list list_op) (h : heap) : result (list Z * heap) :=
  match ops with
  | [] => Done ([], h)
  | op :: ops' =>
      '(r, h) <-- run_op head op h;; '(rs, h) <-- run_ops head ops' h;; Done (r :: rs, h)
  end.

Fixpoint insert_after (p node : Z) (xs : list Z) : list Z :=
  match xs with
  | [] => []
  | x :: rest => if x =? p then x :: node :: rest else x :: insert_after p node rest
  end.

Fixpoint insert_before (n node : Z) (xs : list Z) : list Z :=
  match xs with
  | [] => []
  | x :: rest => if x =? n then node :: x :: rest else x :: insert_before n node rest
  end.

Fixpoint remove_one (node : Z) (xs : list Z) : list Z :=
  match xs with
  | [] => []
  | x :: rest => if x =? node then rest else x :: remove_one node rest
  end.

Fixpoint next_after (node : Z) (xs : list Z) : Z :=
  match xs with
  | [] => NULL
  | x :: rest => if x =? node then hd NULL rest else next_after node rest
  end.

Definition spec_op (op : list_op) (xs : list Z) : Z * list Z :=
  match op with
  | IsEmpty => (match xs with [] => 1 | _ => 0 end, xs)
  | AddHead node => (node, node :: xs)
  | AddTail node => (node, xs ++ [node])
  | AddAfter prev node => (node, insert_after prev node xs)
  | AddBefore next node => (node, insert_before next node xs)
  | RemoveNode node => (node, remove_one node xs)
  | RemoveHead => (hd NULL xs, tl xs)
  | RemoveTail => (hd NULL (rev xs), removelast xs)
  | PeekHead => (hd NULL xs, xs)
  | PeekTail => (hd NULL (rev xs), xs)
  | Next node => (next_after node xs, xs)
  | Prev node => (next_after node (rev xs), xs)
  end.

Fixpoint spec_ops (ops : list list_op) (xs : list Z) : list Z * list Z :=
  match ops with
  | [] => ([], xs)
  | op :: ops' =>
      let '(r, xs) := spec_op op xs in let '(rs, xs) := spec_ops ops' xs in (r :: rs, xs)
  end.

(** What a caller owes: a node added is not in the list, a node named is. *)
Definition legal (head : Z) (nodes : gset Z) (op : list_op) (xs : list Z) : Prop :=
  match op with
  | AddHead node | AddTail node => node ∈ nodes /\ node <> head /\ node ∉ xs
  | AddAfter p node => p ∈ xs /\ node ∈ nodes /\ node <> head /\ node ∉ xs
  | AddBefore n node => n ∈ xs /\ node ∈ nodes /\ node <> head /\ node ∉ xs
  | RemoveNode node | Next node | Prev node => node ∈ xs
  | _ => True
  end.

Fixpoint all_legal (head : Z) (nodes : gset Z) (ops : list list_op) (xs : list Z) : Prop :=
  match ops with
  | [] => True
  | op :: ops' => legal head nodes op xs /\ all_legal head nodes ops' (spec_op op xs).2
  end.

(** ** Representation *)

(** The arrows of a path from [a] through [xs] to [b]. *)
Fixpoint edges (a : Z) (xs : list Z) (b : Z) : list (Z * Z) :=
  match xs with
  | [] => [(a, b)]
  | x :: rest => (a, x) :: edges x rest b
  end.

Definition linked (h : heap) (e : Z * Z) : Prop :=
  next <$> h !! e.1 = Some e.2 /\ prev <$> h !! e.2 = Some e.1.

(** [head] is the head of a circle through [xs]. *)
Record list_rep (h : heap) (head : Z) (xs : list Z) : Prop := {
  rep_nodup : NoDup (head :: xs);
  rep_linked : Forall (linked h) (edges head xs head)
}.

Lemma edges_sources a xs b : map fst (edges a xs b) = a :: xs.
Proof. revert a. induction xs as [|x xs IH]; intros a; simpl; [done|]. by rewrite IH. Qed.

Lemma edges_targets a xs b : map snd (edges a xs b) = xs ++ [b].
Proof. revert a. induction xs as [|x xs IH]; intros a; simpl; [done|]. by rewrite IH. Qed.

Lemma last_default (x : Z) xs a b : List.last (x :: xs) a = List.last (x :: xs) b.
Proof. revert x. induction xs as [|y xs IH]; intros x; [done|]. apply (IH y). Qed.

(** Where a node goes in between two others. *)
Lemma edges_splice a xs ys b node :
  exists E1 E2 p n,
    edges a (xs ++ ys) b = E1 ++ (p, n) :: E2
    /\ edges a (xs ++ node :: ys) b = E1 ++ (p, node) :: (node, n) :: E2
    /\ p = List.last xs a /\ n = hd b ys.
Proof.
  revert a. induction xs as [|x xs IH]; intros a.
  - exists [], (match ys with [] => [] | y :: r => edges y r b end), a, (hd b ys).
    destruct ys; simpl; done.
  - destruct (IH x) as (E1 & E2 & p & n & H1 & H2 & Hp & Hn).
    exists ((a, x) :: E1), E2, p, n. simpl. rewrite H1, H2. split_and!; try done.
    rewrite Hp. destruct xs as [|y xs]; [done|]. by apply last_default.
Qed.

(** Equal up to what an operation writes. *)
Lemma linked_frame h h' e :
  next <$> h' !! e.1 = next <$> h !! e.1 -> prev <$> h' !! e.2 = prev <$> h !! e.2 ->
  linked h e -> linked h' e.
Proof. intros Hn Hp [? ?]. split; congruence. Qed.

Lemma NoDup_edge {A} (E1 E2 : list (A * A)) p n e :
  NoDup (map fst (E1 ++ (p, n) :: E2)) -> NoDup (map snd (E1 ++ (p, n) :: E2)) ->
  e ∈ E1 ++ E2 -> e.1 <> p /\ e.2 <> n.
Proof.
  rewrite !map_app. simpl. intros Hs Ht He.
  apply NoDup_app in Hs as (_ & Hs1 & Hs2). apply NoDup_app in Ht as (_ & Ht1 & Ht2).
  apply NoDup_cons in Hs2 as [Hs2 _]. apply NoDup_cons in Ht2 as [Ht2 _].
  apply elem_of_app in He as [He|He]; split; intros <-.
  - apply (Hs1 e.1); [by apply list_elem_of_fmap_2|by left].
  - apply (Ht1 e.2); [by apply list_elem_of_fmap_2|by left].
  - apply Hs2. by apply list_elem_of_fmap_2.
  - apply Ht2. by apply list_elem_of_fmap_2.
Qed.

(** ** Effects on the two pointers *)

Definition nxt (h : heap) (a : Z) : option Z := next <$> h !! a.
Definition prv (h : heap) (a : Z) : option Z := prev <$> h !! a.
Definition allocated (h : heap) (a : Z) : Prop := is_Some (h !! a).

Lemma linked_pointers h a b : linked h (a, b) <-> nxt h a = Some b /\ prv h b = Some a.
Proof. done. Qed.

Lemma nxt_allocated h a b : nxt h a = Some b -> allocated h a.
Proof. unfold nxt, allocated. by destruct (h !! a). Qed.

Lemma prv_allocated h a b : prv h a = Some b -> allocated h a.
Proof. unfold prv, allocated. by destruct (h !! a). Qed.

Lemma get_next_nxt h a b : nxt h a = Some b -> get_next a h = Done b.
Proof.
  unfold nxt, get_next, get_node. destruct (h !! a); simpl; [|done]. by injection 1 as ->.
Qed.

Lemma get_prev_prv h a b : prv h a = Some b -> get_prev a h = Done b.
Proof.
  unfold prv, get_prev, get_node. destruct (h !! a); simpl; [|done]. by injection 1 as ->.
Qed.

(** [h'] is [h] with the next pointers [N] and the previous pointers [P]. *)
Record rewired (h h' : heap) (N P : Z -> option Z) : Prop := {
  rewired_dom : forall a, allocated h' a <-> allocated h a;
  rewired_nxt : forall a, nxt h' a = N a;
  rewired_prv : forall a, prv h' a = P a
}.

(** A pointer function changed at one place. *)
Definition at_ (f : Z -> option Z) (p v : Z) : Z -> option Z :=
  fun a => if decide (a = p) then Some v else f a.

Lemma at_same f p v : at_ f p v p = Some v.
Proof. unfold at_. by rewrite decide_True. Qed.

Lemma at_other f p v a : a <> p -> at_ f p v a = f a.
Proof. intros Hne. unfold at_. by rewrite decide_False. Qed.

Lemma set_next_rewired h h0 N P p v :
  rewired h0 h N P -> allocated h0 p ->
  exists h', set_next p v h = Done h' /\ rewired h0 h' (at_ N p v) P.
Proof.
  intros [Hd Hn Hp] Ha. apply Hd in Ha as [n Hlk]. unfold set_next, get_node. rewrite Hlk. simpl.
  eexists. split; [reflexivity|]. constructor.
  - intros a. rewrite <- Hd. unfold allocated. destruct (decide (a = p)) as [->|Hne].
    + rewrite lookup_insert_eq, Hlk. by split; eexists.
    + by rewrite lookup_insert_ne.
  - intros a. unfold nxt, at_. destruct (decide (a = p)) as [->|Hne].
    + by rewrite lookup_insert_eq.
    + rewrite lookup_insert_ne by done. apply Hn.
  - intros a. rewrite <- Hp. unfold prv. destruct (decide (a = p)) as [->|Hne].
    + by rewrite lookup_insert_eq, Hlk.
    + by rewrite lookup_insert_ne.
Qed.

Lemma set_prev_rewired h h0 N P p v :
  rewired h0 h N P -> allocated h0 p ->
  exists h', set_prev p v h = Done h' /\ rewired h0 h' N (at_ P p v).
Proof.
  intros [Hd Hn Hp] Ha. apply Hd in Ha as [n Hlk]. unfold set_prev, get_node. rewrite Hlk. simpl.
  eexists. split; [reflexivity|]. constructor.
  - intros a. rewrite <- Hd. unfold allocated. destruct (decide (a = p)) as [->|Hne].
    + rewrite lookup_insert_eq, Hlk. by split; eexists.
    + by rewrite lookup_insert_ne.
  - intros a. rewrite <- Hn. unfold nxt. destruct (decide (a = p)) as [->|Hne].
    + by rewrite lookup_insert_eq, Hlk.
    + by rewrite lookup_insert_ne.
  - intros a. unfold prv, at_. destruct (decide (a = p)) as [->|Hne].
    + by rewrite lookup_insert_eq.
    + rewrite lookup_insert_ne by done. apply Hp.
Qed.

Lemma get_next_rewired h h0 N P a b :
  rewired h0 h N P -> N a = Some b -> get_next a h = Done b.
Proof. intros [_ Hn _] Ha. apply get_next_nxt. by rewrite Hn. Qed.

Lemma get_prev_rewired h h0 N P a b :
  rewired h0 h N P -> P a = Some b -> get_prev a h = Done b.
Proof. intros [_ _ Hp] Ha. apply get_prev_prv. by rewrite Hp. Qed.

Lemma rewired_start h : rewired h h (nxt h) (prv h).
Proof. by constructor. Qed.

(** One step of a list operation, against the current [rewired] fact. *)
Ltac pointer_step :=
  lazymatch goal with
  | R : rewired ?h0 ?h ?N ?P |- context [set_next ?p ?v ?h] =>
      let h' := fresh "h" in let R' := fresh "R" in
      destruct (set_next_rewired h h0 N P p v R ltac:(assumption)) as (h' & -> & R');
      clear R; cbn [bind_result]
  | R : rewired ?h0 ?h ?N ?P |- context [set_prev ?p ?v ?h] =>
      let h' := fresh "h" in let R' := fresh "R" in
      destruct (set_prev_rewired h h0 N P p v R ltac:(assumption)) as (h' & -> & R');
      clear R; cbn [bind_result]
  | R : rewired ?h0 ?h ?N ?P |- context [get_next ?a ?h] =>
      erewrite (get_next_rewired h h0 N P a _ R)
        by (rewrite ?at_other by congruence; rewrite ?at_same; eassumption || reflexivity);
      cbn [bind_result]
  | R : rewired ?h0 ?h ?N ?P |- context [get_prev ?a ?h] =>
      erewrite (get_prev_rewired h h0 N P a _ R)
        by (rewrite ?at_other by congruence; rewrite ?at_same; eassumption || reflexivity);
      cbn [bind_result]
  end.

(** The four insertions: a node between neighbours [p] and [n]. *)
Definition inserted (h h' : heap) (p n node : Z) : Prop :=
  rewired h h' (at_ (at_ (nxt h) node n) p node) (at_ (at_ (prv h) node p) n node).

Lemma link_neighbours_ok h0 h p n node :
  rewired h0 h (at_ (nxt h0) node n) (at_ (prv h0) node p) ->
  allocated h0 p -> allocated h0 n -> node <> p -> node <> n ->
  exists h', link_neighbours node h = Done h' /\ inserted h0 h' p n node.
Proof.
  intros R Hp Hn Hnp Hnn. unfold link_neighbours. do 4 pointer_step. by eexists.
Qed.

Lemma add_after_ok h p n node :
  nxt h p = Some n -> allocated h n -> allocated h node -> node <> p -> node <> n ->
  exists h', __list_add_after p node h = Done (node, h') /\ inserted h h' p n node.
Proof.
  intros Hpn Hn Hnode Hnp Hnn. pose proof (nxt_allocated _ _ _ Hpn) as Hp.
  pose proof (rewired_start h) as R. unfold __list_add_after. do 3 pointer_step.
  destruct (link_neighbours_ok _ _ _ _ _ R Hp Hn Hnp Hnn) as (h' & -> & Hi). by exists h'.
Qed.

Lemma add_before_ok h p n node :
  prv h n = Some p -> allocated h p -> allocated h node -> node <> p -> node <> n ->
  exists h', __list_add_before n node h = Done (node, h') /\ inserted h h' p n node.
Proof.
  intros Hpn Hp Hnode Hnp Hnn. pose proof (prv_allocated _ _ _ Hpn) as Hn.
  pose proof (rewired_start h) as R. unfold __list_add_before. do 3 pointer_step.
  destruct (link_neighbours_ok _ _ _ _ _ R Hp Hn Hnp Hnn) as (h' & -> & Hi). by exists h'.
Qed.

(** Removal: the neighbours of [node] point at each other. *)
Lemma unlink_ok h p n node :
  linked h (p, node) -> linked h (node, n) -> node <> p -> node <> n ->
  exists h', unlink node h = Done h' /\ rewired h h' (at_ (nxt h) p n) (at_ (prv h) n p).
Proof.
  intros [Hn1 Hp1] [Hn2 Hp2] Hnp Hnn.
  change (nxt h p = Some node) in Hn1. change (prv h node = Some p) in Hp1.
  change (nxt h node = Some n) in Hn2. change (prv h n = Some node) in Hp2.
  pose proof (nxt_allocated _ _ _ Hn1) as Hp. pose proof (prv_allocated _ _ _ Hp2) as Hn.
  pose proof (rewired_start h) as R. unfold unlink. do 6 pointer_step. by eexists.
Qed.

(** ** The circle *)

Lemma splice_linked h head xs ys :
  list_rep h head (xs ++ ys) ->
  linked h (List.last xs head, hd head ys).
Proof.
  intros [_ Hl]. destruct (edges_splice head xs ys head 0) as (E1 & E2 & p & n & He & _ & -> & ->).
  rewrite He in Hl. apply Forall_app in Hl as [_ Hl]. by apply Forall_cons in Hl as [Hl _].
Qed.

Lemma member_linked h head xs node ys :
  list_rep h head (xs ++ node :: ys) ->
  linked h (List.last xs head, node) /\ linked h (node, hd head ys).
Proof.
  intros [_ Hl].
  destruct (edges_splice head xs ys head node) as (E1 & E2 & p & n & _ & He & -> & ->).
  rewrite He in Hl. apply Forall_app in Hl as [_ Hl].
  apply Forall_cons in Hl as [H1 Hl]. by apply Forall_cons in Hl as [H2 _].
Qed.

Lemma last_in (xs : list Z) a : List.last xs a ∈ a :: xs.
Proof.
  induction xs as [|x xs IH]; [by left|]. destruct xs as [|y xs]; [right; by left|].
  change (List.last (x :: y :: xs) a) with (List.last (y :: xs) a).
  apply elem_of_cons in IH as [->|IH]; [by left|]. right. by right.
Qed.

Lemma hd_in (xs : list Z) a : hd a xs ∈ a :: xs.
Proof. destruct xs; [by left|right; by left]. Qed.

(** The arrows on both sides of one arrow survive a change of its two ends. *)
Lemma frame_edges h h' head zs E1 E2 p n :
  NoDup (head :: zs) -> edges head zs head = E1 ++ (p, n) :: E2 ->
  (forall a, a ∈ head :: zs -> a <> p -> nxt h' a = nxt h a) ->
  (forall b, b ∈ head :: zs -> b <> n -> prv h' b = prv h b) ->
  Forall (linked h) E1 -> Forall (linked h) E2 -> Forall (linked h') E1 /\ Forall (linked h') E2.
Proof.
  intros Hnd He HN HP H1 H2.
  assert (Hs : NoDup (map fst (E1 ++ (p, n) :: E2))) by by rewrite <- He, edges_sources.
  assert (Ht : NoDup (map snd (E1 ++ (p, n) :: E2)))
    by (rewrite <- He, edges_targets; by rewrite Permutation_app_comm).
  assert (Hother : forall e, e ∈ E1 ++ E2 -> linked h e -> linked h' e).
  { intros e Hmem [Hle1 Hle2]. destruct (NoDup_edge _ _ _ _ e Hs Ht Hmem) as [Hp Hn].
    assert (Hin : e ∈ edges head zs head)
      by (rewrite He, elem_of_app, elem_of_cons; rewrite elem_of_app in Hmem; tauto).
    assert (He1 : e.1 ∈ head :: zs)
      by (rewrite <- (edges_sources head zs head); by apply list_elem_of_fmap_2).
    assert (He2 : e.2 ∈ zs ++ [head])
      by (rewrite <- (edges_targets head zs head); by apply list_elem_of_fmap_2).
    rewrite Permutation_app_comm in He2. split.
    - change (nxt h' e.1 = Some e.2). by rewrite HN.
    - change (prv h' e.2 = Some e.1). by rewrite HP. }
  rewrite Forall_forall in H1, H2.
  split; apply Forall_forall; intros e Hmem; apply Hother; auto; rewrite elem_of_app; tauto.
Qed.

Lemma rep_insert h h' head xs ys node :
  list_rep h head (xs ++ ys) -> node <> head -> node ∉ xs ++ ys ->
  inserted h h' (List.last xs head) (hd head ys) node ->
  list_rep h' head (xs ++ node :: ys).
Proof.
  intros [Hnd Hl] Hnh Hin [_ HN HP].
  destruct (edges_splice head xs ys head node) as (E1 & E2 & p & n & He & He' & Hp & Hn).
  rewrite <- Hp, <- Hn in HN, HP. constructor.
  { rewrite <- Permutation_middle. apply NoDup_cons in Hnd as [? ?].
    apply NoDup_cons. split; [|by apply NoDup_cons]. rewrite elem_of_cons.
    intros [Heq|?]; [by apply Hnh|done]. }
  assert (Hnp : node <> p /\ node <> n).
  { pose proof (last_in xs head) as H1. pose proof (hd_in ys head) as H2.
    rewrite <- Hp in H1. rewrite <- Hn in H2. rewrite elem_of_cons in H1, H2.
    rewrite elem_of_app in Hin. split; intros Heq; rewrite <- Heq in *; tauto. }
  assert (Hfresh : forall a, a ∈ head :: xs ++ ys -> a <> node)
    by (intros a Ha ->; rewrite elem_of_cons in Ha; tauto).
  rewrite He in Hl. apply Forall_app in Hl as [Hl1 Hl2]. apply Forall_cons in Hl2 as [_ Hl2].
  destruct (frame_edges h h' head (xs ++ ys) E1 E2 p n) as [H1 H2]; try done.
  { intros a Ha Hne. rewrite HN, !at_other by auto. done. }
  { intros a Ha Hne. rewrite HP, !at_other by auto. done. }
  rewrite He'. apply Forall_app. split; [done|].
  apply Forall_cons; split; [|apply Forall_cons; split; [|done]]; split; simpl.
  - change (nxt h' p = Some node). by rewrite HN, at_same.
  - change (prv h' node = Some p). rewrite HP, at_other by tauto. by rewrite at_same.
  - change (nxt h' node = Some n). rewrite HN, at_other by tauto. by rewrite at_same.
  - change (prv h' n = Some node). by rewrite HP, at_same.
Qed.

Lemma rep_remove h h' head xs ys node :
  list_rep h head (xs ++ node :: ys) ->
  (forall a, a <> node ->
     nxt h' a = at_ (nxt h) (List.last xs head) (hd head ys) a
     /\ prv h' a = at_ (prv h) (hd head ys) (List.last xs head) a) ->
  list_rep h' head (xs ++ ys).
Proof.
  intros [Hnd Hl] Hh'.
  destruct (edges_splice head xs ys head node) as (E1 & E2 & p & n & He & He' & Hp & Hn).
  rewrite <- Hp, <- Hn in Hh'. rewrite <- Permutation_middle in Hnd.
  apply NoDup_cons in Hnd as [Hhead Hnd]. apply NoDup_cons in Hnd as [Hnode Hnd].
  rewrite elem_of_cons in Hhead.
  assert (Hnd' : NoDup (head :: xs ++ ys)) by (apply NoDup_cons; tauto).
  assert (Hfresh : forall a, a ∈ head :: xs ++ ys -> a <> node)
    by (intros a Ha ->; rewrite elem_of_cons in Ha; destruct Ha as [->|?]; tauto).
  rewrite He' in Hl. apply Forall_app in Hl as [Hl1 Hl2].
  apply Forall_cons in Hl2 as [_ Hl2]. apply Forall_cons in Hl2 as [_ Hl2].
  destruct (frame_edges h h' head (xs ++ ys) E1 E2 p n) as [H1 H2]; try done.
  { intros a Ha Hne. rewrite (proj1 (Hh' a (Hfresh a Ha))). by apply at_other. }
  { intros a Ha Hne. rewrite (proj2 (Hh' a (Hfresh a Ha))). by apply at_other. }
  constructor; [done|]. rewrite He. apply Forall_app. split; [done|].
  apply Forall_cons. split; [|done].
  assert (Hpin : p ∈ head :: xs ++ ys).
  { rewrite Hp. pose proof (last_in xs head) as H3. rewrite elem_of_cons, elem_of_app.
    rewrite elem_of_cons in H3. tauto. }
  assert (Hnin : n ∈ head :: xs ++ ys).
  { rewrite Hn. pose proof (hd_in ys head) as H3. rewrite elem_of_cons, elem_of_app.
    rewrite elem_of_cons in H3. tauto. }
  split; simpl.
  - change (nxt h' p = Some n). rewrite (proj1 (Hh' p (Hfresh p Hpin))). apply at_same.
  - change (prv h' n = Some p). rewrite (proj2 (Hh' n (Hfresh n Hnin))). apply at_same.
Qed.

(** ** Reading the circle *)

Lemma rep_next_head h head xs : list_rep h head xs -> get_next head h = Done (hd head xs).
Proof. intros H. apply (get_next_nxt h), (proj1 (splice_linked h head [] xs H)). Qed.

Lemma rep_prev_head h head xs : list_rep h head xs -> get_prev head h = Done (List.last xs head).
Proof.
  intros H. rewrite <- (app_nil_r xs) in H.
  apply (get_prev_prv h), (proj2 (splice_linked h head xs [] H)).
Qed.

Lemma rep_next h head xs x ys :
  list_rep h head (xs ++ x :: ys) -> get_next x h = Done (hd head ys).
Proof. intros H. apply get_next_nxt, (proj2 (member_linked _ _ _ _ _ H)). Qed.

Lemma rep_prev h head xs x ys :
  list_rep h head (xs ++ x :: ys) -> get_prev x h = Done (List.last xs head).
Proof. intros H. apply get_prev_prv, (proj1 (member_linked _ _ _ _ _ H)). Qed.

Lemma rep_member h head xs x : list_rep h head xs -> x ∈ xs -> x <> head.
Proof. intros [Hnd _] Hx ->. by apply NoDup_cons in Hnd as [? _]. Qed.

Lemma rep_hd h head xs d : list_rep h head xs -> xs <> [] -> hd head xs = hd d xs /\ hd d xs <> head.
Proof.
  intros Hrep Hne. destruct xs as [|x xs]; [done|]. split; [done|].
  eapply rep_member; [done|]. by left.
Qed.

Lemma last_in_nonempty (xs : list Z) d : xs <> [] -> List.last xs d ∈ xs.
Proof.
  intros Hne. destruct xs as [|x xs]; [done|]. rewrite (last_default x xs d x).
  pose proof (last_in (x :: xs) x) as Hin. apply elem_of_cons in Hin as [->|?]; [by left|done].
Qed.

Lemma hd_rev (xs : list Z) d : hd d (rev xs) = List.last xs d.
Proof.
  induction xs as [|x xs IH] using rev_ind; [done|]. by rewrite rev_unit, List.last_last.
Qed.

Lemma rep_last h head xs d :
  list_rep h head xs -> xs <> [] -> List.last xs head = List.last xs d /\ List.last xs d <> head.
Proof.
  intros Hrep Hne. split; [destruct xs; [done|by apply last_default]|].
  eapply rep_member; [done|]. by apply last_in_nonempty.
Qed.

Lemma rep_is_empty h head xs :
  list_rep h head xs -> list_is_empty head h = Done (match xs with [] => true | _ => false end).
Proof.
  intros Hrep. unfold list_is_empty. rewrite (rep_next_head _ _ _ Hrep). simpl. f_equal.
  destruct xs as [|x xs]; simpl; [apply Z.eqb_refl|]. apply Z.eqb_neq.
  eapply rep_member; [done|]. by left.
Qed.

Lemma in_rev_elem (xs : list Z) x : x ∈ xs <-> x ∈ rev xs.
Proof. rewrite !list_elem_of_In. apply in_rev. Qed.

(** The sequence operations at a named element. *)
Lemma split_member h head xs x :
  list_rep h head xs -> x ∈ xs -> exists ys zs, xs = ys ++ x :: zs /\ (x ∉ ys) /\ (x ∉ zs).
Proof.
  intros [Hnd _] Hin. apply list_elem_of_split in Hin as (ys & zs & ->).
  exists ys, zs. apply NoDup_cons in Hnd as [_ Hnd].
  apply NoDup_app in Hnd as (_ & H1 & H2). apply NoDup_cons in H2 as [H2 _].
  split; [done|]. split; [|done]. intros Hin. apply (H1 x Hin). by left.
Qed.

Lemma insert_after_split p node ys zs :
  p ∉ ys -> insert_after p node (ys ++ p :: zs) = (ys ++ [p]) ++ node :: zs.
Proof.
  induction ys as [|y ys IH]; intros Hp; simpl; [by rewrite Z.eqb_refl|].
  rewrite not_elem_of_cons in Hp. rewrite (proj2 (Z.eqb_neq y p)) by (intros ->; tauto).
  by rewrite IH by tauto.
Qed.

Lemma insert_before_split n node ys zs :
  n ∉ ys -> insert_before n node (ys ++ n :: zs) = ys ++ node :: n :: zs.
Proof.
  induction ys as [|y ys IH]; intros Hp; simpl; [by rewrite Z.eqb_refl|].
  rewrite not_elem_of_cons in Hp. rewrite (proj2 (Z.eqb_neq y n)) by (intros ->; tauto).
  by rewrite IH by tauto.
Qed.

Lemma remove_one_split x ys zs : x ∉ ys -> remove_one x (ys ++ x :: zs) = ys ++ zs.
Proof.
  induction ys as [|y ys IH]; intros Hp; simpl; [by rewrite Z.eqb_refl|].
  rewrite not_elem_of_cons in Hp. rewrite (proj2 (Z.eqb_neq y x)) by (intros ->; tauto).
  by rewrite IH by tauto.
Qed.

Lemma next_after_split x ys zs : x ∉ ys -> next_after x (ys ++ x :: zs) = hd NULL zs.
Proof.
  induction ys as [|y ys IH]; intros Hp; simpl; [by rewrite Z.eqb_refl|].
  rewrite not_elem_of_cons in Hp. rewrite (proj2 (Z.eqb_neq y x)) by (intros ->; tauto). tauto.
Qed.

(** ** Each operation *)

Definition step_refines (h : heap) (head : Z) (xs : list Z) (op : list_op) : Prop :=
  exists h', run_op head op h = Done ((spec_op op xs).1, h')
    /\ list_rep h' head (spec_op op xs).2 /\ forall a, allocated h' a <-> allocated h a.

(** An operation that only reads. *)
Lemma read_refines h head xs op :
  list_rep h head xs -> (spec_op op xs).2 = xs ->
  run_op head op h = Done ((spec_op op xs).1, h) -> step_refines h head xs op.
Proof. intros Hrep Hxs Hop. exists h. by rewrite Hxs. Qed.

(** An insertion between the last of [xs] and the first of [ys]. *)
Lemma insert_refines h head xs ys op node p n :
  list_rep h head (xs ++ ys) -> node <> head -> node ∉ xs ++ ys -> allocated h node ->
  spec_op op (xs ++ ys) = (node, xs ++ node :: ys) ->
  p = List.last xs head -> n = hd head ys ->
  (nxt h p = Some n -> prv h n = Some p -> allocated h p -> allocated h n ->
   node <> p -> node <> n ->
   exists h', run_op head op h = Done (node, h') /\ inserted h h' p n node) ->
  step_refines h head (xs ++ ys) op.
Proof.
  intros Hrep Hnh Hin Hal Hspec -> -> Hop.
  pose proof (splice_linked _ _ _ _ Hrep) as [Hn Hp].
  assert (Hnp : node <> List.last xs head /\ node <> hd head ys).
  { pose proof (last_in xs head) as H1. pose proof (hd_in ys head) as H2.
    rewrite elem_of_cons in H1, H2. rewrite elem_of_app in Hin.
    split; intros Heq; rewrite <- Heq in *; tauto. }
  destruct Hop as (h' & Hop & Hi); try tauto; try done.
  - eapply nxt_allocated, Hn.
  - eapply prv_allocated, Hp.
  - exists h'. rewrite Hspec. split_and!; [done|by eapply rep_insert|]. apply Hi.
Qed.

(** A removal of [node]; [clear] is what happens to the node itself. *)
Lemma unlink_refines h head xs ys node :
  list_rep h head (xs ++ node :: ys) ->
  exists h1, unlink node h = Done h1 /\ list_rep h1 head (xs ++ ys)
    /\ rewired h h1 (at_ (nxt h) (List.last xs head) (hd head ys))
                    (at_ (prv h) (hd head ys) (List.last xs head)).
Proof.
  intros Hrep. destruct (member_linked _ _ _ _ _ Hrep) as [H1 H2].
  assert (Hne : node <> List.last xs head /\ node <> hd head ys).
  { destruct Hrep as [Hnd _]. rewrite <- Permutation_middle in Hnd.
    apply NoDup_cons in Hnd as [Hh Hnd]. apply NoDup_cons in Hnd as [Hnode _].
    pose proof (last_in xs head) as H3. pose proof (hd_in ys head) as H4.
    rewrite elem_of_cons in H3, H4, Hh. rewrite elem_of_app in Hnode, Hh.
    assert (Hne : node <> head) by (intros Heq; apply Hh; by left).
    split; intros Heq; rewrite <- Heq in *; tauto. }
  destruct (unlink_ok h _ _ node H1 H2 (proj1 Hne) (proj2 Hne)) as (h1 & -> & Hr).
  exists h1. split_and!; [done| |done]. eapply rep_remove; [done|]. intros a _.
  split; apply Hr.
Qed.

Lemma remove_node_refines h head xs node :
  list_rep h head xs -> node ∈ xs -> step_refines h head xs (RemoveNode node).
Proof.
  intros Hrep Hin. destruct (split_member _ _ _ _ Hrep Hin) as (ys & zs & Hxs & H1 & H2).
  rewrite Hxs in *. destruct (unlink_refines _ _ _ _ _ Hrep) as (h1 & Hu & Hrep1 & R1).
  unfold step_refines. simpl. unfold __list_remove_node. rewrite Hu. cbn [bind_result].
  destruct (member_linked _ _ _ _ _ Hrep) as [_ [Hal _]]. apply nxt_allocated in Hal.
  pose proof (rewired_start h1) as R2.
  assert (Hal1 : allocated h1 node) by by apply R1.
  do 2 pointer_step. eexists. split; [done|].
  assert (Hdom : forall a, allocated h2 a <-> allocated h a)
    by (intros a; etransitivity; [apply R0|apply R1]).
  split; [|done]. rewrite remove_one_split by done.
  apply (rep_remove h h2 head ys zs node Hrep). intros a Hne.
  split.
  - rewrite (rewired_nxt _ _ _ _ R0), at_other by done. apply R1.
  - rewrite (rewired_prv _ _ _ _ R0), at_other by done. apply R1.
Qed.

Lemma remove_head_refines h head xs : list_rep h head xs -> step_refines h head xs RemoveHead.
Proof.
  intros Hrep. unfold step_refines. simpl. unfold __list_remove_head.
  rewrite (rep_is_empty _ _ _ Hrep). destruct xs as [|x xs]; simpl; [by exists h|].
  rewrite (rep_next_head _ _ _ Hrep). simpl.
  destruct (unlink_refines h head [] xs x Hrep) as (h1 & -> & Hrep1 & R1). simpl.
  exists h1. split_and!; [done|done|apply R1].
Qed.

Lemma remove_tail_refines h head xs : list_rep h head xs -> step_refines h head xs RemoveTail.
Proof.
  intros Hrep. unfold step_refines. simpl. unfold __list_remove_tail.
  rewrite (rep_is_empty _ _ _ Hrep).
  induction xs as [|x xs _] using rev_ind; [by exists h|].
  assert (Hx : match xs ++ [x] with [] => true | _ => false end = false) by by destruct xs.
  rewrite Hx, (rep_prev_head _ _ _ Hrep), List.last_last, rev_unit, removelast_last. simpl.
  destruct (unlink_refines h head xs [] x Hrep) as (h1 & -> & Hrep1 & R1). simpl.
  rewrite app_nil_r in Hrep1. exists h1. split_and!; [done|done|apply R1].
Qed.

Lemma next_refines h head xs node :
  list_rep h head xs -> node ∈ xs -> step_refines h head xs (Next node).
Proof.
  intros Hrep Hin. destruct (split_member _ _ _ _ Hrep Hin) as (ys & zs & -> & H1 & H2).
  apply read_refines; [done|done|]. simpl. unfold keep_heap, __list_next.
  rewrite (rep_next _ _ _ _ _ Hrep), next_after_split by done. simpl.
  destruct zs as [|z zs]; simpl; [by rewrite Z.eqb_refl|].
  rewrite (proj2 (Z.eqb_neq z head)); [done|].
  eapply rep_member; [done|]. rewrite elem_of_app, !elem_of_cons. tauto.
Qed.

Lemma prev_refines h head xs node :
  list_rep h head xs -> node ∈ xs -> step_refines h head xs (Prev node).
Proof.
  intros Hrep Hin. destruct (split_member _ _ _ _ Hrep Hin) as (ys & zs & -> & H1 & H2).
  apply read_refines; [done|done|]. simpl. unfold keep_heap, __list_prev.
  rewrite (rep_prev _ _ _ _ _ Hrep). simpl. rewrite rev_app_distr. simpl.
  rewrite <- app_assoc. simpl.
  rewrite next_after_split by (rewrite <- in_rev_elem; tauto).
  rewrite hd_rev. destruct ys as [|y ys]; [by rewrite Z.eqb_refl|].
  rewrite (last_default y ys head NULL), (proj2 (Z.eqb_neq _ head)); [done|].
  eapply rep_member; [done|]. rewrite elem_of_app. left. by apply last_in_nonempty.
Qed.

Lemma peek_refines h head xs op :
  list_rep h head xs -> op = PeekHead \/ op = PeekTail \/ op = IsEmpty ->
  step_refines h head xs op.
Proof.
  intros Hrep Hop. apply read_refines; [done| |].
  { by destruct Hop as [-> | [-> | ->]]. }
  destruct Hop as [-> | [-> | ->]]; simpl;
    unfold keep_heap, __list_peek_head, __list_peek_tail; rewrite (rep_is_empty _ _ _ Hrep);
    destruct xs as [|x xs]; try done.
  - cbn [bind_result]. by rewrite (rep_next_head _ _ _ Hrep).
  - cbn [bind_result]. rewrite (rep_prev_head _ _ _ Hrep), hd_rev.
    by rewrite (last_default x xs head NULL).
Qed.

Lemma insert_op_refines h head nodes xs op node :
  list_rep h head xs -> (forall a, a ∈ nodes -> allocated h a) -> legal head nodes op xs ->
  (op = AddHead node \/ op = AddTail node \/ (exists p, op = AddAfter p node)
   \/ exists n, op = AddBefore n node) ->
  step_refines h head xs op.
Proof.
  intros Hrep Hal Hleg [-> | [-> | [[p ->] | [n ->]]]]; simpl in Hleg.
  - destruct Hleg as (Hn & Hh & Hx).
    apply (insert_refines h head [] xs _ node head (hd head xs)); auto.
    intros. by apply add_after_ok; auto.
  - destruct Hleg as (Hn & Hh & Hx). rewrite <- (app_nil_r xs) in Hrep, Hx |- *.
    apply (insert_refines h head xs [] _ node (List.last xs head) head); auto.
    { simpl. by rewrite app_nil_r. }
    intros. by apply add_before_ok; auto.
  - destruct Hleg as (Hp & Hn & Hh & Hx).
    destruct (split_member _ _ _ _ Hrep Hp) as (ys & zs & -> & H1 & _).
    assert (Happ : ys ++ p :: zs = (ys ++ [p]) ++ zs) by by rewrite <- app_assoc.
    rewrite Happ in Hrep, Hx |- *.
    apply (insert_refines h head (ys ++ [p]) zs _ node p (hd head zs)); auto.
    { simpl. by rewrite <- Happ, insert_after_split. }
    { by rewrite List.last_last. }
    intros. by apply add_after_ok; auto.
  - destruct Hleg as (Hp & Hn & Hh & Hx).
    destruct (split_member _ _ _ _ Hrep Hp) as (ys & zs & -> & H1 & _).
    apply (insert_refines h head ys (n :: zs) _ node (List.last ys head) n); auto.
    { simpl. by rewrite insert_before_split. }
    intros. by apply add_before_ok; auto.
Qed.

Lemma op_refines h head nodes xs op :
  list_rep h head xs -> (forall a, a ∈ nodes -> allocated h a) -> legal head nodes op xs ->
  step_refines h head xs op.
Proof.
  intros Hrep Hal Hleg.
  destruct op; eauto using peek_refines, remove_node_refines, remove_head_refines,
    remove_tail_refines, next_refines, prev_refines;
  eapply insert_op_refines; eauto 6.
Qed.

(** [list_for_each] visits the whole sequence and stops. *)
Lemma for_each_from h head xs ys :
  list_rep h head (xs ++ ys) ->
  list_for_each (S (length ys)) head (hd head ys) h = Some (Done ys).
Proof.
  revert xs. induction ys as [|y ys IH]; intros xs Hrep; simpl; [by rewrite Z.eqb_refl|].
  rewrite (proj2 (Z.eqb_neq y head)).
  2: { eapply rep_member; [done|]. rewrite elem_of_app, elem_of_cons. tauto. }
  rewrite (rep_next _ _ _ _ _ Hrep).
  specialize (IH (xs ++ [y])). rewrite <- app_assoc in IH. simpl in IH. by rewrite IH.
Qed.

(** ** Properties *)

(** C31: a sequence of list operations, whatever their order, behaves as the same
    operations on a sequence: no step touches memory outside the nodes, the results
    are the ones the sequence gives, the circle still represents the sequence, and
    a [list_for_each] over it visits exactly that sequence and ends. *)
Theorem list_refines head nodes ops xs h :
  list_rep h head xs -> (forall a, a ∈ nodes -> allocated h a) ->
  all_legal head nodes ops xs ->
  exists h', run_ops head ops h = Done ((spec_ops ops xs).1, h')
    /\ list_rep h' head (spec_ops ops xs).2
    /\ (first <-- get_next head h';;
        match list_for_each (S (length (spec_ops ops xs).2)) head first h' with
        | Some visited => visited | None => Fault OutOfBounds
        end) = Done (spec_ops ops xs).2.
Proof.
  revert xs h. induction ops as [|op ops IH]; intros xs h Hrep Hal Hleg.
  - exists h. split_and!; [done|done|].
    cbn [spec_ops snd]. rewrite (rep_next_head _ _ _ Hrep).
    cbn [bind_result]. by rewrite (for_each_from h head [] xs Hrep).
  - destruct Hleg as [Hop Hops].
    destruct (op_refines h head nodes xs op Hrep Hal Hop) as (h1 & Hrun & Hrep1 & Hdom).
    destruct (IH _ h1 Hrep1 (fun a Ha => proj2 (Hdom a) (Hal a Ha)) Hops)
      as (h' & Hruns & Hrest).
    exists h'. simpl. rewrite Hrun. cbn [bind_result]. rewrite Hruns. cbn [bind_result].
    destruct (spec_op op xs) as [r xs1]. simpl in *.
    by destruct (spec_ops ops xs1) as [rs xs2].
Qed.

Definition nodes_example : heap :=
  <[100 := Build_list_node 5 5]> (<[101 := Build_list_node 5 5]>
    (<[102 := Build_list_node 5 5]> (<[50 := Build_list_node 50 50]> ∅))).

Definition ops_example : list list_op :=
  [AddTail 100; AddHead 101; AddAfter 101 102; Next 102; RemoveNode 100; AddBefore 102 100;
   PeekTail; RemoveHead; RemoveTail; IsEmpty].

(** Three nodes put in, moved and taken out again. *)
Lemma list_refines_witness :
  exists h', run_ops 50 ops_example nodes_example
             = Done ([100; 101; 102; 100; 100; 100; 102; 101; 102; 0], h')
    /\ list_rep h' 50 [100].
Proof.
  destruct (list_refines 50 {[100; 101; 102]} ops_example [] nodes_example)
    as (h' & Hrun & Hrep & _).
  - constructor; [apply NoDup_singleton|]. repeat constructor.
  - intros a Ha. assert (a = 100 \/ a = 101 \/ a = 102) as [-> | [-> | ->]] by set_solver;
      eexists; reflexivity.
  - simpl. set_solver by lia.
  - exists h'. split; [exact Hrun|exact Hrep].
Defined.

(** [list_remove_tail], the macro the kernel calls, takes the first element and
    not the last: its expansion is [__list_remove_head]. *)
Theorem list_remove_tail_takes_head h head xs :
  list_rep h head xs ->
  exists h', list_remove_tail head h = Done (hd NULL xs, h') /\ list_rep h' head (tl xs).
Proof.
  intros Hrep. destruct (remove_head_refines h head xs Hrep) as (h' & Hop & Hrep' & _).
  by exists h'.
Qed.

Lemma list_remove_tail_takes_head_witness :
  exists h h1 h2, list_rep h 50 [100; 101]
    /\ __list_remove_tail 50 h = Done (101, h1) /\ list_remove_tail 50 h = Done (100, h2).
Proof.
  assert (Hrep : list_rep (<[100 := Build_list_node 50 101]> (<[101 := Build_list_node 100 50]>
    (<[50 := Build_list_node 101 100]> ∅))) 50 [100; 101]).
  { constructor; [apply (bool_decide_unpack _); reflexivity|]. repeat constructor. }
  destruct (list_remove_tail_takes_head _ _ _ Hrep) as (h2 & H2 & _).
  do 3 eexists. split; [exact Hrep|]. split; [vm_compute; reflexivity|exact H2].
Defined.
