(* ===== verification/KernelDefs.v ===== *)
(** * KernelDefs: constants the kernel's files share (software/kernel/vm_page.h, memory_map.h,
      vm_translation_map.h, vm_area_map.h) *)

From S2P Require Export Word.

#[local] Open Scope Z_scope.

Definition PAGE_SIZE : Z := 0x1000.
Definition PAGE_ALIGN (x : Z) : Z := Z.land x (lnot32 (PAGE_SIZE - 1)).

Definition PAGE_WRITABLE : Z := 2.
Definition PAGE_EXECUTABLE : Z := 4.
Definition PAGE_SUPERVISOR : Z := 8.
Definition PAGE_GLOBAL : Z := 16.

Definition PHYS_MEM_ALIAS : Z := 0xc1000000.
Definition KERNEL_HEAP_BASE : Z := 0xd0000000.
Definition INITIAL_KERNEL_STACKS : Z := 0xfffe0000.
Definition KERNEL_STACK_SIZE : Z := 0x4000.
Definition DEVICE_REG_BASE : Z := 0xffff0000.

Definition AREA_WIRED : Z := 1.
Definition AREA_WRITABLE : Z := 2.
Definition AREA_EXECUTABLE : Z := 4.

(** [assert]: a failure stops the kernel. *)
Definition kassert (b : bool) : result unit := if b then Done tt else Fault AssertFailed.

Definition page_aligned (x : Z) : Prop := x mod PAGE_SIZE = 0.

(** ** Page alignment *)

Lemma PAGE_ALIGN_mod x : is_u32 x -> PAGE_ALIGN x = x - x mod PAGE_SIZE.
Proof.
  intros Hx. unfold PAGE_ALIGN.
  change (lnot32 (PAGE_SIZE - 1)) with (Z.ldiff (Z.ones 32) (Z.ones 12)).
  change PAGE_SIZE with (2 ^ 12). rewrite <- Z.land_ones by lia.
  assert (Hsub : Z.ldiff (Z.land x (Z.ones 12)) x = 0).
  { apply Z.bits_inj'. intros i Hi. rewrite Z.ldiff_spec, Z.land_spec, Z.bits_0.
    by destruct (Z.testbit x i), (Z.testbit (Z.ones 12) i). }
  rewrite (Z.sub_nocarry_ldiff _ _ Hsub).
  apply Z.bits_inj'. intros i Hi. rewrite Z.land_spec, !Z.ldiff_spec, Z.land_spec.
  destruct (decide (i < 32)).
  - rewrite (Z.ones_spec_low 32) by lia. destruct (Z.testbit x i); simpl; [|done].
    by destruct (Z.testbit (Z.ones 12) i).
  - replace (Z.testbit x i) with false; [done|]. symmetry.
    apply (proj1 (is_unsigned_bits 32 x ltac:(lia)) Hx). lia.
Qed.

Lemma PAGE_ALIGN_spec x :
  is_u32 x -> page_aligned (PAGE_ALIGN x) /\ PAGE_ALIGN x <= x < PAGE_ALIGN x + PAGE_SIZE
    /\ 0 <= PAGE_ALIGN x.
Proof.
  intros Hx. rewrite (PAGE_ALIGN_mod x Hx). unfold page_aligned, is_u32, is_unsigned, PAGE_SIZE in *.
  Z.div_mod_to_equations. lia.
Qed.

Lemma u32_small x : 0 <= x < 2 ^ 32 -> u32 x = x.
Proof. intros. by apply u32_id. Qed.
