(* ===== verification/VmAreaMap.v ===== *)
(** * VmAreaMap: virtual memory areas (software/kernel/vm_area_map.c)

    The area list of a map is the sequence its [list_node] circle stands for (the
    operations of KernelList on it are the sequence operations used here); an area
    carries the address of its structure.  [slab_alloc]'s result, an object with
    whatever its memory held, is an argument of the functions that allocate. *)

From S2P Require Export KernelDefs.
From stdpp Require Import list.

#[local] Open Scope Z_scope.

(** ** Data *)

Inductive placement := PLACE_EXACT | PLACE_SEARCH_DOWN | PLACE_SEARCH_UP.

(** [area_ptr] is the structure's own address; [name] its 32 characters. *)
Record vm_area := {
  area_ptr : Z;
  low_address : Z;
  high_address : Z;
  cache : Z;
  cache_offset : Z;
  cache_length : Z;
  flags : Z;
  name : list Z
}.

#[export]
Instance vm_area_fields : Fields vm_area := fun a =>
  Build_vm_area (area_ptr a) (low_address a) (high_address a) (cache a) (cache_offset a)
    (cache_length a) (flags a) (name a).

Record vm_area_map := { map_low : Z; map_high : Z; area_list : list vm_area }.

#[export]
Instance vm_area_map_fields : Fields vm_area_map := fun m =>
  Build_vm_area_map (map_low m) (map_high m) (area_list m).

(** ** Operations *)

Definition alloc_area (object : vm_area) (low size : Z) : vm_area :=
  object <| low_address := low |> <| high_address := u32 (low + size - 1) |>.

(** The cursor of a search: the areas behind it, the hole's edge, the areas ahead. *)
Definition cursor : Type := list vm_area * Z * list vm_area.

(** [while (next_area && next_area->low_address < address)] *)
Fixpoint skip_up (address : Z) (before : list vm_area) (hole_start : Z) (rest : list vm_area)
    : cursor :=
  match rest with
  | next_area :: rest' =>
      if low_address next_area <? address then
        skip_up address (before ++ [next_area]) (u32 (high_address next_area + 1)) rest'
      else (before, hole_start, rest)
  | [] => (before, hole_start, [])
  end.

(** The second loop and the test for the end of the map. *)
Fixpoint hole_up (high size : Z) (before : list vm_area) (hole_start : Z) (rest : list vm_area)
    : option cursor :=
  match rest with
  | next_area :: rest' =>
      if size <=? u32 (low_address next_area - hole_start) then Some (before, hole_start, rest)
      else hole_up high size (before ++ [next_area]) (u32 (high_address next_area + 1)) rest'
  | [] => if size <=? u32 (high - hole_start + 1) then Some (before, hole_start, []) else None
  end.

Definition search_up (m : vm_area_map) (object : vm_area) (address size : Z)
    : option (vm_area * vm_area_map) :=
  if map_high m <? u32 (address + size) then None
  else
    let address := if address <? map_low m then map_low m else address in
    let address := PAGE_ALIGN address in
    match area_list m with
    | [] => let area := alloc_area object address size in Some (area, m <| area_list := [area] |>)
    | _ =>
        let '(before, hole_start, rest) := skip_up address [] (map_low m) (area_list m) in
        let hole_start := if hole_start <? address then address else hole_start in
        match hole_up (map_high m) size before hole_start rest with
        | Some (before, hole_start, rest) =>
            let area := alloc_area object hole_start size in
            Some (area, m <| area_list := before ++ area :: rest |>)
        | None => None
        end
    end.

(** Downwards the areas still ahead are a reversed list. *)
Fixpoint skip_down (address : Z) (rest : list vm_area) (hole_end : Z) (after : list vm_area)
    : cursor :=
  match rest with
  | prev_area :: rest' =>
      if address <? high_address prev_area then
        skip_down address rest' (u32 (low_address prev_area - 1)) (prev_area :: after)
      else (rest, hole_end, after)
  | [] => ([], hole_end, after)
  end.

Fixpoint hole_down (low size : Z) (rest : list vm_area) (hole_end : Z) (after : list vm_area)
    : option cursor :=
  match rest with
  | prev_area :: rest' =>
      if size <=? u32 (hole_end - high_address prev_area + 1) then Some (rest, hole_end, after)
      else hole_down low size rest' (u32 (low_address prev_area - 1)) (prev_area :: after)
  | [] => if size <=? u32 (hole_end - low + 1) then Some ([], hole_end, after) else None
  end.

Definition search_down (m : vm_area_map) (object : vm_area) (address size : Z)
    : option (vm_area * vm_area_map) :=
  if u32 (address - size) <? map_low m then None
  else
    let address := if map_high m <? address then map_high m else address in
    let address := u32 (PAGE_ALIGN (u32 (address + 1)) - 1) in
    match area_list m with
    | [] =>
        let area := alloc_area object (u32 (address - size + 1)) size in
        Some (area, m <| area_list := [area] |>)
    | _ =>
        let '(rest, hole_end, after) := skip_down address (rev (area_list m)) (map_high m) [] in
        let hole_end := if address <? hole_end then address else hole_end in
        match hole_down (map_low m) size rest hole_end after with
        | Some (rest, hole_end, after) =>
            let area := alloc_area object (u32 (hole_end - size + 1)) size in
            Some (area, m <| area_list := rev rest ++ area :: after |>)
        | None => None
        end
    end.

(** The [list_for_each] of [insert_fixed]; [Some] is the place found. *)
Fixpoint fixed_place (address size : Z) (before : list vm_area) (hole_start : Z)
    (rest : list vm_area) : option (list vm_area * list vm_area) :=
  match rest with
  | next_area :: rest' =>
      if address <? hole_start then None
      else if u32 (address + size - 1) <=? low_address next_area then Some (before, rest)
      else fixed_place address size (before ++ [next_area]) (high_address next_area) rest'
  | [] => if hole_start <=? address then Some (before, []) else None
  end.

Definition insert_fixed (m : vm_area_map) (object : vm_area) (address size : Z)
    : option (vm_area * vm_area_map) :=
  if (address <? map_low m) || (map_high m <? u32 (address + size - 1))
     || (u32 (address + size - 1) <? address) then None
  else
    let area := alloc_area object address size in
    match fixed_place address size [] (map_low m) (area_list m) with
    | Some (before, rest) => Some (area, m <| area_list := before ++ area :: rest |>)
    | None => None
    end.

Definition init_area_map (low high : Z) : vm_area_map :=
  {| map_low := PAGE_ALIGN low;
     map_high := u32 (PAGE_ALIGN (u32 (high + 1)) - 1);
     area_list := [] |}.

(** libc.c: [strlcpy] into an array; the byte after the last one copied is cleared
    even when [length] bytes have been copied. *)
Fixpoint strlcpy_loop (dest : list Z) (at_ : nat) (src : list Z) (length : nat)
    : result (list Z) :=
  let finish :=
    if decide (at_ < base.length dest)%nat then Done (<[at_ := 0]> dest) else Fault OutOfBounds in
  match src, length with
  | c :: src', S length' =>
      if decide (at_ < base.length dest)%nat
      then strlcpy_loop (<[at_ := c]> dest) (S at_) src' length'
      else Fault OutOfBounds
  | _, _ => finish
  end.

Definition strlcpy (dest src : list Z) (length : nat) : result (list Z) :=
  strlcpy_loop dest 0 src length.

(** Changing the fields of the area at [p] in place. *)
Definition update_area (p : Z) (f : vm_area -> vm_area) (m : vm_area_map) : vm_area_map :=
  m <| area_list := map (fun a => if area_ptr a =? p then f a else a) (area_list m) |>.

Definition place_area (m : vm_area_map) (object : vm_area) (address size : Z) (place : placement)
    : option (vm_area * vm_area_map) :=
  match place with
  | PLACE_EXACT => insert_fixed m object address size
  | PLACE_SEARCH_DOWN => search_down m object address size
  | PLACE_SEARCH_UP => search_up m object address size
  end.

Definition create_vm_area (m : vm_area_map) (object : vm_area) (address size : Z)
    (place : placement) (name_arg : list Z) (flags_arg : Z)
    : result (option (vm_area * vm_area_map)) :=
  let size := PAGE_ALIGN (u32 (size + PAGE_SIZE - 1)) in
  match place_area m object address size place with
  | None => Done None
  | Some (area, m) =>
      copied <-- strlcpy (name area) name_arg 32;;
      let fill (a : vm_area) :=
        a <| name := copied |> <| flags := flags_arg |> <| cache := 0 |>
          <| cache_offset := 0 |> <| cache_length := 0 |> in
      Done (Some (fill area, update_area (area_ptr area) fill m))
  end.

(** [list_remove_node] of the area at [p], wherever it is. *)
Definition destroy_vm_area (p : Z) (m : vm_area_map) : vm_area_map :=
  m <| area_list := base.filter (fun a => area_ptr a <> p) (area_list m) |>.

Definition first_area (m : vm_area_map) : option vm_area := head (area_list m).

Fixpoint lookup_area_in (areas : list vm_area) (address : Z) : option vm_area :=
  match areas with
  | [] => None
  | area :: rest =>
      if (low_address area <=? address) && (address <=? high_address area) then Some area
      else lookup_area_in rest address
  end.

Definition lookup_area (m : vm_area_map) (address : Z) : option vm_area :=
  lookup_area_in (area_list m) address.

(** ** Specification *)

(** Areas in ascending order inside [lo .. hi], none overlapping the next. *)
Fixpoint between (lo : Z) (areas : list vm_area) (hi : Z) : Prop :=
  match areas with
  | [] => lo <= hi + 1
  | a :: rest =>
      lo <= low_address a /\ low_address a <= high_address a
      /\ between (high_address a + 1) rest hi
  end.

Definition whole_pages (a : vm_area) : Prop :=
  page_aligned (low_address a) /\ page_aligned (high_address a + 1).

Record map_ok (m : vm_area_map) : Prop := {
  ok_low : page_aligned (map_low m) /\ 0 <= map_low m;
  ok_high : page_aligned (map_high m + 1) /\ map_high m < 2 ^ 32;
  ok_between : between (map_low m) (area_list m) (map_high m);
  ok_pages : Forall whole_pages (area_list m);
  ok_pointers : NoDup (map area_ptr (area_list m))
}.

(** No area covers any of the [size] addresses from [lo]. *)
Definition clear_of (areas : list vm_area) (lo size : Z) : Prop :=
  Forall (fun a => high_address a < lo \/ lo + size <= low_address a) areas.

Definition free_range (m : vm_area_map) (lo size : Z) : Prop :=
  map_low m <= lo /\ lo + size - 1 <= map_high m /\ clear_of (area_list m) lo size.

(** ** Ordered areas *)

Lemma between_bounds lo areas hi : between lo areas hi -> lo <= hi + 1.
Proof. revert lo. induction areas as [|a rest IH]; simpl; [done|]. intros lo (? & ? & H).
  specialize (IH _ H). lia. Qed.

Lemma between_mono lo lo' areas hi hi' :
  between lo areas hi -> lo' <= lo -> hi <= hi' -> between lo' areas hi'.
Proof.
  revert lo lo'. induction areas as [|a rest IH]; simpl; intros lo lo' H ? ?; [lia|].
  destruct H as (? & ? & H). split_and!; [lia|lia|]. eapply IH; eauto. lia.
Qed.

Lemma between_app lo xs mid ys hi :
  between lo xs (mid - 1) -> between mid ys hi -> between lo (xs ++ ys) hi.
Proof.
  revert lo. induction xs as [|a xs IH]; simpl; intros lo Hx Hy.
  - eapply between_mono; eauto; lia.
  - destruct Hx as (? & ? & Hx). auto.
Qed.

Lemma between_snoc lo xs a :
  between lo xs (low_address a - 1) -> low_address a <= high_address a ->
  between lo (xs ++ [a]) (high_address a).
Proof. intros H ?. eapply between_app; [exact H|]. simpl. lia. Qed.

Lemma between_snoc_inv lo xs a hi :
  between lo (xs ++ [a]) hi ->
  between lo xs (low_address a - 1) /\ low_address a <= high_address a <= hi.
Proof.
  revert lo. induction xs as [|x xs IH]; simpl; intros lo H.
  - destruct H as (? & ? & ?). lia.
  - destruct H as (? & ? & H). apply IH in H as [? ?]. auto.
Qed.

Lemma between_member lo areas hi a :
  between lo areas hi -> a ∈ areas ->
  lo <= low_address a /\ low_address a <= high_address a /\ high_address a <= hi.
Proof.
  revert lo. induction areas as [|b rest IH]; simpl; intros lo H Hin;
    [by apply not_elem_of_nil in Hin|].
  destruct H as (H1 & H2 & H3). pose proof (between_bounds _ _ _ H3).
  apply elem_of_cons in Hin as [->|Hin]; [lia|]. specialize (IH _ H3 Hin). lia.
Qed.

Lemma clear_between lo xs x size ys hi :
  between lo xs (x - 1) -> between (x + size) ys hi -> clear_of (xs ++ ys) x size.
Proof.
  intros Hx Hy. apply Forall_forall. intros a Ha. apply elem_of_app in Ha as [Ha|Ha].
  - apply (between_member _ _ _ _ Hx) in Ha. lia.
  - apply (between_member _ _ _ _ Hy) in Ha. lia.
Qed.

Lemma not_clear areas a x size :
  a ∈ areas -> x <= high_address a -> low_address a < x + size -> ~ clear_of areas x size.
Proof. intros Ha H1 H2 Hc. unfold clear_of in Hc. rewrite Forall_forall in Hc.
  specialize (Hc a Ha). lia. Qed.

(** ** Searching upwards *)

(** The state of a search: what is behind and ahead, and that nothing from [start] up to
    the cursor can hold [size] addresses. *)
Record up_inv (lo hi start size : Z) (areas before : list vm_area) (hole : Z)
    (rest : list vm_area) : Prop := {
  up_areas : before ++ rest = areas;
  up_before : between lo before (hole - 1);
  up_rest : between hole rest hi;
  up_start : start <= hole;
  up_page : page_aligned hole;
  up_first : forall x, start <= x < hole -> ~ clear_of areas x size
}.

(** The adjustment after the first loop. *)
Lemma up_adjust lo hi address size areas before hole rest :
  before ++ rest = areas -> 0 < size ->
  between lo before (hole - 1) -> between (Z.max hole address) rest hi ->
  page_aligned address -> page_aligned hole ->
  (hole <= address \/ exists a, a ∈ before /\ low_address a < address /\ hole = high_address a + 1) ->
  up_inv lo hi address size areas before (if hole <? address then address else hole) rest.
Proof.
  intros Hareas Hsize Hb Hr Hpa Hph Hhole.
  replace (if hole <? address then address else hole) with (Z.max hole address)
    by (destruct (Z.ltb_spec hole address); lia).
  constructor; [done|eapply between_mono; eauto; lia|done|lia| |].
  - by destruct (Z.max_spec hole address) as [[_ ->]|[_ ->]].
  - intros x Hx. destruct Hhole as [?|(b & Hin & Hbl & ->)]; [lia|].
    apply (not_clear areas b); [rewrite <- Hareas; apply elem_of_app; by left|lia|lia].
Qed.

Lemma skip_up_ok lo hi address size areas before hole rest :
  before ++ rest = areas -> 0 <= lo -> hi < 2 ^ 32 -> 0 < size -> lo <= address <= hi + 1 ->
  Forall whole_pages areas -> page_aligned address -> page_aligned hole ->
  between lo before (hole - 1) -> between hole rest hi ->
  (forall a, a ∈ rest -> low_address a < address -> high_address a + 1 < 2 ^ 32) ->
  (hole <= address \/ exists a, a ∈ before /\ low_address a < address /\ hole = high_address a + 1) ->
  let '(before', hole', rest') := skip_up address before hole rest in
  up_inv lo hi address size areas before' (if hole' <? address then address else hole') rest'.
Proof.
  intros Hareas Hlo Hhi Hsize Haddr Hpages Hpa. revert before hole Hareas.
  induction rest as [|a rest IH]; intros before hole Hareas Hph Hb Hr Hwrap Hhole; simpl.
  - apply up_adjust; auto. simpl in *. lia.
  - destruct Hr as (H1 & H2 & H3). destruct (Z.ltb_spec (low_address a) address) as [Hlt|Hge].
    + assert (Ha : high_address a + 1 < 2 ^ 32) by (apply Hwrap; [by left|done]).
      pose proof (between_bounds _ _ _ Hb).
      rewrite u32_small by lia. apply IH.
      * by rewrite <- app_assoc.
      * rewrite Forall_forall in Hpages. apply (Hpages a). rewrite <- Hareas.
        apply elem_of_app. right. by left.
      * replace (high_address a + 1 - 1) with (high_address a) by lia.
        apply between_snoc; [|done]. eapply between_mono; eauto; lia.
      * done.
      * intros b Hin. apply Hwrap. by right.
      * right. exists a. split_and!; [apply elem_of_app; right; by left|done|done].
    + apply up_adjust; auto. simpl. split_and!; [lia|done|done].
Qed.

Lemma hole_up_ok lo hi start size areas before hole rest :
  0 <= lo -> hi < 2 ^ 32 -> 0 < size -> areas <> [] -> Forall whole_pages areas ->
  up_inv lo hi start size areas before hole rest ->
  match hole_up hi size before hole rest with
  | Some (before', hole', rest') =>
      up_inv lo hi start size areas before' hole' rest' /\ between (hole' + size) rest' hi
  | None => forall x, start <= x -> x + size - 1 <= hi -> ~ clear_of areas x size
  end.
Proof.
  intros Hlo Hhi Hsize Hne Hpages. revert before hole.
  induction rest as [|a rest IH]; intros before hole Hinv;
    destruct Hinv as [Ha Hb Hr Hs Hp Hf]; simpl.
  - simpl in Hr. pose proof (between_bounds _ _ _ Hb).
    assert (0 < hole).
    { destruct before as [|b before]; [by rewrite <- Ha in Hne|]. simpl in Hb.
      destruct Hb as (? & ? & Hb). pose proof (between_bounds _ _ _ Hb). lia. }
    rewrite u32_small by lia. destruct (Z.leb_spec size (hi - hole + 1)).
    + split; [by constructor|simpl; lia].
    + intros x Hx ?. apply Hf. lia.
  - destruct Hr as (H1 & H2 & H3). pose proof (between_bounds _ _ _ H3).
    pose proof (between_bounds _ _ _ Hb).
    rewrite u32_small by lia. destruct (Z.leb_spec size (low_address a - hole)).
    + split; [by constructor|]. simpl. split_and!; [lia|done|done].
    + assert (Hin : a ∈ areas) by (rewrite <- Ha; apply elem_of_app; right; by left).
      assert (Hf' : forall x, start <= x < high_address a + 1 -> ~ clear_of areas x size).
      { intros x Hx. destruct (decide (x < hole)); [apply Hf; lia|].
        apply (not_clear areas a); [done|lia|lia]. }
      destruct (decide (high_address a + 1 < 2 ^ 32)) as [Hsm|Hbig].
      * rewrite u32_small by lia. apply IH.
        constructor; [by rewrite <- app_assoc| |done|lia| |done].
        2: { rewrite Forall_forall in Hpages. apply (Hpages a Hin). }
        replace (high_address a + 1 - 1) with (high_address a) by lia.
        apply between_snoc; [|done]. eapply between_mono; eauto; lia.
      * assert (Htop : high_address a + 1 = 2 ^ 32) by lia. rewrite Htop.
        change (u32 (2 ^ 32)) with 0.
        destruct rest as [|b rest]; [|simpl in H3; destruct H3 as (? & ? & H3);
          pose proof (between_bounds _ _ _ H3); lia].
        simpl. replace (hi - 0 + 1) with (2 ^ 32) by (simpl in H3; lia).
        change (u32 (2 ^ 32)) with 0. destruct (Z.leb_spec size 0); [lia|].
        intros x Hx ?. apply Hf'. lia.
Qed.

(** ** Searching downwards *)

Record down_inv (lo hi last size : Z) (areas rest : list vm_area) (hole : Z)
    (after : list vm_area) : Prop := {
  down_areas : rev rest ++ after = areas;
  down_rest : between lo (rev rest) hole;
  down_after : between (hole + 1) after hi;
  down_last : hole <= last;
  down_page : page_aligned (hole + 1);
  down_first : forall x, hole < x + size - 1 <= last -> ~ clear_of areas x size
}.

Lemma down_adjust lo hi address size areas rest hole after :
  rev rest ++ after = areas -> 0 < size ->
  between lo (rev rest) (Z.min hole address) -> between (hole + 1) after hi ->
  page_aligned (address + 1) -> page_aligned (hole + 1) ->
  (address <= hole
   \/ exists a, a ∈ after /\ address < high_address a /\ hole = low_address a - 1) ->
  down_inv lo hi address size areas rest (if address <? hole then address else hole) after.
Proof.
  intros Hareas Hsize Hr Ha Hpa Hph Hhole.
  replace (if address <? hole then address else hole) with (Z.min hole address)
    by (destruct (Z.ltb_spec address hole); lia).
  constructor; [done|done|eapply between_mono; eauto; lia|lia| |].
  - by destruct (Z.min_spec hole address) as [[_ ->]|[_ ->]].
  - intros x Hx. destruct Hhole as [?|(b & Hin & Hbl & ->)]; [lia|].
    apply (not_clear areas b); [rewrite <- Hareas; apply elem_of_app; by right|lia|lia].
Qed.

Lemma skip_down_ok lo hi address size areas rest hole after :
  rev rest ++ after = areas -> 0 <= lo -> hi < 2 ^ 32 -> 0 < size -> lo <= address + 1 ->
  address <= hi -> Forall whole_pages areas -> page_aligned (address + 1) ->
  page_aligned (hole + 1) -> hole <= hi ->
  between lo (rev rest) hole -> between (hole + 1) after hi ->
  (forall a, a ∈ rest -> address < high_address a -> 0 < low_address a) ->
  (address <= hole
   \/ exists a, a ∈ after /\ address < high_address a /\ hole = low_address a - 1) ->
  let '(rest', hole', after') := skip_down address rest hole after in
  down_inv lo hi address size areas rest' (if address <? hole' then address else hole') after'.
Proof.
  intros Hareas Hlo Hhi Hsize Haddr Hahi Hpages Hpa. revert hole after Hareas.
  induction rest as [|a rest IH]; intros hole after Hareas Hph Hhh Hr Ha Hwrap Hhole; simpl.
  - apply down_adjust; auto. simpl in *. lia.
  - simpl in Hr. apply between_snoc_inv in Hr as [H1 H2].
    pose proof (between_bounds _ _ _ H1).
    destruct (Z.ltb_spec address (high_address a)) as [Hlt|Hge].
    + assert (Hz : 0 < low_address a) by (apply Hwrap; [by left|done]).
      rewrite u32_small by lia. apply IH.
      * rewrite <- Hareas. simpl. by rewrite <- app_assoc.
      * rewrite Forall_forall in Hpages. replace (low_address a - 1 + 1) with (low_address a) by lia.
        apply (Hpages a). rewrite <- Hareas. simpl. rewrite <- app_assoc.
        apply elem_of_app. right. by left.
      * lia.
      * done.
      * simpl. split_and!; [lia|lia|]. eapply between_mono; eauto; lia.
      * intros b Hin. apply Hwrap. by right.
      * right. exists a. split_and!; [by left|done|done].
    + apply down_adjust; auto. simpl. eapply between_app; [exact H1|]. simpl. lia.
Qed.

Lemma hole_down_ok lo hi last size areas rest hole after :
  0 <= lo -> hi < 2 ^ 32 -> 0 < size -> page_aligned size -> areas <> [] -> hole <= hi ->
  Forall whole_pages areas ->
  down_inv lo hi last size areas rest hole after ->
  match hole_down lo size rest hole after with
  | Some (rest', hole', after') =>
      down_inv lo hi last size areas rest' hole' after' /\ between lo (rev rest') (hole' - size)
  | None => forall x, lo <= x -> x + size - 1 <= last -> ~ clear_of areas x size
  end.
Proof.
  intros Hlo Hhi Hsize Hps Hne Hhh Hpages. revert hole after Hhh.
  induction rest as [|a rest IH]; intros hole after Hhh Hinv;
    destruct Hinv as [Hareas Hr Ha Hl Hp Hf]; simpl.
  - simpl in Hr. pose proof (between_bounds _ _ _ Ha).
    assert (hole + 1 < 2 ^ 32).
    { destruct after as [|b after]; [by rewrite <- Hareas in Hne|]. simpl in Ha.
      destruct Ha as (? & ? & Hb). pose proof (between_bounds _ _ _ Hb). lia. }
    rewrite u32_small by lia. destruct (Z.leb_spec size (hole - lo + 1)).
    + split; [by constructor|simpl; lia].
    + intros x Hx ?. apply Hf. lia.
  - simpl in Hr. apply between_snoc_inv in Hr as [H1 H2]. pose proof (between_bounds _ _ _ H1).
    assert (Hin : a ∈ areas).
    { rewrite <- Hareas. simpl. rewrite <- app_assoc. apply elem_of_app. right. by left. }
    assert (Hw : whole_pages a) by (rewrite Forall_forall in Hpages; by apply Hpages).
    destruct Hw as [Hw1 Hw2].
    assert (Hgap : size <= hole - high_address a + 1 -> size <= hole - high_address a)
      by (unfold page_aligned, PAGE_SIZE in *; Z.div_mod_to_equations; lia).
    assert (0 < high_address a)
      by (unfold page_aligned, PAGE_SIZE in *; Z.div_mod_to_equations; lia).
    rewrite u32_small by lia. destruct (Z.leb_spec size (hole - high_address a + 1)) as [Hfit|Hno].
    + split; [constructor; [done| |done|done|done|done]|].
      * simpl. eapply between_app; [exact H1|]. simpl. lia.
      * simpl. eapply between_app; [exact H1|]. simpl. specialize (Hgap Hfit). lia.
    + assert (Hf' : forall x, low_address a - 1 < x + size - 1 <= last -> ~ clear_of areas x size).
      { intros x Hx. destruct (decide (hole < x + size - 1)); [apply Hf; lia|].
        apply (not_clear areas a); [done|lia|lia]. }
      destruct (decide (0 < low_address a)) as [Hpos|Hzero].
      * rewrite u32_small by lia. apply IH; [lia|].
        constructor; [|done| |lia| |done].
        { rewrite <- Hareas. simpl. by rewrite <- app_assoc. }
        { simpl. split_and!; [lia|lia|]. eapply between_mono; eauto; lia. }
        { by replace (low_address a - 1 + 1) with (low_address a) by lia. }
      * assert (Hbot : low_address a = 0) by lia. rewrite Hbot in *.
        destruct rest as [|b rest].
        2: { simpl in H1. apply between_snoc_inv in H1 as [H1 ?].
             pose proof (between_bounds _ _ _ H1). lia. }
        change (u32 (0 - 1)) with (2 ^ 32 - 1). simpl in H1. assert (lo = 0) as -> by lia. simpl.
        change (u32 (2 ^ 32 - 1 - 0 + 1)) with 0. destruct (Z.leb_spec size 0); [lia|].
        intros x Hx ?. apply Hf'. lia.
Qed.

(** ** Placing an area *)

(** [r] is an area of [size] addresses at [lo] and the map with it in its place. *)
Definition placed (m : vm_area_map) (object : vm_area) (lo size : Z) (r : vm_area * vm_area_map)
    : Prop :=
  r.1 = alloc_area object lo size
  /\ exists before rest, area_list m = before ++ rest
       /\ r.2 = m <| area_list := before ++ r.1 :: rest |>
       /\ between (map_low m) before (lo - 1) /\ between (lo + size) rest (map_high m).

Lemma placed_ok m object lo size r :
  map_ok m -> placed m object lo size r -> page_aligned lo -> page_aligned size -> 0 < size ->
  area_ptr object ∉ map area_ptr (area_list m) ->
  map_ok r.2 /\ free_range m lo size
  /\ low_address r.1 = lo /\ high_address r.1 = lo + size - 1 /\ area_ptr r.1 = area_ptr object
  /\ area_list r.2 ≡ₚ r.1 :: area_list m.
Proof.
  intros [[Hl1 Hl2] [Hh1 Hh2] _ Hpages Hptr] (Hr & before & rest & Hareas & Hm & Hb & Ha) Hplo Hps Hs Hfresh.
  pose proof (between_bounds _ _ _ Hb) as Hlo. pose proof (between_bounds _ _ _ Ha) as Hhi.
  assert (Hlow : low_address r.1 = lo) by by rewrite Hr.
  assert (Hhigh : high_address r.1 = lo + size - 1) by (rewrite Hr; simpl; apply u32_small; lia).
  assert (Hp : area_ptr r.1 = area_ptr object) by by rewrite Hr.
  assert (Hperm : area_list r.2 ≡ₚ r.1 :: area_list m)
    by (rewrite Hm, Hareas; simpl; by rewrite <- Permutation_middle).
  split_and!; [|split_and!|done|done|done|done].
  - constructor; rewrite Hm; try done; cbn [area_list map_low map_high].
    + eapply between_app; [exact Hb|]. simpl. rewrite Hlow, Hhigh.
      replace (lo + size - 1 + 1) with (lo + size) by lia. split_and!; [lia|lia|done].
    + rewrite Hareas in Hpages. apply Forall_app in Hpages as [? ?]. apply Forall_app. split; [done|].
      apply Forall_cons. split; [|done]. split; [by rewrite Hlow|]. rewrite Hhigh.
      unfold page_aligned, PAGE_SIZE in *. Z.div_mod_to_equations. lia.
    + simpl. rewrite map_app. simpl. rewrite <- Permutation_middle, <- map_app, <- Hareas, Hp.
      by constructor.
  - lia.
  - lia.
  - rewrite Hareas. by eapply clear_between.
Qed.

Definition round_up (size : Z) : Z := (size + (PAGE_SIZE - 1)) / PAGE_SIZE * PAGE_SIZE.

(** What a caller must ask for the 32-bit arithmetic not to wrap: a size that is not
    zero and fits the map, and no end of the address space inside an area on the wrong
    side of the address. *)
Definition sane_request (m : vm_area_map) (address size : Z) (place : placement) : Prop :=
  is_u32 address /\ 0 < size <= 2 ^ 32 - PAGE_SIZE
  /\ match place with
     | PLACE_EXACT => page_aligned address
     | PLACE_SEARCH_UP =>
         address + round_up size < 2 ^ 32 /\ map_low m + round_up size - 1 <= map_high m
         /\ forall a, a ∈ area_list m -> high_address a + 1 = 2 ^ 32 -> address <= low_address a
     | PLACE_SEARCH_DOWN =>
         round_up size <= address /\ map_low m + round_up size - 1 <= map_high m
         /\ forall a, a ∈ area_list m -> low_address a = 0 -> high_address a <= address
     end.

(** The places asked for: the fixed one, those from the page of an address up, or those that end
    at an address or below it. *)
Definition candidate (address size : Z) (place : placement) (lo : Z) : Prop :=
  match place with
  | PLACE_EXACT => lo = address
  | PLACE_SEARCH_UP => PAGE_ALIGN address <= lo
  | PLACE_SEARCH_DOWN => lo + size - 1 <= address
  end.

(** The one place asked for that the searches refuse, free or not: the first one, where it is the
    last one of the map too. *)
Definition overlooked (m : vm_area_map) (address size : Z) (place : placement) (lo : Z) : Prop :=
  match place with
  | PLACE_EXACT => False
  | PLACE_SEARCH_UP => lo = PAGE_ALIGN address /\ lo + size - 1 = map_high m
  | PLACE_SEARCH_DOWN => lo = map_low m /\ lo + size - 1 = address
  end.

Definition better (place : placement) (lo lo' : Z) : Prop :=
  match place with
  | PLACE_EXACT => False
  | PLACE_SEARCH_UP => lo < lo'
  | PLACE_SEARCH_DOWN => lo' < lo
  end.

Lemma round_up_align size :
  0 < size <= 2 ^ 32 - PAGE_SIZE ->
  PAGE_ALIGN (u32 (size + PAGE_SIZE - 1)) = round_up size
  /\ page_aligned (round_up size) /\ size <= round_up size < 2 ^ 32.
Proof.
  intros Hs. rewrite u32_small by (unfold PAGE_SIZE in *; lia).
  rewrite PAGE_ALIGN_mod by (unfold is_u32, is_unsigned, PAGE_SIZE in *; lia).
  unfold round_up, page_aligned, PAGE_SIZE in *. Z.div_mod_to_equations. lia.
Qed.

(** What each placement gives: the best free place asked for, or none is free but the overlooked. *)
Definition best_placement (m : vm_area_map) (object : vm_area) (address size : Z)
    (place : placement) (outcome : option (vm_area * vm_area_map)) : Prop :=
  match outcome with
  | Some r =>
      exists lo, page_aligned lo /\ placed m object lo size r /\ candidate address size place lo
        /\ (forall lo', ~ overlooked m address size place lo')
        /\ forall lo', better place lo' lo -> page_aligned lo' ->
             candidate address size place lo' -> ~ free_range m lo' size
  | None =>
      forall lo, page_aligned lo -> candidate address size place lo -> free_range m lo size -> overlooked m address size place lo
  end.

Lemma search_up_ok m object address size :
  map_ok m -> is_u32 address -> 0 < size -> page_aligned size -> address + size < 2 ^ 32 ->
  map_low m + size - 1 <= map_high m ->
  (forall a, a ∈ area_list m -> high_address a + 1 = 2 ^ 32 -> address <= low_address a) ->
  best_placement m object address size PLACE_SEARCH_UP (search_up m object address size).
Proof.
  intros [[Hl1 Hl2] [Hh1 Hh2] Hbet Hpages Hptr] Hu Hs Hps Hwrap Hfit Htop.
  unfold search_up. rewrite (u32_small (address + size)) by (unfold is_u32, is_unsigned in Hu; lia).
  destruct (Z.ltb_spec (map_high m) (address + size)) as [Hbig|Hin].
  { intros lo Hplo Hlo (_ & Hend & _). simpl in *. destruct (PAGE_ALIGN_spec address Hu) as (Hpa & Hpb & Hp0).
    unfold page_aligned, PAGE_SIZE in *. Z.div_mod_to_equations. lia. }
  destruct (PAGE_ALIGN_spec address Hu) as (Hpa & Hpb & Hp0).
  assert (Hguard : forall lo, ~ overlooked m address size PLACE_SEARCH_UP lo) by (intros lo [-> ?]; lia).
  set (start := PAGE_ALIGN (if address <? map_low m then map_low m else address)).
  assert (Hstart : map_low m <= start /\ PAGE_ALIGN address <= start /\ page_aligned start
                   /\ start + size <= map_high m + 1 /\ start <= Z.max (map_low m) address
                   /\ forall lo, map_low m <= lo -> PAGE_ALIGN address <= lo -> start <= lo).
  { unfold start. destruct (Z.ltb_spec address (map_low m)).
    - destruct (PAGE_ALIGN_spec (map_low m)) as (Hq1 & Hq2 & Hq3);
        [unfold is_u32, is_unsigned; lia|].
      assert (PAGE_ALIGN (map_low m) = map_low m)
        by (unfold page_aligned, PAGE_SIZE in *; Z.div_mod_to_equations; lia).
      split_and!; [lia|lia|done|lia|lia|intros; lia].
    - assert (map_low m <= PAGE_ALIGN address)
        by (unfold page_aligned, PAGE_SIZE in *; Z.div_mod_to_equations; lia).
      split_and!; [lia|lia|done|lia|lia|intros; lia]. }
  clearbody start. destruct Hstart as (Hs1 & Hs2 & Hs3 & Hs4 & Hs5 & Hs6).
  case_eq (area_list m); [intros Hareas|intros a0 rest0 Hareas; rewrite <- Hareas].
  { exists start. split; [done|]. split; [|split; [simpl; lia|]].
    - split; [done|]. exists [], []. rewrite Hareas. simpl. split_and!; [done|done|lia|lia].
    - split; [done|]. intros lo' Hlt _ ? (? & _). simpl in *. specialize (Hs6 lo'). lia. }
  assert (Hne : area_list m <> []) by (rewrite Hareas; discriminate).
  pose proof (skip_up_ok (map_low m) (map_high m) start size (area_list m) [] (map_low m)
    (area_list m) eq_refl Hl2 Hh2 Hs) as Hskip.
  destruct (skip_up start [] (map_low m) (area_list m)) as [[before hole] rest].
  assert (Hinv : up_inv (map_low m) (map_high m) start size (area_list m) before
                   (if hole <? start then start else hole) rest).
  { apply Hskip; auto; [lia|simpl; lia|].
    intros a Ha Hlow. destruct (between_member _ _ _ _ Hbet Ha) as (? & ? & ?).
    destruct (decide (high_address a + 1 = 2 ^ 32)) as [He|]; [|lia].
    specialize (Htop a Ha He). lia. }
  pose proof (hole_up_ok _ _ _ _ _ _ _ _ Hl2 Hh2 Hs Hne Hpages Hinv) as Hhole.
  destruct (hole_up (map_high m) size before _ rest) as [[[before' lo] rest']|].
  - destruct Hhole as [[H1 H2 H3 H4 H5 H6] H7]. exists lo. split; [done|]. split; [|split; [simpl; lia|]].
    + split; [done|]. exists before', rest'. split_and!; done.
    + split; [done|]. intros lo' Hlt _ ? (? & ? & Hc). simpl in *. apply (H6 lo'); [|done]. specialize (Hs6 lo'). lia.
  - intros lo _ ? (? & ? & Hc). destruct (Hhole lo); [apply Hs6; done|lia|done].
Qed.

(** The start of a search downwards, clamped to the map and aligned. *)
Lemma down_start m address size :
  map_ok m -> is_u32 address -> 0 < size -> page_aligned size -> map_low m + size <= address ->
  map_low m + size - 1 <= map_high m ->
  exists last, u32 (PAGE_ALIGN (u32 ((if map_high m <? address then map_high m else address) + 1)) - 1)
               = last
    /\ page_aligned (last + 1) /\ map_low m + size <= last + 1 /\ last <= map_high m
    /\ last <= address
    /\ forall lo, page_aligned (lo + size) -> lo + size - 1 <= address ->
         lo + size - 1 <= map_high m -> lo + size - 1 <= last.
Proof.
  intros [[Hl1 Hl2] [Hh1 Hh2] Hbet _ _] Hu Hs Hps Hlow Hfit.
  set (top := if map_high m <? address then map_high m else address).
  assert (Htop : top = Z.min (map_high m) address)
    by (unfold top; destruct (Z.ltb_spec (map_high m) address); lia).
  clearbody top. unfold is_u32, is_unsigned in Hu.
  destruct (decide (top + 1 = 2 ^ 32)) as [He|Hne].
  - exists top. assert (top = 2 ^ 32 - 1) as -> by lia.
    split_and!; [reflexivity|reflexivity|lia|lia|lia|intros; lia].
  - destruct (PAGE_ALIGN_spec (top + 1)) as (H1 & H2 & H3); [unfold is_u32, is_unsigned; lia|].
    exists (PAGE_ALIGN (top + 1) - 1). rewrite (u32_small (top + 1)) by lia.
    assert (map_low m + size <= PAGE_ALIGN (top + 1)).
    { unfold page_aligned, PAGE_SIZE in *. Z.div_mod_to_equations. lia. }
    rewrite u32_small by lia. split_and!; [done|by rewrite Z.sub_add|lia|lia|lia|].
    intros lo Hplo ? ?. unfold page_aligned, PAGE_SIZE in *. Z.div_mod_to_equations. lia.
Qed.

Lemma search_down_ok m object address size :
  map_ok m -> is_u32 address -> 0 < size -> page_aligned size -> size <= address ->
  map_low m + size - 1 <= map_high m ->
  (forall a, a ∈ area_list m -> low_address a = 0 -> high_address a <= address) ->
  best_placement m object address size PLACE_SEARCH_DOWN (search_down m object address size).
Proof.
  intros Hok Hu Hs Hps Hwrap Hfit Hbot. unfold search_down.
  assert (Hu' : 0 <= address < 2 ^ 32) by exact Hu.
  rewrite (u32_small (address - size)) by lia.
  destruct (Z.ltb_spec (address - size) (map_low m)) as [Hbig|Hin].
  { intros lo Hplo Hlo (Hstart & _). simpl in *. destruct Hok as [[Hl1 _] _ _ _ _].
    unfold page_aligned, PAGE_SIZE in *. Z.div_mod_to_equations. lia. }
  assert (Hguard : forall lo, ~ overlooked m address size PLACE_SEARCH_DOWN lo) by (intros lo [-> ?]; lia).
  destruct (down_start m address size Hok Hu Hs Hps ltac:(lia) Hfit)
    as (last & -> & Hpl & Hl3 & Hl4 & Hl5 & Hl6).
  destruct Hok as [[Hl1 Hl2] [Hh1 Hh2] Hbet Hpages Hptr].
  assert (Hcand : forall lo, page_aligned lo -> lo + size - 1 <= address ->
                    lo + size - 1 <= map_high m -> lo + size - 1 <= last).
  { intros lo Hplo. apply Hl6. unfold page_aligned, PAGE_SIZE in *. Z.div_mod_to_equations. lia. }
  assert (Hsub : page_aligned (last + 1 - size))
    by (unfold page_aligned, PAGE_SIZE in *; Z.div_mod_to_equations; lia).
  case_eq (area_list m); [intros Hareas|intros a0 rest0 Hareas; rewrite <- Hareas].
  { rewrite u32_small by lia. exists (last - size + 1). split; [by replace (last - size + 1) with (last + 1 - size) by lia|].
    split; [|split; [simpl; lia|]].
    - split; [done|]. exists [], []. rewrite Hareas. simpl. split_and!; [done|done|lia|lia].
    - split; [done|]. intros lo' Hlt Hp' ? (? & ? & _). simpl in *. specialize (Hcand lo' Hp'). lia. }
  assert (Hne : area_list m <> []) by (rewrite Hareas; discriminate).
  pose proof (skip_down_ok (map_low m) (map_high m) last size (area_list m) (rev (area_list m))
    (map_high m) []) as Hskip.
  destruct (skip_down last (rev (area_list m)) (map_high m) []) as [[rest hole] after].
  assert (Hinv : down_inv (map_low m) (map_high m) last size (area_list m) rest
                   (if last <? hole then last else hole) after).
  { apply Hskip; auto; try lia.
    - by rewrite rev_involutive, app_nil_r.
    - by rewrite rev_involutive.
    - simpl. lia.
    - intros a Ha Hhigh. apply list_elem_of_In, in_rev, list_elem_of_In in Ha.
      destruct (between_member _ _ _ _ Hbet Ha) as (? & ? & ?).
      destruct (decide (low_address a = 0)) as [He|]; [|lia]. specialize (Hbot a Ha He).
      assert (Hpa : whole_pages a) by (rewrite Forall_forall in Hpages; by apply Hpages).
      destruct Hpa as [_ Hpa]. specialize (Hl6 (high_address a + 1 - size)).
      replace (high_address a + 1 - size + size) with (high_address a + 1) in Hl6 by lia.
      specialize (Hl6 Hpa). lia. }
  assert (Hhole : (if last <? hole then last else hole) <= map_high m)
    by (destruct Hinv as [_ _ _ ? _ _]; lia).
  pose proof (hole_down_ok _ _ _ _ _ _ _ _ Hl2 Hh2 Hs Hps Hne Hhole Hpages Hinv) as Hfound.
  destruct (hole_down (map_low m) size rest _ after) as [[[rest' hole'] after']|].
  - destruct Hfound as [[H1 H2 H3 H4 H5 H6] H7]. pose proof (between_bounds _ _ _ H7).
    rewrite u32_small by lia. exists (hole' - size + 1).
    split; [unfold page_aligned, PAGE_SIZE in *; Z.div_mod_to_equations; lia|].
    split; [|split; [simpl; lia|]].
    + split; [done|]. exists (rev rest'), after'. split_and!; [done|done| |].
      * by replace (hole' - size + 1 - 1) with (hole' - size) by lia.
      * by replace (hole' - size + 1 + size) with (hole' + 1) by lia.
    + split; [done|]. intros lo' Hlt Hp' ? (? & ? & Hc). simpl in *. apply (H6 lo'); [|done]. specialize (Hcand lo' Hp'). lia.
  - intros lo Hp' ? (? & ? & Hc). destruct (Hfound lo); [done| |done]. by apply Hcand.
Qed.

(** ** Fixed placement *)

Lemma fixed_place_ok lo hi address size areas before hole rest :
  before ++ rest = areas -> 0 < size -> lo <= address -> address + size - 1 <= hi ->
  0 <= address -> hi < 2 ^ 32 -> Forall whole_pages areas ->
  page_aligned address -> page_aligned size ->
  between lo before hole -> between hole rest hi ->
  (before = [] /\ hole = lo
   \/ exists a, a ∈ before /\ low_address a < address + size - 1 /\ high_address a = hole) ->
  match fixed_place address size before hole rest with
  | Some (before', rest') =>
      before' ++ rest' = areas /\ between lo before' (address - 1)
      /\ between (address + size) rest' hi
  | None => ~ clear_of areas address size
  end.
Proof.
  intros Hareas Hs Hlo Hfit H0 Hhi Hpages Hpa Hps. revert before hole Hareas.
  assert (Hcovered : forall a, a ∈ areas -> low_address a < address + size - 1 ->
                       address < high_address a -> ~ clear_of areas address size)
    by (intros a Ha ? ?; apply (not_clear areas a); [done|lia|lia]).
  induction rest as [|a rest IH]; intros before hole Hareas Hb Hr Hhole; simpl.
  - rewrite app_nil_r in Hareas. destruct (Z.leb_spec hole address).
    + split_and!; [by rewrite app_nil_r| |simpl; lia].
      destruct Hhole as [[-> ->]|(a & Ha & Hla & Hha)]; [simpl; lia|].
      eapply between_mono; eauto; [lia|]. rewrite Hareas in Ha.
      assert (Hw : whole_pages a) by (rewrite Forall_forall in Hpages; by apply Hpages).
      destruct Hw as [_ Hw]. unfold page_aligned, PAGE_SIZE in *. Z.div_mod_to_equations. lia.
    + destruct Hhole as [[_ ->]|(a & Ha & Hla & Hha)]; [lia|].
      apply (Hcovered a); [by rewrite <- Hareas|done|lia].
  - assert (Hin : a ∈ areas) by (rewrite <- Hareas; apply elem_of_app; right; by left).
    destruct (Z.ltb_spec address hole).
    + destruct Hhole as [[_ ->]|(b & Hb' & Hlb & Hhb)]; [lia|].
      apply (Hcovered b); [rewrite <- Hareas; apply elem_of_app; by left|done|lia].
    + rewrite (u32_small (address + size - 1)) by lia.
      assert (Hw : forall b, b ∈ areas -> whole_pages b) by (by rewrite Forall_forall in Hpages).
      destruct Hr as (H1 & H2 & H3).
      destruct (Z.leb_spec (address + size - 1) (low_address a)) as [Hfits|Hover].
      * split_and!; [done| |].
        { destruct Hhole as [[-> ->]|(b & Hb' & Hlb & Hhb)]; [simpl; lia|].
          eapply between_mono; eauto; [lia|].
          destruct (Hw b) as [_ Hwb]; [rewrite <- Hareas; apply elem_of_app; by left|].
          unfold page_aligned, PAGE_SIZE in *. Z.div_mod_to_equations. lia. }
        { simpl. split_and!; [|done|done]. destruct (Hw a Hin) as [Hwa _].
          unfold page_aligned, PAGE_SIZE in *. Z.div_mod_to_equations. lia. }
      * apply IH.
        { by rewrite <- app_assoc. }
        { eapply between_app; [|simpl; split_and!; [reflexivity|done|lia]].
          destruct Hhole as [[-> ->]|(b & Hb' & Hlb & Hhb)]; [simpl; lia|].
          eapply between_mono; eauto; [lia|].
          destruct (Hw b) as [_ Hwb]; [rewrite <- Hareas; apply elem_of_app; by left|].
          destruct (Hw a Hin) as [Hwa _].
          unfold page_aligned, PAGE_SIZE in *. Z.div_mod_to_equations. lia. }
        { eapply between_mono; eauto; lia. }
        { right. exists a. split_and!; [apply elem_of_app; right; by left|lia|done]. }
Qed.

Lemma insert_fixed_ok m object address size :
  map_ok m -> is_u32 address -> 0 < size < 2 ^ 32 -> page_aligned size -> page_aligned address ->
  best_placement m object address size PLACE_EXACT (insert_fixed m object address size).
Proof.
  intros [[Hl1 Hl2] [Hh1 Hh2] Hbet Hpages Hptr] Hu Hs Hps Hpa. unfold insert_fixed.
  assert (Hu' : 0 <= address < 2 ^ 32) by exact Hu.
  destruct (decide (address + size - 1 < 2 ^ 32)) as [Hsm|Hbig].
  - rewrite (u32_small (address + size - 1)) by lia.
    destruct (Z.ltb_spec address (map_low m)); [intros lo _ Hlo (? & _); simpl in Hlo; lia|].
    destruct (Z.ltb_spec (map_high m) (address + size - 1));
      [intros lo _ Hlo (? & ? & _); simpl in Hlo; lia|].
    destruct (Z.ltb_spec (address + size - 1) address); [lia|]. simpl.
    pose proof (fixed_place_ok (map_low m) (map_high m) address size (area_list m) [] (map_low m)
      (area_list m) eq_refl) as Hplace.
    destruct (fixed_place address size [] (map_low m) (area_list m)) as [[before rest]|].
    + destruct Hplace as (Hareas & Hbefore & Hrest); auto; try lia; [simpl; lia|].
      exists address. split; [done|]. split; [split; [done|]; by exists before, rest|].
      split; [done|]. split; [by intros ? []|done].
    + intros lo _ Hlo (_ & _ & Hc). simpl in Hlo. rewrite Hlo in Hc. revert Hc.
      apply Hplace; auto; try lia. simpl. lia.
  - assert (Hw : u32 (address + size - 1) < address).
    { unfold u32. replace (address + size - 1) with (address + size - 1 - 2 ^ 32 + 1 * 2 ^ 32) by lia.
      rewrite Z_mod_plus_full, Z.mod_small by lia. lia. }
    rewrite (proj2 (Z.ltb_lt _ _) Hw), !orb_true_r.
    intros lo _ Hlo (_ & ? & _). simpl in Hlo. lia.
Qed.

(** ** Filling in the area *)

Lemma strlcpy_loop_ok src dest k length :
  (k + base.length src < base.length dest)%nat -> (base.length src <= length)%nat ->
  exists out, strlcpy_loop dest k src length = Done out /\ base.length out = base.length dest
    /\ take k out = take k dest /\ exists junk, drop k out = src ++ 0 :: junk.
Proof.
  revert dest k length. induction src as [|c src IH]; intros dest k length Hk Hl; simpl in *.
  - rewrite decide_True by lia. eexists. split; [done|]. rewrite length_insert, take_insert_ge by lia.
    split_and!; [done|done|]. rewrite drop_insert_ge, Nat.sub_diag by lia.
    destruct (drop k dest) as [|d rest] eqn:Hd; [|by exists rest].
    apply (f_equal base.length) in Hd. rewrite length_drop in Hd. simpl in Hd. lia.
  - destruct length as [|length]; [lia|]. rewrite decide_True by lia.
    destruct (IH (<[k:=c]> dest) (S k) length) as (out & Hout & Hlen & Htake & junk & Hdrop);
      [rewrite length_insert; lia|lia|].
    rewrite length_insert in Hlen. exists out. split_and!; [done|done| |exists junk].
    + apply (f_equal (take k)) in Htake. rewrite !take_take, !Nat.min_l in Htake by lia.
      by rewrite take_insert_ge in Htake by lia.
    + assert (Hk' : out !! k = Some c).
      { rewrite <- (lookup_take_lt out (S k)), Htake, lookup_take_lt by lia.
        by rewrite list_lookup_insert_eq by lia. }
      rewrite (drop_S _ c) by done. by rewrite Hdrop.
Qed.

(** Nothing the map's invariant or the searches look at changes. *)
Definition same_range (f : vm_area -> vm_area) : Prop :=
  forall a, area_ptr (f a) = area_ptr a /\ low_address (f a) = low_address a
    /\ high_address (f a) = high_address a.

Lemma update_area_ok p f m :
  same_range f -> map_ok m -> map_ok (update_area p f m).
Proof.
  intros Hf [Hl Hh Hb Hp Hn].
  set (g := fun a => if area_ptr a =? p then f a else a).
  assert (Hg : same_range g) by (intros a; unfold g; destruct (area_ptr a =? p); [apply Hf|done]).
  constructor; simpl; fold g; [done|done| | |].
  - revert Hb. generalize (map_low m). induction (area_list m) as [|a rest IH]; simpl; [done|].
    intros lo (? & ? & Hrest). destruct (Hg a) as (_ & -> & ->). inversion Hp. inversion Hn.
    split_and!; auto.
  - apply Forall_map. eapply Forall_impl; [exact Hp|]. intros a [? ?].
    destruct (Hg a) as (_ & Ha & Hb'). split; [by rewrite Ha|by rewrite Hb'].
  - rewrite map_map. replace (map (fun x => area_ptr (g x)) (area_list m))
      with (map area_ptr (area_list m)); [done|].
    apply map_ext. intros a. symmetry. apply Hg.
Qed.

Lemma update_fresh p f areas :
  p ∉ map area_ptr areas -> map (fun a => if area_ptr a =? p then f a else a) areas = areas.
Proof.
  induction areas as [|a areas IH]; simpl; intros Hp; [done|].
  rewrite not_elem_of_cons in Hp. rewrite IH by tauto.
  by rewrite (proj2 (Z.eqb_neq (area_ptr a) p)) by (destruct Hp; congruence).
Qed.

Lemma place_area_ok m object address size place :
  map_ok m -> sane_request m address size place ->
  best_placement m object address (round_up size) place
    (place_area m object address (round_up size) place).
Proof.
  intros Hok (Hu & Hs & Hplace). destruct (round_up_align size Hs) as (_ & Hps & Hr).
  destruct place; simpl.
  - apply insert_fixed_ok; auto. lia.
  - destruct Hplace as (? & ? & ?). apply search_down_ok; auto. lia.
  - destruct Hplace as (? & ? & ?). apply search_up_ok; auto. lia.
Qed.

(** Looking an address up in an ordered map. *)
Definition covers (a : vm_area) (address : Z) : Prop :=
  low_address a <= address <= high_address a.

Lemma lookup_in_spec lo areas hi address a :
  between lo areas hi ->
  lookup_area_in areas address = Some a <-> a ∈ areas /\ covers a address.
Proof.
  unfold covers. revert lo. induction areas as [|b areas IH]; simpl; intros lo H.
  { split; [done|]. intros [Ha _]. by apply not_elem_of_nil in Ha. }
  destruct H as (H1 & H2 & H3). rewrite elem_of_cons.
  destruct (Z.leb_spec (low_address b) address), (Z.leb_spec address (high_address b)); simpl;
    [|rewrite (IH _ H3); split; [intros [? ?]; auto|intros [[->|?] ?]; [lia|auto]]..].
  split; [injection 1 as <-; split; [by left|lia]|].
  intros [[->|Hin] Hc]; [done|]. destruct (between_member _ _ _ _ H3 Hin). lia.
Qed.

Lemma lookup_area_spec m address a :
  map_ok m -> lookup_area m address = Some a <-> a ∈ area_list m /\ covers a address.
Proof. intros [_ _ Hb _ _]. by apply (lookup_in_spec (map_low m) _ (map_high m)). Qed.

Lemma create_inv m object address size place name_arg flags_arg area m' :
  map_ok m -> sane_request m address size place ->
  area_ptr object ∉ map area_ptr (area_list m) ->
  create_vm_area m object address size place name_arg flags_arg = Done (Some (area, m')) ->
  map_ok m' /\ area_ptr area = area_ptr object /\ flags area = flags_arg
  /\ cache area = 0 /\ cache_offset area = 0 /\ cache_length area = 0
  /\ strlcpy (name object) name_arg 32 = Done (name area)
  /\ area_list m' ≡ₚ area :: area_list m
  /\ best_placement m object address (round_up size) place
       (place_area m object address (round_up size) place)
  /\ exists r, place_area m object address (round_up size) place = Some r
       /\ low_address area = low_address r.1 /\ high_address area = high_address r.1.
Proof.
  intros Hok Hsane Hfresh Hrun. pose proof (place_area_ok m object _ _ _ Hok Hsane) as Hbest.
  destruct Hsane as (Hu & Hs & _). destruct (round_up_align size Hs) as (Hal & Hps & Hr).
  unfold create_vm_area in Hrun. cbv zeta in Hrun. rewrite Hal in Hrun.
  destruct (place_area m object address (round_up size) place) as [[a1 m1]|] eqn:Hp; [|done].
  pose proof Hbest as (lo & Hplo & Hpl & _).
  destruct (placed_ok _ _ _ _ _ Hok Hpl Hplo Hps ltac:(lia) Hfresh)
    as (Hok1 & Hfree & Hlow & Hhigh & Hptr & Hperm). simpl in *.
  apply bind_Done_inv in Hrun as (copied & Hcopy & Hrun). injection Hrun as <- <-.
  assert (Ha1 : a1 = alloc_area object lo (round_up size)) by apply Hpl.
  split_and!; try done.
  - by apply update_area_ok.
  - by rewrite Ha1 in Hcopy.
  - unfold update_area. simpl. rewrite Hperm. simpl. rewrite Z.eqb_refl.
    rewrite update_fresh by by rewrite Hptr. done.
  - by exists (a1, m1).
Qed.

Lemma between_filter (P : vm_area -> Prop) `{!forall a, Decision (P a)} lo areas hi :
  between lo areas hi -> between lo (base.filter P areas) hi.
Proof.
  revert lo. induction areas as [|a areas IH]; intros lo; [done|]. intros (H1 & H2 & H3).
  rewrite filter_cons. apply IH in H3 as H4. destruct (decide (P a)); [done|].
  eapply between_mono; eauto; lia.
Qed.

Lemma destroy_ok p m : map_ok m -> map_ok (destroy_vm_area p m).
Proof.
  intros [Hl Hh Hb Hp Hn]. constructor; simpl; [done|done|by apply between_filter| |].
  - rewrite Forall_forall in Hp |- *. intros a Ha. apply list_elem_of_filter in Ha as [_ Ha]. by apply Hp.
  - apply (sublist_NoDup _ (map area_ptr (area_list m))); [done|].
    apply (fmap_sublist area_ptr), sublist_filter.
Qed.

Lemma destroy_member p m a :
  a ∈ area_list (destroy_vm_area p m) <-> a ∈ area_list m /\ area_ptr a <> p.
Proof. simpl. rewrite list_elem_of_filter. tauto. Qed.

(** [create_vm_area] ends, and refuses only when nothing but the overlooked place is free. *)
Lemma create_ends m object address size place name_arg flags_arg :
  map_ok m -> sane_request m address size place ->
  base.length (name object) = 32%nat -> (base.length name_arg < 32)%nat ->
  (exists r, create_vm_area m object address size place name_arg flags_arg = Done (Some r))
  \/ create_vm_area m object address size place name_arg flags_arg = Done None
     /\ forall lo, page_aligned lo -> candidate address (round_up size) place lo -> free_range m lo (round_up size) ->
          overlooked m address (round_up size) place lo.
Proof.
  intros Hok Hsane Hname Hlen. pose proof (place_area_ok m object _ _ _ Hok Hsane) as Hbest.
  destruct Hsane as (_ & Hs & _). destruct (round_up_align size Hs) as (Hal & _).
  unfold create_vm_area. cbv zeta. rewrite Hal.
  destruct (place_area m object address (round_up size) place) as [[a1 m1]|]; [left|by right].
  destruct Hbest as (lo & _ & [Ha1 _] & _). simpl in Ha1.
  destruct (strlcpy_loop_ok name_arg (name a1) 0 32) as (out & Hout & _); [rewrite Ha1; simpl; lia|lia|].
  unfold strlcpy. rewrite Hout. by eexists.
Qed.

(** A free range is taken. *)
Lemma create_exact m object address size name_arg flags_arg :
  map_ok m -> is_u32 address -> page_aligned address -> 0 < size <= 2 ^ 32 - PAGE_SIZE ->
  area_ptr object ∉ map area_ptr (area_list m) ->
  base.length (name object) = 32%nat -> (base.length name_arg < 32)%nat -> free_range m address (round_up size) ->
  exists area m', create_vm_area m object address size PLACE_EXACT name_arg flags_arg = Done (Some (area, m'))
    /\ map_ok m' /\ area_ptr area = area_ptr object /\ flags area = flags_arg
    /\ map_low m' = map_low m /\ map_high m' = map_high m
    /\ area_list m' ≡ₚ area :: area_list m
    /\ low_address area = address /\ high_address area = address + round_up size - 1.
Proof.
  intros Hok Hu Hal Hs Hfresh Hname Hlen Hfree.
  assert (Hsane : sane_request m address size PLACE_EXACT) by done.
  destruct (create_ends m object address size PLACE_EXACT name_arg flags_arg Hok Hsane Hname Hlen)
    as [[[area m'] Hrun]|[_ Hnone]]; [|by destruct (Hnone address Hal eq_refl Hfree)].
  exists area, m'. split; [done|].
  destruct (create_inv _ _ _ _ _ _ _ _ _ Hok Hsane Hfresh Hrun)
    as (Hok' & Hptr & Hfl & _ & _ & _ & _ & Hperm & Hbest & r & Hr & Hlow & Hhigh).
  rewrite Hr in Hbest. destruct Hbest as (lo & Hplo & Hpl & -> & _).
  destruct (round_up_align size Hs) as (_ & Hps & Hru).
  destruct (placed_ok _ _ _ _ _ Hok Hpl Hplo Hps ltac:(lia) Hfresh) as (_ & _ & Hlo & Hhi & _ & _).
  assert (Hsame : map_low m' = map_low m /\ map_high m' = map_high m).
  { unfold create_vm_area in Hrun. cbv zeta in Hrun. destruct (round_up_align size Hs) as (Hal' & _). rewrite Hal', Hr in Hrun.
    destruct r as [a1 m1]. apply bind_Done_inv in Hrun as (copied & _ & [= _ <-]). simpl.
    destruct Hpl as (_ & before & rest & _ & Hm & _). simpl in Hm. by rewrite Hm. }
  destruct Hsame. split_and!; try done; congruence.
Qed.

(** ** Properties *)

(** C27: [create_vm_area] takes the best free place of those asked for (the fixed address, the
    lowest from an address up, the highest that ends at one or below).  On a well-formed map and a
    request whose 32-bit arithmetic does not wrap ([sane_request]; fixed addresses are aligned), the area has
    exactly the requested size in whole pages, and the map is well-formed with that one area
    added.  It refuses only when no place asked for is free, except for an off-by-one in the tests the
    searches start with: one place is always refused ([overlooked]), the first one of a search that
    ends exactly at the end of the map upwards, or starts exactly at its start downwards, and a request
    that has such a place is refused even if it is free. *)
Theorem create_vm_area_spec m object address size place name_arg flags_arg :
  map_ok m -> sane_request m address size place ->
  area_ptr object ∉ map area_ptr (area_list m) ->
  base.length (name object) = 32%nat -> (base.length name_arg < 32)%nat ->
  match create_vm_area m object address size place name_arg flags_arg with
  | Fault _ => False
  | Done None =>
      forall lo, page_aligned lo -> candidate address (round_up size) place lo ->
        free_range m lo (round_up size) -> overlooked m address (round_up size) place lo
  | Done (Some (area, m')) =>
      map_ok m' /\ area_list m' ≡ₚ area :: area_list m
      /\ free_range m (low_address area) (round_up size)
      /\ high_address area = low_address area + round_up size - 1
      /\ candidate address (round_up size) place (low_address area)
      /\ (forall lo, ~ overlooked m address (round_up size) place lo)
      /\ (forall lo, better place lo (low_address area) -> page_aligned lo ->
           candidate address (round_up size) place lo -> ~ free_range m lo (round_up size))
      /\ area_ptr area = area_ptr object /\ flags area = flags_arg /\ cache area = 0
      /\ exists junk, name area = name_arg ++ 0 :: junk
  end.
Proof.
  intros Hok Hsane Hfresh Hname Hlen.
  destruct (create_vm_area m object address size place name_arg flags_arg)
    as [[[area m']|]|f] eqn:Hrun.
  - destruct (create_inv _ _ _ _ _ _ _ _ _ Hok Hsane Hfresh Hrun)
      as (Hok' & Hptr & Hfl & Hca & _ & _ & Hcopy & Hperm & Hbest & r & Hplace & Hlo & Hhi).
    rewrite Hplace in Hbest. destruct Hbest as (lo & Hplo & Hpl & Hc & Hover & Hfirst).
    destruct Hsane as (_ & Hs & _). destruct (round_up_align size Hs) as (_ & Hps & Hr).
    destruct (placed_ok _ _ _ _ _ Hok Hpl Hplo Hps ltac:(lia) Hfresh)
      as (_ & Hfree & Hlow & Hhigh & _ & _).
    rewrite Hlo, Hhi, Hlow, Hhigh. split_and!; try done.
    destruct (strlcpy_loop_ok name_arg (name object) 0 32) as (out & Hout & _ & _ & junk & Hj);
      [lia|lia|]. unfold strlcpy in Hcopy. rewrite Hout in Hcopy. injection Hcopy as <-.
    exists junk. by rewrite <- Hj.
  - destruct (create_ends m object address size place name_arg flags_arg Hok Hsane Hname Hlen) as [[r Hr]|[_ Hnone]]; [|done].
    congruence.
  - destruct (create_ends m object address size place name_arg flags_arg Hok Hsane Hname Hlen) as [[r Hr]|[Hr _]]; congruence.
Qed.

(** In an empty map of three pages, the last two and the first two are free and refused. *)
Theorem last_place_refused object name_arg flags_arg :
  let m := init_area_map 0x1000 0x3fff in
  free_range m 0x2000 0x2000 /\ free_range m 0x1000 0x2000
  /\ candidate 0x2000 0x2000 PLACE_SEARCH_UP 0x2000
  /\ create_vm_area m object 0x2000 0x2000 PLACE_SEARCH_UP name_arg flags_arg = Done None
  /\ candidate 0x2fff 0x2000 PLACE_SEARCH_DOWN 0x1000
  /\ create_vm_area m object 0x2fff 0x2000 PLACE_SEARCH_DOWN name_arg flags_arg = Done None.
Proof.
  cbv zeta. unfold free_range, candidate, clear_of.
  change (area_list (init_area_map 0x1000 0x3fff)) with (@nil vm_area). rewrite !Forall_nil.
  repeat split; vm_compute; congruence.
Qed.

(** Addresses inside a new area look up to it and every other address to what it
    did before; destroying the area makes every lookup what it was. *)
Theorem create_lookup_destroy m object address size place name_arg flags_arg area m' :
  map_ok m -> sane_request m address size place ->
  area_ptr object ∉ map area_ptr (area_list m) ->
  create_vm_area m object address size place name_arg flags_arg = Done (Some (area, m')) ->
  (forall x, lookup_area m' x
     = if decide (low_address area <= x <= high_address area) then Some area else lookup_area m x)
  /\ map_ok (destroy_vm_area (area_ptr area) m')
  /\ forall x, lookup_area (destroy_vm_area (area_ptr area) m') x = lookup_area m x.
Proof.
  intros Hok Hsane Hfresh Hrun.
  destruct (create_inv _ _ _ _ _ _ _ _ _ Hok Hsane Hfresh Hrun)
    as (Hok' & Hptr & _ & _ & _ & _ & _ & Hperm & _ & _).
  assert (Hin : forall a, a ∈ area_list m' <-> a = area \/ a ∈ area_list m)
    by (intros a; rewrite Hperm; apply elem_of_cons).
  assert (Hne : forall a, a ∈ area_list m -> area_ptr a <> area_ptr area).
  { intros a Ha Heq. apply Hfresh. rewrite <- Hptr, <- Heq. by apply (list_elem_of_fmap_2 area_ptr). }
  pose proof (destroy_ok (area_ptr area) m' Hok') as Hokd.
  split_and!; [|done|].
  - intros x. apply option_eq. intros a. rewrite (lookup_area_spec _ _ _ Hok'), Hin.
    assert (Hself : covers area x -> lookup_area m' x = Some area)
      by (intros; apply (lookup_area_spec _ _ _ Hok'); rewrite Hin; auto).
    destruct (decide (low_address area <= x <= high_address area)) as [Hx|Hx].
    + split; [|injection 1 as <-; auto]. intros Ha. rewrite <- Hin in Ha.
      apply (lookup_area_spec _ _ _ Hok') in Ha. rewrite (Hself Hx) in Ha. congruence.
    + rewrite (lookup_area_spec _ _ _ Hok). split; [|tauto].
      intros [[->|?] Hc]; [exfalso; by apply Hx|done].
  - intros x. apply option_eq. intros a.
    rewrite (lookup_area_spec _ _ _ Hokd), (lookup_area_spec _ _ _ Hok), destroy_member, Hin.
    split; [by intros [[[->|?] ?] ?]|]. intros [Ha ?]. auto 6.
Qed.

(** An address beyond the map is accepted when [address + size] wraps: on an empty
    map [search_up] makes an area outside it. *)
Theorem search_up_wraps m object address size :
  area_list m = [] -> is_u32 address -> page_aligned address -> map_high m < address ->
  2 ^ 32 < address + size -> address + size - 2 ^ 32 <= map_high m -> map_low m <= address ->
  exists area m', search_up m object address size = Some (area, m')
    /\ area_list m' = [area] /\ map_high m < low_address area /\ high_address area < low_address area.
Proof.
  intros Hempty Hu Hpa Hbeyond Hwrap Hfit Hlow. unfold is_u32, is_unsigned in Hu.
  assert (Hsum : u32 (address + size) = address + size - 2 ^ 32).
  { unfold u32. replace (address + size) with (address + size - 2 ^ 32 + 1 * 2 ^ 32) at 1 by lia.
    rewrite Z_mod_plus_full. apply Z.mod_small. lia. }
  destruct (PAGE_ALIGN_spec address) as (Hp1 & Hp2 & Hp3); [exact Hu|].
  assert (Heq : PAGE_ALIGN address = address)
    by (unfold page_aligned, PAGE_SIZE in *; Z.div_mod_to_equations; lia).
  unfold search_up. rewrite Hsum, Hempty. destruct (Z.ltb_spec (map_high m) (address + size - 2 ^ 32)); [lia|].
  destruct (Z.ltb_spec address (map_low m)); [lia|]. rewrite Heq.
  do 2 eexists. split; [done|]. split; [done|]. simpl. split; [lia|].
  unfold u32. replace (address + size - 1) with (address + size - 1 - 2 ^ 32 + 1 * 2 ^ 32) by lia.
  rewrite Z_mod_plus_full, Z.mod_small by lia. lia.
Qed.

(** [insert_fixed] does not align the address it is given: an unaligned request can
    share the last byte of the area before it. *)
Theorem insert_fixed_shares_a_byte m object size a :
  area_list m = [a] -> map_low m <= high_address a -> 0 <= high_address a ->
  0 < size -> high_address a + size - 1 <= map_high m -> map_high m < 2 ^ 32 ->
  low_address a < high_address a ->
  exists area m', insert_fixed m object (high_address a) size = Some (area, m')
    /\ area_list m' = [a; area] /\ low_address area = high_address a.
Proof.
  intros Ha Hlow H0 Hs Hfit Hhi Hll. unfold insert_fixed.
  rewrite (u32_small (high_address a + size - 1)) by lia. rewrite Ha.
  destruct (Z.ltb_spec (high_address a) (map_low m)); [lia|].
  destruct (Z.ltb_spec (map_high m) (high_address a + size - 1)); [lia|].
  destruct (Z.ltb_spec (high_address a + size - 1) (high_address a)); [lia|]. simpl.
  rewrite (u32_small (high_address a + size - 1)) by lia.
  destruct (Z.ltb_spec (high_address a) (map_low m)); [lia|].
  destruct (Z.leb_spec (high_address a + size - 1) (low_address a)); [lia|]. simpl.
  rewrite Z.leb_refl. by do 2 eexists.
Qed.

(** ** Witnesses *)

Definition blank_area (p : Z) : vm_area := Build_vm_area p 0 0 0 0 0 0 (replicate 32 0).

(** A user address space (vm_address_space.c, [create_address_space]) with two areas. *)
Definition user_map : vm_area_map :=
  let m := init_area_map PAGE_SIZE (0xc0000000 - 1) in
  let a := alloc_area (blank_area 0xd0001000) 0x1000 0x4000 in
  let b := alloc_area (blank_area 0xd0001040) 0x8000 0x2000 in
  m <| area_list := [a; b] |>.

Lemma user_map_ok : map_ok user_map.
Proof.
  constructor; [by split|by split| | |].
  - vm_compute. repeat split; discriminate.
  - repeat constructor.
  - apply (bool_decide_unpack _). reflexivity.
Qed.

Lemma user_request : sane_request user_map 0x2000 0x1800 PLACE_SEARCH_UP.
Proof.
  split; [by vm_compute|]. split; [by vm_compute|]. split; [by vm_compute|].
  split; [by vm_compute|]. intros a Ha. repeat (apply elem_of_cons in Ha as [->|Ha]; [by vm_compute|]).
  by apply not_elem_of_nil in Ha.
Qed.

Lemma user_fresh : area_ptr (blank_area 0xd0001080) ∉ map area_ptr (area_list user_map).
Proof. apply (bool_decide_unpack _). reflexivity. Qed.

Definition created (outcome : result (option (vm_area * vm_area_map))) : option (Z * Z) :=
  match outcome with
  | Done (Some (a, _)) => Some (low_address a, high_address a)
  | _ => None
  end.

Lemma create_vm_area_spec_witness :
  created (create_vm_area user_map (blank_area 0xd0001080) 0x2000 0x1800 PLACE_SEARCH_UP
             [116; 101; 120; 116] 3) = Some (0x5000, 0x6fff)
  /\ exists area m', map_ok m' /\ area_list m' ≡ₚ area :: area_list user_map.
Proof.
  split; [vm_compute; reflexivity|].
  pose proof (create_vm_area_spec user_map (blank_area 0xd0001080) 0x2000 0x1800 PLACE_SEARCH_UP
    [116; 101; 120; 116] 3 user_map_ok user_request user_fresh eq_refl ltac:(simpl; lia)) as H.
  destruct (create_vm_area user_map (blank_area 0xd0001080) 0x2000 0x1800 PLACE_SEARCH_UP
    [116; 101; 120; 116] 3) as [[[area m']|]|f] eqn:Hrun; [|vm_compute in Hrun; discriminate..].
  exists area, m'. split; [exact (proj1 H)|exact (proj1 (proj2 H))].
Defined.

Lemma create_lookup_destroy_witness :
  exists area m',
    create_vm_area user_map (blank_area 0xd0001080) 0x2000 0x1800 PLACE_SEARCH_UP [116] 3
    = Done (Some (area, m'))
    /\ lookup_area m' 0x6abc = Some area
    /\ lookup_area (destroy_vm_area (area_ptr area) m') 0x6abc = lookup_area user_map 0x6abc.
Proof.
  destruct (create_vm_area user_map (blank_area 0xd0001080) 0x2000 0x1800 PLACE_SEARCH_UP
    [116] 3) as [[[area m']|]|f] eqn:Hrun; [|vm_compute in Hrun; discriminate..].
  exists area, m'. split; [reflexivity|].
  destruct (create_lookup_destroy user_map (blank_area 0xd0001080) 0x2000 0x1800 PLACE_SEARCH_UP
    [116] 3 area m' user_map_ok user_request user_fresh Hrun) as (H1 & _ & H3).
  split; [|apply H3]. rewrite H1. vm_compute in Hrun. injection Hrun as <- _. reflexivity.
Defined.

Lemma search_up_wraps_witness :
  exists area m',
    search_up (init_area_map PAGE_SIZE (0xc0000000 - 1)) (blank_area 0xd0001000) 0xfffff000 0x3000
    = Some (area, m') /\ high_address area < low_address area.
Proof.
  destruct (search_up_wraps (init_area_map PAGE_SIZE (0xc0000000 - 1)) (blank_area 0xd0001000)
    0xfffff000 0x3000) as (area & m' & H1 & _ & _ & H4); try (by vm_compute).
  exists area, m'. split; [exact H1|exact H4].
Defined.

Lemma insert_fixed_shares_a_byte_witness :
  let m := init_area_map PAGE_SIZE (0xc0000000 - 1)
    <| area_list := [alloc_area (blank_area 0xd0001000) 0x1000 0x4000] |> in
  exists area m', insert_fixed m (blank_area 0xd0001040) 0x4fff 0x1000 = Some (area, m')
    /\ base.length (area_list m') = 2%nat /\ low_address area = 0x4fff.
Proof.
  destruct (insert_fixed_shares_a_byte
    (init_area_map PAGE_SIZE (0xc0000000 - 1)
       <| area_list := [alloc_area (blank_area 0xd0001000) 0x1000 0x4000] |>)
    (blank_area 0xd0001040) 0x1000 (alloc_area (blank_area 0xd0001000) 0x1000 0x4000))
    as (area & m' & H1 & H2 & H3); try (by vm_compute).
  exists area, m'. split; [exact H1|]. split; [rewrite H2; reflexivity|exact H3].
Defined.
