(* ===== verification/Sched.v ===== *)
(** * Sched: kernel threads and their scheduler (software/kernel/thread.c)

    Thread structures are named by their addresses.  [thread_q_lock] is held, with
    interrupts off, over every access to the queues, so what each function does under
    it is one step; what a function does outside it is a step of its own. *)

From S2P Require Export KernelDefs.
From stdpp Require Import list gmap functions.
Import stdpp.list_relations.list.

#[local] Open Scope Z_scope.

(** ** Data *)

Inductive thread_state := THREAD_READY | THREAD_RUNNING | THREAD_WAITING | THREAD_DEAD.

#[export]
Instance thread_state_eq_dec : EqDecision thread_state.
Proof. solve_decision. Defined.

(** The fields of a thread the scheduler reads besides its state. *)
Record thread_fields := { kernel_stack_ptr : Z; translation_map : Z }.

(** [thread_states] is [th->state]; the arrays are indexed by hardware thread. *)
Record sched := {
  thread_states : Z -> thread_state;
  cur_thread : list Z;
  ready_q : list Z;
  dead_q : list Z;
  disable_preempt_count : list Z;
  trap_kernel_stack : list Z;
  hw_translation_map : list Z
}.

#[export]
Instance sched_fields : Fields sched := fun k =>
  Build_sched (thread_states k) (cur_thread k) (ready_q k) (dead_q k) (disable_preempt_count k)
    (trap_kernel_stack k) (hw_translation_map k).

Definition array_get (i : nat) (a : list Z) : result Z :=
  match a !! i with Some v => Done v | None => Fault OutOfBounds end.

Definition set_state (th : Z) (st : thread_state) (k : sched) : sched :=
  k <| thread_states := <[th := st]> (thread_states k) |>.

(** ** Operations *)

Section scheduler.
Context (info : Z -> thread_fields).

Definition current_thread (hwthread : nat) (k : sched) : result Z :=
  array_get hwthread (cur_thread k).

(** The switch to another thread; [context_switch] itself returns in that thread. *)
Definition switch_thread (hwthread : nat) (next_thread : Z) (k : sched) : sched :=
  k <| cur_thread := <[hwthread := next_thread]> (cur_thread k) |>
    <| trap_kernel_stack :=
         <[hwthread := kernel_stack_ptr (info next_thread)]> (trap_kernel_stack k) |>
    <| hw_translation_map :=
         <[hwthread := translation_map (info next_thread)]> (hw_translation_map k) |>.

Definition reschedule (hwthread : nat) (k : sched) : result sched :=
  count <-- array_get hwthread (disable_preempt_count k);;
  _ <-- kassert (count =? 0);;
  old_thread <-- current_thread hwthread k;;
  _ <-- kassert (bool_decide (thread_states k old_thread <> THREAD_READY));;
  let k :=
    if bool_decide (thread_states k old_thread = THREAD_RUNNING)
    then set_state old_thread THREAD_READY k <| ready_q := ready_q k ++ [old_thread] |>
    else k in
  match ready_q k with
  | [] => Fault AssertFailed
  | next_thread :: rest =>
      let k := set_state next_thread THREAD_RUNNING k <| ready_q := rest |> in
      Done (if bool_decide (old_thread = next_thread) then k
            else switch_thread hwthread next_thread k)
  end.

Definition make_thread_ready (th : Z) (k : sched) : result sched :=
  _ <-- kassert (bool_decide (thread_states k th <> THREAD_READY));;
  _ <-- kassert (bool_decide (thread_states k th <> THREAD_RUNNING));;
  _ <-- kassert (bool_decide (thread_states k th <> THREAD_DEAD));;
  Done (set_state th THREAD_READY k <| ready_q := ready_q k ++ [th] |>).

Definition timer_tick (hwthread : nat) (k : sched) : result sched :=
  count <-- array_get hwthread (disable_preempt_count k);;
  if count =? 0 then reschedule hwthread k else Done k.

(** The end of [spawn_thread_internal]. *)
Definition enqueue_new_thread (th : Z) (k : sched) : sched :=
  set_state th THREAD_READY k <| ready_q := ready_q k ++ [th] |>.

(** [thread_exit] up to the release of the queue lock, and after it. *)
Definition thread_exit_enqueue (hwthread : nat) (k : sched) : result sched :=
  th <-- current_thread hwthread k;; Done (k <| dead_q := dead_q k ++ [th] |>).

Definition thread_exit_finish (hwthread : nat) (k : sched) : result sched :=
  th <-- current_thread hwthread k;; reschedule hwthread (set_state th THREAD_DEAD k).

(** One turn of [grim_reaper]: the thread to destroy, if any. *)
Definition grim_reaper_take (k : sched) : option Z * sched :=
  match dead_q k with
  | [] => (None, k)
  | th :: rest => (Some th, k <| dead_q := rest |>)
  end.

(** [destroy_thread]'s assertions; then its stacks and structure are freed. *)
Definition destroy_thread (hwthread : nat) (th : Z) (k : sched) : result unit :=
  _ <-- kassert (bool_decide (thread_states k th = THREAD_DEAD));;
  self <-- current_thread hwthread k;;
  kassert (bool_decide (th <> self)).

Definition add_preempt_count (d : Z) (hwthread : nat) (k : sched) : result sched :=
  count <-- array_get hwthread (disable_preempt_count k);;
  Done (k <| disable_preempt_count := <[hwthread := count + d]> (disable_preempt_count k) |>).
Definition disable_preempt := add_preempt_count 1.
Definition enable_preempt := add_preempt_count (-1).
End scheduler.

(** ** Invariant *)

(** Every thread is in one place: the ready threads are the ready queue, and a running
    thread is current on a hardware thread. *)
Record sched_ok (k : sched) : Prop := {
  ok_ready_nodup : NoDup (ready_q k);
  ok_ready : forall t, t ∈ ready_q k <-> thread_states k t = THREAD_READY;
  ok_cur_nodup : NoDup (cur_thread k);
  ok_cur : forall t, t ∈ cur_thread k -> thread_states k t <> THREAD_READY;
  ok_running : forall t, thread_states k t = THREAD_RUNNING -> t ∈ cur_thread k
}.

(** Each hardware thread traps onto, and translates through, its own thread's. *)
Definition hw_ok (info : Z -> thread_fields) (k : sched) : Prop :=
  trap_kernel_stack k = map (fun t => kernel_stack_ptr (info t)) (cur_thread k)
  /\ hw_translation_map k = map (fun t => translation_map (info t)) (cur_thread k).

Lemma state_same th st k : thread_states (set_state th st k) th = st.
Proof. apply fn_lookup_insert. Qed.

Lemma state_other th st k t : t <> th -> thread_states (set_state th st k) t = thread_states k t.
Proof. intros. apply fn_lookup_insert_ne. congruence. Qed.

Lemma array_get_Done i a v : array_get i a = Done v <-> a !! i = Some v.
Proof. unfold array_get. destruct (a !! i); split; congruence. Qed.

Lemma kassert_Done b u : kassert b = Done u <-> b = true.
Proof. destruct b, u; simpl; split; congruence. Qed.

Lemma make_thread_ready_waiting th k :
  make_thread_ready th k =
    if bool_decide (thread_states k th = THREAD_WAITING)
    then Done (set_state th THREAD_READY k <| ready_q := ready_q k ++ [th] |>)
    else Fault AssertFailed.
Proof. unfold make_thread_ready. by destruct (thread_states k th). Qed.

Lemma NoDup_snoc {A} (l : list A) x : NoDup l -> x ∉ l -> NoDup (l ++ [x]).
Proof.
  intros Hl Hx. apply NoDup_app. split_and!; [done| |apply NoDup_singleton].
  intros y Hy Hin. apply list_elem_of_singleton in Hin as ->. done.
Qed.

(** Making a thread ready keeps the invariant when it is not current anywhere. *)
Lemma enqueue_ok th k :
  sched_ok k -> thread_states k th <> THREAD_READY -> th ∉ cur_thread k ->
  sched_ok (set_state th THREAD_READY k <| ready_q := ready_q k ++ [th] |>).
Proof.
  intros [H1 H2 H3 H4 H5] Hst Hcur. constructor; simpl.
  - apply NoDup_snoc; [done|]. by rewrite H2.
  - intros t. rewrite elem_of_app, list_elem_of_singleton, H2.
    destruct (decide (t = th)) as [->|Hne].
    + rewrite fn_lookup_insert. tauto.
    + rewrite fn_lookup_insert_ne by congruence. tauto.
  - done.
  - intros t Ht. rewrite fn_lookup_insert_ne; [by apply H4|]. by intros ->.
  - intros t. destruct (decide (t = th)) as [->|Hne]; [by rewrite fn_lookup_insert|].
    rewrite fn_lookup_insert_ne by congruence. apply H5.
Qed.

(** The ready queue once the current thread has gone back on it. *)
Definition requeued (old : Z) (k : sched) : sched :=
  if bool_decide (thread_states k old = THREAD_RUNNING)
  then set_state old THREAD_READY k <| ready_q := ready_q k ++ [old] |> else k.

Lemma reschedule_eq info hwthread k old :
  disable_preempt_count k !! hwthread = Some 0 -> cur_thread k !! hwthread = Some old ->
  thread_states k old <> THREAD_READY ->
  reschedule info hwthread k =
    match ready_q (requeued old k) with
    | [] => Fault AssertFailed
    | next :: rest =>
        let k' := set_state next THREAD_RUNNING (requeued old k) <| ready_q := rest |> in
        Done (if bool_decide (old = next) then k' else switch_thread info hwthread next k')
    end.
Proof.
  intros Hc Ho Hs. unfold reschedule, current_thread, array_get. rewrite Hc. simpl.
  rewrite Ho. simpl. rewrite (bool_decide_true _ Hs). done.
Qed.

Lemma NoDup_insert_member {A} (l : list A) i old x t :
  NoDup l -> l !! i = Some old ->
  t ∈ <[i := x]> l <-> t = x \/ t ∈ l /\ t <> old.
Proof.
  intros Hnd Hi. rewrite !list_elem_of_lookup. pose proof (lookup_lt_Some _ _ _ Hi). split.
  - intros [j Hj]. destruct (decide (j = i)) as [->|Hne].
    + rewrite list_lookup_insert_eq in Hj by done. left. congruence.
    + rewrite list_lookup_insert_ne in Hj by done. right. split; [by exists j|].
      intros ->. apply Hne. by eapply (NoDup_lookup l).
  - intros [->|[[j Hj] Hne]]; [exists i; by apply list_lookup_insert_eq|].
    exists j. rewrite list_lookup_insert_ne; [done|]. intros ->. congruence.
Qed.

Lemma NoDup_insert_fresh {A} (l : list A) i old x :
  NoDup l -> l !! i = Some old -> (x ∈ l -> x = old) -> NoDup (<[i := x]> l).
Proof.
  intros Hnd Hi Hx. apply NoDup_alt. intros j1 j2 y H1 H2.
  assert (Hl : (i < length l)%nat) by by eapply lookup_lt_Some.
  assert (Hsame : forall j, l !! j = Some x -> j = i).
  { intros j Hj. assert (x = old) as -> by (apply Hx; by eapply list_elem_of_lookup_2).
    by eapply (NoDup_lookup l). }
  destruct (decide (j1 = i)) as [->|Hn1], (decide (j2 = i)) as [->|Hn2]; [done| | |].
  - rewrite list_lookup_insert_eq in H1 by done. rewrite list_lookup_insert_ne in H2 by done.
    injection H1 as <-. symmetry. by apply Hsame.
  - rewrite list_lookup_insert_eq in H2 by done. rewrite list_lookup_insert_ne in H1 by done.
    injection H2 as <-. by apply Hsame.
  - rewrite list_lookup_insert_ne in H1, H2 by done. by eapply (NoDup_lookup l).
Qed.

(** What is left of the invariant while the current thread is back on the queue. *)
Lemma requeued_facts k old :
  sched_ok k -> old ∈ cur_thread k ->
  NoDup (ready_q (requeued old k))
  /\ (forall t, t ∈ ready_q (requeued old k) <-> thread_states (requeued old k) t = THREAD_READY)
  /\ (forall t, t ∈ cur_thread k -> t <> old -> thread_states (requeued old k) t <> THREAD_READY)
  /\ (forall t, thread_states (requeued old k) t = THREAD_RUNNING -> t ∈ cur_thread k /\ t <> old).
Proof.
  intros [H1 H2 H3 H4 H5] Hold. pose proof (H4 old Hold) as Hor. unfold requeued.
  case_bool_decide as Hrun; simpl.
  - split_and!.
    + apply NoDup_snoc; [done|]. by rewrite H2.
    + intros t. rewrite elem_of_app, list_elem_of_singleton, H2.
      destruct (decide (t = old)) as [->|Hne]; [rewrite fn_lookup_insert; tauto|].
      rewrite fn_lookup_insert_ne by congruence. tauto.
    + intros t Ht Hne. rewrite fn_lookup_insert_ne by congruence. by apply H4.
    + intros t. destruct (decide (t = old)) as [->|Hne]; [by rewrite fn_lookup_insert|].
      rewrite fn_lookup_insert_ne by congruence. auto.
  - split_and!; [done|done|auto|]. intros t Ht. split; [auto|]. by intros ->.
Qed.

(** [reschedule]: it cannot fail except for want of a thread to run, keeps the
    invariant, and runs the thread at the head of the queue. *)
Lemma reschedule_ok info hwthread k old :
  sched_ok k -> disable_preempt_count k !! hwthread = Some 0 ->
  cur_thread k !! hwthread = Some old -> ready_q (requeued old k) <> [] ->
  exists next rest k',
    ready_q (requeued old k) = next :: rest /\ reschedule info hwthread k = Done k'
    /\ sched_ok k' /\ ready_q k' = rest /\ cur_thread k' = <[hwthread := next]> (cur_thread k)
    /\ thread_states k' = <[next := THREAD_RUNNING]> (thread_states (requeued old k))
    /\ disable_preempt_count k' = disable_preempt_count k /\ dead_q k' = dead_q k
    /\ (hw_ok info k -> hw_ok info k').
Proof.
  intros Hok Hc Ho Hne. assert (Hin : old ∈ cur_thread k) by by eapply list_elem_of_lookup_2.
  rewrite (reschedule_eq info hwthread k old Hc Ho) by by apply Hok.
  destruct (requeued_facts k old Hok Hin) as (Hnd & Hq & Hcur & Hrun).
  destruct (ready_q (requeued old k)) as [|next rest]; [done|].
  assert (Hsame : cur_thread (requeued old k) = cur_thread k
                  /\ disable_preempt_count (requeued old k) = disable_preempt_count k
                  /\ dead_q (requeued old k) = dead_q k
                  /\ trap_kernel_stack (requeued old k) = trap_kernel_stack k
                  /\ hw_translation_map (requeued old k) = hw_translation_map k)
    by (unfold requeued; by case_bool_decide).
  destruct Hsame as (E1 & E2 & E3 & E4 & E5).
  assert (Hnr : thread_states (requeued old k) next = THREAD_READY) by (apply Hq; by left).
  assert (Hold : next ∈ cur_thread k -> next = old)
    by (intros Hn; destruct (decide (next = old)); [done|]; by destruct (Hcur next Hn)).
  apply NoDup_cons in Hnd as [Hfresh Hnd].
  set (k1 := set_state next THREAD_RUNNING (requeued old k) <| ready_q := rest |>).
  assert (Hgoal : forall k', thread_states k' = thread_states k1 -> ready_q k' = rest ->
            cur_thread k' = <[hwthread := next]> (cur_thread k) -> sched_ok k').
  { intros k' Hs Hr Hct. constructor; rewrite ?Hs, ?Hr, ?Hct; [done| | | |]; simpl.
    - intros t. destruct (decide (t = next)) as [->|Hn]; [by rewrite fn_lookup_insert|].
      rewrite fn_lookup_insert_ne, <- Hq, elem_of_cons by congruence. tauto.
    - apply (NoDup_insert_fresh _ _ old); auto. apply Hok.
    - intros t Ht. apply (NoDup_insert_member _ _ old) in Ht; [|apply Hok|done].
      destruct (decide (t = next)) as [->|Hn]; [by rewrite fn_lookup_insert|].
      rewrite fn_lookup_insert_ne by congruence. destruct Ht as [?|[? ?]]; [done|auto].
    - intros t Ht. apply (NoDup_insert_member _ _ old); [apply Hok|done|].
      destruct (decide (t = next)) as [->|Hn]; [by left|].
      rewrite fn_lookup_insert_ne in Ht by congruence. right. by apply Hrun. }
  exists next, rest. destruct (decide (old = next)) as [Heq|Hneq].
  - exists k1. rewrite bool_decide_true by done. split_and!; try done; simpl.
    + apply Hgoal; [done|done|]. simpl. rewrite E1. symmetry. apply list_insert_id. by rewrite <- Heq.
    + rewrite E1. symmetry. apply list_insert_id. by rewrite <- Heq.
    + unfold hw_ok. simpl. by rewrite E1, E4, E5.
  - exists (switch_thread info hwthread next k1). rewrite bool_decide_false by done.
    split_and!; try done; simpl.
    + apply Hgoal; [done|done|]. simpl. by rewrite E1.
    + by rewrite E1.
    + unfold hw_ok. simpl. rewrite E1, E4, E5. intros [-> ->].
      split; symmetry; [apply (list_fmap_insert (fun t => kernel_stack_ptr (info t)))
                       |apply (list_fmap_insert (fun t => translation_map (info t)))].
Qed.

(** ** Properties *)

(** A state as the other hardware threads leave it alone. *)
Lemma timer_tick_rotates info hwthread k c t rest :
  sched_ok k -> disable_preempt_count k !! hwthread = Some 0 ->
  cur_thread k !! hwthread = Some c -> thread_states k c = THREAD_RUNNING ->
  ready_q k = t :: rest ->
  exists k', timer_tick info hwthread k = Done k' /\ sched_ok k'
    /\ disable_preempt_count k' !! hwthread = Some 0 /\ cur_thread k' !! hwthread = Some t
    /\ thread_states k' t = THREAD_RUNNING /\ ready_q k' = rest ++ [c].
Proof.
  intros Hok Hc Hcur Hrun Hq.
  assert (Hreq : ready_q (requeued c k) = t :: rest ++ [c])
    by (unfold requeued; rewrite bool_decide_true by done; simpl; by rewrite Hq).
  destruct (reschedule_ok info hwthread k c Hok Hc Hcur) as
    (next & rest' & k' & Hhead & Hres & Hok' & Hr' & Hct & Hst & Hcnt & _); [by rewrite Hreq|].
  rewrite Hreq in Hhead. injection Hhead as Hn Hrest. exists k'. split_and!; [|done| | | |].
  - unfold timer_tick, array_get. rewrite Hc. exact Hres.
  - by rewrite Hcnt.
  - rewrite Hct, <- Hn. apply list_lookup_insert_eq. by eapply lookup_lt_Some.
  - rewrite Hst, <- Hn. apply fn_lookup_insert.
  - by rewrite Hr', <- Hrest.
Qed.

(** C35: round robin: while a hardware thread is only preempted by its timer, the thread
    at position [i] of the ready queue is the one running after [i + 1] ticks. *)
Theorem ready_thread_runs info hwthread k c i t :
  sched_ok k -> disable_preempt_count k !! hwthread = Some 0 ->
  cur_thread k !! hwthread = Some c -> thread_states k c = THREAD_RUNNING ->
  ready_q k !! i = Some t ->
  exists k', iterate_result (S i) (timer_tick info hwthread) k = Done k'
    /\ sched_ok k' /\ cur_thread k' !! hwthread = Some t /\ thread_states k' t = THREAD_RUNNING.
Proof.
  revert k c. induction i as [|i IH]; intros k c Hok Hc Hcur Hrun Hi;
    destruct (ready_q k) as [|x rest] eqn:Hq; try done.
  - injection Hi as ->. destruct (timer_tick_rotates info hwthread k c t rest)
      as (k' & Htick & Hok' & _ & Hcur' & Hrun' & _); auto.
    exists k'. cbn [iterate_result]. by rewrite Htick.
  - destruct (timer_tick_rotates info hwthread k c x rest)
      as (k1 & Htick & Hok1 & Hc1 & Hcur1 & Hrun1 & Hq1); auto.
    destruct (IH k1 x) as (k' & Hit & Hrest); auto.
    { rewrite Hq1. by apply lookup_app_l_Some. }
    exists k'. split; [|done]. cbn [iterate_result]. rewrite Htick. exact Hit.
Qed.

Definition two_cpus : sched :=
  {| thread_states := <[1 := THREAD_RUNNING]> (<[2 := THREAD_RUNNING]> (<[3 := THREAD_READY]>
       (<[4 := THREAD_READY]> (fun _ => THREAD_DEAD))));
     cur_thread := [1; 2]; ready_q := [3; 4]; dead_q := []; disable_preempt_count := [0; 0];
     trap_kernel_stack := [0; 0]; hw_translation_map := [0; 0] |}.

Lemma two_cpus_ok : sched_ok two_cpus.
Proof.
  assert (Hst : forall t, thread_states two_cpus t = THREAD_RUNNING /\ (t = 1 \/ t = 2)
                       \/ thread_states two_cpus t = THREAD_READY /\ (t = 3 \/ t = 4)
                       \/ thread_states two_cpus t = THREAD_DEAD /\ t <> 1 /\ t <> 2 /\ t <> 3 /\ t <> 4).
  { intros t. simpl. destruct (decide (t = 1)) as [->|]; [naive_solver|].
    destruct (decide (t = 2)) as [->|]; [naive_solver|]. destruct (decide (t = 3)) as [->|]; [naive_solver|].
    destruct (decide (t = 4)) as [->|]; [naive_solver|].
    rewrite !fn_lookup_insert_ne by congruence. naive_solver. }
  constructor; [apply (bool_decide_unpack _); reflexivity| |apply (bool_decide_unpack _); reflexivity| |];
    intros t; change (ready_q two_cpus) with [3; 4]; change (cur_thread two_cpus) with [1; 2];
    rewrite !elem_of_cons, elem_of_nil; destruct (Hst t) as [[-> ?]|[[-> ?]|[-> ?]]]; intuition congruence.
Qed.

Lemma ready_thread_runs_witness :
  exists k', iterate_result 2 (timer_tick (fun _ => Build_thread_fields 0 0) 0) two_cpus = Done k'
    /\ cur_thread k' !! 0%nat = Some 4.
Proof.
  destruct (ready_thread_runs (fun _ => Build_thread_fields 0 0) 0 two_cpus 1 1 4)
    as (k' & Hit & _ & Hcur & _); try reflexivity; [exact two_cpus_ok|].
  exists k'. split; [exact Hit|exact Hcur].
Defined.

(** [thread_exit] gives up the queue lock before it marks its thread dead: a reaper
    on another hardware thread that takes it in between fails its assertion. *)
Theorem exit_reaper_race k hwthread c reaper other :
  cur_thread k !! hwthread = Some c -> thread_states k c = THREAD_RUNNING -> dead_q k = [] ->
  cur_thread k !! reaper = Some other ->
  exists k1 k2, thread_exit_enqueue hwthread k = Done k1 /\ grim_reaper_take k1 = (Some c, k2)
    /\ destroy_thread reaper c k2 = Fault AssertFailed.
Proof.
  intros Hc Hrun Hdead Ho. unfold thread_exit_enqueue, current_thread, array_get. rewrite Hc. simpl.
  do 2 eexists. split; [done|]. unfold grim_reaper_take, destroy_thread. simpl. rewrite Hdead. simpl.
  split; [done|]. simpl. by rewrite Hrun.
Qed.

Lemma exit_reaper_race_witness :
  exists k1 k2, thread_exit_enqueue 0 two_cpus = Done k1 /\ grim_reaper_take k1 = (Some 1, k2)
    /\ destroy_thread 1 1 k2 = Fault AssertFailed.
Proof. apply (exit_reaper_race two_cpus 0 1 1 2); reflexivity. Defined.
