(* ===== verification/RwLock.v ===== *)
(** * RwLock: reader/writer locks (software/kernel/rwlock.c)

    The lock's spinlock makes each stretch of code between taking and releasing it one
    step.  [wait] gives the spinlock up before it calls [reschedule] and takes it again
    when the thread runs next, so a blocking call is three steps; the system below
    interleaves the steps of every thread with the scheduler of Sched. *)

From S2P Require Export Sched.
From stdpp Require Import list gmap functions.
Import stdpp.list_relations.list.

#[local] Open Scope Z_scope.
#[local] Set Warnings "-clear-no-such-hyp".

(** ** The lock *)

Record rwlock := {
  write_locked : Z;
  active_read_count : Z;
  reader_wait_list : list Z;
  writer_wait_list : list Z
}.

#[export]
Instance rwlock_fields : Fields rwlock := fun m =>
  Build_rwlock (write_locked m) (active_read_count m) (reader_wait_list m) (writer_wait_list m).

Definition init_rwlock : rwlock := Build_rwlock 0 0 [] [].

Definition wait_list_is_empty (l : list Z) : bool := match l with [] => true | _ => false end.

(** The first half of [rwlock_lock_read] in thread [self]; whether it has to wait. *)
Definition rwlock_lock_read (self : Z) (m : rwlock) (k : sched) : bool * rwlock * sched :=
  if negb (wait_list_is_empty (writer_wait_list m)) || negb (write_locked m =? 0)
  then (true, m <| reader_wait_list := reader_wait_list m ++ [self] |>,
        set_state self THREAD_WAITING k)
  else (false, m <| active_read_count := active_read_count m + 1 |>, k).

Definition rwlock_lock_read_done (m : rwlock) : result unit := kassert (write_locked m =? 0).

Definition rwlock_unlock_read (m : rwlock) (k : sched) : result (rwlock * sched) :=
  _ <-- kassert (write_locked m =? 0);;
  _ <-- kassert (0 <? active_read_count m);;
  let m := m <| active_read_count := active_read_count m - 1 |> in
  match writer_wait_list m with
  | w :: rest =>
      if active_read_count m =? 0 then
        k <-- make_thread_ready w k;;
        Done (m <| write_locked := 1 |> <| writer_wait_list := rest |>, k)
      else Done (m, k)
  | [] => Done (m, k)
  end.

Definition rwlock_lock_write (self : Z) (m : rwlock) (k : sched) : bool * rwlock * sched :=
  if (0 <? active_read_count m) || negb (write_locked m =? 0)
  then (true, m <| writer_wait_list := writer_wait_list m ++ [self] |>,
        set_state self THREAD_WAITING k)
  else (false, m, k).

Definition rwlock_lock_write_done (m : rwlock) : result rwlock :=
  _ <-- kassert (active_read_count m =? 0);; Done (m <| write_locked := 1 |>).

(** The loop that wakes every waiting reader. *)
Fixpoint wake_readers (waiting : list Z) (count : Z) (k : sched) : result (Z * sched) :=
  match waiting with
  | [] => Done (count, k)
  | r :: rest => k <-- make_thread_ready r k;; wake_readers rest (count + 1) k
  end.

Definition rwlock_unlock_write (m : rwlock) (k : sched) : result (rwlock * sched) :=
  _ <-- kassert (negb (write_locked m =? 0));;
  _ <-- kassert (active_read_count m =? 0);;
  match reader_wait_list m, writer_wait_list m with
  | _ :: _, _ =>
      '(count, k) <-- wake_readers (reader_wait_list m) (active_read_count m) k;;
      Done (m <| reader_wait_list := [] |> <| active_read_count := count |> <| write_locked := 0 |>, k)
  | [], w :: rest =>
      k <-- make_thread_ready w k;; Done (m <| writer_wait_list := rest |>, k)
  | [], [] => Done (m <| write_locked := 0 |>, k)
  end.

(** ** Threads that use the lock *)

(** Where a thread is: outside; having queued itself, with [reschedule] still to call;
    back from [reschedule], with the assertion still to come; holding the lock. *)
Inductive point := Outside | ReadQueued | ReadBack | Reading | WriteQueued | WriteBack | Writing.

#[export]
Instance point_eq_dec : EqDecision point.
Proof. solve_decision. Defined.

Record system := { lock : rwlock; threads : sched; points : Z -> point }.

(** What the current thread of a hardware thread may do next; [Tick] is its timer. *)
Inductive action := LockRead | UnlockRead | LockWrite | UnlockWrite | Continue | Tick.

Section system.
Context (info : Z -> thread_fields).

Definition move (t : Z) (p : point) (m : rwlock) (k : sched) (s : system) : system :=
  {| lock := m; threads := k; points := <[t := p]> (points s) |}.

(** [None] when the action is not one the thread can take there.  Interrupts stay off
    from queueing to the end of the call, so no timer comes in between. *)
Definition step (hw : nat) (a : action) (s : system) : option (result system) :=
  let m := lock s in
  let k := threads s in
  match cur_thread k !! hw with
  | None => None
  | Some t =>
      match a, points s t with
      | LockRead, Outside =>
          let '(waits, m, k) := rwlock_lock_read t m k in
          Some (if waits : bool then Done (move t ReadQueued m k s)
                else _ <-- rwlock_lock_read_done m;; Done (move t Reading m k s))
      | LockWrite, Outside =>
          let '(waits, m, k) := rwlock_lock_write t m k in
          Some (if waits : bool then Done (move t WriteQueued m k s)
                else m <-- rwlock_lock_write_done m;; Done (move t Writing m k s))
      | Continue, ReadQueued => Some (k <-- reschedule info hw k;; Done (move t ReadBack m k s))
      | Continue, WriteQueued => Some (k <-- reschedule info hw k;; Done (move t WriteBack m k s))
      | Continue, ReadBack =>
          Some (_ <-- rwlock_lock_read_done m;; Done (move t Reading m k s))
      | Continue, WriteBack =>
          Some (m <-- rwlock_lock_write_done m;; Done (move t Writing m k s))
      | UnlockRead, Reading =>
          Some ('(m, k) <-- rwlock_unlock_read m k;; Done (move t Outside m k s))
      | UnlockWrite, Writing =>
          Some ('(m, k) <-- rwlock_unlock_write m k;; Done (move t Outside m k s))
      | Tick, (Outside | Reading | Writing) =>
          Some (k <-- timer_tick info hw k;; Done {| lock := m; threads := k; points := points s |})
      | _, _ => None
      end
  end.
End system.

(** ** The lock's invariant *)

(** A thread that was woken counts as holding the lock from that moment. *)
Definition reads (m : rwlock) (pts : Z -> point) (t : Z) : Prop :=
  pts t = Reading \/ (pts t = ReadQueued \/ pts t = ReadBack) /\ t ∉ reader_wait_list m.
Definition writes (m : rwlock) (pts : Z -> point) (t : Z) : Prop :=
  pts t = Writing \/ (pts t = WriteQueued \/ pts t = WriteBack) /\ t ∉ writer_wait_list m.

(** [R] and [W] are the readers and writers inside.  The last two say that nobody waits
    without somebody inside who will wake them. *)
Record lock_inv (m : rwlock) (pts : Z -> point) (R W : list Z) : Prop := {
  li_readers : NoDup R /\ forall t, t ∈ R <-> reads m pts t;
  li_writers : forall t, t ∈ W <-> writes m pts t;
  li_count : active_read_count m = Z.of_nat (length R);
  li_excl : W = [] /\ write_locked m = 0 \/ (exists t, W = [t]) /\ write_locked m = 1 /\ R = [];
  li_rwait : NoDup (reader_wait_list m)
             /\ forall t, t ∈ reader_wait_list m -> pts t = ReadQueued \/ pts t = ReadBack;
  li_wwait : NoDup (writer_wait_list m)
             /\ forall t, t ∈ writer_wait_list m -> pts t = WriteQueued \/ pts t = WriteBack;
  li_rwake : reader_wait_list m <> [] -> W <> [] \/ writer_wait_list m <> [];
  li_wwake : writer_wait_list m <> [] -> W <> [] \/ R <> []
}.

Ltac at_point t' t :=
  destruct (decide (t' = t)) as [->|];
  [rewrite fn_lookup_insert|rewrite fn_lookup_insert_ne by congruence].

Section lock_inv.
Context (m : rwlock) (pts : Z -> point) (R W : list Z) (t : Z).
Context (Hinv : lock_inv m pts R W).

Lemma not_waiting :
  pts t <> ReadQueued -> pts t <> ReadBack -> t ∉ reader_wait_list m.
Proof. intros H1 H2 Hin. destruct Hinv as [_ _ _ _ [_ H] _ _ _]. by destruct (H t Hin). Qed.

Lemma not_waiting_write :
  pts t <> WriteQueued -> pts t <> WriteBack -> t ∉ writer_wait_list m.
Proof. intros H1 H2 Hin. destruct Hinv as [_ _ _ _ _ [_ H] _ _]. by destruct (H t Hin). Qed.

(** Points that agree on who reads, writes and waits. *)
Lemma lock_inv_points pts' :
  (forall t', reads m pts' t' <-> reads m pts t') ->
  (forall t', writes m pts' t' <-> writes m pts t') ->
  (forall t', t' ∈ reader_wait_list m -> pts' t' = ReadQueued \/ pts' t' = ReadBack) ->
  (forall t', t' ∈ writer_wait_list m -> pts' t' = WriteQueued \/ pts' t' = WriteBack) ->
  lock_inv m pts' R W.
Proof.
  intros Hr Hw H1 H2. destruct Hinv as [[? ?] ? ? ? [? ?] [? ?] ? ?].
  constructor; try done; [split; [done|]|]; intros t'; [rewrite Hr|rewrite Hw]; auto.
Qed.

Lemma lock_read_waits :
  pts t = Outside -> writer_wait_list m <> [] \/ write_locked m <> 0 ->
  lock_inv (m <| reader_wait_list := reader_wait_list m ++ [t] |>) (<[t := ReadQueued]> pts) R W.
Proof.
  intros Hout Hwait. pose proof (not_waiting ltac:(congruence) ltac:(congruence)) as Hnot.
  destruct Hinv as [[HR1 HR2] HW Hc Hex [Hr1 Hr2] [Hw1 Hw2] Hwk1 Hwk2].
  constructor; simpl; try done.
  - split; [done|]. intros t'. rewrite HR2. unfold reads. simpl. rewrite elem_of_app, list_elem_of_singleton.
    at_point t' t; [rewrite Hout|]; naive_solver.
  - intros t'. rewrite HW. unfold writes. simpl. at_point t' t; [rewrite Hout|]; naive_solver.
  - split; [by apply NoDup_snoc|]. intros t'. rewrite elem_of_app, list_elem_of_singleton.
    at_point t' t; naive_solver.
  - split; [done|]. intros t' Hin. at_point t' t; [|auto]. destruct (Hw2 _ Hin); congruence.
  - naive_solver.
Qed.

Lemma lock_read_goes :
  pts t = Outside -> writer_wait_list m = [] -> write_locked m = 0 ->
  lock_inv (m <| active_read_count := active_read_count m + 1 |>) (<[t := Reading]> pts) (t :: R) W.
Proof.
  intros Hout Hww Hwl. pose proof (not_waiting ltac:(congruence) ltac:(congruence)) as Hnot.
  destruct Hinv as [[HR1 HR2] HW Hc Hex [Hr1 Hr2] [Hw1 Hw2] Hwk1 Hwk2].
  constructor; simpl; try done.
  - split.
    + constructor; [|done]. rewrite HR2. unfold reads. rewrite Hout. naive_solver.
    + intros t'. rewrite elem_of_cons, HR2. unfold reads. simpl. at_point t' t; naive_solver.
  - intros t'. rewrite HW. unfold writes. simpl. at_point t' t; [rewrite Hout|]; naive_solver.
  - rewrite Hc. lia.
  - left. naive_solver lia.
  - split; [done|]. intros t' Hin. at_point t' t; [done|auto].
  - split; [done|]. rewrite Hww. intros t' Hin. by apply elem_of_nil in Hin.
Qed.

Lemma read_back : pts t = ReadBack -> t ∉ reader_wait_list m -> lock_inv m (<[t := Reading]> pts) R W.
Proof.
  intros Hp Hnot. destruct Hinv as [_ _ _ _ [_ Hr2] [_ Hw2] _ _].
  apply lock_inv_points.
  - intros t'. unfold reads. at_point t' t; [rewrite Hp|]; naive_solver.
  - intros t'. unfold writes. at_point t' t; [rewrite Hp|]; naive_solver.
  - intros t' Hin. at_point t' t; [done|auto].
  - intros t' Hin. at_point t' t; [destruct (Hw2 _ Hin); congruence|auto].
Qed.

Lemma write_back : pts t = WriteBack -> t ∉ writer_wait_list m -> lock_inv m (<[t := Writing]> pts) R W.
Proof.
  intros Hp Hnot. destruct Hinv as [_ _ _ _ [_ Hr2] [_ Hw2] _ _].
  apply lock_inv_points.
  - intros t'. unfold reads. at_point t' t; [rewrite Hp|]; naive_solver.
  - intros t'. unfold writes. at_point t' t; [rewrite Hp|]; naive_solver.
  - intros t' Hin. at_point t' t; [destruct (Hr2 _ Hin); congruence|auto].
  - intros t' Hin. at_point t' t; [done|auto].
Qed.

(** A queued thread comes back from [reschedule]. *)
Lemma queued_back :
  pts t = ReadQueued -> lock_inv m (<[t := ReadBack]> pts) R W.
Proof.
  intros Hp. destruct Hinv as [_ _ _ _ [_ Hr2] [_ Hw2] _ _]. apply lock_inv_points.
  - intros t'. unfold reads. at_point t' t; [rewrite Hp|]; naive_solver.
  - intros t'. unfold writes. at_point t' t; [rewrite Hp|]; naive_solver.
  - intros t' Hin. at_point t' t; auto.
  - intros t' Hin. at_point t' t; [destruct (Hw2 _ Hin); congruence|auto].
Qed.

Lemma queued_back_write :
  pts t = WriteQueued -> lock_inv m (<[t := WriteBack]> pts) R W.
Proof.
  intros Hp. destruct Hinv as [_ _ _ _ [_ Hr2] [_ Hw2] _ _]. apply lock_inv_points.
  - intros t'. unfold reads. at_point t' t; [rewrite Hp|]; naive_solver.
  - intros t'. unfold writes. at_point t' t; [rewrite Hp|]; naive_solver.
  - intros t' Hin. at_point t' t; [destruct (Hr2 _ Hin); congruence|auto].
  - intros t' Hin. at_point t' t; auto.
Qed.

Lemma lock_write_waits :
  pts t = Outside -> 0 < active_read_count m \/ write_locked m <> 0 ->
  lock_inv (m <| writer_wait_list := writer_wait_list m ++ [t] |>) (<[t := WriteQueued]> pts) R W.
Proof.
  intros Hout Hwait. pose proof (not_waiting_write ltac:(congruence) ltac:(congruence)) as Hnot.
  destruct Hinv as [[HR1 HR2] HW Hc Hex [Hr1 Hr2] [Hw1 Hw2] Hwk1 Hwk2].
  constructor; simpl; try done.
  - split; [done|]. intros t'. rewrite HR2. unfold reads. simpl. at_point t' t; [rewrite Hout|]; naive_solver.
  - intros t'. rewrite HW. unfold writes. simpl. rewrite elem_of_app, list_elem_of_singleton.
    at_point t' t; [rewrite Hout|]; naive_solver.
  - split; [done|]. intros t' Hin. at_point t' t; [|auto]. destruct (Hr2 _ Hin); congruence.
  - split; [by apply NoDup_snoc|]. intros t'. rewrite elem_of_app, list_elem_of_singleton.
    at_point t' t; naive_solver.
  - intros _. right. by destruct (writer_wait_list m).
  - intros _. destruct Hwait as [Hpos|Hwl]; [right|left].
    + rewrite Hc in Hpos. by destruct R.
    + naive_solver.
Qed.

Lemma lock_write_goes :
  pts t = Outside -> active_read_count m = 0 -> write_locked m = 0 ->
  lock_inv (m <| write_locked := 1 |>) (<[t := Writing]> pts) R [t].
Proof.
  intros Hout Hcnt Hwl. pose proof (not_waiting_write ltac:(congruence) ltac:(congruence)) as Hnot.
  destruct Hinv as [[HR1 HR2] HW Hc Hex [Hr1 Hr2] [Hw1 Hw2] Hwk1 Hwk2].
  assert (R = []) by (destruct R; simpl in *; [done|lia]). assert (W = []) by naive_solver lia.
  constructor; simpl; try done.
  - split; [done|]. intros t'. rewrite HR2. unfold reads. simpl. at_point t' t; [rewrite Hout|]; naive_solver.
  - intros t'. rewrite list_elem_of_singleton. specialize (HW t'). subst W.
    rewrite elem_of_nil in HW. unfold writes in *. simpl in *. at_point t' t; naive_solver.
  - right. naive_solver.
  - split; [done|]. intros t' Hin. at_point t' t; [|auto]. destruct (Hr2 _ Hin); congruence.
  - split; [done|]. intros t' Hin. at_point t' t; [done|auto].
  - by left.
  - by left.
Qed.

(** The last reader out hands the lock to the first waiting writer. *)
Lemma unlock_read_gone :
  pts t = Reading ->
  write_locked m = 0 /\ 0 < active_read_count m
  /\ exists R', R ≡ₚ t :: R' /\ W = [] /\ active_read_count m - 1 = Z.of_nat (length R')
       /\ (writer_wait_list m = [] -> reader_wait_list m = []).
Proof.
  intros Hp. destruct Hinv as [[HR1 HR2] HW Hc Hex [Hr1 Hr2] [Hw1 Hw2] Hwk1 Hwk2].
  assert (Hin : t ∈ R) by (apply HR2; by left).
  apply elem_of_Permutation in Hin as [R' HR'].
  assert (Hlen : length R = S (length R')) by by rewrite HR'.
  destruct Hex as [[HW0 Hwl]|(_ & _ & HR0)]; [|by rewrite HR0 in Hlen].
  split; [done|]. split; [lia|]. exists R'. split_and!; [done|done|lia|].
  intros Hww. destruct (reader_wait_list m); [done|]. destruct Hwk1; naive_solver.
Qed.

Lemma unlock_read_stays R' :
  pts t = Reading -> R ≡ₚ t :: R' -> W = [] -> write_locked m = 0 ->
  active_read_count m - 1 = Z.of_nat (length R') ->
  (writer_wait_list m = [] -> reader_wait_list m = []) ->
  (writer_wait_list m <> [] -> R' <> []) ->
  lock_inv (m <| active_read_count := active_read_count m - 1 |>) (<[t := Outside]> pts) R' [].
Proof.
  intros Hp HR' HW0 Hwl Hc' Hrw Hww.
  destruct Hinv as [[HR1 HR2] HW Hc Hex [Hr1 Hr2] [Hw1 Hw2] Hwk1 Hwk2].
  assert (HinR : forall x, x ∈ R <-> x = t \/ x ∈ R') by (intros x; by rewrite HR', elem_of_cons).
  rewrite HR' in HR1. apply NoDup_cons in HR1 as [HtR HR1]. rewrite HW0 in HW.
  constructor; simpl; try done.
  - split; [done|]. intros t'. specialize (HR2 t'). rewrite HinR in HR2. unfold reads in *. simpl.
    at_point t' t; naive_solver.
  - intros t'. rewrite HW. unfold writes. simpl. at_point t' t; [rewrite Hp|]; naive_solver.
  - by left.
  - split; [done|]. intros t' Hin. at_point t' t; [|auto]. destruct (Hr2 _ Hin); congruence.
  - split; [done|]. intros t' Hin. at_point t' t; [|auto]. destruct (Hw2 _ Hin); congruence.
  - intros Hne. right. intros Hw0. by apply Hne, Hrw.
  - intros Hne. right. auto.
Qed.

Lemma unlock_read_hands_over w rest :
  pts t = Reading -> R ≡ₚ [t] -> W = [] -> writer_wait_list m = w :: rest ->
  lock_inv (m <| active_read_count := 0 |> <| write_locked := 1 |> <| writer_wait_list := rest |>)
    (<[t := Outside]> pts) [] [w].
Proof.
  intros Hp HR' HW0 Hww. destruct Hinv as [[HR1 HR2] HW Hc Hex [Hr1 Hr2] [Hw1 Hw2] Hwk1 Hwk2].
  assert (HinR : forall x, x ∈ R <-> x = t) by (intros x; by rewrite HR', list_elem_of_singleton).
  rewrite HW0 in HW. rewrite Hww in Hw1, Hw2. apply NoDup_cons in Hw1 as [Hwr Hw1].
  assert (Hwt : w <> t) by (intros ->; destruct (Hw2 t); [by left|congruence..]).
  constructor; simpl; try done.
  - split; [constructor|]. intros t'. specialize (HR2 t'). rewrite HinR in HR2. rewrite elem_of_nil.
    unfold reads in *. simpl. at_point t' t; naive_solver.
  - intros t'. specialize (HW t'). rewrite elem_of_nil in HW. rewrite list_elem_of_singleton.
    unfold writes in *. simpl. rewrite Hww, elem_of_cons in HW. at_point t' t; [naive_solver|].
    specialize (Hw2 t'). rewrite elem_of_cons in Hw2. destruct (decide (t' = w)) as [->|]; naive_solver.
  - right. naive_solver.
  - split; [done|]. intros t' Hin. at_point t' t; [|auto]. destruct (Hr2 _ Hin); congruence.
  - split; [done|]. intros t' Hin. assert (Hin' : t' ∈ w :: rest) by by right.
    at_point t' t; [|auto]. destruct (Hw2 _ Hin'); congruence.
  - by left.
  - by left.
Qed.

Lemma unlock_write_holds :
  pts t = Writing -> W = [t] /\ R = [] /\ write_locked m = 1 /\ active_read_count m = 0.
Proof.
  intros Hp. destruct Hinv as [_ HW Hc Hex _ _ _ _].
  assert (Hin : t ∈ W) by (apply HW; by left).
  destruct Hex as [[-> _]|([u ->] & Hwl & ->)]; [by apply elem_of_nil in Hin|].
  apply list_elem_of_singleton in Hin as ->. done.
Qed.

(** A writer that leaves lets every waiting reader in at once. *)
Lemma unlock_write_readers :
  pts t = Writing -> reader_wait_list m <> [] ->
  lock_inv (m <| reader_wait_list := [] |>
              <| active_read_count := Z.of_nat (length (reader_wait_list m)) |>
              <| write_locked := 0 |>) (<[t := Outside]> pts) (reader_wait_list m) [].
Proof.
  intros Hp Hne. destruct (unlock_write_holds Hp) as (HW0 & HR0 & Hwl & Hcnt).
  destruct Hinv as [[HR1 HR2] HW Hc Hex [Hr1 Hr2] [Hw1 Hw2] Hwk1 Hwk2].
  rewrite HR0 in HR2. rewrite HW0 in HW.
  constructor; simpl; try done.
  - split; [done|]. intros t'. specialize (HR2 t'). rewrite elem_of_nil in HR2.
    specialize (Hr2 t'). unfold reads in *. simpl. at_point t' t.
    + split; [intros Hin; destruct (Hr2 Hin); congruence|naive_solver].
    + split; [intros Hin; right; split; [auto|apply not_elem_of_nil]|].
      intros Hrd. destruct (decide (t' ∈ reader_wait_list m)); tauto.
  - intros t'. specialize (HW t'). rewrite list_elem_of_singleton in HW. rewrite elem_of_nil.
    unfold writes in *. simpl. at_point t' t; naive_solver.
  - by left.
  - split; [constructor|]. intros t' Hin. by apply elem_of_nil in Hin.
  - split; [done|]. intros t' Hin. at_point t' t; [|auto]. destruct (Hw2 _ Hin); congruence.
  - intros _. by right.
Qed.

Lemma unlock_write_writer w rest :
  pts t = Writing -> reader_wait_list m = [] -> writer_wait_list m = w :: rest ->
  lock_inv (m <| writer_wait_list := rest |>) (<[t := Outside]> pts) [] [w].
Proof.
  intros Hp Hrw Hww. destruct (unlock_write_holds Hp) as (HW0 & HR0 & Hwl & Hcnt).
  destruct Hinv as [[HR1 HR2] HW Hc Hex [Hr1 Hr2] [Hw1 Hw2] Hwk1 Hwk2].
  rewrite HR0 in HR2. rewrite HW0 in HW. rewrite Hww in Hw1, Hw2.
  apply NoDup_cons in Hw1 as [Hwr Hw1].
  assert (Hwt : w <> t) by (intros ->; destruct (Hw2 t); [by left|congruence..]).
  constructor; simpl; try done.
  - split; [constructor|]. intros t'. rewrite HR2. unfold reads. simpl.
    at_point t' t; [rewrite Hp|]; naive_solver.
  - intros t'. specialize (HW t'). rewrite list_elem_of_singleton in HW. rewrite list_elem_of_singleton.
    unfold writes in *. simpl. rewrite Hww, elem_of_cons in HW. at_point t' t; [naive_solver|].
    specialize (Hw2 t'). rewrite elem_of_cons in Hw2. destruct (decide (t' = w)) as [->|]; naive_solver.
  - right. naive_solver.
  - rewrite Hrw. split; [constructor|]. intros t' Hin. by apply elem_of_nil in Hin.
  - split; [done|]. intros t' Hin. assert (Hin' : t' ∈ w :: rest) by by right.
    at_point t' t; [|auto]. destruct (Hw2 _ Hin'); congruence.
  - by left.
Qed.

Lemma unlock_write_free :
  pts t = Writing -> reader_wait_list m = [] -> writer_wait_list m = [] ->
  lock_inv (m <| write_locked := 0 |>) (<[t := Outside]> pts) [] [].
Proof.
  intros Hp Hrw Hww. destruct (unlock_write_holds Hp) as (HW0 & HR0 & Hwl & Hcnt).
  destruct Hinv as [[HR1 HR2] HW Hc Hex [Hr1 Hr2] [Hw1 Hw2] Hwk1 Hwk2].
  rewrite HR0 in HR2. rewrite HW0 in HW.
  constructor; simpl; try done; rewrite ?Hrw, ?Hww; try done.
  - split; [constructor|]. intros t'. rewrite HR2. unfold reads. simpl. rewrite Hrw.
    at_point t' t; [rewrite Hp|]; naive_solver.
  - intros t'. specialize (HW t'). rewrite list_elem_of_singleton in HW. rewrite elem_of_nil.
    unfold writes in *. simpl. at_point t' t; naive_solver.
  - by left.
  - split; [constructor|]. intros t' Hin. by apply elem_of_nil in Hin.
  - split; [constructor|]. intros t' Hin. by apply elem_of_nil in Hin.
Qed.
End lock_inv.

(** ** One hardware thread *)

Definition runnable (k : sched) (t : Z) : Prop :=
  thread_states k t = THREAD_READY \/ thread_states k t = THREAD_RUNNING.

(** The waiting threads are the lock's queues; a thread that has queued itself and not
    yet called [reschedule] is the current one. *)
Record sys_inv (idle : Z) (s : system) (c : Z) (R W : list Z) : Prop := {
  si_lock : lock_inv (lock s) (points s) R W;
  si_sched : sched_ok (threads s);
  si_cur : cur_thread (threads s) = [c];
  si_count : disable_preempt_count (threads s) = [0];
  si_wait : forall t, thread_states (threads s) t = THREAD_WAITING
              <-> t ∈ reader_wait_list (lock s) \/ t ∈ writer_wait_list (lock s);
  si_queued : forall t, points s t = ReadQueued \/ points s t = WriteQueued ->
              t = c /\ thread_states (threads s) t = THREAD_WAITING;
  si_state : thread_states (threads s) c = THREAD_RUNNING
             \/ points s c = ReadQueued \/ points s c = WriteQueued;
  si_idle : points s idle = Outside /\ runnable (threads s) idle
}.

(** [reschedule] always finds a thread, and changes nobody's waiting. *)
Lemma reschedule_runs info k c idle :
  sched_ok k -> cur_thread k = [c] -> disable_preempt_count k = [0] -> runnable k idle ->
  exists next k', reschedule info 0 k = Done k' /\ sched_ok k' /\ cur_thread k' = [next]
    /\ disable_preempt_count k' = [0] /\ thread_states k' next = THREAD_RUNNING /\ runnable k' idle
    /\ forall t, thread_states k' t = THREAD_WAITING <-> thread_states k t = THREAD_WAITING.
Proof.
  intros Hok Hcur Hcnt Hidle.
  assert (Hne : ready_q (requeued c k) <> []).
  { unfold requeued. case_bool_decide as Hc; simpl; [by destruct (ready_q k)|].
    destruct Hidle as [Hr|Hr].
    - apply (ok_ready k Hok) in Hr. intros He. rewrite He in Hr. by apply elem_of_nil in Hr.
    - pose proof (ok_running k Hok _ Hr) as Hin. rewrite Hcur in Hin.
      apply list_elem_of_singleton in Hin as ->. done. }
  destruct (reschedule_ok info 0 k c Hok) as
    (next & rest & k' & Hq & Hres & Hok' & _ & Hct & Hst & Hcnt' & _); [by rewrite Hcnt|by rewrite Hcur|done|].
  assert (Hin : c ∈ cur_thread k) by (rewrite Hcur; by left).
  destruct (requeued_facts k c Hok Hin) as (_ & Hready & _ & _).
  assert (Hnext : thread_states (requeued c k) next = THREAD_READY) by (apply Hready; rewrite Hq; by left).
  exists next, k'. split_and!; [done|done|by rewrite Hct, Hcur|by rewrite Hcnt'| | |].
  - rewrite Hst. apply fn_lookup_insert.
  - unfold runnable in *. rewrite Hst. at_point idle next; [by right|].
    unfold requeued. case_bool_decide; simpl; [|done]. at_point idle c; [by left|done].
  - intros t. rewrite Hst. at_point t next.
    + unfold requeued in Hnext. case_bool_decide as Hc; simpl in Hnext; [|split; congruence].
      destruct (decide (next = c)) as [->|]; [split; congruence|].
      rewrite fn_lookup_insert_ne in Hnext by congruence. split; congruence.
    + unfold requeued. case_bool_decide as Hc; simpl; [|done]. at_point t c; [split; congruence|done].
Qed.

Lemma wake_ok k c w :
  sched_ok k -> cur_thread k = [c] -> w <> c -> thread_states k w = THREAD_WAITING ->
  exists k', make_thread_ready w k = Done k' /\ sched_ok k' /\ cur_thread k' = [c]
    /\ disable_preempt_count k' = disable_preempt_count k
    /\ thread_states k' = <[w := THREAD_READY]> (thread_states k).
Proof.
  intros Hok Hcur Hne Hw. rewrite make_thread_ready_waiting, bool_decide_true by done.
  eexists. split; [done|]. split_and!; [|done|done|done].
  apply enqueue_ok; [done|congruence|]. rewrite Hcur. by rewrite list_elem_of_singleton.
Qed.

Lemma wake_readers_ok ws : forall k c n,
  sched_ok k -> cur_thread k = [c] -> c ∉ ws -> NoDup ws ->
  (forall w, w ∈ ws -> thread_states k w = THREAD_WAITING) ->
  exists k', wake_readers ws n k = Done (n + Z.of_nat (length ws), k') /\ sched_ok k'
    /\ cur_thread k' = [c] /\ disable_preempt_count k' = disable_preempt_count k
    /\ forall t, thread_states k' t = if decide (t ∈ ws) then THREAD_READY else thread_states k t.
Proof.
  induction ws as [|w ws IH]; intros k c n Hok Hcur Hc Hnd Hw; simpl.
  - exists k. split_and!; try done. by rewrite Z.add_0_r.
  - rewrite not_elem_of_cons in Hc. apply NoDup_cons in Hnd as [Hnew Hnd].
    destruct (wake_ok k c w) as (k1 & -> & Hok1 & Hcur1 & Hcnt1 & Hst1);
      [done|done|naive_solver|apply Hw; by left|].
    destruct (IH k1 c (n + 1)) as (k' & Hwake & Hok' & Hcur' & Hcnt' & Hst'); [done|done|tauto|done| |].
    { intros u Hu. rewrite Hst1. at_point u w; [done|]. apply Hw. by right. }
    exists k'. split_and!; [|done|done|congruence|].
    + simpl. rewrite Hwake. do 2 f_equal. lia.
    + intros t. rewrite Hst', Hst1. destruct (decide (t ∈ ws)) as [Hin|Hin].
      * by rewrite decide_True by by right.
      * at_point t w; [by rewrite decide_True by by left|].
        rewrite decide_False; [done|]. rewrite elem_of_cons. naive_solver.
Qed.

Lemma park_ok k c :
  sched_ok k -> c ∈ cur_thread k -> thread_states k c <> THREAD_READY ->
  sched_ok (set_state c THREAD_WAITING k).
Proof.
  intros [H1 H2 H3 H4 H5] Hc Hst. constructor; simpl; [done| |done| |].
  - intros t. rewrite H2. at_point t c; split; congruence.
  - intros t Ht. at_point t c; [done|auto].
  - intros t. at_point t c; [done|auto].
Qed.

Section one_cpu.
Context (info : Z -> thread_fields) (idle : Z) (s : system) (c : Z) (R W : list Z).
Context (Hinv : sys_inv idle s c R W) (Hidle : c <> idle).

Definition goes (r : result system) : Prop :=
  exists s' c' R' W', r = Done s' /\ sys_inv idle s' c' R' W'.

Lemma cur_running :
  points s c <> ReadQueued -> points s c <> WriteQueued ->
  thread_states (threads s) c = THREAD_RUNNING
  /\ (c ∉ reader_wait_list (lock s)) /\ (c ∉ writer_wait_list (lock s)).
Proof.
  intros H1 H2. destruct Hinv as [_ _ _ _ Hw _ [Hst|[?|?]] _]; [|done..].
  split; [done|]. specialize (Hw c). rewrite Hst in Hw. split; intros Hin; naive_solver.
Qed.

(** The current thread queues itself. *)
Lemma queues m' p R' W' :
  points s c = Outside -> p = ReadQueued \/ p = WriteQueued ->
  lock_inv m' (<[c := p]> (points s)) R' W' ->
  (forall t, t ∈ reader_wait_list m' \/ t ∈ writer_wait_list m'
    <-> t = c \/ t ∈ reader_wait_list (lock s) \/ t ∈ writer_wait_list (lock s)) ->
  goes (Done (move c p m' (set_state c THREAD_WAITING (threads s)) s)).
Proof.
  intros Hout Hp Hlock Hlists. destruct cur_running as [Hrun _]; [congruence..|].
  destruct Hinv as [_ Hok Hcur Hcnt Hw Hq _ [Hi1 Hi2]].
  exists (move c p m' (set_state c THREAD_WAITING (threads s)) s), c, R', W'.
  split; [done|]. constructor; simpl; try done.
  - apply park_ok; [done|rewrite Hcur; by left|congruence].
  - intros t. rewrite Hlists. at_point t c; [tauto|]. rewrite Hw. tauto.
  - intros t. at_point t c; [|intros Ht; by destruct (Hq t Ht)].
    intros _. split; [done|apply fn_lookup_insert].
  - right. by rewrite fn_lookup_insert.
  - rewrite fn_lookup_insert_ne by congruence. split; [done|].
    unfold runnable in *. simpl. by rewrite fn_lookup_insert_ne by congruence.
Qed.

(** The current thread goes on running, at another point of its code. *)
Lemma stays m' k' p R' W' :
  points s c <> ReadQueued -> points s c <> WriteQueued -> p <> ReadQueued -> p <> WriteQueued ->
  lock_inv m' (<[c := p]> (points s)) R' W' -> sched_ok k' -> cur_thread k' = [c] ->
  disable_preempt_count k' = [0] ->
  thread_states k' c = THREAD_RUNNING -> runnable k' idle ->
  (forall t, thread_states k' t = THREAD_WAITING
    <-> t ∈ reader_wait_list m' \/ t ∈ writer_wait_list m') ->
  goes (Done (move c p m' k' s)).
Proof.
  intros Hq1 Hq2 Hp1 Hp2 Hlock Hok' Hcur' Hcnt' Hrun' Hidle' Hw'.
  destruct Hinv as [_ Hok Hcur Hcnt Hw Hq _ [Hi1 Hi2]].
  exists (move c p m' k' s), c, R', W'. split; [done|]. constructor; simpl; try done.
  - intros t. at_point t c; [tauto|]. intros Ht. by destruct (Hq t Ht).
  - by left.
  - split; [|done]. by rewrite fn_lookup_insert_ne by congruence.
Qed.

(** The current thread gives the processor to another. *)
Lemma switches p R' W' :
  lock_inv (lock s) (<[c := p]> (points s)) R' W' -> p <> ReadQueued -> p <> WriteQueued ->
  goes (k <-- reschedule info 0 (threads s);; Done (move c p (lock s) k s)).
Proof.
  intros Hlock Hp1 Hp2. destruct Hinv as [_ Hok Hcur Hcnt Hw Hq _ [Hi1 Hi2]].
  destruct (reschedule_runs info (threads s) c idle Hok Hcur Hcnt Hi2)
    as (next & k' & -> & Hok' & Hcur' & Hcnt' & Hrun' & Hidle' & Hw').
  exists (move c p (lock s) k' s), next, R', W'. split; [done|]. constructor; simpl; try done.
  - intros t. by rewrite Hw'.
  - intros t. at_point t c; [tauto|]. intros Ht. by destruct (Hq t Ht).
  - by left.
  - split; [|done]. by rewrite fn_lookup_insert_ne by congruence.
Qed.

Lemma steps_lock_read r :
  points s c = Outside -> step info 0 LockRead s = Some r -> goes r.
Proof.
  intros Hout. unfold step. rewrite (si_cur _ _ _ _ _ Hinv). simpl. rewrite Hout.
  unfold rwlock_lock_read. pose proof (si_lock _ _ _ _ _ Hinv) as Hl.
  assert (Hcase : (writer_wait_list (lock s) <> [] \/ write_locked (lock s) <> 0)
                  \/ (writer_wait_list (lock s) = [] /\ write_locked (lock s) = 0)).
  { destruct (writer_wait_list (lock s)); [|left; by left].
    destruct (decide (write_locked (lock s) = 0)); auto. }
  destruct Hcase as [Hwait|[Hww Hwl]].
  - replace (negb _ || negb _) with true.
    2: { symmetry. apply orb_true_iff. destruct Hwait as [Hw|Hw]; [left|right].
         - by destruct (writer_wait_list (lock s)).
         - apply negb_true_iff. by apply Z.eqb_neq. }
    injection 1 as <-. apply (queues _ _ R W); [done|by left|by apply lock_read_waits|].
    intros t. simpl. rewrite elem_of_app, list_elem_of_singleton. tauto.
  - rewrite Hww, Hwl. simpl. injection 1 as <-. unfold rwlock_lock_read_done. simpl. rewrite Hwl. simpl.
    destruct cur_running as (Hrun & _); [congruence..|].
    apply (stays _ _ _ (c :: R) W); try congruence; try apply Hinv.
    apply lock_read_goes; auto.
Qed.

Lemma steps_lock_write r :
  points s c = Outside -> step info 0 LockWrite s = Some r -> goes r.
Proof.
  intros Hout. unfold step. rewrite (si_cur _ _ _ _ _ Hinv). simpl. rewrite Hout.
  unfold rwlock_lock_write. pose proof (si_lock _ _ _ _ _ Hinv) as Hl.
  assert (Hpos : 0 <= active_read_count (lock s)) by (rewrite (li_count _ _ _ _ Hl); lia).
  destruct (Z.ltb_spec 0 (active_read_count (lock s))) as [Hc|Hc]; simpl;
    [|destruct (Z.eqb_spec (write_locked (lock s)) 0) as [Hwl|Hwl]; simpl]; injection 1 as <-.
  - apply (queues _ _ R W); [done|by right|apply lock_write_waits; auto|].
    intros t. simpl. rewrite elem_of_app, list_elem_of_singleton. tauto.
  - assert (Hz : active_read_count (lock s) = 0) by lia.
    unfold rwlock_lock_write_done. rewrite Hz. simpl.
    destruct cur_running as (Hrun & _); [congruence..|].
    apply (stays _ _ _ R [c]); try congruence; try apply Hinv.
    eapply lock_write_goes; eauto.
  - apply (queues _ _ R W); [done|by right|apply lock_write_waits; auto|].
    intros t. simpl. rewrite elem_of_app, list_elem_of_singleton. tauto.
Qed.

Lemma steps_continue r : step info 0 Continue s = Some r -> goes r.
Proof.
  unfold step. rewrite (si_cur _ _ _ _ _ Hinv). simpl. pose proof (si_lock _ _ _ _ _ Hinv) as Hl.
  destruct (points s c) eqn:Hp; try done; injection 1 as <-.
  - apply (switches _ R W); [by apply queued_back|done|done].
  - destruct cur_running as (Hrun & Hr & Hw); [congruence..|].
    assert (Hwl : write_locked (lock s) = 0).
    { assert (Hin : c ∈ R) by (apply (li_readers _ _ _ _ Hl); right; auto).
      destruct (li_excl _ _ _ _ Hl) as [[_ ?]|(_ & _ & HR)]; [done|].
      rewrite HR in Hin. by apply elem_of_nil in Hin. }
    unfold rwlock_lock_read_done. rewrite Hwl. simpl.
    apply (stays _ _ _ R W); try congruence; try apply Hinv. by apply read_back.
  - apply (switches _ R W); [by apply queued_back_write|done|done].
  - destruct cur_running as (Hrun & Hr & Hw); [congruence..|].
    assert (Hwl : write_locked (lock s) = 1 /\ active_read_count (lock s) = 0).
    { assert (Hin : c ∈ W) by (apply (li_writers _ _ _ _ Hl); right; auto).
      destruct (li_excl _ _ _ _ Hl) as [[HW _]|(_ & ? & HR)].
      - rewrite HW in Hin. by apply elem_of_nil in Hin.
      - rewrite (li_count _ _ _ _ Hl), HR. done. }
    destruct Hwl as [Hwl Hcnt]. unfold rwlock_lock_write_done. rewrite Hcnt. simpl.
    replace (lock s <| write_locked := 1 |>) with (lock s)
      by (destruct (lock s); simpl in *; by subst).
    apply (stays _ _ _ R W); try congruence; try apply Hinv. by apply write_back.
Qed.

Lemma runnable_wake w k' :
  thread_states k' = <[w := THREAD_READY]> (thread_states (threads s)) -> runnable k' idle.
Proof.
  intros Hst. destruct Hinv as [_ _ _ _ _ _ _ [_ Hi]]. unfold runnable in *. rewrite Hst.
  at_point idle w; [by left|done].
Qed.

(** Handing the lock to a writer that waits. *)
Lemma hands_over m' w rest R' :
  points s c = Reading \/ points s c = Writing -> writer_wait_list (lock s) = w :: rest ->
  writer_wait_list m' = rest -> reader_wait_list m' = reader_wait_list (lock s) ->
  lock_inv m' (<[c := Outside]> (points s)) R' [w] ->
  goes (k <-- make_thread_ready w (threads s);; Done (move c Outside m' k s)).
Proof.
  intros Hp Hww Hww' Hrw' Hlock'.
  destruct cur_running as (Hrun & Hcr & Hcw); [destruct Hp; congruence..|].
  pose proof Hinv as [Hl Hok Hcur Hcnt Hw _ _ _].
  assert (Hwc : w <> c) by (intros ->; apply Hcw; rewrite Hww; by left).
  assert (Hwst : thread_states (threads s) w = THREAD_WAITING)
    by (apply Hw; right; rewrite Hww; by left).
  destruct (wake_ok _ c w Hok Hcur Hwc Hwst) as (k' & -> & Hok' & Hcur' & Hcnt' & Hst').
  apply (stays _ _ _ R' [w]); try done; try (destruct Hp; congruence).
  - rewrite Hst'. rewrite fn_lookup_insert_ne by congruence. done.
  - by apply (runnable_wake w).
  - intros t. rewrite Hst', Hww', Hrw'. pose proof (li_wwait _ _ _ _ Hl) as [Hnd Hpw].
    rewrite Hww in Hnd, Hpw. apply NoDup_cons in Hnd as [Hnew _]. at_point t w.
    + split; [done|]. intros [Hin|?]; [|done].
      pose proof (li_rwait _ _ _ _ Hl) as [_ Hpr]. destruct (Hpr w Hin), (Hpw w ltac:(by left)); congruence.
    + rewrite Hw, Hww, elem_of_cons. tauto.
Qed.

Lemma steps_unlock_read r : step info 0 UnlockRead s = Some r -> goes r.
Proof.
  unfold step. rewrite (si_cur _ _ _ _ _ Hinv). simpl. pose proof (si_lock _ _ _ _ _ Hinv) as Hl.
  destruct (points s c) eqn:Hp; try done; injection 1 as <-.
  destruct cur_running as (Hrun & Hcr & Hcw); [congruence..|].
  destruct (unlock_read_gone _ _ _ _ _ Hl Hp) as (Hwl & Hpos & R' & HR' & HW & Hcnt & Hrw).
  unfold rwlock_unlock_read. rewrite Hwl. simpl. destruct (Z.ltb_spec 0 (active_read_count (lock s))); [simpl|lia].
  destruct (writer_wait_list (lock s)) as [|w rest] eqn:Hww; [|destruct (Z.eqb_spec (active_read_count (lock s) - 1) 0) as [Hz|Hz]].
  - apply (stays _ _ _ R' []); try congruence; try apply Hinv.
    eapply unlock_read_stays; eauto.
  - assert (HR0 : R' = []) by (destruct R'; simpl in Hcnt; [done|lia]). rewrite bind_assoc.
    apply (hands_over _ w rest []); auto. rewrite Hz.
    eapply unlock_read_hands_over; eauto. by rewrite HR', HR0.
  - apply (stays _ _ _ R' []); try congruence; try apply Hinv.
    eapply unlock_read_stays; eauto; [congruence|]. intros _ ->. simpl in Hcnt. lia.
Qed.

Lemma steps_unlock_write r : step info 0 UnlockWrite s = Some r -> goes r.
Proof.
  unfold step. rewrite (si_cur _ _ _ _ _ Hinv). simpl. pose proof (si_lock _ _ _ _ _ Hinv) as Hl.
  destruct (points s c) eqn:Hp; try done; injection 1 as <-.
  destruct cur_running as (Hrun & Hcr & Hcw); [congruence..|].
  destruct (unlock_write_holds _ _ _ _ _ Hl Hp) as (HW & HR & Hwl & Hcnt).
  unfold rwlock_unlock_write. rewrite Hwl, Hcnt. simpl.
  pose proof Hinv as [_ Hok Hcur Hdc Hw _ _ [_ Hi]]. pose proof (li_rwait _ _ _ _ Hl) as [Hnd Hrp].
  destruct (reader_wait_list (lock s)) as [|x xs] eqn:Hrw.
  - destruct (writer_wait_list (lock s)) as [|w rest] eqn:Hww.
    + apply (stays _ _ _ [] []); try congruence; try apply Hinv.
      eapply unlock_write_free; eauto.
    + rewrite bind_assoc. apply (hands_over _ w rest []); auto. eapply unlock_write_writer; eauto.
  - rewrite bind_assoc.
    destruct (wake_readers_ok (x :: xs) (threads s) c 0 Hok Hcur Hcr Hnd) as
      (k' & -> & Hok' & Hcur' & Hcnt' & Hst'); [intros u Hu; apply Hw; by left|].
    cbn [bind_result]. apply (stays _ _ _ (x :: xs) []); try congruence; try done.
    + rewrite <- Hrw. eapply (unlock_write_readers _ _ _ _ _ Hl); [done|by rewrite Hrw].
    + rewrite Hst'. by rewrite decide_False.
    + unfold runnable in *. rewrite Hst'. destruct (decide (idle ∈ x :: xs)); [by left|done].
    + intros t. rewrite Hst'. simpl. destruct (decide (t ∈ x :: xs)) as [Hin|Hin].
      * split; [done|]. intros [Hn|Hww]; [by apply elem_of_nil in Hn|].
        pose proof (li_wwait _ _ _ _ Hl) as [_ Hpw]. destruct (Hrp t Hin), (Hpw t Hww); congruence.
      * rewrite Hw, elem_of_nil. tauto.
Qed.
End one_cpu.

(** ** Properties *)

(** The idle thread of the hardware thread never takes the lock. *)
Definition allowed (idle : Z) (a : action) (s : system) : Prop :=
  cur_thread (threads s) = [idle] -> a = Tick.

Definition initial (idle : Z) (s : system) : Prop :=
  lock s = init_rwlock /\ (forall t, points s t = Outside) /\ sched_ok (threads s)
  /\ (exists c, cur_thread (threads s) = [c] /\ thread_states (threads s) c = THREAD_RUNNING)
  /\ disable_preempt_count (threads s) = [0] /\ runnable (threads s) idle
  /\ forall t, thread_states (threads s) t <> THREAD_WAITING.

Inductive reachable (info : Z -> thread_fields) (idle : Z) (s0 : system) : system -> Prop :=
| reach_start : reachable info idle s0 s0
| reach_step s a s' :
    reachable info idle s0 s -> allowed idle a s -> step info 0 a s = Some (Done s') ->
    reachable info idle s0 s'.

Lemma initial_inv idle s : initial idle s -> exists c, sys_inv idle s c [] [].
Proof.
  intros (Hl & Hp & Hok & (c & Hcur & Hrun) & Hcnt & Hi & Hw). exists c.
  constructor; try done; rewrite ?Hl; simpl.
  - constructor; simpl; try done.
    + split; [constructor|]. intros t. rewrite elem_of_nil. unfold reads. rewrite Hp. naive_solver.
    + intros t. rewrite elem_of_nil. unfold writes. rewrite Hp. naive_solver.
    + by left.
    + split; [constructor|]. intros t Hin. by apply elem_of_nil in Hin.
    + split; [constructor|]. intros t Hin. by apply elem_of_nil in Hin.
  - intros t. rewrite elem_of_nil. split; [intros Ht; by destruct (Hw t)|tauto].
  - intros t. rewrite Hp. by intros [|].
  - by left.
Qed.

Lemma steps_tick info idle s c R W r :
  sys_inv idle s c R W -> step info 0 Tick s = Some r -> goes idle r.
Proof.
  intros [Hl Hok Hcur Hcnt Hw Hq Hst [Hi1 Hi2]]. unfold step. rewrite Hcur. simpl.
  assert (Htick : timer_tick info 0 (threads s) = reschedule info 0 (threads s))
    by (unfold timer_tick, array_get; by rewrite Hcnt).
  rewrite Htick.
  destruct (reschedule_runs info (threads s) c idle Hok Hcur Hcnt Hi2)
    as (next & k' & -> & Hok' & Hcur' & Hcnt' & Hrun' & Hidle' & Hw').
  assert (Hgoes : points s c <> ReadQueued -> points s c <> WriteQueued ->
            goes idle (Done {| lock := lock s; threads := k'; points := points s |})).
  { intros Hq1 Hq2. eexists _, next, R, W. split; [done|]. constructor; simpl; try done.
    - intros t. by rewrite Hw'.
    - intros t Ht. destruct (Hq t Ht) as [-> _]. by destruct Ht.
    - by left. }
  destruct (points s c) eqn:Hp; try done; injection 1 as <-; by apply Hgoes.
Qed.

Lemma step_goes info idle s c R W a r :
  sys_inv idle s c R W -> allowed idle a s -> step info 0 a s = Some r -> goes idle r.
Proof.
  intros Hinv Hallowed Hstep. destruct (decide (c = idle)) as [->|Hne].
  - rewrite (Hallowed (si_cur _ _ _ _ _ Hinv)) in Hstep. by eapply steps_tick.
  - assert (Hout : forall a', (a' = LockRead \/ a' = LockWrite) -> step info 0 a' s = Some r ->
              points s c = Outside).
    { intros a' Ha. unfold step. rewrite (si_cur _ _ _ _ _ Hinv). simpl.
      destruct Ha as [-> | ->]; by destruct (points s c). }
    destruct a.
    + eapply steps_lock_read; eauto.
    + by eapply steps_unlock_read.
    + eapply steps_lock_write; eauto.
    + by eapply steps_unlock_write.
    + by eapply steps_continue.
    + by eapply steps_tick.
Qed.

Lemma reachable_inv info idle s0 s :
  initial idle s0 -> reachable info idle s0 s -> exists c R W, sys_inv idle s c R W.
Proof.
  intros H0. induction 1 as [|s a s' _ (c & R & W & IH) Hallowed Hstep].
  - destruct (initial_inv _ _ H0) as [c Hc]. by exists c, [], [].
  - destruct (step_goes _ _ _ _ _ _ _ _ IH Hallowed Hstep) as (s1 & c1 & R1 & W1 & [= <-] & Hinv).
    by exists c1, R1, W1.
Qed.

(** C13: on one hardware thread, however the threads that use a reader/writer lock are
    interleaved by the scheduler, no assertion of the lock or of the scheduler fails, a
    thread that holds the lock for writing holds it alone, and whenever a thread waits
    there is another inside the lock that is not waiting: no wake-up is lost. *)
Theorem rwlock_safe info idle s0 s :
  initial idle s0 -> reachable info idle s0 s ->
  (forall a r, allowed idle a s -> step info 0 a s = Some r -> exists s', r = Done s')
  /\ (forall t u, points s t = Writing -> points s u = Reading \/ points s u = Writing -> u = t)
  /\ (forall t, thread_states (threads s) t = THREAD_WAITING ->
       exists u, (reads (lock s) (points s) u \/ writes (lock s) (points s) u)
         /\ thread_states (threads s) u <> THREAD_WAITING).
Proof.
  intros H0 Hreach. destruct (reachable_inv _ _ _ _ H0 Hreach) as (c & R & W & Hinv).
  pose proof (si_lock _ _ _ _ _ Hinv) as Hl. split_and!.
  - intros a r Ha Hstep. destruct (step_goes _ _ _ _ _ _ _ _ Hinv Ha Hstep) as (s' & _ & _ & _ & Hr & _).
    by exists s'.
  - intros t u Ht Hu. destruct (unlock_write_holds _ _ _ _ _ Hl Ht) as (HW & HR & _).
    destruct Hu as [Hu|Hu].
    + assert (Hin : u ∈ R) by (apply (li_readers _ _ _ _ Hl); by left).
      rewrite HR in Hin. by apply elem_of_nil in Hin.
    + assert (Hin : u ∈ W) by (apply (li_writers _ _ _ _ Hl); by left).
      rewrite HW in Hin. by apply list_elem_of_singleton in Hin.
  - intros t Ht. apply (si_wait _ _ _ _ _ Hinv) in Ht.
    assert (Hinside : W <> [] \/ R <> []).
    { destruct Ht as [Ht|Ht].
      - destruct (li_rwake _ _ _ _ Hl) as [?|Hw]; [by intros He; rewrite He in Ht; apply elem_of_nil in Ht|by left|].
        by apply (li_wwake _ _ _ _ Hl).
      - apply (li_wwake _ _ _ _ Hl). intros He. rewrite He in Ht. by apply elem_of_nil in Ht. }
    pose proof (li_rwait _ _ _ _ Hl) as [_ Hrp]. pose proof (li_wwait _ _ _ _ Hl) as [_ Hwp].
    destruct Hinside as [Hne|Hne].
    + destruct W as [|u W']; [done|]. assert (Hu : writes (lock s) (points s) u) by (apply (li_writers _ _ _ _ Hl); by left).
      exists u. split; [by right|]. rewrite (si_wait _ _ _ _ _ Hinv). unfold writes in Hu.
      intros [Hin|Hin]; [specialize (Hrp u Hin)|specialize (Hwp u Hin)]; intuition congruence.
    + destruct R as [|u R']; [done|]. assert (Hu : reads (lock s) (points s) u) by (apply (li_readers _ _ _ _ Hl); by left).
      exists u. split; [by left|]. rewrite (si_wait _ _ _ _ _ Hinv). unfold reads in Hu.
      intros [Hin|Hin]; [specialize (Hrp u Hin)|specialize (Hwp u Hin)]; intuition congruence.
Qed.

(** Running a list of actions of hardware threads. *)
Fixpoint run (info : Z -> thread_fields) (acts : list (nat * action)) (s : system)
    : option (result system) :=
  match acts with
  | [] => Some (Done s)
  | (hw, a) :: rest =>
      match step info hw a s with
      | Some (Done s') => run info rest s'
      | r => r
      end
  end.

Definition allowed_b (idle : Z) (a : action) (s : system) : bool :=
  negb (bool_decide (cur_thread (threads s) = [idle])) || match a with Tick => true | _ => false end.

Fixpoint run_allowed (info : Z -> thread_fields) (idle : Z) (acts : list action) (s : system)
    : option system :=
  match acts with
  | [] => Some s
  | a :: rest =>
      if allowed_b idle a s then
        match step info 0 a s with
        | Some (Done s') => run_allowed info idle rest s'
        | _ => None
        end
      else None
  end.

Lemma run_allowed_reachable info idle acts : forall s0 s s',
  reachable info idle s0 s -> run_allowed info idle acts s = Some s' -> reachable info idle s0 s'.
Proof.
  induction acts as [|a acts IH]; intros s0 s s' Hs; simpl; [by injection 1 as <-|].
  destruct (allowed_b idle a s) eqn:Ha; [|done].
  destruct (step info 0 a s) as [[s1|]|] eqn:Hstep; try done. intros Hrun. eapply IH; [|exact Hrun].
  eapply reach_step; [exact Hs| |exact Hstep]. intros Hcur. unfold allowed_b in Ha.
  rewrite bool_decide_true in Ha by done. by destruct a.
Qed.

Definition no_info (t : Z) : thread_fields := Build_thread_fields 0 0.

(** Threads 1, 2, 3 and the idle thread 9 on one hardware thread. *)
Definition four_threads : system :=
  {| lock := init_rwlock;
     threads := {| thread_states := <[1 := THREAD_RUNNING]> (<[2 := THREAD_READY]>
                     (<[3 := THREAD_READY]> (<[9 := THREAD_READY]> (fun _ => THREAD_DEAD))));
                   cur_thread := [1]; ready_q := [2; 3; 9]; dead_q := [];
                   disable_preempt_count := [0]; trap_kernel_stack := [0]; hw_translation_map := [0] |};
     points := fun _ => Outside |}.

Lemma four_threads_states t :
  thread_states (threads four_threads) t = THREAD_RUNNING /\ t = 1
  \/ thread_states (threads four_threads) t = THREAD_READY /\ (t = 2 \/ t = 3 \/ t = 9)
  \/ thread_states (threads four_threads) t = THREAD_DEAD /\ t <> 1 /\ t <> 2 /\ t <> 3 /\ t <> 9.
Proof.
  simpl. destruct (decide (t = 1)) as [->|]; [naive_solver|].
  destruct (decide (t = 2)) as [->|]; [naive_solver|]. destruct (decide (t = 3)) as [->|]; [naive_solver|].
  destruct (decide (t = 9)) as [->|]; [naive_solver|].
  rewrite !fn_lookup_insert_ne by congruence. naive_solver.
Qed.

Lemma four_threads_initial : initial 9 four_threads.
Proof.
  split; [done|]. split; [done|]. split; [|split; [by exists 1|split; [done|split; [by left|]]]].
  - constructor; [apply (bool_decide_unpack _); reflexivity| |apply (bool_decide_unpack _); reflexivity| |];
      intros t; change (ready_q (threads four_threads)) with [2; 3; 9];
      change (cur_thread (threads four_threads)) with [1];
      rewrite !elem_of_cons, elem_of_nil;
      destruct (four_threads_states t) as [[-> ?]|[[-> ?]|[-> ?]]]; intuition congruence.
  - intros t. destruct (four_threads_states t) as [[-> ?]|[[-> ?]|[-> ?]]]; done.
Qed.

(** Thread 1 holds the lock; 2 and 3 queue behind it; 1 lets the reader in. *)
Definition contended : list action :=
  [LockWrite; Tick; LockWrite; Continue; LockRead; Continue; Tick].

Lemma rwlock_safe_witness :
  exists s, run_allowed no_info 9 contended four_threads = Some s
    /\ points s 1 = Writing /\ points s 2 = WriteBack /\ points s 3 = ReadBack
    /\ (forall u, points s u = Reading \/ points s u = Writing -> u = 1).
Proof.
  assert (Hp : match run_allowed no_info 9 contended four_threads with
               | Some s => points s 1 = Writing /\ points s 2 = WriteBack /\ points s 3 = ReadBack
               | None => False
               end) by (vm_compute; repeat split; reflexivity).
  destruct (run_allowed no_info 9 contended four_threads) as [s|] eqn:Hrun; [|destruct Hp].
  assert (Hs : reachable no_info 9 four_threads s)
    by exact (run_allowed_reachable _ _ _ _ _ _ (reach_start _ _ _) Hrun).
  destruct (rwlock_safe no_info 9 four_threads s four_threads_initial Hs) as (_ & Hexcl & _).
  destruct Hp as (H1 & H2 & H3). exists s. split; [reflexivity|]. split; [exact H1|].
  split; [exact H2|]. split; [exact H3|]. intros u Hu. exact (Hexcl 1 u H1 Hu).
Defined.

(** With two hardware threads the same code has a race: [wait] gives up the lock's
    spinlock before [reschedule], so the holder, on the other hardware thread, can make
    the waiting thread ready while it still runs, and the assertion in [reschedule]
    that the current thread is not ready fails. *)
Theorem wakeup_race info :
  exists acts s,
    run info acts
      {| lock := init_rwlock; threads := two_cpus; points := fun _ => Outside |} = Some (Done s)
    /\ sched_ok two_cpus
    /\ thread_states (threads s) 1 = THREAD_READY /\ cur_thread (threads s) !! 0%nat = Some 1
    /\ step info 0 Continue s = Some (Fault AssertFailed).
Proof.
  exists [(1%nat, LockWrite); (0%nat, LockRead); (1%nat, UnlockWrite)].
  eexists. split; [reflexivity|]. split; [exact two_cpus_ok|]. split; [reflexivity|].
  split; reflexivity.
Qed.
