(* ===== verification/VmPage.v ===== *)
(** * VmPage: physical pages (software/kernel/vm_page.c) and bitmaps (software/kernel/util.c)

    A page is its index in the array [pages]; the free list is the sequence its list nodes
    stand for (KernelList).  Physical memory is a function from the address of a word to its
    value.  Every function runs with interrupts off and the page lock held where it touches
    the list, so it is one step. *)

From S2P Require Export KernelDefs.
From stdpp Require Import list functions.
Import stdpp.list_relations.list.

#[local] Open Scope Z_scope.

(** ** Bitmaps *)

(** [while (array[wordindex] == 0xffffffff)]: the word found, or -1. *)
Fixpoint first_word_not_full (fuel : nat) (array : list Z) (wordindex num_words : Z)
  : result (option Z) :=
  match fuel with
  | O => Fault OutOfFuel
  | S fuel' =>
      match array !! Z.to_nat wordindex with
      | None => Fault OutOfBounds
      | Some word =>
          if word =? 0xffffffff then
            if wordindex + 1 =? num_words then Done None
            else first_word_not_full fuel' array (wordindex + 1) num_words
          else Done (Some wordindex)
      end
  end.

(** The index, or -1, and the array; bit 0 is the highest of the first word. *)
Definition bitmap_alloc (array : list Z) (num_bits : Z) : result (Z * list Z) :=
  found <-- first_word_not_full (S (length array)) array 0 (Z.quot num_bits 32);;
  match found with
  | None => Done (-1, array)
  | Some wordindex =>
      let word := array !!! Z.to_nat wordindex in
      let bitindex := builtin_clz (lnot32 word) in
      Done (wordindex * 32 + bitindex,
            <[Z.to_nat wordindex := Z.lor word (Z.shiftr 0x80000000 bitindex)]> array)
  end.

Definition bitmap_free (array : list Z) (index : Z) : result (list Z) :=
  match array !! Z.to_nat (Z.quot index 32) with
  | None => Fault OutOfBounds
  | Some word =>
      Done (<[Z.to_nat (Z.quot index 32) :=
        Z.land word (lnot32 (Z.shiftr 0x80000000 (Z.rem index 32)))]> array)
  end.

(** ** Data *)

Record vm_page := { cache_offset : Z; cache : Z; busy : Z; dirty : Z; ref_count : Z }.

#[export]
Instance vm_page_fields : Fields vm_page := fun p =>
  Build_vm_page (cache_offset p) (cache p) (busy p) (dirty p) (ref_count p).

Record page_state := {
  pages : list vm_page;
  free_page_list : list Z;
  memory_size : Z;
  phys : Z -> Z
}.

#[export]
Instance page_state_fields : Fields page_state := fun s =>
  Build_page_state (pages s) (free_page_list s) (memory_size s) (phys s).

(** The array as the boot code leaves it: memory it cleared. *)
Definition boot_page : vm_page := {| cache_offset := 0; cache := 0; busy := 0; dirty := 0; ref_count := 0 |}.

(** ** Operations *)

(** The loop of [vm_page_init]. *)
Fixpoint add_free_pages (count : nat) (pgidx : Z) (s : page_state) : page_state :=
  match count with
  | O => s
  | S count' =>
      add_free_pages count' (pgidx + 1)
        (s <| pages ::= alter (fun p => p <| busy := 0 |> <| cache := 0 |>) (Z.to_nat pgidx) |>
           <| free_page_list ::= fun l => l ++ [pgidx] |>)
  end.

Definition vm_page_init (memory boot_pages_used : Z) (s : page_state) : page_state :=
  let num_pages := memory / PAGE_SIZE in
  let s := s <| memory_size := memory |> <| free_page_list := [] |> in
  add_free_pages (Z.to_nat (num_pages - 1 - boot_pages_used)) boot_pages_used s.

(** [memset] of a page to zero, a word at a time. *)
Definition clear_page (pa : Z) (memory : Z -> Z) : Z -> Z :=
  fun a => if (pa <=? a) && (a <? pa + PAGE_SIZE) then 0 else memory a.

Definition page_to_pa (page : Z) : Z := u32 (page * PAGE_SIZE).

(** The page; running out of pages stops the kernel. *)
Definition vm_allocate_page (s : page_state) : result (Z * page_state) :=
  match free_page_list s with
  | [] => Fault HostExit
  | page :: rest =>
      Done (page,
        s <| free_page_list := rest |>
          <| pages ::= alter (fun p => p <| busy := 0 |> <| cache := 0 |> <| dirty := 0 |>
                                         <| ref_count := 1 |>) (Z.to_nat page) |>
          <| phys ::= clear_page (page_to_pa page) |>)
  end.

Definition ref_count_of (page : Z) (s : page_state) : result Z :=
  match pages s !! Z.to_nat page with
  | Some p => Done (ref_count p)
  | None => Fault OutOfBounds
  end.

Definition set_ref_count (page count : Z) (s : page_state) : page_state :=
  s <| pages ::= alter (fun p => p <| ref_count := count |>) (Z.to_nat page) |>.

Definition inc_page_ref (page : Z) (s : page_state) : result page_state :=
  count <-- ref_count_of page s;;
  Done (set_ref_count page (s32 (count + 1)) s).

Definition dec_page_ref (page : Z) (s : page_state) : result page_state :=
  count <-- ref_count_of page s;;
  if negb (0 <? count) then Fault AssertFailed
  else
    let s := set_ref_count page (count - 1) s in
    if count =? 1 then Done (s <| free_page_list ::= cons page |>) else Done s.

Definition pa_to_page (addr : Z) (s : page_state) : result Z :=
  if addr <? memory_size s then Done (addr / PAGE_SIZE) else Fault AssertFailed.

(** [while (pages[base_index].ref_count > 0)]: the first free page, or none. *)
Fixpoint scan_free (fuel : nat) (base_index last : Z) (s : page_state) : result (option Z) :=
  match fuel with
  | O => Fault OutOfFuel
  | S fuel' =>
      count <-- ref_count_of base_index s;;
      if 0 <? count then
        if base_index =? last then Done None else scan_free fuel' (base_index + 1) last s
      else Done (Some base_index)
  end.

(** The first page of [base_index + page_offset ...] that is used. *)
Fixpoint scan_used (count : nat) (base_index page_offset : Z) (s : page_state)
  : result (option Z) :=
  match count with
  | O => Done None
  | S count' =>
      refs <-- ref_count_of (base_index + page_offset) s;;
      if 0 <? refs then Done (Some page_offset)
      else scan_used count' base_index (page_offset + 1) s
  end.

(** [do ... while (!found_run)] *)
Fixpoint find_run (fuel : nat) (base_index page_count total_pages : Z) (s : page_state)
  : result (option Z) :=
  match fuel with
  | O => Fault OutOfFuel
  | S fuel' =>
      first <-- scan_free (S (length (pages s))) base_index (u32 (total_pages - page_count)) s;;
      match first with
      | None => Done None
      | Some base_index =>
          used <-- scan_used (Z.to_nat (page_count - 1)) base_index 1 s;;
          match used with
          | None => Done (Some base_index)
          | Some page_offset =>
              find_run fuel' (base_index + page_offset + 1) page_count total_pages s
          end
      end
  end.

(** A page without references that is on no list is one the boot code used: its links are
    null, and [list_remove_node] of it stores through them. *)
Definition unlink_page (page : Z) (s : page_state) : result page_state :=
  if decide (page ∈ free_page_list s) then
    Done (s <| free_page_list ::= List.filter (fun p => negb (p =? page)) |>)
  else Fault OutOfBounds.

Fixpoint take_run (count : nat) (page : Z) (s : page_state) : result page_state :=
  match count with
  | O => Done s
  | S count' =>
      s <-- unlink_page page (set_ref_count page 1 s);;
      take_run count' (page + 1) s
  end.

(** The physical address, or 0xffffffff. *)
Definition allocate_contiguous_memory (size : Z) (s : page_state) : result (Z * page_state) :=
  let page_count := u32 (size + PAGE_SIZE - 1) / PAGE_SIZE in
  let total_pages := memory_size s / PAGE_SIZE in
  run <-- find_run (S (length (pages s))) 0 page_count total_pages s;;
  match run with
  | None => Done (0xffffffff, s)
  | Some base_index =>
      s <-- take_run (Z.to_nat page_count) base_index s;;
      Done (u32 (base_index * PAGE_SIZE), s)
  end.

(** ** The allocator's invariant *)

Definition refs (page : Z) (s : page_state) : Z :=
  match pages s !! Z.to_nat page with Some p => ref_count p | None => 0 end.

(** Pages [first] to [last] are the allocator's; one is free exactly when nobody refers
    to it. *)
Record pages_ok (first last : Z) (s : page_state) : Prop := {
  ok_range : 0 <= first /\ last <= Z.of_nat (length (pages s)) /\ last * PAGE_SIZE <= 2 ^ 32;
  ok_nodup : NoDup (free_page_list s);
  ok_free : forall page, page ∈ free_page_list s -> first <= page < last /\ refs page s = 0;
  ok_count : forall page, first <= page < last -> 0 <= refs page s < 2 ^ 31;
  ok_used : forall page, first <= page < last -> refs page s = 0 -> page ∈ free_page_list s
}.

Lemma refs_alter f page page' (s : page_state) :
  0 <= page < Z.of_nat (length (pages s)) -> 0 <= page' ->
  (forall p, ref_count (f p) = ref_count (f boot_page)) ->
  refs page' (s <| pages ::= alter f (Z.to_nat page) |>)
  = if decide (page' = page) then ref_count (f boot_page) else refs page' s.
Proof.
  intros Hl H0 Hf. unfold refs. simpl. destruct (decide (page' = page)) as [->|Hne].
  - rewrite list_lookup_alter_eq.
    destruct (lookup_lt_is_Some_2 (pages s) (Z.to_nat page)) as [p ->]; [lia|]. apply Hf.
  - by rewrite list_lookup_alter_ne by lia.
Qed.

Lemma ref_count_of_refs page s :
  0 <= page < Z.of_nat (length (pages s)) -> ref_count_of page s = Done (refs page s).
Proof.
  intros Hl. unfold ref_count_of, refs.
  by destruct (lookup_lt_is_Some_2 (pages s) (Z.to_nat page)) as [p ->]; [lia|].
Qed.

Lemma set_ref_count_refs page page' count s :
  0 <= page < Z.of_nat (length (pages s)) -> 0 <= page' ->
  refs page' (set_ref_count page count s) = if decide (page' = page) then count else refs page' s.
Proof. intros Hl H0. unfold set_ref_count. by rewrite refs_alter. Qed.

(** The words of a page. *)
Definition in_page (page a : Z) : Prop := page * PAGE_SIZE <= a < (page + 1) * PAGE_SIZE.

#[export]
Instance in_page_dec page a : Decision (in_page page a).
Proof. unfold in_page. apply _. Defined.

Lemma page_to_pa_small first last s page :
  pages_ok first last s -> first <= page < last -> page_to_pa page = page * PAGE_SIZE.
Proof.
  intros Hs Hp. destruct (ok_range _ _ _ Hs) as (? & ? & ?). apply u32_small.
  unfold PAGE_SIZE in *. lia.
Qed.

Lemma clear_page_lookup pa memory a :
  clear_page pa memory a = if decide (pa <= a < pa + PAGE_SIZE) then 0 else memory a.
Proof.
  unfold clear_page. destruct (decide _); destruct ((pa <=? a) && (a <? pa + PAGE_SIZE)) eqn:E;
    try done; bool_to_prop; [apply andb_false_iff in E as [E|E]; bool_to_prop|]; lia.
Qed.

(** [vm_allocate_page] takes a page nobody refers to, cleared. *)
Lemma allocate_ok first last s page s' :
  pages_ok first last s -> vm_allocate_page s = Done (page, s') ->
  pages_ok first last s' /\ first <= page < last /\ refs page s = 0
  /\ page ∈ free_page_list s /\ memory_size s' = memory_size s
  /\ (forall p, p ∈ free_page_list s' -> p ∈ free_page_list s /\ p <> page)
  /\ (forall p, 0 <= p -> refs p s' = if decide (p = page) then 1 else refs p s)
  /\ (forall a, phys s' a = if decide (in_page page a) then 0 else phys s a).
Proof.
  intros Hs Halloc. pose proof Hs as [(H0 & H1 & H2) Hnd Hfree Hcount Hused].
  unfold vm_allocate_page in Halloc.
  destruct (free_page_list s) as [|page' rest] eqn:Hl; [done|]. injection Halloc as -> <-.
  apply NoDup_cons in Hnd as [Hnot Hnd].
  destruct (Hfree page ltac:(by left)) as [Hpage Hrefs].
  set (f := fun p : vm_page => _).
  assert (Hr : forall p, 0 <= p ->
    refs p (s <| free_page_list := rest |> <| pages ::= alter f (Z.to_nat page) |>
              <| phys ::= clear_page (page_to_pa page) |>)
    = if decide (p = page) then 1 else refs p s).
  { intros p Hp. exact (refs_alter f page p s ltac:(lia) Hp ltac:(done)). }
  split; [|split; [done|split; [done|split; [by left|split; [done|split; [|split; [exact Hr|]]]]]]].
  - constructor; simpl.
    + by rewrite length_alter.
    + done.
    + intros p Hp. destruct (Hfree p ltac:(by right)) as [Hrange Hz]. split; [done|].
      rewrite Hr by lia. rewrite decide_False; [done|]. by intros ->.
    + intros p Hp. rewrite Hr by lia. destruct (decide _); [lia|by apply Hcount].
    + intros p Hp. rewrite Hr by lia. destruct (decide _) as [->|Hne]; [lia|]. intros Hz.
      specialize (Hused p Hp Hz). by apply elem_of_cons in Hused as [->|?].
  - intros p Hp. split; [by right|]. by intros ->.
  - intros a. simpl. rewrite clear_page_lookup.
    rewrite (page_to_pa_small first last s page Hs Hpage). unfold in_page.
    destruct (decide _), (decide _); try done; unfold PAGE_SIZE in *; lia.
Qed.

Lemma allocate_fails first last s f :
  pages_ok first last s -> vm_allocate_page s = Fault f ->
  f = HostExit /\ forall page, first <= page < last -> 0 < refs page s.
Proof.
  intros [_ _ _ Hcount Hused] Halloc. unfold vm_allocate_page in Halloc.
  destruct (free_page_list s) eqn:Hl; [|done]. injection Halloc as <-. split; [done|].
  intros page Hp. pose proof (Hcount page Hp).
  destruct (Z.eq_dec (refs page s) 0) as [Hz|]; [|lia].
  specialize (Hused page Hp Hz). by apply elem_of_nil in Hused.
Qed.

Lemma inc_ok first last s page :
  pages_ok first last s -> first <= page < last -> 0 < refs page s -> refs page s + 1 < 2 ^ 31 ->
  exists s', inc_page_ref page s = Done s' /\ pages_ok first last s' /\ phys s' = phys s
    /\ (forall p, 0 <= p -> refs p s' = if decide (p = page) then refs page s + 1 else refs p s).
Proof.
  intros Hs Hp Hpos Hmax. pose proof Hs as [(H0 & H1 & H2) Hnd Hfree Hcount Hused].
  eexists. unfold inc_page_ref. rewrite ref_count_of_refs by lia. cbn [bind_result].
  assert (Hsmall : s32 (refs page s + 1) = refs page s + 1).
  { unfold s32, signed. change (2 ^ (32 - 1)) with (2 ^ 31).
    rewrite Z.mod_small by (change (2 ^ 32) with (2 * 2 ^ 31); lia).
    by rewrite (proj2 (Z.ltb_lt _ _)) by lia. }
  split; [reflexivity|]. rewrite Hsmall.
  assert (Hr : forall p, 0 <= p -> refs p (set_ref_count page (refs page s + 1) s)
    = if decide (p = page) then refs page s + 1 else refs p s)
    by (intros p Hpp; apply set_ref_count_refs; lia).
  split; [|done]. constructor; simpl.
  - by rewrite length_alter.
  - done.
  - intros p Hin. destruct (Hfree p Hin) as [Hrange Hz]. split; [done|]. rewrite Hr by lia.
    rewrite decide_False; [done|]. intros ->. lia.
  - intros p Hrange. rewrite Hr by lia. destruct (decide _); [lia|by apply Hcount].
  - intros p Hrange. rewrite Hr by lia. destruct (decide _); [lia|by apply Hused].
Qed.

Lemma dec_ok first last s page :
  pages_ok first last s -> first <= page < last -> 0 < refs page s ->
  exists s', dec_page_ref page s = Done s' /\ pages_ok first last s' /\ phys s' = phys s
    /\ (forall p, 0 <= p -> refs p s' = if decide (p = page) then refs page s - 1 else refs p s).
Proof.
  intros Hs Hp Hpos. pose proof Hs as [(H0 & H1 & H2) Hnd Hfree Hcount Hused].
  assert (Hr : forall p, 0 <= p -> refs p (set_ref_count page (refs page s - 1) s)
    = if decide (p = page) then refs page s - 1 else refs p s)
    by (intros p Hpp; apply set_ref_count_refs; lia).
  assert (Hnot : page ∉ free_page_list s) by (intros Hin; destruct (Hfree page Hin); lia).
  unfold dec_page_ref. rewrite ref_count_of_refs by lia. cbn [bind_result].
  rewrite (proj2 (Z.ltb_lt _ _)) by lia. cbn [negb].
  destruct (refs page s =? 1) eqn:E; bool_to_prop; eexists; (split; [reflexivity|]);
    (split; [|done]); constructor; simpl; try (by rewrite length_alter).
  - by apply NoDup_cons.
  - intros p Hin. apply elem_of_cons in Hin as [->|Hin].
    + split; [done|]. change (refs page _) with (refs page (set_ref_count page (refs page s - 1) s)).
      rewrite Hr, decide_True by (done || lia). lia.
    + destruct (Hfree p Hin) as [Hrange Hz]. split; [done|].
      change (refs p _) with (refs p (set_ref_count page (refs page s - 1) s)).
      rewrite Hr, decide_False by (lia || congruence). done.
  - intros p Hrange. change (refs p _) with (refs p (set_ref_count page (refs page s - 1) s)).
    rewrite Hr by lia. pose proof (Hcount p Hrange). pose proof (Hcount page Hp).
    destruct (decide _); lia.
  - intros p Hrange. change (refs p _) with (refs p (set_ref_count page (refs page s - 1) s)).
    rewrite Hr by lia. destruct (decide _) as [->|]; intros Hz; [by left|right]. by apply Hused.
  - done.
  - intros p Hin. destruct (Hfree p Hin) as [Hrange Hz]. split; [done|].
    rewrite Hr, decide_False by (lia || congruence). done.
  - intros p Hrange. rewrite Hr by lia. pose proof (Hcount p Hrange). pose proof (Hcount page Hp).
    destruct (decide _); lia.
  - intros p Hrange. rewrite Hr by lia. destruct (decide _); intros Hz; [lia|by apply Hused].
Qed.

(** ** The start *)

Lemma add_free_pages_spec count pgidx s :
  0 <= pgidx ->
  let s' := add_free_pages count pgidx s in
  free_page_list s' = free_page_list s ++ seqZ pgidx (Z.of_nat count)
  /\ length (pages s') = length (pages s) /\ memory_size s' = memory_size s /\ phys s' = phys s
  /\ (forall p, 0 <= p -> refs p s' = refs p s).
Proof.
  revert pgidx s. induction count as [|count IH]; intros pgidx s Hp; cbn [add_free_pages].
  - by rewrite app_nil_r.
  - destruct (IH (pgidx + 1) (s
      <| pages ::= alter (fun p => p <| busy := 0 |> <| cache := 0 |>) (Z.to_nat pgidx) |>
      <| free_page_list ::= fun l => l ++ [pgidx] |>)) as (E1 & E2 & E3 & E4 & E5); [lia|].
    cbv zeta in *. rewrite E1, E2, E3, E4. simpl. rewrite length_alter.
    split; [|split; [done|split; [done|split; [done|]]]].
    + rewrite <- app_assoc, (seqZ_cons pgidx) by lia. simpl. do 3 f_equal; lia.
    + intros p Hp0. rewrite E5 by done. unfold refs. simpl.
      destruct (decide (p = pgidx)) as [->|Hne].
      * rewrite list_lookup_alter_eq. by destruct (pages s !! _).
      * by rewrite list_lookup_alter_ne by lia.
Qed.

(** Nobody refers to a page of the array the boot code cleared. *)
Lemma refs_boot page count s :
  pages s = replicate count boot_page -> refs page s = 0.
Proof.
  intros Hs. unfold refs. rewrite Hs. destruct (replicate count boot_page !! _) eqn:E; [|done].
  by apply lookup_replicate in E as [-> _].
Qed.

Lemma vm_page_init_ok memory boot_pages_used s count :
  pages s = replicate count boot_page -> Z.of_nat count = memory / PAGE_SIZE ->
  0 <= memory <= 2 ^ 32 -> 0 <= boot_pages_used ->
  let s' := vm_page_init memory boot_pages_used s in
  pages_ok boot_pages_used (memory / PAGE_SIZE - 1) s' /\ (forall p, 0 <= p -> refs p s' = 0).
Proof.
  intros Hpages Hcount Hmem Hboot. unfold vm_page_init. cbv zeta.
  set (s0 := s <| memory_size := memory |> <| free_page_list := [] |>).
  destruct (add_free_pages_spec (Z.to_nat (memory / PAGE_SIZE - 1 - boot_pages_used))
    boot_pages_used s0 Hboot) as (E1 & E2 & E3 & E4 & E5). cbv zeta in *.
  assert (Hz : forall p, 0 <= p -> refs p (add_free_pages
      (Z.to_nat (memory / PAGE_SIZE - 1 - boot_pages_used)) boot_pages_used s0) = 0).
  { intros p Hp. rewrite E5 by done. by apply (refs_boot p count). }
  split; [|done]. constructor.
  - rewrite E2. simpl. rewrite Hpages, length_replicate.
    split; [done|]. split; [lia|]. unfold PAGE_SIZE in *. change (2 ^ 32) with 4294967296 in *.
    Z.div_mod_to_equations. lia.
  - rewrite E1. apply NoDup_seqZ.
  - intros page Hin. rewrite E1 in Hin. simpl in Hin. apply elem_of_seqZ in Hin.
    split; [lia|]. apply Hz. lia.
  - intros page Hp. rewrite Hz by lia. lia.
  - intros page Hp _. rewrite E1. simpl. apply elem_of_seqZ. lia.
Qed.

(** ** Runs of pages *)

Lemma scan_free_spec first last limit fuel base s page :
  pages_ok first last s -> scan_free fuel base limit s = Done (Some page) -> 0 <= base ->
  base <= page /\ refs page s <= 0 /\ page < Z.of_nat (length (pages s)).
Proof.
  intros Hs. revert base. induction fuel as [|fuel IH]; intros base Hscan Hb; [done|].
  cbn [scan_free] in Hscan. apply bind_Done_inv in Hscan as (count & Hc & Hscan).
  unfold ref_count_of in Hc. destruct (pages s !! Z.to_nat base) as [p|] eqn:Hp; [|done].
  injection Hc as <-. apply lookup_lt_Some in Hp as Hlt.
  destruct (0 <? ref_count p) eqn:E; bool_to_prop.
  - destruct (base =? limit); [done|]. destruct (IH (base + 1) Hscan) as (? & ? & ?); lia.
  - injection Hscan as <-. unfold refs. rewrite Hp. lia.
Qed.

Lemma scan_used_spec count base offset s :
  scan_used count base offset s = Done None -> 0 <= base + offset ->
  forall i, offset <= i < offset + Z.of_nat count ->
  refs (base + i) s <= 0 /\ base + i < Z.of_nat (length (pages s)).
Proof.
  revert offset. induction count as [|count IH]; intros offset Hscan H0 i Hi; [lia|].
  cbn [scan_used] in Hscan. apply bind_Done_inv in Hscan as (n & Hc & Hscan).
  unfold ref_count_of in Hc.
  destruct (pages s !! Z.to_nat (base + offset)) as [p|] eqn:Hp; [|done]. injection Hc as <-.
  destruct (0 <? ref_count p) eqn:E; bool_to_prop; [done|].
  destruct (Z.eq_dec i offset) as [->|Hne].
  - apply lookup_lt_Some in Hp as Hlt. unfold refs. rewrite Hp. lia.
  - apply (IH (offset + 1)); [done|lia|lia].
Qed.

Lemma find_run_spec first last fuel base page_count total s start :
  pages_ok first last s -> 0 <= base -> 1 <= page_count ->
  find_run fuel base page_count total s = Done (Some start) ->
  0 <= start /\ forall i, 0 <= i < page_count ->
    refs (start + i) s <= 0 /\ start + i < Z.of_nat (length (pages s)).
Proof.
  intros Hs Hb Hc. revert base Hb. induction fuel as [|fuel IH]; intros base Hb Hrun; [done|].
  cbn [find_run] in Hrun. apply bind_Done_inv in Hrun as (found & Hscan & Hrun).
  destruct found as [page|]; [|done].
  destruct (scan_free_spec _ _ _ _ _ _ _ Hs Hscan Hb) as (Hle & Hr & Hlt).
  apply bind_Done_inv in Hrun as (used & Hused & Hrun). destruct used as [offset|].
  - assert (Ho : 1 <= offset).
    { clear - Hused. revert Hused. generalize (Z.to_nat (page_count - 1)). intros n.
      enough (H : forall k, scan_used n page k s = Done (Some offset) -> k <= offset) by exact (H 1).
      induction n as [|n IH]; intros k Hk; [done|]. cbn [scan_used] in Hk.
      apply bind_Done_inv in Hk as (refs & _ & Hk). destruct (0 <? refs).
      - injection Hk as <-. lia.
      - specialize (IH _ Hk). lia. }
    apply (IH (page + offset + 1)); [lia|done].
  - injection Hrun as <-. split; [lia|]. intros i Hi.
    destruct (Z.eq_dec i 0) as [->|Hne]; [by rewrite Z.add_0_r|].
    apply (scan_used_spec _ _ _ _ Hused); lia.
Qed.

Lemma take_run_spec first last count start s s' :
  pages_ok first last s -> 0 <= start -> take_run count start s = Done s' ->
  pages_ok first last s' /\ phys s' = phys s
  /\ (forall i, 0 <= i < Z.of_nat count -> start + i ∈ free_page_list s)
  /\ (forall p, 0 <= p -> refs p s'
        = if decide (start <= p < start + Z.of_nat count) then 1 else refs p s).
Proof.
  revert start s. induction count as [|count IH]; intros start s Hs Hstart Hrun.
  - injection Hrun as <-. split; [done|]. split; [done|]. split; [lia|].
    intros p Hp. rewrite decide_False by lia. done.
  - cbn [take_run] in Hrun. apply bind_Done_inv in Hrun as (s1 & H1 & Hrun).
    unfold unlink_page in H1. destruct (decide _) as [Hin|]; [|done]. simpl in Hin.
    injection H1 as H1. pose proof Hs as [(H0 & Hl & Hmax) Hnd Hfree Hcount Hused].
    destruct (Hfree start Hin) as [Hrange Hz].
    assert (Hr : forall p, 0 <= p -> refs p s1 = if decide (p = start) then 1 else refs p s).
    { intros p Hp. rewrite <- H1. exact (set_ref_count_refs start p 1 s ltac:(lia) Hp). }
    assert (Hlist : forall p, p ∈ free_page_list s1 <-> p ∈ free_page_list s /\ p <> start).
    { intros p. rewrite <- H1. simpl. rewrite !list_elem_of_In, filter_In.
      rewrite negb_true_iff, Z.eqb_neq. done. }
    assert (Hs1 : pages_ok first last s1).
    { constructor.
      - rewrite <- H1. simpl. by rewrite length_alter.
      - rewrite <- H1. simpl. apply NoDup_ListNoDup. apply List.NoDup_filter. by apply NoDup_ListNoDup.
      - intros p Hp. apply Hlist in Hp as [Hp Hne]. destruct (Hfree p Hp). split; [done|].
        rewrite Hr, decide_False by (done || lia). done.
      - intros p Hp. rewrite Hr by lia. destruct (decide _); [lia|by apply Hcount].
      - intros p Hp. rewrite Hr by lia. destruct (decide _); [lia|]. intros Hzero.
        apply Hlist. split; [by apply Hused|done]. }
    destruct (IH (start + 1) s1 Hs1 ltac:(lia) Hrun) as (Hs' & Hphys & Hall & Hrefs).
    split; [done|]. split; [by rewrite Hphys, <- H1|]. split.
    + intros i Hi. destruct (Z.eq_dec i 0) as [->|Hne]; [by rewrite Z.add_0_r|].
      replace (start + i) with (start + 1 + (i - 1)) by lia. apply Hlist. apply Hall. lia.
    + intros p Hp. rewrite Hrefs, Hr by done.
      repeat destruct (decide _); try lia; done.
Qed.

(** ** Bits of a bitmap *)

(** Bit [i], the highest of a word first. *)
Definition bit_at (array : list Z) (i : Z) : bool :=
  Z.testbit (array !!! Z.to_nat (i / 32)) (31 - i mod 32).

Lemma lnot32_bit w j : 0 <= j < 32 -> Z.testbit (lnot32 w) j = negb (Z.testbit w j).
Proof.
  intros Hj. unfold lnot32, u32. rewrite <- Z.land_ones by lia.
  rewrite Z.land_spec, Z.ones_spec_low, andb_true_r by lia. apply Z.lnot_spec. lia.
Qed.

(** The highest clear bit of a word that is not full. *)
Lemma clz_not_full w :
  is_u32 w -> w <> 0xffffffff ->
  let b := builtin_clz (lnot32 w) in
  0 <= b < 32 /\ Z.testbit w (31 - b) = false
  /\ (forall j, 31 - b < j < 32 -> Z.testbit w j = true).
Proof.
  intros Hw Hne. cbv zeta.
  assert (Hu : is_u32 (lnot32 w)) by apply is_u32_u32.
  assert (Hpos : 0 < lnot32 w).
  { destruct (Z.eq_dec (lnot32 w) 0) as [Hz|]; [|destruct Hu; lia]. exfalso. apply Hne.
    apply u32_bits_inj; [done|by split|]. intros i Hi.
    pose proof (lnot32_bit w i Hi) as Hb. rewrite Hz, Z.bits_0 in Hb.
    destruct (Z.testbit w i); [|done]. symmetry. exact (Z.ones_spec_low 32 i ltac:(lia)). }
  pose proof (builtin_clz_range _ Hpos Hu) as Hr.
  pose proof (builtin_clz_log2 (lnot32 w)) as Hlog.
  split; [done|]. rewrite Hlog. split.
  - apply negb_true_iff. rewrite <- lnot32_bit by lia. by apply Z.bit_log2.
  - intros j Hj. apply negb_false_iff. rewrite <- lnot32_bit by (pose proof (Z.log2_nonneg (lnot32 w)); lia).
    apply Z.bits_above_log2; [lia|]. lia.
Qed.

Lemma first_word_spec fuel array wordindex num_words r :
  0 <= wordindex < num_words -> num_words <= Z.of_nat (length array) ->
  (Z.to_nat (num_words - wordindex) <= fuel)%nat ->
  first_word_not_full fuel array wordindex num_words = r ->
  match r with
  | Done (Some i) => wordindex <= i < num_words /\ array !!! Z.to_nat i <> 0xffffffff
      /\ forall j, wordindex <= j < i -> array !!! Z.to_nat j = 0xffffffff
  | Done None => forall j, wordindex <= j < num_words -> array !!! Z.to_nat j = 0xffffffff
  | Fault _ => False
  end.
Proof.
  intros Hw Hl Hf <-. revert wordindex Hw Hf. induction fuel as [|fuel IH]; intros i Hi Hf; [lia|].
  cbn [first_word_not_full].
  destruct (lookup_lt_is_Some_2 array (Z.to_nat i)) as [word Hword]; [lia|]. rewrite Hword.
  assert (Htotal : array !!! Z.to_nat i = word) by (by rewrite list_lookup_total_alt, Hword).
  destruct (word =? 0xffffffff) eqn:E; bool_to_prop.
  - destruct (i + 1 =? num_words) eqn:E1; bool_to_prop.
    + intros j Hj. replace j with i by lia. by rewrite Htotal.
    + specialize (IH (i + 1) ltac:(lia) ltac:(lia)).
      destruct (first_word_not_full fuel array (i + 1) num_words) as [[k|]|]; [| |done].
      * destruct IH as (Hk & Hne & Hall). split; [lia|]. split; [done|]. intros j Hj.
        destruct (Z.eq_dec j i) as [->|]; [by rewrite Htotal|]. apply Hall. lia.
      * intros j Hj. destruct (Z.eq_dec j i) as [->|]; [by rewrite Htotal|]. apply IH. lia.
  - split; [lia|]. split; [by rewrite Htotal|]. lia.
Qed.

Lemma full_bit array i :
  0 <= i -> array !!! Z.to_nat (i / 32) = 0xffffffff -> bit_at array i = true.
Proof.
  intros Hi Hw. unfold bit_at. rewrite Hw. apply (Z.ones_spec_low 32).
  pose proof (Z.mod_pos_bound i 32 eq_refl). lia.
Qed.

Lemma shifted_bit k j : 0 <= k < 32 -> 0 <= j -> Z.testbit (Z.shiftr 0x80000000 k) j = (j =? 31 - k).
Proof.
  intros Hk Hj. rewrite Z.shiftr_spec by done. change 0x80000000 with (2 ^ 31).
  destruct (j =? 31 - k) eqn:E; bool_to_prop.
  - subst. replace (31 - k + k) with 31 by lia. done.
  - apply Z.pow2_bits_false. lia.
Qed.

(** Setting or clearing one bit. *)
Lemma bit_at_insert array w i j :
  0 <= i -> 0 <= j -> i / 32 < Z.of_nat (length array) ->
  bit_at (<[Z.to_nat (i / 32) := w]> array) j
  = if decide (j / 32 = i / 32) then Z.testbit w (31 - j mod 32) else bit_at array j.
Proof.
  intros Hi Hj Hl. unfold bit_at.
  assert (0 <= i / 32) by (apply Z.div_pos; lia). assert (0 <= j / 32) by (apply Z.div_pos; lia).
  destruct (decide _) as [->|Hne].
  - by rewrite list_lookup_total_insert_eq by lia.
  - by rewrite list_lookup_total_insert_ne by lia.
Qed.

Lemma bit_index j i : 0 <= i -> 0 <= j -> j / 32 = i / 32 -> (31 - j mod 32 =? 31 - i mod 32) = bool_decide (j = i).
Proof.
  intros Hi Hj Heq. pose proof (Z.div_mod j 32 ltac:(lia)). pose proof (Z.div_mod i 32 ltac:(lia)).
  case_bool_decide; [subst; apply Z.eqb_refl|]. apply Z.eqb_neq. lia.
Qed.

Lemma is_u32_insert array i w : Forall is_u32 array -> is_u32 w -> Forall is_u32 (<[i := w]> array).
Proof. intros. by apply Forall_insert. Qed.

(** The lowest free index, or -1. *)
Lemma bitmap_alloc_spec array num_bits :
  Forall is_u32 array -> 0 < num_bits -> num_bits = 32 * Z.of_nat (length array) ->
  exists i array', bitmap_alloc array num_bits = Done (i, array') /\
    (Forall is_u32 array' /\ length array' = length array) /\
    if decide (i = -1) then
      array' = array /\ forall j, 0 <= j < num_bits -> bit_at array j = true
    else 0 <= i < num_bits /\ bit_at array i = false /\
      (forall j, 0 <= j < i -> bit_at array j = true) /\
      (forall j, 0 <= j < num_bits -> bit_at array' j = (bool_decide (j = i) || bit_at array j)%bool).
Proof.
  intros Hu Hpos Hn.
  unfold bitmap_alloc. rewrite Z.quot_div_nonneg by lia.
  assert (Hq : num_bits / 32 = Z.of_nat (length array))
    by (rewrite Hn, Z.mul_comm; apply Z.div_mul; lia).
  rewrite Hq.
  pose proof (first_word_spec (S (length array)) array 0 (Z.of_nat (length array)) _ ltac:(lia)
    ltac:(lia) ltac:(lia) eq_refl) as Hspec.
  destruct (first_word_not_full _ array 0 _) as [[w|]|]; [| |done]; cbn [bind_result].
  + destruct Hspec as (Hw & Hne & Hlow). set (word := array !!! Z.to_nat w) in *.
    assert (Hword : is_u32 word).
    { unfold word. rewrite list_lookup_total_alt.
      destruct (lookup_lt_is_Some_2 array (Z.to_nat w)) as [x Hx]; [lia|]. rewrite Hx.
      by eapply Forall_lookup in Hx. }
    destruct (clz_not_full word Hword Hne) as (Hb & Hclear & Hset).
    set (b := builtin_clz (lnot32 word)) in *.
    assert (Hi32 : (w * 32 + b) / 32 = w /\ (w * 32 + b) mod 32 = b)
      by (split; Z.div_mod_to_equations; lia).
    destruct Hi32 as [Hdiv Hmod].
    eexists _, _. split; [reflexivity|]. split.
    { rewrite length_insert. split; [|done]. apply is_u32_insert; [done|].
      apply is_u32_lor; [done|]. apply is_u32_shiftr; [lia|]. by split. }
    rewrite decide_False by lia. split; [lia|].
    split; [unfold bit_at; by rewrite Hdiv, Hmod|]. split.
    * intros j Hj. destruct (Z.eq_dec (j / 32) w) as [Hjw|Hjw].
      -- unfold bit_at. rewrite Hjw. apply Hset. pose proof (Z.div_mod j 32 ltac:(lia)).
         pose proof (Z.mod_pos_bound j 32 eq_refl). lia.
      -- apply full_bit; [lia|]. apply Hlow. Z.div_mod_to_equations. lia.
    * intros j Hj. replace (Z.to_nat w) with (Z.to_nat ((w * 32 + b) / 32)) by (by rewrite Hdiv).
      rewrite bit_at_insert by lia. destruct (decide _) as [Hjw|Hjw].
      -- rewrite Z.lor_spec, shifted_bit by (pose proof (Z.mod_pos_bound j 32 eq_refl); lia).
         replace (31 - b) with (31 - (w * 32 + b) mod 32) by lia.
         rewrite bit_index by lia. rewrite orb_comm. unfold bit_at. by rewrite Hjw, Hdiv.
      -- rewrite bool_decide_false; [done|]. intros ->. lia.
  + exists (-1), array. split; [done|]. split; [done|]. rewrite decide_True by done. split; [done|].
    intros j Hj. apply full_bit; [lia|]. apply Hspec. Z.div_mod_to_equations. lia.
Qed.

Lemma bitmap_free_spec array num_bits i :
  Forall is_u32 array -> num_bits = 32 * Z.of_nat (length array) -> 0 <= i < num_bits ->
  exists array', bitmap_free array i = Done array' /\
    (Forall is_u32 array' /\ length array' = length array) /\
    forall j, 0 <= j < num_bits ->
      bit_at array' j = (negb (bool_decide (j = i)) && bit_at array j)%bool.
Proof.
  intros Hu Hn Hi.
  unfold bitmap_free. rewrite Z.quot_div_nonneg, Z.rem_mod_nonneg by lia.
  assert (Hi32 : 0 <= i / 32 < Z.of_nat (length array)) by (Z.div_mod_to_equations; lia).
  destruct (lookup_lt_is_Some_2 array (Z.to_nat (i / 32))) as [word Hword]; [lia|].
  rewrite Hword. eexists. split; [reflexivity|]. split.
  { rewrite length_insert. split; [|done]. apply is_u32_insert; [done|].
    apply is_u32_land. by eapply Forall_lookup in Hword. }
  intros j Hj.
  rewrite bit_at_insert by lia. destruct (decide _) as [Hjw|Hjw].
  + pose proof (Z.mod_pos_bound j 32 eq_refl). pose proof (Z.mod_pos_bound i 32 eq_refl).
    rewrite Z.land_spec, lnot32_bit, shifted_bit, bit_index by lia. rewrite andb_comm.
    unfold bit_at. by rewrite Hjw, list_lookup_total_alt, Hword.
  + rewrite bool_decide_false; [done|]. intros ->. done.
Qed.

(** ** Properties *)

(** Bitmap_alloc and bitmap_free are allocation of the lowest free index.  On an array
    of whole words, bitmap_alloc returns the first index whose bit is clear, having found
    every lower one set, and sets that bit only, or -1 when all are set; it never reads
    past the array.  bitmap_free of an index clears its bit only. *)
Theorem bitmap_allocates array num_bits :
  Forall is_u32 array -> 0 < num_bits -> num_bits = 32 * Z.of_nat (length array) ->
  (exists i array', bitmap_alloc array num_bits = Done (i, array') /\
    if decide (i = -1) then
      array' = array /\ forall j, 0 <= j < num_bits -> bit_at array j = true
    else 0 <= i < num_bits /\ bit_at array i = false /\
      (forall j, 0 <= j < i -> bit_at array j = true) /\
      (forall j, 0 <= j < num_bits -> bit_at array' j = (bool_decide (j = i) || bit_at array j)%bool)) /\
  (forall i, 0 <= i < num_bits -> exists array', bitmap_free array i = Done array' /\
    forall j, 0 <= j < num_bits ->
      bit_at array' j = (negb (bool_decide (j = i)) && bit_at array j)%bool).
Proof.
  intros Hu Hpos Hn. split.
  - destruct (bitmap_alloc_spec array num_bits Hu Hpos Hn) as (i & array' & E & _ & H).
    by exists i, array'.
  - intros i Hi. destruct (bitmap_free_spec array num_bits i Hu Hn Hi) as (array' & E & _ & H).
    by exists array'.
Qed.

Lemma bitmap_allocates_witness :
  exists i array', bitmap_alloc [0xffffffff; 0xc0000000] 64 = Done (i, array') /\
    i = 34 /\ array' = [0xffffffff; 0xe0000000] /\
    exists array'', bitmap_free array' 33 = Done array'' /\
      forall j, 0 <= j < 64 -> bit_at array'' j = (negb (bool_decide (j = 33)) && bit_at array' j)%bool.
Proof.
  assert (H1 : Forall is_u32 [0xffffffff; 0xc0000000]) by vm_decide.
  assert (H2 : Forall is_u32 [0xffffffff; 0xe0000000]) by vm_decide.
  destruct (proj1 (bitmap_allocates [0xffffffff; 0xc0000000] 64 H1 eq_refl eq_refl))
    as (i & array' & E & _).
  exists i, array'. split; [exact E|]. vm_compute in E. injection E as <- <-.
  split; [done|]. split; [done|].
  apply (proj2 (bitmap_allocates [0xffffffff; 0xe0000000] 64 H2 eq_refl eq_refl)). lia.
Defined.

(** The references the rest of the kernel holds, and what it does with them. *)
Inductive clients (first last : Z) : (Z -> Z) -> page_state -> Prop :=
| clients_start s :
    pages_ok first last s -> (forall p, first <= p < last -> refs p s = 0) ->
    clients first last (fun _ => 0) s
| clients_allocate holds s page s' :
    clients first last holds s -> vm_allocate_page s = Done (page, s') ->
    clients first last (<[page := 1]> holds) s'
| clients_reference holds s page s' :
    clients first last holds s -> 0 < holds page -> holds page + 1 < 2 ^ 31 ->
    inc_page_ref page s = Done s' ->
    clients first last (<[page := holds page + 1]> holds) s'
| clients_release holds s page s' :
    clients first last holds s -> 0 < holds page -> dec_page_ref page s = Done s' ->
    clients first last (<[page := holds page - 1]> holds) s'.

Lemma clients_invariant first last holds s :
  clients first last holds s ->
  pages_ok first last s /\ (forall p, first <= p < last -> refs p s = holds p)
  /\ (forall p, 0 < holds p -> first <= p < last).
Proof.
  induction 1 as [s Hs Hz|holds s page s' _ (Hs & Hr & Hin) E|holds s page s' _ (Hs & Hr & Hin) Hp Hm E
    |holds s page s' _ (Hs & Hr & Hin) Hp E].
  - split; [done|]. split; [done|]. lia.
  - destruct (allocate_ok first last s page s' Hs E) as (Hs' & Hpage & _ & _ & _ & _ & Hr' & _).
    pose proof (ok_range _ _ _ Hs) as (H0 & _ & _).
    split; [done|]. split.
    + intros p Hrange. rewrite Hr' by lia. destruct (decide (p = page)) as [->|Hne].
      * by rewrite fn_lookup_insert.
      * rewrite fn_lookup_insert_ne by congruence. by apply Hr.
    + intros p. destruct (decide (p = page)) as [->|Hne]; [done|].
      rewrite fn_lookup_insert_ne by congruence. apply Hin.
  - specialize (Hin page Hp) as Hpage. pose proof (ok_range _ _ _ Hs) as (H0 & _ & _).
    destruct (inc_ok first last s page Hs Hpage) as (s1 & E1 & Hs' & _ & Hr');
      [rewrite Hr by done; lia..|].
    rewrite E in E1. injection E1 as <-. split; [done|]. split.
    + intros p Hrange. rewrite Hr' by lia. destruct (decide (p = page)) as [->|Hne].
      * rewrite fn_lookup_insert. by rewrite Hr.
      * rewrite fn_lookup_insert_ne by congruence. by apply Hr.
    + intros p. destruct (decide (p = page)) as [->|Hne]; [done|].
      rewrite fn_lookup_insert_ne by congruence. apply Hin.
  - specialize (Hin page Hp) as Hpage. pose proof (ok_range _ _ _ Hs) as (H0 & _ & _).
    destruct (dec_ok first last s page Hs Hpage) as (s1 & E1 & Hs' & _ & Hr');
      [rewrite Hr by done; lia|].
    rewrite E in E1. injection E1 as <-. split; [done|]. split.
    + intros p Hrange. rewrite Hr' by lia. destruct (decide (p = page)) as [->|Hne].
      * rewrite fn_lookup_insert. by rewrite Hr.
      * rewrite fn_lookup_insert_ne by congruence. by apply Hr.
    + intros p. destruct (decide (p = page)) as [->|Hne]; [done|].
      rewrite fn_lookup_insert_ne by congruence. apply Hin.
Qed.

(** C25: pages are reference counted.  However the kernel allocates pages, takes further
    references to pages it holds and gives references back, the count of every page is the
    number of references held; an allocation returns a page nobody holds, with all its words
    zero and every other word of memory as it was, and the kernel stops for want of memory
    only when every page is held; giving back a reference that is held never fails the
    assertion, and giving back the last one makes the page free again. *)
Theorem pages_counted first last holds s :
  clients first last holds s ->
  (forall p, first <= p < last -> refs p s = holds p /\ (holds p = 0 <-> p ∈ free_page_list s)) /\
  match vm_allocate_page s with
  | Done (page, s') => holds page = 0 /\ first <= page < last /\
      forall a, phys s' a = if decide (in_page page a) then 0 else phys s a
  | Fault f => f = HostExit /\ forall p, first <= p < last -> 0 < holds p
  end /\
  (forall p, 0 < holds p -> exists s', dec_page_ref p s = Done s' /\
    (p ∈ free_page_list s' <-> holds p = 1)).
Proof.
  intros Hc. destruct (clients_invariant first last holds s Hc) as (Hs & Hr & Hin).
  split; [|split].
  - intros p Hp. split; [by apply Hr|]. rewrite <- Hr by done. split.
    + by apply (ok_used _ _ _ Hs).
    + intros Hfree. by apply (ok_free _ _ _ Hs).
  - destruct (vm_allocate_page s) as [[page s']|f] eqn:E.
    + destruct (allocate_ok first last s page s' Hs E) as (_ & Hpage & Hz & _ & _ & _ & _ & Hphys).
      rewrite <- Hr by done. done.
    + destruct (allocate_fails first last s f Hs E) as [-> Hall]. split; [done|].
      intros p Hp. rewrite <- Hr by done. by apply Hall.
  - intros p Hp. specialize (Hin p Hp) as Hpage. pose proof (ok_range _ _ _ Hs) as (H0 & _ & _).
    destruct (dec_ok first last s p Hs Hpage) as (s' & E & Hs' & _ & Hr'); [by rewrite Hr|].
    exists s'. split; [done|]. specialize (Hr' p ltac:(lia)). rewrite decide_True in Hr' by done.
    rewrite <- Hr by done. split.
    + intros Hfree. destruct (ok_free _ _ _ Hs' p Hfree). lia.
    + intros Hone. apply (ok_used _ _ _ Hs'); [done|lia].
Qed.

Lemma pages_counted_witness :
  exists s, clients 0 2 (<[0 := 2]> (<[0 := 1]> (fun _ => 0))) s /\
    (forall p, 0 <= p < 2 ->
       refs p s = (<[0 := 2]> (<[0 := 1]> (fun _ : Z => 0)) : Z -> Z) p) /\
    free_page_list s = [1].
Proof.
  set (s0 := vm_page_init 0x3000 0
    {| pages := replicate 3 boot_page; free_page_list := []; memory_size := 0; phys := fun _ => 7 |}).
  assert (H0 : clients 0 2 (fun _ => 0) s0).
  { destruct (vm_page_init_ok 0x3000 0
      {| pages := replicate 3 boot_page; free_page_list := []; memory_size := 0; phys := fun _ => 7 |}
      3 eq_refl eq_refl ltac:(lia) ltac:(lia)) as [Hok Hz].
    apply clients_start; [exact Hok|]. intros p Hp. apply Hz. lia. }
  pose proof (clients_allocate 0 2 _ s0 0 _ H0 eq_refl) as H1.
  pose proof (clients_reference 0 2 _ _ 0 _ H1 eq_refl eq_refl eq_refl) as H2.
  eexists. split; [exact H2|]. split; [|reflexivity].
  intros p Hp. exact (proj1 (proj1 (pages_counted 0 2 _ _ H2) p Hp)).
Defined.

(** [allocate_contiguous_memory] of at least one page returns a run of pages of the free
    list, each with one reference from then on; nothing else changes. *)
Lemma contiguous_takes_free_pages first last s size pa s' :
  pages_ok first last s -> 0 < size <= 2 ^ 32 - PAGE_SIZE ->
  allocate_contiguous_memory size s = Done (pa, s') -> pa <> 0xffffffff ->
  let count := (size + PAGE_SIZE - 1) / PAGE_SIZE in
  exists page, pa = page * PAGE_SIZE /\ pages_ok first last s' /\ phys s' = phys s
    /\ (forall i, 0 <= i < count -> page + i ∈ free_page_list s)
    /\ (forall p, 0 <= p -> refs p s' = if decide (page <= p < page + count) then 1 else refs p s).
Proof.
  intros Hs Hsize Hrun Hpa count. unfold allocate_contiguous_memory in Hrun. cbv zeta in Hrun.
  rewrite u32_small in Hrun by (unfold PAGE_SIZE in *; lia). fold count in Hrun.
  assert (Hcount : 0 < count) by (subst count; unfold PAGE_SIZE in *; Z.div_mod_to_equations; lia).
  apply bind_Done_inv in Hrun as (run & Hfind & Hrun). destruct run as [page|]; [|congruence].
  apply bind_Done_inv in Hrun as (s1 & Htake & Hrun). injection Hrun as <- ->.
  destruct (find_run_spec first last _ 0 count _ s page Hs ltac:(lia) ltac:(lia) Hfind) as [Hpage _].
  destruct (take_run_spec first last _ page s s' Hs Hpage Htake) as (Hs' & Hphys & Hall & Hrefs).
  rewrite Z2Nat.id in Hall, Hrefs by lia.
  pose proof (ok_free _ _ _ Hs page) as Hfree. specialize (Hall 0 ltac:(lia)) as Hin.
  rewrite Z.add_0_r in Hin. apply Hfree in Hin as [Hin _].
  destruct (ok_range _ _ _ Hs) as (_ & _ & Hmax).
  exists page. split; [apply u32_small; unfold PAGE_SIZE in *; lia|]. done.
Qed.

(** The pages the boot code used are counted free and are on no list: the first
    [allocate_contiguous_memory] picks page 0 and fails. *)
Lemma contiguous_takes_boot_pages :
  let s := vm_page_init 0x8000 2
    {| pages := replicate 8 boot_page; free_page_list := []; memory_size := 0; phys := fun _ => 0 |} in
  free_page_list s = [2; 3; 4; 5; 6] /\ allocate_contiguous_memory PAGE_SIZE s = Fault OutOfBounds.
Proof. vm_compute. done. Qed.
