(* ===== verification/TranslationMap.v ===== *)
(** * TranslationMap: page tables (software/kernel/vm_translation_map.c)

    Physical memory and the page allocator are VmPage's.  The kernel reaches physical memory
    through its alias, so [PA_TO_VA] disappears: a pointer into a page table is the physical
    address of the word.  A map is known by the address of its structure, which the slab
    allocator gave (an argument of [create_translation_map], as in VmAreaMap).  Each function
    holds its spinlock with interrupts off while it touches shared state, so it is one step;
    [tlbinval] instructions are recorded in [invalidated]. *)

From S2P Require Export VmPage.
From stdpp Require Import list gmap functions.
Import stdpp.list_relations.list.

#[local] Open Scope Z_scope.

(** ** Constants *)

Definition KERNEL_BASE : Z := 0xc0000000.
Definition MAX_ASIDS : Z := 64.
Definition PAGE_PRESENT : Z := 1.

(** ** Data *)

Record translation_map := { page_dir : Z; asid : Z }.

Record vm_state := {
  frames : page_state;
  kernel_map : translation_map;
  map_list : list Z;
  maps : gmap Z translation_map;
  asid_alloc : list Z;
  invalidated : list Z;
  registers : Z * Z
}.

#[export]
Instance vm_state_fields : Fields vm_state := fun s =>
  Build_vm_state (frames s) (kernel_map s) (map_list s) (maps s) (asid_alloc s)
    (invalidated s) (registers s).

Definition memory_of (s : vm_state) : Z -> Z := phys (frames s).

Definition write_phys (a v : Z) (s : vm_state) : vm_state :=
  s <| frames ::= fun f => f <| phys ::= <[a := v]> |> |>.

Definition get_map (map : Z) (s : vm_state) : result translation_map :=
  match maps s !! map with
  | Some m => Done m
  | None => Fault OutOfBounds
  end.

Definition get_page (s : vm_state) : result (Z * vm_state) :=
  '(page, f) <-- vm_allocate_page (frames s);;
  Done (page, s <| frames := f |>).

(** ** Operations *)

Definition pgdindex (va : Z) : Z := va / PAGE_SIZE / 1024.
Definition pgtindex (va : Z) : Z := (va / PAGE_SIZE) mod 1024.

Definition vm_translation_map_init (page_dir_register : Z) (s : vm_state) : vm_state :=
  s <| map_list := [] |>
    <| kernel_map ::= fun m => {| page_dir := page_dir_register; asid := asid m |} |>.

(** [memcpy] of the 256 kernel entries of a page directory. *)
Definition copy_kernel_entries (to from : Z) (memory : Z -> Z) : Z -> Z :=
  fun a => if (to + 768 * 4 <=? a) && (a <? to + 1024 * 4) then memory (from + (a - to))
           else memory a.

Definition create_translation_map (object : Z) (s : vm_state) : result vm_state :=
  '(page, s) <-- get_page s;;
  let dir := page_to_pa page in
  let s := s <| frames ::= fun f => f <| phys ::=
    copy_kernel_entries dir (page_dir (kernel_map s)) |> |> in
  '(id, bits) <-- bitmap_alloc (asid_alloc s) MAX_ASIDS;;
  Done (s <| asid_alloc := bits |>
          <| maps ::= <[object := {| page_dir := dir; asid := id |}]> |>
          <| map_list ::= fun l => l ++ [object] |>).

Definition release_page (addr : Z) (s : vm_state) : result vm_state :=
  page <-- pa_to_page addr (frames s);;
  f <-- dec_page_ref page (frames s);;
  Done (s <| frames := f |>).

(** [for (i = 0; i < 768; i++)]: from entry [i] on, [count] entries. *)
Fixpoint free_user_tables (count : nat) (i pgdir : Z) (s : vm_state) : result vm_state :=
  match count with
  | O => Done s
  | S count' =>
      let entry := memory_of s (pgdir + i * 4) in
      s <-- (if Z.land entry PAGE_PRESENT =? 0 then Done s
             else release_page (PAGE_ALIGN entry) s);;
      free_user_tables count' (i + 1) pgdir s
  end.

Definition destroy_translation_map (map : Z) (s : vm_state) : result vm_state :=
  m <-- get_map map s;;
  let s := s <| map_list ::= List.filter (fun other => negb (other =? map)) |> in
  bits <-- (if 0 <=? asid m then bitmap_free (asid_alloc s) (asid m) else Done (asid_alloc s));;
  let s := s <| asid_alloc := bits |> in
  s <-- free_user_tables 768 0 (page_dir m) s;;
  s <-- release_page (page_dir m) s;;
  Done (s <| maps ::= delete map |>).

(** [list_for_each (&map_list, other_map, ...)]: the last page directory visited. *)
Fixpoint set_entry_in_maps (others : list Z) (slot new_pgt pgdir : Z) (s : vm_state)
  : result (Z * vm_state) :=
  match others with
  | [] => Done (pgdir, s)
  | other_map :: others' =>
      m <-- get_map other_map s;;
      set_entry_in_maps others' slot new_pgt (page_dir m)
        (write_phys (page_dir m + slot * 4) new_pgt s)
  end.

(** The page table entry and the TLB. *)
Definition set_table_entry (pgdir va pa : Z) (s : vm_state) : vm_state :=
  let pgtbl := PAGE_ALIGN (memory_of s (pgdir + pgdindex va * 4)) in
  write_phys (pgtbl + pgtindex va * 4) pa s <| invalidated ::= cons va |>.

Definition vm_map_page (map va pa : Z) (s : vm_state) : result vm_state :=
  if KERNEL_BASE <=? va then
    let pgdir := page_dir (kernel_map s) in
    '(pgdir, s) <--
      (if Z.land (memory_of s (pgdir + pgdindex va * 4)) PAGE_PRESENT =? 0 then
         '(page, s) <-- get_page s;;
         let new_pgt := Z.lor (page_to_pa page) PAGE_PRESENT in
         set_entry_in_maps (map_list s) (pgdindex va) new_pgt pgdir s
       else Done (pgdir, s));;
    Done (set_table_entry pgdir va pa s)
  else
    m <-- get_map map s;;
    let pgdir := page_dir m in
    s <-- (if Z.land (memory_of s (pgdir + pgdindex va * 4)) PAGE_PRESENT =? 0 then
             '(page, s) <-- get_page s;;
             Done (write_phys (pgdir + pgdindex va * 4) (Z.lor (page_to_pa page) PAGE_PRESENT) s)
           else Done s);;
    Done (set_table_entry pgdir va pa s).

(** The entry of [va], or 0. *)
Definition walk (pgdir va : Z) (memory : Z -> Z) : Z :=
  let entry := memory (pgdir + pgdindex va * 4) in
  if Z.land entry PAGE_PRESENT =? 0 then 0
  else memory (PAGE_ALIGN entry + pgtindex va * 4).

Definition query_translation_map (map va : Z) (s : vm_state) : result Z :=
  if KERNEL_BASE <=? va then Done (walk (page_dir (kernel_map s)) va (memory_of s))
  else m <-- get_map map s;; Done (walk (page_dir m) va (memory_of s)).

Definition switch_to_translation_map (map : Z) (s : vm_state) : result vm_state :=
  m <-- get_map map s;; Done (s <| registers := (page_dir m, asid m) |>).

(** ** The invariant *)

(** A half of an address space: a map's user half, or the kernel's. *)
Inductive space := Kernel | User (map : Z).

(** What a page of memory is used for. *)
Inductive owner := Directory (sp : space) | Table (sp : space) (slot : Z).

#[export]
Instance space_eq_dec : EqDecision space.
Proof. solve_decision. Defined.

#[export]
Instance owner_eq_dec : EqDecision owner.
Proof. solve_decision. Defined.

Definition slot_of (sp : space) (slot : Z) : Prop :=
  match sp with Kernel => 768 <= slot < 1024 | User _ => 0 <= slot < 768 end.

Definition directory_of (sp : space) (s : vm_state) : option Z :=
  match sp with
  | Kernel => Some (page_dir (kernel_map s))
  | User map => page_dir <$> maps s !! map
  end.

(** An entry of a directory is absent, or leads to a page that is this table only. *)
Definition entry_ok (own : Z -> option owner) (o : owner) (entry : Z) : Prop :=
  Z.land entry PAGE_PRESENT = 0
  \/ exists page, entry = page * PAGE_SIZE + PAGE_PRESENT /\ own page = Some o.

(** [own] says what each page is used for, so no page has two uses; pages in use are not
    the allocator's to give. *)
Record tables_ok (first last : Z) (own : Z -> option owner) (s : vm_state) : Prop := {
  tables_pages : pages_ok first last (frames s);
  tables_memory : 0 < first /\ last * PAGE_SIZE <= memory_size (frames s);
  tables_owned : forall page o, own page = Some o ->
    0 < page < last /\ (first <= page -> refs page (frames s) = 1);
  tables_user : forall page o, own page = Some o ->
    match o with Directory (User _) | Table (User _) _ => first <= page | _ => True end;
  tables_dir : forall sp dir, directory_of sp s = Some dir ->
    exists page, dir = page * PAGE_SIZE /\ own page = Some (Directory sp);
  tables_entry : forall sp dir slot, directory_of sp s = Some dir -> slot_of sp slot ->
    entry_ok own (Table sp slot) (memory_of s (dir + slot * 4));
  tables_shared : forall map dir slot, directory_of (User map) s = Some dir -> slot_of Kernel slot ->
    let entry := memory_of s (page_dir (kernel_map s) + slot * 4) in
    Z.land entry PAGE_PRESENT <> 0 -> memory_of s (dir + slot * 4) = entry;
  tables_list : NoDup (map_list s) /\ forall map, map ∈ map_list s <-> is_Some (maps s !! map)
}.

(** ** Entries *)

Lemma entry_value page : 0 <= page -> Z.lor (page * PAGE_SIZE) PAGE_PRESENT = page * PAGE_SIZE + PAGE_PRESENT.
Proof.
  intros Hp. symmetry. apply Z.add_nocarry_lor. unfold PAGE_PRESENT, PAGE_SIZE.
  apply Z.bits_inj'. intros i Hi. rewrite Z.land_spec, Z.bits_0.
  destruct (Z.eq_dec i 0) as [->|Hne].
  - change 0x1000 with (2 ^ 12). rewrite Z.mul_pow2_bits_low by lia. done.
  - change 1 with (2 ^ 0). by rewrite (Z.pow2_bits_false 0 i), andb_false_r by lia.
Qed.

Lemma entry_present page : Z.land (page * PAGE_SIZE + PAGE_PRESENT) PAGE_PRESENT <> 0.
Proof.
  change PAGE_PRESENT with (Z.ones 1) at 2. rewrite Z.land_ones by lia.
  unfold PAGE_SIZE, PAGE_PRESENT. change (2 ^ 1) with 2. Z.div_mod_to_equations. lia.
Qed.

Lemma entry_page page :
  0 <= page -> (page + 1) * PAGE_SIZE <= 2 ^ 32 ->
  PAGE_ALIGN (page * PAGE_SIZE + PAGE_PRESENT) = page * PAGE_SIZE.
Proof.
  intros Hp Hm. rewrite PAGE_ALIGN_mod.
  - unfold PAGE_SIZE, PAGE_PRESENT. Z.div_mod_to_equations. lia.
  - unfold is_u32, is_unsigned, PAGE_SIZE, PAGE_PRESENT in *. lia.
Qed.

(** Words of distinct pages, or distinct words of a page, are distinct. *)
Lemma word_eq page page' i i' :
  0 <= i < 1024 -> 0 <= i' < 1024 ->
  (page * PAGE_SIZE + i * 4 = page' * PAGE_SIZE + i' * 4 <-> page = page' /\ i = i').
Proof. intros. unfold PAGE_SIZE. split; lia. Qed.

Lemma word_in_page page page' i :
  0 <= i < 1024 -> (in_page page' (page * PAGE_SIZE + i * 4) <-> page = page').
Proof. intros. unfold in_page, PAGE_SIZE. split; lia. Qed.

(** The indices of a 32-bit address. *)
Lemma index_range va : 0 <= va < 2 ^ 32 -> 0 <= pgdindex va < 1024 /\ 0 <= pgtindex va < 1024.
Proof. unfold pgdindex, pgtindex, PAGE_SIZE. intros. Z.div_mod_to_equations. lia. Qed.

Lemma index_inj va va' :
  pgdindex va = pgdindex va' /\ pgtindex va = pgtindex va' <-> va / PAGE_SIZE = va' / PAGE_SIZE.
Proof.
  unfold pgdindex, pgtindex. split; [|by intros ->]. intros [H1 H2].
  rewrite (Z.div_mod (va / PAGE_SIZE) 1024), (Z.div_mod (va' / PAGE_SIZE) 1024) by lia. lia.
Qed.

(** The half an address is in. *)
Definition space_of (map va : Z) : space := if KERNEL_BASE <=? va then Kernel else User map.

Definition in_space (sp : space) (va : Z) : Prop :=
  0 <= va < 2 ^ 32 /\ slot_of sp (pgdindex va).

Lemma space_of_slot map va : 0 <= va < 2 ^ 32 -> in_space (space_of map va) va.
Proof.
  intros Hva. split; [done|]. unfold space_of, slot_of, pgdindex, KERNEL_BASE, PAGE_SIZE.
  destruct (0xc0000000 <=? va) eqn:E; bool_to_prop; Z.div_mod_to_equations; lia.
Qed.

Lemma slot_range sp slot : slot_of sp slot -> 0 <= slot < 1024.
Proof. destruct sp; simpl; lia. Qed.

Lemma query_walk map va s dir :
  directory_of (space_of map va) s = Some dir ->
  query_translation_map map va s = Done (walk dir va (memory_of s)).
Proof.
  unfold query_translation_map, space_of, get_map. destruct (KERNEL_BASE <=? va); simpl.
  - by intros [= <-].
  - destruct (maps s !! map); [|done]. by intros [= <-].
Qed.

(** ** Writing page tables *)

Lemma pages_ok_phys first last g (f : page_state) :
  pages_ok first last f -> pages_ok first last (f <| phys ::= g |>).
Proof. intros [? ? ? ? ?]. by constructor. Qed.

Lemma memory_write a v s a' :
  memory_of (write_phys a v s) a' = if decide (a' = a) then v else memory_of s a'.
Proof.
  unfold memory_of, write_phys. simpl. destruct (decide _) as [->|Hne].
  - by rewrite fn_lookup_insert.
  - by rewrite fn_lookup_insert_ne by congruence.
Qed.

(** Any change of memory that keeps the directories keeps the tables. *)
Lemma tables_ok_memory first last own s s' :
  tables_ok first last own s ->
  (exists g, s' = s <| frames ::= fun f => f <| phys ::= g |> |>) ->
  (forall sp page slot, own page = Some (Directory sp) -> 0 <= slot < 1024 ->
     memory_of s' (page * PAGE_SIZE + slot * 4) = memory_of s (page * PAGE_SIZE + slot * 4)) ->
  tables_ok first last own s'.
Proof.
  intros [Hp Hm Ho Hu Hd He Hs Hl] [g ->] Hsame.
  assert (Hword : forall sp dir slot, directory_of sp s = Some dir -> 0 <= slot < 1024 ->
    memory_of (s <| frames ::= fun f => f <| phys ::= g |> |>) (dir + slot * 4)
    = memory_of s (dir + slot * 4)).
  { intros sp dir slot Hdir Hslot. destruct (Hd sp dir Hdir) as (page & -> & Hown).
    by apply (Hsame sp). }
  constructor; try done.
  - by apply pages_ok_phys.
  - intros sp dir slot Hdir Hslot. rewrite (Hword sp) by (done || by eapply slot_range).
    by apply He.
  - intros map dir slot Hdir Hslot. cbv zeta.
    rewrite (Hword Kernel) by (done || by eapply slot_range). intros Hpresent.
    rewrite (Hword (User map)) by (done || by eapply slot_range). by apply (Hs map).
Qed.

(** The table an entry leads to. *)
Lemma present_table first last own s sp dir va :
  tables_ok first last own s -> directory_of sp s = Some dir -> in_space sp va ->
  Z.land (memory_of s (dir + pgdindex va * 4)) PAGE_PRESENT <> 0 ->
  exists page, own page = Some (Table sp (pgdindex va)) /\ 0 < page < last
    /\ PAGE_ALIGN (memory_of s (dir + pgdindex va * 4)) = page * PAGE_SIZE.
Proof.
  intros Hok Hdir [Hva Hslot] Hp. destruct (tables_entry _ _ _ _ Hok sp dir _ Hdir Hslot)
    as [Hz|(page & Heq & Hown)]; [done|].
  destruct (tables_owned _ _ _ _ Hok _ _ Hown) as [Hr _].
  destruct (ok_range _ _ _ (tables_pages _ _ _ _ Hok)) as (_ & _ & Hmax).
  exists page. rewrite Heq. split; [done|]. split; [lia|]. apply entry_page; [lia|].
  unfold PAGE_SIZE in *. lia.
Qed.

(** What a change of memory outside a space's page tables leaves of it. *)
Lemma walk_same first last own s sp dir va memory :
  tables_ok first last own s -> directory_of sp s = Some dir -> in_space sp va ->
  (forall page o slot, own page = Some o -> 0 <= slot < 1024 ->
     o = Directory sp /\ slot = pgdindex va \/ o = Table sp (pgdindex va) /\ slot = pgtindex va ->
     memory (page * PAGE_SIZE + slot * 4) = memory_of s (page * PAGE_SIZE + slot * 4)) ->
  walk dir va memory = walk dir va (memory_of s).
Proof.
  intros Hok Hdir Hin Hsame. unfold walk. destruct (index_range va ltac:(apply Hin)) as [Hr1 Hr2].
  destruct (tables_dir _ _ _ _ Hok sp dir Hdir) as (pd & -> & Hpd).
  rewrite (Hsame pd _ (pgdindex va) Hpd Hr1) by (by left).
  destruct (_ =? 0) eqn:E; [done|]. bool_to_prop.
  destruct (present_table _ _ _ _ sp _ va Hok Hdir Hin E) as (pt & Hpt & _ & ->).
  apply (Hsame pt _ _ Hpt Hr2). by right.
Qed.

(** Pages nobody owns are not touched. *)
Definition others_kept (own : Z -> option owner) (s s' : vm_state) : Prop :=
  forall page a, in_page page a -> own page = None -> memory_of s' a = memory_of s a.

Lemma set_table_entry_ok first last own s sp dir va pa :
  tables_ok first last own s -> directory_of sp s = Some dir -> in_space sp va ->
  Z.land (memory_of s (dir + pgdindex va * 4)) PAGE_PRESENT <> 0 ->
  let s' := set_table_entry dir va pa s in
  tables_ok first last own s'
  /\ (forall sp' dir' va', directory_of sp' s = Some dir' -> in_space sp' va' ->
       walk dir' va' (memory_of s')
       = if decide (sp' = sp /\ va' / PAGE_SIZE = va / PAGE_SIZE) then pa
         else walk dir' va' (memory_of s))
  /\ others_kept own s s'.
Proof.
  intros Hok Hdir Hin Hpres s'. destruct (index_range va ltac:(apply Hin)) as [Hr1 Hr2].
  destruct (present_table _ _ _ _ sp dir va Hok Hdir Hin Hpres) as (pt & Hpt & Hrange & Halign).
  assert (Hmem : forall a, memory_of s' a
    = if decide (a = pt * PAGE_SIZE + pgtindex va * 4) then pa else memory_of s a).
  { intros a. subst s'. unfold set_table_entry. cbv zeta. rewrite Halign. apply memory_write. }
  assert (Hother : forall page o slot, own page = Some o -> 0 <= slot < 1024 ->
    (o, slot) <> (Table sp (pgdindex va), pgtindex va) ->
    memory_of s' (page * PAGE_SIZE + slot * 4) = memory_of s (page * PAGE_SIZE + slot * 4)).
  { intros page o slot Hown Hslot Hne. rewrite Hmem, decide_False; [done|].
    rewrite word_eq by done. intros [-> ->]. apply Hne. congruence. }
  split; [|split].
  - enough (H : tables_ok first last own (write_phys (pt * PAGE_SIZE + pgtindex va * 4) pa s)).
    { subst s'. unfold set_table_entry. cbv zeta. rewrite Halign. by destruct H. }
    apply (tables_ok_memory first last own s); [done|by eexists|].
    intros sp' page slot Hown Hslot. rewrite memory_write, <- Hmem. by apply (Hother _ (Directory sp')).
  - intros sp' dir' va' Hdir' Hin'. destruct (decide _) as [[-> Hpage]|Hne].
    + rewrite Hdir in Hdir'. injection Hdir' as <-.
      apply index_inj in Hpage as [Hd Ht]. unfold walk.
      destruct (tables_dir _ _ _ _ Hok sp dir Hdir) as (pd & -> & Hpd).
      rewrite Hd, (Hother pd _ _ Hpd Hr1) by congruence.
      rewrite (proj2 (Z.eqb_neq _ _) Hpres), Halign, Ht, Hmem. by rewrite decide_True.
    + apply (walk_same first last own s sp'); try done.
      intros page o slot Hown Hslot Ho. apply (Hother _ o); [done..|].
      intros [= -> ->]. destruct Ho as [[? _]|[[= <- Hd] Ht]]; [done|].
      apply Hne. split; [done|]. apply index_inj. done.
  - intros page a Ha Hown. rewrite Hmem, decide_False; [done|]. intros ->.
    apply word_in_page in Ha; [|done]. congruence.
Qed.

(** ** A page for a table *)

Lemma get_page_ok first last own s page s' :
  tables_ok first last own s -> get_page s = Done (page, s') ->
  tables_ok first last own s' /\ own page = None /\ first <= page < last
  /\ page_to_pa page = page * PAGE_SIZE
  /\ (exists f, s' = s <| frames := f |>)
  /\ (forall p, 0 <= p -> refs p (frames s') = if decide (p = page) then 1 else refs p (frames s))
  /\ (forall a, memory_of s' a = if decide (in_page page a) then 0 else memory_of s a).
Proof.
  intros Hok Hget. unfold get_page in Hget.
  apply bind_Done_inv in Hget as ([page' f] & Hget & Heq). injection Heq as -> <-.
  destruct Hok as [Hp [H0 Hm] Ho Hu Hd He Hs Hl].
  destruct (allocate_ok _ _ _ _ _ Hp Hget) as (Hp' & Hr & Hz & _ & Hmem & _ & Hrefs & Hphys).
  assert (Hnone : own page = None).
  { destruct (own page) eqn:E; [|done]. destruct (Ho _ _ E) as [_ H1]. specialize (H1 ltac:(lia)). lia. }
  assert (Hsame : forall p o i, own p = Some o -> 0 <= i < 1024 ->
    memory_of (s <| frames := f |>) (p * PAGE_SIZE + i * 4) = memory_of s (p * PAGE_SIZE + i * 4)).
  { intros p o i Hown Hi. unfold memory_of. simpl. rewrite Hphys, decide_False; [done|].
    rewrite word_in_page by done. congruence. }
  split; [|split_and!; [done|lia|lia|by apply (page_to_pa_small first last (frames s))|by eexists|done|done]].
  constructor; simpl; try done.
  - by rewrite Hmem.
  - intros p o Hown. destruct (Ho p o Hown) as [Hrange H1]. split; [done|]. intros Hf.
    rewrite Hrefs, decide_False by (lia || congruence). by apply H1.
  - intros sp dir slot Hdir Hslot. destruct (Hd sp dir Hdir) as (pd & -> & Hpd).
    rewrite (Hsame pd _ slot Hpd) by (by eapply slot_range). by apply (He sp).
  - intros map dir slot Hdir Hslot. change (directory_of (User map) s = Some dir) in Hdir.
    destruct (Hd _ dir Hdir) as (pd & -> & Hpd).
    destruct (Hd Kernel _ eq_refl) as (kd & Hkd & Hkown). pose proof (slot_range Kernel slot Hslot) as Hi.
    rewrite Hkd, !(Hsame _ _ slot) by done. rewrite <- Hkd. by apply (Hs map).
Qed.

Lemma get_page_fails first last own s f :
  tables_ok first last own s -> get_page s = Fault f ->
  f = HostExit /\ forall page, first <= page < last -> 0 < refs page (frames s).
Proof.
  intros Hok Hget. unfold get_page in Hget. apply (allocate_fails first last _ _ (tables_pages _ _ _ _ Hok)).
  destruct (vm_allocate_page (frames s)) as [[? ?]|f']; [done|]. by injection Hget as ->.
Qed.

(** A cleared page of nobody becomes the table of an absent entry: nothing is mapped yet. *)
Lemma new_table_ok first last own s sp dir slot page :
  tables_ok first last own s -> directory_of sp s = Some dir -> slot_of sp slot ->
  Z.land (memory_of s (dir + slot * 4)) PAGE_PRESENT = 0 ->
  own page = None -> 0 < page < last -> (first <= page -> refs page (frames s) = 1) ->
  match sp with User _ => first <= page | Kernel => maps s = ∅ end ->
  (forall a, in_page page a -> memory_of s a = 0) ->
  let s' := write_phys (dir + slot * 4) (page * PAGE_SIZE + PAGE_PRESENT) s in
  tables_ok first last (<[page := Some (Table sp slot)]> own) s'
  /\ (forall sp' dir' va', directory_of sp' s = Some dir' -> in_space sp' va' ->
       walk dir' va' (memory_of s') = walk dir' va' (memory_of s)).
Proof.
  intros Hok Hdir Hslot Habsent Hnone Hrange H1 Hsp Hzero s'. pose proof (slot_range _ _ Hslot) as Hi.
  destruct (tables_dir _ _ _ _ Hok _ _ Hdir) as (pd & -> & Hpd).
  destruct (tables_memory _ _ _ _ Hok) as [Hfirst _].
  assert (Hmem : forall page' slot', 0 <= slot' < 1024 ->
    memory_of s' (page' * PAGE_SIZE + slot' * 4)
    = if decide (page' = pd /\ slot' = slot) then page * PAGE_SIZE + PAGE_PRESENT
      else memory_of s (page' * PAGE_SIZE + slot' * 4)).
  { intros page' slot' Hs'. subst s'. rewrite memory_write.
    destruct (decide _) as [E|E]; rewrite word_eq in E by done.
    - by rewrite decide_True.
    - by rewrite decide_False. }
  assert (Hkeep : forall p o, own p = Some o -> (<[page := Some (Table sp slot)]> own) p = Some o).
  { intros p o Hp. rewrite fn_lookup_insert_ne; [done|congruence]. }
  assert (Hok' : tables_ok first last (<[page := Some (Table sp slot)]> own) s').
  { pose proof Hok as [Hp Hm Ho Hu Hd He Hs Hl]. constructor; try done.
    - by apply pages_ok_phys.
    - intros p o. destruct (decide (p = page)) as [->|Hne].
      + intros _. split; [lia|done].
      + rewrite fn_lookup_insert_ne by congruence. apply Ho.
    - intros p o. destruct (decide (p = page)) as [->|Hne].
      + rewrite fn_lookup_insert. intros [= <-]. by destruct sp.
      + rewrite fn_lookup_insert_ne by congruence. apply Hu.
    - intros sp' dir Hd'. destruct (Hd sp' dir Hd') as (p & -> & Hown). exists p.
      split; [done|]. by apply Hkeep.
    - intros sp' dir slot' Hd' Hs'. destruct (Hd sp' dir Hd') as (p & -> & Hown).
      rewrite Hmem by (by eapply slot_range). destruct (decide _) as [[-> ->]|Hne].
      + right. exists page. split; [done|]. rewrite fn_lookup_insert. congruence.
      + destruct (He sp' _ slot' Hd' Hs') as [Hz|(pt & -> & Hpt)]; [by left|].
        right. exists pt. split; [done|]. by apply Hkeep.
    - intros map' dir slot' Hd' Hs'. cbv zeta.
      destruct sp as [|map]; [simpl in Hd'; by rewrite Hsp, lookup_empty in Hd'|]. pose proof (slot_range _ _ Hs') as Hr.
      destruct (Hd (User map') dir Hd') as (p & -> & Hown). destruct (Hd Kernel _ eq_refl) as (kd & Hkd & Hk).
      change (page_dir (kernel_map s')) with (page_dir (kernel_map s)). rewrite Hkd, !Hmem by done.
      rewrite !decide_False by (simpl in Hslot, Hs'; lia). rewrite <- Hkd. by apply (Hs map'). }
  split; [done|]. intros sp' dir' va' Hdir' Hin'.
  destruct (index_range va' ltac:(apply Hin')) as [Hr1 Hr2].
  destruct (tables_dir _ _ _ _ Hok _ _ Hdir') as (pd' & -> & Hpd').
  destruct (decide (pd' = pd /\ pgdindex va' = slot)) as [[-> <-]|Hne].
  - unfold walk. rewrite Hmem, decide_True by done. rewrite Habsent. simpl.
    rewrite (proj2 (Z.eqb_neq _ _) (entry_present page)).
    destruct (ok_range _ _ _ (tables_pages _ _ _ _ Hok)) as (_ & _ & Hmax).
    rewrite entry_page by (unfold PAGE_SIZE in *; lia). rewrite Hmem by done.
    rewrite decide_False by (intros [-> _]; congruence). apply Hzero. by apply word_in_page.
  - apply (walk_same first last own s sp'); try done.
    intros p o slot' Hown Hs' Ho. rewrite Hmem by done. rewrite decide_False; [done|].
    intros [-> ->]. destruct Ho as [[-> ->]|[-> _]]; [|congruence]. apply Hne. split; [|done].
    rewrite Hpd in Hown. injection Hown as <-. rewrite Hdir in Hdir'. injection Hdir' as E.
    unfold PAGE_SIZE in E. lia.
Qed.

(** ** Mapping a page *)

Definition extends (own own' : Z -> option owner) : Prop :=
  forall page o, own page = Some o -> own' page = Some o.

(** The page structures are as they were, but for a page that became a table. *)
Definition pages_kept (own own' : Z -> option owner) (s s' : vm_state) : Prop :=
  own' = own /\ pages (frames s') = pages (frames s)
  \/ exists page v o, get_page s = Done (page, v) /\ pages (frames s') = pages (frames v)
      /\ own' = <[page := Some o]> own.

(** What [vm_map_page] does to the walks of every space, and to the rest of memory. *)
Record mapped first last own (sp : space) (va pa : Z) (s s' : vm_state) : Prop := {
  mapped_ok : exists own', tables_ok first last own' s' /\ extends own own' /\ others_kept own' s s'
    /\ pages_kept own own' s s';
  mapped_maps : maps s' = maps s /\ kernel_map s' = kernel_map s /\ asid_alloc s' = asid_alloc s;
  mapped_walk : forall sp' dir' va', directory_of sp' s = Some dir' -> in_space sp' va' ->
    walk dir' va' (memory_of s')
    = if decide (sp' = sp /\ va' / PAGE_SIZE = va / PAGE_SIZE) then pa
      else walk dir' va' (memory_of s)
}.

Lemma map_present first last own s sp dir va pa :
  tables_ok first last own s -> directory_of sp s = Some dir -> in_space sp va ->
  Z.land (memory_of s (dir + pgdindex va * 4)) PAGE_PRESENT <> 0 ->
  mapped first last own sp va pa s (set_table_entry dir va pa s).
Proof.
  intros Hok Hdir Hin Hp.
  destruct (set_table_entry_ok first last own s sp dir va pa Hok Hdir Hin Hp) as (H1 & H2 & H3).
  split; [|done|done]. exists own. split; [exact H1|]. split; [by intros ? ?|]. split; [exact H3|by left].
Qed.

Lemma map_absent first last own s map dir va pa page s1 :
  tables_ok first last own s -> directory_of (User map) s = Some dir -> in_space (User map) va ->
  Z.land (memory_of s (dir + pgdindex va * 4)) PAGE_PRESENT = 0 ->
  get_page s = Done (page, s1) ->
  mapped first last own (User map) va pa s
    (set_table_entry dir va pa
       (write_phys (dir + pgdindex va * 4) (Z.lor (page_to_pa page) PAGE_PRESENT) s1)).
Proof.
  intros Hok Hdir Hin Habs Hget.
  destruct (get_page_ok first last own s page s1 Hok Hget)
    as (Hok1 & Hnone & Hrange & Hpa & [f ->] & Hrefs & Hzero).
  destruct (tables_memory _ _ _ _ Hok) as [Hfirst _].
  rewrite Hpa, entry_value by lia.
  assert (Hkept : forall p o i, own p = Some o -> 0 <= i < 1024 ->
    memory_of (s <| frames := f |>) (p * PAGE_SIZE + i * 4) = memory_of s (p * PAGE_SIZE + i * 4)).
  { intros p o i Hown Hi. rewrite Hzero, decide_False; [done|]. rewrite word_in_page by done. congruence. }
  destruct (index_range va ltac:(apply Hin)) as [Hr1 _].
  destruct (tables_dir _ _ _ _ Hok _ dir Hdir) as (pd & Hpd & Hown).
  destruct (new_table_ok first last own (s <| frames := f |>) (User map) dir (pgdindex va) page) as [Hok2 Hwalk2];
    try done; [apply Hin| |lia|by rewrite Hrefs, decide_True by (done || lia)|simpl; lia| |].
  { rewrite Hpd, (Hkept pd _ _ Hown Hr1), <- Hpd. done. }
  { intros a Ha. by rewrite Hzero, decide_True. }
  set (own' := <[page := Some (Table (User map) (pgdindex va))]> own) in *.
  set (s2 := write_phys _ _ _) in *.
  assert (Hp2 : Z.land (memory_of s2 (dir + pgdindex va * 4)) PAGE_PRESENT <> 0).
  { subst s2. rewrite memory_write, decide_True by done. apply entry_present. }
  destruct (set_table_entry_ok first last own' s2 (User map) dir va pa Hok2 Hdir Hin Hp2)
    as (Hok3 & Hwalk3 & Hkept3).
  split; [exists own'; split; [done|split; [|split; [|by right; eexists page, _, _]]]|done|].
  - intros p o Hp. subst own'. rewrite fn_lookup_insert_ne; [done|congruence].
  - intros p a Ha Hp. rewrite (Hkept3 p a Ha Hp). subst s2 own'.
    assert (Hne : p <> page) by (intros ->; rewrite fn_lookup_insert in Hp; done).
    rewrite fn_lookup_insert_ne in Hp by congruence.
    rewrite memory_write, decide_False.
    + rewrite Hzero, decide_False; [done|]. unfold in_page, PAGE_SIZE in *. lia.
    + intros ->. rewrite Hpd in Ha. apply word_in_page in Ha; [congruence|done].
  - intros sp' dir' va' Hdir' Hin'. rewrite (Hwalk3 sp' dir' va' Hdir' Hin').
    destruct (decide _); [done|]. rewrite (Hwalk2 sp' dir' va' Hdir' Hin').
    apply (walk_same first last own s sp'); try done. intros p o i Hp Hi _. by apply (Hkept p o).
Qed.

(** The kernel's half is mapped through tables that exist. *)
Definition kernel_table_present (va : Z) (s : vm_state) : Prop :=
  KERNEL_BASE <= va ->
  Z.land (memory_of s (page_dir (kernel_map s) + pgdindex va * 4)) PAGE_PRESENT <> 0.

Lemma map_page_mapped first last own s map va pa s' :
  tables_ok first last own s -> 0 <= va < 2 ^ 32 -> kernel_table_present va s ->
  vm_map_page map va pa s = Done s' ->
  is_Some (directory_of (space_of map va) s) /\ mapped first last own (space_of map va) va pa s s'.
Proof.
  intros Hok Hva Hkernel Hmap. pose proof (space_of_slot map va Hva) as Hin.
  unfold kernel_table_present, vm_map_page, space_of, get_map in *. cbv zeta in *.
  destruct (KERNEL_BASE <=? va) eqn:E; bool_to_prop.
  - split; [by eexists|]. rewrite (proj2 (Z.eqb_neq _ _) (Hkernel E)) in Hmap. injection Hmap as <-.
    apply map_present; [done|done|done|by apply Hkernel].
  - destruct (maps s !! map) as [m|] eqn:Hm; [|done]. cbn [bind_result] in Hmap.
    assert (Hdir : directory_of (User map) s = Some (page_dir m)) by (simpl; by rewrite Hm).
    split; [by eexists|].
    apply bind_Done_inv in Hmap as (s1 & Htable & Hmap). injection Hmap as <-.
    destruct (_ =? 0) eqn:E0; bool_to_prop.
    + apply bind_Done_inv in Htable as ([page s2] & Hget & Hs1). injection Hs1 as <-.
      by apply (map_absent first last own s map (page_dir m) va pa page).
    + injection Htable as <-. by apply map_present.
Qed.

(** Mapping fails for want of a page only. *)
Lemma map_page_fails first last own s map va pa f :
  tables_ok first last own s -> kernel_table_present va s ->
  is_Some (directory_of (space_of map va) s) -> vm_map_page map va pa s = Fault f ->
  f = HostExit /\ forall page, first <= page < last -> 0 < refs page (frames s).
Proof.
  intros Hok Hkernel [dir Hdir] Hmap.
  unfold kernel_table_present, vm_map_page, space_of, get_map in *. cbv zeta in *.
  destruct (KERNEL_BASE <=? va) eqn:E; bool_to_prop.
  - by rewrite (proj2 (Z.eqb_neq _ _) (Hkernel E)) in Hmap.
  - simpl in Hdir. destruct (maps s !! map) as [m|]; [|done]. cbn [bind_result] in Hmap.
    destruct (_ =? 0); [|done]. destruct (get_page s) as [[page s1]|f'] eqn:Hget; [done|].
    injection Hmap as <-. by apply (get_page_fails first last own s).
Qed.

(** ** Creating and destroying maps *)

Lemma copy_kernel_entries_lookup to from memory a :
  copy_kernel_entries to from memory a
  = if decide (to + 768 * 4 <= a < to + 1024 * 4) then memory (from + (a - to)) else memory a.
Proof.
  unfold copy_kernel_entries.
  destruct (decide _); destruct ((to + 768 * 4 <=? a) && (a <? to + 1024 * 4)) eqn:E; try done;
    bool_to_prop; [apply andb_false_iff in E as [E|E]; bool_to_prop|]; lia.
Qed.

(** The bits allocated are the address space identifiers of the maps, each of one map. *)
Record asids_ok (s : vm_state) : Prop := {
  asids_words : Forall is_u32 (asid_alloc s) /\ MAX_ASIDS = 32 * Z.of_nat (length (asid_alloc s));
  asids_used : forall map m, maps s !! map = Some m -> asid m <> -1 ->
    0 <= asid m < MAX_ASIDS /\ bit_at (asid_alloc s) (asid m) = true;
  asids_live : forall id, 0 <= id < MAX_ASIDS -> bit_at (asid_alloc s) id = true ->
    exists map m, maps s !! map = Some m /\ asid m = id;
  asids_distinct : forall map map' m m', maps s !! map = Some m -> maps s !! map' = Some m' ->
    asid m = asid m' -> asid m <> -1 -> map = map'
}.

Definition with_map (object : Z) (m : translation_map) (bits : list Z) (s : vm_state) : vm_state :=
  s <| asid_alloc := bits |> <| maps ::= <[object := m]> |> <| map_list ::= fun l => l ++ [object] |>.

(** A directory of absent user entries and the kernel's entries becomes a map. *)
Lemma with_map_ok first last own s object page m bits :
  tables_ok first last own s -> maps s !! object = None -> own page = None ->
  first <= page < last -> refs page (frames s) = 1 -> page_dir m = page * PAGE_SIZE ->
  (forall slot, 0 <= slot < 768 -> memory_of s (page * PAGE_SIZE + slot * 4) = 0) ->
  (forall slot, 768 <= slot < 1024 -> memory_of s (page * PAGE_SIZE + slot * 4)
     = memory_of s (page_dir (kernel_map s) + slot * 4)) ->
  tables_ok first last (<[page := Some (Directory (User object))]> own) (with_map object m bits s).
Proof.
  intros Hok Hfresh Hnone Hrange H1 Hdir Hlow Hhigh.
  pose proof Hok as [Hp Hm Ho Hu Hd He Hs [Hnd Hl]].
  assert (Hkeep : forall p o, own p = Some o -> (<[page := Some (Directory (User object))]> own) p = Some o).
  { intros p o Hown. rewrite fn_lookup_insert_ne; [done|congruence]. }
  assert (Hcases : forall sp dir, directory_of sp (with_map object m bits s) = Some dir ->
    sp = User object /\ dir = page * PAGE_SIZE \/ sp <> User object /\ directory_of sp s = Some dir).
  { intros [|map] dir; simpl; [by intros; right|]. destruct (decide (map = object)) as [->|Hne].
    - rewrite lookup_insert_eq. intros [= <-]. by left.
    - rewrite lookup_insert_ne by congruence. intros. right. split; [congruence|done]. }
  constructor; try done.
  - intros p o. destruct (decide (p = page)) as [->|Hne].
    + intros _. split; [lia|done].
    + rewrite fn_lookup_insert_ne by congruence. apply Ho.
  - intros p o. destruct (decide (p = page)) as [->|Hne].
    + rewrite fn_lookup_insert. intros [= <-]. lia.
    + rewrite fn_lookup_insert_ne by congruence. apply Hu.
  - intros sp dir Hdir'. destruct (Hcases sp dir Hdir') as [[-> ->]|[_ Hold]].
    + exists page. split; [done|]. by rewrite fn_lookup_insert.
    + destruct (Hd sp dir Hold) as (pd & -> & Hown). exists pd. split; [done|]. by apply Hkeep.
  - intros sp dir slot Hdir' Hslot. change (memory_of (with_map object m bits s)) with (memory_of s).
    destruct (Hcases sp dir Hdir') as [[-> ->]|[_ Hold]].
    + left. by rewrite (Hlow slot Hslot).
    + destruct (He sp dir slot Hold Hslot) as [?|(pt & -> & Hpt)]; [by left|].
      right. exists pt. split; [done|]. by apply Hkeep.
  - intros map dir slot Hdir' Hslot. cbv zeta.
    change (memory_of (with_map object m bits s)) with (memory_of s).
    change (kernel_map (with_map object m bits s)) with (kernel_map s). intros Hpres.
    destruct (Hcases (User map) dir Hdir') as [[_ ->]|[_ Hold]]; [by apply Hhigh|by apply (Hs map)].
  - simpl. split.
    + apply NoDup_app. split; [done|]. split; [|apply NoDup_singleton].
      intros map Hin Hobj. apply list_elem_of_singleton in Hobj as ->. apply Hl in Hin.
      rewrite Hfresh in Hin. by destruct Hin.
    + intros map. rewrite elem_of_app, list_elem_of_singleton, Hl.
      destruct (decide (map = object)) as [->|Hne].
      * rewrite lookup_insert_eq. split; [by eexists|by right].
      * rewrite lookup_insert_ne by congruence. split; [intros [?|?]; [done|congruence]|by left].
Qed.

(** [create_translation_map] gives an address space that maps nothing below the kernel. *)
Lemma create_map_ok first last own s object s' :
  tables_ok first last own s -> maps s !! object = None ->
  create_translation_map object s = Done s' ->
  exists page id bits m,
    page_dir m = page * PAGE_SIZE /\ asid m = id
    /\ bitmap_alloc (asid_alloc s) MAX_ASIDS = Done (id, bits)
    /\ own page = None
    /\ tables_ok first last (<[page := Some (Directory (User object))]> own) s'
    /\ maps s' = <[object := m]> (maps s) /\ kernel_map s' = kernel_map s /\ asid_alloc s' = bits
    /\ (forall slot, 0 <= slot < 768 -> memory_of s' (page * PAGE_SIZE + slot * 4) = 0)
    /\ (forall slot, 768 <= slot < 1024 -> memory_of s' (page * PAGE_SIZE + slot * 4)
          = memory_of s (page_dir (kernel_map s) + slot * 4))
    /\ (forall a, ~ in_page page a -> memory_of s' a = memory_of s a).
Proof.
  intros Hok Hfresh Hcreate. unfold create_translation_map in Hcreate.
  apply bind_Done_inv in Hcreate as ([page s1] & Hget & Hcreate).
  destruct (get_page_ok first last own s page s1 Hok Hget)
    as (Hok1 & Hnone & Hrange & Hpa & [f ->] & Hrefs & Hzero). cbv zeta in Hcreate.
  apply bind_Done_inv in Hcreate as ([id bits] & Hbits & Hcreate).
  injection Hcreate as <-. rewrite Hpa in *.
  set (s1 := s <| frames := f |>) in *. set (kd := page_dir (kernel_map s1)) in *.
  set (s2 := s1 <| frames ::= _ |>) in *.
  assert (Hmem : forall a, memory_of s2 a
    = if decide (page * PAGE_SIZE + 768 * 4 <= a < page * PAGE_SIZE + 1024 * 4)
      then memory_of s1 (kd + (a - page * PAGE_SIZE)) else memory_of s1 a).
  { intros a. apply copy_kernel_entries_lookup. }
  destruct (tables_dir _ _ _ _ Hok1 Kernel _ eq_refl) as (kp & Hkp & Hkown).
  change (kd = kp * PAGE_SIZE) in Hkp.
  assert (Hkernel : forall slot, 0 <= slot < 1024 ->
    memory_of s1 (kd + slot * 4) = memory_of s (kd + slot * 4)).
  { intros slot Hslot. rewrite Hzero, decide_False; [done|]. rewrite Hkp, word_in_page by done.
    congruence. }
  assert (Hok2 : tables_ok first last own s2).
  { apply (tables_ok_memory first last own s1); [done|by eexists|].
    intros sp p slot Hown Hslot. rewrite Hmem, decide_False; [done|].
    intros Hin. assert (p = page) by (unfold PAGE_SIZE in *; lia). congruence. }
  assert (Hlow : forall slot, 0 <= slot < 768 -> memory_of s2 (page * PAGE_SIZE + slot * 4) = 0).
  { intros slot Hslot. rewrite Hmem, decide_False by lia. rewrite Hzero, decide_True; [done|].
    apply word_in_page; [lia|done]. }
  assert (Hhigh : forall slot, 768 <= slot < 1024 ->
    memory_of s2 (page * PAGE_SIZE + slot * 4) = memory_of s1 (kd + slot * 4)).
  { intros slot Hslot. rewrite Hmem, decide_True by lia. f_equal. lia. }
  exists page, id, bits, {| page_dir := page * PAGE_SIZE; asid := id |}.
  split_and!; try done.
  - apply (with_map_ok first last own s2); try done.
    + change (frames s2) with (f <| phys ::= copy_kernel_entries (page * PAGE_SIZE) kd |>).
      change (refs page f = 1). change f with (frames s1).
      destruct (tables_memory _ _ _ _ Hok) as [? _].
      rewrite Hrefs, decide_True by (done || lia). done.
    + intros slot Hslot. rewrite Hhigh by done. change (page_dir (kernel_map s2)) with kd.
      rewrite Hkp, Hmem, decide_False; [done|]. intros Hin.
      assert (kp = page) by (unfold PAGE_SIZE in *; lia). congruence.
  - intros slot Hslot. etransitivity; [by apply Hhigh|]. apply Hkernel. lia.
  - intros a Ha. etransitivity; [apply Hmem|]. rewrite decide_False.
    + by rewrite Hzero, decide_False.
    + unfold in_page, PAGE_SIZE in *. lia.
Qed.

Lemma dec_page_ref_size page s s' : dec_page_ref page s = Done s' -> memory_size s' = memory_size s.
Proof.
  unfold dec_page_ref. intros H. apply bind_Done_inv in H as (count & _ & H).
  destruct (negb (0 <? count)); [done|]. destruct (count =? 1); by injection H as <-.
Qed.

(** A change of the counts of pages that are not tables. *)
Lemma tables_ok_frames first last own s f :
  tables_ok first last own s -> pages_ok first last f -> memory_size f = memory_size (frames s) ->
  phys f = phys (frames s) ->
  (forall p o, own p = Some o -> first <= p -> refs p f = refs p (frames s)) ->
  tables_ok first last own (s <| frames := f |>).
Proof.
  intros [Hp [H0 Hm] Ho Hu Hd He Hs Hl] Hp' Hsize Hphys Hrefs.
  assert (Hmem : memory_of (s <| frames := f |>) = memory_of s) by exact Hphys.
  constructor; try done.
  - split; [done|]. simpl. by rewrite Hsize.
  - intros p o Hown. destruct (Ho p o Hown) as [Hr Hone]. split; [done|]. intros Hf. simpl.
    rewrite (Hrefs p o Hown Hf). by apply Hone.
  - rewrite Hmem. exact He.
  - rewrite Hmem. exact Hs.
Qed.

Lemma dec_tables_ok first last own s page :
  tables_ok first last own s -> own page = None -> first <= page < last -> 0 < refs page (frames s) ->
  exists f, dec_page_ref page (frames s) = Done f
    /\ tables_ok first last own (s <| frames := f |>)
    /\ phys f = phys (frames s)
    /\ forall p, 0 <= p -> refs p f = if decide (p = page) then refs page (frames s) - 1 else refs p (frames s).
Proof.
  intros Hok Hnone Hrange Hpos. pose proof (tables_memory _ _ _ _ Hok) as [H0 _].
  destruct (dec_ok first last (frames s) page (tables_pages _ _ _ _ Hok) Hrange Hpos) as (f & Hdec & Hp' & Hphys & Hrefs).
  exists f. split; [done|]. split; [|done].
  apply tables_ok_frames; try done; [by apply (dec_page_ref_size page)|].
  intros p o Hown Hf. rewrite Hrefs, decide_False by (lia || congruence). done.
Qed.

(** Giving back a page nobody owns any more. *)
Lemma release_ok first last own s page :
  tables_ok first last own s -> own page = None -> first <= page < last -> refs page (frames s) = 1 ->
  exists f, release_page (page * PAGE_SIZE) s = Done (s <| frames := f |>)
    /\ tables_ok first last own (s <| frames := f |>)
    /\ phys f = phys (frames s)
    /\ forall p, 0 <= p -> refs p f = if decide (p = page) then 0 else refs p (frames s).
Proof.
  intros Hok Hnone Hrange H1.
  destruct (dec_tables_ok first last own s page Hok Hnone Hrange ltac:(lia)) as (f & Hdec & Hok' & Hphys & Hrefs).
  rewrite H1 in Hrefs. exists f. split; [|done].
  destruct (tables_memory _ _ _ _ Hok) as [H0 Hm]. unfold release_page, pa_to_page.
  rewrite (proj2 (Z.ltb_lt _ _)) by (unfold PAGE_SIZE in *; lia).
  rewrite Z.div_mul by done. cbn [bind_result]. by rewrite Hdec.
Qed.

(** The tables of a map that is gone: pages of nobody with one reference, each in one entry. *)
Record orphans (first last : Z) (own : Z -> option owner) (i count dir : Z) (s : vm_state) : Prop := {
  orphan_page : forall slot, i <= slot < i + count ->
    let entry := memory_of s (dir + slot * 4) in
    Z.land entry PAGE_PRESENT <> 0 ->
    exists page, entry = page * PAGE_SIZE + PAGE_PRESENT /\ own page = None
      /\ first <= page < last /\ refs page (frames s) = 1;
  orphan_once : forall slot slot', i <= slot < i + count -> i <= slot' < i + count ->
    Z.land (memory_of s (dir + slot * 4)) PAGE_PRESENT <> 0 ->
    memory_of s (dir + slot * 4) = memory_of s (dir + slot' * 4) -> slot = slot'
}.

Definition table_page (page i count dir : Z) (s : vm_state) : Prop :=
  exists slot, i <= slot < i + count
    /\ memory_of s (dir + slot * 4) = page * PAGE_SIZE + PAGE_PRESENT.

#[export]
Instance table_page_dec page i count dir s : Decision (table_page page i count dir s).
Proof.
  refine (cast_if (decide (Exists (fun slot =>
    memory_of s (dir + slot * 4) = page * PAGE_SIZE + PAGE_PRESENT) (seqZ i count)))).
  - abstract (apply Exists_exists in e as (slot & Hslot & Heq); apply elem_of_seqZ in Hslot;
      by exists slot).
  - abstract (intros (slot & Hslot & Heq); apply n, Exists_exists; exists slot;
      split; [by apply elem_of_seqZ|done]).
Defined.

Lemma free_user_tables_ok first last own count i dir s :
  tables_ok first last own s -> orphans first last own i (Z.of_nat count) dir s ->
  exists f, free_user_tables count i dir s = Done (s <| frames := f |>)
    /\ tables_ok first last own (s <| frames := f |>)
    /\ phys f = phys (frames s)
    /\ (forall p, 0 <= p -> table_page p i (Z.of_nat count) dir s -> refs p f = 0)
    /\ (forall p, 0 <= p -> ~ table_page p i (Z.of_nat count) dir s -> refs p f = refs p (frames s)).
Proof.
  revert i s. induction count as [|count IH]; intros i s Hok [Hpage Honce].
  - exists (frames s). split; [by destruct s|]. split; [by destruct s|]. split; [done|].
    split; [|done]. intros p _ (slot & Hslot & _). lia.
  - cbn [free_user_tables]. cbv zeta.
    destruct (Z.land (memory_of s (dir + i * 4)) PAGE_PRESENT =? 0) eqn:E; bool_to_prop.
    + cbn [bind_result].
      destruct (IH (i + 1) s Hok) as (f & Hrun & Hok' & Hphys & Hfree & Hsame).
      { split; intros slot; [|intros slot']; intros; [apply Hpage|apply Honce]; lia || done. }
      exists f. split_and!; try done.
      * intros p Hp (slot & Hslot & Heq). apply (Hfree p Hp). exists slot. split; [|done].
        destruct (Z.eq_dec slot i) as [->|]; [|lia]. rewrite Heq in E. by apply entry_present in E.
      * intros p Hp Hnot. apply (Hsame p Hp). intros (slot & Hslot & Heq). apply Hnot.
        exists slot. split; [lia|done].
    + destruct (Hpage i ltac:(lia) E) as (page & Hentry & Hnone & Hrange & H1).
      destruct (ok_range _ _ _ (tables_pages _ _ _ _ Hok)) as (H0 & _ & Hmax).
      rewrite Hentry, entry_page by (unfold PAGE_SIZE in *; lia).
      destruct (release_ok first last own s page Hok Hnone Hrange H1)
        as (f1 & -> & Hok1 & Hphys1 & Hrefs1). cbn [bind_result].
      assert (Hmem : memory_of (s <| frames := f1 |>) = memory_of s) by exact Hphys1.
      destruct (IH (i + 1) (s <| frames := f1 |>) Hok1) as (f & Hrun & Hok' & Hphys & Hfree & Hsame).
      { split; rewrite Hmem.
        - intros slot Hslot entry Hpres.
          destruct (Hpage slot ltac:(lia) Hpres) as (p & Hp & Hn & Hr & Hone).
          exists p. split; [done|]. split; [done|]. split; [done|]. simpl.
          rewrite Hrefs1, decide_False by (lia || (intros ->;
            pose proof (Honce i slot ltac:(lia) ltac:(lia) E ltac:(congruence)); lia)). done.
        - intros slot slot' Hslot Hslot'. apply Honce; lia. }
      exists f. split; [exact Hrun|]. split; [exact Hok'|]. split; [by rewrite Hphys|]. split.
      * intros p Hp (slot & Hslot & Heq). destruct (Z.eq_dec slot i) as [->|].
        -- assert (p = page) as -> by (unfold PAGE_SIZE in *; lia).
           rewrite (Hsame page Hp); [simpl; by rewrite Hrefs1, decide_True|].
           unfold table_page. rewrite Hmem. intros (slot & Hslot' & Heq').
           pose proof (Honce i slot ltac:(lia) ltac:(lia) E ltac:(congruence)). lia.
        -- apply (Hfree p Hp). exists slot. rewrite Hmem. split; [lia|done].
      * intros p Hp Hnot. rewrite (Hsame p Hp).
        -- simpl. rewrite Hrefs1, decide_False; [done| |done]. intros ->. apply Hnot.
           exists i. split; [lia|done].
        -- unfold table_page. rewrite Hmem. intros (slot & Hslot & Heq). apply Hnot.
           exists slot. split; [lia|done].
Qed.

(** The loop of [destroy_translation_map] looks at physical memory and pages only. *)
Lemma free_user_tables_frames count i dir s t f :
  frames t = frames s -> free_user_tables count i dir s = Done (s <| frames := f |>) ->
  free_user_tables count i dir t = Done (t <| frames := f |>).
Proof.
  revert i s t. induction count as [|count IH]; intros i s t Hf Hrun.
  - cbn [free_user_tables] in *. injection Hrun as Hrun.
    assert (f = frames t) as -> by (rewrite Hf; by rewrite Hrun). by destruct t.
  - cbn [free_user_tables] in *. cbv zeta in *.
    change (memory_of t) with (phys (frames t)). rewrite Hf. change (phys (frames s)) with (memory_of s).
    destruct (_ =? 0); [cbn [bind_result] in *; by apply (IH _ s)|].
    apply bind_Done_inv in Hrun as (s1 & Hrel & Hrun). unfold release_page in *. rewrite Hf.
    destruct (pa_to_page _ (frames s)) as [page|]; [|done]. cbn [bind_result] in *.
    destruct (dec_page_ref page (frames s)) as [f1|]; [|done]. cbn [bind_result] in *.
    injection Hrel as <-.
    exact (IH (i + 1) (s <| frames := f1 |>) (t <| frames := f1 |>) eq_refl Hrun).
Qed.

Definition disown (map : Z) (own : Z -> option owner) (page : Z) : option owner :=
  match own page with
  | Some (Directory (User map')) | Some (Table (User map') _) =>
      if decide (map' = map) then None else own page
  | o => o
  end.

Definition without_map (map : Z) (bits : list Z) (s : vm_state) : vm_state :=
  s <| map_list ::= List.filter (fun other => negb (other =? map)) |> <| asid_alloc := bits |>
    <| maps ::= delete map |>.

Lemma disown_Some map own page o : disown map own page = Some o -> own page = Some o.
Proof.
  unfold disown. destruct (own page) as [[[|map']|[|map'] slot]|]; try done; by destruct (decide _).
Qed.

Lemma disown_keeps map own page sp slot :
  sp <> User map -> (own page = Some (Directory sp) -> disown map own page = Some (Directory sp))
  /\ (own page = Some (Table sp slot) -> disown map own page = Some (Table sp slot)).
Proof.
  intros Hne. unfold disown. split; intros ->; (destruct sp; [done|]); rewrite decide_False; congruence.
Qed.

Lemma without_map_ok first last own map bits s :
  tables_ok first last own s -> tables_ok first last (disown map own) (without_map map bits s).
Proof.
  intros [Hp Hm Ho Hu Hd He Hs [Hnd Hl]].
  assert (Hdir : forall sp dir, directory_of sp (without_map map bits s) = Some dir ->
    sp <> User map /\ directory_of sp s = Some dir).
  { intros [|map'] dir; [done|]. simpl. destruct (decide (map' = map)) as [->|Hne].
    - by rewrite lookup_delete_eq.
    - rewrite lookup_delete_ne by congruence. split; [congruence|done]. }
  constructor; try done.
  - intros p o Hown. apply (Ho p o). by apply disown_Some in Hown.
  - intros p o Hown. apply (Hu p o). by apply disown_Some in Hown.
  - intros sp dir Hdir'. destruct (Hdir sp dir Hdir') as [Hne Hold].
    destruct (Hd sp dir Hold) as (pd & -> & Hown). exists pd. split; [done|].
    by apply (disown_keeps map own pd sp 0 Hne).
  - intros sp dir slot Hdir' Hslot. destruct (Hdir sp dir Hdir') as [Hne Hold].
    destruct (He sp dir slot Hold Hslot) as [Hz|(pt & Heq & Hpt)]; [by left|].
    right. exists pt. split; [done|]. by apply (disown_keeps map own pt sp slot Hne).
  - intros map' dir slot Hdir' Hslot. destruct (Hdir (User map') dir Hdir') as [_ Hold].
    by apply (Hs map').
  - simpl. split.
    + apply NoDup_ListNoDup, List.NoDup_filter. by apply NoDup_ListNoDup.
    + intros map'. rewrite list_elem_of_In, filter_In, <- list_elem_of_In, Hl, negb_true_iff, Z.eqb_neq.
      destruct (decide (map' = map)) as [->|Hne].
      * rewrite lookup_delete_eq. split; [tauto|by intros []].
      * rewrite lookup_delete_ne by congruence. tauto.
Qed.

(** The tables of a map, once nobody owns them. *)
Lemma without_map_orphans first last own map m bits s :
  tables_ok first last own s -> maps s !! map = Some m ->
  orphans first last (disown map own) 0 768 (page_dir m) (without_map map bits s).
Proof.
  intros Hok Hmap. assert (Hdir : directory_of (User map) s = Some (page_dir m)) by (simpl; by rewrite Hmap).
  assert (Htable : forall slot, 0 <= slot < 768 ->
    Z.land (memory_of s (page_dir m + slot * 4)) PAGE_PRESENT <> 0 ->
    exists page, memory_of s (page_dir m + slot * 4) = page * PAGE_SIZE + PAGE_PRESENT
      /\ own page = Some (Table (User map) slot)).
  { intros slot Hslot Hpres. by destruct (tables_entry _ _ _ _ Hok _ _ slot Hdir Hslot). }
  split.
  - intros slot Hslot entry Hpres. destruct (Htable slot ltac:(lia) Hpres) as (page & Heq & Hown).
    exists page. split; [done|]. unfold disown. rewrite Hown, decide_True by done. split; [done|].
    pose proof (tables_user _ _ _ _ Hok _ _ Hown). destruct (tables_owned _ _ _ _ Hok _ _ Hown) as [? H1].
    simpl in *. split; [lia|by apply H1].
  - intros slot slot' Hslot Hslot' Hpres Heq. change (memory_of (without_map map bits s)) with (memory_of s) in *.
    destruct (Htable slot ltac:(lia) Hpres) as (page & Heq1 & Hown).
    destruct (Htable slot' ltac:(lia) ltac:(congruence)) as (page' & Heq2 & Hown').
    assert (page' = page) as -> by (unfold PAGE_SIZE in *; lia). congruence.
Qed.

(** The bits after [destroy_translation_map]. *)
Definition freed_bits (m : translation_map) (s : vm_state) : result (list Z) :=
  if 0 <=? asid m then bitmap_free (asid_alloc s) (asid m) else Done (asid_alloc s).

(** [destroy_translation_map] gives back the directory and every table, and nothing else. *)
Lemma destroy_map_ok first last own s map m bits :
  tables_ok first last own s -> maps s !! map = Some m -> freed_bits m s = Done bits ->
  exists f,
    let s' := without_map map bits s <| frames := f |> in
    destroy_translation_map map s = Done s'
    /\ tables_ok first last (disown map own) s'
    /\ phys f = phys (frames s)
    /\ (forall p, 0 <= p -> p * PAGE_SIZE = page_dir m \/ table_page p 0 768 (page_dir m) s -> refs p f = 0)
    /\ (forall p, 0 <= p -> p * PAGE_SIZE <> page_dir m -> ~ table_page p 0 768 (page_dir m) s ->
          refs p f = refs p (frames s)).
Proof.
  intros Hok Hmap Hbits. pose proof (without_map_ok first last own map bits s Hok) as Hok0.
  pose proof (without_map_orphans first last own map m bits s Hok Hmap) as Horphans.
  assert (Hdir : directory_of (User map) s = Some (page_dir m)) by (simpl; by rewrite Hmap).
  destruct (tables_dir _ _ _ _ Hok _ _ Hdir) as (pd & Hpd & Hown).
  pose proof (tables_user _ _ _ _ Hok _ _ Hown) as Hfirst. simpl in Hfirst.
  destruct (tables_owned _ _ _ _ Hok _ _ Hown) as [Hrange H1]. specialize (H1 Hfirst).
  set (t := without_map map bits s) in *.
  destruct (free_user_tables_ok first last _ 768 0 (page_dir m) t Hok0 Horphans)
    as (f1 & Hrun & Hok1 & Hphys1 & Hfree1 & Hsame1).
  change (Z.of_nat 768) with 768 in Hfree1, Hsame1.
  assert (Hnot : ~ table_page pd 0 768 (page_dir m) t).
  { intros (slot & Hslot & Heq). destruct (tables_entry _ _ _ _ Hok _ _ slot Hdir Hslot) as [Hz|(pt & Hpt & Hpo)].
    - change (memory_of t) with (memory_of s) in Heq. rewrite Heq in Hz. by apply entry_present in Hz.
    - change (memory_of t) with (memory_of s) in Heq.
      assert (pt = pd) as -> by (unfold PAGE_SIZE in *; lia). congruence. }
  assert (Hnone : disown map own pd = None) by (unfold disown; rewrite Hown; by rewrite decide_True).
  destruct (release_ok first last _ (t <| frames := f1 |>) pd Hok1 Hnone ltac:(lia)) as (f2 & Hrel & Hok2 & Hphys2 & Hrefs2).
  { simpl. rewrite (Hsame1 pd ltac:(lia) Hnot). exact H1. }
  change (frames (t <| frames := f1 |>)) with f1 in *.
  exists f2. cbv zeta. split.
  - unfold destroy_translation_map, get_map. rewrite Hmap. cbn [bind_result]. cbv zeta.
    unfold freed_bits in Hbits. set (s1 := s <| map_list ::= _ |>).
    change (asid_alloc s1) with (asid_alloc s). rewrite Hbits. cbn [bind_result].
    set (s2 := s1 <| asid_alloc := bits |>).
    assert (Hloop : free_user_tables 768 0 (page_dir m) s2 = Done (s2 <| frames := f1 |>))
      by exact (free_user_tables_frames 768 0 (page_dir m) t s2 f1 eq_refl Hrun).
    rewrite Hloop. cbn [bind_result]. rewrite Hpd. unfold release_page in *.
    change (frames (s2 <| frames := f1 |>)) with f1.
    change (frames (t <| frames := f1 |>)) with f1 in Hrel.
    destruct (pa_to_page _ f1) as [p|]; [|done]. cbn [bind_result] in *.
    destruct (dec_page_ref p f1) as [f2'|]; [|done]. cbn [bind_result] in *.
    injection Hrel as Hrel. by subst f2'.
  - split; [exact Hok2|]. split; [by rewrite Hphys2, Hphys1|]. split.
    + intros p Hp [Hpp|Htable]; rewrite (Hrefs2 p Hp).
      * rewrite decide_True; [done|]. unfold PAGE_SIZE in *. lia.
      * destruct (decide _); [done|]. by apply Hfree1.
    + intros p Hp Hne Htable. rewrite (Hrefs2 p Hp), decide_False by (intros ->; congruence).
      by apply Hsame1.
Qed.

(** ** Address space identifiers *)

Lemma asids_create s s' object m bits :
  asids_ok s -> maps s !! object = None ->
  bitmap_alloc (asid_alloc s) MAX_ASIDS = Done (asid m, bits) ->
  maps s' = <[object := m]> (maps s) -> asid_alloc s' = bits ->
  asids_ok s' /\ (forall map m', maps s !! map = Some m' -> asid m' = asid m -> asid m = -1)
  /\ (asid m = -1 -> forall id, 0 <= id < MAX_ASIDS -> exists map m', maps s !! map = Some m' /\ asid m' = id).
Proof.
  intros [[Hw Hlen] Hused Hlive Hdist] Hfresh Halloc Hmaps Hbits.
  destruct (bitmap_alloc_spec (asid_alloc s) MAX_ASIDS Hw eq_refl Hlen) as (i & bits' & E & [Hw' Hlen'] & Hi).
  rewrite Halloc in E. injection E as <- <-.
  assert (Hdiff : forall map m', maps s !! map = Some m' -> asid m' = asid m -> asid m = -1).
  { intros map m' Hm' Heq. destruct (decide (asid m = -1)) as [|Hne]; [done|].
    destruct (Hused map m' Hm' ltac:(congruence)) as [_ Hset]. destruct Hi as (_ & Hclear & _). congruence. }
  split; [|split; [done|]].
  - constructor; rewrite ?Hbits, ?Hmaps.
    + by rewrite Hlen'.
    + intros map m' Hm' Hne. apply lookup_insert_Some in Hm' as [[<- <-]|[Hneq Hm']].
      * rewrite decide_False in Hi by done. destruct Hi as (Hr & _ & _ & Hset).
        split; [done|]. rewrite Hset by done. by rewrite bool_decide_true.
      * destruct (Hused map m' Hm' Hne) as [Hr Hset]. split; [done|].
        destruct (decide (asid m = -1)); [by destruct Hi as [-> _]|]. destruct Hi as (_ & _ & _ & Hall).
        rewrite Hall by done. by rewrite Hset, orb_true_r.
    + intros id Hid Hset. destruct (decide (asid m = -1)).
      * destruct Hi as [-> _]. destruct (Hlive id Hid Hset) as (map & m' & Hm' & <-).
        exists map, m'. split; [|done]. apply lookup_insert_Some. right. split; congruence.
      * destruct Hi as (_ & _ & _ & Hall). rewrite Hall in Hset by done. apply orb_true_iff in Hset as [Hset|Hset].
        -- apply bool_decide_eq_true_1 in Hset as ->. exists object, m. by rewrite lookup_insert_eq.
        -- destruct (Hlive id Hid Hset) as (map & m' & Hm' & <-).
           exists map, m'. split; [|done]. apply lookup_insert_Some. right. split; congruence.
    + intros map map' m1 m2 H1 H2 Heq Hne.
      apply lookup_insert_Some in H1 as [[<- <-]|[? H1]]; apply lookup_insert_Some in H2 as [[<- <-]|[? H2]];
        [done|exfalso; apply Hne, (Hdiff map' m2); congruence
        |exfalso; apply Hne; rewrite Heq; apply (Hdiff map m1); congruence
        |by apply (Hdist map map' m1 m2)].
  - intros Hnone id Hid. rewrite Hnone, decide_True in Hi by done. destruct Hi as [_ Hall].
    apply Hlive; [done|]. by apply Hall.
Qed.

Lemma asids_destroy s s' map m :
  asids_ok s -> maps s !! map = Some m ->
  exists bits, freed_bits m s = Done bits /\
    (maps s' = delete map (maps s) -> asid_alloc s' = bits -> asids_ok s').
Proof.
  intros [[Hw Hlen] Hused Hlive Hdist] Hmap.
  assert (Hothers : forall map' m', delete map (maps s) !! map' = Some m' ->
    map' <> map /\ maps s !! map' = Some m')
    by (intros map' m' [? ?]%lookup_delete_Some; by split).
  unfold freed_bits. destruct (decide (asid m = -1)) as [Hnone|Hsome].
  - rewrite Hnone. eexists. split; [reflexivity|]. intros Hmaps Hbits.
    constructor; rewrite ?Hbits, ?Hmaps; [done| | |].
    + intros map' m' [_ Hm']%Hothers. by apply Hused with map'.
    + intros id Hid Hset. destruct (Hlive id Hid Hset) as (map' & m' & Hm' & <-).
      exists map', m'. split; [|done]. apply lookup_delete_Some. split; [|done].
      intros ->. assert (m' = m) as -> by congruence. unfold MAX_ASIDS in Hid. lia.
    + intros map1 map2 m1 m2 [_ H1]%Hothers [_ H2]%Hothers. by apply Hdist.
  - destruct (Hused map m Hmap Hsome) as [Hr Hset]. rewrite (proj2 (Z.leb_le _ _)) by lia.
    destruct (bitmap_free_spec (asid_alloc s) MAX_ASIDS (asid m) Hw Hlen Hr) as (bits & -> & [Hw' Hlen'] & Hbit).
    exists bits. split; [done|]. intros Hmaps Hbits. constructor; rewrite ?Hbits, ?Hmaps.
    + by rewrite Hlen'.
    + intros map' m' [Hne Hm']%Hothers Hid. destruct (Hused map' m' Hm' Hid) as [Hr' Hset'].
      split; [done|]. rewrite Hbit by done. rewrite Hset', bool_decide_false; [done|].
      intros Heq. apply Hne. by apply (Hdist map' map m' m).
    + intros id Hid Hidset. rewrite Hbit in Hidset by done. apply andb_true_iff in Hidset as [Hne Hidset].
      apply negb_true_iff, bool_decide_eq_false_1 in Hne.
      destruct (Hlive id Hid Hidset) as (map' & m' & Hm' & <-). exists map', m'. split; [|done].
      apply lookup_delete_Some. split; [|done]. intros ->. congruence.
    + intros map1 map2 m1 m2 [_ H1]%Hothers [_ H2]%Hothers. by apply Hdist.
Qed.

(** ** Address spaces *)

(** The kernel's mappings by page, and each map's, after [va] is mapped to [pa]. *)
Definition enter (va pa : Z) (map : Z) (kernel : Z -> Z) (users : gmap Z (Z -> Z)) : (Z -> Z) * gmap Z (Z -> Z) :=
  if KERNEL_BASE <=? va then (<[va / PAGE_SIZE := pa]> kernel, users)
  else (kernel, alter (fun space : Z -> Z => <[va / PAGE_SIZE := pa]> space) map users).

(** What the kernel does with its maps, and what it should amount to. *)
Inductive history (first last : Z) : (Z -> Z) -> gmap Z (Z -> Z) -> vm_state -> Prop :=
| history_start own kernel s :
    tables_ok first last own s -> asids_ok s -> maps s = ∅ ->
    (forall va, KERNEL_BASE <= va < 2 ^ 32 ->
       walk (page_dir (kernel_map s)) va (memory_of s) = kernel (va / PAGE_SIZE)) ->
    history first last kernel ∅ s
| history_create kernel users s object s' :
    history first last kernel users s -> users !! object = None ->
    create_translation_map object s = Done s' ->
    history first last kernel (<[object := fun _ => 0]> users) s'
| history_map kernel users s map va pa s' :
    history first last kernel users s -> 0 <= va < 2 ^ 32 -> kernel_table_present va s ->
    vm_map_page map va pa s = Done s' ->
    history first last (enter va pa map kernel users).1 (enter va pa map kernel users).2 s'
| history_destroy kernel users s map s' :
    history first last kernel users s -> destroy_translation_map map s = Done s' ->
    history first last kernel (delete map users) s'.

Record history_inv first last (kernel : Z -> Z) (users : gmap Z (Z -> Z)) (s : vm_state) : Prop := {
  inv_tables : exists own, tables_ok first last own s;
  inv_asids : asids_ok s;
  inv_kernel : forall va, in_space Kernel va ->
    walk (page_dir (kernel_map s)) va (memory_of s) = kernel (va / PAGE_SIZE);
  inv_dom : forall map, is_Some (maps s !! map) <-> is_Some (users !! map);
  inv_user : forall map m space va, maps s !! map = Some m -> users !! map = Some space ->
    in_space (User map) va -> walk (page_dir m) va (memory_of s) = space (va / PAGE_SIZE)
}.

Lemma in_kernel va : KERNEL_BASE <= va < 2 ^ 32 <-> in_space Kernel va.
Proof.
  unfold in_space, slot_of, pgdindex, KERNEL_BASE, PAGE_SIZE.
  split; intros; Z.div_mod_to_equations; lia.
Qed.

Lemma in_user map va : 0 <= va < KERNEL_BASE <-> in_space (User map) va.
Proof.
  unfold in_space, slot_of, pgdindex, KERNEL_BASE, PAGE_SIZE.
  split; intros; Z.div_mod_to_equations; lia.
Qed.

Lemma history_create_inv first last kernel users s object s' :
  history_inv first last kernel users s -> users !! object = None ->
  create_translation_map object s = Done s' ->
  history_inv first last kernel (<[object := fun _ => 0]> users) s'.
Proof.
  intros [[own Hok] Hasids Hk Hdom Huser] Hfresh Hcreate.
  assert (Hnone : maps s !! object = None).
  { apply eq_None_not_Some. rewrite Hdom, Hfresh. by intros []. }
  destruct (create_map_ok first last own s object s' Hok Hnone Hcreate)
    as (page & id & bits & m & Hdir & <- & Hbits & Hpage & Hok' & Hmaps & Hkernel & Hbits' & Hlow & Hhigh & Hmem).
  destruct (asids_create s s' object m bits Hasids Hnone Hbits Hmaps Hbits') as [Hasids' _].
  assert (Hwalk : forall sp dir va, directory_of sp s = Some dir -> in_space sp va ->
    walk dir va (memory_of s') = walk dir va (memory_of s)).
  { intros sp dir va Hd Hin. apply (walk_same first last own s sp); try done.
    intros p o slot Hown Hslot _. apply Hmem. rewrite word_in_page by done. congruence. }
  constructor.
  - by eexists.
  - done.
  - intros va Hin. rewrite Hkernel, (Hwalk Kernel) by done. by apply Hk.
  - intros map. rewrite Hmaps. destruct (decide (map = object)) as [->|Hne].
    + rewrite !lookup_insert_eq. split; by eexists.
    + by rewrite !lookup_insert_ne by congruence.
  - intros map m' space va Hm' Hspace Hin. rewrite Hmaps in Hm'.
    destruct (decide (map = object)) as [->|Hne].
    + rewrite lookup_insert_eq in Hm'. rewrite lookup_insert_eq in Hspace. injection Hm' as <-. injection Hspace as <-.
      unfold walk. rewrite Hdir, Hlow by apply Hin. done.
    + rewrite lookup_insert_ne in Hm' by congruence. rewrite lookup_insert_ne in Hspace by congruence.
      rewrite (Hwalk (User map) (page_dir m') va) by (done || (simpl; by rewrite Hm')). by apply (Huser map).
Qed.

Lemma history_map_inv first last kernel users s map va pa s' :
  history_inv first last kernel users s -> 0 <= va < 2 ^ 32 -> kernel_table_present va s ->
  vm_map_page map va pa s = Done s' ->
  history_inv first last (enter va pa map kernel users).1 (enter va pa map kernel users).2 s'.
Proof.
  intros [[own Hok] Hasids Hk Hdom Huser] Hva Hpres Hmap.
  destruct (map_page_mapped first last own s map va pa s' Hok Hva Hpres Hmap)
    as [Hdir [(own' & Hok' & _) (Hmaps & Hkernel & Hbits) Hwalk]].
  assert (Hasids' : asids_ok s').
  { destruct Hasids as [H1 H2 H3 H4]. constructor; by rewrite ?Hbits, ?Hmaps. }
  unfold enter, space_of in *. destruct (KERNEL_BASE <=? va) eqn:E; bool_to_prop; simpl.
  - constructor; [by eexists|done| |by rewrite Hmaps|].
    + intros va' Hin. rewrite Hkernel, (Hwalk Kernel _ va' eq_refl Hin), Hk by done.
      destruct (decide (va' / PAGE_SIZE = va / PAGE_SIZE)) as [->|Hne].
      * rewrite fn_lookup_insert, decide_True by done. done.
      * rewrite fn_lookup_insert_ne, decide_False by (tauto || congruence). done.
    + intros map' m space va' Hm Hspace Hin. rewrite Hmaps in Hm.
      assert (Hd : directory_of (User map') s = Some (page_dir m)) by (simpl; by rewrite Hm).
      rewrite (Hwalk _ _ va' Hd Hin), decide_False by (intros [? _]; done). by apply (Huser map').
  - constructor; [by eexists|done| | |].
    + intros va' Hin. rewrite Hkernel, (Hwalk Kernel _ va' eq_refl Hin).
      rewrite decide_False by (intros [? _]; done). by apply Hk.
    + intros map'. rewrite Hmaps, Hdom. destruct (decide (map' = map)) as [->|Hne].
      * rewrite lookup_alter_eq. by rewrite fmap_is_Some.
      * by rewrite lookup_alter_ne by congruence.
    + intros map' m space va' Hm Hspace Hin. rewrite Hmaps in Hm.
      assert (Hd : directory_of (User map') s = Some (page_dir m)) by (simpl; by rewrite Hm).
      rewrite (Hwalk _ _ va' Hd Hin). destruct (decide (map' = map)) as [->|Hne].
      * rewrite lookup_alter_eq in Hspace. apply fmap_Some in Hspace as (space0 & Hspace & ->).
        destruct (decide (va' / PAGE_SIZE = va / PAGE_SIZE)) as [->|Hpage].
        -- rewrite fn_lookup_insert, decide_True by done. done.
        -- rewrite fn_lookup_insert_ne, decide_False by (tauto || congruence). by apply (Huser map).
      * rewrite lookup_alter_ne in Hspace by congruence.
        rewrite decide_False by (intros [? _]; congruence). by apply (Huser map').
Qed.

Lemma destroy_done first last own s map s' :
  tables_ok first last own s -> asids_ok s -> destroy_translation_map map s = Done s' ->
  exists m bits f, maps s !! map = Some m /\ freed_bits m s = Done bits
    /\ s' = without_map map bits s <| frames := f |> /\ phys f = phys (frames s).
Proof.
  intros Hok Hasids Hdestroy. destruct (maps s !! map) as [m|] eqn:Hm.
  - destruct (asids_destroy s s' map m Hasids Hm) as (bits & Hbits & _).
    destruct (destroy_map_ok first last own s map m bits Hok Hm Hbits) as (f & Hrun & _ & Hphys & _).
    exists m, bits, f. split; [done|]. split; [done|]. split; [|done]. congruence.
  - unfold destroy_translation_map, get_map in Hdestroy. by rewrite Hm in Hdestroy.
Qed.

Lemma history_destroy_inv first last kernel users s map s' :
  history_inv first last kernel users s -> destroy_translation_map map s = Done s' ->
  history_inv first last kernel (delete map users) s'.
Proof.
  intros [[own Hok] Hasids Hk Hdom Huser] Hdestroy.
  destruct (destroy_done first last own s map s' Hok Hasids Hdestroy) as (m & bits & f & Hm & Hbits & -> & Hphys).
  destruct (destroy_map_ok first last own s map m bits Hok Hm Hbits) as (f' & Hrun & Hok' & _).
  cbv zeta in Hrun, Hok'. rewrite Hdestroy in Hrun. injection Hrun as Heq.
  destruct (asids_destroy s (without_map map bits s <| frames := f |>) map m Hasids Hm)
    as (bits' & Hbits' & Hasids').
  assert (bits' = bits) as -> by congruence.
  assert (Hmem : memory_of (without_map map bits s <| frames := f |>) = memory_of s) by exact Hphys.
  constructor; rewrite ?Hmem; [| | exact Hk | |].
  - exists (disown map own). by rewrite Heq.
  - by apply Hasids'.
  - intros map'. simpl. destruct (decide (map' = map)) as [->|Hne].
    + rewrite !lookup_delete_eq. split; by intros [].
    + by rewrite !lookup_delete_ne by congruence.
  - intros map' m' space va Hm' Hspace Hin. simpl in Hm'.
    apply lookup_delete_Some in Hm' as [_ Hm']. apply lookup_delete_Some in Hspace as [_ Hspace].
    by apply (Huser map').
Qed.

Lemma history_invariant first last kernel users s :
  history first last kernel users s -> history_inv first last kernel users s.
Proof.
  induction 1 as [own kernel s Hok Hasids Hmaps Hk|kernel users s object s' _ IH Hfresh Hcreate
    |kernel users s map va pa s' _ IH Hva Hpres Hmap|kernel users s map s' _ IH Hdestroy].
  - constructor; [by eexists|done| | |].
    + intros va Hin. apply Hk. by apply in_kernel.
    + intros map. by rewrite Hmaps, !lookup_empty.
    + intros map m space va Hm. by rewrite Hmaps, lookup_empty in Hm.
  - by apply (history_create_inv first last kernel users s object).
  - by apply (history_map_inv first last kernel users s).
  - by apply (history_destroy_inv first last kernel users s map).
Qed.

(** ** Kernel mappings without a table *)

Lemma set_entry_in_maps_spec first last own s others slot new_pgt pgdir d s' :
  tables_ok first last own s -> 0 <= slot < 1024 ->
  set_entry_in_maps others slot new_pgt pgdir s = Done (d, s') ->
  kernel_map s' = kernel_map s
  /\ (forall i, 0 <= i < 1024 -> memory_of s' (page_dir (kernel_map s) + i * 4)
        = memory_of s (page_dir (kernel_map s) + i * 4))
  /\ match others with
     | [] => d = pgdir /\ s' = s
     | _ => memory_of s' (d + slot * 4) = new_pgt
     end.
Proof.
  intros Hok Hslot.
  destruct (tables_dir _ _ _ _ Hok Kernel _ eq_refl) as (kd & Hkd & Hkown). rewrite Hkd.
  enough (H : forall others t pgdir, maps t = maps s -> kernel_map t = kernel_map s ->
    set_entry_in_maps others slot new_pgt pgdir t = Done (d, s') ->
    kernel_map s' = kernel_map s
    /\ (forall i, 0 <= i < 1024 -> memory_of s' (kd * PAGE_SIZE + i * 4) = memory_of t (kd * PAGE_SIZE + i * 4))
    /\ match others with
       | [] => d = pgdir /\ s' = t
       | _ => memory_of s' (d + slot * 4) = new_pgt
       end) by (by apply H).
  clear others pgdir. intros others. induction others as [|map others IH]; intros t pgdir Hmaps Hk Hrun.
  - cbn [set_entry_in_maps] in Hrun. by injection Hrun as <- <-.
  - cbn [set_entry_in_maps] in Hrun. apply bind_Done_inv in Hrun as (m & Hm & Hrun).
    unfold get_map in Hm. rewrite Hmaps in Hm. destruct (maps s !! map) as [m'|] eqn:Hmap; [|done].
    injection Hm as ->.
    assert (Hdir : directory_of (User map) s = Some (page_dir m)) by (simpl; by rewrite Hmap).
    destruct (tables_dir _ _ _ _ Hok _ _ Hdir) as (pd & Hpd & Hown).
    destruct (IH (write_phys (page_dir m + slot * 4) new_pgt t) (page_dir m) Hmaps Hk Hrun)
      as (H1 & H2 & H3).
    split; [done|]. split.
    + intros i Hi. rewrite H2, memory_write, decide_False; [done| |done].
      rewrite Hpd, word_eq by done. intros [-> _]. congruence.
    + destruct others; [|done]. destruct H3 as [-> ->]. by rewrite memory_write, decide_True.
Qed.

(** ** An example: sixteen pages, of which the boot code used two *)

Definition boot_state : vm_state := {|
  frames := vm_page_init 0x10000 2
    {| pages := replicate 16 boot_page; free_page_list := []; memory_size := 0; phys := fun _ => 0 |};
  kernel_map := {| page_dir := 0x1000; asid := 0 |};
  map_list := []; maps := ∅; asid_alloc := [0; 0]; invalidated := []; registers := (0, 0)
|}.

Definition boot_own (page : Z) : option owner := if decide (page = 1) then Some (Directory Kernel) else None.

Lemma boot_memory a : memory_of boot_state a = 0.
Proof. done. Qed.

Lemma boot_tables_ok : tables_ok 2 15 boot_own boot_state.
Proof.
  destruct (vm_page_init_ok 0x10000 2
    {| pages := replicate 16 boot_page; free_page_list := []; memory_size := 0; phys := fun _ => 0 |}
    16 eq_refl eq_refl ltac:(lia) ltac:(lia)) as [Hok _].
  constructor.
  - exact Hok.
  - done.
  - intros page o. unfold boot_own. destruct (decide _) as [->|]; [|done]. intros _. split; lia.
  - intros page o. unfold boot_own. destruct (decide _); [|done]. by intros [= <-].
  - intros [|map] dir; simpl; [|by rewrite lookup_empty]. intros [= <-]. by exists 1.
  - intros sp dir slot _ _. left. by rewrite boot_memory.
  - intros map dir slot _ _. cbv zeta. by rewrite boot_memory.
  - split; [apply NoDup_nil_2|]. intros map. simpl. rewrite lookup_empty. split; [by intros ?%elem_of_nil|by intros []].
Qed.

Lemma boot_asids_ok : asids_ok boot_state.
Proof.
  constructor; try (intros; done).
  - split; [vm_decide|done].
  - intros id Hid. enough (bit_at [0; 0] id = false) by (simpl in *; congruence).
    unfold bit_at, MAX_ASIDS in *. assert (id / 32 = 0 \/ id / 32 = 1) as [-> | ->]
      by (Z.div_mod_to_equations; lia); apply Z.bits_0.
Qed.

(** The result of a computation that ends. *)
Definition result_or {A} (d : A) (r : result A) : A := match r with Done a => a | Fault _ => d end.

Definition ends {A} (r : result A) : bool := match r with Done _ => true | Fault _ => false end.

Lemma ends_result {A} (d : A) (r : result A) : ends r = true -> r = Done (result_or d r).
Proof. by destruct r. Qed.

Definition state_created : vm_state := result_or boot_state (create_translation_map 0x100 boot_state).
Definition state_mapped : vm_state := result_or boot_state (vm_map_page 0x100 0x5000 0x7003 state_created).

Lemma created_eq : create_translation_map 0x100 boot_state = Done state_created.
Proof. apply ends_result. vm_compute. reflexivity. Qed.

Lemma mapped_eq : vm_map_page 0x100 0x5000 0x7003 state_created = Done state_mapped.
Proof. apply ends_result. vm_compute. reflexivity. Qed.

(** ** Properties *)

(** C14: translation maps are address spaces.  After any sequence of creating, mapping in,
    and destroying maps (kernel addresses being mapped through tables that exist), a query
    answers what a table per map and one for the kernel would: the entry last mapped for that
    page of that map, 0 for a page of the map never mapped, the kernel's entry, whatever the
    map, for a kernel address.  The page directory switched to gives the hardware those same
    entries; no two maps share an address space identifier; every map that exists can be
    destroyed, and mapping fails only when no page is free. *)
Theorem address_spaces_refine first last kernel users s :
  history first last kernel users s ->
  (forall map va, 0 <= va < 2 ^ 32 ->
     query_translation_map map va s
     = if KERNEL_BASE <=? va then Done (kernel (va / PAGE_SIZE))
       else match users !! map with
            | Some space => Done (space (va / PAGE_SIZE))
            | None => Fault OutOfBounds
            end) /\
  (forall map va s', 0 <= va < 2 ^ 32 -> kernel_table_present va s ->
     switch_to_translation_map map s = Done s' ->
     query_translation_map map va s = Done (walk (registers s').1 va (memory_of s'))) /\
  (forall map map' m m', maps s !! map = Some m -> maps s !! map' = Some m' ->
     asid m = asid m' -> asid m <> -1 -> map = map') /\
  (forall map, is_Some (users !! map) -> exists s', destroy_translation_map map s = Done s') /\
  (forall map va pa f, 0 <= va < 2 ^ 32 -> kernel_table_present va s ->
     (va < KERNEL_BASE -> is_Some (users !! map)) -> vm_map_page map va pa s = Fault f ->
     f = HostExit /\ forall page, first <= page < last -> 0 < refs page (frames s)).
Proof.
  intros Hh. destruct (history_invariant _ _ _ _ _ Hh) as [[own Hok] Hasids Hk Hdom Huser].
  split; [|split; [|split; [by apply asids_distinct|split]]].
  - intros map va Hva. unfold query_translation_map, get_map.
    destruct (KERNEL_BASE <=? va) eqn:E; bool_to_prop; [by rewrite Hk by (apply in_kernel; lia)|].
    specialize (Hdom map). destruct (maps s !! map) as [m|] eqn:Hm, (users !! map) as [space|] eqn:Hu;
      try rewrite Hm in Hdom; try rewrite Hu in Hdom.
    + simpl. rewrite (Huser map m space va Hm Hu); [done|apply in_user; lia].
    + exfalso. destruct (proj1 Hdom) as [? [=]]. by eexists.
    + exfalso. destruct (proj2 Hdom) as [? [=]]. by eexists.
    + done.
  - intros map va s' Hva Hpres Hswitch. unfold switch_to_translation_map, query_translation_map, get_map in *.
    destruct (maps s !! map) as [m|] eqn:Hm; [|done]. injection Hswitch as <-. cbn [bind_result].
    destruct (KERNEL_BASE <=? va) eqn:E; bool_to_prop; [|done].
    assert (Hd : directory_of (User map) s = Some (page_dir m)) by (simpl; by rewrite Hm).
    f_equal. unfold walk. simpl. change (memory_of (s <| registers := _ |>)) with (memory_of s).
    rewrite (tables_shared _ _ _ _ Hok map _ (pgdindex va) Hd); [done| |by apply Hpres].
    exact (proj2 (proj1 (in_kernel va) (conj E (proj2 Hva)))).
  - intros map Hu. apply Hdom in Hu as [m Hm].
    destruct (asids_destroy s s map m Hasids Hm) as (bits & Hbits & _).
    destruct (destroy_map_ok first last own s map m bits Hok Hm Hbits) as (f & Hrun & _). by eexists.
  - intros map va pa f Hva Hpres Hu. apply (map_page_fails first last own); [done|done|].
    unfold space_of. destruct (KERNEL_BASE <=? va) eqn:E; bool_to_prop; [by eexists|].
    apply fmap_is_Some, Hdom, Hu. lia.
Qed.

Lemma address_spaces_refine_witness :
  exists kernel users, history 2 15 kernel users state_mapped
    /\ query_translation_map 0x100 0x5004 state_mapped = Done 0x7003
    /\ query_translation_map 0x100 0x6000 state_mapped = Done 0.
Proof.
  assert (H0 : history 2 15 (fun _ => 0) ∅ boot_state).
  { apply (history_start 2 15 boot_own); [exact boot_tables_ok|exact boot_asids_ok|reflexivity|].
    intros va _. unfold walk. rewrite boot_memory. reflexivity. }
  pose proof (history_create 2 15 _ _ _ 0x100 _ H0 (lookup_empty _) created_eq) as H1.
  assert (Hk : kernel_table_present 0x5000 state_created) by (intros H; vm_compute in H; congruence).
  assert (Hva : 0 <= 0x5000 < 2 ^ 32) by lia.
  pose proof (history_map 2 15 _ _ _ 0x100 0x5000 0x7003 _ H1 Hva Hk mapped_eq) as H2.
  eexists _, _. split; [exact H2|].
  destruct (address_spaces_refine 2 15 _ _ _ H2) as [Hq _].
  split; (etransitivity; [apply Hq; lia|]); vm_compute; reflexivity.
Defined.

(** C26: destroying a map gives back exactly its memory.  Afterwards the free pages are those
    that were free, the map's page directory and the pages of its tables; memory is as it was,
    the other maps keep their tables and the address space identifier can be given out again. *)
Theorem destroy_gives_back first last own s map m :
  tables_ok first last own s -> asids_ok s -> maps s !! map = Some m ->
  exists s', destroy_translation_map map s = Done s'
    /\ (exists own', tables_ok first last own' s' /\ forall page o, own' page = Some o -> own page = Some o)
    /\ asids_ok s' /\ maps s' = delete map (maps s) /\ memory_of s' = memory_of s
    /\ forall page, first <= page < last ->
         (page ∈ free_page_list (frames s') <->
          page ∈ free_page_list (frames s) \/ page * PAGE_SIZE = page_dir m
          \/ table_page page 0 768 (page_dir m) s).
Proof.
  intros Hok Hasids Hm.
  destruct (asids_destroy s (s <| maps ::= delete map |>) map m Hasids Hm) as (bits & Hbits & _).
  destruct (destroy_map_ok first last own s map m bits Hok Hm Hbits) as (f & Hrun & Hok' & Hphys & Hfree & Hsame).
  cbv zeta in *. set (s' := without_map map bits s <| frames := f |>) in *.
  destruct (asids_destroy s s' map m Hasids Hm) as (bits' & Hbits' & Hasids').
  assert (bits' = bits) as -> by congruence.
  exists s'. split; [done|]. split.
  { exists (disown map own). split; [done|]. intros page o. apply disown_Some. }
  split; [by apply Hasids'|]. split; [done|]. split; [exact Hphys|]. intros page Hpage.
  pose proof (tables_pages _ _ _ _ Hok) as Hp. pose proof (tables_pages _ _ _ _ Hok') as Hp'.
  destruct (ok_range _ _ _ Hp) as (H0 & _ & _).
  assert (Hiff : forall f, pages_ok first last f -> page ∈ free_page_list f <-> refs page f = 0).
  { intros g Hg. split; [intros Hin; by apply (ok_free _ _ _ Hg)|]. by apply (ok_used _ _ _ Hg). }
  rewrite (Hiff _ Hp), (Hiff _ Hp'). change (frames s') with f. split.
  - intros Hz. destruct (decide (page * PAGE_SIZE = page_dir m)) as [|Hne]; [tauto|].
    destruct (decide (refs page (frames s) = 0)) as [|Hnz]; [tauto|]. right. right.
    apply dec_stable. intros Hnot. apply Hnz. rewrite <- Hsame; done || lia.
  - intros [Hz|Hgone]; [|by apply Hfree; [lia|]].
    destruct (decide (page * PAGE_SIZE = page_dir m)) as [|Hne]; [by apply Hfree; [lia|left]|].
    rewrite Hsame; [done|lia|done|]. intros (slot & Hslot & Heq).
    assert (Hd : directory_of (User map) s = Some (page_dir m)) by (simpl; by rewrite Hm).
    destruct (tables_entry _ _ _ _ Hok _ _ slot Hd Hslot) as [Habs|(pt & Hpt & Hown)].
    + rewrite Heq in Habs. by apply entry_present in Habs.
    + assert (pt = page) as -> by (unfold PAGE_SIZE in *; lia).
      destruct (tables_owned _ _ _ _ Hok _ _ Hown) as [_ H1]. specialize (H1 (proj1 Hpage)). lia.
Qed.

Lemma destroy_gives_back_witness :
  exists s', destroy_translation_map 0x100 state_mapped = Done s'
    /\ 2 ∈ free_page_list (frames s') /\ 3 ∈ free_page_list (frames s').
Proof.
  assert (Hinv : history_inv 2 15 (fun _ => 0) (<[0x100 := fun _ : Z => 0]> ∅) state_created).
  { apply (history_create_inv 2 15 (fun _ => 0) ∅ boot_state 0x100); [|reflexivity|exact created_eq].
    apply (history_invariant 2 15), (history_start 2 15 boot_own);
      [exact boot_tables_ok|exact boot_asids_ok|reflexivity|].
    intros va _. unfold walk. rewrite boot_memory. reflexivity. }
  assert (Hk : kernel_table_present 0x5000 state_created) by (intros H; vm_compute in H; congruence).
  assert (Hva : 0 <= 0x5000 < 2 ^ 32) by lia.
  destruct (history_map_inv 2 15 _ _ _ 0x100 0x5000 0x7003 _ Hinv Hva Hk mapped_eq)
    as [[own Hok] Hasids _ _ _].
  destruct (destroy_gives_back 2 15 own state_mapped 0x100 {| page_dir := 0x2000; asid := 0 |} Hok Hasids)
    as (s' & Hrun & _ & _ & _ & _ & Hfree); [vm_compute; reflexivity|].
  exists s'. split; [exact Hrun|]. split; apply Hfree; [lia| |lia|].
  - right. left. reflexivity.
  - right. right. exists 0. split; [lia|]. vm_compute. reflexivity.
Defined.

(** A kernel mapping that needs a new page table is lost.  The table is entered in the
    directories of the maps but not in the kernel's own, which is in no list: a query, which
    looks there, still answers 0, and with no map yet the entry is written over physical page
    0 instead. *)
Theorem kernel_mapping_lost first last own s map va pa s' :
  tables_ok first last own s -> KERNEL_BASE <= va < 2 ^ 32 ->
  memory_of s (page_dir (kernel_map s) + pgdindex va * 4) = 0 ->
  vm_map_page map va pa s = Done s' ->
  query_translation_map map va s' = Done 0
  /\ (map_list s = [] -> memory_of s' (pgtindex va * 4) = pa).
Proof.
  intros Hok Hva Habsent Hrun. destruct (index_range va ltac:(unfold KERNEL_BASE in *; lia)) as [Hr1 Hr2].
  unfold vm_map_page in Hrun. rewrite (proj2 (Z.leb_le _ _)) in Hrun by lia. cbv zeta in Hrun.
  rewrite Habsent in Hrun. cbn [Z.land Z.eqb] in Hrun.
  apply bind_Done_inv in Hrun as ([d s2] & Htable & Hrun). injection Hrun as <-.
  apply bind_Done_inv in Htable as ([page s1] & Hget & Hset).
  destruct (get_page_ok first last own s page s1 Hok Hget)
    as (Hok1 & Hnone & Hrange & Hpa & [f ->] & Hrefs & Hzero).
  destruct (tables_memory _ _ _ _ Hok) as [Hfirst _].
  rewrite Hpa, entry_value in Hset by lia.
  destruct (set_entry_in_maps_spec first last own _ _ _ _ _ d s2 Hok1 Hr1 Hset) as (Hkernel & Hsame & Hlast).
  change (kernel_map (s <| frames := f |>)) with (kernel_map s) in *.
  change (map_list (s <| frames := f |>)) with (map_list s) in *.
  destruct (tables_dir _ _ _ _ Hok Kernel _ eq_refl) as (kd & Hkd & Hkown). simpl in Hkd.
  destruct (tables_owned _ _ _ _ Hok _ _ Hkown) as [Hkrange _].
  assert (Hkeep : memory_of s2 (page_dir (kernel_map s) + pgdindex va * 4) = 0).
  { rewrite Hsame by done. rewrite Hzero, decide_False; [done|]. rewrite Hkd, word_in_page by done. congruence. }
  assert (Htbl : exists p, PAGE_ALIGN (memory_of s2 (d + pgdindex va * 4)) = p * PAGE_SIZE /\ p <> kd
    /\ (map_list s = [] -> p = 0)).
  { destruct (map_list s) as [|x l].
    - destruct Hlast as [-> _]. exists 0. rewrite Hkeep. split; [done|]. split; [lia|done].
    - exists page. rewrite Hlast. destruct (ok_range _ _ _ (tables_pages _ _ _ _ Hok)) as (_ & _ & Hmax).
      split; [apply entry_page; unfold PAGE_SIZE in *; lia|]. split; [congruence|done]. }
  destruct Htbl as (p & Halign & Hne & Hempty). unfold set_table_entry. cbv zeta. rewrite Halign. split.
  - unfold query_translation_map. rewrite (proj2 (Z.leb_le _ _)) by lia. f_equal. unfold walk.
    set (t := write_phys _ _ _ <| invalidated ::= _ |>).
    change (kernel_map t) with (kernel_map s2). rewrite Hkernel.
    change (memory_of t) with (memory_of (write_phys (p * PAGE_SIZE + pgtindex va * 4) pa s2)).
    rewrite memory_write, decide_False; [by rewrite Hkeep|]. rewrite Hkd, word_eq by done. intros [-> _]. done.
  - intros Hl. rewrite (Hempty Hl). change (0 * PAGE_SIZE) with 0.
    change (memory_of (write_phys (0 + pgtindex va * 4) pa s2) (pgtindex va * 4) = pa).
    by rewrite memory_write, decide_True.
Qed.

Lemma kernel_mapping_lost_witness :
  exists s', vm_map_page 0 0xc0400000 0x7003 boot_state = Done s'
    /\ query_translation_map 0 0xc0400000 s' = Done 0 /\ memory_of s' 0 = 0x7003.
Proof.
  exists (result_or boot_state (vm_map_page 0 0xc0400000 0x7003 boot_state)).
  assert (Hrun : vm_map_page 0 0xc0400000 0x7003 boot_state
    = Done (result_or boot_state (vm_map_page 0 0xc0400000 0x7003 boot_state)))
    by (apply ends_result; vm_compute; reflexivity).
  assert (Hva : KERNEL_BASE <= 0xc0400000 < 2 ^ 32) by (unfold KERNEL_BASE; lia).
  destruct (kernel_mapping_lost 2 15 boot_own boot_state 0 0xc0400000 0x7003 _ boot_tables_ok Hva
    (boot_memory _) Hrun) as [Hq Hz].
  split; [exact Hrun|]. split; [exact Hq|exact (Hz eq_refl)].
Defined.
