(* ===== verification/BootMap.v ===== *)
(** * BootMap: the page tables the boot code builds (software/kernel/vm_translation_map.c)

    [boot_setup_page_tables] runs before the MMU is on, so addresses are physical.  The
    structure the boot functions share and physical memory are one state; the end of the kernel
    image and the addresses of the two words of start.S it writes, which the linker gives, are
    arguments.  The stack of the boot code, at 4 MB, is not part of the memory here.  The last theorem puts boot, [vm_page_init] and
    [vm_translation_map_init] together, as start.S and [kernel_main] call them. *)

From S2P Require Export TranslationMap.
From stdpp Require Import list gmap functions.
Import stdpp.list_relations.list.

#[local] Open Scope Z_scope.

(** ** Constants *)

(** Two list nodes of two pointers and five words. *)
Definition sizeof_vm_page : Z := 36.
Definition PAGE_STRUCTURES_SIZE (memory_size : Z) : Z := sizeof_vm_page * (memory_size / PAGE_SIZE).

(** ** Operations *)

Record boot_page_setup := { next_alloc_page : Z; pgdir : Z; memory : Z -> Z }.

#[export]
Instance boot_page_setup_fields : Fields boot_page_setup := fun b =>
  Build_boot_page_setup (next_alloc_page b) (pgdir b) (memory b).

Definition boot_vm_allocate_pages (num_pages : Z) (b : boot_page_setup) : Z * boot_page_setup :=
  let pa := next_alloc_page b in
  (pa, b <| next_alloc_page ::= fun n => u32 (n + PAGE_SIZE * num_pages) |>
         <| memory ::= fun old a =>
              if (pa <=? a) && (a <? pa + PAGE_SIZE * num_pages) then 0 else old a |>).

(** [while (length > 0 && pgtindex < 1024)]; the loop ends within 1024 turns. *)
Fixpoint fill_table (fuel : nat) (pgtbl pgtindex pa length flags : Z) (low : Z -> Z)
  : Z * Z * (Z -> Z) :=
  match fuel with
  | O => (pa, length, low)
  | S fuel' =>
      if (0 <? length) && (pgtindex <? 1024) then
        fill_table fuel' pgtbl (pgtindex + 1) (u32 (pa + PAGE_SIZE)) (u32 (length - PAGE_SIZE)) flags
          (<[pgtbl + pgtindex * 4 := Z.lor pa flags]> low)
      else (pa, length, low)
  end.

(** The table for an entry: the one there is, or a new one. *)
Definition with_table (slot : Z) (b : boot_page_setup) : boot_page_setup :=
  if memory b (pgdir b + slot * 4) =? 0 then
    let '(page, b) := boot_vm_allocate_pages 1 b in
    b <| memory ::= <[pgdir b + slot * 4 := Z.lor page PAGE_PRESENT]> |>
  else b.

(** [while (length > 0)] *)
Fixpoint map_tables (fuel : nat) (pgdindex pgtindex pa length flags : Z) (b : boot_page_setup)
  : result boot_page_setup :=
  if 0 <? length then
    match fuel with
    | O => Fault OutOfFuel
    | S fuel' =>
        let b := with_table pgdindex b in
        let pgtbl := PAGE_ALIGN (memory b (pgdir b + pgdindex * 4)) in
        let '(pa, length, filled) :=
          fill_table 1024 pgtbl pgtindex pa length flags (memory b) in
        map_tables fuel' (pgdindex + 1) 0 pa length flags (b <| memory := filled |>)
    end
  else Done b.

Definition boot_vm_map_pages (va pa length flags : Z) (b : boot_page_setup) : result boot_page_setup :=
  map_tables 1024 (pgdindex va) (pgtindex va) pa length flags b.

Definition kernel_flags : Z := Z.lor PAGE_PRESENT (Z.lor PAGE_WRITABLE (Z.lor PAGE_SUPERVISOR PAGE_GLOBAL)).

(** A linker address, before the MMU is on. *)
Definition BOOT_VA_TO_PA (x : Z) : Z := Z.land x 0xffffff.

(** [page_dir_addr] and [boot_pages_used] are the addresses of the two words for start.S; the
    result is memory. *)
Definition boot_setup_page_tables (page_dir_addr boot_pages_used KERNEL_END memory_size : Z) (low : Z -> Z)
  : result (Z -> Z) :=
  let kernel_size := KERNEL_END - KERNEL_BASE in
  let '(dir, b) := boot_vm_allocate_pages 1
    {| next_alloc_page := kernel_size; pgdir := 0; memory := low |} in
  let b := b <| pgdir := dir |> in
  b <-- boot_vm_map_pages KERNEL_BASE 0 kernel_size (Z.lor kernel_flags PAGE_EXECUTABLE) b;;
  b <-- boot_vm_map_pages PHYS_MEM_ALIAS 0 memory_size kernel_flags b;;
  let '(stacks, b) := boot_vm_allocate_pages 0x10 b in
  b <-- boot_vm_map_pages INITIAL_KERNEL_STACKS stacks (KERNEL_STACK_SIZE * 4) kernel_flags b;;
  b <-- boot_vm_map_pages DEVICE_REG_BASE DEVICE_REG_BASE 0x10000 kernel_flags b;;
  let '(structures, b) :=
    boot_vm_allocate_pages (PAGE_STRUCTURES_SIZE memory_size / PAGE_SIZE) b in
  b <-- boot_vm_map_pages KERNEL_HEAP_BASE structures (PAGE_STRUCTURES_SIZE memory_size) kernel_flags b;;
  let b := b <| memory ::= <[BOOT_VA_TO_PA page_dir_addr := pgdir b]> |> in
  Done (<[BOOT_VA_TO_PA boot_pages_used := next_alloc_page b / PAGE_SIZE]> (memory b)).

(** ** The tables while they are built *)

(** The boot code's state as a state of the kernel in which the allocator has no page. *)
Definition as_vm (limit : Z) (b : boot_page_setup) : vm_state := {|
  frames := {| pages := replicate (Z.to_nat limit) boot_page; free_page_list := [];
               memory_size := limit * PAGE_SIZE; phys := memory b |};
  kernel_map := {| page_dir := pgdir b; asid := 0 |};
  map_list := []; maps := ∅; asid_alloc := []; invalidated := []; registers := (0, 0)
|}.

(** Pages [base] to [next] are taken, the page tables among them. *)
Record boot_ok (limit base next : Z) (own : Z -> option owner) (b : boot_page_setup) : Prop := {
  boot_tables : tables_ok limit limit own (as_vm limit b);
  boot_next : next_alloc_page b = next * PAGE_SIZE;
  boot_range : 0 < base <= next /\ next <= limit;
  boot_owned : forall page o, own page = Some o -> base <= page < next;
  boot_absent : forall slot, slot_of Kernel slot ->
    Z.land (memory b (pgdir b + slot * 4)) PAGE_PRESENT = 0 -> memory b (pgdir b + slot * 4) = 0
}.

Definition kernel_walk (va : Z) (b : boot_page_setup) : Z := walk (pgdir b) va (memory b).

Definition low_kept (base : Z) (b b' : boot_page_setup) : Prop :=
  forall a, a < base * PAGE_SIZE -> memory b' a = memory b a.

(** The directory's own page. *)
Lemma boot_directory limit base next own b :
  boot_ok limit base next own b ->
  exists page, pgdir b = page * PAGE_SIZE /\ own page = Some (Directory Kernel).
Proof. intros [Ht _ _ _ _]. by apply (tables_dir _ _ _ _ Ht Kernel). Qed.

(** A change of memory outside the pages owned. *)
Lemma boot_ok_memory limit base next next' own b b' :
  boot_ok limit base next own b -> pgdir b' = pgdir b -> next_alloc_page b' = next' * PAGE_SIZE ->
  next <= next' <= limit ->
  (forall page o slot, own page = Some o -> 0 <= slot < 1024 ->
     memory b' (page * PAGE_SIZE + slot * 4) = memory b (page * PAGE_SIZE + slot * 4)) ->
  boot_ok limit base next' own b'
  /\ forall va, in_space Kernel va -> kernel_walk va b' = kernel_walk va b.
Proof.
  intros Hb Hdir Hnext Hle Hsame. pose proof Hb as [Ht Hn Hr Ho Ha].
  destruct (boot_directory _ _ _ _ _ Hb) as (pd & Hpd & Hown). split.
  - constructor.
    + replace (as_vm limit b') with (as_vm limit b <| frames ::= fun f => f <| phys ::= fun _ => memory b' |> |>)
        by (unfold as_vm; simpl; by rewrite Hdir).
      apply (tables_ok_memory limit limit own (as_vm limit b)); [done|by eexists|].
      intros sp page slot Hp Hs. by apply (Hsame page (Directory sp)).
    + done.
    + lia.
    + intros page o Hp. specialize (Ho page o Hp). lia.
    + intros slot Hslot. rewrite Hdir, Hpd, (Hsame pd _ slot Hown) by (by apply (slot_range Kernel)).
      rewrite <- Hpd. by apply Ha.
  - intros va Hva. unfold kernel_walk. rewrite Hdir.
    apply (walk_same limit limit own (as_vm limit b) Kernel); try done.
    intros page o slot Hp Hs _. by apply (Hsame page o).
Qed.

(** [boot_vm_allocate_pages] *)
Lemma boot_allocate_ok limit base next own b n :
  boot_ok limit base next own b -> limit * PAGE_SIZE < 2 ^ 32 -> 0 <= n -> next + n <= limit ->
  exists b', boot_vm_allocate_pages n b = (next * PAGE_SIZE, b')
    /\ boot_ok limit base (next + n) own b' /\ pgdir b' = pgdir b /\ low_kept base b b'
    /\ (forall va, in_space Kernel va -> kernel_walk va b' = kernel_walk va b)
    /\ (forall a, memory b' a
          = if decide (next * PAGE_SIZE <= a < (next + n) * PAGE_SIZE) then 0 else memory b a).
Proof.
  intros Hb Hlimit Hn Hle. pose proof Hb as [Ht Hnext Hr Ho Ha].
  unfold boot_vm_allocate_pages. rewrite Hnext. eexists. split; [reflexivity|].
  set (b' := b <| next_alloc_page ::= _ |> <| memory ::= _ |>).
  assert (Hmem : forall a, memory b' a
    = if decide (next * PAGE_SIZE <= a < (next + n) * PAGE_SIZE) then 0 else memory b a).
  { intros a. subst b'. simpl.
    destruct (decide _); destruct ((_ <=? a) && _) eqn:E; try done; bool_to_prop;
      [apply andb_false_iff in E as [E|E]; bool_to_prop|]; unfold PAGE_SIZE in *; lia. }
  destruct (boot_ok_memory limit base next (next + n) own b b' Hb) as [Hok Hwalk]; [done| |lia| |].
  - subst b'. simpl. rewrite Hnext. unfold PAGE_SIZE in *. rewrite u32_id by (split; lia). lia.
  - intros page o slot Hp Hs. specialize (Ho page o Hp). rewrite Hmem, decide_False; [done|].
    unfold PAGE_SIZE. lia.
  - split; [done|]. split; [done|]. split; [|done].
    intros a Hlow. rewrite Hmem, decide_False; [done|]. unfold PAGE_SIZE in *. lia.
Qed.

Lemma with_table_ok limit base next own b slot :
  boot_ok limit base next own b -> limit * PAGE_SIZE < 2 ^ 32 -> next + 1 <= limit ->
  slot_of Kernel slot ->
  let b' := with_table slot b in
  exists own' next', boot_ok limit base next' own' b' /\ next <= next' <= next + 1
    /\ pgdir b' = pgdir b /\ low_kept base b b'
    /\ (forall va, in_space Kernel va -> kernel_walk va b' = kernel_walk va b)
    /\ Z.land (memory b' (pgdir b + slot * 4)) PAGE_PRESENT <> 0.
Proof.
  intros Hb Hlimit Hle Hslot b'. subst b'. unfold with_table.
  destruct (memory b (pgdir b + slot * 4) =? 0) eqn:E; bool_to_prop.
  - destruct (boot_allocate_ok limit base next own b 1 Hb Hlimit ltac:(lia) Hle)
      as (b1 & -> & Hb1 & Hdir1 & Hlow1 & Hwalk1 & Hmem1).
    pose proof Hb as [_ _ Hr Ho _]. pose proof Hb1 as [Ht1 Hn1 Hr1 Ho1 Ha1].
    rewrite entry_value by lia. rewrite Hdir1.
    set (b2 := b1 <| memory ::= _ |>).
    destruct (boot_directory _ _ _ _ _ Hb) as (pd & Hpd & Hown). specialize (Ho pd _ Hown) as Hpdr.
    assert (Hslot' : 0 <= slot < 1024) by (by apply (slot_range Kernel)).
    assert (Hnone : own next = None).
    { destruct (own next) as [o|] eqn:Hn; [|done]. specialize (Ho next o Hn). lia. }
    assert (Hzero : memory b1 (pgdir b + slot * 4) = 0).
    { rewrite Hmem1, decide_False; [done|]. rewrite Hpd. unfold PAGE_SIZE. lia. }
    destruct (new_table_ok limit limit own (as_vm limit b1) Kernel (pgdir b) slot next Ht1)
      as [Ht2 Hwalk2]; try done; [by rewrite <- Hdir1| |lia|lia| |].
    + unfold memory_of. simpl. by rewrite Hzero.
    + intros a Ha. unfold memory_of. simpl. by rewrite Hmem1, decide_True.
    + assert (Hvm : as_vm limit b2 = write_phys (pgdir b + slot * 4) (next * PAGE_SIZE + PAGE_PRESENT) (as_vm limit b1))
        by done.
      rewrite <- Hvm in Ht2, Hwalk2.
      assert (Hentry : memory b2 (pgdir b + slot * 4) = next * PAGE_SIZE + PAGE_PRESENT).
      { subst b2. simpl. by rewrite fn_lookup_insert. }
      exists (<[next := Some (Table Kernel slot)]> own), (next + 1). split.
      { constructor; [done|done|lia| |].
        - intros page o. destruct (decide (page = next)) as [->|Hne]; [lia|].
          rewrite fn_lookup_insert_ne by congruence. apply Ho1.
        - intros slot' Hs'. change (pgdir b2) with (pgdir b1). rewrite Hdir1.
          destruct (decide (slot' = slot)) as [->|Hne].
          + rewrite Hentry. intros Habs. by apply entry_present in Habs.
          + subst b2. simpl. rewrite fn_lookup_insert_ne by lia. rewrite <- Hdir1. by apply Ha1. }
      split; [lia|]. split; [done|]. split; [|split].
      * intros a Hlow. subst b2. simpl. rewrite fn_lookup_insert_ne by (unfold PAGE_SIZE in *; lia).
        by apply Hlow1.
      * intros va Hva. rewrite <- (Hwalk1 va Hva).
        exact (Hwalk2 Kernel (pgdir b1) va eq_refl Hva).
      * rewrite Hentry. apply entry_present.
  - exists own, next. split; [done|]. split; [lia|]. split; [done|]. split; [done|]. split; [done|].
    intros Habs. by apply E, (boot_absent _ _ _ _ _ Hb slot Hslot).
Qed.

(** The entry of a page after [count] pages from page [first] are mapped to [pa]. *)
Definition entry_after (first count pa flags page old : Z) : Z :=
  if decide (first <= page < first + count) then Z.lor (pa + (page - first) * PAGE_SIZE) flags else old.

(** One entry of a table that exists. *)
Lemma boot_entry_ok limit base next own b va v :
  boot_ok limit base next own b -> in_space Kernel va ->
  Z.land (memory b (pgdir b + pgdindex va * 4)) PAGE_PRESENT <> 0 ->
  let pgtbl := PAGE_ALIGN (memory b (pgdir b + pgdindex va * 4)) in
  let b' := b <| memory ::= <[pgtbl + pgtindex va * 4 := v]> |> in
  boot_ok limit base next own b' /\ low_kept base b b'
  /\ (forall slot, slot_of Kernel slot -> memory b' (pgdir b + slot * 4) = memory b (pgdir b + slot * 4))
  /\ forall va', in_space Kernel va' ->
       kernel_walk va' b' = if decide (va' / PAGE_SIZE = va / PAGE_SIZE) then v else kernel_walk va' b.
Proof.
  intros Hb Hin Hpres pgtbl b'. pose proof Hb as [Ht Hn Hr Ho Ha].
  destruct (set_table_entry_ok limit limit own (as_vm limit b) Kernel (pgdir b) va v Ht eq_refl Hin Hpres)
    as (Ht' & Hwalk & _). cbv zeta in Ht', Hwalk.
  destruct (present_table _ _ _ _ Kernel (pgdir b) va Ht eq_refl Hin Hpres) as (pt & Hpt & _ & Halign).
  change (pgtbl = pt * PAGE_SIZE) in Halign. destruct (index_range va ltac:(apply Hin)) as [_ Hi].
  assert (Hmem : forall a, a <> pt * PAGE_SIZE + pgtindex va * 4 -> memory b' a = memory b a).
  { intros a Hne. subst b'. simpl. rewrite Halign. by apply fn_lookup_insert_ne. }
  specialize (Ho pt _ Hpt) as Hptr.
  assert (Hdirs : forall slot, slot_of Kernel slot -> memory b' (pgdir b + slot * 4) = memory b (pgdir b + slot * 4)).
  { intros slot Hslot. apply Hmem. destruct (boot_directory _ _ _ _ _ Hb) as (pd & -> & Hown).
    rewrite word_eq by (done || by apply (slot_range Kernel)). intros [-> _]. congruence. }
  split; [|split; [|split; [done|]]].
  - constructor; try done.
    + destruct Ht'. by constructor.
    + intros slot Hslot. change (pgdir b') with (pgdir b). rewrite Hdirs by done. by apply Ha.
  - intros a Hlow. apply Hmem. unfold PAGE_SIZE in *. lia.
  - intros va' Hin'. etransitivity; [exact (Hwalk Kernel (pgdir b) va' eq_refl Hin')|].
    repeat destruct (decide _); try done; exfalso; tauto.
Qed.

(** The virtual address of a page. *)
Lemma page_va slot i :
  slot_of Kernel slot -> 0 <= i < 1024 ->
  let va := (slot * 1024 + i) * PAGE_SIZE in
  in_space Kernel va /\ pgdindex va = slot /\ pgtindex va = i /\ va / PAGE_SIZE = slot * 1024 + i.
Proof.
  intros Hslot Hi va. subst va. unfold in_space, pgdindex, pgtindex.
  rewrite Z.div_mul by done. simpl in *.
  assert ((slot * 1024 + i) / 1024 = slot) as -> by (Z.div_mod_to_equations; lia).
  split_and!; try (unfold PAGE_SIZE in *; lia). Z.div_mod_to_equations; lia.
Qed.

Lemma entry_after_step first count pa flags page old :
  0 < count ->
  entry_after (first + 1) (count - 1) (pa + PAGE_SIZE) flags page
    (if decide (page = first) then Z.lor pa flags else old)
  = entry_after first count pa flags page old.
Proof.
  intros Hc. unfold entry_after. repeat destruct (decide _); try lia; try done.
  - f_equal. unfold PAGE_SIZE. lia.
  - subst. f_equal. lia.
Qed.

Lemma entry_after_split first k rest pa flags page old :
  0 <= k -> 0 <= rest ->
  entry_after (first + k) rest (pa + k * PAGE_SIZE) flags page (entry_after first k pa flags page old)
  = entry_after first (k + rest) pa flags page old.
Proof.
  intros Hk Hr. unfold entry_after. repeat destruct (decide _); try lia; try done.
  f_equal. unfold PAGE_SIZE. lia.
Qed.

Lemma entry_after_none first pa flags page old : entry_after first 0 pa flags page old = old.
Proof. unfold entry_after. rewrite decide_False by lia. done. Qed.

Lemma fill_table_ok limit base next own flags slot fuel i n pa b :
  boot_ok limit base next own b -> slot_of Kernel slot ->
  Z.land (memory b (pgdir b + slot * 4)) PAGE_PRESENT <> 0 ->
  0 <= i <= 1024 -> 1024 - i <= Z.of_nat fuel -> 0 <= n -> n * PAGE_SIZE < 2 ^ 32 ->
  (0 < n -> 0 <= pa /\ pa + n * PAGE_SIZE <= 2 ^ 32) ->
  let k := Z.min n (1024 - i) in
  exists pa' low,
    fill_table fuel (PAGE_ALIGN (memory b (pgdir b + slot * 4))) i pa (n * PAGE_SIZE) flags (memory b)
      = (pa', (n - k) * PAGE_SIZE, low)
    /\ (0 < n - k -> pa' = pa + k * PAGE_SIZE)
    /\ boot_ok limit base next own (b <| memory := low |>) /\ low_kept base b (b <| memory := low |>)
    /\ forall va, in_space Kernel va ->
         kernel_walk va (b <| memory := low |>)
         = entry_after (slot * 1024 + i) k pa flags (va / PAGE_SIZE) (kernel_walk va b).
Proof.
  intros Hb Hslot. revert i n pa b Hb. induction fuel as [|fuel IH]; intros i n pa b Hb Hpres Hi Hf Hn Hmax Hpa k.
  - exists pa, (memory b). assert (Hk : k = 0) by lia. rewrite Hk, Z.sub_0_r. simpl.
    split; [done|]. split; [lia|]. split; [by destruct b|]. split; [done|].
    intros va _. by rewrite entry_after_none.
  - cbn [fill_table]. destruct ((0 <? n * PAGE_SIZE) && (i <? 1024)) eqn:E.
    + apply andb_true_iff in E as [E1 E2]. bool_to_prop.
      assert (0 < n) by (unfold PAGE_SIZE in *; lia).
      destruct (page_va slot i Hslot ltac:(lia)) as (Hin & Hd & Ht & Hp).
      set (va := (slot * 1024 + i) * PAGE_SIZE) in *.
      destruct (boot_entry_ok limit base next own b va (Z.lor pa flags) Hb Hin) as (Hb1 & Hlow1 & Hdirs1 & Hwalk1);
        [by rewrite Hd|].
      cbv zeta in *. rewrite Hd, Ht in *.
      set (b1 := b <| memory ::= _ |>) in *.
      assert (Hdir1 : memory b1 (pgdir b1 + slot * 4) = memory b (pgdir b + slot * 4)) by (by apply Hdirs1).
      destruct (IH (i + 1) (n - 1) (u32 (pa + PAGE_SIZE)) b1 Hb1) as (pa' & low & Hrun & Hpa' & Hb2 & Hlow2 & Hwalk2);
        [by rewrite Hdir1|lia|lia|lia|unfold PAGE_SIZE in *; lia| |].
      { intros H1. rewrite u32_id by (unfold PAGE_SIZE in *; split; lia). unfold PAGE_SIZE in *; lia. }
      exists pa', low. split.
      { rewrite Hdir1 in Hrun. subst k.
        replace (n - Z.min n (1024 - i)) with (n - 1 - Z.min (n - 1) (1024 - (i + 1))) by lia.
        rewrite <- Hrun. f_equal. unfold PAGE_SIZE in *. rewrite u32_id by (split; lia). lia. }
      split.
      { intros Hk. rewrite Hpa' by lia. rewrite u32_id by (unfold PAGE_SIZE in *; split; lia).
        unfold PAGE_SIZE in *. lia. }
      split; [exact Hb2|]. split; [intros a Ha; etransitivity; [exact (Hlow2 a Ha)|by apply Hlow1]|].
      intros va' Hin'. etransitivity; [exact (Hwalk2 va' Hin')|]. rewrite (Hwalk1 va' Hin'), Hp.
      destruct (decide (0 < Z.min (n - 1) (1024 - (i + 1)))) as [Hmore|Hlast].
      * rewrite u32_id by (unfold PAGE_SIZE in *; split; lia).
        replace (Z.min (n - 1) (1024 - (i + 1))) with (k - 1) by lia.
        rewrite <- (entry_after_step _ k) by lia. f_equal; lia.
      * replace (Z.min (n - 1) (1024 - (i + 1))) with 0 by lia. rewrite entry_after_none.
        assert (Hk : k = 1) by lia. rewrite Hk, <- entry_after_step by lia. by rewrite entry_after_none.
    + assert (Hk : k = 0).
      { apply andb_false_iff in E as [E|E]; bool_to_prop; unfold PAGE_SIZE in *; lia. }
      exists pa, (memory b). rewrite Hk, Z.sub_0_r.
      split; [done|]. split; [lia|]. split; [by destruct b|]. split; [done|].
      intros va _. by rewrite entry_after_none.
Qed.

(** The tables a range of [n] pages from index [i] of a table is in. *)
Definition tables_for (i n : Z) : Z := (i + n + 1023) / 1024.

(** What mapping [n] pages from page [first] to [pa] does. *)
Definition mapped_range limit base first n pa flags next_min next_max (b b' : boot_page_setup) : Prop :=
  exists own next, boot_ok limit base next own b' /\ next_min <= next <= next_max /\ pgdir b' = pgdir b
    /\ low_kept base b b'
    /\ forall va, in_space Kernel va ->
         kernel_walk va b' = entry_after first n pa flags (va / PAGE_SIZE) (kernel_walk va b).

Lemma map_tables_ok limit base flags fuel slot i n pa own next b :
  boot_ok limit base next own b -> limit * PAGE_SIZE < 2 ^ 32 ->
  768 <= slot -> 0 <= i < 1024 -> 0 <= n -> slot * 1024 + i + n <= 2 ^ 20 ->
  1024 - slot <= Z.of_nat fuel -> next + tables_for i n <= limit ->
  (0 < n -> 0 <= pa /\ pa + n * PAGE_SIZE <= 2 ^ 32) ->
  exists b', map_tables fuel slot i pa (n * PAGE_SIZE) flags b = Done b'
    /\ mapped_range limit base (slot * 1024 + i) n pa flags next (next + tables_for i n) b b'.
Proof.
  intros Hb Hlimit. revert slot i n pa own next b Hb.
  induction fuel as [|fuel IH]; intros slot i n pa own next b Hb Hslot Hi Hn Hend Hf Hnext Hpa.
  - assert (n = 0) as -> by lia. exists b. split; [done|]. exists own, next.
    split; [done|]. split; [unfold tables_for; Z.div_mod_to_equations; lia|]. split; [done|]. split; [done|].
    intros va _. by rewrite entry_after_none.
  - cbn [map_tables]. destruct (0 <? n * PAGE_SIZE) eqn:E; bool_to_prop.
    + assert (0 < n) by (unfold PAGE_SIZE in *; lia).
      assert (Hs : slot_of Kernel slot) by (simpl; lia).
      assert (Htables : tables_for i n = 1 + tables_for 0 (n - Z.min n (1024 - i))).
      { unfold tables_for. Z.div_mod_to_equations. lia. }
      assert (0 <= tables_for 0 (n - Z.min n (1024 - i))) by (unfold tables_for; Z.div_mod_to_equations; lia).
      destruct (with_table_ok limit base next own b slot Hb Hlimit ltac:(lia) Hs)
        as (own1 & next1 & Hb1 & Hnext1 & Hdir1 & Hlow1 & Hwalk1 & Hpres).
      set (b1 := with_table slot b) in *. rewrite <- Hdir1 in Hpres.
      destruct (fill_table_ok limit base next1 own1 flags slot 1024 i n pa b1 Hb1 Hs Hpres ltac:(lia) ltac:(lia)
        Hn ltac:(unfold PAGE_SIZE; lia) Hpa) as (pa' & low & Hfill & Hpa' & Hb2 & Hlow2 & Hwalk2).
      set (k := Z.min n (1024 - i)) in *. set (b2 := b1 <| memory := low |>) in *.
      assert (Hstep : exists b', map_tables fuel (slot + 1) 0 pa' ((n - k) * PAGE_SIZE) flags b2 = Done b'
        /\ mapped_range limit base ((slot + 1) * 1024 + 0) (n - k) pa' flags next1
             (next1 + tables_for 0 (n - k)) b2 b').
      { apply (IH (slot + 1) 0 (n - k) pa' own1 next1 b2 Hb2); try lia.
        intros Hk. rewrite Hpa' by done. unfold PAGE_SIZE in *. lia. }
      destruct Hstep as (b' & Hrun & own' & next' & Hb' & Hnext' & Hdir' & Hlow' & Hwalk').
      exists b'. split.
      { cbv zeta. fold b1. rewrite Hfill. exact Hrun. }
      exists own', next'. split; [done|]. split; [lia|]. split; [by rewrite Hdir'|]. split.
      * intros a Ha. rewrite (Hlow' a Ha). etransitivity; [exact (Hlow2 a Ha)|by apply Hlow1].
      * intros va Hva. rewrite (Hwalk' va Hva), (Hwalk2 va Hva), (Hwalk1 va Hva).
        destruct (decide (0 < n - k)) as [Hmore|Hlast].
        -- rewrite Hpa' by done. replace ((slot + 1) * 1024 + 0) with (slot * 1024 + i + k) by lia.
           rewrite entry_after_split by lia. f_equal. lia.
        -- assert (n - k = 0) as -> by lia. rewrite entry_after_none. by replace k with n by lia.
    + assert (n = 0) as -> by (unfold PAGE_SIZE in *; lia). exists b. split; [done|]. exists own, next.
      split; [done|]. split; [unfold tables_for; Z.div_mod_to_equations; lia|]. split; [done|]. split; [done|].
      intros va _. by rewrite entry_after_none.
Qed.

(** [boot_vm_map_pages] of a range of whole pages of the kernel's half. *)
Lemma boot_map_ok limit base next own b first n pa flags :
  boot_ok limit base next own b -> limit * PAGE_SIZE < 2 ^ 32 ->
  768 * 1024 <= first < 2 ^ 20 -> 0 <= n -> first + n <= 2 ^ 20 ->
  next + tables_for (first mod 1024) n <= limit ->
  (0 < n -> 0 <= pa /\ pa + n * PAGE_SIZE <= 2 ^ 32) ->
  exists b', boot_vm_map_pages (first * PAGE_SIZE) pa (n * PAGE_SIZE) flags b = Done b'
    /\ mapped_range limit base first n pa flags next (next + tables_for (first mod 1024) n) b b'.
Proof.
  intros Hb Hlimit Hfirst Hn Hend Hnext Hpa. unfold boot_vm_map_pages, pgdindex, pgtindex.
  rewrite Z.div_mul by done. pose proof (Z.div_mod first 1024 ltac:(lia)) as Hdm.
  pose proof (Z.mod_pos_bound first 1024 eq_refl) as Hmod.
  destruct (map_tables_ok limit base flags 1024 (first / 1024) (first mod 1024) n pa own next b Hb Hlimit)
    as (b' & Hrun & Hrange); try lia; try done.
  exists b'. split; [exact Hrun|]. by replace (first / 1024 * 1024 + first mod 1024) with first in Hrange by lia.
Qed.

(** ** From reset to the kernel's first translation map *)

(** start.S calls [boot_setup_page_tables], turns the MMU on with the directory at
    [page_dir_addr], and enters [kernel_main] with the size of memory. *)
Definition kernel_start (page_dir_addr boot_pages_used KERNEL_END memory_size : Z) (low : Z -> Z) : result vm_state :=
  low <-- boot_setup_page_tables page_dir_addr boot_pages_used KERNEL_END memory_size low;;
  let dir := low (BOOT_VA_TO_PA page_dir_addr) in
  Done (vm_translation_map_init dir {|
    frames := vm_page_init memory_size (low (BOOT_VA_TO_PA boot_pages_used))
      {| pages := replicate (Z.to_nat (memory_size / PAGE_SIZE)) boot_page; free_page_list := [];
         memory_size := 0; phys := low |};
    kernel_map := {| page_dir := 0; asid := 0 |};
    map_list := []; maps := ∅; asid_alloc := [0; 0]; invalidated := []; registers := (dir, 0)
  |}).

(** What the kernel's half should map, page by page: the kernel image of [kernel_pages], all
    of memory, the stacks, the device registers, and the page structures; nothing else. *)
Definition kernel_entry (kernel_pages memory_pages stacks structures page : Z) : Z :=
  let from first pa flags := Z.lor (pa + (page - first) * PAGE_SIZE) flags in
  if decide (0xc0000 <= page < 0xc0000 + kernel_pages) then
    from 0xc0000 0 (Z.lor kernel_flags PAGE_EXECUTABLE)
  else if decide (0xc1000 <= page < 0xc1000 + memory_pages) then from 0xc1000 0 kernel_flags
  else if decide (0xfffe0 <= page < 0xffff0) then from 0xfffe0 (stacks * PAGE_SIZE) kernel_flags
  else if decide (0xffff0 <= page < 0x100000) then from 0xffff0 0xffff0000 kernel_flags
  else if decide (0xd0000 <= page < 0xd0000 + sizeof_vm_page * memory_pages / PAGE_SIZE) then
    from 0xd0000 (structures * PAGE_SIZE) kernel_flags
  else 0.

(** The directory just allocated. *)
Lemma boot_start_ok limit kernel_pages low :
  0 < kernel_pages -> kernel_pages + 1 <= limit -> limit * PAGE_SIZE < 2 ^ 32 ->
  exists b, boot_vm_allocate_pages 1
      {| next_alloc_page := kernel_pages * PAGE_SIZE; pgdir := 0; memory := low |}
      = (kernel_pages * PAGE_SIZE, b)
    /\ let b' := b <| pgdir := kernel_pages * PAGE_SIZE |> in
       boot_ok limit kernel_pages (kernel_pages + 1)
         (fun page => if decide (page = kernel_pages) then Some (Directory Kernel) else None) b'
       /\ (forall a, a < kernel_pages * PAGE_SIZE -> memory b' a = low a)
       /\ (forall va, in_space Kernel va -> kernel_walk va b' = 0).
Proof.
  intros Hk Hle Hlimit. unfold boot_vm_allocate_pages. eexists. split; [reflexivity|]. cbv zeta.
  set (b' := _ <| pgdir := _ |>). cbn [next_alloc_page] in *.
  assert (Hmem : forall a, memory b' a
    = if decide (kernel_pages * PAGE_SIZE <= a < (kernel_pages + 1) * PAGE_SIZE) then 0 else low a).
  { intros a. subst b'. simpl.
    destruct (decide _); destruct ((_ <=? a) && _) eqn:E; try done; bool_to_prop;
      [apply andb_false_iff in E as [E|E]; bool_to_prop|]; unfold PAGE_SIZE in *; lia. }
  assert (Hzero : forall slot, slot_of Kernel slot -> memory b' (kernel_pages * PAGE_SIZE + slot * 4) = 0).
  { intros slot Hslot. simpl in Hslot. rewrite Hmem, decide_True; [done|]. unfold PAGE_SIZE. lia. }
  split; [|split].
  - constructor.
    + constructor.
      * constructor; simpl; rewrite ?length_replicate; [lia|apply NoDup_nil_2|by intros ? ?%elem_of_nil|lia|lia].
      * simpl. lia.
      * intros page o. destruct (decide _) as [->|]; [|done]. intros _. lia.
      * intros page o. destruct (decide _); [|done]. by intros [= <-].
      * intros [|map] dir; simpl; [|by rewrite lookup_empty]. intros [= <-]. exists kernel_pages.
        split; [done|]. by rewrite decide_True.
      * intros [|map] dir slot; [|simpl; by rewrite lookup_empty]. intros [= <-] Hslot. left.
        change (Z.land (memory b' (kernel_pages * PAGE_SIZE + slot * 4)) PAGE_PRESENT = 0). by rewrite Hzero.
      * intros map dir slot. simpl. by rewrite lookup_empty.
      * split; [apply NoDup_nil_2|]. intros map. simpl. rewrite lookup_empty.
        split; [by intros ?%elem_of_nil|by intros []].
    + subst b'. simpl. rewrite u32_id by (unfold PAGE_SIZE in *; split; lia). unfold PAGE_SIZE. lia.
    + lia.
    + intros page o. destruct (decide _) as [->|]; [lia|done].
    + intros slot Hslot _. by apply Hzero.
  - intros a Ha. rewrite Hmem, decide_False; [done|]. unfold PAGE_SIZE in *. lia.
  - intros va [_ Hslot]. unfold kernel_walk, walk. change (pgdir b') with (kernel_pages * PAGE_SIZE).
    by rewrite Hzero.
Qed.

(** The layout the theorem is about: a kernel image below 16 megabytes, and memory in units
    of four megabytes, as the page structures fill whole pages only then. *)
Record layout_ok (kernel_pages units : Z) : Prop := {
  layout_kernel : 0 < kernel_pages <= 4096;
  layout_units : 0 < units <= 60;
  layout_room : kernel_pages + 10 * units + 25 <= 1024 * units
}.

(** A word of the kernel image. *)
Definition image_word (kernel_pages va : Z) : Prop :=
  KERNEL_BASE <= va /\ va + 4 <= KERNEL_BASE + kernel_pages * PAGE_SIZE /\ va mod 4 = 0.

Lemma image_word_pa kernel_pages va : kernel_pages <= 4096 -> image_word kernel_pages va ->
  BOOT_VA_TO_PA va = va - KERNEL_BASE /\ 0 <= va - KERNEL_BASE < kernel_pages * PAGE_SIZE.
Proof.
  intros Hk (Hlow & Hhigh & _). unfold BOOT_VA_TO_PA, KERNEL_BASE, PAGE_SIZE in *.
  change 0xffffff with (Z.ones 24). rewrite Z.land_ones by lia. Z.div_mod_to_equations. lia.
Qed.

(** What the boot code leaves in the kernel image: two of its words are written. *)
Definition image_left (page_dir_addr boot_pages_used dir used : Z) (low : Z -> Z) (a : Z) : Z :=
  if decide (a = BOOT_VA_TO_PA boot_pages_used) then used
  else if decide (a = BOOT_VA_TO_PA page_dir_addr) then dir
  else low a.

Lemma structures_size units :
  0 <= units -> PAGE_STRUCTURES_SIZE (units * 0x400000) = 9 * units * PAGE_SIZE
    /\ PAGE_STRUCTURES_SIZE (units * 0x400000) / PAGE_SIZE = 9 * units
    /\ units * 0x400000 = 1024 * units * PAGE_SIZE
    /\ sizeof_vm_page * (1024 * units) / PAGE_SIZE = 9 * units.
Proof.
  intros Hu. unfold PAGE_STRUCTURES_SIZE, sizeof_vm_page.
  replace (units * 0x400000) with (1024 * units * PAGE_SIZE) by (unfold PAGE_SIZE; lia).
  rewrite Z.div_mul by done.
  replace (36 * (1024 * units)) with (9 * units * PAGE_SIZE) by (unfold PAGE_SIZE; lia).
  by rewrite Z.div_mul.
Qed.

(** The kernel image and the alias of physical memory. *)
Lemma boot_low_regions limit base next own b kernel_pages units :
  boot_ok limit base next own b -> limit * PAGE_SIZE < 2 ^ 32 -> layout_ok kernel_pages units ->
  next + 4 + units <= limit ->
  exists b1 b2 own' next',
    boot_vm_map_pages KERNEL_BASE 0 (kernel_pages * PAGE_SIZE) (Z.lor kernel_flags PAGE_EXECUTABLE) b = Done b1
    /\ boot_vm_map_pages PHYS_MEM_ALIAS 0 (1024 * units * PAGE_SIZE) kernel_flags b1 = Done b2
    /\ boot_ok limit base next' own' b2 /\ next <= next' <= next + 4 + units /\ low_kept base b b2
    /\ forall va, in_space Kernel va -> kernel_walk va b2
         = entry_after 0xc1000 (1024 * units) 0 kernel_flags (va / PAGE_SIZE)
             (entry_after 0xc0000 kernel_pages 0 (Z.lor kernel_flags PAGE_EXECUTABLE) (va / PAGE_SIZE)
                (kernel_walk va b)).
Proof.
  intros Hb Hlimit [Hk Hu Hroom] Hnext.
  assert (Ht1 : 0 <= tables_for 0 kernel_pages <= 4) by (unfold tables_for; Z.div_mod_to_equations; lia).
  assert (Ht2 : tables_for 0 (1024 * units) = units) by (unfold tables_for; Z.div_mod_to_equations; lia).
  destruct (boot_map_ok limit _ _ _ b 0xc0000 kernel_pages 0 (Z.lor kernel_flags PAGE_EXECUTABLE) Hb Hlimit)
    as (b1 & Hrun1 & own1 & next1 & Hb1 & Hnext1 & _ & Hlow1 & Hwalk1);
    [lia|lia|lia|change (0xc0000 mod 1024) with 0; lia|unfold PAGE_SIZE; lia|].
  change (0xc0000 mod 1024) with 0 in Hnext1.
  destruct (boot_map_ok limit _ _ _ b1 0xc1000 (1024 * units) 0 kernel_flags Hb1 Hlimit)
    as (b2 & Hrun2 & own2 & next2 & Hb2 & Hnext2 & _ & Hlow2 & Hwalk2);
    [lia|lia|lia|change (0xc1000 mod 1024) with 0; lia|unfold PAGE_SIZE; lia|].
  change (0xc1000 mod 1024) with 0 in Hnext2.
  exists b1, b2, own2, next2. split; [exact Hrun1|]. split; [exact Hrun2|]. split; [done|].
  split; [lia|]. split; [intros a Ha; by rewrite (Hlow2 a Ha), (Hlow1 a Ha)|].
  intros va Hva. by rewrite (Hwalk2 va Hva), (Hwalk1 va Hva).
Qed.

(** The stacks, in sixteen pages of their own, and the device registers. *)
Lemma boot_high_regions limit base next own b :
  boot_ok limit base next own b -> limit * PAGE_SIZE < 2 ^ 32 -> next + 18 <= limit ->
  exists b1 b2 b3 own' next',
    boot_vm_allocate_pages 0x10 b = (next * PAGE_SIZE, b1)
    /\ boot_vm_map_pages INITIAL_KERNEL_STACKS (next * PAGE_SIZE) (16 * PAGE_SIZE) kernel_flags b1 = Done b2
    /\ boot_vm_map_pages DEVICE_REG_BASE DEVICE_REG_BASE (16 * PAGE_SIZE) kernel_flags b2 = Done b3
    /\ boot_ok limit base next' own' b3 /\ next + 16 <= next' <= next + 18 /\ low_kept base b b3
    /\ forall va, in_space Kernel va -> kernel_walk va b3
         = entry_after 0xffff0 16 DEVICE_REG_BASE kernel_flags (va / PAGE_SIZE)
             (entry_after 0xfffe0 16 (next * PAGE_SIZE) kernel_flags (va / PAGE_SIZE) (kernel_walk va b)).
Proof.
  intros Hb Hlimit Hnext. pose proof (boot_range _ _ _ _ _ Hb) as Hrange.
  destruct (boot_allocate_ok limit _ _ _ b 0x10 Hb Hlimit ltac:(lia) ltac:(lia))
    as (b1 & Halloc & Hb1 & _ & Hlow1 & Hwalk1 & _).
  destruct (boot_map_ok limit _ _ _ b1 0xfffe0 16 (next * PAGE_SIZE) kernel_flags Hb1 Hlimit)
    as (b2 & Hrun2 & own2 & next2 & Hb2 & Hnext2 & _ & Hlow2 & Hwalk2);
    [lia|lia|lia|change (tables_for (0xfffe0 mod 1024) 16) with 1; lia|unfold PAGE_SIZE in *; lia|].
  change (tables_for (0xfffe0 mod 1024) 16) with 1 in Hnext2.
  destruct (boot_map_ok limit _ _ _ b2 0xffff0 16 DEVICE_REG_BASE kernel_flags Hb2 Hlimit)
    as (b3 & Hrun3 & own3 & next3 & Hb3 & Hnext3 & _ & Hlow3 & Hwalk3);
    [lia|lia|lia|change (tables_for (0xffff0 mod 1024) 16) with 1; lia|unfold DEVICE_REG_BASE, PAGE_SIZE; lia|].
  change (tables_for (0xffff0 mod 1024) 16) with 1 in Hnext3.
  exists b1, b2, b3, own3, next3. split; [exact Halloc|]. split; [exact Hrun2|]. split; [exact Hrun3|].
  split; [done|]. split; [lia|].
  split; [intros a Ha; by rewrite (Hlow3 a Ha), (Hlow2 a Ha), (Hlow1 a Ha)|].
  intros va Hva. by rewrite (Hwalk3 va Hva), (Hwalk2 va Hva), (Hwalk1 va Hva).
Qed.

(** The page structures. *)
Lemma boot_structures limit base next own b units :
  boot_ok limit base next own b -> limit * PAGE_SIZE < 2 ^ 32 -> 0 < units <= 60 ->
  next + 9 * units + 1 <= limit ->
  exists b1 b2 own' next',
    boot_vm_allocate_pages (9 * units) b = (next * PAGE_SIZE, b1)
    /\ boot_vm_map_pages KERNEL_HEAP_BASE (next * PAGE_SIZE) (9 * units * PAGE_SIZE) kernel_flags b1 = Done b2
    /\ boot_ok limit base next' own' b2 /\ next + 9 * units <= next' <= next + 9 * units + 1
    /\ low_kept base b b2
    /\ forall va, in_space Kernel va -> kernel_walk va b2
         = entry_after 0xd0000 (9 * units) (next * PAGE_SIZE) kernel_flags (va / PAGE_SIZE) (kernel_walk va b).
Proof.
  intros Hb Hlimit Hu Hnext. pose proof (boot_range _ _ _ _ _ Hb) as Hrange.
  assert (Ht : tables_for 0 (9 * units) = 1) by (unfold tables_for; Z.div_mod_to_equations; lia).
  destruct (boot_allocate_ok limit _ _ _ b (9 * units) Hb Hlimit ltac:(lia) ltac:(lia))
    as (b1 & Halloc & Hb1 & _ & Hlow1 & Hwalk1 & _).
  destruct (boot_map_ok limit _ _ _ b1 0xd0000 (9 * units) (next * PAGE_SIZE) kernel_flags Hb1 Hlimit)
    as (b2 & Hrun2 & own2 & next2 & Hb2 & Hnext2 & _ & Hlow2 & Hwalk2);
    [lia|lia|lia|change (0xd0000 mod 1024) with 0; lia|unfold PAGE_SIZE in *; lia|].
  change (0xd0000 mod 1024) with 0 in Hnext2.
  exists b1, b2, own2, next2. split; [exact Halloc|]. split; [exact Hrun2|]. split; [done|]. split; [lia|].
  split; [intros a Ha; by rewrite (Hlow2 a Ha), (Hlow1 a Ha)|].
  intros va Hva. by rewrite (Hwalk2 va Hva), (Hwalk1 va Hva).
Qed.

(** The regions do not overlap. *)
Lemma kernel_entry_regions kernel_pages units stacks structures page :
  layout_ok kernel_pages units ->
  entry_after 0xd0000 (9 * units) (structures * PAGE_SIZE) kernel_flags page
    (entry_after 0xffff0 16 DEVICE_REG_BASE kernel_flags page
      (entry_after 0xfffe0 16 (stacks * PAGE_SIZE) kernel_flags page
        (entry_after 0xc1000 (1024 * units) 0 kernel_flags page
          (entry_after 0xc0000 kernel_pages 0 (Z.lor kernel_flags PAGE_EXECUTABLE) page 0))))
  = kernel_entry kernel_pages (1024 * units) stacks structures page.
Proof.
  intros [Hk Hu _]. unfold kernel_entry, entry_after, DEVICE_REG_BASE. cbv zeta.
  destruct (structures_size units ltac:(lia)) as (_ & _ & _ & ->).
  repeat destruct (decide _); try lia; reflexivity.
Qed.

Lemma boot_setup_ok page_dir_addr boot_pages_used kernel_pages units low :
  layout_ok kernel_pages units -> image_word kernel_pages page_dir_addr -> image_word kernel_pages boot_pages_used ->
  exists own used stacks structures b,
    boot_setup_page_tables page_dir_addr boot_pages_used (KERNEL_BASE + kernel_pages * PAGE_SIZE) (units * 0x400000) low
      = Done (memory b)
    /\ boot_ok (1024 * units - 1) kernel_pages used own b
    /\ kernel_pages < stacks /\ stacks + 16 <= structures /\ structures + 9 * units <= used
    /\ (forall a, a < kernel_pages * PAGE_SIZE -> memory b a = image_left page_dir_addr boot_pages_used (pgdir b) used low a)
    /\ forall va, in_space Kernel va ->
         kernel_walk va b = kernel_entry kernel_pages (1024 * units) stacks structures (va / PAGE_SIZE).
Proof.
  intros Hl Hword1 Hword2. pose proof Hl as [Hk Hu Hroom].
  destruct (image_word_pa _ _ (proj2 Hk) Hword1) as [Epa1 Hpa1]. destruct (image_word_pa _ _ (proj2 Hk) Hword2) as [Epa2 Hpa2].
  destruct (structures_size units ltac:(lia)) as (Hsize & Hpages & Hbytes & _).
  set (limit := 1024 * units - 1).
  assert (Hlimit : limit * PAGE_SIZE < 2 ^ 32) by (unfold limit, PAGE_SIZE; lia).
  unfold boot_setup_page_tables. cbv zeta.
  replace (KERNEL_BASE + kernel_pages * PAGE_SIZE - KERNEL_BASE) with (kernel_pages * PAGE_SIZE) by lia.
  rewrite Hpages, Hsize, Hbytes. change (KERNEL_STACK_SIZE * 4) with (16 * PAGE_SIZE).
  change 0x10000 with (16 * PAGE_SIZE).
  destruct (boot_start_ok limit kernel_pages low ltac:(lia) ltac:(unfold limit; lia) Hlimit)
    as (b0 & -> & Hb0 & Hlow0 & Hwalk0). cbv zeta in *. set (b1 := b0 <| pgdir := _ |>) in *.
  destruct (boot_low_regions limit _ _ _ b1 kernel_pages units Hb0 Hlimit Hl ltac:(unfold limit; lia))
    as (b2 & b3 & own3 & next3 & -> & Hrun3 & Hb3 & Hnext3 & Hlow3 & Hwalk3).
  cbn [bind_result]. rewrite Hrun3. cbn [bind_result].
  destruct (boot_high_regions limit _ _ _ b3 Hb3 Hlimit ltac:(unfold limit; lia))
    as (b4 & b5 & b6 & own6 & next6 & -> & Hrun5 & Hrun6 & Hb6 & Hnext6 & Hlow6 & Hwalk6).
  rewrite Hrun5. cbn [bind_result]. rewrite Hrun6. cbn [bind_result].
  destruct (boot_structures limit _ _ _ b6 units Hb6 Hlimit Hu ltac:(unfold limit; lia))
    as (b7 & b8 & own8 & next8 & -> & Hrun8 & Hb8 & Hnext8 & Hlow8 & Hwalk8).
  rewrite Hrun8. cbn [bind_result update next_alloc_page memory]. cbv zeta. cbn [next_alloc_page pgdir memory].
  rewrite (boot_next _ _ _ _ _ Hb8), Z.div_mul by done.
  set (b := b8 <| memory ::= fun m => <[BOOT_VA_TO_PA boot_pages_used := next8]> (<[BOOT_VA_TO_PA page_dir_addr := pgdir b8]> m) |>).
  assert (Hmem : forall a, memory b a = image_left page_dir_addr boot_pages_used (pgdir b) next8 (memory b8) a).
  { intros a. subst b. unfold image_left. cbn [memory update]. change (pgdir (b8 <| memory ::= _ |>)) with (pgdir b8).
    destruct (decide (a = BOOT_VA_TO_PA boot_pages_used)) as [->|Hne]; [by rewrite fn_lookup_insert|].
    rewrite fn_lookup_insert_ne by done.
    destruct (decide (a = BOOT_VA_TO_PA page_dir_addr)) as [->|Hne']; [by rewrite fn_lookup_insert|].
    by rewrite fn_lookup_insert_ne by done. }
  destruct (boot_ok_memory limit kernel_pages next8 next8 own8 b8 b Hb8 eq_refl (boot_next _ _ _ _ _ Hb8)) as [Hb Hwalk].
  { pose proof (boot_range _ _ _ _ _ Hb8). lia. }
  { intros page o slot Hown Hslot. pose proof (boot_owned _ _ _ _ _ Hb8 page o Hown) as Howned. rewrite Hmem. unfold image_left.
    rewrite !decide_False; [done| |]; unfold PAGE_SIZE in *; lia. }
  exists own8, next8, next3, next6, b. split; [done|]. split; [done|]. split; [lia|].
  split; [lia|]. split; [lia|]. split.
  - intros a Ha. rewrite Hmem. unfold image_left. by rewrite (Hlow8 a Ha), (Hlow6 a Ha), (Hlow3 a Ha), Hlow0.
  - intros va Hva. rewrite (Hwalk va Hva), (Hwalk8 va Hva), (Hwalk6 va Hva), (Hwalk3 va Hva), (Hwalk0 va Hva).
    by apply kernel_entry_regions.
Qed.

(** The tables stay what they are when the allocator takes over the rest of memory. *)
Lemma boot_hand_over limit base used own b s :
  boot_ok limit base used own b -> pages_ok used limit (frames s) ->
  limit * PAGE_SIZE <= memory_size (frames s) -> page_dir (kernel_map s) = pgdir b ->
  map_list s = [] -> maps s = ∅ -> memory_of s = memory b -> tables_ok used limit own s.
Proof.
  intros Hb Hpages Hsize Hdir Hlist Hmaps Hmem. pose proof Hb as [Ht _ Hr Ho _].
  assert (Hold : forall sp dir, directory_of sp s = Some dir ->
    sp = Kernel /\ directory_of Kernel (as_vm limit b) = Some dir).
  { intros [|map] dir; simpl; [rewrite Hdir; by intros|]. by rewrite Hmaps, lookup_empty. }
  constructor.
  - done.
  - split; [lia|done].
  - intros page o Hown. specialize (Ho page o Hown). split; lia.
  - intros page o Hown. specialize (Ho page o Hown).
    pose proof (tables_user _ _ _ _ Ht page o Hown) as Huser.
    destruct o as [[|map]|[|map] slot]; try done; simpl in *; lia.
  - intros sp dir Hd. destruct (Hold sp dir Hd) as [-> Hd']. by apply (tables_dir _ _ _ _ Ht Kernel).
  - intros sp dir slot Hd Hslot. destruct (Hold sp dir Hd) as [-> Hd']. rewrite Hmem.
    by apply (tables_entry _ _ _ _ Ht Kernel).
  - intros map dir slot Hd. by destruct (Hold _ _ Hd).
  - rewrite Hlist, Hmaps. split; [apply NoDup_nil_2|]. intros map. rewrite lookup_empty.
    split; [by intros ?%elem_of_nil|by intros []].
Qed.

Lemma start_asids_ok s : asid_alloc s = [0; 0] -> maps s = ∅ -> asids_ok s.
Proof.
  intros Hbits Hmaps. constructor; rewrite ?Hbits, ?Hmaps.
  - split; [vm_decide|done].
  - intros map m Hm. by rewrite lookup_empty in Hm.
  - intros id Hid. enough (bit_at [0; 0] id = false) by congruence.
    unfold bit_at, MAX_ASIDS in *. assert (id / 32 = 0 \/ id / 32 = 1) as [-> | ->]
      by (Z.div_mod_to_equations; lia); apply Z.bits_0.
  - intros map map' m m' Hm. by rewrite lookup_empty in Hm.
Qed.

(** ** Properties *)

(** C18: booting builds the kernel's address space.  From any contents of memory, of a size that is
    a multiple of 4 MB up to 240 MB, with a kernel image of at most 16 MB and room for the tables, the page
    tables [boot_setup_page_tables] builds map the kernel image, all of physical memory, the
    kernel stacks, the device registers and the page structures, each page with the right
    flags, and nothing else, in memory of its own above the kernel image.  Of the image it
    writes two words only, for start.S: the directory's address and the number of pages used.
    With the MMU on with that directory, and the page allocator and the kernel's map initialised,
    the state is one in which translation maps can be used. *)
Theorem boot_builds_kernel_space page_dir_addr boot_pages_used kernel_pages units low :
  layout_ok kernel_pages units -> image_word kernel_pages page_dir_addr -> image_word kernel_pages boot_pages_used ->
  page_dir_addr <> boot_pages_used ->
  exists s used stacks structures,
    kernel_start page_dir_addr boot_pages_used (KERNEL_BASE + kernel_pages * PAGE_SIZE) (units * 0x400000) low = Done s
    /\ (forall va, KERNEL_BASE <= va < 2 ^ 32 -> forall map, query_translation_map map va s
          = Done (kernel_entry kernel_pages (1024 * units) stacks structures (va / PAGE_SIZE)))
    /\ kernel_pages < stacks /\ stacks + 16 <= structures
    /\ structures + sizeof_vm_page * (1024 * units) / PAGE_SIZE <= used
    /\ (forall a, a < kernel_pages * PAGE_SIZE ->
          memory_of s a = image_left page_dir_addr boot_pages_used (page_dir (kernel_map s)) used low a)
    /\ free_page_list (frames s) = seqZ used (1024 * units - 1 - used)
    /\ history used (1024 * units - 1)
         (kernel_entry kernel_pages (1024 * units) stacks structures) ∅ s.
Proof.
  intros Hl Hword1 Hword2 Hne. pose proof Hl as [Hk Hu _].
  destruct (structures_size units ltac:(lia)) as (_ & _ & Hbytes & ->).
  destruct (boot_setup_ok page_dir_addr boot_pages_used kernel_pages units low Hl Hword1 Hword2)
    as (own & used & stacks & structures & b & Hrun & Hb & H1 & H2 & H3 & Hlow & Hwalk).
  destruct (image_word_pa _ _ (proj2 Hk) Hword1) as [Epa1 Hpa1]. destruct (image_word_pa _ _ (proj2 Hk) Hword2) as [Epa2 Hpa2].
  assert (Hdirword : memory b (BOOT_VA_TO_PA page_dir_addr) = pgdir b).
  { rewrite Hlow by lia. unfold image_left. rewrite decide_False, decide_True by lia. done. }
  assert (Husedword : memory b (BOOT_VA_TO_PA boot_pages_used) = used).
  { rewrite Hlow by lia. unfold image_left. by rewrite decide_True by done. }
  unfold kernel_start. rewrite Hrun. cbn [bind_result]. cbv zeta. rewrite Hdirword, Husedword.
  replace (units * 0x400000 / PAGE_SIZE) with (1024 * units) by (rewrite Hbytes; by rewrite Z.div_mul).
  set (f0 := {| pages := _; free_page_list := []; memory_size := 0; phys := memory b |}).
  set (s := vm_translation_map_init (pgdir b) _).
  destruct (boot_range _ _ _ _ _ Hb) as [Hr0 Hr1].
  assert (Hdiv : units * 0x400000 / PAGE_SIZE = 1024 * units) by (rewrite Hbytes; by rewrite Z.div_mul).
  destruct (vm_page_init_ok (units * 0x400000) used f0 (Z.to_nat (1024 * units)) eq_refl) as [Hpages Hrefs];
    [lia|lia|lia|]. rewrite Hdiv in Hpages.
  destruct (add_free_pages_spec (Z.to_nat (1024 * units - 1 - used)) used
    (f0 <| memory_size := units * 0x400000 |> <| free_page_list := [] |>) ltac:(lia))
    as (Hfree & _ & Hsize & Hphys & _). cbv zeta in *.
  assert (Hframes : frames s = add_free_pages (Z.to_nat (1024 * units - 1 - used)) used
    (f0 <| memory_size := units * 0x400000 |> <| free_page_list := [] |>)).
  { unfold s, vm_page_init. cbv zeta. simpl. by rewrite Hdiv. }
  assert (Hmem : memory_of s = memory b) by (unfold memory_of; rewrite Hframes; exact Hphys).
  assert (Hpages' : pages_ok used (1024 * units - 1) (frames s)).
  { rewrite Hframes. unfold vm_page_init in Hpages. cbv zeta in Hpages. by rewrite Hdiv in Hpages. }
  assert (Htables : tables_ok used (1024 * units - 1) own s).
  { apply (boot_hand_over _ kernel_pages used own b); try done.
    rewrite Hframes, Hsize. simpl. unfold PAGE_SIZE. lia. }
  assert (Hkernel : forall va, KERNEL_BASE <= va < 2 ^ 32 -> walk (page_dir (kernel_map s)) va (memory_of s)
    = kernel_entry kernel_pages (1024 * units) stacks structures (va / PAGE_SIZE)).
  { intros va Hva. rewrite Hmem. apply Hwalk. by apply in_kernel. }
  exists s, used, stacks, structures. split; [done|]. split.
  { intros va Hva map. unfold query_translation_map. rewrite (proj2 (Z.leb_le _ _)) by lia. by rewrite Hkernel. }
  split; [done|]. split; [done|]. split; [done|]. split; [by rewrite Hmem|]. split.
  { rewrite Hframes, Hfree. change (seqZ used (Z.of_nat (Z.to_nat (1024 * units - 1 - used))) = seqZ used (1024 * units - 1 - used)).
    by rewrite Z2Nat.id by lia. }
  apply (history_start _ _ own); [done|by apply start_asids_ok|done|done].
Qed.

Lemma boot_builds_kernel_space_witness :
  exists s used stacks structures,
    kernel_start 0xc0001230 0xc0001234 0xc0020000 0x1000000 (fun _ => 0xdead) = Done s
    /\ memory_of s 0x1230 = page_dir (kernel_map s) /\ memory_of s 0x1234 = used /\ memory_of s 0x1238 = 0xdead
    /\ query_translation_map 0 0xc0001000 s = Done 0x101f
    /\ query_translation_map 0 0xc2000000 s = Done 0 /\ 32 < used
    /\ history used 4095 (kernel_entry 32 4096 stacks structures) ∅ s.
Proof.
  assert (Hl : layout_ok 32 4) by (constructor; lia).
  assert (Hwords : image_word 32 0xc0001230 /\ image_word 32 0xc0001234)
    by (unfold image_word, KERNEL_BASE, PAGE_SIZE; split_and!; vm_compute; congruence).
  destruct (boot_builds_kernel_space 0xc0001230 0xc0001234 32 4 (fun _ => 0xdead) Hl (proj1 Hwords) (proj2 Hwords) ltac:(lia))
    as (s & used & stacks & structures & Hrun & Hquery & H1 & H2 & H3 & Hlow & _ & Hh).
  change (sizeof_vm_page * (1024 * 4) / PAGE_SIZE) with 36 in H3.
  exists s, used, stacks, structures. split; [exact Hrun|].
  split; [by rewrite Hlow by (unfold PAGE_SIZE; lia)|].
  split; [by rewrite Hlow by (unfold PAGE_SIZE; lia)|].
  split; [by rewrite Hlow by (unfold PAGE_SIZE; lia)|].
  split; [rewrite Hquery by (unfold KERNEL_BASE; lia); vm_compute; reflexivity|].
  split; [rewrite Hquery by (unfold KERNEL_BASE; lia); vm_compute; reflexivity|].
  split; [lia|exact Hh].
Defined.
