(* ===== verification/SdDriver.v ===== *)
(** * SdDriver: the SD card driver (software/libs/libos/bare-metal/sdmmc.c)

    The driver is written against [Registers], the memory mapped registers; [SdCard]
    states what a card behind them promises to a driver.  The emulator's devices are an
    instance of both, so the driver's theorems hold of it running on the emulator. *)

From S2P Require Export Device Alu.
From stdpp Require Import list.

#[local] Open Scope Z_scope.

(** ** The registers *)

(** [REGISTERS[r] = v], [REGISTERS[r]], by byte offset from the register base; a loop
    that polls a register is given [register_polls] reads. *)
Class Registers (B : Type) := {
  register_write : Z -> Z -> B -> result B;
  register_read : Z -> B -> result (Z * B);
  register_polls : nat
}.

(** registers.h, times 4. *)
Definition REG_SD_SPI_WRITE : Z := 0x00c0.
Definition REG_SD_SPI_READ : Z := 0x00c4.
Definition REG_SD_SPI_STATUS : Z := 0x00c8.
Definition REG_SD_SPI_CONTROL : Z := 0x00cc.
Definition REG_SD_SPI_CLOCK_DIVIDE : Z := 0x00d0.

(** ** The driver *)

Definition MAX_RETRIES : nat := 100.
Definition CHECK_PATTERN : Z := 0x5a.
Definition SDMMC_BLOCK_SIZE : Z := 512.

Definition CRC7_TABLE : list Z := [
  0x00; 0x09; 0x12; 0x1b; 0x24; 0x2d; 0x36; 0x3f;
  0x48; 0x41; 0x5a; 0x53; 0x6c; 0x65; 0x7e; 0x77;
  0x19; 0x10; 0x0b; 0x02; 0x3d; 0x34; 0x2f; 0x26;
  0x51; 0x58; 0x43; 0x4a; 0x75; 0x7c; 0x67; 0x6e;
  0x32; 0x3b; 0x20; 0x29; 0x16; 0x1f; 0x04; 0x0d;
  0x7a; 0x73; 0x68; 0x61; 0x5e; 0x57; 0x4c; 0x45;
  0x2b; 0x22; 0x39; 0x30; 0x0f; 0x06; 0x1d; 0x14;
  0x63; 0x6a; 0x71; 0x78; 0x47; 0x4e; 0x55; 0x5c;
  0x64; 0x6d; 0x76; 0x7f; 0x40; 0x49; 0x52; 0x5b;
  0x2c; 0x25; 0x3e; 0x37; 0x08; 0x01; 0x1a; 0x13;
  0x7d; 0x74; 0x6f; 0x66; 0x59; 0x50; 0x4b; 0x42;
  0x35; 0x3c; 0x27; 0x2e; 0x11; 0x18; 0x03; 0x0a;
  0x56; 0x5f; 0x44; 0x4d; 0x72; 0x7b; 0x60; 0x69;
  0x1e; 0x17; 0x0c; 0x05; 0x3a; 0x33; 0x28; 0x21;
  0x4f; 0x46; 0x5d; 0x54; 0x6b; 0x62; 0x79; 0x70;
  0x07; 0x0e; 0x15; 0x1c; 0x23; 0x2a; 0x31; 0x38;
  0x41; 0x48; 0x53; 0x5a; 0x65; 0x6c; 0x77; 0x7e;
  0x09; 0x00; 0x1b; 0x12; 0x2d; 0x24; 0x3f; 0x36;
  0x58; 0x51; 0x4a; 0x43; 0x7c; 0x75; 0x6e; 0x67;
  0x10; 0x19; 0x02; 0x0b; 0x34; 0x3d; 0x26; 0x2f;
  0x73; 0x7a; 0x61; 0x68; 0x57; 0x5e; 0x45; 0x4c;
  0x3b; 0x32; 0x29; 0x20; 0x1f; 0x16; 0x0d; 0x04;
  0x6a; 0x63; 0x78; 0x71; 0x4e; 0x47; 0x5c; 0x55;
  0x22; 0x2b; 0x30; 0x39; 0x06; 0x0f; 0x14; 0x1d;
  0x25; 0x2c; 0x37; 0x3e; 0x01; 0x08; 0x13; 0x1a;
  0x6d; 0x64; 0x7f; 0x76; 0x49; 0x40; 0x5b; 0x52;
  0x3c; 0x35; 0x2e; 0x27; 0x18; 0x11; 0x0a; 0x03;
  0x74; 0x7d; 0x66; 0x6f; 0x50; 0x59; 0x42; 0x4b;
  0x17; 0x1e; 0x05; 0x0c; 0x33; 0x3a; 0x21; 0x28;
  0x5f; 0x56; 0x4d; 0x44; 0x7b; 0x72; 0x69; 0x60;
  0x0e; 0x07; 0x1c; 0x15; 0x2a; 0x23; 0x38; 0x31;
  0x46; 0x4f; 0x54; 0x5d; 0x62; 0x6b; 0x70; 0x79].

(** [CRC7_TABLE[(crc << 1) ^ byte]]; an index past the table is a fault. *)
Definition crc7_step (crc byte : Z) : result Z :=
  match CRC7_TABLE !! Z.to_nat (Z.lxor (Z.shiftl crc 1) byte) with
  | Some c => Done c
  | None => Fault OutOfBounds
  end.

Fixpoint crc7 (crc : Z) (bytes : list Z) : result Z :=
  match bytes with
  | [] => Done crc
  | b :: rest => crc <-- crc7_step crc b;; crc7 crc rest
  end.

Definition command_encoding (command : sd_command) (parameter : Z) : list Z :=
  [Z.lor 0x40 (enum_value command); Z.land (Z.shiftr parameter 24) 0xff;
   Z.land (Z.shiftr parameter 16) 0xff; Z.land (Z.shiftr parameter 8) 0xff; Z.land parameter 0xff].

Section driver.
Context {B : Type} `{!Registers B}.

(** [while ((REGISTERS[REG_SD_SPI_STATUS] & 1) == 0);] *)
Fixpoint wait_transfer (polls : nat) (b : B) : result B :=
  match polls with
  | O => Fault OutOfFuel
  | S polls' =>
      '(status, b) <-- register_read REG_SD_SPI_STATUS b;;
      if Z.land status 1 =? 0 then wait_transfer polls' b else Done b
  end.

Definition spi_transfer (value : Z) (b : B) : result (Z * B) :=
  b <-- register_write REG_SD_SPI_WRITE (Z.land value 0xff) b;;
  b <-- wait_transfer register_polls b;;
  '(received, b) <-- register_read REG_SD_SPI_READ b;;
  Done (s32 received, b).

Definition set_cs (level : Z) (b : B) : result B := register_write REG_SD_SPI_CONTROL (u32 level) b.

Definition set_clock_divisor (divisor : Z) (b : B) : result B :=
  register_write REG_SD_SPI_CLOCK_DIVIDE (u32 (divisor - 1)) b.

(** Bytes sent one after the other, their answers ignored. *)
Fixpoint send_bytes (values : list Z) (b : B) : result B :=
  match values with
  | [] => Done b
  | v :: rest => '(_, b) <-- spi_transfer v b;; send_bytes rest b
  end.

(** [do result = spi_transfer(0xff); while (result == 0xff && retry_count++ < MAX_RETRIES)],
    with [retries] the retries left. *)
Fixpoint read_response (retries : nat) (b : B) : result (Z * B) :=
  '(result, b) <-- spi_transfer 0xff b;;
  match retries with
  | S retries' => if result =? 0xff then read_response retries' b else Done (result, b)
  | O => Done (result, b)
  end.

Definition send_sd_command (command : sd_command) (parameter : Z) (b : B) : result (Z * B) :=
  crc <-- crc7 0 (command_encoding command parameter);;
  b <-- send_bytes (command_encoding command parameter) b;;
  b <-- send_bytes [Z.lor (Z.shiftl crc 1) 1] b;;
  read_response MAX_RETRIES b.

(** The loop that waits for the end of initialisation; [retries] as [retry] counts up. *)
Fixpoint poll_app_op_cond (retries : nat) (b : B) : result (Z * B) :=
  '(result, b) <-- send_sd_command CMD_APP_CMD 0 b;;
  if negb (result =? 1) then Done (-1, b)
  else
    '(result, b) <-- send_sd_command CMD_APP_OP_COND 0x40fc0000 b;;
    b <-- send_bytes (replicate 5 0xff) b;;
    if result =? 0 then Done (0, b)
    else if negb (result =? 1) then Done (-1, b)
    else match retries with O => Done (-1, b) | S retries' => poll_app_op_cond retries' b end.

(** The messages printed on the way to a failure are left out. *)
Definition init_sdmmc_device (b : B) : result (Z * B) :=
  b <-- set_clock_divisor 125 b;;
  b <-- set_cs 1 b;;
  b <-- send_bytes (replicate 10 0xff) b;;
  b <-- set_cs 0 b;;
  '(result, b) <-- send_sd_command CMD_GO_IDLE_STATE 0 b;;
  if negb (result =? 1) then Done (-1, b)
  else
    '(result, b) <-- send_sd_command CMD_SEND_IF_COND (Z.lor 0x100 CHECK_PATTERN) b;;
    if negb (result =? 1) then Done (-1, b)
    else
      b <-- send_bytes [0xff; 0xff] b;;
      '(result, b) <-- spi_transfer 0xff b;;
      if negb (Z.land result 0xf =? 1) then Done (-1, b)
      else
        '(result, b) <-- spi_transfer 0xff b;;
        if negb (result =? CHECK_PATTERN) then Done (-1, b)
        else
          '(result, b) <-- poll_app_op_cond MAX_RETRIES b;;
          if result =? 0 then b <-- set_clock_divisor 5 b;; Done (0, b) else Done (-1, b).

(** [while (spi_transfer(0xff) != DATA_TOKEN) if (--data_timeout == 0) return -1;], with
    [timeout] one less than [data_timeout]. *)
Fixpoint wait_data_token (timeout : nat) (b : B) : result (bool * B) :=
  '(result, b) <-- spi_transfer 0xff b;;
  if result =? DATA_TOKEN then Done (true, b)
  else match timeout with O => Done (false, b) | S timeout' => wait_data_token timeout' b end.

(** The [char] stored in [ptr[i]] is the low byte of what [spi_transfer(0xff)] returns. *)
Fixpoint receive_bytes (count : nat) (b : B) : result (list Z * B) :=
  match count with
  | O => Done ([], b)
  | S count' =>
      '(byte, b) <-- spi_transfer 0xff b;;
      '(bytes, b) <-- receive_bytes count' b;;
      Done (u8 byte :: bytes, b)
  end.

(** [None] is the result -1, and [ptr] is then as it was. *)
Definition read_sdmmc_device (block_address : Z) (b : B) : result (option (list Z) * B) :=
  '(result, b) <-- send_sd_command CMD_READ_SINGLE_BLOCK block_address b;;
  if negb (result =? 0) then Done (None, b)
  else
    '(found, b) <-- wait_data_token (Z.to_nat 9999) b;;
    if negb found then Done (None, b)
    else
      '(bytes, b) <-- receive_bytes (Z.to_nat SDMMC_BLOCK_SIZE) b;;
      b <-- send_bytes [0xff; 0xff] b;;
      Done (Some bytes, b).

(** [bytes] is what [ptr] points to; a buffer shorter than a block is read past its end. *)
Definition write_sdmmc_device (block_address : Z) (bytes : list Z) (b : B) : result (Z * B) :=
  '(result, b) <-- send_sd_command CMD_WRITE_SINGLE_BLOCK block_address b;;
  if negb (result =? 0) then Done (-1, b)
  else if Z.of_nat (length bytes) <? SDMMC_BLOCK_SIZE then Fault OutOfBounds
  else
    b <-- send_bytes [DATA_TOKEN] b;;
    b <-- send_bytes (take (Z.to_nat SDMMC_BLOCK_SIZE) bytes) b;;
    b <-- send_bytes [0xff; 0xff] b;;
    '(result, b) <-- spi_transfer 0xff b;;
    if negb (Z.land result 0x1f =? 0x05) then Done (-1, b)
    else Done (SDMMC_BLOCK_SIZE, b).
End driver.

(** ** The checksum *)

(** CRC-7 one bit at a time: the generator is x^7 + x^3 + 1. *)
Definition crc7_bit (crc : Z) (bit : bool) : Z :=
  let shifted := Z.land (Z.shiftl crc 1) 0x7f in
  if xorb (Z.testbit crc 6) bit then Z.lxor shifted 0x09 else shifted.

(** The bits of a byte, the highest first. *)
Definition byte_bits (byte : Z) : list bool := map (Z.testbit byte) [7; 6; 5; 4; 3; 2; 1; 0].

Definition crc7_bits (crc : Z) (bytes : list Z) : Z := foldl crc7_bit crc (bytes ≫= byte_bits).

Definition is_u7 (z : Z) : Prop := is_unsigned 7 z.

Definition crc7_step_agrees (crc byte : nat) : bool :=
  let expected := foldl crc7_bit (Z.of_nat crc) (byte_bits (Z.of_nat byte)) in
  match crc7_step (Z.of_nat crc) (Z.of_nat byte) with
  | Done c => (c =? expected) && (0 <=? c) && (c <? 128)
  | Fault _ => false
  end.

Lemma crc7_steps_agree :
  forallb (fun crc => forallb (crc7_step_agrees crc) (seq 0 256)) (seq 0 128) = true.
Proof. vm_cast_no_check (eq_refl true). Qed.

Lemma crc7_step_bits crc byte :
  is_u7 crc -> is_u8 byte ->
  crc7_step crc byte = Done (foldl crc7_bit crc (byte_bits byte))
  /\ is_u7 (foldl crc7_bit crc (byte_bits byte)).
Proof.
  intros Hc Hb. pose proof (proj1 (forallb_forall _ _) crc7_steps_agree (Z.to_nat crc)) as H.
  rewrite in_seq in H. specialize (H ltac:(destruct Hc; lia)).
  pose proof (proj1 (forallb_forall _ _) H (Z.to_nat byte)) as H'.
  rewrite in_seq in H'. specialize (H' ltac:(destruct Hb; lia)). unfold crc7_step_agrees in H'.
  destruct Hc, Hb. rewrite !Z2Nat.id in H' by lia.
  destruct (crc7_step crc byte); [|done]. bool_to_prop. subst. done.
Qed.

Lemma crc7_bits_range crc bytes :
  is_u7 crc -> Forall is_u8 bytes ->
  crc7 crc bytes = Done (crc7_bits crc bytes) /\ is_u7 (crc7_bits crc bytes).
Proof.
  intros Hc Hb. revert crc Hc. induction Hb as [|byte bytes Hbyte _ IH]; intros crc Hc; [done|].
  unfold crc7_bits. rewrite bind_cons, foldl_app. cbn [crc7].
  destruct (crc7_step_bits crc byte Hc Hbyte) as [-> Hr]. by apply IH.
Qed.

Lemma command_encoding_bytes command parameter : Forall is_u8 (command_encoding command parameter).
Proof.
  unfold command_encoding. repeat (constructor; try apply is_u8_land_255).
  - destruct command; vm_compute; congruence.
  - destruct command; vm_compute; congruence.
Qed.

(** ** A run of the bus *)

Section runs.
Context {B : Type} `{!Registers B}.

Fixpoint spi_transfers (values : list Z) (b : B) : result (list Z * B) :=
  match values with
  | [] => Done ([], b)
  | v :: rest =>
      '(r, b) <-- spi_transfer v b;;
      '(rs, b) <-- spi_transfers rest b;;
      Done (r :: rs, b)
  end.

(** Sending [values] returns [received]. *)
Definition transferred (b : B) (values received : list Z) (b' : B) : Prop :=
  spi_transfers values b = Done (received, b').

Lemma transferred_cons_inv b v values r received b' :
  transferred b (v :: values) (r :: received) b' ->
  exists b1, spi_transfer v b = Done (r, b1) /\ transferred b1 values received b'.
Proof.
  unfold transferred. simpl. intros H.
  apply bind_Done_inv in H as [[r' b1] [H1 H]]. apply bind_Done_inv in H as [[rs b2] [H2 H]].
  injection H as <- <- <-. by exists b1.
Qed.

Lemma transferred_length b values received b' :
  transferred b values received b' -> length received = length values.
Proof.
  revert b received. induction values as [|v values IH]; intros b received H.
  - by injection H as <- _.
  - apply bind_Done_inv in H as [[r b1] [_ H]]. apply bind_Done_inv in H as [[rs b2] [H2 H]].
    injection H as <- <-. simpl. by rewrite (IH _ _ H2).
Qed.

Lemma transferred_app_inv b v1 v2 r1 r2 b' :
  length r1 = length v1 -> transferred b (v1 ++ v2) (r1 ++ r2) b' ->
  exists b1, transferred b v1 r1 b1 /\ transferred b1 v2 r2 b'.
Proof.
  revert b r1. induction v1 as [|v v1 IH]; intros b [|r r1] Hl H; try discriminate Hl.
  - by exists b.
  - apply transferred_cons_inv in H as (b1 & H1 & H). injection Hl as Hl.
    destruct (IH b1 r1 Hl H) as (b2 & H2 & H3). exists b2. split; [|done].
    unfold transferred in *. simpl. rewrite H1. simpl. by rewrite H2.
Qed.

(** What each of the driver's loops makes of a run. *)

Lemma send_bytes_transferred b values received b' :
  transferred b values received b' -> send_bytes values b = Done b'.
Proof.
  revert b received. induction values as [|v values IH]; intros b received H.
  - by injection H as _ <-.
  - apply bind_Done_inv in H as [[r b1] [H1 H]]. apply bind_Done_inv in H as [[rs b2] [H2 H]].
    injection H as <- <-. simpl. rewrite H1. simpl. by eapply IH.
Qed.

Lemma receive_bytes_transferred b count received b' :
  transferred b (replicate count 0xff) received b' ->
  receive_bytes count b = Done (map u8 received, b').
Proof.
  revert b received. induction count as [|count IH]; intros b received H.
  - by injection H as <- <-.
  - apply bind_Done_inv in H as [[r b1] [H1 H]]. apply bind_Done_inv in H as [[rs b2] [H2 H]].
    injection H as <- <-. simpl. rewrite H1. simpl. by rewrite (IH _ _ H2).
Qed.

Lemma read_response_transferred b d r retries b' :
  transferred b (replicate (d + 1) 0xff) (replicate d 0xff ++ [r]) b' ->
  r <> 0xff -> (d <= retries)%nat -> read_response retries b = Done (r, b').
Proof.
  revert b retries. induction d as [|d IH]; intros b retries H Hr Hd.
  - apply transferred_cons_inv in H as (b1 & H1 & H). injection H as <-.
    destruct retries; simpl; rewrite H1; simpl; [done|]. by rewrite (proj2 (Z.eqb_neq _ _) Hr).
  - apply transferred_cons_inv in H as (b1 & H1 & H). destruct retries as [|retries]; [lia|].
    simpl. rewrite H1. simpl. apply IH; [exact H|done|lia].
Qed.

Lemma wait_data_token_transferred b d timeout b' :
  transferred b (replicate (d + 1) 0xff) (replicate d 0xff ++ [DATA_TOKEN]) b' ->
  (d <= timeout)%nat -> wait_data_token timeout b = Done (true, b').
Proof.
  revert b timeout. induction d as [|d IH]; intros b timeout H Hd.
  - apply transferred_cons_inv in H as (b1 & H1 & H). injection H as <-.
    destruct timeout; simpl; by rewrite H1.
  - apply transferred_cons_inv in H as (b1 & H1 & H). destruct timeout as [|timeout]; [lia|].
    simpl. rewrite H1. simpl. apply IH; [exact H|lia].
Qed.

(** The six bytes [send_sd_command] sends. *)
Definition sent_command (c : sd_command) (parameter : Z) : list Z :=
  command_encoding c parameter
  ++ [Z.lor (Z.shiftl (crc7_bits 0 (command_encoding c parameter)) 1) 1].

Lemma send_sd_command_transferred c parameter b ignored d r b1 b' :
  transferred b (sent_command c parameter) ignored b1 ->
  transferred b1 (replicate (d + 1) 0xff) (replicate d 0xff ++ [r]) b' ->
  r <> 0xff -> (d <= MAX_RETRIES)%nat ->
  send_sd_command c parameter b = Done (r, b').
Proof.
  intros H1 H2 Hr Hd. unfold send_sd_command.
  destruct (crc7_bits_range 0 (command_encoding c parameter)) as [-> _];
    [by split|apply command_encoding_bytes|].
  rewrite <- (take_drop 5 ignored) in H1.
  pose proof (transferred_length _ _ _ _ H1) as Hl. rewrite take_drop in Hl.
  apply transferred_app_inv in H1 as (b2 & H1 & H3).
  - cbn [bind_result]. rewrite (send_bytes_transferred _ _ _ _ H1). cbn [bind_result].
    rewrite (send_bytes_transferred _ _ _ _ H3). by apply (read_response_transferred _ d).
  - rewrite length_take, Hl. done.
Qed.
End runs.

(** It is a packet with some checksum. *)
Lemma sent_command_packet c parameter :
  exists crc, is_u8 crc /\ sent_command c parameter = command_packet c parameter crc.
Proof.
  exists (Z.lor (Z.shiftl (crc7_bits 0 (command_encoding c parameter)) 1) 1). split.
  - destruct (crc7_bits_range 0 (command_encoding c parameter)) as [_ [H0 H1]];
      [by split|apply command_encoding_bytes|].
    rewrite lor_shiftl_add; [|done|by split]. change (2 ^ 7) with 128 in H1. split; lia.
  - unfold sent_command, command_packet, argument_bytes. by destruct c.
Qed.

Lemma command_packet_bytes c parameter crc :
  is_u8 crc ->
  Forall is_u8 (command_packet c parameter crc) /\ length (command_packet c parameter crc) = 6%nat.
Proof.
  intros Hcrc. split; [|done]. unfold command_packet, argument_bytes. simpl.
  repeat (apply List.Forall_cons;
    [first [by apply u8_extract | exact Hcrc | by destruct c]|]). apply Forall_nil_2.
Qed.

(** ** What a card promises *)

(** A checksum is only looked at in the first commands, so any is accepted. *)
Class SdCard (B : Type) `{!Registers B} := {
  (** [card_off file b]: the card was just switched on, and holds [file]. *)
  card_off : list Z -> B -> Prop;
  (** [card_file file b]: the card behind the registers is initialised and holds [file]. *)
  card_file : list Z -> B -> Prop;
  card_bytes : forall file b, card_file file b -> Forall is_u8 file;
  card_init : forall file b, card_off file b ->
    exists b', init_sdmmc_device b = Done (0, b') /\ card_file file b';
  (** A block of the file is read with CMD17: 0, the data token, the bytes, a checksum. *)
  card_read : forall file b block crc,
    card_file file b -> is_u8 crc -> 0 <= block -> (block + 1) * SDMMC_BLOCK_SIZE <= Z.of_nat (length file) ->
    Z.of_nat (length file) <= 2 ^ 32 ->
    exists ignored d1 d2 data checksum b1 b2 b3 b4 b5,
      (d1 <= MAX_RETRIES)%nat /\ (d2 <= Z.to_nat 9999)%nat /\
      transferred b (command_packet CMD_READ_SINGLE_BLOCK block crc) ignored b1 /\
      transferred b1 (replicate (d1 + 1) 0xff) (replicate d1 0xff ++ [0]) b2 /\
      transferred b2 (replicate (d2 + 1) 0xff) (replicate d2 0xff ++ [DATA_TOKEN]) b3 /\
      transferred b3 (replicate (Z.to_nat SDMMC_BLOCK_SIZE) 0xff) data b4 /\
      transferred b4 [0xff; 0xff] checksum b5 /\
      map u8 data = read_file (block * SDMMC_BLOCK_SIZE) SDMMC_BLOCK_SIZE file /\
      card_file file b5;
  (** A block is written with CMD24: 0, the data token and the bytes sent, answered by 5. *)
  card_write : forall file b block data,
    card_file file b -> 0 <= block -> block * SDMMC_BLOCK_SIZE < 2 ^ 32 ->
    Forall is_u8 data -> Z.of_nat (length data) = SDMMC_BLOCK_SIZE ->
    exists ignored d token answers checksum response b1 b2 b3 b4 b5 b6,
      (d <= MAX_RETRIES)%nat /\
      transferred b (sent_command CMD_WRITE_SINGLE_BLOCK block) ignored b1 /\
      transferred b1 (replicate (d + 1) 0xff) (replicate d 0xff ++ [0]) b2 /\
      transferred b2 [DATA_TOKEN] token b3 /\
      transferred b3 data answers b4 /\
      transferred b4 [0xff; 0xff] checksum b5 /\
      transferred b5 [0xff] [response] b6 /\ Z.land response 0x1f = 5 /\
      card_file (write_file (block * SDMMC_BLOCK_SIZE) data file) b6
}.

Section card.
Context {B : Type} `{SdCard B}.

Lemma read_block_of_card file b block :
  card_file file b -> 0 <= block -> (block + 1) * SDMMC_BLOCK_SIZE <= Z.of_nat (length file) ->
  Z.of_nat (length file) <= 2 ^ 32 ->
  exists b', read_sdmmc_device block b
    = Done (Some (read_file (block * SDMMC_BLOCK_SIZE) SDMMC_BLOCK_SIZE file), b')
    /\ card_file file b'.
Proof.
  intros Hb H0 Hlen Hmax.
  destruct (sent_command_packet CMD_READ_SINGLE_BLOCK block) as (crc & Hcrc & Hsent).
  destruct (card_read file b block crc Hb Hcrc H0 Hlen Hmax) as (ignored & d1 & d2 & data & checksum
    & b1 & b2 & b3 & b4 & b5 & Hd1 & Hd2 & T1 & T2 & T3 & T4 & T5 & <- & Hb5).
  rewrite <- Hsent in T1. exists b5. split; [|done]. unfold read_sdmmc_device.
  rewrite (send_sd_command_transferred _ _ _ _ _ _ _ _ T1 T2) by done. cbn [bind_result].
  cbn [Z.eqb negb]. rewrite (wait_data_token_transferred _ _ _ _ T3 Hd2). cbn [bind_result negb].
  rewrite (receive_bytes_transferred _ _ _ _ T4). cbn [bind_result].
  by rewrite (send_bytes_transferred _ _ _ _ T5).
Qed.

Lemma write_block_of_card file b block data :
  card_file file b -> 0 <= block -> block * SDMMC_BLOCK_SIZE < 2 ^ 32 ->
  Forall is_u8 data -> Z.of_nat (length data) = SDMMC_BLOCK_SIZE ->
  exists b', write_sdmmc_device block data b = Done (SDMMC_BLOCK_SIZE, b')
    /\ card_file (write_file (block * SDMMC_BLOCK_SIZE) data file) b'.
Proof.
  intros Hb H0 Hmax Hdata Hlen.
  destruct (card_write file b block data Hb H0 Hmax Hdata Hlen) as (ignored & d & token & answers
    & checksum & response & b1 & b2 & b3 & b4 & b5 & b6 & Hd & T1 & T2 & T3 & T4 & T5 & T6 & Hr
    & Hb6).
  exists b6. split; [|done]. unfold write_sdmmc_device.
  rewrite (send_sd_command_transferred _ _ _ _ _ _ _ _ T1 T2) by done. cbn [bind_result].
  cbn [Z.eqb negb]. rewrite Hlen, Z.ltb_irrefl.
  rewrite (send_bytes_transferred _ _ _ _ T3). cbn [bind_result].
  rewrite take_ge by lia. rewrite (send_bytes_transferred _ _ _ _ T4). cbn [bind_result].
  rewrite (send_bytes_transferred _ _ _ _ T5). cbn [bind_result].
  apply transferred_cons_inv in T6 as (b7 & T6 & T7). injection T7 as <-. rewrite T6.
  cbn [bind_result]. rewrite Hr. done.
Qed.
End card.

(** ** The emulator's card *)

Definition REGISTERS : Z := 0xffff0000.

(** The registers of the emulated program; the interrupt lines a read clears are those of
    the serial port and the keyboard.  The emulator's status register always reads 1. *)
#[export]
Instance emulator_registers : Registers devices := {
  register_write r v d := write_register (REGISTERS + r) v d;
  register_read r d := let '(v, _, d) := read_register (REGISTERS + r) d in Done (v, d);
  register_polls := 1
}.

Lemma s32_u32_int v : -128 <= v <= 255 -> s32 (u32 v) = v.
Proof.
  intros Hv. rewrite signed_u32. apply s32_small. change (2 ^ 31) with 2147483648. lia.
Qed.

Lemma emulator_spi_transfer v r card d :
  is_u8 v -> transfer_sdmmc_byte v (sd_card d) = Done (r, card) -> -128 <= r <= 255 ->
  spi_transfer v d = Done (r, d <| last_sdmmc_response := r |> <| sd_card := card |>).
Proof.
  intros Hv Ht Hr. unfold spi_transfer.
  assert (Hm : Z.land v 0xff = v).
  { change 0xff with (Z.ones 8). rewrite Z.land_ones by lia. by apply Z.mod_small. }
  rewrite Hm. simpl. change (write_register (REGISTERS + REG_SD_SPI_WRITE) v d)
    with ('(response, card) <-- transfer_sdmmc_byte (s32 v) (sd_card d);;
      Done (d <| last_sdmmc_response := response |> <| sd_card := card |>)).
  rewrite <- (Z.mod_small v (2 ^ 32)) at 1 by (destruct Hv; lia).
  change (v mod 2 ^ 32) with (u32 v). rewrite s32_u32_int by (destruct Hv; lia).
  rewrite Ht. cbn [bind_result]. simpl. by rewrite s32_u32_int.
Qed.

Lemma emulator_transferred d sent received s' :
  Forall is_u8 sent -> card_wf (sd_card d) -> exchange (sd_card d) sent received s' ->
  exists d', transferred d sent received d' /\ sd_card d' = s'.
Proof.
  intros Hs. revert d received. induction Hs as [|v sent Hv _ IH]; intros d received Hwf He.
  - injection He as <- <-. by exists d.
  - apply bind_Done_inv in He as [[r s1] [H1 He]]. apply bind_Done_inv in He as [[rs s2] [H2 He]].
    injection He as <- <-. pose proof (transfer_sdmmc_byte_wf v _ Hwf) as Hb. rewrite H1 in Hb.
    destruct Hb as [Hr Hw].
    set (d1 := d <| last_sdmmc_response := r |> <| sd_card := s1 |>).
    destruct (IH d1 rs Hw H2) as (d' & Ht & Hd').
    exists d'. split; [|done]. unfold transferred in *. cbn [spi_transfers].
    rewrite (emulator_spi_transfer v r s1 d Hv H1 Hr). fold d1. cbn [bind_result]. by rewrite Ht.
Qed.

Lemma u8_s8_bytes bytes : Forall is_u8 bytes -> map u8 (map s8 bytes) = bytes.
Proof.
  induction 1 as [|v bytes [H0 H1] _ IH]; [done|]. simpl. rewrite IH. f_equal.
  unfold u8, s8. rewrite signed_mod by done. by apply Z.mod_small.
Qed.

Lemma fillers_bytes n : Forall is_u8 (replicate n 0xff).
Proof. by apply Forall_replicate. Qed.

(** The emulator's card is initialised, has blocks of 512 bytes and holds [file]. *)
Definition emulator_card_file (file : list Z) (d : devices) : Prop :=
  card_ready (sd_card d) /\ block_fd (sd_card d) = Some file
  /\ block_length (sd_card d) = SDMMC_BLOCK_SIZE.

(** Cuts the next [n] bytes off a run. *)
Ltac cut_run T T' :=
  let b := fresh "b" in
  apply transferred_app_inv in T as (b & T & T');
  [|by rewrite ?length_app, ?length_replicate, ?length_map].

Lemma emulator_read file d block crc :
  emulator_card_file file d -> is_u8 crc -> 0 <= block ->
  (block + 1) * SDMMC_BLOCK_SIZE <= Z.of_nat (length file) -> Z.of_nat (length file) <= 2 ^ 32 ->
  exists ignored d1 d2 data checksum b1 b2 b3 b4 b5,
    (d1 <= MAX_RETRIES)%nat /\ (d2 <= Z.to_nat 9999)%nat /\
    transferred d (command_packet CMD_READ_SINGLE_BLOCK block crc) ignored b1 /\
    transferred b1 (replicate (d1 + 1) 0xff) (replicate d1 0xff ++ [0]) b2 /\
    transferred b2 (replicate (d2 + 1) 0xff) (replicate d2 0xff ++ [DATA_TOKEN]) b3 /\
    transferred b3 (replicate (Z.to_nat SDMMC_BLOCK_SIZE) 0xff) data b4 /\
    transferred b4 [0xff; 0xff] checksum b5 /\
    map u8 data = read_file (block * SDMMC_BLOCK_SIZE) SDMMC_BLOCK_SIZE file /\
    emulator_card_file file b5.
Proof.
  intros (Hready & Hfd & Hbl) Hcrc H0 Hlen Hmax.
  destruct (command_packet_bytes CMD_READ_SINGLE_BLOCK block crc Hcrc) as [Hbytes Hsix]. pose proof (ready_wf _ Hready) as Hwf.
  assert (Hrange : block_in_range (sd_card d) block).
  { unfold block_in_range. rewrite Hbl. unfold SDMMC_BLOCK_SIZE in *.
    change (2 ^ 32) with 4294967296 in *. repeat split; lia. }
  destruct (exchange_read_block (sd_card d) block crc 0xff file Hready Hcrc Hfd Hrange) as
    (d1 & d2 & s' & Hd1 & Hd2 & He & Hready' & Hfd' & Hbl'); [by rewrite Hbl|].
  rewrite Hbl in He.
  set (got := read_file _ _ file) in *.
  assert (Hgot : length got = Z.to_nat SDMMC_BLOCK_SIZE).
  { pose proof (read_file_length (block * SDMMC_BLOCK_SIZE) SDMMC_BLOCK_SIZE file) as H.
    unfold SDMMC_BLOCK_SIZE in *. fold got in H. lia. }
  assert (Hu8 : Forall is_u8 got).
  { apply Forall_take, Forall_drop. by apply (wf_file (sd_card d)). }
  apply emulator_transferred in He as (d' & T & Hd'); [|repeat apply Forall_app_2|done];
    [|exact Hbytes|apply fillers_bytes..|by repeat constructor].
  cut_run T T2. cut_run T2 T3. cut_run T3 T4. cut_run T4 T5.
  exists (replicate 6 0xff), d1, d2, (map s8 got), [0xff; 0xff], b, b0, b1, b2, d'.
  unfold MAX_RETRIES. do 2 (split; [lia|]). do 5 (split; [done|]).
  split; [by apply u8_s8_bytes|]. unfold emulator_card_file. rewrite Hd'. split; [done|].
  split; [done|]. by rewrite Hbl'.
Qed.

Lemma emulator_write file d block data :
  emulator_card_file file d -> 0 <= block -> block * SDMMC_BLOCK_SIZE < 2 ^ 32 ->
  Forall is_u8 data -> Z.of_nat (length data) = SDMMC_BLOCK_SIZE ->
  exists ignored n token answers checksum response b1 b2 b3 b4 b5 b6,
    (n <= MAX_RETRIES)%nat /\
    transferred d (sent_command CMD_WRITE_SINGLE_BLOCK block) ignored b1 /\
    transferred b1 (replicate (n + 1) 0xff) (replicate n 0xff ++ [0]) b2 /\
    transferred b2 [DATA_TOKEN] token b3 /\
    transferred b3 data answers b4 /\
    transferred b4 [0xff; 0xff] checksum b5 /\
    transferred b5 [0xff] [response] b6 /\ Z.land response 0x1f = 5 /\
    emulator_card_file (write_file (block * SDMMC_BLOCK_SIZE) data file) b6.
Proof.
  intros (Hready & Hfd & Hbl) H0 Hmax Hdata Hlen.
  destruct (sent_command_packet CMD_WRITE_SINGLE_BLOCK block) as (crc & Hcrc & Hsent).
  rewrite Hsent. destruct (command_packet_bytes CMD_WRITE_SINGLE_BLOCK block crc Hcrc) as [Hbytes Hsix]. pose proof (ready_wf _ Hready) as Hwf.
  assert (Hrange : block_in_range (sd_card d) block).
  { unfold block_in_range. rewrite Hbl. unfold SDMMC_BLOCK_SIZE in *.
    change (2 ^ 32) with 4294967296 in *. repeat split; lia. }
  destruct (exchange_write_block (sd_card d) block crc 0xff file data 0xff 0xff Hready Hcrc Hfd
    Hrange Hdata) as (n & s' & Hn & He & Hready' & Hfd' & Hbl'); [by rewrite Hbl|].
  rewrite Hbl in Hfd'.
  apply emulator_transferred in He as (d' & T & Hd'); [|repeat apply Forall_app_2|done];
    [|exact Hbytes|apply fillers_bytes|by repeat constructor|exact Hdata|by repeat constructor..].
  cut_run T T2. cut_run T2 T3. cut_run T3 T4. cut_run T4 T5. cut_run T5 T6.
  exists (replicate 6 0xff), n, [0xff], (replicate (length data) 0xff), [0xff; 0xff], 5,
    b, b0, b1, b2, b3, d'.
  unfold MAX_RETRIES. split; [lia|]. do 7 (split; [done|]).
  unfold emulator_card_file. rewrite Hd'. split; [done|]. split; [done|]. by rewrite Hbl'.
Qed.

Lemma emulator_bytes file d : emulator_card_file file d -> Forall is_u8 file.
Proof. intros (Hready & Hfd & _). by apply (wf_file (sd_card d) (ready_wf _ Hready)). Qed.

(** The devices when the emulator starts, with the file [-b] names if there is one. *)
Definition powered_on (random : Random.state) (file : option (list Z)) (d : devices) : Prop :=
  sd_card d = (open_sdmmc_device file (sdmmc_init random)).2.

Lemma init_with_card random file d :
  Random.wf random -> Forall is_u8 file -> powered_on random (Some file) d ->
  exists d', init_sdmmc_device d = Done (0, d') /\ emulator_card_file file d'.
Proof.
  intros Hr Hf Hd. unfold powered_on in Hd. destruct d. simpl in Hd. subst.
  eexists. split; [vm_compute; reflexivity|].
  split; [|done]. constructor; try done. constructor; simpl; try done.
  - by intros file' [= <-].
  - split; [done|]. by repeat constructor.
  - exact (malloc_bytes 512).
Qed.

Definition emulator_card_off (file : list Z) (d : devices) : Prop :=
  exists random, Random.wf random /\ Forall is_u8 file /\ powered_on random (Some file) d.

Lemma emulator_init file d :
  emulator_card_off file d ->
  exists d', init_sdmmc_device d = Done (0, d') /\ emulator_card_file file d'.
Proof. intros (random & Hr & Hf & Hd). by apply (init_with_card random). Qed.

#[export]
Instance emulator_card : SdCard devices := {
  card_off := emulator_card_off;
  card_file := emulator_card_file;
  card_init := emulator_init;
  card_bytes := emulator_bytes;
  card_read := emulator_read;
  card_write := emulator_write
}.

(** ** Properties *)

Lemma init_without_card random d :
  powered_on random None d -> init_sdmmc_device d = Fault HostExit.
Proof.
  intros Hd. unfold powered_on in Hd. destruct d. simpl in Hd. subst. vm_compute. reflexivity.
Qed.

(** Initialising the emulated card from power-up.  With a block device file,
    init_sdmmc_device returns 0 and leaves a card that is ready, has blocks of 512 bytes
    and holds the file.  Without one it does not return -1: the card model keeps
    collecting the bytes of the driver's polling as a command and ends the emulator. *)
Theorem init_emulated_card random file d :
  Random.wf random -> file_of_bytes file -> powered_on random file d ->
  match file with
  | Some bytes => exists d', init_sdmmc_device d = Done (0, d') /\ card_file bytes d'
  | None => init_sdmmc_device d = Fault HostExit
  end.
Proof.
  intros Hr Hf Hd. destruct file as [bytes|]; [|by apply (init_without_card random)].
  apply (init_with_card random); auto.
Qed.

(** C12: a block written with the driver is read back with it, whatever card keeps the
    promises of [SdCard]: write_sdmmc_device returns 512, read_sdmmc_device then gives the
    512 bytes that were written, and the card holds the file with that block replaced. *)
Theorem driver_write_read {B} `{SdCard B} file b block data :
  card_file file b -> 0 <= block -> (block + 1) * SDMMC_BLOCK_SIZE <= Z.of_nat (length file) ->
  Z.of_nat (length file) <= 2 ^ 32 -> Forall is_u8 data ->
  Z.of_nat (length data) = SDMMC_BLOCK_SIZE ->
  exists b1 b2,
    write_sdmmc_device block data b = Done (SDMMC_BLOCK_SIZE, b1) /\
    read_sdmmc_device block b1 = Done (Some data, b2) /\
    card_file (write_file (block * SDMMC_BLOCK_SIZE) data file) b2.
Proof.
  intros Hb H0 Hlen Hmax Hdata Hn.
  destruct (write_block_of_card file b block data Hb H0 ltac:(unfold SDMMC_BLOCK_SIZE in *; lia)
    Hdata Hn) as (b1 & Hw & Hb1).
  assert (Hlen1 : length (write_file (block * SDMMC_BLOCK_SIZE) data file) = length file).
  { rewrite write_file_length; unfold SDMMC_BLOCK_SIZE in *; lia. }
  destruct (read_block_of_card _ b1 block Hb1 H0) as (b2 & Hr & Hb2); [by rewrite Hlen1..|].
  exists b1, b2. split; [done|]. split; [|done]. rewrite Hr. do 3 f_equal.
  rewrite <- Hn at 2. apply read_write_file. unfold SDMMC_BLOCK_SIZE. lia.
Qed.

(** The 256 entries of CRC7_TABLE and the loop of send_sd_command compute the CRC-7
    of the SD specification, generator x^7 + x^3 + 1, bit by bit from the highest: for
    any bytes the table is never indexed past its end and the checksum is the bitwise one. *)
Theorem crc7_table_correct bytes :
  Forall is_u8 bytes -> crc7 0 bytes = Done (crc7_bits 0 bytes).
Proof. intros Hb. by apply crc7_bits_range. Qed.

(** The packet of the reset command ends in 0x95. *)
Lemma crc7_table_correct_witness :
  crc7 0 (command_encoding CMD_GO_IDLE_STATE 0) = Done 0x4a
  /\ sent_command CMD_GO_IDLE_STATE 0 = [0x40; 0; 0; 0; 0; 0x95].
Proof.
  split; [|reflexivity].
  exact (crc7_table_correct _ (command_encoding_bytes CMD_GO_IDLE_STATE 0)).
Defined.

(** The emulator with a block device of two blocks of zeros, just started. *)
Definition started (file : option (list Z)) : devices :=
  devices_init (open_sdmmc_device file (sdmmc_init (Random.seed_random 1))).2 false.

Definition two_blocks : list Z := replicate 1024 0.

Lemma two_blocks_bytes : Forall is_u8 two_blocks.
Proof. by apply Forall_replicate. Qed.

Lemma init_emulated_card_witness :
  (exists d', init_sdmmc_device (started (Some two_blocks)) = Done (0, d')
    /\ card_file two_blocks d')
  /\ init_sdmmc_device (started None) = Fault HostExit.
Proof.
  assert (Hr : Random.wf (Random.seed_random 1)) by (split; vm_decide).
  split.
  - apply (init_emulated_card (Random.seed_random 1) (Some two_blocks)); [exact Hr| |reflexivity].
    intros bytes [= <-]. exact two_blocks_bytes.
  - apply (init_emulated_card (Random.seed_random 1) None); [exact Hr| |reflexivity].
    intros bytes. discriminate.
Defined.

Lemma driver_write_read_witness :
  exists d b1 b2,
    init_sdmmc_device (started (Some two_blocks)) = Done (0, d) /\
    write_sdmmc_device 1 (replicate 512 0xa5) d = Done (SDMMC_BLOCK_SIZE, b1) /\
    read_sdmmc_device 1 b1 = Done (Some (replicate 512 0xa5), b2) /\
    card_file (write_file 512 (replicate 512 0xa5) two_blocks) b2.
Proof.
  assert (Hr : Random.wf (Random.seed_random 1)) by (split; vm_decide).
  destruct (init_with_card (Random.seed_random 1) two_blocks (started (Some two_blocks)) Hr
    two_blocks_bytes eq_refl) as (d & Hi & Hd). change (card_file two_blocks d) in Hd.
  assert (Hdata : Forall is_u8 (replicate 512 0xa5)) by (apply Forall_replicate; by split).
  destruct (driver_write_read two_blocks d 1 (replicate 512 0xa5) Hd) as (b1 & b2 & Hw & Hrd & Hb2).
  - lia.
  - vm_compute. congruence.
  - vm_compute. congruence.
  - exact Hdata.
  - reflexivity.
  - exists d, b1, b2. split; [exact Hi|]. split; [exact Hw|]. split; [exact Hrd|exact Hb2].
Defined.
