(* ===== verification/Mkfs.v ===== *)
(** * Mkfs: the disk image builder (tools/mkfs/mkfs.c)

    The header is the byte array [malloc] returns, with whatever it holds at first; a file
    is the list of its bytes, written where [fseek] put the position (Sdmmc's
    [write_file]).  Standard output is left out. *)

From S2P Require Export Sdmmc.

#[local] Open Scope Z_scope.

Definition FS_NAME_LEN : Z := 32.
Definition BLOCK_SIZE : Z := 512.
(** ["spfs"] *)
Definition FS_MAGIC : list Z := [0x73; 0x70; 0x66; 0x73].
Definition ROUND_UP (x y : Z) : Z := (x + y - 1) / y * y.

(** ** The layout

    [struct directory_entry] is two words and the name, [struct fs_header] the magic
    number, the count and the first entry; both machines are little-endian. *)

Definition sizeof_directory_entry : Z := 8 + FS_NAME_LEN.
Definition sizeof_fs_header : Z := 8 + sizeof_directory_entry.
Definition magic_at : Z := 0.
Definition num_directory_entries_at : Z := 4.
Definition start_offset_at (index : Z) : Z := 8 + index * sizeof_directory_entry.
Definition length_at (index : Z) : Z := start_offset_at index + 4.
Definition name_at (index : Z) : Z := start_offset_at index + 8.

Definition word_bytes (v : Z) : list Z := map (fun i => u8 (Z.shiftr v (8 * i))) [0; 1; 2; 3].

Definition bytes_word (bytes : list Z) : Z :=
  foldr (fun byte rest => byte + 256 * rest) 0 bytes.

Definition load32 (at_ : Z) (bytes : list Z) : Z := bytes_word (read_file at_ 4 bytes).

(** A store into an object is inside it. *)
Definition store (at_ : Z) (bytes object : list Z) : result (list Z) :=
  if at_ + Z.of_nat (length bytes) <=? Z.of_nat (length object) then
    Done (write_file at_ bytes object)
  else Fault OutOfBounds.

(** ** Names *)

(** [while (begin > full_path && begin[-1] != '/') begin--] *)
Fixpoint name_begin (full_path : list Z) (begin : nat) : nat :=
  match begin with
  | O => O
  | S before => if full_path !!! before =? 47 then begin else name_begin full_path before
  end.

(** What [strcpy] stores in [out_name], which has room for 32 characters. *)
Definition normalize_file_name (full_path : list Z) : result (list Z) :=
  match full_path with
  | [] => Fault OutOfBounds
  | _ =>
      let last := (length full_path - 1)%nat in
      let begin := name_begin full_path last in
      let begin := if FS_NAME_LEN - 1 <? Z.of_nat (last - begin)
                   then (last - Z.to_nat (FS_NAME_LEN - 1))%nat else begin in
      let copied := drop begin full_path ++ [0] in
      if Z.of_nat (length copied) <=? FS_NAME_LEN then Done copied else Fault OutOfBounds
  end.

(** ** The program *)

(** An argument: the path and, when [stat] and [fopen] succeed, the file. *)
Record source_file := { path : list Z; contents : option (list Z) }.

(** [st.st_size] as an [unsigned int]. *)
Definition file_size (bytes : list Z) : Z := u32 (Z.of_nat (length bytes)).

(** The directory loop; [None] is an exit with 1. *)
Fixpoint build_directory (file_index file_offset : Z) (files : list source_file)
    (header : list Z) : result (option (list Z)) :=
  match files with
  | [] => Done (Some header)
  | file :: rest =>
      match contents file with
      | None => Done None
      | Some bytes =>
          header <-- store (start_offset_at file_index) (word_bytes file_offset) header;;
          header <-- store (length_at file_index) (word_bytes (file_size bytes)) header;;
          name <-- normalize_file_name (path file);;
          header <-- store (name_at file_index) name header;;
          let file_offset := u32 (u32 (file_offset + file_size bytes + BLOCK_SIZE - 1) / BLOCK_SIZE
                                  * BLOCK_SIZE) in
          build_directory (file_index + 1) file_offset rest header
      end
  end.

(** [while (left_to_copy > 0)]: the output position and the output; [None] when [fread]
    gets less than a slice. *)
Fixpoint copy_slices (fuel : nat) (left_to_copy : Z) (source : list Z) (position : Z)
    (output : list Z) : result (option (Z * list Z)) :=
  if 0 <? left_to_copy then
    match fuel with
    | O => Fault OutOfFuel
    | S fuel' =>
        let slice_length := if left_to_copy <? 0x4000 then left_to_copy else 0x4000 in
        let tmp := take (Z.to_nat slice_length) source in
        if Z.of_nat (length tmp) <? slice_length then Done None
        else copy_slices fuel' (left_to_copy - slice_length) (drop (Z.to_nat slice_length) source)
               (position + slice_length) (write_file position tmp output)
    end
  else Done (Some (position, output)).

(** One file copied and padded to a block. *)
Definition copy_file (header : list Z) (file_index : Z) (source output : list Z)
  : result (option (list Z)) :=
  copied <-- copy_slices (S (length source)) (load32 (length_at file_index) header) source
    (load32 (start_offset_at file_index) header) output;;
  match copied with
  | None => Done None
  | Some (position, output) =>
      let slice_length := BLOCK_SIZE - position mod BLOCK_SIZE in
      Done (Some (if slice_length =? BLOCK_SIZE then output
                  else write_file position (replicate (Z.to_nat slice_length) 0) output))
  end.

Fixpoint copy_files (header : list Z) (file_index : Z) (files : list source_file)
    (output : list Z) : result (option (list Z)) :=
  match files with
  | [] => Done (Some output)
  | file :: rest =>
      match contents file with
      | None => Done None
      | Some bytes =>
          copied <-- copy_file header file_index bytes output;;
          match copied with
          | None => Done None
          | Some output => copy_files header (file_index + 1) rest output
          end
      end
  end.

Definition header_size (num_directory_entries : Z) : Z :=
  sizeof_fs_header + sizeof_directory_entry * u32 (num_directory_entries - 1).

Definition first_file_offset (num_directory_entries : Z) : Z :=
  u32 (ROUND_UP (u32 (num_directory_entries - 1) * sizeof_directory_entry + sizeof_fs_header)
         BLOCK_SIZE).

(** The image, or [None] when the program exits with 1.  [header] is what [malloc]
    returned. *)
Definition mkfs (files : list source_file) (header : list Z) : result (option (list Z)) :=
  let num_directory_entries := Z.of_nat (length files) in
  built <-- build_directory 0 (first_file_offset num_directory_entries) files header;;
  match built with
  | None => Done None
  | Some header =>
      header <-- store magic_at FS_MAGIC header;;
      header <-- store num_directory_entries_at (word_bytes num_directory_entries) header;;
      copy_files header 0 files (write_file 0 header [])
  end.

(** ** Ranges of bytes *)

Lemma read_write_before o n at_ bytes l :
  0 <= o -> 0 <= n -> o + n <= at_ -> o + n <= Z.of_nat (length l) ->
  read_file o n (write_file at_ bytes l) = read_file o n l.
Proof.
  intros Ho Hn Hat Hl. unfold read_file, write_file. destruct bytes as [|b bytes]; [done|].
  rewrite drop_app_le by (rewrite length_take, length_app, length_replicate; lia).
  rewrite take_app_le
    by (rewrite length_drop, length_take, length_app, length_replicate; lia).
  rewrite skipn_firstn_comm, take_take.
  rewrite drop_app_le by lia. rewrite take_app_le by (rewrite length_drop; lia).
  f_equal. lia.
Qed.

Lemma read_write_after o n at_ bytes l :
  0 <= at_ -> 0 <= n -> at_ + Z.of_nat (length bytes) <= o -> at_ <= Z.of_nat (length l) ->
  read_file o n (write_file at_ bytes l) = read_file o n l.
Proof.
  intros Hat Hn Ho Hl. unfold read_file, write_file. destruct bytes as [|b bytes]; [done|].
  rewrite drop_app_ge by (rewrite length_take, length_app, length_replicate; lia).
  rewrite length_take, length_app, length_replicate.
  rewrite drop_app_ge by lia. rewrite drop_drop. do 2 f_equal. lia.
Qed.

Lemma read_prefix o n m l :
  0 <= n <= m -> read_file o n l = take (Z.to_nat n) (read_file o m l).
Proof. intros. unfold read_file. rewrite take_take. f_equal. lia. Qed.

Lemma read_read o n o' n' l :
  0 <= o -> 0 <= o' -> o' + n' <= n ->
  read_file o' n' (read_file o n l) = read_file (o + o') n' l.
Proof.
  intros. unfold read_file. rewrite skipn_firstn_comm, take_take, drop_drop.
  do 2 f_equal; lia.
Qed.

Lemma read_app o n m l :
  0 <= o -> 0 <= n -> 0 <= m -> read_file o (n + m) l = read_file o n l ++ read_file (o + n) m l.
Proof.
  intros. unfold read_file. rewrite Z2Nat.inj_add, Z2Nat.inj_add, <- drop_drop by lia.
  by rewrite take_take_drop.
Qed.

Lemma store_spec at_ bytes object :
  0 <= at_ -> at_ + Z.of_nat (length bytes) <= Z.of_nat (length object) ->
  exists object', store at_ bytes object = Done object' /\ length object' = length object
    /\ read_file at_ (Z.of_nat (length bytes)) object' = bytes
    /\ (forall o n, 0 <= o -> 0 <= n -> o + n <= at_ -> read_file o n object' = read_file o n object)
    /\ (forall o n, 0 <= n -> at_ + Z.of_nat (length bytes) <= o ->
          read_file o n object' = read_file o n object).
Proof.
  intros Hat Hl. unfold store. rewrite (proj2 (Z.leb_le _ _)) by done.
  eexists. split; [done|]. split.
  { destruct bytes as [|b bytes]; [done|]. rewrite write_file_length by (simpl; lia). lia. }
  split; [by apply read_write_file|]. split.
  - intros o n Ho Hn Hon. apply read_write_before; lia.
  - intros o n Hn Hon. apply read_write_after; lia.
Qed.

Lemma word_bytes_word v : is_u32 v -> bytes_word (word_bytes v) = v.
Proof.
  intros [H0 H1]. unfold bytes_word, word_bytes, u8. cbn [map foldr].
  rewrite !Z.shiftr_div_pow2 by lia.
  change (2 ^ (8 * 0)) with 1. change (2 ^ (8 * 1)) with 256.
  change (2 ^ (8 * 2)) with (256 * 256). change (2 ^ (8 * 3)) with (256 * 256 * 256).
  change (2 ^ 8) with 256. change (2 ^ 32) with 4294967296 in H1.
  rewrite Z.div_1_r, <- !Z.div_div by lia.
  assert (Hq : 0 <= v / 256 / 256 / 256 < 256) by (Z.div_mod_to_equations; lia).
  rewrite (Z.mod_small _ _ Hq).
  pose proof (Z.div_mod v 256). pose proof (Z.div_mod (v / 256) 256).
  pose proof (Z.div_mod (v / 256 / 256) 256). lia.
Qed.

(** ** Layout of the image *)

(** The name of a path: what follows the last slash that is not its last character. *)
Definition base_name (full_path : list Z) : list Z :=
  drop (name_begin full_path (length full_path - 1)) full_path.

Lemma name_begin_le full_path begin : (name_begin full_path begin <= begin)%nat.
Proof. induction begin as [|b IH]; simpl; [lia|]. destruct (_ =? _); lia. Qed.

Lemma normalize_short full_path :
  full_path <> [] -> Z.of_nat (length (base_name full_path)) < FS_NAME_LEN ->
  normalize_file_name full_path = Done (base_name full_path ++ [0]).
Proof.
  intros Hne Hlen. unfold base_name, FS_NAME_LEN in *.
  pose proof (name_begin_le full_path (length full_path - 1)) as Hle.
  rewrite length_drop in Hlen. destruct full_path as [|c p] eqn:Hfull; [done|].
  unfold normalize_file_name. rewrite <- Hfull in *. clear Hfull. cbv zeta.
  change FS_NAME_LEN with 32.
  rewrite (proj2 (Z.ltb_ge _ _)) by lia. rewrite length_app, length_drop. cbn [length].
  by rewrite (proj2 (Z.leb_le _ _)) by lia.
Qed.

(** A name of 32 characters or more is one byte too long for its field, cut or not. *)
Lemma normalize_long full_path :
  FS_NAME_LEN <= Z.of_nat (length (base_name full_path)) ->
  normalize_file_name full_path = Fault OutOfBounds.
Proof.
  unfold base_name, FS_NAME_LEN.
  pose proof (name_begin_le full_path (length full_path - 1)) as Hle.
  rewrite length_drop. intros Hlen. destruct full_path as [|c p] eqn:Hfull; [done|].
  unfold normalize_file_name. rewrite <- Hfull in *. clear Hfull. cbv zeta.
  change FS_NAME_LEN with 32.
  destruct (_ <? _) eqn:E; bool_to_prop; rewrite length_app, length_drop; cbn [length];
    rewrite (proj2 (Z.leb_gt _ _)); try done; change (Z.to_nat (32 - 1)) with 31%nat; lia.
Qed.

Definition round_block (x : Z) : Z := ROUND_UP x BLOCK_SIZE.

Lemma round_block_spec x :
  0 <= x -> x <= round_block x < x + BLOCK_SIZE /\ round_block x mod BLOCK_SIZE = 0.
Proof.
  intros Hx. unfold round_block, ROUND_UP. change BLOCK_SIZE with 512.
  rewrite Z.mod_mul by lia. split; [|done]. Z.div_mod_to_equations. lia.
Qed.

(** The files a directory can hold, and the offset after each. *)
Definition file_bytes (file : source_file) : list Z := default [] (contents file).
Definition next_offset (offset : Z) (file : source_file) : Z :=
  round_block (offset + Z.of_nat (length (file_bytes file))).
Definition end_offset (offset : Z) (files : list source_file) : Z := foldl next_offset offset files.

Definition valid_source (file : source_file) : Prop :=
  is_Some (contents file) /\ path file <> []
  /\ Z.of_nat (length (base_name (path file))) < FS_NAME_LEN
  /\ Forall (fun c => 1 <= c <= 255) (path file).

Lemma next_offset_ge offset file :
  0 <= offset -> offset + Z.of_nat (length (file_bytes file)) <= next_offset offset file.
Proof. intros. apply round_block_spec. lia. Qed.

Lemma end_offset_ge offset files : 0 <= offset -> offset <= end_offset offset files.
Proof.
  revert offset. induction files as [|file files IH]; intros offset Ho; simpl; [lia|].
  pose proof (next_offset_ge offset file Ho). etransitivity; [|apply IH]; lia.
Qed.

(** *** The directory *)

Definition entry_written (header : list Z) (index offset : Z) (file : source_file) : Prop :=
  let name := base_name (path file) ++ [0] in
  read_file (start_offset_at index) 4 header = word_bytes offset
  /\ read_file (length_at index) 4 header = word_bytes (Z.of_nat (length (file_bytes file)))
  /\ read_file (name_at index) (Z.of_nat (length name)) header = name.

Fixpoint entries_written (header : list Z) (index offset : Z) (files : list source_file) : Prop :=
  match files with
  | [] => True
  | file :: rest =>
      entry_written header index offset file
      /\ entries_written header (index + 1) (next_offset offset file) rest
  end.

Lemma entry_layout index :
  length_at index = start_offset_at index + 4 /\ name_at index = start_offset_at index + 8
  /\ start_offset_at (index + 1) = start_offset_at index + 40.
Proof.
  unfold length_at, name_at, start_offset_at, sizeof_directory_entry, FS_NAME_LEN. lia.
Qed.

Lemma entry_written_same header header' index offset file :
  Z.of_nat (length (base_name (path file))) < FS_NAME_LEN ->
  (forall o n, 0 <= n -> start_offset_at index <= o -> o + n <= start_offset_at (index + 1) ->
    read_file o n header' = read_file o n header) ->
  entry_written header index offset file -> entry_written header' index offset file.
Proof.
  intros Hn Hsame (H1 & H2 & H3). destruct (entry_layout index) as (L1 & L2 & L3).
  unfold FS_NAME_LEN in Hn. unfold entry_written. rewrite length_app in *. cbn [length] in *.
  rewrite !Hsame; [done|..]; lia.
Qed.

Lemma entries_written_same header header' index offset files :
  0 <= index -> Forall valid_source files ->
  (forall o n, 0 <= n -> 8 <= o -> o + n <= start_offset_at (index + Z.of_nat (length files)) ->
    read_file o n header' = read_file o n header) ->
  entries_written header index offset files -> entries_written header' index offset files.
Proof.
  intros Hi Hv. revert index offset Hi.
  induction Hv as [|file files (_ & _ & Hn & _) _ IH]; intros index offset Hi Hsame H; [done|].
  simpl length in Hsame.
  replace (index + Z.of_nat (S (length files))) with (index + 1 + Z.of_nat (length files))
    in Hsame by lia.
  destruct H as [H1 H2]. split; [|apply IH; [lia|done|done]].
  eapply entry_written_same; [done| |exact H1]. intros o n H0 Ho Hon. apply Hsame; [done|..].
  - unfold start_offset_at, sizeof_directory_entry, FS_NAME_LEN in Ho. lia.
  - etransitivity; [exact Hon|]. unfold start_offset_at, sizeof_directory_entry, FS_NAME_LEN. lia.
Qed.

Lemma u32_nonneg_small v : 0 <= v < 2 ^ 31 -> u32 v = v.
Proof. intros. apply Z.mod_small. lia. Qed.

Lemma next_offset_wrap offset bytes file :
  0 <= offset -> contents file = Some bytes -> next_offset offset file < 2 ^ 31 ->
  file_size bytes = Z.of_nat (length (file_bytes file))
  /\ u32 (u32 (offset + file_size bytes + BLOCK_SIZE - 1) / BLOCK_SIZE * BLOCK_SIZE)
     = next_offset offset file.
Proof.
  intros Ho Hc Hmax. pose proof (next_offset_ge offset file Ho) as Hge.
  unfold next_offset, round_block, ROUND_UP, file_bytes in *. rewrite Hc in *. simpl in *.
  assert (Hs : file_size bytes = Z.of_nat (length bytes)) by (apply u32_nonneg_small; lia).
  rewrite Hs. split; [done|].
  assert (H : 0 <= offset + Z.of_nat (length bytes) + BLOCK_SIZE - 1 < 2 ^ 32).
  { change BLOCK_SIZE with 512 in *. change (2 ^ 31) with 2147483648 in *.
    change (2 ^ 32) with 4294967296. Z.div_mod_to_equations. lia. }
  unfold u32 at 2. rewrite (Z.mod_small _ _ H). apply u32_nonneg_small. lia.
Qed.

Lemma write_entry header index offset file bytes :
  0 <= index -> 0 <= offset -> valid_source file -> contents file = Some bytes ->
  next_offset offset file < 2 ^ 31 ->
  start_offset_at (index + 1) <= Z.of_nat (length header) ->
  exists h1 h2 h3,
    store (start_offset_at index) (word_bytes offset) header = Done h1
    /\ store (length_at index) (word_bytes (file_size bytes)) h1 = Done h2
    /\ normalize_file_name (path file) = Done (base_name (path file) ++ [0])
    /\ store (name_at index) (base_name (path file) ++ [0]) h2 = Done h3
    /\ length h3 = length header /\ entry_written h3 index offset file
    /\ (forall o n, 0 <= o -> 0 <= n -> o + n <= start_offset_at index ->
          read_file o n h3 = read_file o n header).
Proof.
  intros Hi Ho (_ & Hpath & Hname & _) Hc Hmax Hlen.
  destruct (next_offset_wrap offset bytes file Ho Hc Hmax) as [Hsize _].
  destruct (entry_layout index) as (L1 & L2 & L3). unfold FS_NAME_LEN in Hname.
  assert (Hs : 0 <= start_offset_at index)
    by (unfold start_offset_at, sizeof_directory_entry, FS_NAME_LEN; lia).
  assert (Hw : forall v, Z.of_nat (length (word_bytes v)) = 4) by done.
  assert (Hl : Z.of_nat (length (base_name (path file) ++ [0]))
    = Z.of_nat (length (base_name (path file))) + 1) by (rewrite length_app; simpl; lia).
  destruct (store_spec (start_offset_at index) (word_bytes offset) header)
    as (h1 & E1 & N1 & R1 & B1 & A1); [rewrite ?Hw; lia..|].
  destruct (store_spec (length_at index) (word_bytes (file_size bytes)) h1)
    as (h2 & E2 & N2 & R2 & B2 & A2); [rewrite ?N1, ?Hw; lia..|].
  destruct (store_spec (name_at index) (base_name (path file) ++ [0]) h2)
    as (h3 & E3 & N3 & R3 & B3 & A3); [rewrite ?N2, ?N1; lia..|].
  rewrite Hw in *. exists h1, h2, h3. do 2 (split; [done|]).
  split; [by apply normalize_short|]. split; [done|]. split; [by rewrite N3, N2|]. split.
  - split; [|split; [|done]].
    + rewrite B3, B2 by lia. done.
    + rewrite B3 by lia. by rewrite <- Hsize.
  - intros o n H0 Hn Hon. rewrite B3, B2, B1 by lia. done.
Qed.

Lemma build_directory_spec files index offset header :
  0 <= index -> 0 <= offset -> Forall valid_source files -> end_offset offset files < 2 ^ 31 ->
  start_offset_at (index + Z.of_nat (length files)) <= Z.of_nat (length header) ->
  exists header',
    build_directory index offset files header = Done (Some header')
    /\ length header' = length header
    /\ (forall o n, 0 <= o -> 0 <= n -> o + n <= start_offset_at index ->
          read_file o n header' = read_file o n header)
    /\ entries_written header' index offset files.
Proof.
  intros Hi Ho Hv. revert index offset header Hi Ho.
  induction Hv as [|file files Hfile _ IH]; intros index offset header Hi Ho Hmax Hlen.
  { by exists header. }
  simpl length in Hlen. pose proof (next_offset_ge offset file Ho) as Hnext.
  pose proof (end_offset_ge (next_offset offset file) files ltac:(lia)) as Hend. simpl in Hmax.
  destruct (entry_layout index) as (L1 & L2 & L3).
  assert (Hl1 : start_offset_at (index + 1) <= Z.of_nat (length header)).
  { etransitivity; [|exact Hlen].
    unfold start_offset_at, sizeof_directory_entry, FS_NAME_LEN. lia. }
  destruct Hfile as ([bytes Hc] & Hrest).
  destruct (write_entry header index offset file bytes Hi Ho (conj (ex_intro _ _ Hc) Hrest) Hc)
    as (h1 & h2 & h3 & E1 & E2 & E3 & E4 & N3 & W & B3); [lia|done|].
  destruct (next_offset_wrap offset bytes file Ho Hc) as [_ Hwrap]; [lia|].
  destruct (IH (index + 1) (next_offset offset file) h3) as (header' & E & N & B & Hw);
    [lia|lia|done| |].
  { rewrite N3. by replace (index + 1 + Z.of_nat (length files))
      with (index + Z.of_nat (S (length files))) by lia. }
  exists header'. simpl. rewrite Hc, E1. cbn [bind_result]. rewrite E2. cbn [bind_result].
  rewrite E3. cbn [bind_result]. rewrite E4. cbn [bind_result]. rewrite Hwrap.
  split; [done|]. split; [by rewrite N|]. split.
  - intros o n H0 Hn Hon. rewrite B by lia. apply B3; lia.
  - split; [|done]. eapply entry_written_same; [apply Hrest| |exact W].
    intros o n H0 H1 H2. apply B; [|done|done].
    unfold start_offset_at, sizeof_directory_entry, FS_NAME_LEN in H1. lia.
Qed.

(** *** The contents *)

Lemma write_file_app at_ a b l :
  0 <= at_ ->
  write_file (at_ + Z.of_nat (length a)) b (write_file at_ a l) = write_file at_ (a ++ b) l.
Proof.
  intros Hat. destruct a as [|x a]; [by rewrite Z.add_0_r|].
  destruct b as [|y b]; [by rewrite app_nil_r|].
  unfold write_file at 1. cbn [app]. rewrite Z2Nat.inj_add, Nat2Z.id by lia.
  unfold write_file. set (s := Z.to_nat at_).
  set (front := take s (l ++ replicate (s - length l) 0)).
  assert (Hf : length front = s)
    by (unfold front; rewrite length_take, length_app, length_replicate; lia).
  assert (Htake : forall rest, take (s + length (x :: a)) ((front ++ (x :: a) ++ rest)) = front ++ x :: a).
  { intros rest. rewrite app_assoc, take_app_le by (rewrite length_app; lia).
    apply take_ge. rewrite length_app. lia. }
  rewrite <- (app_assoc front), <- (app_assoc (x :: a)), Htake.
  rewrite <- !app_assoc. cbn [app]. do 2 f_equal. rewrite <- app_assoc. cbn [app]. do 3 f_equal.
  rewrite (drop_app_ge front) by (cbn [length]; lia). rewrite Hf, app_comm_cons.
  rewrite drop_app_ge by (cbn [length]; lia). rewrite drop_drop.
  f_equal. cbn [length]. rewrite length_app. cbn [length]. lia.
Qed.

Lemma copy_slices_spec fuel source position output :
  (length source < fuel)%nat -> 0 <= position ->
  copy_slices fuel (Z.of_nat (length source)) source position output
  = Done (Some (position + Z.of_nat (length source), write_file position source output)).
Proof.
  revert source position output. induction fuel as [|fuel IH]; intros source position output Hf Hp;
    [lia|].
  cbn [copy_slices]. destruct (0 <? _) eqn:E; bool_to_prop.
  2:{ destruct source; [|simpl in E; lia]. by rewrite Z.add_0_r. }
  set (n := if Z.of_nat (length source) <? 0x4000 then Z.of_nat (length source) else 0x4000).
  assert (Hn : 0 < n <= Z.of_nat (length source))
    by (subst n; destruct (_ <? 0x4000) eqn:E'; bool_to_prop; lia).
  rewrite length_take, (proj2 (Z.ltb_ge _ _)) by lia.
  replace (Z.of_nat (length source) - n) with (Z.of_nat (length (drop (Z.to_nat n) source)))
    by (rewrite length_drop; lia).
  rewrite IH by (rewrite ?length_drop; lia).
  assert (Ht : n = Z.of_nat (length (take (Z.to_nat n) source))) by (rewrite length_take; lia).
  pose proof (write_file_app position (take (Z.to_nat n) source) (drop (Z.to_nat n) source)
    output Hp) as Hw.
  rewrite <- Ht, take_drop in Hw. rewrite Hw, length_drop. do 3 f_equal. lia.
Qed.

Definition padding (offset : Z) (file : source_file) : list Z :=
  replicate (Z.to_nat (next_offset offset file - (offset + Z.of_nat (length (file_bytes file))))) 0.

Lemma padding_length offset file :
  0 <= offset ->
  Z.of_nat (length (file_bytes file ++ padding offset file)) = next_offset offset file - offset.
Proof.
  intros Ho. pose proof (next_offset_ge offset file Ho).
  unfold padding. rewrite length_app, length_replicate. lia.
Qed.

Lemma load_word header at_ v : is_u32 v -> read_file at_ 4 header = word_bytes v -> load32 at_ header = v.
Proof. intros Hv H. unfold load32. rewrite H. by apply word_bytes_word. Qed.

Lemma copy_file_eq header index offset file bytes output :
  0 <= offset -> offset mod BLOCK_SIZE = 0 -> contents file = Some bytes ->
  next_offset offset file < 2 ^ 31 -> entry_written header index offset file ->
  copy_file header index bytes output
  = Done (Some (write_file offset (file_bytes file ++ padding offset file) output)).
Proof.
  intros Ho Hmod Hc Hmax (H1 & H2 & _). pose proof (next_offset_ge offset file Ho) as Hge.
  assert (Hb : file_bytes file = bytes) by (unfold file_bytes; by rewrite Hc).
  apply load_word in H1; [|split; lia]. apply load_word in H2; [|split; lia].
  unfold copy_file. rewrite H1, H2, Hb, copy_slices_spec by lia.
  cbn [bind_result]. do 2 f_equal. unfold padding. rewrite Hb.
  assert (Hpad : next_offset offset file - (offset + Z.of_nat (length bytes))
    = (BLOCK_SIZE - (offset + Z.of_nat (length bytes)) mod BLOCK_SIZE) mod BLOCK_SIZE).
  { unfold next_offset, round_block, ROUND_UP. rewrite Hb. change BLOCK_SIZE with 512 in *.
    clear - Ho Hmod. Z.div_mod_to_equations. lia. }
  rewrite Hpad. set (n := BLOCK_SIZE - _).
  assert (Hn : 0 < n <= BLOCK_SIZE).
  { subst n. pose proof (Z.mod_pos_bound (offset + Z.of_nat (length bytes)) BLOCK_SIZE eq_refl). lia. }
  destruct (n =? BLOCK_SIZE) eqn:E; bool_to_prop.
  - rewrite E, Z.mod_same by done. by rewrite app_nil_r.
  - rewrite Z.mod_small by lia. by apply write_file_app.
Qed.

Fixpoint files_copied (image : list Z) (offset : Z) (files : list source_file) : Prop :=
  match files with
  | [] => True
  | file :: rest =>
      (read_file offset (Z.of_nat (length (file_bytes file))) image = file_bytes file
       /\ (file_bytes file <> [] -> next_offset offset file <= Z.of_nat (length image)))
      /\ files_copied image (next_offset offset file) rest
  end.

(** One file written at the end of the output. *)
Lemma write_padded offset file output :
  0 <= offset -> Z.of_nat (length output) <= offset ->
  let output' := write_file offset (file_bytes file ++ padding offset file) output in
  Z.of_nat (length output) <= Z.of_nat (length output') <= next_offset offset file
  /\ (forall o n, 0 <= o -> 0 <= n -> o + n <= Z.of_nat (length output) ->
        read_file o n output' = read_file o n output)
  /\ read_file offset (Z.of_nat (length (file_bytes file))) output' = file_bytes file
  /\ (file_bytes file <> [] -> Z.of_nat (length output') = next_offset offset file).
Proof.
  intros Ho Hl output'. pose proof (next_offset_ge offset file Ho) as Hge.
  pose proof (padding_length offset file Ho) as Hpad.
  assert (Hlen : file_bytes file ++ padding offset file <> [] ->
    Z.of_nat (length output') = next_offset offset file).
  { intros Hne. unfold output'. rewrite write_file_length; [lia|done|].
    destruct (_ ++ _); [done|simpl; lia]. }
  split; [|split; [|split]].
  - destruct (file_bytes file ++ padding offset file) as [|b l] eqn:E.
    + unfold output'. rewrite ?E. simpl. lia.
    + rewrite Hlen by done. lia.
  - intros o n H0 Hn Hon. apply read_write_before; lia.
  - pose proof (read_write_file offset (file_bytes file ++ padding offset file) output Ho) as Hr.
    fold output' in Hr.
    rewrite (read_prefix _ _ (Z.of_nat (length (file_bytes file ++ padding offset file)))), Hr
      by (rewrite length_app; lia).
    rewrite Nat2Z.id. by rewrite take_app_length.
  - intros Hne. apply Hlen. by destruct (file_bytes file).
Qed.

Lemma copy_files_spec files header index offset output :
  0 <= offset -> offset mod BLOCK_SIZE = 0 -> Forall valid_source files ->
  end_offset offset files < 2 ^ 31 -> entries_written header index offset files ->
  Z.of_nat (length output) <= offset ->
  exists image,
    copy_files header index files output = Done (Some image)
    /\ Z.of_nat (length output) <= Z.of_nat (length image) <= end_offset offset files
    /\ (forall o n, 0 <= o -> 0 <= n -> o + n <= Z.of_nat (length output) ->
          read_file o n image = read_file o n output)
    /\ files_copied image offset files.
Proof.
  intros Ho Hmod Hv. revert index offset output Ho Hmod.
  induction Hv as [|file files Hfile _ IH]; intros index offset output Ho Hmod Hmax Hw Hl.
  { exists output. simpl. by repeat split. }
  pose proof (next_offset_ge offset file Ho) as Hnext.
  pose proof (end_offset_ge (next_offset offset file) files ltac:(lia)) as Hend. simpl in Hmax.
  destruct Hw as [Hw Hws]. destruct Hfile as [[bytes Hc] _].
  pose proof (copy_file_eq header index offset file bytes output Ho Hmod Hc ltac:(lia) Hw) as Hcopy.
  destruct (write_padded offset file output Ho Hl) as (Hl' & Hsame & Hread & Hfull).
  set (output' := write_file _ _ output) in *.
  destruct (IH (index + 1) (next_offset offset file) output') as (image & E & Hi & Hsame' & Hrest);
    [lia| |lia|done|lia|].
  { unfold next_offset. apply round_block_spec. lia. }
  exists image. cbn [copy_files]. rewrite Hc, Hcopy. cbn [bind_result]. split; [done|].
  split; [simpl; lia|]. split.
  - intros o n H0 Hn Hon. rewrite Hsame' by lia. by apply Hsame.
  - split; [|done]. destruct (decide (file_bytes file = [])) as [Hnil|Hne].
    + rewrite Hnil. by split.
    + specialize (Hfull Hne). rewrite Hsame' by lia. split; [done|lia].
Qed.

(** *** The image *)

Definition header_bytes (files : list source_file) : Z := start_offset_at (Z.of_nat (length files)).
Definition data_offset (files : list source_file) : Z := round_block (header_bytes files).

(** What the program is given: at least one file, names that fit, an image below 2 GB. *)
Record valid_input (files : list source_file) : Prop := {
  input_some : files <> [];
  input_valid : Forall valid_source files;
  input_size : end_offset (data_offset files) files < 2 ^ 31
}.

Record is_image (files : list source_file) (image : list Z) : Prop := {
  image_header : header_bytes files <= Z.of_nat (length image)
                 <= end_offset (data_offset files) files;
  image_magic : read_file magic_at 4 image = FS_MAGIC;
  image_count : load32 num_directory_entries_at image = Z.of_nat (length files);
  image_entries : entries_written image 0 (data_offset files) files;
  image_files : files_copied image (data_offset files) files
}.

Lemma data_offset_ge files :
  48 <= header_bytes files <= data_offset files \/ files = [].
Proof.
  destruct files as [|file files]; [by right|left]. unfold data_offset.
  assert (48 <= header_bytes (file :: files)).
  { unfold header_bytes, start_offset_at, sizeof_directory_entry, FS_NAME_LEN. simpl. lia. }
  pose proof (round_block_spec (header_bytes (file :: files))). lia.
Qed.

Lemma valid_input_sizes files :
  valid_input files ->
  first_file_offset (Z.of_nat (length files)) = data_offset files
  /\ header_size (Z.of_nat (length files)) = header_bytes files
  /\ 48 <= header_bytes files <= data_offset files /\ data_offset files < 2 ^ 31.
Proof.
  intros [Hne _ Hmax]. destruct (data_offset_ge files) as [Hge|]; [|done].
  pose proof (end_offset_ge (data_offset files) files ltac:(lia)) as Hend.
  assert (Hn : 0 < Z.of_nat (length files)) by (destruct files; [done|simpl; lia]).
  assert (Hu : u32 (Z.of_nat (length files) - 1) = Z.of_nat (length files) - 1).
  { apply u32_nonneg_small.
    unfold header_bytes, start_offset_at, sizeof_directory_entry, FS_NAME_LEN in Hge. lia. }
  assert (Hs : u32 (Z.of_nat (length files) - 1) * sizeof_directory_entry + sizeof_fs_header
    = header_bytes files).
  { rewrite Hu. unfold header_bytes, start_offset_at, sizeof_fs_header, sizeof_directory_entry,
      FS_NAME_LEN. lia. }
  split; [|split; [|lia]].
  - unfold first_file_offset. rewrite Hs. apply u32_nonneg_small.
    fold (round_block (header_bytes files)). fold (data_offset files). lia.
  - unfold header_size. lia.
Qed.

Lemma mkfs_spec files header :
  valid_input files -> Z.of_nat (length header) = header_size (Z.of_nat (length files)) ->
  exists image, mkfs files header = Done (Some image) /\ is_image files image.
Proof.
  intros Hin Hlen. destruct (valid_input_sizes files Hin) as (Hfirst & Hsize & Hge & Hmax).
  destruct Hin as [_ Hv Hend]. rewrite Hsize in Hlen.
  destruct (build_directory_spec files 0 (data_offset files) header) as (h1 & E1 & N1 & _ & W1);
    [lia|lia|done|done|by rewrite Hlen|].
  destruct (store_spec magic_at FS_MAGIC h1) as (h2 & E2 & N2 & R2 & _ & A2);
    [done|unfold magic_at; simpl; lia|].
  destruct (store_spec num_directory_entries_at (word_bytes (Z.of_nat (length files))) h2)
    as (h3 & E3 & N3 & R3 & B3 & A3); [done|unfold num_directory_entries_at; simpl; lia|].
  assert (Hh3 : Z.of_nat (length h3) = header_bytes files) by lia.
  assert (Hw0 : write_file 0 h3 [] = h3).
  { destruct h3; [done|]. unfold write_file. simpl. by rewrite app_nil_r. }
  assert (W3 : entries_written h3 0 (data_offset files) files).
  { apply (entries_written_same h1); [done|done| |done]. intros o n Hn Ho _.
    rewrite A3, A2; [done|lia|unfold magic_at; simpl; lia|lia|].
    unfold num_directory_entries_at. simpl. lia. }
  destruct (copy_files_spec files h3 0 (data_offset files) h3) as (image & E4 & Hl & Hsame & Hcopy);
    [lia| |done|done|done|lia|].
  { apply round_block_spec. lia. }
  exists image. unfold mkfs. rewrite Hfirst, E1. cbn [bind_result]. rewrite E2. cbn [bind_result].
  rewrite E3. cbn [bind_result]. rewrite Hw0. split; [done|].
  constructor.
  - lia.
  - rewrite Hsame by (unfold magic_at; lia).
    rewrite B3 by (unfold magic_at, num_directory_entries_at; lia). done.
  - apply load_word.
    + split; [lia|]. unfold header_bytes, start_offset_at, sizeof_directory_entry, FS_NAME_LEN in *.
      change (2 ^ 31) with 2147483648 in *. change (2 ^ 32) with 4294967296. lia.
    + rewrite Hsame by (unfold num_directory_entries_at; lia). done.
  - apply (entries_written_same h3); [done|done| |done]. intros o n Hn Ho Hon.
    apply Hsame; [lia|done|]. rewrite Hh3. exact Hon.
  - done.
Qed.
