(* ===== verification/Fs.v ===== *)
(** * Fs: the bare-metal file system (software/libs/libos/bare-metal/fs.c)

    The static variables are a record over the device the blocks come from; a byte of the
    directory that [malloc] left undefined is [None].  [malloc] succeeds, and the memory at
    RAMDISK_BASE is a list of bytes.  Pointers the functions fill in are results: [read]
    returns the bytes it stored in [buf], [stat] and [fstat] the [st_size].  Messages
    printed are left out. *)

From S2P Require Export SdDriver Mkfs.

#[local] Open Scope Z_scope.

Definition EPERM : Z := 1.
Definition ENOENT : Z := 2.
Definition EIO : Z := 5.
Definition EBADF : Z := 9.
Definition EINVAL : Z := 22.
Definition EMFILE : Z := 24.

Definition SEEK_SET : Z := 0.
Definition SEEK_CUR : Z := 1.
Definition SEEK_END : Z := 2.
Definition W_OK : Z := 2.

Definition MAX_DESCRIPTORS : Z := 32.

Record file_descriptor := {
  is_open : bool;
  file_length : Z;
  start_offset : Z;
  current_offset : Z
}.

#[export]
Instance file_descriptor_fields : Fields file_descriptor := fun f =>
  Build_file_descriptor (is_open f) (file_length f) (start_offset f) (current_offset f).

Record file_system (B : Type) := {
  file_descriptors : list file_descriptor;
  fs_initialized : bool;
  fs_directory : option (list (option Z));
  use_ramdisk : bool;
  errno : Z;
  device : B
}.

Arguments Build_file_system {B}.
Arguments file_descriptors {B}.
Arguments fs_initialized {B}.
Arguments fs_directory {B}.
Arguments use_ramdisk {B}.
Arguments errno {B}.
Arguments device {B}.

#[export]
Instance file_system_fields B : Fields (file_system B) := fun s =>
  Build_file_system (file_descriptors s) (fs_initialized s) (fs_directory s) (use_ramdisk s)
    (errno s) (device s).

(** What static initialisation gives. *)
Definition closed_descriptor : file_descriptor :=
  {| is_open := false; file_length := 0; start_offset := 0; current_offset := 0 |}.

Definition fs_init {B} (b : B) : file_system B :=
  {| file_descriptors := replicate (Z.to_nat MAX_DESCRIPTORS) closed_descriptor;
     fs_initialized := false; fs_directory := None; use_ramdisk := false; errno := 0;
     device := b |}.

(** string.c: [*str1 - *str2] of the first characters that differ, as [char]s; the strings
    are the bytes from the pointers on. *)
Fixpoint strcmp (str1 str2 : list (option Z)) : result Z :=
  match str1, str2 with
  | Some c1 :: rest1, Some c2 :: rest2 =>
      if negb (c1 =? 0) && (c1 =? c2) then strcmp rest1 rest2 else Done (s8 c1 - s8 c2)
  | _, _ => Fault OutOfBounds
  end.

(** A C string: its characters and the NUL. *)
Definition c_string (s : list Z) : list (option Z) := map Some (s ++ [0]).

(** A word of the directory, all of whose bytes must be defined. *)
Definition directory_word (at_ : Z) (directory : list (option Z)) : result Z :=
  match mapM id (take 4 (drop (Z.to_nat at_) directory)) with
  | Some bytes => if Z.of_nat (length bytes) =? 4 then Done (bytes_word bytes) else Fault OutOfBounds
  | None => Fault OutOfBounds
  end.

(** [memcpy] into the directory. *)
Definition copy_in (at_ : Z) (bytes : list Z) (directory : list (option Z))
  : result (list (option Z)) :=
  if at_ + Z.of_nat (length bytes) <=? Z.of_nat (length directory) then
    Done (take (Z.to_nat at_) directory ++ map Some bytes
          ++ drop (Z.to_nat at_ + length bytes) directory)
  else Fault OutOfBounds.

(** ** Loops over blocks *)

Section blocks.
Context {S : Type} (read_block : Z -> S -> result (option (list Z) * S)).

(** The loop over the blocks of the directory after the first; [count] are left.  The result is
    false when a block could not be read. *)
Fixpoint read_directory (count : nat) (block_num : Z) (directory : list (option Z)) (s : S)
  : result (bool * list (option Z) * S) :=
  match count with
  | O => Done (true, directory, s)
  | Datatypes.S count' =>
      '(got, s) <-- read_block block_num s;;
      match got with
      | None => Done (false, directory, s)
      | Some bytes =>
          directory <-- copy_in (SDMMC_BLOCK_SIZE * block_num) bytes directory;;
          read_directory count' (block_num + 1) directory s
      end
  end.

(** [while (total_read < nbytes)]; [stored] is what [buf] holds so far.  The result is
    false when a block could not be read. *)
Fixpoint read_loop (fuel : nat) (nbytes total_read offset_in_block block_number : Z)
    (stored : list Z) (s : S) : result (bool * list Z * S) :=
  if total_read <? nbytes then
    match fuel with
    | O => Fault OutOfFuel
    | Datatypes.S fuel' =>
        '(got, s) <-- read_block block_number s;;
        match got with
        | None => Done (false, stored, s)
        | Some current_block =>
            if (offset_in_block =? 0) && (SDMMC_BLOCK_SIZE <=? nbytes - total_read) then
              read_loop fuel' nbytes (total_read + SDMMC_BLOCK_SIZE) offset_in_block
                (block_number + 1) (stored ++ current_block) s
            else
              let slice_length := SDMMC_BLOCK_SIZE - offset_in_block in
              let slice_length := if nbytes - total_read <? slice_length
                                  then nbytes - total_read else slice_length in
              read_loop fuel' nbytes (total_read + slice_length) 0 (block_number + 1)
                (stored ++ read_file offset_in_block slice_length current_block) s
        end
    end
  else Done (true, stored, s).

End blocks.

Section fs.
Context {B : Type} `{!Registers B} (ramdisk : list Z).
Implicit Types s : file_system B.

(** [None] is a result that is not positive. *)
Definition read_block (block_num : Z) s : result (option (list Z) * file_system B) :=
  if use_ramdisk s then
    let bytes := read_file (block_num * SDMMC_BLOCK_SIZE) SDMMC_BLOCK_SIZE ramdisk in
    if Z.of_nat (length bytes) =? SDMMC_BLOCK_SIZE then Done (Some bytes, s) else Fault OutOfBounds
  else
    '(bytes, b) <-- read_sdmmc_device (u32 block_num) (device s);;
    Done (bytes, s <| device := b |>).

Definition fail (error : Z) s : Z * file_system B := (-1, s <| errno := error |>).

Definition num_directory_blocks (num_directory_entries : Z) : Z :=
  u32 (u32 (num_directory_entries - 1) * sizeof_directory_entry + sizeof_fs_header
       + SDMMC_BLOCK_SIZE - 1) / SDMMC_BLOCK_SIZE.

Definition init_file_system s : result (Z * file_system B) :=
  '(r, b) <-- init_sdmmc_device (device s);;
  let s := s <| device := b |> in
  let s := if r <? 0 then s <| use_ramdisk := true |> else s in
  '(super_block, s) <-- read_block 0 s;;
  match super_block with
  | None => Done (fail EIO s)
  | Some super_block =>
      if negb (bool_decide (read_file magic_at 4 super_block = FS_MAGIC)) then Done (fail EIO s)
      else
        let blocks := num_directory_blocks (load32 num_directory_entries_at super_block) in
        directory <-- copy_in 0 super_block (malloc (u32 (blocks * SDMMC_BLOCK_SIZE)));;
        '(complete, directory, s) <-- read_directory read_block (Z.to_nat (blocks - 1)) 1 directory s;;
        let s := s <| fs_directory := Some directory |> in
        if complete then Done (0, s) else Done (fail EIO s)
  end.

(** The index of the entry; [count] entries are left. *)
Fixpoint lookup_from (count : nat) (directory_index : Z) (path : list Z)
    (directory : list (option Z)) : result (option Z) :=
  match count with
  | O => Done None
  | S count' =>
      order <-- strcmp (drop (Z.to_nat (name_at directory_index)) directory) (c_string path);;
      if order =? 0 then Done (Some directory_index)
      else lookup_from count' (directory_index + 1) path directory
  end.

(** The offset and the length of the entry found. *)
Definition lookup_directory (path : list Z) (directory : list (option Z)) : result (option (Z * Z)) :=
  n <-- directory_word num_directory_entries_at directory;;
  found <-- lookup_from (Z.to_nat n) 0 path directory;;
  match found with
  | None => Done None
  | Some index =>
      start <-- directory_word (start_offset_at index) directory;;
      length <-- directory_word (length_at index) directory;;
      Done (Some (start, length))
  end.

(** [fs_directory] is NULL before the first [open]. *)
Definition lookup_file (path : list Z) s : result (option (Z * Z)) :=
  match fs_directory s with
  | None => Fault OutOfBounds
  | Some directory => lookup_directory path directory
  end.

(** The first descriptor that is not open. *)
Fixpoint free_descriptor (descriptors : list file_descriptor) (fd : Z) : option Z :=
  match descriptors with
  | [] => None
  | f :: rest => if is_open f then free_descriptor rest (fd + 1) else Some fd
  end.

Definition set_descriptor (fd : Z) (f : file_descriptor) s : file_system B :=
  s <| file_descriptors ::= <[Z.to_nat fd := f]> |>.

Definition open_initialized (path : list Z) s : result (Z * file_system B) :=
  match free_descriptor (file_descriptors s) 0 with
  | None => Done (fail EMFILE s)
  | Some fd =>
      entry <-- lookup_file path s;;
      match entry with
      | None => Done (fail ENOENT s)
      | Some (start, length) =>
          Done (fd, set_descriptor fd {| is_open := true; file_length := s32 length;
            start_offset := s32 start; current_offset := 0 |} s)
      end
  end.

(** [mode] is ignored. *)
Definition open (path : list Z) s : result (Z * file_system B) :=
  if fs_initialized s then open_initialized path s
  else
    '(r, s) <-- init_file_system s;;
    if r <? 0 then Done (-1, s) else open_initialized path (s <| fs_initialized := true |>).

(** The descriptor when [fd] names one that is open. *)
Definition descriptor (fd : Z) s : option file_descriptor :=
  if (fd <? 0) || (MAX_DESCRIPTORS <=? fd) then None
  else f ← file_descriptors s !! Z.to_nat fd; if is_open f then Some f else None.

Definition close (fd : Z) s : Z * file_system B :=
  if (fd <? 0) || (MAX_DESCRIPTORS <=? fd) then fail EBADF s
  else (0, s <| file_descriptors ::= alter (fun f => f <| is_open := false |>) (Z.to_nat fd) |>).

(** The result, the bytes stored at the start of [buf], and the state. *)
Definition read (fd nbytes : Z) s : result (Z * list Z * file_system B) :=
  match descriptor fd s with
  | None => let '(r, s) := fail EBADF s in Done (r, [], s)
  | Some f =>
      let size_to_copy := s32 (file_length f - current_offset f) in
      if size_to_copy <=? 0 then Done (0, [], s)
      else
        let nbytes := if size_to_copy <? nbytes then size_to_copy else nbytes in
        let offset_in_block := Z.land (current_offset f) (SDMMC_BLOCK_SIZE - 1) in
        let block_number := Z.quot (s32 (start_offset f + current_offset f)) SDMMC_BLOCK_SIZE in
        '(complete, stored, s) <--
          read_loop read_block (S (Z.to_nat nbytes)) nbytes 0 offset_in_block block_number [] s;;
        if complete then
          Done (nbytes, stored,
            set_descriptor fd (f <| current_offset ::= fun o => s32 (o + nbytes) |>) s)
        else let '(r, s) := fail EIO s in Done (r, stored, s)
  end.

Definition write (fd : Z) (bytes : list Z) s : Z * file_system B := fail EPERM s.

Definition lseek (fd offset whence : Z) s : Z * file_system B :=
  match descriptor fd s with
  | None => fail EBADF s
  | Some f =>
      let seek position :=
        let position := if position <? 0 then 0 else position in
        (position, set_descriptor fd (f <| current_offset := position |>) s) in
      if whence =? SEEK_SET then seek offset
      else if whence =? SEEK_CUR then seek (s32 (current_offset f + offset))
      else if whence =? SEEK_END then seek (s32 (file_length f - offset))
      else fail EINVAL s
  end.

Definition stat (path : list Z) s : result (Z * option Z * file_system B) :=
  entry <-- lookup_file path s;;
  match entry with
  | None => let '(r, s) := fail ENOENT s in Done (r, None, s)
  | Some (_, length) => Done (0, Some (s32 length), s)
  end.

Definition fstat (fd : Z) s : Z * option Z * file_system B :=
  match descriptor fd s with
  | None => let '(r, s) := fail EBADF s in (r, None, s)
  | Some f => (0, Some (file_length f), s)
  end.

Definition access (path : list Z) (mode : Z) s : result (Z * file_system B) :=
  entry <-- lookup_file path s;;
  match entry with
  | None => Done (fail ENOENT s)
  | Some _ => if negb (Z.land mode W_OK =? 0) then Done (fail EPERM s) else Done (0, s)
  end.
End fs.

(** ** Strings and directory bytes *)

Lemma s8_inj a b : is_u8 a -> is_u8 b -> s8 a = s8 b -> a = b.
Proof.
  intros Ha Hb H. apply (f_equal (fun v => v mod 2 ^ 8)) in H. unfold s8 in H.
  rewrite !signed_mod, !Z.mod_small in H by done. done.
Qed.

Lemma char_is_u8 c : 1 <= c <= 255 -> is_u8 c.
Proof. intros. split; [lia|]. change (2 ^ 8) with 256. lia. Qed.

Lemma strcmp_spec a b rest :
  Forall (fun c => 1 <= c <= 255) a -> Forall (fun c => 1 <= c <= 255) b ->
  exists r, strcmp (c_string a ++ rest) (c_string b) = Done r /\ (r =? 0) = bool_decide (a = b).
Proof.
  intros Ha. revert b. induction Ha as [|x a Hx Ha IH]; intros [|y b] Hb.
  - by exists 0.
  - apply Forall_inv in Hb. exists (s8 0 - s8 y). split; [done|].
    rewrite bool_decide_false by done. apply Z.eqb_neq. intros H.
    assert (0 = y); [|lia]. apply s8_inj; [by split|by apply char_is_u8|lia].
  - exists (s8 x - s8 0). simpl. rewrite (proj2 (Z.eqb_neq x 0)) by lia. simpl. split; [done|].
    apply Z.eqb_neq. intros H.
    assert (x = 0); [|lia]. apply s8_inj; [by apply char_is_u8|by split|lia].
  - pose proof (Forall_inv Hb) as Hy. apply Forall_inv_tail in Hb. simpl in Hy. simpl.
    rewrite (proj2 (Z.eqb_neq x 0)) by lia. simpl. destruct (x =? y) eqn:E; bool_to_prop.
    + subst. destruct (IH b Hb) as (r & Hr & Heq). exists r. split; [done|]. rewrite Heq.
      apply bool_decide_ext. split; [by intros ->|by intros [= ->]].
    + exists (s8 x - s8 y). split; [done|]. rewrite bool_decide_false by congruence.
      apply Z.eqb_neq. intros H. apply E. apply s8_inj; [by apply char_is_u8..|lia].
Qed.

Lemma mapM_Some (l : list Z) : mapM id (map Some l) = Some l.
Proof. induction l as [|x l IH]; [done|]. simpl. by rewrite IH. Qed.

(** A word of a directory that is wholly defined. *)
Lemma directory_word_defined at_ bytes rest :
  0 <= at_ -> at_ + 4 <= Z.of_nat (length bytes) ->
  directory_word at_ (map Some bytes ++ rest) = Done (load32 at_ bytes).
Proof.
  intros H0 Hl. unfold directory_word.
  rewrite drop_app_le by (rewrite length_map; lia).
  rewrite take_app_le by (rewrite length_drop, length_map; lia).
  change (map Some bytes) with (Some <$> bytes). rewrite <- fmap_drop, <- fmap_take.
  change (Some <$> take 4 (drop (Z.to_nat at_) bytes)) with (map Some (read_file at_ 4 bytes)).
  rewrite mapM_Some, (proj2 (Z.eqb_eq _ _)); [done|]. apply read_file_length; lia.
Qed.

Lemma drop_read at_ n bytes :
  drop at_ bytes = read_file (Z.of_nat at_) (Z.of_nat n) bytes ++ drop (at_ + n) bytes.
Proof. unfold read_file. rewrite !Nat2Z.id, <- drop_drop. by rewrite take_drop. Qed.

(** The offset of file number [i]. *)
Definition offset_of (offset : Z) (files : list source_file) (i : nat) : Z :=
  end_offset offset (take i files).

Lemma entries_written_lookup header index offset files i file :
  entries_written header index offset files -> files !! i = Some file ->
  entry_written header (index + Z.of_nat i) (offset_of offset files i) file.
Proof.
  revert index offset files. induction i as [|i IH]; intros index offset [|f files] H Hi; try done.
  - injection Hi as ->. rewrite Z.add_0_r. apply H.
  - destruct H as [_ H]. specialize (IH _ _ _ H Hi).
    by replace (index + Z.of_nat (S i)) with (index + 1 + Z.of_nat i) by lia.
Qed.

Lemma files_copied_lookup image offset files i file :
  files_copied image offset files -> files !! i = Some file ->
  let start := offset_of offset files i in
  read_file start (Z.of_nat (length (file_bytes file))) image = file_bytes file
  /\ (file_bytes file <> [] -> next_offset start file <= Z.of_nat (length image)).
Proof.
  revert offset files. induction i as [|i IH]; intros offset [|f files] H Hi; try done.
  - injection Hi as ->. apply H.
  - destruct H as [_ H]. by apply IH.
Qed.

Lemma offset_of_range offset files i file :
  0 <= offset -> offset mod BLOCK_SIZE = 0 -> files !! i = Some file ->
  offset <= offset_of offset files i /\ offset_of offset files i mod BLOCK_SIZE = 0
  /\ next_offset (offset_of offset files i) file <= end_offset offset files.
Proof.
  revert offset files. induction i as [|i IH]; intros offset [|f files] Ho Hmod Hi; try done.
  - injection Hi as ->. unfold offset_of, end_offset. simpl. split; [lia|]. split; [done|].
    apply end_offset_ge. pose proof (next_offset_ge offset file Ho). lia.
  - pose proof (next_offset_ge offset f Ho) as Hn.
    destruct (IH (next_offset offset f) files) as (H1 & H2 & H3); [lia| |done|].
    { unfold next_offset. apply round_block_spec. lia. }
    unfold offset_of, end_offset in *. simpl. split; [lia|done].
Qed.

(** ** Looking a name up *)

(** The first file with the name. *)
Fixpoint find_name (name : list Z) (files : list source_file) : option nat :=
  match files with
  | [] => None
  | file :: rest =>
      if bool_decide (base_name (path file) = name) then Some O else S <$> find_name name rest
  end.

Definition is_name (name : list Z) : Prop := Forall (fun c => 1 <= c <= 255) name.

Lemma base_name_chars file : valid_source file -> is_name (base_name (path file)).
Proof. intros (_ & _ & _ & Hc). by apply Forall_drop. Qed.

Lemma name_at_nonneg index : 0 <= index -> 0 <= start_offset_at index.
Proof. intros. unfold start_offset_at, sizeof_directory_entry, FS_NAME_LEN. lia. Qed.

Lemma entry_name directory index offset file tail :
  0 <= index -> entry_written directory index offset file ->
  exists rest, drop (Z.to_nat (name_at index)) (map Some directory ++ tail)
               = c_string (base_name (path file)) ++ rest.
Proof.
  intros Hi (_ & _ & Hname). pose proof (name_at_nonneg index Hi).
  destruct (entry_layout index) as (_ & L2 & _).
  set (n := length (base_name (path file) ++ [0])) in *.
  exists (map Some (drop (Z.to_nat (name_at index) + n) directory) ++ tail).
  assert (Hlen : (Z.to_nat (name_at index) <= length directory)%nat).
  { apply (f_equal length) in Hname. unfold read_file in Hname. rewrite length_take, length_drop, length_app in Hname.
    simpl in Hname. lia. }
  rewrite drop_app_le by (rewrite length_map; lia). rewrite app_assoc. f_equal.
  change (map Some directory) with (Some <$> directory). rewrite <- fmap_drop.
  rewrite (drop_read _ n), Z2Nat.id by lia. rewrite Hname. by rewrite fmap_app.
Qed.

Lemma lookup_from_spec directory name index offset files tail :
  0 <= index -> is_name name -> Forall valid_source files ->
  entries_written directory index offset files ->
  lookup_from (length files) index name (map Some directory ++ tail)
  = Done ((fun i => index + Z.of_nat i) <$> find_name name files).
Proof.
  intros Hi Hname Hv. revert index offset Hi.
  induction Hv as [|file files Hfile _ IH]; intros index offset Hi Hw; [done|].
  destruct Hw as [Hw Hws].
  destruct (entry_name directory index offset file tail Hi Hw) as (rest & Hdrop).
  destruct (strcmp_spec (base_name (path file)) name rest (base_name_chars file Hfile) Hname)
    as (r & Hr & Heq).
  cbn [lookup_from length]. rewrite Hdrop, Hr. cbn [bind_result]. rewrite Heq.
  cbn [find_name]. destruct (bool_decide _).
  - simpl. by rewrite Z.add_0_r.
  - rewrite (IH (index + 1) (next_offset offset file)) by (done || lia). f_equal.
    destruct (find_name name files) as [i|]; [|done]. simpl. f_equal. lia.
Qed.

Lemma find_name_lookup name files i :
  find_name name files = Some i ->
  exists file, files !! i = Some file /\ base_name (path file) = name.
Proof.
  revert i. induction files as [|file files IH]; intros i H; [done|]. simpl in H.
  case_bool_decide as Heq; [injection H as <-; by exists file|].
  destruct (find_name name files) as [j|]; [|done]. injection H as <-. by apply IH.
Qed.

(** ** The directory of an image *)

(** The directory as [init_file_system] leaves it. *)
Definition directory_of (files : list source_file) (image : list Z) : list Z :=
  read_file 0 (data_offset files) image.

(** The image has the blocks its directory fills. *)
Definition whole_directory (files : list source_file) (image : list Z) : Prop :=
  data_offset files <= Z.of_nat (length image).

Lemma num_directory_blocks_spec files :
  valid_input files ->
  num_directory_blocks (Z.of_nat (length files)) * SDMMC_BLOCK_SIZE = data_offset files
  /\ 1 <= num_directory_blocks (Z.of_nat (length files)).
Proof.
  intros Hin. destruct (valid_input_sizes files Hin) as (_ & Hsize & Hge & Hmax).
  unfold header_size in Hsize. unfold num_directory_blocks.
  assert (Hs : u32 (Z.of_nat (length files) - 1) * sizeof_directory_entry + sizeof_fs_header
      + SDMMC_BLOCK_SIZE - 1 = header_bytes files + BLOCK_SIZE - 1)
    by (unfold SDMMC_BLOCK_SIZE, BLOCK_SIZE; lia).
  rewrite Hs. unfold data_offset, round_block, ROUND_UP in *.
  change BLOCK_SIZE with 512 in *. change SDMMC_BLOCK_SIZE with 512.
  assert (Hu : u32 (header_bytes files + 512 - 1) = header_bytes files + 512 - 1).
  { apply Z.mod_small. change (2 ^ 31) with 2147483648 in *. change (2 ^ 32) with 4294967296.
    Z.div_mod_to_equations. lia. }
  rewrite Hu. split; [done|]. Z.div_mod_to_equations. lia.
Qed.

Lemma directory_entries files image :
  valid_input files -> is_image files image -> whole_directory files image ->
  entries_written (directory_of files image) 0 (data_offset files) files
  /\ (forall rest, directory_word num_directory_entries_at (map Some (directory_of files image) ++ rest)
     = Done (Z.of_nat (length files)))
  /\ Z.of_nat (length (directory_of files image)) = data_offset files.
Proof.
  intros Hin Himage Hwhole. destruct (valid_input_sizes files Hin) as (_ & _ & Hge & _).
  assert (Hlen : Z.of_nat (length (directory_of files image)) = data_offset files)
    by (apply read_file_length; unfold whole_directory in *; lia).
  split; [|split; [|done]].
  - apply (entries_written_same image); [done|apply (input_valid files Hin)| |
      apply (image_entries files image Himage)].
    intros o n Hn Ho Hon. unfold directory_of. rewrite read_read; [done|lia|lia|].
    change (start_offset_at (0 + Z.of_nat (length files))) with (header_bytes files) in Hon. lia.
  - intros rest. rewrite directory_word_defined by (rewrite ?Hlen; unfold num_directory_entries_at; lia).
    f_equal. unfold load32, directory_of. rewrite read_read by (unfold num_directory_entries_at; lia).
    apply (image_count files image Himage).
Qed.

(** Looking up is [find_name]. *)
Lemma lookup_directory_spec files image name rest :
  valid_input files -> is_image files image -> whole_directory files image -> is_name name ->
  lookup_directory name (map Some (directory_of files image) ++ rest)
  = Done (i ← find_name name files; file ← files !! i;
          Some (offset_of (data_offset files) files i, Z.of_nat (length (file_bytes file)))).
Proof.
  intros Hin Himage Hwhole Hname.
  destruct (directory_entries files image Hin Himage Hwhole) as (Hw & Hn & Hlen).
  destruct (valid_input_sizes files Hin) as (_ & _ & Hge & Hmax).
  unfold lookup_directory. rewrite Hn. cbn [bind_result]. rewrite Nat2Z.id.
  rewrite (lookup_from_spec _ _ 0 (data_offset files)) by (done || apply (input_valid files Hin)).
  cbn [bind_result]. destruct (find_name name files) as [i|] eqn:Hi; [|done].
  destruct (find_name_lookup name files i Hi) as (file & Hfile & _). simpl. rewrite Hfile. simpl.
  destruct (entries_written_lookup _ _ _ _ i file Hw Hfile) as (R1 & R2 & _).
  destruct (offset_of_range (data_offset files) files i file) as (O1 & O2 & O3);
    [lia|apply round_block_spec; lia|done|].
  pose proof (next_offset_ge (offset_of (data_offset files) files i) file ltac:(lia)) as Hnext.
  pose proof (input_size files Hin) as Hsize.
  assert (Hi' : start_offset_at (Z.of_nat i) + 40 <= header_bytes files).
  { apply lookup_lt_Some in Hfile. unfold header_bytes, start_offset_at, sizeof_directory_entry,
      FS_NAME_LEN. lia. }
  destruct (entry_layout (Z.of_nat i)) as (L1 & _ & _).
  pose proof (name_at_nonneg (Z.of_nat i) ltac:(lia)) as Hpos.
  rewrite Z.add_0_l in R1, R2. cbn [fmap option_fmap option_map]. rewrite ?Z.add_0_l.
  rewrite !directory_word_defined by lia. cbn [bind_result].
  apply load_word in R1; [|split; lia]. apply load_word in R2; [|split; lia].
  by rewrite R1, R2.
Qed.

(** Where the image has a file. *)
Definition stored_at (image : list Z) (start : Z) (bytes : list Z) : Prop :=
  0 <= start /\ start mod SDMMC_BLOCK_SIZE = 0
  /\ start + Z.of_nat (length bytes) < 2 ^ 31
  /\ read_file start (Z.of_nat (length bytes)) image = bytes
  /\ (bytes <> [] -> round_block (start + Z.of_nat (length bytes)) <= Z.of_nat (length image)).

Lemma file_stored files image i file :
  valid_input files -> is_image files image -> files !! i = Some file ->
  stored_at image (offset_of (data_offset files) files i) (file_bytes file).
Proof.
  intros Hin Himage Hfile. destruct (valid_input_sizes files Hin) as (_ & _ & Hge & Hmax).
  destruct (offset_of_range (data_offset files) files i file) as (O1 & O2 & O3);
    [lia|apply round_block_spec; lia|done|].
  set (start := offset_of (data_offset files) files i) in *.
  pose proof (next_offset_ge start file ltac:(lia)) as Hnext.
  pose proof (input_size files Hin) as Hsize.
  destruct (files_copied_lookup image (data_offset files) files i file
    (image_files files image Himage) Hfile) as [Hbytes Hblocks].
  by repeat split; try lia.
Qed.

(** ** Blocks of an image *)

Section backed.
Context {S : Type} (read_block : Z -> S -> result (option (list Z) * S)) (image : list Z) (backed : S -> Prop).
Implicit Types s : S.

(** The states in [backed] read their blocks from the image. *)
Hypothesis read_backed : forall s block,
  backed s -> 0 <= block -> (block + 1) * SDMMC_BLOCK_SIZE <= Z.of_nat (length image) ->
  exists s', read_block block s
    = Done (Some (read_file (block * SDMMC_BLOCK_SIZE) SDMMC_BLOCK_SIZE image), s') /\ backed s'.

(** Block [k] is copied after the ones before it; [rest] is memory past the directory. *)
Lemma copy_block k count rest :
  0 <= k -> (k + 1) * SDMMC_BLOCK_SIZE <= Z.of_nat (length image) ->
  copy_in (SDMMC_BLOCK_SIZE * k) (read_file (k * SDMMC_BLOCK_SIZE) SDMMC_BLOCK_SIZE image)
    (map Some (read_file 0 (SDMMC_BLOCK_SIZE * k) image)
     ++ malloc (SDMMC_BLOCK_SIZE * Z.of_nat (Datatypes.S count)) ++ rest)
  = Done (map Some (read_file 0 (SDMMC_BLOCK_SIZE * (k + 1)) image)
          ++ malloc (SDMMC_BLOCK_SIZE * Z.of_nat count) ++ rest).
Proof.
  intros Hk Hl.
  assert (Hlen : length (read_file 0 (SDMMC_BLOCK_SIZE * k) image) = Z.to_nat (SDMMC_BLOCK_SIZE * k)).
  { pose proof (read_file_length 0 (SDMMC_BLOCK_SIZE * k) image) as Hf. unfold SDMMC_BLOCK_SIZE in *. lia. }
  assert (Hblock : length (read_file (k * SDMMC_BLOCK_SIZE) SDMMC_BLOCK_SIZE image) = 512%nat).
  { pose proof (read_file_length (k * SDMMC_BLOCK_SIZE) SDMMC_BLOCK_SIZE image) as Hf.
    unfold SDMMC_BLOCK_SIZE in *. lia. }
  unfold copy_in, malloc. rewrite !length_app, length_map, length_replicate, Hlen, Hblock.
  rewrite (proj2 (Z.leb_le _ _)) by (unfold SDMMC_BLOCK_SIZE in *; lia). f_equal.
  rewrite take_app_le by (rewrite length_map; lia). rewrite take_ge by (rewrite length_map; lia).
  rewrite drop_app_ge, length_map, Hlen by (rewrite length_map; lia).
  rewrite drop_app_le by (rewrite length_replicate; unfold SDMMC_BLOCK_SIZE; lia).
  rewrite drop_replicate, !app_assoc, <- map_app. do 2 f_equal.
  - f_equal. replace (SDMMC_BLOCK_SIZE * (k + 1)) with (SDMMC_BLOCK_SIZE * k + SDMMC_BLOCK_SIZE) by lia.
    rewrite (read_app 0) by (unfold SDMMC_BLOCK_SIZE; lia). by rewrite Z.add_0_l, (Z.mul_comm k).
  - f_equal. unfold SDMMC_BLOCK_SIZE. lia.
Qed.

Lemma read_directory_backed count k rest s :
  backed s -> 0 <= k -> (k + Z.of_nat count) * SDMMC_BLOCK_SIZE <= Z.of_nat (length image) ->
  exists s',
    read_directory read_block count k (map Some (read_file 0 (SDMMC_BLOCK_SIZE * k) image)
      ++ malloc (SDMMC_BLOCK_SIZE * Z.of_nat count) ++ rest) s
    = Done (true, map Some (read_file 0 (SDMMC_BLOCK_SIZE * (k + Z.of_nat count)) image) ++ rest, s')
    /\ backed s'.
Proof.
  revert k s. induction count as [|count IH]; intros k s Hs Hk Hl.
  - exists s. simpl. by rewrite Z.add_0_r.
  - assert (Hblock : (k + 1) * SDMMC_BLOCK_SIZE <= Z.of_nat (length image)) by (unfold SDMMC_BLOCK_SIZE in *; lia).
    destruct (read_backed s k Hs Hk Hblock) as (s1 & Hr & Hb).
    cbn [read_directory]. rewrite Hr. cbn [bind_result]. rewrite copy_block by done. cbn [bind_result].
    destruct (IH (k + 1) s1 Hb) as (s2 & E & Hb2); [lia|unfold SDMMC_BLOCK_SIZE in *; lia|].
    exists s2. replace (k + Z.of_nat (Datatypes.S count)) with (k + 1 + Z.of_nat count) by lia. by split.
Qed.

Lemma read_loop_backed fuel nbytes total off block stored s :
  backed s -> 0 <= off < SDMMC_BLOCK_SIZE -> 0 <= block -> total <= nbytes ->
  (Z.to_nat (nbytes - total) < fuel)%nat ->
  (total < nbytes ->
     round_block (block * SDMMC_BLOCK_SIZE + off + (nbytes - total)) <= Z.of_nat (length image)) ->
  exists s',
    read_loop read_block fuel nbytes total off block stored s
    = Done (true, stored ++ read_file (block * SDMMC_BLOCK_SIZE + off) (nbytes - total) image, s')
    /\ backed s'.
Proof.
  revert total off block stored s. induction fuel as [|fuel IH];
    intros total off block stored s Hs Hoff Hblock Htotal Hfuel Hlen; [lia|].
  cbn [read_loop]. destruct (total <? nbytes) eqn:Hlt; bool_to_prop.
  2:{ exists s. replace (nbytes - total) with 0 by lia.
      unfold read_file at 1. cbn [Z.to_nat take]. by rewrite app_nil_r. }
  specialize (Hlen Hlt).
  pose proof (round_block_spec (block * SDMMC_BLOCK_SIZE + off + (nbytes - total))) as Hround.
  change BLOCK_SIZE with 512 in *. change SDMMC_BLOCK_SIZE with 512 in *.
  destruct (read_backed s block Hs Hblock) as (s1 & Hr & Hb).
  { change SDMMC_BLOCK_SIZE with 512. Z.div_mod_to_equations. lia. }
  rewrite Hr. cbn [bind_result]. change SDMMC_BLOCK_SIZE with 512 in *.
  set (got := read_file (block * 512) 512 image).
  assert (Hstep : forall n next, 0 < n <= nbytes - total -> (n = 512 - off \/ n = nbytes - total) ->
    n <= 512 - off -> next = stored ++ read_file off n got ->
    exists s',
      read_loop read_block fuel nbytes (total + n) 0 (block + 1) next s1
      = Done (true, stored ++ read_file (block * 512 + off) (nbytes - total) image, s')
      /\ backed s').
  { intros n next Hn Hcase Hle ->.
    destruct (IH (total + n) 0 (block + 1) (stored ++ read_file off n got) s1 Hb)
      as (s' & E & Hb'); [lia|lia|lia|lia| |].
    - intros Hmore. destruct Hcase as [Hcase|Hcase]; [|lia]. rewrite <- Hlen.
      apply Z.eq_le_incl. f_equal. lia.
    - exists s'. split; [|done]. rewrite E. do 2 f_equal. rewrite <- app_assoc. do 3 f_equal.
      unfold got. rewrite read_read by lia.
      replace (nbytes - total) with (n + (nbytes - (total + n))) by lia.
      rewrite (read_app (block * 512 + off)) by lia. f_equal. destruct Hcase as [Hcase|Hcase].
      + f_equal. lia.
      + replace (nbytes - (total + n)) with 0 by lia. done. }
  destruct ((off =? 0) && (512 <=? nbytes - total)) eqn:Hfull; bool_to_prop.
  - subst off. apply Hstep; [lia|lia|lia|]. f_equal. unfold got, read_file.
    by rewrite drop_0, take_take.
  - set (n := if _ <? _ then _ else _).
    assert (Hn : n = Z.min (nbytes - total) (512 - off))
      by (subst n; destruct (_ <? 512 - off) eqn:E; bool_to_prop; lia).
    apply Hstep; [lia|lia|lia|done].
Qed.
Lemma malloc_add m n : 0 <= m -> 0 <= n -> malloc (m + n) = malloc m ++ malloc n.
Proof. intros. unfold malloc. by rewrite Z2Nat.inj_add, replicate_add. Qed.

(** What mounting the image reads, with [extra] bytes allocated past the directory. *)
Lemma mount_backed files extra s :
  valid_input files -> is_image files image -> whole_directory files image -> backed s -> 0 <= extra ->
  let super := read_file 0 SDMMC_BLOCK_SIZE image in
  let blocks := num_directory_blocks (Z.of_nat (length files)) in
  exists s1, read_block 0 s = Done (Some super, s1) /\ backed s1
    /\ read_file magic_at 4 super = FS_MAGIC
    /\ load32 num_directory_entries_at super = Z.of_nat (length files)
    /\ exists directory, copy_in 0 super (malloc (blocks * SDMMC_BLOCK_SIZE + extra)) = Done directory
    /\ forall s2, backed s2 -> exists s3,
         read_directory read_block (Z.to_nat (blocks - 1)) 1 directory s2
         = Done (true, map Some (directory_of files image) ++ malloc extra, s3) /\ backed s3.
Proof.
  intros Hin Himage Hwhole Hs Hextra super blocks.
  destruct (valid_input_sizes files Hin) as (_ & _ & Hge & Hmax).
  destruct (num_directory_blocks_spec files Hin) as [Hblocks Hone]. fold blocks in Hblocks, Hone.
  assert (Hfirst : 512 <= Z.of_nat (length image)) by (unfold whole_directory, SDMMC_BLOCK_SIZE in *; lia).
  destruct (read_backed s 0 Hs ltac:(lia) Hfirst) as (s1 & Hr & Hs1). exists s1. split; [exact Hr|]. split; [done|].
  assert (Hsuper : forall o n, 0 <= o -> o + n <= SDMMC_BLOCK_SIZE ->
    read_file o n super = read_file o n image) by (intros; unfold super; rewrite read_read; [done|lia..]).
  rewrite Hsuper by done. split; [by apply (image_magic files)|].
  split; [unfold load32; rewrite Hsuper by done; apply (image_count files image Himage)|].
  pose proof (copy_block 0 (Z.to_nat (blocks - 1)) (malloc extra) ltac:(lia) Hfirst) as Hcopy.
  rewrite <- malloc_add in Hcopy by (unfold SDMMC_BLOCK_SIZE; lia). change (SDMMC_BLOCK_SIZE * 0) with 0 in Hcopy.
  simpl (map Some _ ++ _) in Hcopy.
  replace (SDMMC_BLOCK_SIZE * Z.of_nat (Datatypes.S (Z.to_nat (blocks - 1)))) with (blocks * SDMMC_BLOCK_SIZE)
    in Hcopy by (unfold SDMMC_BLOCK_SIZE; lia).
  eexists. split; [exact Hcopy|]. intros s2 Hs2.
  destruct (read_directory_backed (Z.to_nat (blocks - 1)) 1 (malloc extra) s2 Hs2) as (s3 & E & Hs3);
    [lia|unfold SDMMC_BLOCK_SIZE, whole_directory in *; lia|].
  replace (SDMMC_BLOCK_SIZE * (1 + Z.of_nat (Z.to_nat (blocks - 1)))) with (data_offset files) in E
    by (unfold SDMMC_BLOCK_SIZE in *; lia).
  exists s3. by split.
Qed.
(** Part of a file is read. *)
Lemma read_window start bytes position n s :
  backed s -> stored_at image start bytes -> 0 <= position -> 0 < n -> position + n <= Z.of_nat (length bytes) ->
  exists s',
    read_loop read_block (Datatypes.S (Z.to_nat n)) n 0 (position mod SDMMC_BLOCK_SIZE)
      (Z.quot (start + position) SDMMC_BLOCK_SIZE) [] s
    = Done (true, read_file position n bytes, s') /\ backed s'.
Proof.
  intros Hs (H0 & Hmod & Hmax & Hbytes & Hwhole) Hpos Hn Hin.
  assert (Hquot : Z.quot (start + position) SDMMC_BLOCK_SIZE * SDMMC_BLOCK_SIZE
    + position mod SDMMC_BLOCK_SIZE = start + position).
  { rewrite Z.quot_div_nonneg by (unfold SDMMC_BLOCK_SIZE; lia).
    change SDMMC_BLOCK_SIZE with 512 in *. clear - Hmod. Z.div_mod_to_equations. lia. }
  destruct (read_loop_backed (Datatypes.S (Z.to_nat n)) n 0 (position mod SDMMC_BLOCK_SIZE)
    (Z.quot (start + position) SDMMC_BLOCK_SIZE) [] s Hs) as (s' & Hl & Hb).
  - by apply Z.mod_pos_bound.
  - apply Z.quot_pos; [lia|done].
  - lia.
  - lia.
  - intros Hlt. rewrite Hquot. etransitivity; [|apply Hwhole; intros ->; simpl in *; lia].
    unfold round_block, ROUND_UP. apply Z.mul_le_mono_nonneg_r; [done|].
    apply Z.div_le_mono; [done|]. lia.
  - exists s'. split; [|done]. rewrite Hl, Hquot, Z.sub_0_r, app_nil_l. do 3 f_equal.
    rewrite <- Hbytes. by rewrite read_read by lia.
Qed.
End backed.

(** ** Blocks from a card *)

Section on_card.
Context {B : Type} `{SdCard B} (ramdisk : list Z).
Implicit Types s : file_system B.

(** [s] reads its blocks from a card that holds [image]. *)
Definition backed_by (image : list Z) s : Prop :=
  use_ramdisk s = false /\ card_file image (device s) /\ Z.of_nat (length image) < 2 ^ 31.

Lemma read_block_card image s block :
  backed_by image s -> 0 <= block -> (block + 1) * SDMMC_BLOCK_SIZE <= Z.of_nat (length image) ->
  exists b, read_block ramdisk block s
    = Done (Some (read_file (block * SDMMC_BLOCK_SIZE) SDMMC_BLOCK_SIZE image),
            s <| device := b |>)
    /\ backed_by image (s <| device := b |>).
Proof.
  intros (Hram & Hcard & Hmax) H0 Hl.
  destruct (read_block_of_card image (device s) block Hcard H0 Hl) as (b & Hr & Hb); [lia|].
  exists b. split; [|done]. unfold read_block. rewrite Hram.
  replace (u32 block) with block; [by rewrite Hr|]. symmetry. apply u32_nonneg_small.
  unfold SDMMC_BLOCK_SIZE in Hl. lia.
Qed.

(** The image is read on and on, and only the device changes. *)
Definition device_moved (image : list Z) (s s' : file_system B) : Prop :=
  backed_by image s' /\ exists b, s' = s <| device := b |>.

Lemma read_moved image s0 s block :
  device_moved image s0 s -> 0 <= block -> (block + 1) * SDMMC_BLOCK_SIZE <= Z.of_nat (length image) ->
  exists s', read_block ramdisk block s
    = Done (Some (read_file (block * SDMMC_BLOCK_SIZE) SDMMC_BLOCK_SIZE image), s') /\ device_moved image s0 s'.
Proof.
  intros [Hs [b ->]] H0 Hl. destruct (read_block_card image _ block Hs H0 Hl) as (b' & -> & Hb').
  eexists. split; [reflexivity|]. split; [exact Hb'|]. by exists b'.
Qed.

(** ** Mounting an image *)

Lemma init_file_system_card files image s :
  valid_input files -> is_image files image -> whole_directory files image ->
  use_ramdisk s = false -> card_off image (device s) ->
  exists b,
    let s' := s <| fs_directory := Some (map Some (directory_of files image)) |>
                <| device := b |> in
    init_file_system ramdisk s = Done (0, s') /\ backed_by image s'.
Proof.
  intros Hin Himage Hwhole Hram Hoff.
  destruct (valid_input_sizes files Hin) as (_ & _ & Hge & Hmax).
  destruct (num_directory_blocks_spec files Hin) as [Hblocks Hone].
  pose proof (image_header files image Himage) as Hlen. pose proof (input_size files Hin) as Hsize.
  destruct (card_init image (device s) Hoff) as (b0 & Hinit & Hb0).
  unfold init_file_system. rewrite Hinit. cbn [bind_result]. rewrite Z.ltb_irrefl.
  set (s0 := s <| device := b0 |>).
  assert (Hs0 : device_moved image s0 s0) by (split; [split; [done|split; [done|lia]]|by exists b0]).
  destruct (mount_backed (read_block ramdisk) image (device_moved image s0) (read_moved image s0) files 0 s0
    Hin Himage Hwhole Hs0 ltac:(lia)) as (s1 & Hr & Hs1 & Hmagic & Hcount & directory & Hcopy & Hdir).
  rewrite Hr. cbn [bind_result]. rewrite Hmagic, bool_decide_true by done. cbn [negb]. rewrite Hcount.
  set (blocks := num_directory_blocks _) in *.
  assert (Hu : u32 (blocks * SDMMC_BLOCK_SIZE) = blocks * SDMMC_BLOCK_SIZE + 0)
    by (rewrite Z.add_0_r; apply u32_nonneg_small; unfold SDMMC_BLOCK_SIZE in *; lia).
  rewrite Hu, Hcopy. cbn [bind_result].
  destruct (Hdir s1 Hs1) as (s2 & E & Hs2 & b & ->). rewrite E. cbn [bind_result].
  exists b. rewrite app_nil_r. by split.
Qed.

(** ** An open file is a cursor in its bytes *)

(** A file that is open at [position]. *)
Record reading (image : list Z) (fd : Z) (bytes : list Z) (position : Z) s : Prop := {
  reading_card : backed_by image s;
  reading_fd : exists start,
    descriptor fd s = Some {| is_open := true; file_length := Z.of_nat (length bytes);
                              start_offset := start; current_offset := position |}
    /\ stored_at image start bytes;
  reading_position : 0 <= position < 2 ^ 31
}.

Lemma descriptor_some fd s f :
  descriptor fd s = Some f ->
  0 <= fd < MAX_DESCRIPTORS /\ file_descriptors s !! Z.to_nat fd = Some f /\ is_open f = true.
Proof.
  unfold descriptor. destruct ((fd <? 0) || _) eqn:E; [done|]. bool_to_prop.
  destruct (file_descriptors s !! _) as [g|] eqn:Hg; [|done]. simpl.
  destruct (is_open g) eqn:Ho; [|done]. intros [= ->]. repeat split; done.
Qed.

Lemma descriptor_set fd f g s :
  descriptor fd s = Some f -> is_open g = true -> descriptor fd (set_descriptor fd g s) = Some g.
Proof.
  intros Hf Hg. apply descriptor_some in Hf as (Hfd & Hl & _). unfold descriptor.
  rewrite (proj2 (Z.ltb_ge _ _)), (proj2 (Z.leb_gt _ _)) by lia. simpl.
  rewrite list_lookup_insert_eq by (by eapply lookup_lt_Some). simpl. by rewrite Hg.
Qed.

Lemma reading_set image fd bytes position position' s :
  reading image fd bytes position s -> 0 <= position' < 2 ^ 31 ->
  forall f, descriptor fd s = Some f ->
  reading image fd bytes position' (set_descriptor fd (f <| current_offset := position' |>) s).
Proof.
  intros [Hcard (start & Hd & Hrest) _] Hp f Hf. rewrite Hd in Hf. injection Hf as <-.
  constructor; [exact Hcard| |done]. exists start. split; [|done].
  by eapply descriptor_set.
Qed.

Inductive file_operation :=
| Read (nbytes : Z)
| Seek (offset whence : Z).

(** The result and, for a read, the bytes stored. *)
Definition file_step (fd : Z) (op : file_operation) s : result (Z * list Z * file_system B) :=
  match op with
  | Read nbytes => read ramdisk fd nbytes s
  | Seek offset whence => let '(r, s) := lseek fd offset whence s in Done (r, [], s)
  end.

Fixpoint file_run (fd : Z) (ops : list file_operation) s
  : result (list (Z * list Z) * file_system B) :=
  match ops with
  | [] => Done ([], s)
  | op :: rest =>
      '(r, stored, s) <-- file_step fd op s;;
      '(rs, s) <-- file_run fd rest s;;
      Done ((r, stored) :: rs, s)
  end.
End on_card.

(** The specification: the bytes of the file and a position.  A seek before the start goes to
    the start. *)
Definition cursor_step (bytes : list Z) (op : file_operation) (position : Z) : Z * list Z * Z :=
  match op with
  | Read nbytes =>
      let data := read_file position nbytes bytes in
      let n := Z.of_nat (length data) in (n, data, position + n)
  | Seek offset whence =>
      let from := if whence =? SEEK_SET then 0 else if whence =? SEEK_CUR then position else Z.of_nat (length bytes) in
      (Z.max 0 (from + offset), [], Z.max 0 (from + offset))
  end.

Fixpoint cursor_run (bytes : list Z) (ops : list file_operation) (position : Z)
  : list (Z * list Z) :=
  match ops with
  | [] => []
  | op :: rest =>
      let '(r, data, position) := cursor_step bytes op position in
      (r, data) :: cursor_run bytes rest position
  end.

(** [nbytes] is an [unsigned int], [offset] an [int]; positions are [int]s, and a seek relative
    to the end is to the end ([seek_end_subtracts] is what the others do). *)
Definition valid_operation (op : file_operation) (position : Z) : Prop :=
  match op with
  | Read nbytes => is_u32 nbytes
  | Seek offset whence =>
      - 2 ^ 31 <= offset < 2 ^ 31
      /\ (whence = SEEK_SET \/ (whence = SEEK_CUR /\ position + offset < 2 ^ 31) \/ (whence = SEEK_END /\ offset = 0))
  end.

#[export]
Instance valid_operation_dec op position : Decision (valid_operation op position).
Proof. destruct op; apply _. Defined.

Fixpoint valid_operations (bytes : list Z) (ops : list file_operation) (position : Z) : Prop :=
  match ops with
  | [] => True
  | op :: rest => valid_operation op position /\ valid_operations bytes rest (cursor_step bytes op position).2
  end.

#[export]
Instance valid_operations_dec bytes ops position : Decision (valid_operations bytes ops position).
Proof. revert position. induction ops as [|op ops IH]; intros position; apply _. Defined.

Section refinement.
Context {B : Type} `{SdCard B} (ramdisk : list Z).
Implicit Types s : file_system B.

Lemma read_file_past position n bytes :
  Z.of_nat (length bytes) <= position -> read_file position n bytes = [].
Proof. intros Hp. unfold read_file. rewrite drop_ge by lia. apply take_nil. Qed.

Lemma read_file_min position n bytes :
  0 <= position <= Z.of_nat (length bytes) -> 0 <= n ->
  read_file position n bytes
  = read_file position (Z.min n (Z.of_nat (length bytes) - position)) bytes.
Proof.
  intros Hp Hn. unfold read_file. rewrite Z2Nat.inj_min.
  destruct (Z.le_gt_cases n (Z.of_nat (length bytes) - position)).
  - f_equal. lia.
  - rewrite !take_ge; [done|..]; rewrite length_drop; lia.
Qed.

Lemma read_reading image fd bytes position nbytes s :
  reading image fd bytes position s -> is_u32 nbytes ->
  let data := read_file position nbytes bytes in
  exists s', read ramdisk fd nbytes s = Done (Z.of_nat (length data), data, s')
    /\ reading image fd bytes (position + Z.of_nat (length data)) s'.
Proof.
  intros Hs [Hn0 Hn1] data. pose proof Hs as [Hcard (start & Hd & Hstored) Hpos].
  pose proof Hstored as (H0 & _ & Hmax & _).
  unfold read. rewrite Hd. cbn [file_length current_offset start_offset]. cbv zeta.
  rewrite (s32_small (_ - _)) by (change (2 ^ 31) with 2147483648 in *; lia).
  destruct (_ <=? 0) eqn:E; bool_to_prop.
  { assert (Hdata : data = []) by (apply read_file_past; lia).
    exists s. rewrite Hdata. cbn [length Z.of_nat]. rewrite Z.add_0_r. by split. }
  set (n := if _ <? nbytes then _ else nbytes).
  assert (Hn : n = Z.min nbytes (Z.of_nat (length bytes) - position))
    by (subst n; destruct (_ <? nbytes) eqn:E'; bool_to_prop; lia).
  assert (Hdata : data = read_file position n bytes)
    by (subst data; rewrite Hn; apply read_file_min; lia).
  assert (Hlen : Z.of_nat (length data) = n) by (rewrite Hdata; apply read_file_length; lia).
  rewrite (s32_small (start + position)) by (change (2 ^ 31) with 2147483648 in *; lia).
  change (Z.land position (SDMMC_BLOCK_SIZE - 1)) with (Z.land position (Z.ones 9)).
  rewrite (Z.land_ones position 9) by lia. change (2 ^ 9) with SDMMC_BLOCK_SIZE.
  destruct (Z.eq_dec n 0) as [Hn0'|Hn0'].
  - replace data with (@nil Z) in * by (symmetry; apply length_zero_iff_nil; lia). rewrite Hn0'. cbn [Z.to_nat read_loop].
    cbn [Z.ltb Z.compare bind_result length Z.of_nat]. eexists. split; [reflexivity|].
    set (f := Build_file_descriptor _ _ _ _) in *.
    replace (f <| current_offset ::= fun o => s32 (o + 0) |>) with (f <| current_offset := position + 0 |>)
      by (unfold f, update; simpl; by rewrite s32_small by (change (2 ^ 31) with 2147483648 in *; lia)).
    apply (reading_set image fd bytes position); [done|lia|exact Hd].
  - destruct (read_window (read_block ramdisk) image (device_moved image s) (read_moved ramdisk image s)
      start bytes position n s) as (s' & Hl & Hb & b & ->); [|done|lia..|].
    + split; [done|]. exists (device s). by destruct s.
    + rewrite Hl. cbn [bind_result]. rewrite <- Hdata, Hlen. eexists. split; [reflexivity|].
      set (f := Build_file_descriptor _ _ _ _) in *.
      replace (f <| current_offset ::= fun o => s32 (o + n) |>)
        with (f <| current_offset := position + n |>)
        by (unfold f, update; simpl; by rewrite s32_small by (change (2 ^ 31) with 2147483648 in *; lia)).
      apply (reading_set image fd bytes position); [|lia|exact Hd].
      constructor; [exact Hb| |done]. by exists start.
Qed.

(** Where the code goes: a seek relative to the end goes backwards. *)
Definition seek_target (bytes : list Z) (position offset whence : Z) : Z :=
  if whence =? SEEK_SET then offset
  else if whence =? SEEK_CUR then s32 (position + offset)
  else s32 (Z.of_nat (length bytes) - offset).

Lemma seek_reading image fd bytes position offset whence s :
  reading image fd bytes position s -> - 2 ^ 31 <= offset < 2 ^ 31 -> 0 <= whence <= 2 ->
  let position' := Z.max 0 (seek_target bytes position offset whence) in
  exists s', lseek fd offset whence s = (position', s') /\ reading image fd bytes position' s'.
Proof.
  intros Hs Hoff Hw. pose proof Hs as [_ (start & Hd & _) _]. cbv zeta.
  set (target := seek_target _ _ _ _).
  assert (Hrange : - 2 ^ 31 <= target < 2 ^ 31).
  { subst target. unfold seek_target. destruct (whence =? SEEK_SET); [done|].
    destruct (whence =? SEEK_CUR); exact (is_signed_range 32 _ eq_refl). }
  unfold lseek. rewrite Hd. cbn [file_length current_offset]. cbv zeta.
  assert (Hseek : forall p, p = target ->
    ((if p <? 0 then 0 else p),
     set_descriptor fd ({| is_open := true; file_length := Z.of_nat (length bytes);
       start_offset := start; current_offset := position |}
       <| current_offset := if p <? 0 then 0 else p |>) s)
    = (Z.max 0 target, set_descriptor fd ({| is_open := true;
         file_length := Z.of_nat (length bytes); start_offset := start;
         current_offset := position |} <| current_offset := Z.max 0 target |>) s)).
  { intros p ->. replace (if target <? 0 then 0 else target) with (Z.max 0 target); [done|].
    destruct (target <? 0) eqn:E; bool_to_prop; lia. }
  eexists. split.
  - unfold seek_target in target. destruct (whence =? SEEK_SET) eqn:E0; [apply Hseek; subst target; done|].
    destruct (whence =? SEEK_CUR) eqn:E1; [apply Hseek; subst target; done|].
    destruct (whence =? SEEK_END) eqn:E2; [apply Hseek; subst target; done|].
    bool_to_prop. unfold SEEK_SET, SEEK_CUR, SEEK_END in *. lia.
  - apply (reading_set image fd bytes position); [done|lia|exact Hd].
Qed.

(** A seek relative to the end goes the other way. *)
Lemma seek_end_subtracts image fd bytes position offset s :
  reading image fd bytes position s -> 0 <= offset <= Z.of_nat (length bytes) -> Z.of_nat (length bytes) < 2 ^ 31 ->
  exists s', lseek fd offset SEEK_END s = (Z.of_nat (length bytes) - offset, s').
Proof.
  intros Hs Hoff Hlen. destruct (seek_reading image fd bytes position offset SEEK_END s Hs) as (s' & E & _); [lia|done|].
  exists s'. rewrite E. unfold seek_target. simpl. rewrite s32_small by lia. f_equal. lia.
Qed.

(** The target of a valid seek. *)
Lemma valid_seek_target image fd bytes position offset whence s :
  reading image fd bytes position s -> valid_operation (Seek offset whence) position ->
  0 <= whence <= 2 /\ Z.max 0 (seek_target bytes position offset whence) = (cursor_step bytes (Seek offset whence) position).2.
Proof.
  intros [_ (start & _ & Hstored) Hpos] [Hoff Hw]. pose proof Hstored as (H0 & _ & Hlt & _).
  destruct Hw as [->|[[-> Hlt']|[-> ->]]]; (split; [done|]); unfold seek_target; simpl; [done|..]; rewrite s32_small by lia; f_equal; lia.
Qed.

Lemma file_run_reading image fd bytes ops position s :
  reading image fd bytes position s -> valid_operations bytes ops position ->
  exists s', file_run ramdisk fd ops s = Done (cursor_run bytes ops position, s').
Proof.
  revert position s. induction ops as [|op ops IH]; intros position s Hs Hops; [by exists s|]. destruct Hops as [Hop Hops].
  destruct op as [nbytes|offset whence].
  - destruct (read_reading image fd bytes position nbytes s Hs Hop) as (s1 & E & Hs1).
    destruct (IH _ s1 Hs1 Hops) as (s2 & E2). exists s2. cbn [file_run file_step]. rewrite E.
    cbn [bind_result]. by rewrite E2.
  - destruct (valid_seek_target image fd bytes position offset whence s Hs Hop) as [Hw Htarget].
    destruct (seek_reading image fd bytes position offset whence s Hs (proj1 Hop) Hw) as (s1 & E & Hs1).
    rewrite Htarget in E, Hs1. destruct (IH _ s1 Hs1 Hops) as (s2 & E2). exists s2.
    cbn [file_run file_step]. rewrite E. cbn [bind_result]. by rewrite E2.
Qed.

Lemma open_card files image name b :
  valid_input files -> is_image files image -> whole_directory files image -> is_name name ->
  card_off image b ->
  match find_name name files with
  | None => exists s, open ramdisk name (fs_init b) = Done (-1, s) /\ errno s = ENOENT
  | Some i => exists file s, files !! i = Some file /\
      open ramdisk name (fs_init b) = Done (0, s) /\ reading image 0 (file_bytes file) 0 s
  end.
Proof.
  intros Hin Himage Hwhole Hname Hoff.
  destruct (init_file_system_card ramdisk files image (fs_init b) Hin Himage Hwhole eq_refl Hoff)
    as (b' & E & Hb').
  destruct (valid_input_sizes files Hin) as (_ & _ & Hge & Hmax).
  unfold open. change (fs_initialized (fs_init b)) with false. cbv iota. rewrite E.
  cbn [bind_result]. rewrite Z.ltb_irrefl. set (s0 := update _ _) in *.
  set (s := s0 <| fs_initialized := true |>).
  assert (Hfree : free_descriptor (file_descriptors s) 0 = Some 0) by done.
  unfold open_initialized. rewrite Hfree.
  unfold lookup_file. change (fs_directory s) with (Some (map Some (directory_of files image))). cbv iota beta.
  rewrite <- (app_nil_r (map Some _)). rewrite lookup_directory_spec by done. cbn [bind_result].
  destruct (find_name name files) as [i|] eqn:Hi; [|by eexists].
  destruct (find_name_lookup name files i Hi) as (file & Hfile & _). simpl. rewrite Hfile. simpl.
  pose proof (file_stored files image i file Hin Himage Hfile) as Hstored. pose proof Hstored as (H0 & _ & Hlt & _).
  set (start := offset_of (data_offset files) files i) in *.
  eexists file, _. split; [done|]. split; [reflexivity|].
  rewrite !s32_small by lia. constructor; [exact Hb'| |lia].
  exists start. by split.
Qed.

(** Some file is not empty: an image of empty files is a header that does not fill a block. *)
Lemma whole_directory_nonempty files image :
  valid_input files -> is_image files image -> Exists (fun f => file_bytes f <> []) files ->
  whole_directory files image.
Proof.
  intros Hin Himage Hex. apply Exists_exists in Hex as (file & Hfile & Hne).
  apply list_elem_of_In, list_elem_of_lookup in Hfile as [i Hfile].
  destruct (valid_input_sizes files Hin) as (_ & _ & Hge & _).
  destruct (offset_of_range (data_offset files) files i file) as (O1 & _ & _);
    [lia|apply round_block_spec; lia|done|].
  destruct (files_copied_lookup image (data_offset files) files i file
    (image_files files image Himage) Hfile) as [_ Hblocks].
  specialize (Hblocks Hne). unfold whole_directory.
  pose proof (next_offset_ge (offset_of (data_offset files) files i) file ltac:(lia)). lia.
Qed.

(** C7: an image built by mkfs is served by the bare-metal file system, over any card that
    keeps the promises of [SdCard].  The files have base names that fit a directory entry and
    not all of them are empty.  The first [open] initialises the card, mounts the image
    and finds exactly the files that were packed, by their base name: -1 and ENOENT for any
    other name, descriptor 0 for a name that is there.  From then on every sequence of reads
    and seeks on that descriptor returns what a cursor in the bytes of the original file
    returns, whatever the block boundaries and the contents of the header's memory were.  The
    seeks are to a position from the start or from the current one that is an [int], and to the
    end; others from the end go the wrong way. *)
Theorem packed_files_are_served files header :
  valid_input files -> Exists (fun f => file_bytes f <> []) files ->
  Z.of_nat (length header) = header_size (Z.of_nat (length files)) ->
  exists image, mkfs files header = Done (Some image) /\
    forall (b : B) name, card_off image b -> is_name name ->
    match find_name name files with
    | None => exists s, open ramdisk name (fs_init b) = Done (-1, s) /\ errno s = ENOENT
    | Some i => exists file s, files !! i = Some file /\
        open ramdisk name (fs_init b) = Done (0, s) /\
        forall ops, valid_operations (file_bytes file) ops 0 ->
        exists s', file_run ramdisk 0 ops s = Done (cursor_run (file_bytes file) ops 0, s')
    end.
Proof.
  intros Hin Hex Hlen. destruct (mkfs_spec files header Hin Hlen) as (image & Hmk & Himage).
  exists image. split; [done|]. intros b name Hoff Hname.
  pose proof (whole_directory_nonempty files image Hin Himage Hex) as Hwhole.
  pose proof (open_card files image name b Hin Himage Hwhole Hname Hoff) as Hopen.
  destruct (find_name name files) as [i|]; [|done].
  destruct Hopen as (file & s & Hf & Ho & Hr). exists file, s. split; [done|]. split; [done|].
  intros ops Hops. by eapply file_run_reading.
Qed.
End refinement.

(** "d/hi" holds 600 bytes, "/lo" three. *)
Definition sample_files : list source_file :=
  [{| path := [0x64; 0x2f; 0x68; 0x69]; contents := Some (map Z.of_nat (seq 0 200 ++ seq 0 200 ++ seq 0 200)) |};
   {| path := [0x2f; 0x6c; 0x6f]; contents := Some [7; 8; 9] |}].

Lemma sample_valid : valid_input sample_files.
Proof.
  constructor; [discriminate| |vm_compute; reflexivity].
  apply List.Forall_cons; [|apply List.Forall_cons; [|apply Forall_nil_2]];
    (split; [by eexists|split; [discriminate|split; [reflexivity|vm_decide]]]).
Qed.

(** The emulator started with the image of the files. *)
Lemma sample_card image :
  mkfs sample_files (replicate 88 0xdd) = Done (Some image) -> card_off image (started (Some image)).
Proof.
  intros Hm. exists (Random.seed_random 1). split; [split; vm_decide|]. split; [|done].
  apply (bool_decide_unpack _).
  assert (Hb : match mkfs sample_files (replicate 88 0xdd) with
               | Done (Some image) => bool_decide (Forall is_u8 image) | _ => false end = true)
    by (vm_compute; reflexivity).
  rewrite Hm in Hb. by rewrite Hb.
Qed.

Lemma packed_files_are_served_witness :
  exists image, mkfs sample_files (replicate 88 0xdd) = Done (Some image) /\
    (exists s, open [] [0x78] (fs_init (started (Some image))) = Done (-1, s) /\ errno s = ENOENT) /\
    exists s s', open [] [0x6c; 0x6f] (fs_init (started (Some image))) = Done (0, s) /\
      file_run [] 0 [Read 2; Read 9; Read 1; Seek 0 SEEK_END; Seek (-2) SEEK_CUR; Read 1] s
      = Done ([(2, [7; 8]); (1, [9]); (0, []); (3, []); (1, []); (1, [8])], s').
Proof.
  destruct (packed_files_are_served (B := devices) [] sample_files (replicate 88 0xdd) sample_valid)
    as (image & Hm & Hserved).
  { constructor. discriminate. }
  { reflexivity. }
  exists image. split; [exact Hm|]. pose proof (sample_card image Hm) as Hoff.
  split.
  - apply (Hserved _ [0x78] Hoff). vm_decide.
  - destruct (Hserved _ [0x6c; 0x6f] Hoff) as (file & s & Hfile & Ho & Hrun);
      [vm_decide|].
    injection Hfile as <-.
    destruct (Hrun [Read 2; Read 9; Read 1; Seek 0 SEEK_END; Seek (-2) SEEK_CUR; Read 1]) as (s' & Hs').
    { vm_decide. }
    exists s, s'. split; [exact Ho|exact Hs'].
Defined.
