(* ===== verification/SerialBoot.v ===== *)
(** * SerialBoot: loading a program over the serial line

    The first stage loader in ROM (software/bootrom/boot.c) and its host program
    (tools/serial_boot/serial_boot.c), joined by a line that neither loses nor changes
    bytes.

    The loader is a program over the effects it has: a byte received, a byte sent, a byte
    stored.  Waiting for a byte, it also blinks an LED; that and the wait for room in the
    transmitter are left out.  The host runs in lockstep with it: a read that times out is
    one the loader will never answer without another byte. *)

From stdpp Require Import functions.
From S2P Require Export Util.

#[local] Open Scope Z_scope.

(** ** protocol.h *)

Definition LOAD_MEMORY_REQ : Z := 0xc0.
Definition LOAD_MEMORY_ACK : Z := 0xc1.
Definition CLEAR_MEMORY_REQ : Z := 0xc6.
Definition CLEAR_MEMORY_ACK : Z := 0xc7.
Definition EXECUTE_REQ : Z := 0xc2.
Definition EXECUTE_ACK : Z := 0xc3.
Definition PING_REQ : Z := 0xc4.
Definition PING_ACK : Z := 0xc5.
Definition BAD_COMMAND : Z := 0xc8.

(** The FNV-1a hash both sides compute. *)
Definition FNV_OFFSET : Z := 2166136261.
Definition fnv_step (checksum ch : Z) : Z := u32 (Z.lxor checksum ch * 16777619).

(** ** The boot ROM *)

Module Boot.

Inductive rom (A : Type) :=
| Ret (a : A)
| Recv (k : Z -> rom A)
| Send (byte : Z) (k : rom A)
| Store (address byte : Z) (k : rom A).

Arguments Ret {A} a.
Arguments Recv {A} k.
Arguments Send {A} byte k.
Arguments Store {A} address byte k.

Fixpoint bind {A B} (p : rom A) (f : A -> rom B) : rom B :=
  match p with
  | Ret a => f a
  | Recv k => Recv (fun byte => bind (k byte) f)
  | Send byte k => Send byte (bind k f)
  | Store address byte k => Store address byte (bind k f)
  end.

Notation "x <~ p ;; q" := (bind p (fun x => q))
  (at level 20, p at level 99, q at level 200, only parsing) : nyuzi_scope.

Definition read_serial_byte : rom Z := Recv Ret.
Definition write_serial_byte (ch : Z) : rom unit := Send (u8 ch) (Ret tt).

Fixpoint read_serial_loop (count : nat) (result : Z) : rom Z :=
  match count with
  | O => Ret result
  | S count' =>
      byte <~ read_serial_byte;;
      read_serial_loop count' (Z.lor (Z.shiftr result 8) (u32 (Z.shiftl byte 24)))
  end.

Definition read_serial_long : rom Z := read_serial_loop 4 0.

Definition write_serial_long (value : Z) : rom unit :=
  _ <~ write_serial_byte (Z.land value 0xff);;
  _ <~ write_serial_byte (Z.land (Z.shiftr value 8) 0xff);;
  _ <~ write_serial_byte (Z.land (Z.shiftr value 16) 0xff);;
  write_serial_byte (Z.land (Z.shiftr value 24) 0xff).

(** The loop of LOAD_MEMORY_REQ: [count] bytes are left. *)
Fixpoint load_loop (count : nat) (load_addr checksum : Z) : rom Z :=
  match count with
  | O => Ret checksum
  | S count' =>
      ch <~ read_serial_byte;;
      Store load_addr (u8 ch) (load_loop count' (u32 (load_addr + 1)) (fnv_step checksum ch))
  end.

(** A word stored through a pointer to [unsigned int]; the core is little-endian. *)
Definition store_word (dest wide : Z) (k : rom unit) : rom unit :=
  Store dest (u8 wide) (Store (u32 (dest + 1)) (u8 (Z.shiftr wide 8))
    (Store (u32 (dest + 2)) (u8 (Z.shiftr wide 16))
      (Store (u32 (dest + 3)) (u8 (Z.shiftr wide 24)) k))).

(** Write one byte at a time; [length] bytes are left. *)
Fixpoint fill_bytes (length : nat) (dest value : Z) : rom unit :=
  match length with
  | O => Ret tt
  | S length' => Store dest (u8 value) (fill_bytes length' (u32 (dest + 1)) value)
  end.

(** [while (length > 4)], and then the bytes that are left. *)
Fixpoint fill_words (fuel length : nat) (dest wide value : Z) : rom unit :=
  match fuel with
  | O => fill_bytes length dest value
  | S fuel' =>
      if (4 <? length)%nat then
        store_word dest wide (fill_words fuel' (length - 4) (u32 (dest + 4)) wide value)
      else fill_bytes length dest value
  end.

Definition memset (dest value length : Z) : rom unit :=
  let value := Z.land value 0xff in
  if Z.land dest 3 =? 0 then
    let wide_val := Z.lor (Z.lor (Z.lor value (Z.shiftl value 8)) (Z.shiftl value 16))
                          (Z.shiftl value 24) in
    fill_words (Z.to_nat length) (Z.to_nat length) dest wide_val value
  else fill_bytes (Z.to_nat length) dest value.

(** One pass of the loop of [main]: true when it returns. *)
Definition command : rom bool :=
  request <~ read_serial_byte;;
  if request =? LOAD_MEMORY_REQ then
    load_addr <~ read_serial_long;;
    length <~ read_serial_long;;
    checksum <~ load_loop (Z.to_nat length) load_addr FNV_OFFSET;;
    _ <~ write_serial_byte LOAD_MEMORY_ACK;;
    _ <~ write_serial_long checksum;;
    Ret false
  else if request =? CLEAR_MEMORY_REQ then
    base_address <~ read_serial_long;;
    length <~ read_serial_long;;
    _ <~ memset base_address 0 length;;
    _ <~ write_serial_byte CLEAR_MEMORY_ACK;;
    Ret false
  else if request =? EXECUTE_REQ then
    _ <~ write_serial_byte EXECUTE_ACK;;
    Ret true
  else if request =? PING_REQ then
    _ <~ write_serial_byte PING_ACK;;
    Ret false
  else
    _ <~ write_serial_byte BAD_COMMAND;;
    Ret false.

Arguments command : simpl never.

(** The board: what is left to run and the memory. *)
Record target := { program : rom bool; memory : Z -> Z }.

(** Runs up to the next byte it waits for, or to the end of [main]; the bytes sent. *)
Fixpoint settle (p : rom bool) (memory : Z -> Z) : list Z * target :=
  match p with
  | Ret true => ([], {| program := Ret true; memory := memory |})
  | Ret false => ([], {| program := command; memory := memory |})
  | Recv k => ([], {| program := Recv k; memory := memory |})
  | Send byte k => let '(sent, t) := settle k memory in (byte :: sent, t)
  | Store address byte k => settle k (<[address := byte]> memory)
  end.

(** A byte arrives; one that comes after [main] returned is not read. *)
Definition receive (byte : Z) (t : target) : list Z * target :=
  match program t with
  | Recv k => settle (k byte) (memory t)
  | _ => ([], t)
  end.

Fixpoint receive_all (bytes : list Z) (t : target) : list Z * target :=
  match bytes with
  | [] => ([], t)
  | byte :: rest =>
      let '(sent, t) := receive byte t in
      let '(sent', t) := receive_all rest t in
      (sent ++ sent', t)
  end.

(** Waiting for a command. *)
Definition idle (memory : Z -> Z) : target := {| program := command; memory := memory |}.

End Boot.

(** ** The host program *)

Module Loader.

Definition RAMDISK_BASE : Z := 0x4000000.
Definition BLOCK_SIZE : Z := 1024.
Definition MIN_SEGMENT_ALLOC : Z := 1024.

(** [data] is the first [length] bytes of the array, [allocated] its size. *)
Record segment := { address : Z; data : list Z; allocated : Z }.

#[export]
Instance segment_fields : Fields segment := fun s =>
  Build_segment (address s) (data s) (allocated s).

(** The other end of the serial port, and what it sent that was not read yet. *)
Record link := { board : Boot.target; unread : list Z }.

(** ** The serial port *)

(** [None] is a time-out. *)
Definition read_serial_byte (l : link) : option Z * link :=
  match unread l with
  | [] => (None, l)
  | ch :: rest => (Some ch, {| board := board l; unread := rest |})
  end.

Fixpoint read_serial_loop (count : nat) (result : Z) (l : link) : option Z * link :=
  match count with
  | O => (Some result, l)
  | S count' =>
      match read_serial_byte l with
      | (None, l) => (None, l)
      | (Some ch, l) =>
          read_serial_loop count' (Z.lor (Z.shiftr result 8) (u32 (Z.shiftl ch 24))) l
      end
  end.

Definition read_serial_long : link -> option Z * link := read_serial_loop 4 0.

Definition write_bytes (bytes : list Z) (l : link) : link :=
  let '(sent, t) := Boot.receive_all bytes (board l) in
  {| board := t; unread := unread l ++ sent |}.

Definition write_serial_byte (ch : Z) : link -> link := write_bytes [u8 ch].

Definition long_bytes (value : Z) : list Z :=
  [Z.land value 0xff; Z.land (Z.shiftr value 8) 0xff; Z.land (Z.shiftr value 16) 0xff;
   Z.land (Z.shiftr value 24) 0xff].

Definition write_serial_long (value : Z) : link -> link := write_bytes (long_bytes value).

(** ** Commands *)

Definition load_memory (address : Z) (buffer : list Z) (l : link) : bool * link :=
  let l := write_serial_byte LOAD_MEMORY_REQ l in
  let l := write_serial_long address l in
  let l := write_serial_long (Z.of_nat (length buffer)) l in
  let l := write_bytes buffer l in
  match read_serial_byte l with
  | (None, l) => (false, l)
  | (Some ch, l) =>
      if negb (ch =? LOAD_MEMORY_ACK) then (false, l)
      else
        let local_checksum := fold_left fnv_step buffer FNV_OFFSET in
        match read_serial_long l with
        | (None, l) => (false, l)
        | (Some target_checksum, l) => (target_checksum =? local_checksum, l)
        end
  end.

Definition clear_memory (address length : Z) (l : link) : bool * link :=
  let l := write_serial_byte CLEAR_MEMORY_REQ l in
  let l := write_serial_long address l in
  let l := write_serial_long length l in
  match read_serial_byte l with
  | (None, l) => (false, l)
  | (Some ch, l) => (ch =? CLEAR_MEMORY_ACK, l)
  end.

(** [retries] are left of the 20. *)
Fixpoint ping_loop (retries : nat) (l : link) : bool * link :=
  match retries with
  | O => (false, l)
  | S retries' =>
      let l := write_serial_byte PING_REQ l in
      match read_serial_byte l with
      | (None, l) => ping_loop retries' l
      | (Some ch, l) => if ch =? PING_ACK then (true, l) else ping_loop retries' l
      end
  end.

Definition ping_target : link -> bool * link := ping_loop 20.

(** [while (read_serial_byte(...) && ch == BAD_COMMAND)]: one byte more is read. *)
Fixpoint skip_bad_commands (unread : list Z) : list Z :=
  match unread with
  | [] => []
  | ch :: rest => if ch =? BAD_COMMAND then skip_bad_commands rest else rest
  end.

(** [while (1)] *)
Fixpoint resynchronize (fuel : nat) (ping_seen : bool) (retry : Z) (l : link)
  : result (bool * link) :=
  match fuel with
  | O => Fault OutOfFuel
  | S fuel' =>
      let ping (ping_seen : bool) (l : link) : result (bool * link) :=
        if ping_seen then
          if 40 <? retry then Done (false, l) else resynchronize fuel' ping_seen retry l
        else
          let l := write_serial_byte PING_REQ l in
          if 40 <? retry + 1 then Done (false, l) else resynchronize fuel' ping_seen (retry + 1) l in
      match read_serial_byte l with
      | (Some ch, l) =>
          if ping_seen then resynchronize fuel' ping_seen retry l
          else ping (ch =? PING_ACK) l
      | (None, l) => if ping_seen then Done (true, l) else ping false l
      end
  end.

Definition fix_connection (fuel : nat) (l : link) : result (bool * link) :=
  resynchronize fuel false 0 {| board := board l; unread := skip_bad_commands (unread l) |}.

Definition send_execute_command (l : link) : bool * link :=
  let l := write_serial_byte EXECUTE_REQ l in
  match read_serial_byte l with
  | (None, l) => (false, l)
  | (Some ch, l) => (ch =? EXECUTE_ACK, l)
  end.

(** ** Segments *)

(** What it prints is left out; it divides by [total]. *)
Definition print_progress_bar (current total : Z) : result unit :=
  if total =? 0 then Fault OutOfBounds else Done tt.

Definition is_empty (data : list Z) : bool := forallb (fun byte => byte =? 0) data.

(** [while (offset < data_length)]; a slice that was not copied is sent again. *)
Fixpoint send_slices (fuel : nat) (offset address : Z) (data : list Z) (l : link)
  : result (bool * link) :=
  let data_length := Z.of_nat (length data) in
  if offset <? data_length then
    match fuel with
    | O => Fault OutOfFuel
    | S fuel' =>
        let this_slice := data_length - offset in
        let this_slice := if BLOCK_SIZE <? this_slice then BLOCK_SIZE else this_slice in
        let slice := take (Z.to_nat this_slice) (drop (Z.to_nat offset) data) in
        if is_empty slice then
          let '(ok, l) := clear_memory (u32 (address + offset)) this_slice l in
          if negb ok then Done (false, l)
          else
            _ <-- print_progress_bar (offset + this_slice) data_length;;
            send_slices fuel' (offset + this_slice) address data l
        else
          let '(ok, l) := load_memory (u32 (address + offset)) slice l in
          if ok then
            _ <-- print_progress_bar (offset + this_slice) data_length;;
            send_slices fuel' (offset + this_slice) address data l
          else
            '(fixed, l) <-- fix_connection fuel' l;;
            if negb fixed then Done (false, l)
            else
              _ <-- print_progress_bar offset data_length;;
              send_slices fuel' offset address data l
    end
  else Done (true, l).

Definition send_segment (fuel : nat) (address : Z) (data : list Z) (l : link)
  : result (bool * link) :=
  _ <-- print_progress_bar 0 (Z.of_nat (length data));;
  send_slices fuel 0 address data l.

Fixpoint send_segments (fuel : nat) (segments : list segment) (l : link) : result (bool * link) :=
  match segments with
  | [] => Done (true, l)
  | current :: rest =>
      '(ok, l) <-- send_segment fuel (address current) (data current) l;;
      if ok then send_segments fuel rest l else Done (false, l)
  end.

(** [main] once the files are read, up to the console. *)
Definition serial_boot (fuel : nat) (program_data : list segment) (ramdisk : option (list Z))
    (l : link) : result (Z * link) :=
  let '(ok, l) := ping_target l in
  if negb ok then Done (1, l)
  else
    '(ok, l) <-- send_segments fuel program_data l;;
    if negb ok then Done (1, l)
    else
      '(ok, l) <-- match ramdisk with
                   | None => Done (true, l)
                   | Some bytes => send_segment fuel RAMDISK_BASE bytes l
                   end;;
      if negb ok then Done (1, l)
      else let '(ok, l) := send_execute_command l in Done (if ok then 0 else 1, l).

(** ** The hex file *)

(** [realloc] succeeds and keeps the bytes. *)
Definition append_to_segment (value : Z) (seg : segment) : result segment :=
  let n := Z.of_nat (length (data seg)) in
  let seg :=
    if (n =? 0) || (n =? MIN_SEGMENT_ALLOC) || (Z.land n (n - 1) =? 0) then
      seg <| allocated := if n <? MIN_SEGMENT_ALLOC then MIN_SEGMENT_ALLOC else n * 2 |>
    else seg in
  if n + 4 <=? allocated seg then
    Done (seg <| data ::= fun bytes => bytes ++ [u8 (Z.shiftr value 24);
      Z.land (Z.shiftr value 16) 0xff; Z.land (Z.shiftr value 8) 0xff; Z.land value 0xff] |>)
  else Fault OutOfBounds.

Definition hex_digit_val (ch : Z) : Z :=
  if (48 <=? ch) && (ch <=? 57) then ch - 48
  else if (97 <=? ch) && (ch <=? 102) then ch - 97 + 10
  else if (65 <=? ch) && (ch <=? 70) then ch - 65 + 10
  else Hex.UINT32_MAX.

(** The locals of [read_hex_file]; [segments] are those before [current_segment]. *)
Record scanner := {
  state : Hex.scan_state;
  number_value : Z;
  push_back_char : Z;
  line_num : Z;
  segments : list segment;
  current_segment : segment
}.

#[export]
Instance scanner_fields : Fields scanner := fun s =>
  Build_scanner (state s) (number_value s) (push_back_char s) (line_num s) (segments s)
    (current_segment s).

Inductive scan_outcome :=
| Scanning (s : scanner)
| Finished (s : scanner)
| Rejected.

(** [calloc] *)
Definition new_segment : segment := {| address := 0; data := []; allocated := 0 |}.

(** The end of an address: a segment with no content is used again. *)
Definition set_address (s : scanner) : scanner :=
  let s := match data (current_segment s) with
           | [] => s
           | _ => s <| segments ::= fun before => before ++ [current_segment s] |>
                    <| current_segment := new_segment |>
           end in
  s <| current_segment ::= fun seg => seg <| address := u32 (number_value s * 4) |> |>.

(** One pass of the [switch]. *)
Definition scan_char (ch : Z) (s : scanner) : result scan_outcome :=
  match state s with
  | Hex.SCAN_SPACE =>
      if ch =? Hex.EOF then Done (Finished s)
      else if ch =? 47 then Done (Scanning (s <| state := Hex.SCAN_SLASH |>))
      else if ch =? 64 then
        Done (Scanning (s <| state := Hex.SCAN_ADDRESS |> <| number_value := 0 |>))
      else if Hex.isxdigit ch then
        Done (Scanning (s <| number_value := hex_digit_val ch |> <| state := Hex.SCAN_NUMBER |>))
      else if negb (Hex.isspace ch) then Done Rejected
      else if ch =? 10 then Done (Scanning (s <| line_num ::= fun n => n + 1 |>))
      else Done (Scanning s)
  | Hex.SCAN_SLASH =>
      if ch =? 42 then Done (Scanning (s <| state := Hex.SCAN_MULTI_LINE_COMMENT |>))
      else if ch =? 47 then Done (Scanning (s <| state := Hex.SCAN_SINGLE_LINE_COMMENT |>))
      else Done Rejected
  | Hex.SCAN_SINGLE_LINE_COMMENT =>
      if ch =? 10 then Done (Scanning (s <| state := Hex.SCAN_SPACE |>))
      else if ch =? Hex.EOF then Done (Finished s)
      else Done (Scanning s)
  | Hex.SCAN_MULTI_LINE_COMMENT =>
      if ch =? 42 then Done (Scanning (s <| state := Hex.SCAN_ASTERISK |>))
      else if ch =? Hex.EOF then Done Rejected
      else Done (Scanning s)
  | Hex.SCAN_ASTERISK =>
      if ch =? 47 then Done (Scanning (s <| state := Hex.SCAN_SPACE |>))
      else if ch =? Hex.EOF then Done Rejected
      else Done (Scanning s)
  | Hex.SCAN_NUMBER =>
      if Hex.isxdigit ch then
        if negb (Z.land (number_value s) 0xf0000000 =? 0) then Done Rejected
        else Done (Scanning (s <| number_value ::= fun n =>
          u32 (Z.lor (Z.shiftl n 4) (hex_digit_val ch)) |>))
      else
        seg <-- append_to_segment (number_value s) (current_segment s);;
        Done (Scanning (s <| current_segment := seg |> <| push_back_char := ch |>
          <| state := Hex.SCAN_SPACE |>))
  | Hex.SCAN_ADDRESS =>
      if Hex.isxdigit ch then
        Done (Scanning (s <| number_value ::= fun n =>
          u32 (Z.lor (Z.shiftl n 4) (hex_digit_val ch)) |>))
      else
        Done (Scanning (set_address (s <| push_back_char := ch |> <| state := Hex.SCAN_SPACE |>)))
  end.

(** The loop, as the emulator's: the outer [None] is fuel that ran out, the inner one the
    null pointer. *)
Fixpoint scan_loop (fuel : nat) (file : list Z) (s : scanner)
  : option (result (option (list segment))) :=
  match fuel with
  | O => None
  | S fuel' =>
      let '(ch, file, s) :=
        if push_back_char s =? -1 then (hd Hex.EOF file, tl file, s)
        else (push_back_char s, file, s <| push_back_char := -1 |>) in
      match scan_char ch s with
      | Fault f => Some (Fault f)
      | Done (Finished s) => Some (Done (Some (segments s ++ [current_segment s])))
      | Done Rejected => Some (Done None)
      | Done (Scanning s) => scan_loop fuel' file s
      end
  end.

(** [number_value] is not initialised; it is set before it is used. *)
Definition start_scan : scanner :=
  {| state := Hex.SCAN_SPACE; number_value := 0; push_back_char := -1; line_num := 1;
     segments := []; current_segment := new_segment |}.

Definition read_hex_file (file : option (list Z)) : option (result (option (list segment))) :=
  match file with
  | None => Some (Done None)
  | Some chars => scan_loop (Hex.scan_fuel chars) chars start_scan
  end.

End Loader.

(** ** What the loader does with a sequence of bytes *)

Section boot.
Import Boot.

(** [drive p m bytes]: the loader runs [p] and receives [bytes]. *)
Definition drive (p : rom bool) (m : Z -> Z) (bytes : list Z) : list Z * target :=
  let '(sent, t) := settle p m in
  let '(sent', t) := receive_all bytes t in
  (sent ++ sent', t).

Lemma drive_recv k m byte bytes : drive (Recv k) m (byte :: bytes) = drive (k byte) m bytes.
Proof.
  unfold drive. simpl. unfold receive. simpl.
  destruct (settle (k byte) m) as [sent t]. by destruct (receive_all bytes t).
Qed.

Lemma drive_store a byte k m bytes :
  drive (Store a byte k) m bytes = drive k (<[a := byte]> m) bytes.
Proof. done. Qed.

Lemma drive_send byte k m bytes :
  drive (Send byte k) m bytes = let '(sent, t) := drive k m bytes in (byte :: sent, t).
Proof.
  unfold drive. simpl. destruct (settle k m) as [sent t]. by destruct (receive_all bytes t).
Qed.

Lemma drive_idle m : drive (Ret false) m [] = ([], idle m).
Proof. done. Qed.

Lemma receive_all_idle m bytes : receive_all bytes (idle m) = drive command m bytes.
Proof.
  unfold drive. change (settle command m) with (@nil Z, idle m). cbv beta iota. by destruct (receive_all bytes (idle m)).
Qed.

Lemma receive_all_app a b t :
  receive_all (a ++ b) t
  = let '(s1, t) := receive_all a t in let '(s2, t) := receive_all b t in (s1 ++ s2, t).
Proof.
  revert t. induction a as [|x a IH]; intros t; simpl; [by destruct (receive_all b t)|].
  destruct (receive x t) as [s0 t0]. rewrite IH. destruct (receive_all a t0) as [s1 t1].
  destruct (receive_all b t1) as [s2 t2]. by rewrite app_assoc.
Qed.

(** The memory with [bytes] stored from [a] on. *)
Fixpoint store_bytes (a : Z) (bytes : list Z) (m : Z -> Z) : Z -> Z :=
  match bytes with
  | [] => m
  | byte :: rest => store_bytes (u32 (a + 1)) rest (<[a := byte]> m)
  end.

Lemma store_bytes_app a x y m :
  is_u32 a ->
  store_bytes a (x ++ y) m = store_bytes (u32 (a + Z.of_nat (length x))) y (store_bytes a x m).
Proof.
  revert a m. induction x as [|b x IH]; intros a m Ha; simpl.
  - rewrite Z.add_0_r. by rewrite (u32_id a) by done.
  - rewrite IH by apply is_u32_u32. f_equal. unfold u32.
    rewrite Z.add_mod_idemp_l by done. f_equal. lia.
Qed.

(** The four bytes of a word arrive lowest first. *)
Lemma long_bytes_value v :
  is_u32 v ->
  fold_left (fun result byte => Z.lor (Z.shiftr result 8) (u32 (Z.shiftl byte 24)))
    (Loader.long_bytes v) 0 = v.
Proof.
  intros Hv.
  assert (Hb : forall x, u32 (Z.shiftl (Z.land x 0xff) 24) = Z.shiftl (Z.land x 0xff) 24
    /\ is_u32 (Z.shiftl (Z.land x 0xff) 24)).
  { intros x. change 0xff with (Z.ones 8). rewrite Z.land_ones, Z.shiftl_mul_pow2 by lia.
    pose proof (Z.mod_pos_bound x (2 ^ 8) eq_refl).
    assert (Hx : is_u32 (x mod 2 ^ 8 * 2 ^ 24)).
    { change (2 ^ 8) with 256 in *. change (2 ^ 24) with 16777216. split; [lia|].
      change (2 ^ 32) with 4294967296. lia. }
    split; [by apply u32_id|exact Hx]. }
  unfold Loader.long_bytes. cbn [fold_left].
  rewrite !(fun x => proj1 (Hb x)).
  assert (Hs : forall x, is_u32 x -> is_u32 (Z.shiftr x 8)) by (intros; by apply is_unsigned_shiftr).
  assert (H0 : is_u32 0) by by split.
  apply u32_bits_inj; [repeat (apply is_u32_lor; [apply Hs|apply Hb]); exact H0|exact Hv|].
  intros i Hi.
  rewrite !Z.lor_spec, !Z.shiftr_spec, !Z.lor_spec, !Z.shiftr_spec, !Z.lor_spec, !Z.shiftr_spec,
    !Z.lor_spec, !Z.shiftr_spec, !Z.shiftl_spec, !Z.land_spec by lia.
  small_cases i 32; cbn -[Z.testbit Z.shiftr];
    repeat match goal with
    | |- context [Z.testbit (Zpos ?c) ?k] =>
        let b := eval vm_compute in (Z.testbit (Zpos c) k) in
        change (Z.testbit (Zpos c) k) with b
    end;
    rewrite ?Z.bits_0, ?andb_false_r, ?andb_true_r, ?orb_false_r, ?orb_false_l;
    rewrite ?Z.shiftr_spec by lia; reflexivity.
Qed.

Lemma drive_long v k m bytes :
  is_u32 v ->
  drive (bind read_serial_long k) m (Loader.long_bytes v ++ bytes) = drive (k v) m bytes.
Proof.
  intros Hv. pose proof (long_bytes_value v Hv) as H. unfold Loader.long_bytes in *.
  cbn [fold_left] in H. unfold read_serial_long. cbn [read_serial_loop bind read_serial_byte app].
  rewrite !drive_recv. by rewrite H.
Qed.

Lemma drive_load data a checksum k m bytes :
  Forall (is_unsigned 8) data ->
  drive (bind (load_loop (length data) a checksum) k) m (data ++ bytes)
  = drive (k (fold_left fnv_step data checksum)) (store_bytes a data m) bytes.
Proof.
  intros Hd. revert a checksum m. induction Hd as [|byte data Hb _ IH]; intros a checksum m; [done|].
  cbn [length load_loop read_serial_byte bind app]. rewrite drive_recv. cbn [bind].
  rewrite drive_store, IH. cbn [fold_left store_bytes]. unfold u8.
  by rewrite (Z.mod_small byte) by exact Hb.
Qed.

Lemma drive_fill n a value k m bytes :
  drive (bind (fill_bytes n a value) k) m bytes
  = drive (k tt) (store_bytes a (replicate n (u8 value)) m) bytes.
Proof.
  revert a m. induction n as [|n IH]; intros a m; [done|].
  cbn [fill_bytes bind replicate store_bytes]. by rewrite drive_store, IH.
Qed.

Lemma u32_add_add a i j : u32 (u32 (a + i) + j) = u32 (a + (i + j)).
Proof. unfold u32. rewrite Z.add_mod_idemp_l by done. f_equal. lia. Qed.

Lemma drive_fill_words fuel n a k m bytes :
  drive (bind (fill_words fuel n a 0 0) k) m bytes
  = drive (k tt) (store_bytes a (replicate n 0) m) bytes.
Proof.
  revert n a m. induction fuel as [|fuel IH]; intros n a m; cbn [fill_words].
  - apply (drive_fill n a 0).
  - destruct (4 <? n)%nat eqn:E; [|apply (drive_fill n a 0)].
    apply Nat.ltb_lt in E. unfold store_word. cbn [bind]. rewrite !drive_store, IH.
    change (u8 0) with 0. rewrite !Z.shiftr_0_l. change (u8 0) with 0.
    replace (replicate n 0) with (replicate 4 0 ++ replicate (n - 4) 0)
      by (rewrite <- replicate_add; f_equal; lia).
    cbn [replicate app store_bytes]. by rewrite !u32_add_add.
Qed.

Lemma drive_memset a length k m bytes :
  drive (bind (memset a 0 length) k) m bytes
  = drive (k tt) (store_bytes a (replicate (Z.to_nat length) 0) m) bytes.
Proof.
  unfold memset. change (Z.land 0 255) with 0. destruct (Z.land a 3 =? 0).
  - apply drive_fill_words.
  - apply (drive_fill _ a 0).
Qed.

Lemma drive_write_long v k m :
  drive (bind (write_serial_long v) k) m []
  = let '(sent, t) := drive (k tt) m [] in (Loader.long_bytes v ++ sent, t).
Proof.
  unfold write_serial_long, write_serial_byte. cbn [bind]. rewrite !drive_send.
  destruct (drive (k tt) m []) as [sent t].
  assert (Hu : forall x, u8 (Z.land x 0xff) = Z.land x 0xff).
  { intros x. change 0xff with (Z.ones 8). rewrite Z.land_ones by lia. apply Zmod_mod. }
  by rewrite !Hu.
Qed.

(** *** The commands *)

Lemma boot_load m address buffer :
  is_u32 address -> Forall (is_unsigned 8) buffer -> is_u32 (Z.of_nat (length buffer)) ->
  receive_all (LOAD_MEMORY_REQ :: Loader.long_bytes address
    ++ Loader.long_bytes (Z.of_nat (length buffer)) ++ buffer) (idle m)
  = (LOAD_MEMORY_ACK :: Loader.long_bytes (fold_left fnv_step buffer FNV_OFFSET),
     idle (store_bytes address buffer m)).
Proof.
  intros Ha Hb Hl. rewrite receive_all_idle. unfold command.
  cbn [read_serial_byte bind]. rewrite drive_recv. cbn [bind Z.eqb LOAD_MEMORY_REQ Pos.eqb].
  rewrite !drive_long by done. rewrite Nat2Z.id.
  rewrite <- (app_nil_r buffer) at 2. rewrite drive_load by done.
  unfold write_serial_byte. cbn [bind]. rewrite drive_send, drive_write_long, drive_idle.
  by rewrite app_nil_r.
Qed.

Lemma boot_clear m address length :
  is_u32 address -> is_u32 length ->
  receive_all (CLEAR_MEMORY_REQ :: Loader.long_bytes address ++ Loader.long_bytes length) (idle m)
  = ([CLEAR_MEMORY_ACK], idle (store_bytes address (replicate (Z.to_nat length) 0) m)).
Proof.
  intros Ha Hl. rewrite receive_all_idle. unfold command.
  cbn [read_serial_byte bind]. rewrite drive_recv.
  cbn [bind Z.eqb LOAD_MEMORY_REQ CLEAR_MEMORY_REQ Pos.eqb].
  rewrite drive_long by done. rewrite <- (app_nil_r (Loader.long_bytes length)), drive_long by done.
  rewrite drive_memset. unfold write_serial_byte. cbn [bind]. by rewrite drive_send, drive_idle.
Qed.

Lemma boot_ping m : receive_all [PING_REQ] (idle m) = ([PING_ACK], idle m).
Proof. done. Qed.

Lemma boot_execute m :
  receive_all [EXECUTE_REQ] (idle m) = ([EXECUTE_ACK], {| program := Ret true; memory := m |}).
Proof. done. Qed.
End boot.

(** ** The host against the loader *)

Section host.
Import Loader.

(** The loader waits for a command, and everything it sent was read. *)
Definition quiet (m : Z -> Z) : link := {| board := Boot.idle m; unread := [] |}.

Lemma write_bytes_app a b l : write_bytes b (write_bytes a l) = write_bytes (a ++ b) l.
Proof.
  unfold write_bytes. rewrite receive_all_app. destruct (Boot.receive_all a (board l)) as [s1 t1].
  simpl. destruct (Boot.receive_all b t1) as [s2 t2]. by rewrite app_assoc.
Qed.

Lemma write_bytes_quiet bytes m sent m' :
  Boot.receive_all bytes (Boot.idle m) = (sent, Boot.idle m') ->
  write_bytes bytes (quiet m) = {| board := Boot.idle m'; unread := sent |}.
Proof. intros E. unfold write_bytes, quiet. simpl. by rewrite E. Qed.

Lemma read_long_bytes v t :
  is_u32 v ->
  read_serial_long {| board := t; unread := long_bytes v |} = (Some v, {| board := t; unread := [] |}).
Proof.
  intros Hv. pose proof (long_bytes_value v Hv) as E. unfold long_bytes in *. cbn [fold_left] in E.
  unfold read_serial_long. cbn [read_serial_loop read_serial_byte unread board]. by rewrite E.
Qed.

Lemma fnv_u32 bytes checksum : is_u32 checksum -> is_u32 (fold_left fnv_step bytes checksum).
Proof.
  revert checksum. induction bytes as [|b bytes IH]; intros checksum Hc; [done|].
  apply IH. apply is_u32_u32.
Qed.

Lemma load_memory_quiet address buffer m :
  is_u32 address -> Forall (is_unsigned 8) buffer -> is_u32 (Z.of_nat (length buffer)) ->
  load_memory address buffer (quiet m) = (true, quiet (store_bytes address buffer m)).
Proof.
  intros Ha Hb Hl. unfold load_memory, write_serial_byte, write_serial_long.
  rewrite !write_bytes_app. cbn [app]. change (u8 LOAD_MEMORY_REQ) with LOAD_MEMORY_REQ.
  rewrite (write_bytes_quiet _ m _ _ (boot_load m address buffer Ha Hb Hl)).
  cbn [read_serial_byte unread board]. rewrite Z.eqb_refl. cbn [negb].
  rewrite read_long_bytes by by apply fnv_u32. by rewrite Z.eqb_refl.
Qed.

Lemma clear_memory_quiet address length m :
  is_u32 address -> is_u32 length ->
  clear_memory address length (quiet m)
  = (true, quiet (store_bytes address (replicate (Z.to_nat length) 0) m)).
Proof.
  intros Ha Hl. unfold clear_memory, write_serial_byte, write_serial_long.
  rewrite !write_bytes_app. cbn [app]. change (u8 CLEAR_MEMORY_REQ) with CLEAR_MEMORY_REQ.
  by rewrite (write_bytes_quiet _ m _ _ (boot_clear m address length Ha Hl)).
Qed.

Lemma is_empty_zeros bytes : is_empty bytes = true -> bytes = replicate (length bytes) 0.
Proof.
  induction bytes as [|b bytes IH]; [done|]. cbn [is_empty forallb length replicate].
  intros E. apply andb_prop in E as [E1 E2]. apply Z.eqb_eq in E1. subst. f_equal. by apply IH.
Qed.

(** One slice sent, cleared or loaded. *)
Lemma slice_sent address slice m :
  is_u32 address -> Forall (is_unsigned 8) slice -> is_u32 (Z.of_nat (length slice)) ->
  (if is_empty slice then clear_memory address (Z.of_nat (length slice)) (quiet m)
   else load_memory address slice (quiet m))
  = (true, quiet (store_bytes address slice m)).
Proof.
  intros Ha Hs Hl. destruct (is_empty slice) eqn:E; [|by apply load_memory_quiet].
  rewrite clear_memory_quiet, Nat2Z.id by done. by rewrite <- (is_empty_zeros slice E).
Qed.

Lemma send_slices_quiet fuel offset address bytes m :
  0 <= offset <= Z.of_nat (length bytes) -> Z.of_nat (length bytes) < 2 ^ 31 ->
  (Z.to_nat (Z.of_nat (length bytes) - offset) < fuel)%nat -> is_u32 address ->
  Forall (is_unsigned 8) bytes ->
  send_slices fuel offset address bytes (quiet m)
  = Done (true, quiet (store_bytes (u32 (address + offset)) (drop (Z.to_nat offset) bytes) m)).
Proof.
  revert offset m. induction fuel as [|fuel IH]; intros offset m Ho Hmax Hf Ha Hb; [lia|].
  cbn [send_slices]. cbv zeta. destruct (offset <? _) eqn:Hlt; bool_to_prop.
  2:{ by rewrite drop_ge by lia. }
  set (n := if BLOCK_SIZE <? _ then _ else _).
  assert (Hn : 0 < n <= Z.of_nat (length bytes) - offset)
    by (subst n; destruct (BLOCK_SIZE <? _) eqn:E; bool_to_prop; unfold BLOCK_SIZE in *; lia).
  set (slice := take (Z.to_nat n) (drop (Z.to_nat offset) bytes)).
  assert (Hl : Z.of_nat (length slice) = n)
    by (unfold slice; rewrite length_take, length_drop; lia).
  assert (Hs : Forall (is_unsigned 8) slice) by by apply Forall_take, Forall_drop.
  pose proof (slice_sent (u32 (address + offset)) slice m (is_u32_u32 _) Hs) as Hsent.
  rewrite Hl in Hsent. specialize (Hsent ltac:(split; lia)).
  assert (Hnext : send_slices fuel (offset + n) address bytes
      (quiet (store_bytes (u32 (address + offset)) slice m))
    = Done (true, quiet (store_bytes (u32 (address + offset)) (drop (Z.to_nat offset) bytes) m))).
  { rewrite IH by (done || lia). do 3 f_equal.
    rewrite <- (take_drop (Z.to_nat n) (drop (Z.to_nat offset) bytes)). fold slice.
    rewrite store_bytes_app, Hl, u32_add_add, drop_drop by apply is_u32_u32.
    do 2 f_equal. lia. }
  unfold print_progress_bar. rewrite (proj2 (Z.eqb_neq _ 0)) by lia.
  destruct (is_empty slice); rewrite Hsent; exact Hnext.
Qed.

Lemma send_segment_quiet fuel address bytes m :
  bytes <> [] -> Z.of_nat (length bytes) < 2 ^ 31 -> (length bytes < fuel)%nat -> is_u32 address ->
  Forall (is_unsigned 8) bytes ->
  send_segment fuel address bytes (quiet m) = Done (true, quiet (store_bytes address bytes m)).
Proof.
  intros Hne Hmax Hf Ha Hb. unfold send_segment, print_progress_bar.
  rewrite (proj2 (Z.eqb_neq _ 0)) by (destruct bytes; [done|simpl; lia]). cbn [bind_result].
  rewrite send_slices_quiet by (done || lia). by rewrite Z.add_0_r, (u32_id address).
Qed.

(** A segment that can be sent. *)
Definition sendable (fuel : nat) (seg : segment) : Prop :=
  is_u32 (address seg) /\ Forall (is_unsigned 8) (data seg) /\ data seg <> []
  /\ Z.of_nat (length (data seg)) < 2 ^ 31 /\ (length (data seg) < fuel)%nat.

(** The memory the segments describe, over [m]. *)
Definition load_segments (segs : list segment) (m : Z -> Z) : Z -> Z :=
  fold_left (fun m seg => store_bytes (address seg) (data seg) m) segs m.

Lemma send_segments_quiet fuel segs m :
  Forall (sendable fuel) segs ->
  send_segments fuel segs (quiet m) = Done (true, quiet (load_segments segs m)).
Proof.
  intros Hs. revert m. induction Hs as [|seg segs (Ha & Hb & Hne & Hmax & Hf) _ IH]; intros m; [done|].
  cbn [send_segments]. rewrite send_segment_quiet by done. cbn [bind_result]. apply IH.
Qed.

Lemma serial_boot_quiet fuel segs ramdisk m :
  Forall (sendable fuel) segs ->
  (forall bytes, ramdisk = Some bytes ->
     sendable fuel {| address := RAMDISK_BASE; data := bytes; allocated := 0 |}) ->
  exists l, serial_boot fuel segs ramdisk (quiet m) = Done (0, l) /\
    board l = {| Boot.program := Boot.Ret true;
                 Boot.memory := match ramdisk with
                   | None => load_segments segs m
                   | Some bytes => store_bytes RAMDISK_BASE bytes (load_segments segs m)
                   end |}.
Proof.
  intros Hs Hr. unfold serial_boot.
  change (ping_target (quiet m)) with (true, quiet m). cbn [negb].
  rewrite send_segments_quiet by done. cbn [bind_result negb].
  destruct ramdisk as [bytes|].
  - destruct (Hr bytes eq_refl) as (Ha & Hb & Hne & Hmax & Hf).
    rewrite send_segment_quiet by done. cbn [bind_result negb]. by eexists.
  - by eexists.
Qed.
End host.

(** ** The two hex loaders agree *)

(** Byte [a] of the emulator's memory, an array of words that the core reads
    little-endian. *)
Definition byte_of (words : list Z) (a : Z) : Z :=
  u8 (Z.shiftr (words !!! Z.to_nat (a / 4)) (8 * (a mod 4))).

(** A memory of bytes holds what the words hold. *)
Definition same_memory (words : list Z) (m : Z -> Z) : Prop :=
  forall a, 0 <= a < 4 * Z.of_nat (length words) -> m a = byte_of words a.

Lemma u8_bits x y :
  (forall i, 0 <= i < 8 -> Z.testbit x i = Z.testbit y i) -> u8 x = u8 y.
Proof.
  intros H. unfold u8. rewrite <- !Z.land_ones by lia. apply Z.bits_inj'. intros i Hi.
  rewrite !Z.land_spec. destruct (Z.lt_ge_cases i 8).
  - by rewrite H.
  - by rewrite (Z.ones_spec_high 8 i), !andb_false_r by lia.
Qed.

(** Byte [k] of a swapped word. *)
Lemma swapped_byte v k :
  0 <= k < 4 -> u8 (Z.shiftr (endian_swap32 v) (8 * k)) = u8 (Z.shiftr v (8 * (3 - k))).
Proof.
  intros Hk. apply u8_bits. intros i Hi. rewrite !Z.shiftr_spec by lia.
  rewrite endian_swap32_bit by lia. f_equal. unfold swapped_bit.
  Z.div_mod_to_equations. lia.
Qed.

Lemma land_255_u8 x : Z.land x 0xff = u8 x.
Proof. change 0xff with (Z.ones 8). by rewrite Z.land_ones by lia. Qed.

(** What [append_to_segment] appends: the bytes in the order of memory. *)
Definition word_data (value : Z) : list Z :=
  [u8 (Z.shiftr value 24); u8 (Z.shiftr value 16); u8 (Z.shiftr value 8); u8 value].

Lemma word_data_byte v k :
  0 <= k < 4 -> word_data v !! Z.to_nat k = Some (u8 (Z.shiftr (endian_swap32 v) (8 * k))).
Proof.
  intros Hk. rewrite swapped_byte by done.
  assert (k = 0 \/ k = 1 \/ k = 2 \/ k = 3) as [-> | [-> | [-> | ->]]] by lia; try done.
Qed.

Lemma store_bytes_lookup a bytes m x :
  0 <= a -> a + Z.of_nat (length bytes) <= 2 ^ 32 ->
  store_bytes a bytes m x
  = if decide (a <= x < a + Z.of_nat (length bytes)) then bytes !!! Z.to_nat (x - a) else m x.
Proof.
  revert a m. induction bytes as [|b bytes IH]; intros a m Ha Hl.
  - rewrite decide_False by (simpl; lia). done.
  - cbn [store_bytes length] in *. destruct bytes as [|b' bytes'].
    + cbn [store_bytes length]. destruct (decide _) as [Hx|Hx].
      * assert (x = a) as -> by (simpl in Hx; lia). rewrite Z.sub_diag. apply fn_lookup_insert.
      * apply fn_lookup_insert_ne. simpl in Hx. lia.
    + rewrite (u32_id (a + 1)) by (split; simpl in Hl; lia). rewrite IH by (simpl in *; lia).
      destruct (decide (a + 1 <= x < _)) as [Hx|Hx].
      * rewrite decide_True by (simpl in *; lia).
        replace (Z.to_nat (x - a)) with (S (Z.to_nat (x - (a + 1)))) by lia. done.
      * destruct (decide (x = a)) as [->|Hne].
        -- rewrite decide_True by (simpl in *; lia). rewrite Z.sub_diag. apply fn_lookup_insert.
        -- rewrite decide_False by (simpl in *; lia). apply fn_lookup_insert_ne. congruence.
Qed.

(** A word stored on both sides. *)
Lemma store_word_same words m a v :
  same_memory words m -> 0 <= a < Z.of_nat (length words) ->
  4 * Z.of_nat (length words) <= 2 ^ 32 ->
  same_memory (<[Z.to_nat a := endian_swap32 v]> words) (store_bytes (4 * a) (word_data v) m).
Proof.
  intros Hm Ha Hl x Hx. rewrite length_insert in Hx.
  rewrite store_bytes_lookup by (cbn [length word_data]; lia). cbn [length word_data].
  pose proof (Z.div_mod x 4 ltac:(lia)). pose proof (Z.mod_pos_bound x 4 ltac:(lia)).
  unfold byte_of. destruct (decide _) as [Hin|Hout].
  - assert (x / 4 = a) as -> by lia. rewrite list_lookup_total_insert_eq by lia.
    rewrite list_lookup_total_alt. replace (x - 4 * a) with (x mod 4) by lia.
    by rewrite word_data_byte.
  - rewrite list_lookup_total_insert_ne; [by apply Hm|]. lia.
Qed.

Section loaders.
Import Loader.
#[local] Existing Instance Hex.scanner_fields.

(** *** The array of a segment grows before it is full *)

Definition power_of_2 (n : Z) : Prop := exists k, 0 <= k /\ n = 2 ^ k.

Lemma power_of_2_test n : 0 < n -> Z.land n (n - 1) = 0 <-> power_of_2 n.
Proof.
  intros Hn. split.
  - intros Hland. exists (Z.log2 n). split; [apply Z.log2_nonneg|].
    pose proof (Z.log2_spec n Hn) as [Hlo Hhi].
    destruct (Z.eq_dec n (2 ^ Z.log2 n)) as [|Hne]; [done|exfalso].
    assert (Hlog : Z.log2 (n - 1) = Z.log2 n) by (apply Z.log2_unique; [apply Z.log2_nonneg|lia]).
    pose proof (Z.pow_pos_nonneg 2 (Z.log2 n) ltac:(lia) (Z.log2_nonneg n)).
    assert (Hbit : Z.testbit (Z.land n (n - 1)) (Z.log2 n) = true).
    { rewrite Z.land_spec, Z.bit_log2 by done. simpl. rewrite <- Hlog. apply Z.bit_log2. lia. }
    by rewrite Hland, Z.bits_0 in Hbit.
  - intros (k & Hk & ->). rewrite Z.sub_1_r, <- Z.ones_equiv.
    rewrite Z.land_ones by done. by apply Z.mod_same, Z.pow_nonzero.
Qed.

Record segment_ok (seg : segment) : Prop := {
  seg_address : is_u32 (address seg);
  seg_bytes : Forall (is_unsigned 8) (data seg);
  seg_words : Z.of_nat (length (data seg)) mod 4 = 0;
  seg_room : data seg <> [] ->
    power_of_2 (allocated seg) /\ MIN_SEGMENT_ALLOC <= allocated seg
    /\ Z.of_nat (length (data seg)) <= allocated seg
}.

Lemma word_data_bytes v : Forall (is_unsigned 8) (word_data v).
Proof. repeat (apply List.Forall_cons; [by apply is_unsigned_mod|]). apply Forall_nil_2. Qed.

(** The room [append_to_segment] makes is enough. *)
Lemma append_ok value seg :
  segment_ok seg ->
  exists seg', append_to_segment value seg = Done seg' /\ segment_ok seg'
    /\ address seg' = address seg /\ data seg' = data seg ++ word_data value.
Proof.
  intros [Ha Hb H4 Hroom]. unfold append_to_segment.
  set (n := Z.of_nat (length (data seg))) in *.
  set (seg1 := if _ || _ then _ else seg).
  assert (Hseg1 : address seg1 = address seg /\ data seg1 = data seg
    /\ power_of_2 (allocated seg1) /\ MIN_SEGMENT_ALLOC <= allocated seg1
    /\ n + 4 <= allocated seg1).
  { unfold seg1, MIN_SEGMENT_ALLOC in *. destruct (_ || _) eqn:E; simpl.
    - do 2 (split; [done|]). destruct (n <? 1024) eqn:E1; bool_to_prop.
      + split; [by exists 10|]. split; [done|]. Z.div_mod_to_equations. lia.
      + assert (Hp : power_of_2 n).
        { apply orb_true_iff in E as [E|E]; [apply orb_true_iff in E as [E|E]|]; bool_to_prop.
          - lia.
          - exists 10. by split.
          - by apply power_of_2_test; [lia|]. }
        destruct Hp as (k & Hk & Hp). split; [|lia].
        exists (k + 1). rewrite Z.pow_add_r by lia. lia.
    - bool_to_prop. destruct (data seg) eqn:Hd; [by subst n|].
      destruct (Hroom ltac:(done)) as (Hp & Hmin & Hle). repeat split; try done.
      assert (n <> allocated seg).
      { intros Heq. rewrite <- Heq in Hp. apply power_of_2_test in Hp; lia. }
      destruct Hp as (k & Hk & Hp). assert (Halloc : allocated seg mod 4 = 0).
      { rewrite Hp in Hmin |- *. assert (10 <= k) by (apply (Z.pow_le_mono_r_iff 2); lia).
        replace k with (2 + (k - 2)) by lia. rewrite Z.pow_add_r by lia.
        rewrite Z.mul_comm. by apply Z.mod_mul. }
      Z.div_mod_to_equations. lia. }
  destruct Hseg1 as (Ea & Ed & Hp & Hmin & Hn). rewrite (proj2 (Z.leb_le _ _)) by done.
  eexists. split; [done|]. simpl. rewrite !land_255_u8, Ea, Ed. split; [|done].
  assert (Hlen : Z.of_nat (length (data seg ++ word_data value)) = n + 4)
    by (rewrite length_app; cbn [length word_data]; lia).
  constructor; cbn [address data allocated]; simpl; rewrite ?Ea, ?Ed, ?land_255_u8.
  - done.
  - apply Forall_app_2; [done|apply word_data_bytes].
  - change (_ :: _) with (word_data value). rewrite Hlen. Z.div_mod_to_equations. lia.
  - intros _. change (u8 _ :: _) with (word_data value). rewrite Hlen. done.
Qed.

(** *** The scanners in step *)

Lemma hex_digit_val_same ch : hex_digit_val ch = Hex.hex_digit_val ch.
Proof. done. Qed.

(** A segment inside a memory of [count] words. *)
Definition inside (count : nat) (seg : segment) : Prop :=
  data seg <> [] -> address seg + Z.of_nat (length (data seg)) <= 4 * Z.of_nat count.

Lemma hex_digit_val_u32 ch : is_u32 (hex_digit_val ch).
Proof.
  unfold hex_digit_val, Hex.UINT32_MAX.
  repeat match goal with |- context [if ?c then _ else _] => destruct c eqn:? end;
    bool_to_prop; split; lia.
Qed.

Record related (count : nat) (m0 : Z -> Z) (s : Hex.scanner) (s' : scanner) : Prop := {
  rel_state : state s' = Hex.state s;
  rel_number : number_value s' = Hex.number_value s;
  rel_number_u32 : is_u32 (number_value s');
  rel_push : push_back_char s' = Hex.push_back_char s;
  rel_length : length (Hex.memory s) = count;
  rel_segments : Forall (fun seg => segment_ok seg /\ inside count seg) (segments s');
  rel_current : segment_ok (current_segment s') /\ inside count (current_segment s');
  rel_address : u32 (4 * Hex.address s)
    = u32 (address (current_segment s') + Z.of_nat (length (data (current_segment s'))));
  rel_memory : same_memory (Hex.memory s)
    (load_segments (segments s' ++ [current_segment s']) m0)
}.

Ltac rebuild_related H := destruct H; constructor; simpl; try done; auto with words.

Lemma load_segments_snoc before seg m0 :
  load_segments (before ++ [seg]) m0 = store_bytes (address seg) (data seg) (load_segments before m0).
Proof. unfold load_segments. by rewrite fold_left_app. Qed.

Lemma related_store count m0 s s' ch memory' :
  4 * Z.of_nat count < 2 ^ 31 -> related count m0 s s' ->
  Hex.store_word (Hex.memory s) (Hex.address s) (endian_swap32 (Hex.number_value s)) = Done memory' ->
  exists seg, append_to_segment (number_value s') (current_segment s') = Done seg /\
    related count m0
      (s <| Hex.memory := memory' |> <| Hex.address ::= fun a => u32 (a + 1) |>
         <| Hex.push_back_char := ch |> <| Hex.state := Hex.SCAN_SPACE |>)
      (s' <| current_segment := seg |> <| push_back_char := ch |> <| state := Hex.SCAN_SPACE |>).
Proof.
  intros Hmax Hrel Hstore. unfold Hex.store_word in Hstore.
  destruct ((0 <=? _) && _) eqn:E; [|done]. injection Hstore as <-. bool_to_prop.
  destruct (append_ok (number_value s') (current_segment s') (proj1 (rel_current _ _ _ _ Hrel)))
    as (seg & Happ & Hok & Ea & Ed).
  exists seg. split; [done|]. destruct Hrel as [R1 R2 R2' R3 R4 R5 [R6 R6'] R7 R8].
  set (a := Hex.address s) in *. set (cur := current_segment s') in *.
  pose proof (seg_address _ R6) as [Hc0 Hc1].
  rewrite (u32_id (4 * a)) in R7 by (split; lia).
  assert (Hlen : Z.of_nat (length (data seg)) = Z.of_nat (length (data cur)) + 4)
    by (rewrite Ed, length_app; cbn [length word_data]; lia).
  assert (Hcur : address cur + Z.of_nat (length (data cur)) = 4 * a).
  { destruct (data cur) eqn:Hd.
    - simpl in *. rewrite Z.add_0_r in *. rewrite u32_id in R7 by by split. lia.
    - rewrite <- Hd in *. assert (Hne : data cur <> []) by by rewrite Hd.
      specialize (R6' Hne). rewrite R7. symmetry. apply u32_id. split; lia. }
  assert (Hmem : load_segments (segments s' ++ [seg]) m0
    = store_bytes (4 * a) (word_data (number_value s')) (load_segments (segments s' ++ [cur]) m0)).
  { rewrite !load_segments_snoc, Ea, Ed, store_bytes_app by by split.
    by rewrite Hcur, (u32_id (4 * a)) by (split; lia). }
  constructor; simpl; try done.
  - by rewrite length_insert.
  - split; [done|]. intros _. rewrite Ea, Hlen. lia.
  - fold a. rewrite Ea, Hlen. rewrite (u32_id (a + 1)) by (split; lia). f_equal. lia.
  - rewrite Hmem, R2. apply store_word_same; [done|lia|lia].
Qed.

Lemma related_address count m0 s s' ch :
  related count m0 s s' ->
  related count m0
    (s <| Hex.address := Hex.number_value s |> <| Hex.push_back_char := ch |>
       <| Hex.state := Hex.SCAN_SPACE |>)
    (set_address (s' <| push_back_char := ch |> <| state := Hex.SCAN_SPACE |>)).
Proof.
  intros [R1 R2 R2' R3 R4 R5 [R6 R6'] R7 R8]. unfold set_address. simpl.
  destruct (data (current_segment s')) as [|b bytes] eqn:Hd.
  - constructor; simpl; try done.
    + split; [|unfold inside; simpl; by rewrite Hd].
      destruct R6 as [Ha Hb Hw Hroom]. constructor; simpl; try done. apply is_u32_u32.
    + rewrite Hd. simpl. rewrite Z.add_0_r, <- R2. rewrite (Z.mul_comm 4).
      by rewrite (u32_id (u32 _)) by apply is_u32_u32.
    + rewrite !load_segments_snoc in *. simpl. rewrite Hd in *. exact R8.
  - constructor; simpl; try done.
    + apply Forall_app_2; [done|]. by apply List.Forall_cons.
    + split; [|by intros Hne]. constructor; simpl; try done. apply is_u32_u32.
    + rewrite Z.add_0_r, <- R2. rewrite (Z.mul_comm 4).
      by rewrite (u32_id (u32 _)) by apply is_u32_u32.
    + rewrite load_segments_snoc. simpl. exact R8.
Qed.

Lemma related_char count m0 size ch s s' outcome :
  4 * Z.of_nat count < 2 ^ 31 -> related count m0 s s' ->
  Hex.scan_char size ch s = Done outcome ->
  match outcome with
  | Hex.Scanning s1 => exists s1', scan_char ch s' = Done (Scanning s1') /\ related count m0 s1 s1'
  | Hex.Finished s1 => s1 = s /\ scan_char ch s' = Done (Finished s')
  | Hex.Rejected _ => True
  end.
Proof.
  intros Hmax Hrel. unfold Hex.scan_char, scan_char.
  rewrite (rel_state _ _ _ _ Hrel), (rel_number _ _ _ _ Hrel).
  destruct (Hex.state s);
    repeat match goal with
    | |- context [if ?c then _ else _] => destruct c eqn:?
    end;
    try (intros [= <-];
      first [exact I | by split
      | eexists; split; [reflexivity|];
        first [by apply related_address
          | rebuild_related Hrel; first [apply hex_digit_val_u32 | by rewrite rel_number0]]]).
  intros Hstore. apply bind_Done_inv in Hstore as (memory' & Hstore & E). injection E as <-.
  destruct (related_store count m0 s s' ch memory' Hmax Hrel Hstore) as (seg & Happ & Hrel').
  rewrite (rel_number _ _ _ _ Hrel) in Happ. rewrite Happ. by eexists.
Qed.

Lemma scan_loops_agree count m0 size fuel file s s' memory' :
  4 * Z.of_nat count < 2 ^ 31 -> related count m0 s s' ->
  Hex.scan_loop fuel size file s = Some (Done (0, memory')) ->
  exists segs, scan_loop fuel file s' = Some (Done (Some segs))
    /\ Forall (fun seg => segment_ok seg /\ inside count seg) segs
    /\ length memory' = count
    /\ same_memory memory' (load_segments segs m0).
Proof.
  intros Hmax. revert file s s'.
  induction fuel as [|fuel IH]; intros file s s' Hrel Hscan; [done|].
  cbn [Hex.scan_loop scan_loop] in *. rewrite (rel_push _ _ _ _ Hrel).
  assert (Hstep : forall ch rest s0 s0', related count m0 s0 s0' ->
    match Hex.scan_char size ch s0 with
    | Done (Hex.Scanning s) => Hex.scan_loop fuel size rest s
    | Done (Hex.Finished s) => Some (Done (0, Hex.memory s))
    | Done (Hex.Rejected s) => Some (Done (-1, Hex.memory s))
    | Fault f => Some (Fault f)
    end = Some (Done (0, memory')) ->
    exists segs,
      match scan_char ch s0' with
      | Done (Scanning s) => scan_loop fuel rest s
      | Done (Finished s) => Some (Done (Some (segments s ++ [current_segment s])))
      | Done Rejected => Some (Done None)
      | Fault f => Some (Fault f)
      end = Some (Done (Some segs))
      /\ Forall (fun seg => segment_ok seg /\ inside count seg) segs
      /\ length memory' = count /\ same_memory memory' (load_segments segs m0)).
  { intros ch rest s0 s0' Hrel0 H. destruct (Hex.scan_char size ch s0) as [outcome|] eqn:E; [|done].
    pose proof (related_char count m0 size ch s0 s0' outcome Hmax Hrel0 E) as Hchar.
    destruct outcome as [s1|s1|s1]; [| |done].
    - destruct Hchar as (s1' & -> & Hrel1). by apply (IH _ s1).
    - destruct Hchar as [-> ->]. injection H as <-. eexists. split; [done|].
      destruct Hrel0 as [_ _ _ _ Hl Hs Hc _ Hm]. split; [|done].
      apply Forall_app_2; [done|by apply List.Forall_cons]. }
  destruct (_ =? -1).
  - by apply (Hstep _ _ s).
  - apply (Hstep _ _ (s <| Hex.push_back_char := -1 |>)); [|done]. by destruct Hrel; constructor.
Qed.

Lemma related_start words m0 :
  same_memory words m0 ->
  related (length words) m0 (Hex.start_scan words) start_scan.
Proof.
  intros Hm. constructor; try done. split; [|by intros Hne].
  by constructor.
Qed.

(** The segments can all be sent. *)
Lemma inside_sendable count fuel seg :
  4 * Z.of_nat count < 2 ^ 31 -> (4 * count < fuel)%nat -> data seg <> [] ->
  segment_ok seg /\ inside count seg -> sendable fuel seg.
Proof.
  intros Hmax Hf Hne [[Ha Hb _ _] Hin]. specialize (Hin Hne). destruct Ha.
  split; [done|]. repeat split; try done; lia.
Qed.

(** C11: loading a program over the serial line is the same as starting the emulator with
    it.  Whenever the emulator accepts a hex file, the host program parses it without
    overrunning the arrays it grows, and, when no segment is empty, sends it and returns 0;
    the boot ROM then has left its loop, and every byte of the board's memory is the byte
    the emulator's memory has at that address, loaded or not. *)
Theorem serial_boot_loads_like_emulator text words size words' m fuel :
  4 * Z.of_nat (length words) < 2 ^ 31 -> (4 * length words < fuel)%nat -> same_memory words m ->
  Hex.read_hex_file (Some text) words size = Some (Done (0, words')) ->
  exists segs,
    read_hex_file (Some text) = Some (Done (Some segs)) /\
    (Forall (fun seg => data seg <> []) segs ->
     exists l, serial_boot fuel segs None (quiet m) = Done (0, l) /\
       Boot.program (board l) = Boot.Ret true /\
       length words' = length words /\ same_memory words' (Boot.memory (board l))).
Proof.
  intros Hmax Hf Hm Hread. unfold Hex.read_hex_file in Hread.
  destruct (scan_loops_agree (length words) m size _ text _ start_scan words' Hmax
    (related_start words m Hm) Hread) as (segs & E & Hok & Hlen & Hsame).
  exists segs. split; [exact E|]. intros Hne.
  destruct (serial_boot_quiet fuel segs None m) as (l & Hl & Hboard).
  - apply Forall_lookup. intros i seg Hi. eapply inside_sendable; [exact Hmax|exact Hf|..].
    + exact (proj1 (Forall_lookup _ _) Hne i seg Hi).
    + exact (proj1 (Forall_lookup _ _) Hok i seg Hi).
  - done.
  - exists l. split; [done|]. by rewrite Hboard.
Qed.

(** "@1", then the words 01020304 and a comment; memory of four words. *)
Definition sample_text : list Z :=
  [64; 49; 10; 48; 49; 48; 50; 48; 51; 48; 52; 10; 47; 47; 10; 102; 10].

Lemma serial_boot_loads_like_emulator_witness :
  let words := [7; 8; 9; 10] in
  let words' := [7; 0x04030201; 0x0f000000; 10] in
  same_memory words (byte_of words) /\
  Hex.read_hex_file (Some sample_text) words 16 = Some (Done (0, words')) /\
  exists segs, read_hex_file (Some sample_text) = Some (Done (Some segs)) /\
    exists l, serial_boot 17 segs None (quiet (byte_of words)) = Done (0, l) /\
      Boot.program (board l) = Boot.Ret true /\
      length words' = length words /\ same_memory words' (Boot.memory (board l)).
Proof.
  split; [done|]. split; [reflexivity|].
  destruct (serial_boot_loads_like_emulator sample_text [7; 8; 9; 10] 16
    [7; 0x04030201; 0x0f000000; 10] (byte_of [7; 8; 9; 10]) 17) as (segs & E & Hboot).
  - reflexivity.
  - simpl. lia.
  - done.
  - reflexivity.
  - exists segs. split; [exact E|]. apply Hboot. vm_compute in E. injection E as <-.
    by repeat constructor.
Defined.

(** A hex file with no data ends the host program with a division by zero: the progress bar
    divides by the length of the segment. *)
Lemma empty_segment_divides_by_zero fuel m :
  exists segs, read_hex_file (Some []) = Some (Done (Some segs)) /\
    serial_boot fuel segs None (quiet m) = Fault OutOfBounds.
Proof. exists [new_segment]. by split. Qed.
End loaders.
