(* ===== verification/Parallel.v ===== *)
(** * Parallel: running jobs on all hardware threads (software/libs/libos/bare-metal/schedule.c,
      and the copy of it in software/libs/libos/kernel/schedule.c)

    One thread calls [parallel_execute], any number of others run [worker_thread].  Every access
    to a shared variable is one step, and a schedule says which thread takes each step: the
    theorems are about all schedules.  A job takes two steps, its call and its return, so jobs
    overlap.  The static variables are volatile and memory is sequentially consistent. *)

From S2P Require Export Word.
From stdpp Require Import list list_tactics.
Import stdpp.list_relations.list.

#[local] Open Scope Z_scope.

(** ** State *)

(** A call of the function: [current_func(context, this_index)]. *)
Record job := { job_func : Z; job_context : Z; job_index : Z }.

(** The arguments of a call of [parallel_execute]. *)
Record batch := { func : Z; arg : Z; num_elements : Z }.

Record shared := {
  current_func : Z;
  context : Z;
  current_index : Z;
  max_index : Z;
  active_jobs : Z
}.

#[export]
Instance shared_fields : Fields shared := fun s =>
  Build_shared (current_func s) (context s) (current_index s) (max_index s) (active_jobs s).

(** Where a thread is in [dispatch_job]: it reads [current_index], reads [max_index], swaps,
    reads [current_func] and [context] for the call, or is inside the job. *)
Inductive dispatch :=
| ReadIndex | ReadMax (this_index : Z) | Swap (this_index : Z)
| ReadFunc (this_index : Z) | ReadContext (f this_index : Z) | Run (j : job).

(** In [parallel_execute]: the four assignments, the two reads of the loop condition, the
    call of [dispatch_job], and the loop that waits. *)
Inductive caller :=
| SetFunc | SetContext | SetIndex | SetMax
| LoopIndex | LoopMax (index : Z) | Dispatching (d : dispatch)
| WaitActive.

(** In [worker_thread]: the two reads of the inner loop, and the body. *)
Inductive worker := IdleIndex | IdleMax (index : Z) | Enter | Working (d : dispatch) | Leave.

(** [batches] are the calls of [parallel_execute] not returned from yet, the first of which may
    have begun; [finished] are the jobs that have returned. *)
Record system := {
  vars : shared;
  main : caller;
  batches : list batch;
  workers : list worker;
  finished : list job
}.

#[export]
Instance system_fields : Fields system := fun s =>
  Build_system (vars s) (main s) (batches s) (workers s) (finished s).

(** ** Steps *)

(** [dispatch_job]: where it is next, or that it returned; the variables; the job that ended. *)
Definition dispatch_step (d : dispatch) (v : shared) : option dispatch * shared * option job :=
  match d with
  | ReadIndex => (Some (ReadMax (current_index v)), v, None)
  | ReadMax this_index => (if this_index =? max_index v then None else Some (Swap this_index), v, None)
  | Swap this_index =>
      if current_index v =? this_index then
        (Some (ReadFunc this_index), v <| current_index := s32 (this_index + 1) |>, None)
      else (Some ReadIndex, v, None)
  | ReadFunc this_index => (Some (ReadContext (current_func v) this_index), v, None)
  | ReadContext f this_index =>
      (Some (Run {| job_func := f; job_context := context v; job_index := this_index |}), v, None)
  | Run j => (None, v, Some j)
  end.

Definition end_job (ended : option job) (s : system) : system :=
  match ended with Some j => s <| finished ::= fun l => l ++ [j] |> | None => s end.

Definition parallel_execute_step (s : system) : system :=
  match main s, batches s with
  | SetFunc, b :: _ => s <| vars ::= fun v => v <| current_func := func b |> |> <| main := SetContext |>
  | SetContext, b :: _ => s <| vars ::= fun v => v <| context := arg b |> |> <| main := SetIndex |>
  | SetIndex, _ :: _ => s <| vars ::= fun v => v <| current_index := 0 |> |> <| main := SetMax |>
  | SetMax, b :: _ => s <| vars ::= fun v => v <| max_index := num_elements b |> |> <| main := LoopIndex |>
  | LoopIndex, _ => s <| main := LoopMax (current_index (vars s)) |>
  | LoopMax index, _ =>
      s <| main := if index =? max_index (vars s) then WaitActive else Dispatching ReadIndex |>
  | Dispatching d, _ =>
      let '(next, v, ended) := dispatch_step d (vars s) in
      end_job ended (s <| vars := v |>
        <| main := match next with Some d => Dispatching d | None => LoopIndex end |>)
  | WaitActive, _ :: rest =>
      if active_jobs (vars s) =? 0 then s <| main := SetFunc |> <| batches := rest |> else s
  | _, [] => s
  end.

Definition worker_thread_step (i : nat) (w : worker) (s : system) : system :=
  match w with
  | IdleIndex => s <| workers ::= <[i := IdleMax (current_index (vars s))]> |>
  | IdleMax index =>
      s <| workers ::= <[i := if index =? max_index (vars s) then IdleIndex else Enter]> |>
  | Enter =>
      s <| vars ::= fun v => v <| active_jobs ::= fun n => s32 (n + 1) |> |>
        <| workers ::= <[i := Working ReadIndex]> |>
  | Working d =>
      let '(next, v, ended) := dispatch_step d (vars s) in
      end_job ended (s <| vars := v |>
        <| workers ::= <[i := match next with Some d => Working d | None => Leave end]> |>)
  | Leave =>
      s <| vars ::= fun v => v <| active_jobs ::= fun n => s32 (n - 1) |> |>
        <| workers ::= <[i := IdleIndex]> |>
  end.

(** Thread 0 is the caller, the others are workers; a thread that does not exist does nothing. *)
Definition step (thread : nat) (s : system) : system :=
  match thread with
  | O => parallel_execute_step s
  | S i => match workers s !! i with Some w => worker_thread_step i w s | None => s end
  end.

Definition run (schedule : list nat) (s : system) : system := fold_left (fun s t => step t s) schedule s.

(** The variables before the first call, all workers waiting. *)
Definition start (num_workers : nat) (calls : list batch) : system := {|
  vars := {| current_func := 0; context := 0; current_index := 0; max_index := 0; active_jobs := 0 |};
  main := SetFunc;
  batches := calls;
  workers := replicate num_workers IdleIndex;
  finished := []
|}.

(** ** What the calls ask for *)

Definition job_of (b : batch) (i : Z) : job :=
  {| job_func := func b; job_context := arg b; job_index := i |}.

(** The first [n] jobs of a call, and all of them. *)
Definition jobs_upto (b : batch) (n : Z) : list job := job_of b <$> seqZ 0 n.
Definition jobs_of (b : batch) : list job := jobs_upto b (num_elements b).

(** No call has fewer elements than the one before it. *)
Fixpoint growing (m : Z) (calls : list batch) : Prop :=
  match calls with
  | [] => True
  | b :: rest => m <= num_elements b < 2 ^ 31 /\ growing (num_elements b) rest
  end.

(** ** The invariant *)

(** The job a thread has taken and not finished. *)
Definition taken (b : batch) (d : dispatch) : list job :=
  match d with
  | ReadFunc i | ReadContext _ i => [job_of b i]
  | Run j => [j]
  | _ => []
  end.

Definition taken_next (b : batch) (next : option dispatch) : list job :=
  match next with Some d => taken b d | None => [] end.

Definition worker_taken (b : batch) (w : worker) : list job :=
  match w with Working d => taken b d | _ => [] end.

Definition main_taken (b : batch) (c : caller) : list job :=
  match c with Dispatching d => taken b d | _ => [] end.

(** An index read and compared is in range while [max_index] is [m]. *)
Definition dispatch_ok (b : batch) (m : Z) (d : dispatch) : Prop :=
  match d with
  | ReadMax i => 0 <= i <= m
  | Swap i => 0 <= i < m
  | ReadContext f _ => f = func b
  | _ => True
  end.

Definition worker_ok (b : batch) (m : Z) (w : worker) : Prop :=
  match w with Working d => dispatch_ok b m d | _ => True end.

(** Between calls a worker that is late finds nothing to do. *)
Definition dispatch_quiet (m : Z) (d : dispatch) : Prop := d = ReadIndex \/ d = ReadMax m.

Definition worker_quiet (m : Z) (w : worker) : Prop :=
  match w with Working d => dispatch_quiet m d | _ => True end.

Definition counted (w : worker) : Z := match w with Working _ | Leave => 1 | _ => 0 end.
Definition count (l : list worker) : Z := foldr (fun w n => counted w + n) 0 l.

Definition all_taken (b : batch) (s : system) : list job :=
  main_taken b (main s) ++ concat (worker_taken b <$> workers s).

(** During a call: the jobs below [current_index] are those finished and those being run. *)
Record busy (done : list batch) (b : batch) (s : system) : Prop := {
  busy_vars : current_func (vars s) = func b /\ context (vars s) = arg b;
  busy_index : 0 <= current_index (vars s) <= max_index (vars s);
  busy_workers : Forall (worker_ok b (max_index (vars s))) (workers s);
  busy_jobs : finished s ++ all_taken b s
    ≡ₚ concat (jobs_of <$> done) ++ jobs_upto b (current_index (vars s))
}.

(** Between calls: everything asked for is finished. *)
Record idle (done : list batch) (s : system) : Prop := {
  idle_index : current_index (vars s) = max_index (vars s);
  idle_workers : Forall (worker_quiet (max_index (vars s))) (workers s);
  idle_jobs : finished s ≡ₚ concat (jobs_of <$> done)
}.

Definition phase_ok (done : list batch) (s : system) : Prop :=
  let v := vars s in
  match main s, batches s with
  | SetFunc, rest => idle done s /\ growing (max_index v) rest
  | SetContext, b :: rest => idle done s /\ growing (max_index v) (b :: rest) /\ current_func v = func b
  | SetIndex, b :: rest =>
      idle done s /\ growing (max_index v) (b :: rest) /\ current_func v = func b /\ context v = arg b
  | SetMax, b :: rest => busy done b s /\ growing (max_index v) (b :: rest)
  | c, b :: rest =>
      busy done b s /\ max_index v = num_elements b /\ growing (max_index v) rest
      /\ match c with
         | LoopMax i => 0 <= i <= current_index v
         | Dispatching d => dispatch_ok b (max_index v) d
         | WaitActive => current_index v = max_index v
         | _ => True
         end
  | _, [] => False
  end.

Record system_ok (calls done : list batch) (s : system) : Prop := {
  ok_calls : calls = done ++ batches s;
  ok_max : 0 <= max_index (vars s) < 2 ^ 31;
  ok_length : Z.of_nat (length (workers s)) < 2 ^ 31;
  ok_active : active_jobs (vars s) = count (workers s);
  ok_phase : phase_ok done s
}.

(** ** Lemmas *)

Lemma jobs_upto_S b n : 0 <= n -> jobs_upto b (n + 1) = jobs_upto b n ++ [job_of b n].
Proof.
  intros Hn. unfold jobs_upto. rewrite seqZ_app by lia. rewrite fmap_app. f_equal.
Qed.

(** What one thread does to something collected over all of them. *)
Lemma concat_insert {A B} (f : A -> list B) l i w w' :
  l !! i = Some w -> f w ++ concat (f <$> <[i := w']> l) ≡ₚ f w' ++ concat (f <$> l).
Proof.
  revert i. induction l as [|x l IH]; intros [|i] Hl; simpl in *; [done|done| |].
  - injection Hl as ->. rewrite !app_assoc. by rewrite (Permutation_app_comm (f w)).
  - rewrite !(Permutation_app_swap_app _ (f x)). f_equiv. by apply IH.
Qed.

Lemma count_insert l i w w' :
  l !! i = Some w -> count (<[i := w']> l) = count l - counted w + counted w'.
Proof.
  revert i. induction l as [|x l IH]; intros [|i] Hl; simpl in *; [done|done| |].
  - injection Hl as ->. lia.
  - rewrite (IH i Hl). lia.
Qed.

Lemma count_range l : 0 <= count l <= Z.of_nat (length l).
Proof.
  induction l as [|w l IH]; simpl; [lia|]. assert (0 <= counted w <= 1) by (by destruct w). lia.
Qed.

Lemma count_zero b m l :
  count l = 0 -> concat (worker_taken b <$> l) = [] /\ Forall (worker_quiet m) l.
Proof.
  induction l as [|w l IH]; simpl; intros H; [done|]. pose proof (count_range l).
  assert (0 <= counted w) by (by destruct w). destruct (IH ltac:(lia)) as [E Hq].
  change (worker_taken b w ++ concat (worker_taken b <$> l) = [] /\ Forall (worker_quiet m) (w :: l)).
  rewrite E. split; [|constructor; [|done]]; destruct w; simpl in *; try done; lia.
Qed.

Lemma dispatch_busy b v d next v' ended :
  current_func v = func b -> context v = arg b -> 0 <= current_index v <= max_index v ->
  max_index v < 2 ^ 31 -> dispatch_ok b (max_index v) d -> dispatch_step d v = (next, v', ended) ->
  (exists i, v' = v <| current_index := i |> /\ current_index v <= i <= max_index v)
  /\ option_list ended ++ taken_next b next ++ jobs_upto b (current_index v)
      ≡ₚ taken b d ++ jobs_upto b (current_index v')
  /\ match next with Some d' => dispatch_ok b (max_index v) d' | None => True end.
Proof.
  intros Hf Hc Hi Hm Hd Hstep.
  assert (Hsame : exists i, v = v <| current_index := i |> /\ current_index v <= i <= max_index v)
    by (exists (current_index v); split; [by destruct v|lia]).
  destruct d as [|i|i|i|f i|j]; simpl in Hstep.
  - injection Hstep as <- <- <-. by split.
  - injection Hstep as <- <- <-. split; [done|]. destruct (i =? max_index v) eqn:E; bool_to_prop; simpl in *.
    + by split.
    + split; [done|]. lia.
  - simpl in Hd. destruct (current_index v =? i) eqn:E; bool_to_prop; injection Hstep as <- <- <-; [|by split].
    split; [eexists; split; [reflexivity|]; rewrite s32_small by lia; lia|]. split; [|done].
    simpl. rewrite s32_small by lia. rewrite jobs_upto_S by lia. rewrite E. by rewrite Permutation_app_comm.
  - injection Hstep as <- <- <-. split; [done|]. split; [done|]. done.
  - injection Hstep as <- <- <-. split; [done|]. simpl in *. subst f. rewrite Hc. by split.
  - injection Hstep as <- <- <-. by split.
Qed.

Lemma dispatch_idle v d next v' ended :
  current_index v = max_index v -> dispatch_quiet (max_index v) d ->
  dispatch_step d v = (next, v', ended) ->
  v' = v /\ ended = None /\ match next with Some d' => dispatch_quiet (max_index v) d' | None => True end.
Proof.
  intros Hi [->| ->] Hstep; simpl in Hstep; injection Hstep as <- <- <-.
  - split; [done|]. split; [done|]. right. by rewrite Hi.
  - by rewrite Z.eqb_refl.
Qed.

(** ** Steps keep the invariant *)

(** The jobs of one thread and of the others, before and after. *)
Lemma exchange (mine mine' others others' ended ran rest before after asked : list job) :
  mine ++ others' ≡ₚ mine' ++ others -> ended ++ mine' ++ before ≡ₚ mine ++ after ->
  ran ++ rest ++ others ≡ₚ asked ++ before ->
  (ended ++ ran) ++ rest ++ others' ≡ₚ asked ++ after.
Proof.
  intros H1 H2 H3. apply (Permutation_app_inv_l (mine ++ before)).
  transitivity ((mine ++ others') ++ before ++ ended ++ ran ++ rest); [solve_Permutation|].
  rewrite H1. transitivity ((ended ++ mine' ++ before) ++ (ran ++ rest ++ others)); [solve_Permutation|].
  rewrite H2, H3. solve_Permutation.
Qed.

(** What a worker's step leaves alone. *)
Record frame (s s' : system) : Prop := {
  frame_main : main s' = main s /\ batches s' = batches s;
  frame_vars : current_func (vars s') = current_func (vars s) /\ context (vars s') = context (vars s)
    /\ max_index (vars s') = max_index (vars s);
  frame_length : length (workers s') = length (workers s);
  frame_active : active_jobs (vars s') = count (workers s')
}.

Lemma worker_frame s i w :
  workers s !! i = Some w -> Z.of_nat (length (workers s)) < 2 ^ 31 ->
  active_jobs (vars s) = count (workers s) -> frame s (worker_thread_step i w s).
Proof.
  intros Hw Hlen Hactive. pose proof (count_range (workers s)) as Hrange.
  assert (Hcount : forall w', count (<[i := w']> (workers s)) = count (workers s) - counted w + counted w')
    by (intros; by apply count_insert).
  pose proof (count_range (<[i := Working ReadIndex]> (workers s))) as Hup.
  pose proof (count_range (<[i := IdleIndex]> (workers s))) as Hdown.
  rewrite length_insert, Hcount in Hup, Hdown.
  destruct w as [|index| |d|]; cbn [worker_thread_step].
  - constructor; simpl; rewrite ?length_insert, ?Hcount; simpl; try done; lia.
  - constructor; simpl; rewrite ?length_insert, ?Hcount; simpl; try done; destruct (_ =? _); simpl; lia.
  - constructor; simpl; rewrite ?length_insert, ?Hcount; simpl; try done.
    simpl in *. rewrite s32_small by lia. lia.
  - destruct (dispatch_step d (vars s)) as [[next v] ended] eqn:E.
    assert (Hv : current_func v = current_func (vars s) /\ context v = context (vars s)
      /\ max_index v = max_index (vars s) /\ active_jobs v = active_jobs (vars s)).
    { destruct d; simpl in E; repeat case_match; by injection E as <- <- <-. }
    destruct Hv as (H1 & H2 & H3 & H4).
    destruct ended; constructor; simpl; rewrite ?length_insert, ?Hcount; simpl; try done;
      destruct next; simpl; lia.
  - constructor; simpl; rewrite ?length_insert, ?Hcount; simpl; try done.
    simpl in *. rewrite s32_small by lia. lia.
Qed.

Lemma worker_idle done s i w :
  idle done s -> workers s !! i = Some w -> idle done (worker_thread_step i w s).
Proof.
  intros [Hi Hq Hj] Hw. assert (Hwq : worker_quiet (max_index (vars s)) w)
    by (by eapply Forall_lookup_1 in Hq).
  destruct w as [|index| |d|]; cbn [worker_thread_step].
  - constructor; simpl; try done. by apply Forall_insert.
  - constructor; simpl; try done. apply Forall_insert; [done|]. by destruct (_ =? _).
  - constructor; simpl; try done. apply Forall_insert; [done|]. by left.
  - destruct (dispatch_step d (vars s)) as [[next v] ended] eqn:E.
    destruct (dispatch_idle _ _ _ _ _ Hi Hwq E) as (-> & -> & Hnext).
    constructor; simpl; try done. apply Forall_insert; [done|]. by destruct next.
  - constructor; simpl; try done. by apply Forall_insert.
Qed.

Lemma worker_busy done b s i w :
  busy done b s -> workers s !! i = Some w -> max_index (vars s) < 2 ^ 31 ->
  let s' := worker_thread_step i w s in
  busy done b s' /\ current_index (vars s) <= current_index (vars s').
Proof.
  intros [[Hf Hc] Hi Hok Hj] Hw Hm s'.
  assert (Hwok : worker_ok b (max_index (vars s)) w) by (by eapply Forall_lookup_1 in Hok).
  assert (Hquiet : forall w', worker_taken b w = [] -> worker_taken b w' = [] ->
    main_taken b (main s) ++ concat (worker_taken b <$> <[i := w']> (workers s))
      ≡ₚ main_taken b (main s) ++ concat (worker_taken b <$> workers s)).
  { intros w' H1 H2. f_equiv. pose proof (concat_insert (worker_taken b) _ _ _ w' Hw) as Hp.
    by rewrite H1, H2 in Hp. }
  subst s'. destruct w as [|index| |d|]; cbn [worker_thread_step].
  - split; [|simpl; lia]. constructor; simpl; try done; [by apply Forall_insert|].
    rewrite <- Hj. unfold all_taken. f_equiv. by apply Hquiet.
  - split; [|simpl; lia]. constructor; simpl; try done.
    + apply Forall_insert; [done|]. by destruct (_ =? _).
    + rewrite <- Hj. unfold all_taken. f_equiv. apply Hquiet; [done|]. by destruct (_ =? _).
  - split; [|simpl; lia]. constructor; simpl; try done; [by apply Forall_insert|].
    rewrite <- Hj. unfold all_taken. f_equiv. by apply Hquiet.
  - destruct (dispatch_step d (vars s)) as [[next v] ended] eqn:E.
    destruct (dispatch_busy b _ _ _ _ _ Hf Hc Hi Hm Hwok E) as ((index & -> & Hindex) & Hperm & Hnext).
    set (w' := match next with Some d => Working d | None => Leave end).
    assert (Hw' : worker_taken b w' = taken_next b next) by (by subst w'; destruct next).
    pose proof (concat_insert (worker_taken b) _ _ _ w' Hw) as Hins. rewrite Hw' in Hins. simpl in Hins.
    assert (Hall : finished (end_job ended s) ++ main_taken b (main s)
        ++ concat (worker_taken b <$> <[i := w']> (workers s))
      ≡ₚ concat (jobs_of <$> done) ++ jobs_upto b index).
    { assert (Hfin : finished (end_job ended s) ≡ₚ option_list ended ++ finished s)
        by (destruct ended; simpl; [by rewrite Permutation_app_comm|done]).
      rewrite Hfin. eapply exchange; [exact Hins|exact Hperm|exact Hj]. }
    split; [|destruct ended; simpl; lia].
    constructor; destruct ended; simpl in *; try done;
      try (apply Forall_insert; [done|]; subst w'; by destruct next); try exact Hall; lia.
  - split; [|simpl; lia]. constructor; simpl; try done; [by apply Forall_insert|].
    rewrite <- Hj. unfold all_taken. f_equiv. by apply Hquiet.
Qed.

Lemma worker_phase done s i w :
  phase_ok done s -> workers s !! i = Some w -> max_index (vars s) < 2 ^ 31 ->
  frame s (worker_thread_step i w s) -> phase_ok done (worker_thread_step i w s).
Proof.
  intros Hp Hw Hm [[Hmain Hb] (Hf & Hc & Hmax) _ _]. unfold phase_ok in *. cbv zeta in *.
  rewrite Hmain, Hb, Hf, Hc, Hmax.
  destruct (main s) as [| | | | |index|d|], (batches s) as [|b rest]; try done.
  1-4: destruct Hp as [Hidle Hrest]; (split; [by apply worker_idle|done]).
  1: destruct Hp as [Hbusy Hrest]; (split; [by apply worker_busy|done]).
  all: destruct Hp as (Hbusy & H1 & H2 & H3); pose proof (worker_busy done b s i w Hbusy Hw Hm) as [Hbusy' Hgrow].
  all: split; [done|]; split; [done|]; split; [done|]; try done.
  - lia.
  - pose proof (busy_index _ _ _ Hbusy'). lia.
Qed.

Lemma worker_thread_ok calls done s i w :
  system_ok calls done s -> workers s !! i = Some w ->
  system_ok calls done (worker_thread_step i w s).
Proof.
  intros [Hcalls Hmax Hlen Hact Hp] Hw. pose proof (worker_frame s i w Hw Hlen Hact) as Hframe.
  pose proof Hframe as [[Hmain Hb] (_ & _ & Hm) Hl Ha].
  constructor; rewrite ?Hb, ?Hm, ?Hl; try done. apply worker_phase; done || lia.
Qed.

(** The caller takes a job, or finds none. *)
Lemma main_dispatch done b rest s d :
  batches s = b :: rest -> main s = Dispatching d -> busy done b s ->
  max_index (vars s) = num_elements b -> max_index (vars s) < 2 ^ 31 -> growing (max_index (vars s)) rest ->
  dispatch_ok b (max_index (vars s)) d ->
  let s' := parallel_execute_step s in
  phase_ok done s' /\ max_index (vars s') = max_index (vars s) /\ batches s' = batches s
  /\ workers s' = workers s /\ active_jobs (vars s') = active_jobs (vars s).
Proof.
  intros Hb Hmain [[Hf Hc] Hi Hok Hj] Hm Hlt Hg Hd s'. subst s'. unfold parallel_execute_step.
  rewrite Hmain. destruct (dispatch_step d (vars s)) as [[next v] ended] eqn:E.
  destruct (dispatch_busy b _ _ _ _ _ Hf Hc Hi Hlt Hd E) as ((index & -> & Hindex) & Hperm & Hnext).
  set (c := match next with Some d => Dispatching d | None => LoopIndex end).
  assert (Hct : main_taken b c = taken_next b next) by (by subst c; destruct next).
  assert (Hall : finished (end_job ended s) ++ main_taken b c ++ concat (worker_taken b <$> workers s)
    ≡ₚ concat (jobs_of <$> done) ++ jobs_upto b index).
  { assert (Hfin : finished (end_job ended s) ≡ₚ option_list ended ++ finished s)
      by (destruct ended; simpl; [by rewrite Permutation_app_comm|done]).
    unfold all_taken in Hj. rewrite Hmain in Hj. simpl in Hj, Hperm. rewrite Hfin, Hct.
    rewrite (Permutation_app_comm (taken_next b next)).
    eapply (exchange (taken b d) (taken_next b next) (taken b d) (taken_next b next)); [|exact Hperm|].
    - apply Permutation_app_comm.
    - rewrite <- Hj. f_equiv. apply Permutation_app_comm. }
  assert (Hbusy : busy done b (end_job ended (s <| vars ::= fun v => v <| current_index := index |> |> <| main := c |>))).
  { constructor; destruct ended; simpl in *; try done; lia. }
  split; [|by destruct ended]. unfold phase_ok. cbv zeta.
  assert (Hsame : main (end_job ended (s <| vars := vars s <| current_index := index |> |> <| main := c |>)) = c
    /\ batches (end_job ended (s <| vars := vars s <| current_index := index |> |> <| main := c |>)) = b :: rest)
    by (rewrite <- Hb; by destruct ended).
  destruct Hsame as [-> ->].
  assert (Hmax : max_index (vars (end_job ended (s <| vars := vars s <| current_index := index |> |> <| main := c |>)))
    = max_index (vars s)) by (by destruct ended).
  rewrite Hmax. subst c. destruct next; (split; [exact Hbusy|done]).
Qed.

(** The assignments before the loop, and the loops of [parallel_execute]. *)
Lemma caller_phase done b rest s :
  batches s = b :: rest -> phase_ok done s -> 0 <= max_index (vars s) < 2 ^ 31 ->
  match main s with Dispatching _ | WaitActive => False | _ => True end ->
  let s' := parallel_execute_step s in
  phase_ok done s' /\ 0 <= max_index (vars s') < 2 ^ 31 /\ batches s' = batches s
  /\ workers s' = workers s /\ active_jobs (vars s') = active_jobs (vars s).
Proof.
  intros Hb Hp Hmax Hcase s'. subst s'. unfold parallel_execute_step, phase_ok in *. cbv zeta in *.
  rewrite Hb in *. destruct (main s) as [| | | | |index|d|] eqn:Hmain; try done; simpl; rewrite Hb.
  - destruct Hp as [[H1 H2 H3] Hg]. by split; [split; [by constructor|]|].
  - destruct Hp as ([H1 H2 H3] & Hg & Hf). by split; [split; [by constructor|]|].
  - destruct Hp as ([H1 H2 H3] & Hg & Hf & Hc). split; [|done]. split; [|done].
    constructor; simpl; [done|lia| |].
    + eapply Forall_impl; [exact H2|]. intros [| | |d|]; try done. intros [->| ->]; simpl; [done|lia].
    + unfold all_taken. simpl. rewrite app_nil_r.
      assert (concat (worker_taken b <$> workers s) = []) as ->; [|by rewrite app_nil_r].
      clear - H2. induction H2 as [|w l Hw _ IH]; [done|].
      change (worker_taken b w ++ concat (worker_taken b <$> l) = []). rewrite IH, app_nil_r.
      destruct w as [| | |d|]; try done. by destruct Hw as [->| ->].
  - destruct Hp as [[H1 H2 H3 H4] [Hn Hg]]. split; [|split; [lia|done]]. split; [|done].
    unfold all_taken in H4. rewrite Hmain in H4.
    constructor; simpl; [done|lia| |exact H4].
    eapply Forall_impl; [exact H3|]. intros [| | |[]|]; simpl; try done; lia.
  - destruct Hp as ([H1 H2 H3 H4] & Hn & Hg & _). unfold all_taken in H4. rewrite Hmain in H4.
    split; [|done]. split; [by constructor|]. split; [done|]. split; [done|]. lia.
  - destruct Hp as ([H1 H2 H3 H4] & Hn & Hg & Hindex). unfold all_taken in H4. rewrite Hmain in H4.
    split; [|done]. destruct (index =? max_index (vars s)) eqn:E; bool_to_prop.
    + split; [by constructor|]. split; [done|]. split; [done|]. lia.
    + split; [by constructor|]. split; [done|]. by split.
Qed.

Lemma concat_snoc (done : list batch) b :
  concat (jobs_of <$> done ++ [b]) = concat (jobs_of <$> done) ++ jobs_of b.
Proof. rewrite fmap_app, concat_app. simpl. by rewrite app_nil_r. Qed.

Lemma parallel_execute_ok calls done s :
  system_ok calls done s -> exists done', system_ok calls done' (parallel_execute_step s).
Proof.
  intros [Hcalls Hmax Hlen Hact Hp]. destruct (batches s) as [|b rest] eqn:Hb.
  { exists done. unfold parallel_execute_step. assert (main s = SetFunc) as ->.
    { unfold phase_ok in Hp. rewrite Hb in Hp. by destruct (main s). }
    rewrite Hb. constructor; by rewrite ?Hb. }
  destruct (main s) as [| | | | |index|d|] eqn:Hmain.
  7: { exists done. pose proof Hp as Hp'. unfold phase_ok in Hp'. cbv zeta in Hp'. rewrite Hmain, Hb in Hp'.
    destruct Hp' as (Hbusy & Hn & Hg & Hd).
    destruct (main_dispatch done b rest s d Hb Hmain Hbusy Hn ltac:(lia) Hg Hd)
      as (H1 & H2 & H3 & H4 & H5).
    constructor; rewrite ?H2, ?H3, ?H4, ?H5, ?Hb; done. }
  7: { unfold phase_ok in Hp. cbv zeta in Hp. rewrite Hmain, Hb in Hp.
    destruct Hp as (Hbusy & Hn & Hg & Hend). unfold parallel_execute_step. rewrite Hmain, Hb.
    destruct (active_jobs (vars s) =? 0) eqn:E; bool_to_prop.
    - exists (done ++ [b]). rewrite Hact in E.
      destruct (count_zero b (max_index (vars s)) (workers s) E) as [Hnone Hquiet].
      constructor; simpl; try done.
      + rewrite Hcalls, <- app_assoc. done.
      + unfold phase_ok. simpl. split; [|done].
        constructor; simpl; [done|done|]. pose proof (busy_jobs _ _ _ Hbusy) as Hj.
        unfold all_taken in Hj. rewrite Hmain, Hnone in Hj. simpl in Hj. rewrite app_nil_r in Hj.
        rewrite Hj, concat_snoc, Hend, Hn. done.
    - exists done. constructor; rewrite ?Hb; try done. unfold phase_ok. cbv zeta. by rewrite Hmain, Hb. }
  all: exists done; destruct (caller_phase done b rest s Hb Hp Hmax ltac:(by rewrite Hmain)) as (H1 & H2 & H3 & H4 & H5);
    constructor; rewrite ?H3, ?H4, ?H5, ?Hb; done.
Qed.

Lemma step_ok calls done s thread :
  system_ok calls done s -> exists done', system_ok calls done' (step thread s).
Proof.
  intros Hs. destruct thread as [|i]; [by apply (parallel_execute_ok calls done)|].
  exists done. cbn [step]. destruct (workers s !! i) as [w|] eqn:Hw; [by apply worker_thread_ok|done].
Qed.

Lemma run_ok calls schedule done s :
  system_ok calls done s -> exists done', system_ok calls done' (run schedule s).
Proof.
  revert done s. induction schedule as [|t schedule IH]; intros done s Hs; [by exists done|].
  destruct (step_ok calls done s t Hs) as [done' Hs']. by apply (IH done').
Qed.

Lemma start_ok num_workers calls :
  Z.of_nat num_workers < 2 ^ 31 -> growing 0 calls -> system_ok calls [] (start num_workers calls).
Proof.
  intros Hn Hg. constructor; simpl; try done.
  - by rewrite length_replicate.
  - induction num_workers as [|n IH]; [done|]. simpl. rewrite <- IH by lia. done.
  - split; [|done]. constructor; [done| |done]. apply Forall_replicate. done.
Qed.

(** ** Properties *)

(** C28: parallel_execute runs every job exactly once before it returns.  For any number of
    workers, any calls none of which has fewer elements than the one before, and any
    interleaving of the threads, no job is run twice and none that was not asked for, and
    whenever the caller is between calls the jobs that have finished are exactly those of the
    calls that have returned, each run with the function and context of its own call. *)
Theorem parallel_execute_runs_every_job num_workers calls schedule :
  Z.of_nat num_workers < 2 ^ 31 -> growing 0 calls ->
  let s := run schedule (start num_workers calls) in
  finished s ⊆+ concat (jobs_of <$> calls) /\
  exists returned, calls = returned ++ batches s /\
    (main s = SetFunc -> finished s ≡ₚ concat (jobs_of <$> returned)).
Proof.
  intros Hn Hg s. destruct (run_ok calls schedule [] _ (start_ok num_workers calls Hn Hg)) as [returned Hs].
  fold s in Hs. destruct Hs as [Hcalls Hmax _ _ Hp]. unfold phase_ok in Hp. cbv zeta in Hp.
  assert (Hidle : idle returned s -> finished s ⊆+ concat (jobs_of <$> calls)).
  { intros [_ _ Hj]. rewrite Hj, Hcalls, fmap_app, concat_app. by apply submseteq_inserts_r. }
  assert (Hbusy : forall b rest, batches s = b :: rest -> busy returned b s ->
    max_index (vars s) <= num_elements b -> finished s ⊆+ concat (jobs_of <$> calls)).
  { intros b rest Hb [_ Hi _ Hj] Hle. rewrite Hcalls, Hb, fmap_app, concat_app. simpl.
    transitivity (finished s ++ all_taken b s); [by apply submseteq_inserts_r|]. rewrite Hj.
    apply submseteq_app; [done|]. apply submseteq_inserts_r. unfold jobs_of, jobs_upto.
    apply fmap_submseteq. set (k := current_index (vars s)) in *.
    replace (num_elements b) with (k + (num_elements b - k)) by lia.
    rewrite seqZ_app by lia. by apply submseteq_inserts_r. }
  split.
  - destruct (main s), (batches s) as [|b rest] eqn:Hb; try done; try (by apply Hidle, Hp);
      (eapply Hbusy; [reflexivity|apply Hp|]); first [apply Hp|destruct Hp as (_ & -> & _); done].
  - exists returned. split; [done|]. intros Hmain. rewrite Hmain in Hp. by apply Hp.
Qed.

Definition two_calls : list batch :=
  [{| func := 1; arg := 10; num_elements := 2 |}; {| func := 2; arg := 20; num_elements := 2 |}].

(** The caller and one worker in turn. *)
Definition alternating : list nat := concat (replicate 60 [0; 1]%nat).

Lemma parallel_execute_runs_every_job_witness :
  let s := run alternating (start 1 two_calls) in
  batches s = [] /\ finished s ≡ₚ concat (jobs_of <$> two_calls).
Proof.
  assert (Hn : Z.of_nat 1 < 2 ^ 31) by lia.
  assert (Hg : growing 0 two_calls) by (simpl; lia).
  destruct (parallel_execute_runs_every_job 1 two_calls alternating Hn Hg) as (_ & returned & Hcalls & Hdone).
  assert (Hb : batches (run alternating (start 1 two_calls)) = []) by (vm_compute; reflexivity).
  assert (Hm : main (run alternating (start 1 two_calls)) = SetFunc) by (vm_compute; reflexivity).
  rewrite Hb, app_nil_r in Hcalls. split; [exact Hb|]. rewrite <- Hcalls in Hdone. exact (Hdone Hm).
Defined.

(** A call with fewer elements than the one before can run jobs nobody asked for.
    parallel_execute resets current_index before it sets max_index, and in between a worker
    takes a job of the new call against the old bound; from then on the two differ and the
    loop that waits for them to meet goes on calling the function past the end. *)
Theorem shrinking_call_overruns :
  exists schedule,
    let s := run schedule (start 1 [{| func := 1; arg := 10; num_elements := 1 |};
                                    {| func := 2; arg := 20; num_elements := 0 |}]) in
    max_index (vars s) = 0 /\ current_index (vars s) = 2 /\ main s = LoopIndex
    /\ forall i, i = 0 \/ i = 1 ->
         {| job_func := 2; job_context := 20; job_index := i |} ∈ finished s.
Proof.
  exists (replicate 18 0 ++ replicate 5 1 ++ [0] ++ replicate 4 1 ++ replicate 8 0)%nat.
  vm_compute. split; [done|]. split; [done|]. split; [done|].
  intros i [->| ->]; repeat (by left) || right.
Qed.
