(* ===== verification/Sort.v ===== *)
(** * Sort: sorting and searching arrays (software/libs/libc/src/qsort.c, and bsearch of
      software/libs/libc/src/stdlib.c)

    An array is the bytes from its address on; the comparison function is a parameter that sees
    the bytes of two elements.  The result of [bsearch] is the offset of the element found. *)

From S2P Require Export Word.
From stdpp Require Import list sorting.
Import stdpp.list_relations.list.

#[local] Open Scope Z_scope.

(** ** Operations *)

Section Operations.

(** [cmp(elem1, elem2)]; [width] is the size of an element. *)
Context (cmp : list Z -> list Z -> Z) (width : Z).

Definition load_byte (at_ : Z) (bytes : list Z) : result Z :=
  match bytes !! Z.to_nat at_ with Some b => Done b | None => Fault OutOfBounds end.

Definition store_byte (at_ value : Z) (bytes : list Z) : result (list Z) :=
  if (Z.to_nat at_ <? length bytes)%nat then Done (<[Z.to_nat at_ := value]> bytes) else Fault OutOfBounds.

(** What the comparison reads through a pointer to an element. *)
Definition element_at (at_ : Z) (bytes : list Z) : result (list Z) :=
  if at_ + width <=? Z.of_nat (length bytes) then Done (take (Z.to_nat width) (drop (Z.to_nat at_) bytes))
  else Fault OutOfBounds.

(** [for (k = 0; k < width; k++)]: from byte [k] on, [count] bytes. *)
Fixpoint swap_bytes (count : nat) (k elem1 elem2 : Z) (bytes : list Z) : result (list Z) :=
  match count with
  | O => Done bytes
  | S count' =>
      tmp <-- load_byte (elem1 + k) bytes;;
      b <-- load_byte (elem2 + k) bytes;;
      bytes <-- store_byte (elem1 + k) b bytes;;
      bytes <-- store_byte (elem2 + k) tmp bytes;;
      swap_bytes count' (k + 1) elem1 elem2 bytes
  end.

(** [for (j = i + 1; j < nel; j++)] *)
Fixpoint sort_inner (count : nat) (j i : Z) (bytes : list Z) : result (list Z) :=
  match count with
  | O => Done bytes
  | S count' =>
      let elem1 := u32 (i * width) in
      let elem2 := u32 (j * width) in
      x <-- element_at elem1 bytes;;
      y <-- element_at elem2 bytes;;
      bytes <-- (if 0 <? cmp x y then swap_bytes (Z.to_nat width) 0 elem1 elem2 bytes else Done bytes);;
      sort_inner count' (j + 1) i bytes
  end.

(** [for (i = 0; i < nel - 1; i++)] *)
Fixpoint sort_outer (count : nat) (i nel : Z) (bytes : list Z) : result (list Z) :=
  match count with
  | O => Done bytes
  | S count' =>
      bytes <-- sort_inner (Z.to_nat (nel - (i + 1))) (i + 1) i bytes;;
      sort_outer count' (i + 1) nel bytes
  end.

Definition qsort (nel : Z) (bytes : list Z) : result (list Z) :=
  if nel =? 0 then Done bytes else sort_outer (Z.to_nat (nel - 1)) 0 nel bytes.

(** [while (low <= high)]; the interval shrinks, so [num] turns are enough. *)
Fixpoint bsearch_loop (fuel : nat) (searchKey : list Z) (low high : Z) (bytes : list Z)
  : result (option Z) :=
  if low <=? high then
    match fuel with
    | O => Fault OutOfFuel
    | S fuel' =>
        let mid := Z.quot (s32 (low + high)) 2 in
        let midKey := u32 (mid * width) in
        key <-- element_at midKey bytes;;
        let compVal := cmp searchKey key in
        if compVal =? 0 then Done (Some midKey)
        else if compVal <? 0 then bsearch_loop fuel' searchKey low (mid - 1) bytes
        else bsearch_loop fuel' searchKey (mid + 1) high bytes
    end
  else Done None.

Definition bsearch (searchKey : list Z) (num : Z) (bytes : list Z) : result (option Z) :=
  bsearch_loop (Z.to_nat num) searchKey 0 (s32 (u32 (num - 1))) bytes.

End Operations.

(** ** Arrays of elements *)

(** The bytes of the elements [E], followed by [rest]. *)
Definition array_bytes (E : list (list Z)) (rest : list Z) : list Z := concat E ++ rest.

Definition elements (width : nat) (E : list (list Z)) : Prop := Forall (fun x => length x = width) E.

Lemma concat_length width E : elements width E -> length (concat E) = (length E * width)%nat.
Proof. induction 1 as [|x E Hx _ IH]; simpl; [done|]. rewrite length_app, IH. lia. Qed.

Lemma concat_split width E rest i x :
  elements width E -> E !! i = Some x ->
  array_bytes E rest = concat (take i E) ++ x ++ (concat (drop (S i) E) ++ rest)
  /\ length (concat (take i E)) = (i * width)%nat /\ length x = width.
Proof.
  intros HE Hi. assert (Hx : length x = width) by (by eapply Forall_lookup_1 in HE).
  split; [|split; [|done]].
  - unfold array_bytes. rewrite <- (take_drop_middle E i x Hi) at 1. rewrite concat_app. simpl.
    by rewrite <- !app_assoc.
  - rewrite (concat_length width) by (by apply Forall_take). rewrite length_take.
    apply lookup_lt_Some in Hi. lia.
Qed.

Lemma array_lookup width E rest i x k :
  elements width E -> E !! i = Some x -> (k < width)%nat -> array_bytes E rest !! (i * width + k)%nat = x !! k.
Proof.
  intros HE Hi Hk. destruct (concat_split width E rest i x HE Hi) as (-> & Hl & Hx).
  rewrite lookup_app_r by lia. rewrite Hl, Nat.add_comm, Nat.add_sub. by rewrite lookup_app_l by lia.
Qed.

Lemma array_insert width E rest i x k b :
  elements width E -> E !! i = Some x -> (k < width)%nat ->
  <[(i * width + k)%nat := b]> (array_bytes E rest) = array_bytes (<[i := <[k := b]> x]> E) rest.
Proof.
  intros HE Hi Hk. destruct (concat_split width E rest i x HE Hi) as (-> & Hl & Hx).
  assert (HE' : elements width (<[i := <[k := b]> x]> E)).
  { apply Forall_insert; [done|]. by rewrite length_insert. }
  apply lookup_lt_Some in Hi as Hlt.
  destruct (concat_split width (<[i := <[k := b]> x]> E) rest i (<[k := b]> x) HE') as (-> & _ & _);
    [by rewrite list_lookup_insert_eq|].
  rewrite take_insert_ge, drop_insert_lt by lia.
  rewrite insert_app_r_alt by lia. rewrite Hl, Nat.add_comm, Nat.add_sub. f_equal.
  by rewrite insert_app_l by lia.
Qed.

Lemma array_element width E rest i x :
  elements width E -> E !! i = Some x ->
  take width (drop (i * width) (array_bytes E rest)) = x.
Proof.
  intros HE Hi. destruct (concat_split width E rest i x HE Hi) as (-> & Hl & Hx).
  rewrite <- Hl, drop_app_length, <- Hx. by rewrite take_app_length.
Qed.

Lemma array_room width E rest i x :
  elements width E -> E !! i = Some x -> (i * width + width <= length (array_bytes E rest))%nat.
Proof.
  intros HE Hi. destruct (concat_split width E rest i x HE Hi) as (-> & Hl & Hx).
  rewrite !length_app. lia.
Qed.

(** ** The sort on lists *)

Section Lists.

Context (cmp : list Z -> list Z -> Z).

Implicit Types (x y : list Z).

(** One pass: what ends at the front, and the elements it was compared with. *)
Fixpoint pass (x : list Z) (l : list (list Z)) : list Z * list (list Z) :=
  match l with
  | [] => (x, [])
  | y :: l' =>
      if 0 <? cmp x y then let (m, r) := pass y l' in (m, x :: r)
      else let (m, r) := pass x l' in (m, y :: r)
  end.

Fixpoint exchange_sort (fuel : nat) (l : list (list Z)) : list (list Z) :=
  match fuel, l with
  | S fuel', x :: l' => let (m, r) := pass x l' in m :: exchange_sort fuel' r
  | _, _ => l
  end.

Lemma pass_perm x l : (pass x l).1 :: (pass x l).2 ≡ₚ x :: l.
Proof.
  revert x. induction l as [|y l IH]; intros x; [done|]. simpl. destruct (0 <? cmp x y).
  - specialize (IH y). destruct (pass y l) as [m r]. simpl in *. by rewrite Permutation_swap, IH.
  - specialize (IH x). destruct (pass x l) as [m r]. simpl in *. rewrite Permutation_swap, IH. apply Permutation_swap.
Qed.

Lemma pass_length x l : length (pass x l).2 = length l.
Proof. pose proof (Permutation_length (pass_perm x l)). simpl in *. lia. Qed.

Lemma exchange_sort_perm fuel l : exchange_sort fuel l ≡ₚ l.
Proof.
  revert l. induction fuel as [|fuel IH]; intros [|x l]; try done. simpl.
  pose proof (pass_perm x l). destruct (pass x l) as [m r]. by rewrite IH.
Qed.

Lemma exchange_sort_length fuel l : length (exchange_sort fuel l) = length l.
Proof. by rewrite exchange_sort_perm. Qed.

(** ** Comparison functions *)

(** A comparison that says what an order says, as the C standard asks of one. *)
Class CompareOk : Prop := {
  compare_flip x y : cmp y x < 0 <-> 0 < cmp x y;
  compare_trans x y z : cmp x y <= 0 -> cmp y z <= 0 -> cmp x z <= 0
}.

Definition cmp_le (x y : list Z) : Prop := cmp x y <= 0.

Context {Hcmp : CompareOk}.

Lemma compare_total x y : 0 < cmp x y -> cmp_le y x.
Proof. intros H. apply compare_flip in H. unfold cmp_le. lia. Qed.

Lemma pass_least x l : cmp_le (pass x l).1 x /\ Forall (cmp_le (pass x l).1) (pass x l).2.
Proof.
  assert (Hrefl : forall y, cmp_le y y).
  { intros y. unfold cmp_le. pose proof (compare_flip y y). lia. }
  assert (Htrans : forall a b c, cmp_le a b -> cmp_le b c -> cmp_le a c) by (intros a b c; apply compare_trans).
  revert x. induction l as [|y l IH]; intros x; [by split|]. simpl. destruct (Z.ltb_spec 0 (cmp x y)) as [H|H].
  - apply compare_total in H. destruct (IH y) as [Hy Hr]. destruct (pass y l) as [m r]. simpl in *.
    assert (cmp_le m x) by (by eapply Htrans). split; [done|by constructor].
  - destruct (IH x) as [Hx Hr]. destruct (pass x l) as [m r]. simpl in *.
    split; [done|]. constructor; [by eapply Htrans|done].
Qed.

Lemma exchange_sort_sorted fuel l : (length l <= S fuel)%nat -> StronglySorted cmp_le (exchange_sort fuel l).
Proof.
  revert l. induction fuel as [|fuel IH]; intros l Hl.
  - destruct l as [|x [|y l]]; simpl in *; [constructor|by repeat constructor|lia].
  - destruct l as [|x l]; simpl in *; [constructor|]. pose proof (pass_length x l) as Hlen.
    destruct (pass_least x l) as [_ Hr]. destruct (pass x l) as [m r]. simpl in *.
    constructor; [apply IH; lia|]. by rewrite exchange_sort_perm.
Qed.

Lemma sorted_lookup E (i j : nat) x y :
  StronglySorted cmp_le E -> (i < j)%nat -> E !! i = Some x -> E !! j = Some y -> cmp_le x y.
Proof.
  intros HS. revert i j. induction HS as [|a E HS IH Ha]; intros [|i] [|j] Hij Hi Hj; simpl in *; try done; try lia.
  - injection Hi as ->. by eapply Forall_lookup_1 in Ha.
  - apply (IH i j); [lia|done|done].
Qed.

(** A key below an element is below every later one, and the other way around. *)
Lemma key_below key x y : cmp key x < 0 -> cmp_le x y -> cmp key y < 0.
Proof.
  intros Hk Hxy. destruct (Z.lt_ge_cases (cmp key y) 0) as [|H]; [done|]. exfalso.
  assert (Hyk : cmp y key <= 0) by (pose proof (compare_flip key y); pose proof (compare_flip y key); lia).
  pose proof (compare_trans _ _ _ Hxy Hyk). pose proof (compare_flip x key). lia.
Qed.

Lemma key_above key x y : 0 < cmp key y -> cmp_le x y -> 0 < cmp key x.
Proof.
  intros Hk Hxy. destruct (Z.lt_ge_cases 0 (cmp key x)) as [|H]; [done|]. exfalso.
  pose proof (compare_trans _ _ _ H Hxy). lia.
Qed.

End Lists.

(** ** The operations on arrays of elements *)

Section Specification.

Context (cmp : list Z -> list Z -> Z) (width : nat).

Let w : Z := Z.of_nat width.

Implicit Types (E : list (list Z)) (x y rest : list Z).

(** The offset of an element, of an array that fits the address space. *)
Lemma element_offset E (i : nat) x :
  E !! i = Some x -> Z.of_nat (length E) * w < 2 ^ 32 -> u32 (Z.of_nat i * w) = Z.of_nat (i * width).
Proof.
  intros Hi Hfit. apply lookup_lt_Some in Hi. subst w. rewrite u32_id; [lia|]. split; nia.
Qed.

Lemma element_at_ok E rest (i : nat) x :
  elements width E -> E !! i = Some x ->
  element_at w (Z.of_nat (i * width)) (array_bytes E rest) = Done x.
Proof.
  intros HE Hi. unfold element_at. pose proof (array_room width E rest i x HE Hi). subst w.
  rewrite (proj2 (Z.leb_le _ _)) by lia. rewrite !Nat2Z.id. by rewrite (array_element width E rest i x).
Qed.

Lemma load_byte_ok E rest (i k : nat) x :
  elements width E -> E !! i = Some x -> (k < width)%nat ->
  load_byte (Z.of_nat (i * width) + Z.of_nat k) (array_bytes E rest) = Done (x !!! k).
Proof.
  intros HE Hi Hk. unfold load_byte. rewrite <- Nat2Z.inj_add, Nat2Z.id, (array_lookup width E rest i x) by done.
  assert (length x = width) by (by eapply Forall_lookup_1 in HE).
  destruct (lookup_lt_is_Some_2 x k) as [b Hb]; [lia|]. by rewrite Hb, (list_lookup_total_correct x k b).
Qed.

Lemma store_byte_ok E rest (i k : nat) x b :
  elements width E -> E !! i = Some x -> (k < width)%nat ->
  store_byte (Z.of_nat (i * width) + Z.of_nat k) b (array_bytes E rest)
  = Done (array_bytes (<[i := <[k := b]> x]> E) rest).
Proof.
  intros HE Hi Hk. unfold store_byte. rewrite <- Nat2Z.inj_add, Nat2Z.id.
  pose proof (array_room width E rest i x HE Hi). rewrite (proj2 (Nat.ltb_lt _ _)) by lia.
  by rewrite (array_insert width E rest i x).
Qed.

(** Two elements, the first [k] bytes of which have changed places. *)
Definition partly_swapped (k : nat) (x y : list Z) : list Z := take k y ++ drop k x.

Lemma partly_swapped_step k x y :
  length x = width -> length y = width -> (k < width)%nat ->
  <[k := y !!! k]> (partly_swapped k x y) = partly_swapped (S k) x y
  /\ partly_swapped k x y !!! k = x !!! k.
Proof.
  intros Hx Hy Hk. unfold partly_swapped.
  destruct (lookup_lt_is_Some_2 x k) as [a Ha]; [lia|]. destruct (lookup_lt_is_Some_2 y k) as [b Hb]; [lia|].
  assert (Hl : length (take k y) = k) by (rewrite length_take; lia).
  rewrite (list_lookup_total_correct _ _ _ Ha), (list_lookup_total_correct _ _ _ Hb).
  rewrite (drop_S x a k Ha), (take_S_r y k b Hb). split.
  - rewrite insert_app_r_alt by lia. rewrite Hl, Nat.sub_diag. simpl. by rewrite <- app_assoc.
  - apply list_lookup_total_correct. rewrite lookup_app_r by lia. by rewrite Hl, Nat.sub_diag.
Qed.

Lemma swap_bytes_ok E rest (i j k count : nat) x y :
  elements width E -> i <> j -> length x = width -> length y = width -> (k + count = width)%nat ->
  E !! i = Some (partly_swapped k x y) -> E !! j = Some (partly_swapped k y x) ->
  swap_bytes count (Z.of_nat k) (Z.of_nat (i * width)) (Z.of_nat (j * width)) (array_bytes E rest)
  = Done (array_bytes (<[j := x]> (<[i := y]> E)) rest).
Proof.
  intros HE Hij Hx Hy. revert E k HE. induction count as [|count IH]; intros E k HE Hk Hi Hj; cbn [swap_bytes].
  - assert (k = width) as -> by lia. unfold partly_swapped in *.
    rewrite take_ge, drop_ge, app_nil_r in Hi, Hj by lia. by rewrite (list_insert_id E i y), (list_insert_id E j x).
  - destruct (partly_swapped_step k x y Hx Hy ltac:(lia)) as [Hxs Hxk].
    destruct (partly_swapped_step k y x Hy Hx ltac:(lia)) as [Hys Hyk].
    rewrite (load_byte_ok E rest i k _ HE Hi) by lia. cbn [bind_result].
    rewrite (load_byte_ok E rest j k _ HE Hj) by lia. cbn [bind_result].
    rewrite (store_byte_ok E rest i k _ _ HE Hi) by lia. cbn [bind_result].
    assert (HE1 : elements width (<[i := <[k := partly_swapped k y x !!! k]> (partly_swapped k x y)]> E)).
    { apply Forall_insert; [done|]. rewrite length_insert. by eapply Forall_lookup_1 in HE. }
    rewrite (store_byte_ok _ rest j k (partly_swapped k y x) _ HE1) by (try lia; by rewrite list_lookup_insert_ne).
    cbn [bind_result]. rewrite Hyk, Hxk, Hxs, Hys.
    replace (Z.of_nat k + 1) with (Z.of_nat (S k)) by lia.
    apply lookup_lt_Some in Hi as Hli. apply lookup_lt_Some in Hj as Hlj.
    rewrite IH.
    + f_equal. f_equal. rewrite (list_insert_insert_ne (<[i := _]> E) i j) by done.
      by rewrite !list_insert_insert_eq.
    + apply Forall_insert; [apply Forall_insert; [done|]|];
        unfold partly_swapped; rewrite length_app, length_take, length_drop; lia.
    + lia.
    + rewrite list_lookup_insert_ne by done. by rewrite list_lookup_insert_eq.
    + rewrite list_lookup_insert_eq; [done|]. by rewrite length_insert.
Qed.

(** Two elements change places in the list. *)
Lemma insert_two (pre mid post : list (list Z)) x y x' y' :
  <[(length pre + S (length mid))%nat := y']> (<[length pre := x']> (pre ++ x :: mid ++ y :: post))
  = pre ++ x' :: mid ++ y' :: post.
Proof.
  replace (length pre) with (length pre + 0)%nat at 2 by lia. rewrite insert_app_r. simpl.
  rewrite insert_app_r. simpl. f_equal. f_equal.
  replace (length mid) with (length mid + 0)%nat by lia. by rewrite insert_app_r.
Qed.

Lemma lookup_two (pre mid post : list (list Z)) x y :
  (pre ++ x :: mid ++ y :: post) !! length pre = Some x
  /\ (pre ++ x :: mid ++ y :: post) !! (length pre + S (length mid))%nat = Some y.
Proof.
  split; [by rewrite list_lookup_middle|]. rewrite lookup_app_r by lia.
  replace (length pre + S (length mid) - length pre)%nat with (S (length mid)) by lia. simpl.
  by rewrite list_lookup_middle.
Qed.

Lemma sort_inner_pass pre mid post x rest :
  elements width (pre ++ x :: mid ++ post) ->
  Z.of_nat (length (pre ++ x :: mid ++ post)) * w < 2 ^ 32 ->
  sort_inner cmp w (length post) (Z.of_nat (length pre + S (length mid))) (Z.of_nat (length pre))
    (array_bytes (pre ++ x :: mid ++ post) rest)
  = Done (array_bytes (pre ++ (pass cmp x post).1 :: mid ++ (pass cmp x post).2) rest).
Proof.
  revert x mid. induction post as [|y post IH]; intros x mid HE Hfit; [done|]. cbn [sort_inner length].
  destruct (lookup_two pre mid post x y) as [Hi Hj].
  rewrite (element_offset _ _ _ Hi), (element_offset _ _ _ Hj) by done.
  rewrite (element_at_ok _ rest _ _ HE Hi). cbn [bind_result].
  rewrite (element_at_ok _ rest _ _ HE Hj). cbn [bind_result pass].
  replace (Z.of_nat (length pre + S (length mid)) + 1)
    with (Z.of_nat (length pre + S (length (mid ++ [x])))) by (rewrite length_app; simpl; lia).
  assert (Hx : length x = width) by (by eapply Forall_lookup_1 in HE).
  assert (Hy : length y = width) by (by eapply Forall_lookup_1 in HE).
  assert (Hsame : forall a b, (pre ++ a :: mid ++ b :: post) ≡ₚ a :: b :: pre ++ mid ++ post).
  { intros a b. solve_Permutation. }
  destruct (0 <? cmp x y).
  - replace (Z.to_nat w) with width by (unfold w; lia). change 0 with (Z.of_nat 0).
    rewrite (swap_bytes_ok _ rest _ _ 0 width x y HE) by (done || lia || (unfold partly_swapped; done)).
    cbn [bind_result]. rewrite insert_two.
    specialize (IH y (mid ++ [x])). rewrite <- app_assoc in IH. cbn [app] in IH. rewrite IH.
    + destruct (pass cmp y post). simpl. by rewrite <- app_assoc.
    + unfold elements in *. rewrite Hsame in *. by rewrite Permutation_swap.
    + rewrite Hsame in *. by rewrite Permutation_swap.
  - cbn [bind_result]. specialize (IH x (mid ++ [y])).
    replace (length (mid ++ [x])) with (length (mid ++ [y])) by (by rewrite !length_app).
    rewrite <- app_assoc in IH. cbn [app] in IH. rewrite IH by done.
    destruct (pass cmp x post). simpl. by rewrite <- app_assoc.
Qed.

Lemma sort_outer_exchange l fuel pre rest :
  elements width (pre ++ l) -> Z.of_nat (length (pre ++ l)) * w < 2 ^ 32 -> length l = S fuel ->
  sort_outer cmp w fuel (Z.of_nat (length pre)) (Z.of_nat (length (pre ++ l))) (array_bytes (pre ++ l) rest)
  = Done (array_bytes (pre ++ exchange_sort cmp fuel l) rest).
Proof.
  revert l pre. induction fuel as [|fuel IH]; intros l pre HE Hfit Hl; [by destruct l|].
  destruct l as [|x l]; [done|]. injection Hl as Hl. cbn [sort_outer exchange_sort].
  replace (Z.to_nat _) with (length l) by (rewrite length_app; simpl; lia).
  replace (Z.of_nat (length pre) + 1) with (Z.of_nat (length pre + 1)) by lia.
  pose proof (sort_inner_pass pre [] l x rest HE Hfit) as Hinner. cbn [app length] in Hinner.
  rewrite Hinner. cbn [bind_result].
  pose proof (pass_perm cmp x l) as Hp. pose proof (pass_length cmp x l) as Hlen.
  destruct (pass cmp x l) as [m r]. simpl in Hp, Hlen. cbn [fst snd].
  assert (Hsame : (pre ++ [m]) ++ r ≡ₚ pre ++ x :: l) by (by rewrite <- app_assoc, <- Hp).
  assert (HE' : elements width ((pre ++ [m]) ++ r)) by (unfold elements; by rewrite Hsame).
  assert (Hlen' : length ((pre ++ [m]) ++ r) = length (pre ++ x :: l)) by (by rewrite Hsame).
  specialize (IH r (pre ++ [m]) HE'). rewrite Hlen', <- !app_assoc in IH. cbn [app] in IH.
  replace (length pre + 1)%nat with (length (pre ++ [m])) by (by rewrite length_app).
  apply IH; [done|lia].
Qed.

Lemma qsort_exchange E rest :
  elements width E -> Z.of_nat (length E) * w < 2 ^ 32 ->
  qsort cmp w (Z.of_nat (length E)) (array_bytes E rest)
  = Done (array_bytes (exchange_sort cmp (length E - 1) E) rest).
Proof.
  intros HE Hfit. unfold qsort. destruct E as [|x E]; [done|].
  rewrite (proj2 (Z.eqb_neq _ _)) by (simpl; lia).
  replace (Z.to_nat _) with (length (x :: E) - 1)%nat by (simpl; lia).
  apply (sort_outer_exchange (x :: E) _ [] rest HE Hfit). simpl. lia.
Qed.

(** ** Binary search *)

Context {Hcmp : CompareOk cmp}.

(** What a search may answer. *)
Definition search_result (key : list Z) E (r : option Z) : Prop :=
  match r with
  | Some at_ => exists (i : nat) x, at_ = Z.of_nat (i * width) /\ E !! i = Some x /\ cmp key x = 0
  | None => forall x, x ∈ E -> cmp key x <> 0
  end.

Lemma bsearch_loop_finds fuel key E rest low high :
  elements width E -> Z.of_nat (length E) * w < 2 ^ 32 -> Z.of_nat (length E) <= 2 ^ 30 ->
  StronglySorted (cmp_le cmp) E -> high - low < Z.of_nat fuel ->
  0 <= low -> high < Z.of_nat (length E) -> -1 <= high ->
  (forall i x, E !! i = Some x -> Z.of_nat i < low -> 0 < cmp key x) ->
  (forall i x, E !! i = Some x -> high < Z.of_nat i -> cmp key x < 0) ->
  exists r, bsearch_loop cmp w fuel key low high (array_bytes E rest) = Done r /\ search_result key E r.
Proof.
  intros HE Hfit Hlen HS. revert low high.
  induction fuel as [|fuel IH]; intros low high Hf Hlow Hhigh Hm1 Hlt Hgt; cbn [bsearch_loop];
    (destruct (Z.leb_spec low high); [|exists None; split; [done|]; intros x (i & Hi)%list_elem_of_lookup_1;
      destruct (Z.lt_ge_cases (Z.of_nat i) low); [specialize (Hlt i x Hi)|specialize (Hgt i x Hi)]; lia]).
  - lia.
  - rewrite s32_small by lia. rewrite Z.quot_div_nonneg by lia.
    assert (Hmid : low <= (low + high) / 2 <= high) by (split; [apply Z.div_le_lower_bound|apply Z.div_le_upper_bound]; lia).
    set (mid := (low + high) / 2) in *. clearbody mid. cbv zeta.
    destruct (lookup_lt_is_Some_2 E (Z.to_nat mid)) as [x Hx]; [lia|].
    rewrite <- (Z2Nat.id mid) by lia. rewrite (element_offset _ _ _ Hx) by done.
    rewrite (element_at_ok _ rest _ _ HE Hx). cbn [bind_result]. rewrite Z2Nat.id by lia.
    destruct (Z.eqb_spec (cmp key x) 0) as [H0|H0]; [exists (Some (Z.of_nat (Z.to_nat mid * width))); split; [done|]; by eexists _, _|].
    destruct (Z.ltb_spec (cmp key x) 0) as [Hneg|Hpos].
    + apply IH; try lia; [done|]. intros i y Hi Hg.
      destruct (decide (i = Z.to_nat mid)) as [->|]; [by simplify_eq|].
      apply (key_below cmp key x); [done|]. apply (sorted_lookup cmp E (Z.to_nat mid) i); [done|lia|done|done].
    + apply IH; try lia; [|done]. intros i y Hi Hg.
      destruct (decide (i = Z.to_nat mid)) as [->|]; [simplify_eq; lia|].
      apply (key_above cmp key y x); [lia|]. apply (sorted_lookup cmp E i (Z.to_nat mid)); [done|lia|done|done].
Qed.

Lemma bsearch_finds key E rest :
  elements width E -> Z.of_nat (length E) * w < 2 ^ 32 -> Z.of_nat (length E) <= 2 ^ 30 ->
  StronglySorted (cmp_le cmp) E ->
  exists r, bsearch cmp w key (Z.of_nat (length E)) (array_bytes E rest) = Done r /\ search_result key E r.
Proof.
  intros HE Hfit Hlen HS. unfold bsearch.
  assert (Hh : s32 (u32 (Z.of_nat (length E) - 1)) = Z.of_nat (length E) - 1).
  { destruct E as [|x E]; [done|]. rewrite u32_id by (split; simpl in *; lia). apply s32_small. simpl in *. lia. }
  rewrite Hh. apply bsearch_loop_finds; try done; try lia.
  intros i x Hi%lookup_lt_Some. lia.
Qed.

End Specification.

(** ** Sorting and then searching *)

(** C29: on an array that fits the address space, [qsort] terminates with the same elements in
    some order and leaves the bytes after the array alone, whatever the comparison says; when
    the comparison is that of an order, the result is sorted, and [bsearch], asked for any key
    (in an array of at most 2^30 elements), gives an element that compares equal to it if there
    is one, and null otherwise. *)
Theorem qsort_bsearch cmp (width : nat) (E : list (list Z)) (rest : list Z) :
  elements width E -> Z.of_nat (length E) * Z.of_nat width < 2 ^ 32 -> Z.of_nat (length E) <= 2 ^ 30 ->
  exists E',
    qsort cmp (Z.of_nat width) (Z.of_nat (length E)) (array_bytes E rest) = Done (array_bytes E' rest)
    /\ E' ≡ₚ E
    /\ (CompareOk cmp ->
        StronglySorted (cmp_le cmp) E'
        /\ forall key, exists r,
             bsearch cmp (Z.of_nat width) key (Z.of_nat (length E)) (array_bytes E' rest) = Done r
             /\ search_result cmp width key E' r).
Proof.
  intros HE Hfit Hlen. exists (exchange_sort cmp (length E - 1) E).
  split; [by apply qsort_exchange|]. split; [apply exchange_sort_perm|]. intros Hcmp.
  assert (HS : StronglySorted (cmp_le cmp) (exchange_sort cmp (length E - 1) E))
    by (apply (exchange_sort_sorted cmp); lia).
  split; [done|]. intros key. pose proof (exchange_sort_perm cmp (length E - 1) E) as HP.
  set (E' := exchange_sort _ _ _) in *. clearbody E'. rewrite <- (Permutation_length HP) in *.
  apply bsearch_finds; try done. unfold elements. by rewrite HP.
Qed.

(** Elements of two bytes, compared by the first. *)
Definition compare_first (x y : list Z) : Z := nth 0 x 0 - nth 0 y 0.

#[export]
Instance compare_first_ok : CompareOk compare_first.
Proof. split; unfold compare_first; lia. Qed.

Lemma qsort_bsearch_witness :
  qsort compare_first 2 3 [5; 1; 2; 7; 3; 3; 99] = Done [2; 7; 3; 3; 5; 1; 99]
  /\ bsearch compare_first 2 [5] 3 [2; 7; 3; 3; 5; 1; 99] = Done (Some 4)
  /\ bsearch compare_first 2 [4] 3 [2; 7; 3; 3; 5; 1; 99] = Done None
  /\ exists E', qsort compare_first 2 3 (array_bytes [[5; 1]; [2; 7]; [3; 3]] [99]) = Done (array_bytes E' [99])
      /\ StronglySorted (cmp_le compare_first) E'.
Proof.
  split; [reflexivity|]. split; [reflexivity|]. split; [reflexivity|].
  destruct (qsort_bsearch compare_first 2 [[5; 1]; [2; 7]; [3; 3]] [99]) as (E' & Hq & _ & Hs);
    [by repeat constructor|done|done|].
  exists E'. split; [exact Hq|]. by apply Hs, compare_first_ok.
Defined.
