(* ===== verification/VmCache.v ===== *)
(** * VmCache: the page cache (software/kernel/vm_cache.c)

    A cache is known by the address of its structure, the object the slab allocator gave; a
    page by its index, as in VmPage.  The lists a page is on are the sequences its two list
    nodes stand for (KernelList): the pages of its cache and its hash bucket.  There is one
    hardware thread, so the cache lock is a flag, and waiting for a lock one holds oneself is
    the fault that running out of fuel is. *)

From S2P Require Export TranslationMap.
From stdpp Require Import list gmap functions.
Import stdpp.list_relations.list.

#[local] Open Scope Z_scope.

(** ** Data *)

Definition NUM_HASH_BUCKETS : Z := 37.

Record vm_cache := { page_list : list Z; file : Z; cache_ref_count : Z; source : Z }.

#[export]
Instance vm_cache_fields : Fields vm_cache := fun c =>
  Build_vm_cache (page_list c) (file c) (cache_ref_count c) (source c).

Record cache_state := {
  vm : vm_state;
  caches : gmap Z vm_cache;
  hash_table : list (list Z);
  cache_lock : bool
}.

#[export]
Instance cache_state_fields : Fields cache_state := fun s =>
  Build_cache_state (vm s) (caches s) (hash_table s) (cache_lock s).

(** ** Operations *)

Definition bootstrap_vm_cache (s : cache_state) : cache_state :=
  s <| hash_table := replicate (Z.to_nat NUM_HASH_BUCKETS) [] |>.

Definition get_cache (c : Z) (s : cache_state) : result vm_cache :=
  match caches s !! c with Some x => Done x | None => Fault OutOfBounds end.

Definition set_cache (c : Z) (x : vm_cache) (s : cache_state) : cache_state :=
  s <| caches ::= <[c := x]> |>.

Definition page_struct (page : Z) (s : cache_state) : result vm_page :=
  match pages (frames (vm s)) !! Z.to_nat page with Some p => Done p | None => Fault OutOfBounds end.

Definition set_page_struct (page : Z) (f : vm_page -> vm_page) (s : cache_state) : cache_state :=
  s <| vm ::= fun v => v <| frames ::= fun fr => fr <| pages ::= alter f (Z.to_nat page) |> |> |>.

(** A cache of page frames: [dec_page_ref], on the state that holds the caches. *)
Definition put_page (page : Z) (s : cache_state) : result cache_state :=
  f <-- dec_page_ref page (frames (vm s));;
  Done (s <| vm ::= fun v => v <| frames := f |> |>).

Definition inc_cache_ref (c : Z) (s : cache_state) : result cache_state :=
  x <-- get_cache c s;;
  Done (set_cache c (x <| cache_ref_count ::= fun n => s32 (n + 1) |>) s).

(** [object] is what [slab_alloc] gave; the field [file] keeps what the memory held. *)
Definition create_vm_cache (object old_file source_cache : Z) (s : cache_state) : result cache_state :=
  let s := set_cache object
    {| page_list := []; file := old_file; cache_ref_count := 1; source := source_cache |} s in
  if source_cache =? 0 then Done s else inc_cache_ref source_cache s.

Definition gen_hash (c offset : Z) : Z := u32 (c + offset / PAGE_SIZE).

Definition lock_vm_cache (s : cache_state) : result cache_state :=
  if cache_lock s then Fault OutOfFuel else Done (s <| cache_lock := true |>).

Definition unlock_vm_cache (s : cache_state) : result cache_state :=
  _ <-- kassert (cache_lock s);; Done (s <| cache_lock := false |>).

Definition bucket_of (c offset : Z) : nat := Z.to_nat (gen_hash c offset mod NUM_HASH_BUCKETS).

Definition insert_cache_page (c offset page : Z) (s : cache_state) : result cache_state :=
  _ <-- kassert (cache_lock s);;
  let offset := PAGE_ALIGN offset in
  p <-- page_struct page s;;
  _ <-- kassert (cache p =? 0);;
  x <-- get_cache c s;;
  Done (set_page_struct page (fun p => p <| cache := c |> <| cache_offset := offset |>) s
    <| hash_table ::= alter (fun l => l ++ [page]) (bucket_of c offset) |>
    <| caches ::= <[c := x <| page_list ::= fun l => l ++ [page] |>]> |>).

(** [multilist_for_each (&hash_table[bucket], ...)] *)
Fixpoint find_page (l : list Z) (c offset : Z) (s : cache_state) : result (option Z) :=
  match l with
  | [] => Done None
  | page :: l' =>
      p <-- page_struct page s;;
      if (cache_offset p =? offset) && (cache p =? c) then Done (Some page) else find_page l' c offset s
  end.

Definition lookup_cache_page (c offset : Z) (s : cache_state) : result (option Z) :=
  _ <-- kassert (cache_lock s);;
  let offset := PAGE_ALIGN offset in
  match hash_table s !! bucket_of c offset with
  | Some l => find_page l c offset s
  | None => Fault OutOfBounds
  end.

Definition without (page : Z) (l : list Z) : list Z := List.filter (fun p => negb (p =? page)) l.

(** Removing a node that is on no list stores through links that lead nowhere. *)
Definition remove_cache_page (page : Z) (s : cache_state) : result cache_state :=
  _ <-- kassert (cache_lock s);;
  if decide (map_Exists (fun _ x => page ∈ page_list x) (caches s))
  then if decide (Exists (fun l => page ∈ l) (hash_table s))
  then Done (s <| caches ::= fmap (fun x => x <| page_list ::= without page |>) |>
               <| hash_table ::= map (without page) |>)
  else Fault OutOfBounds else Fault OutOfBounds.

(** [while (!list_is_empty(&cache->page_list))] *)
Fixpoint free_cache_pages (fuel : nat) (c : Z) (s : cache_state) : result cache_state :=
  x <-- get_cache c s;;
  match page_list x with
  | [] => Done s
  | page :: _ =>
      match fuel with
      | O => Fault OutOfFuel
      | S fuel' =>
          s <-- remove_cache_page page s;;
          s <-- put_page page s;;
          free_cache_pages fuel' c s
      end
  end.

(** The recursion goes down the chain of sources. *)
Fixpoint dec_cache_ref_in (fuel : nat) (c : Z) (s : cache_state) : result cache_state :=
  match fuel with
  | O => Fault OutOfFuel
  | S fuel' =>
      _ <-- kassert (negb (cache_lock s));;
      x <-- get_cache c s;;
      _ <-- kassert (0 <? cache_ref_count x);;
      let s := set_cache c (x <| cache_ref_count ::= fun n => n - 1 |>) s in
      if cache_ref_count x =? 1 then
        s <-- (if source x =? 0 then Done s else dec_cache_ref_in fuel' (source x) s);;
        s <-- lock_vm_cache s;;
        x <-- get_cache c s;;
        s <-- free_cache_pages (length (page_list x)) c s;;
        unlock_vm_cache s
      else Done s
  end.

(** No chain is longer than the number of caches ever made. *)
Definition dec_cache_ref (c : Z) (s : cache_state) : result cache_state :=
  dec_cache_ref_in (S (size (caches s))) c s.

(** ** The index: a finite map *)

(** What the lists and the hash table say is the map from caches and offsets to pages. *)
Record index_ok (M : gmap (Z * Z) Z) (s : cache_state) : Prop := {
  index_length : length (hash_table s) = Z.to_nat NUM_HASH_BUCKETS;
  index_page : forall c offset page, M !! (c, offset) = Some page ->
    0 <= page /\ exists p, page_struct page s = Done p /\ cache p = c /\ cache_offset p = offset;
  index_key : forall c offset page, M !! (c, offset) = Some page ->
    c <> 0 /\ is_Some (caches s !! c) /\ is_u32 offset /\ page_aligned offset;
  index_list : forall c x, caches s !! c = Some x ->
    NoDup (page_list x) /\ forall page, page ∈ page_list x <-> exists offset, M !! (c, offset) = Some page;
  index_bucket : forall b l, hash_table s !! b = Some l ->
    NoDup l /\ forall page, page ∈ l <-> exists c offset, M !! (c, offset) = Some page /\ bucket_of c offset = b
}.

(** A page is in one place. *)
Lemma index_key_inj M s c offset c' offset' page :
  index_ok M s -> M !! (c, offset) = Some page -> M !! (c', offset') = Some page ->
  c = c' /\ offset = offset'.
Proof.
  intros Hi H1 H2. destruct (index_page _ _ Hi _ _ _ H1) as (_ & p & Hp & <- & <-).
  destruct (index_page _ _ Hi _ _ _ H2) as (_ & p' & Hp' & <- & <-).
  rewrite Hp in Hp'. by injection Hp' as ->.
Qed.

Lemma bucket_in_table M s c offset : index_ok M s -> exists l, hash_table s !! bucket_of c offset = Some l.
Proof.
  intros Hi. apply lookup_lt_is_Some_2. rewrite (index_length _ _ Hi). unfold bucket_of, NUM_HASH_BUCKETS.
  pose proof (Z.mod_pos_bound (gen_hash c offset) 37). lia.
Qed.

Lemma find_page_spec M s l c offset :
  index_ok M s -> (forall page, page ∈ l -> exists k, M !! k = Some page) ->
  exists r, find_page l c offset s = Done r /\
  match r with
  | Some page => page ∈ l /\ M !! (c, offset) = Some page
  | None => forall page, page ∈ l -> M !! (c, offset) <> Some page
  end.
Proof.
  intros Hi. induction l as [|page l IH]; intros Hl; cbn [find_page].
  - exists None. split; [done|]. intros page Hp. by apply elem_of_nil in Hp.
  - destruct (Hl page ltac:(by left)) as [[c' offset'] Hk].
    destruct (index_page _ _ Hi _ _ _ Hk) as (_ & p & -> & Hc & Ho). cbn [bind_result]. rewrite Hc, Ho.
    destruct ((offset' =? offset) && (c' =? c)) eqn:E.
    + apply andb_true_iff in E as [->%Z.eqb_eq ->%Z.eqb_eq]. exists (Some page). split; [done|]. split; [by left|done].
    + destruct IH as (r & -> & Hr); [intros q Hq; apply Hl; by right|]. exists r. split; [done|].
      destruct r as [q|]; [destruct Hr; split; [by right|done]|].
      intros q Hq Heq. apply elem_of_cons in Hq as [->|Hq]; [|by apply (Hr q)].
      destruct (index_key_inj M s c offset c' offset' page Hi Heq Hk) as [-> ->].
      by rewrite !Z.eqb_refl in E.
Qed.

Lemma lookup_ok M s c offset :
  index_ok M s -> cache_lock s = true -> lookup_cache_page c offset s = Done (M !! (c, PAGE_ALIGN offset)).
Proof.
  intros Hi Hlock. unfold lookup_cache_page. rewrite Hlock. cbn [kassert bind_result]. cbv zeta.
  set (off := PAGE_ALIGN offset). destruct (bucket_in_table M s c off Hi) as [l Hl]. rewrite Hl.
  destruct (index_bucket _ _ Hi _ _ Hl) as [_ Hin].
  destruct (find_page_spec M s l c off Hi) as (r & -> & Hr).
  { intros page Hp. apply Hin in Hp as (c' & o' & Hk & _). by exists (c', o'). }
  f_equal. destruct r as [page|]; [by destruct Hr as [_ ->]|].
  destruct (M !! (c, off)) as [page|] eqn:E; [|done]. exfalso. apply (Hr page); [|done].
  apply Hin. by exists c, off.
Qed.

Lemma page_struct_set page page' f s p :
  0 <= page -> 0 <= page' -> page_struct page s = Done p ->
  page_struct page' (set_page_struct page f s) = if decide (page' = page) then Done (f p) else page_struct page' s.
Proof.
  intros H0 H0' Hp. unfold page_struct, set_page_struct in *. simpl. destruct (decide (page' = page)) as [->|Hne].
  - rewrite list_lookup_alter_eq. destruct (pages _ !! _); [|done]. by injection Hp as ->.
  - by rewrite list_lookup_alter_ne by lia.
Qed.

(** The state [insert_cache_page] leaves. *)
Definition inserted (c offset page : Z) (x : vm_cache) (s : cache_state) : cache_state :=
  set_page_struct page (fun p => p <| cache := c |> <| cache_offset := offset |>) s
    <| hash_table ::= alter (fun l => l ++ [page]) (bucket_of c offset) |>
    <| caches ::= <[c := x <| page_list ::= fun l => l ++ [page] |>]> |>.

Lemma inserted_index M s c offset page x p :
  index_ok M s -> caches s !! c = Some x -> c <> 0 -> is_u32 offset -> page_aligned offset ->
  0 <= page -> page_struct page s = Done p -> cache p = 0 -> M !! (c, offset) = None ->
  index_ok (<[(c, offset) := page]> M) (inserted c offset page x s).
Proof.
  intros Hi Hx Hc Hu Ha H0 Hp Hfree Hnone.
  assert (Hnew : forall c' o', M !! (c', o') <> Some page).
  { intros c' o' Hk. destruct (index_page _ _ Hi _ _ _ Hk) as (_ & p' & Hp' & Hc' & _).
    destruct (index_key _ _ Hi _ _ _ Hk) as (Hne & _). rewrite Hp in Hp'. injection Hp' as <-. congruence. }
  assert (Hstruct : forall page', 0 <= page' -> page_struct page' (inserted c offset page x s)
    = if decide (page' = page) then Done (p <| cache := c |> <| cache_offset := offset |>) else page_struct page' s).
  { intros page' H0'. exact (page_struct_set page page' _ s p H0 H0' Hp). }
  assert (Hcases : forall c' o' page', <[(c, offset) := page]> M !! (c', o') = Some page' <->
    (c' = c /\ o' = offset /\ page' = page) \/ M !! (c', o') = Some page').
  { intros c' o' page'. destruct (decide ((c', o') = (c, offset))) as [[= -> ->]|Hne].
    - rewrite lookup_insert_eq, Hnone. split; [intros [= <-]; by left|by intros [(_ & _ & ->)|?]].
    - rewrite lookup_insert_ne by congruence. split; [by right|by intros [(-> & -> & _)|?]]. }
  constructor.
  - simpl. rewrite length_alter. apply Hi.
  - intros c' o' page' Hk. apply Hcases in Hk as [(-> & -> & ->)|Hk].
    + split; [done|]. eexists. rewrite Hstruct, decide_True by done. by split.
    + destruct (index_page _ _ Hi _ _ _ Hk) as (H0' & p' & Hp' & ?). split; [done|]. exists p'.
      rewrite Hstruct, decide_False; [done|congruence|done].
  - intros c' o' page' Hk. simpl. apply Hcases in Hk as [(-> & -> & ->)|Hk].
    + split_and!; try done. rewrite lookup_insert_eq. by eexists.
    + destruct (index_key _ _ Hi _ _ _ Hk) as (? & ? & ? & ?). split_and!; try done.
      destruct (decide (c' = c)) as [->|]; [rewrite lookup_insert_eq; by eexists|by rewrite lookup_insert_ne].
  - intros c' x' Hx'. simpl in Hx'. destruct (decide (c' = c)) as [->|Hne].
    + rewrite lookup_insert_eq in Hx'. injection Hx' as <-. simpl.
      destruct (index_list _ _ Hi _ _ Hx) as [Hnd Hin]. split.
      * apply NoDup_app. split; [done|]. split; [|apply NoDup_singleton].
        intros q Hq Hq'. apply list_elem_of_singleton in Hq' as ->. apply Hin in Hq as [o Hk]. by apply Hnew in Hk.
      * intros q. rewrite elem_of_app, list_elem_of_singleton, Hin. split.
        -- intros [[o Hk]| ->]; [exists o|exists offset]; apply Hcases; [by right|by left].
        -- intros [o Hk]. apply Hcases in Hk as [(_ & _ & ->)|Hk]; [by right|left; by exists o].
    + rewrite lookup_insert_ne in Hx' by done. destruct (index_list _ _ Hi _ _ Hx') as [Hnd Hin].
      split; [done|]. intros q. rewrite Hin. split; intros [o Hk]; exists o; [apply Hcases; by right|].
      apply Hcases in Hk as [(-> & _)|Hk]; done.
  - intros b l Hl. simpl in Hl. destruct (decide (b = bucket_of c offset)) as [->|Hne].
    + rewrite list_lookup_alter_eq in Hl. destruct (hash_table s !! bucket_of c offset) as [l0|] eqn:Hl0; [|done].
      injection Hl as <-. destruct (index_bucket _ _ Hi _ _ Hl0) as [Hnd Hin]. split.
      * apply NoDup_app. split; [done|]. split; [|apply NoDup_singleton].
        intros q Hq Hq'. apply list_elem_of_singleton in Hq' as ->. apply Hin in Hq as (c' & o & Hk & _). by apply Hnew in Hk.
      * intros q. rewrite elem_of_app, list_elem_of_singleton, Hin. split.
        -- intros [(c' & o & Hk & Hb)| ->]; [exists c', o|exists c, offset]; (split; [|done]); apply Hcases; [by right|by left].
        -- intros (c' & o & Hk & Hb). apply Hcases in Hk as [(_ & _ & ->)|Hk]; [by right|left; by exists c', o].
    + rewrite list_lookup_alter_ne in Hl by done. destruct (index_bucket _ _ Hi _ _ Hl) as [Hnd Hin].
      split; [done|]. intros q. rewrite Hin. split; intros (c' & o & Hk & Hb); exists c', o.
      * split; [apply Hcases; by right|done].
      * apply Hcases in Hk as [(-> & -> & ->)|Hk]; [congruence|done].
Qed.

Lemma insert_ok M s c offset page x p :
  index_ok M s -> cache_lock s = true -> caches s !! c = Some x -> c <> 0 -> is_u32 offset ->
  0 <= page -> page_struct page s = Done p -> cache p = 0 -> M !! (c, PAGE_ALIGN offset) = None ->
  insert_cache_page c offset page s = Done (inserted c (PAGE_ALIGN offset) page x s)
  /\ index_ok (<[(c, PAGE_ALIGN offset) := page]> M) (inserted c (PAGE_ALIGN offset) page x s).
Proof.
  intros Hi Hlock Hx Hc Hu H0 Hp Hfree Hnone. split.
  - unfold insert_cache_page, get_cache. rewrite Hlock. cbn [kassert bind_result]. cbv zeta.
    rewrite Hp. cbn [bind_result]. rewrite Hfree. cbn [Z.eqb kassert bind_result]. by rewrite Hx.
  - apply (inserted_index M s c _ page x p); try done.
    + by apply is_u32_land.
    + by apply PAGE_ALIGN_spec.
Qed.

Lemma elem_of_without page q l : q ∈ without page l <-> q ∈ l /\ q <> page.
Proof.
  unfold without. rewrite !list_elem_of_In, filter_In, negb_true_iff, Z.eqb_neq. done.
Qed.

Lemma NoDup_without page l : NoDup l -> NoDup (without page l).
Proof. rewrite !NoDup_ListNoDup. apply List.NoDup_filter. Qed.

Definition removed (page : Z) (s : cache_state) : cache_state :=
  s <| caches ::= fmap (fun x => x <| page_list ::= without page |>) |>
    <| hash_table ::= map (without page) |>.

Lemma remove_ok M s c offset page :
  index_ok M s -> cache_lock s = true -> M !! (c, offset) = Some page ->
  remove_cache_page page s = Done (removed page s) /\ index_ok (delete (c, offset) M) (removed page s).
Proof.
  intros Hi Hlock Hk. destruct (index_key _ _ Hi _ _ _ Hk) as (Hc & [x Hx] & Hu & Ha).
  assert (Hcases : forall c' o' q, delete (c, offset) M !! (c', o') = Some q <-> M !! (c', o') = Some q /\ q <> page).
  { intros c' o' q. destruct (decide ((c', o') = (c, offset))) as [[= -> ->]|Hne].
    - rewrite lookup_delete_eq, Hk. split; [done|]. intros [[= <-] ?]. congruence.
    - rewrite lookup_delete_ne by congruence. split; [|by intros [? _]]. intros Hq. split; [done|].
      intros ->. destruct (index_key_inj M s c offset c' o' page Hi Hk Hq) as [-> ->]. congruence. }
  split.
  - unfold remove_cache_page. rewrite Hlock. cbn [kassert bind_result].
    rewrite decide_True, decide_True; [done| |].
    + destruct (bucket_in_table M s c offset Hi) as [l Hl]. apply Exists_exists. exists l.
      split; [by eapply list_elem_of_lookup_2|]. apply (index_bucket _ _ Hi _ _ Hl). by exists c, offset.
    + exists c, x. split; [done|]. apply (index_list _ _ Hi _ _ Hx). by exists offset.
  - constructor.
    + simpl. rewrite length_map. apply Hi.
    + intros c' o' q Hq. apply Hcases in Hq as [Hq _]. by apply (index_page _ _ Hi).
    + intros c' o' q Hq. apply Hcases in Hq as [Hq _].
      destruct (index_key _ _ Hi _ _ _ Hq) as (? & [x' Hx'] & ? & ?). split_and!; try done.
      simpl. rewrite lookup_fmap, Hx'. by eexists.
    + intros c' x' Hx'. simpl in Hx'. rewrite lookup_fmap in Hx'.
      destruct (caches s !! c') as [x0|] eqn:Hx0; [|done]. injection Hx' as <-. simpl.
      destruct (index_list _ _ Hi _ _ Hx0) as [Hnd Hin]. split; [by apply NoDup_without|].
      intros q. rewrite elem_of_without, Hin. split.
      * intros [[o Ho] Hne]. exists o. by apply Hcases.
      * intros [o Ho]. apply Hcases in Ho as [Ho Hne]. split; [by exists o|done].
    + intros b l Hl. simpl in Hl. rewrite list_lookup_fmap in Hl.
      destruct (hash_table s !! b) as [l0|] eqn:Hl0; [|done]. injection Hl as <-.
      destruct (index_bucket _ _ Hi _ _ Hl0) as [Hnd Hin]. split; [by apply NoDup_without|].
      intros q. rewrite elem_of_without, Hin. split.
      * intros [(c' & o & Ho & Hb) Hne]. exists c', o. split; [by apply Hcases|done].
      * intros (c' & o & Ho & Hb). apply Hcases in Ho as [Ho Hne]. split; [by exists c', o|done].
Qed.

(** The index looks at the page structures, the caches' lists and the hash table only. *)
Lemma index_frame M s s' :
  index_ok M s -> hash_table s' = hash_table s ->
  (forall page p, M !! (cache p, cache_offset p) = Some page -> page_struct page s = Done p ->
     exists p', page_struct page s' = Done p' /\ cache p' = cache p /\ cache_offset p' = cache_offset p) ->
  (forall c, page_list <$> caches s' !! c = page_list <$> caches s !! c) -> index_ok M s'.
Proof.
  intros Hi Ht Hp Hc. constructor.
  - rewrite Ht. apply Hi.
  - intros c o q Hq. destruct (index_page _ _ Hi _ _ _ Hq) as (H0 & p & Hs & <- & <-).
    split; [done|]. by apply Hp.
  - intros c o q Hq. destruct (index_key _ _ Hi _ _ _ Hq) as (? & [x Hx] & ? & ?). split_and!; try done.
    specialize (Hc c). rewrite Hx in Hc. destruct (caches s' !! c); [by eexists|done].
  - intros c x Hx. specialize (Hc c). rewrite Hx in Hc. destruct (caches s !! c) as [x0|] eqn:Hx0; [|done].
    injection Hc as ->. by apply (index_list _ _ Hi).
  - rewrite Ht. apply Hi.
Qed.

(** [dec_page_ref] does not touch what the index looks at. *)
Lemma put_page_struct page f s :
  dec_page_ref page (frames (vm s)) = Done f ->
  forall q p, page_struct q s = Done p ->
  exists p', page_struct q (s <| vm ::= fun v => v <| frames := f |> |>) = Done p'
    /\ cache p' = cache p /\ cache_offset p' = cache_offset p /\ busy p' = busy p /\ dirty p' = dirty p.
Proof.
  unfold dec_page_ref. intros H. apply bind_Done_inv in H as (count & _ & H).
  assert (Hpages : pages f = pages (set_ref_count page (count - 1) (frames (vm s)))).
  { destruct (negb (0 <? count)); [done|]. destruct (count =? 1); by injection H as <-. }
  intros q p Hq. unfold page_struct in *. simpl. rewrite Hpages. simpl.
  destruct (pages (frames (vm s)) !! Z.to_nat q) as [p0|] eqn:Hp0; [|done]. injection Hq as ->.
  destruct (decide (Z.to_nat q = Z.to_nat page)) as [Heq|Hne].
  - rewrite Heq in Hp0 |- *. rewrite list_lookup_alter_eq, Hp0. by eexists.
  - rewrite list_lookup_alter_ne by done. rewrite Hp0. by eexists.
Qed.

(** ** Reference counts of caches *)

(** The count and the source of every cache. *)
Definition graph (s : cache_state) : gmap Z (Z * Z) :=
  (fun x => (cache_ref_count x, source x)) <$> caches s.

(** A cache that is alive refers to its source. *)
Definition edge (c : Z) (l : Z * Z) : Z := if decide (l.2 = c /\ 0 < l.1) then 1 else 0.

Definition children (c : Z) (G : gmap Z (Z * Z)) : Z :=
  Z.of_nat (size (filter (fun kl : Z * (Z * Z) => kl.2.2 = c /\ 0 < kl.2.1) G)).

(** [users] are the references from outside: areas, and code that holds one.  Sources come
    before the caches made of them, so chains end. *)
Record graph_ok (users : Z -> Z) (G : gmap Z (Z * Z)) : Prop := {
  graph_count : forall c n src, G !! c = Some (n, src) ->
    c <> 0 /\ 0 <= users c /\ n = users c + children c G;
  graph_source : forall c n src, G !! c = Some (n, src) -> src <> 0 -> is_Some (G !! src);
  graph_depth : exists depth : Z -> nat, forall c n src, G !! c = Some (n, src) ->
    (depth c < size G)%nat /\ (src <> 0 -> (depth src < depth c)%nat)
}.

Lemma children_new c k l G : G !! k = None -> children c (<[k := l]> G) = children c G + edge c l.
Proof.
  intros Hk. unfold children, edge. destruct (decide (l.2 = c /\ 0 < l.1)) as [H|H].
  - rewrite map_filter_insert_True by done. rewrite map_size_insert_None; [lia|].
    apply map_lookup_filter_None. by left.
  - rewrite map_filter_insert_False by done. rewrite delete_id by done. lia.
Qed.

Lemma children_insert c k l l' G :
  G !! k = Some l -> children c (<[k := l']> G) = children c G - edge c l + edge c l'.
Proof.
  intros Hk. rewrite <- (insert_delete_id G k l Hk) at 2. rewrite <- insert_delete_eq.
  rewrite !children_new by apply lookup_delete_eq. lia.
Qed.

Lemma children_range c G : 0 <= children c G.
Proof. unfold children. lia. Qed.

Lemma edge_range c l : 0 <= edge c l <= 1.
Proof. unfold edge. destruct (decide _); lia. Qed.

(** A reference from outside is dropped, and the cache lives on. *)
Lemma graph_drop users G c n src :
  graph_ok users G -> G !! c = Some (n, src) -> 0 < users c -> 1 < n ->
  graph_ok (<[c := users c - 1]> users) (<[c := (n - 1, src)]> G).
Proof.
  intros [Hcount Hsrc [depth Hdepth]] Hc Hu Hn.
  assert (Hsame : forall d, children d (<[c := (n - 1, src)]> G) = children d G).
  { intros d. rewrite (children_insert d c _ _ _ Hc). unfold edge. simpl.
    destruct (decide (src = d /\ 0 < n)), (decide (src = d /\ 0 < n - 1)); lia. }
  assert (Hcases : forall d m src', <[c := (n - 1, src)]> G !! d = Some (m, src') ->
    exists m', G !! d = Some (m', src') /\ m = if decide (d = c) then m' - 1 else m').
  { intros d m src'. destruct (decide (d = c)) as [->|Hne].
    - rewrite lookup_insert_eq. intros [= <- <-]. by exists n.
    - rewrite lookup_insert_ne by congruence. by exists m. }
  constructor.
  - intros d m src' Hd. destruct (Hcases d m src' Hd) as (m' & Hd' & ->).
    destruct (Hcount _ _ _ Hd') as (? & ? & ?). rewrite Hsame. split; [done|].
    destruct (decide (d = c)) as [->|]; [rewrite fn_lookup_insert; lia|by rewrite fn_lookup_insert_ne].
  - intros d m src' Hd Hne. destruct (Hcases d m src' Hd) as (m' & Hd' & _).
    destruct (decide (src' = c)) as [->|]; [rewrite lookup_insert_eq; by eexists|].
    rewrite lookup_insert_ne by done. by apply (Hsrc _ _ _ Hd').
  - exists depth. intros d m src' Hd. destruct (Hcases d m src' Hd) as (m' & Hd' & _).
    rewrite map_size_insert_Some by (by eexists). by apply (Hdepth _ _ _ Hd').
Qed.

(** The last reference is dropped: the one the cache has on its source is the caller's to drop. *)
Lemma graph_die users G c src :
  graph_ok users G -> G !! c = Some (1, src) -> 0 < users c ->
  src <> c /\ graph_ok (let u := <[c := users c - 1]> users in if decide (src = 0) then u else <[src := u src + 1]> u)
    (<[c := (0, src)]> G).
Proof.
  intros [Hcount Hsrc [depth Hdepth]] Hc Hu.
  destruct (Hcount _ _ _ Hc) as (Hc0 & _ & Hn). pose proof (children_range c G).
  assert (Hne : src <> c).
  { intros ->. destruct (Hdepth _ _ _ Hc) as [_ Hlt]. specialize (Hlt Hc0). lia. }
  split; [done|].
  assert (Hch : forall d, children d (<[c := (0, src)]> G) = children d G - (if decide (src = d) then 1 else 0)).
  { intros d. rewrite (children_insert d c _ _ _ Hc). unfold edge. simpl.
    destruct (decide (src = d /\ 0 < 1)), (decide (src = d /\ 0 < 0)), (decide (src = d)); lia. }
  assert (Hcases : forall d m src', <[c := (0, src)]> G !! d = Some (m, src') ->
    exists m', G !! d = Some (m', src') /\ m = if decide (d = c) then 0 else m').
  { intros d m src'. destruct (decide (d = c)) as [->|Hd].
    - rewrite lookup_insert_eq. intros [= <- <-]. by exists 1.
    - rewrite lookup_insert_ne by congruence. by exists m. }
  constructor.
  - intros d m src' Hd. destruct (Hcases d m src' Hd) as (m' & Hd' & ->).
    destruct (Hcount _ _ _ Hd') as (Hd0 & ? & ?). split; [done|]. rewrite Hch. cbv zeta.
    destruct (decide (src = 0)) as [->|Hs0].
    + rewrite (decide_False (P := 0 = d)) by congruence.
      destruct (decide (d = c)) as [->|]; [rewrite fn_lookup_insert; lia|].
      rewrite fn_lookup_insert_ne by congruence. lia.
    + destruct (decide (src = d)) as [->|Hsd].
      * rewrite fn_lookup_insert, fn_lookup_insert_ne by congruence. rewrite decide_False by congruence. lia.
      * rewrite (fn_lookup_insert_ne _ src) by congruence.
        destruct (decide (d = c)) as [->|]; [rewrite fn_lookup_insert; lia|].
        rewrite fn_lookup_insert_ne by congruence. lia.
  - intros d m src' Hd Hd0. destruct (Hcases d m src' Hd) as (m' & Hd' & _).
    destruct (decide (src' = c)) as [->|]; [rewrite lookup_insert_eq; by eexists|].
    rewrite lookup_insert_ne by done. by apply (Hsrc _ _ _ Hd').
  - exists depth. intros d m src' Hd. destruct (Hcases d m src' Hd) as (m' & Hd' & _).
    rewrite map_size_insert_Some by (by eexists). by apply (Hdepth _ _ _ Hd').
Qed.

(** ** The invariant *)

(** [holds] are the references to each page from outside: mappings, and code that holds one.
    A page in a cache has one more. *)
Record caches_ok (first last : Z) (own : Z -> option owner) (holds users : Z -> Z)
    (M : gmap (Z * Z) Z) (s : cache_state) : Prop := {
  caches_tables : tables_ok first last own (vm s);
  caches_index : index_ok M s;
  caches_page : forall k page, M !! k = Some page ->
    first <= page < last /\ own page = None /\ 0 <= holds page /\ refs page (frames (vm s)) = 1 + holds page;
  caches_other : forall page, first <= page < last -> own page = None -> (forall k, M !! k <> Some page) ->
    refs page (frames (vm s)) = holds page;
  caches_graph : graph_ok users (graph s)
}.

(** Everything but the pages. *)
Definition same_caches (s s' : cache_state) : Prop :=
  graph s' = graph s /\ (file <$> caches s') = (file <$> caches s) /\ cache_lock s' = cache_lock s
  /\ phys (frames (vm s')) = phys (frames (vm s)) /\ maps (vm s') = maps (vm s)
  /\ kernel_map (vm s') = kernel_map (vm s) /\ memory_size (frames (vm s')) = memory_size (frames (vm s)).

Lemma same_caches_trans s s' s'' : same_caches s s' -> same_caches s' s'' -> same_caches s s''.
Proof. unfold same_caches. intros (H1 & H2 & H3 & H4 & H5 & H6 & H7) (H1' & H2' & H3' & H4' & H5' & H6' & H7'). split_and!; congruence. Qed.

Section Operations.

Context (first last : Z) (own : Z -> option owner).

Abbreviation ok := (caches_ok first last own).

Lemma other_page holds users M s c offset page k q :
  ok holds users M s -> M !! (c, offset) = Some page -> M !! k = Some q -> q = page -> k = (c, offset).
Proof.
  intros Hs H1 H2 ->. destruct k as [c' o']. by destruct (index_key_inj M s c offset c' o' page (caches_index _ _ _ _ _ _ _ Hs) H1 H2) as [-> ->].
Qed.

(** A page taken out of its cache and released. *)
Lemma release_cache_page holds users M s c offset page :
  ok holds users M s -> cache_lock s = true -> M !! (c, offset) = Some page ->
  exists s', (s <-- remove_cache_page page s;; put_page page s) = Done s'
    /\ ok holds users (delete (c, offset) M) s' /\ same_caches s s'
    /\ hash_table s' = map (without page) (hash_table s)
    /\ caches s' = (fun x => x <| page_list ::= without page |>) <$> caches s
    /\ (forall q p, page_struct q s = Done p -> exists p', page_struct q s' = Done p'
          /\ cache p' = cache p /\ cache_offset p' = cache_offset p /\ busy p' = busy p /\ dirty p' = dirty p).
Proof.
  intros Hs Hlock Hk. pose proof Hs as [Ht Hi Hp Ho Hg].
  destruct (remove_ok M s c offset page Hi Hlock Hk) as [Hrem Hi']. rewrite Hrem. cbn [bind_result].
  destruct (Hp _ _ Hk) as (Hr & Hnone & Hh & Hrefs).
  destruct (dec_tables_ok first last own (vm s) page Ht Hnone Hr ltac:(lia)) as (f & Hdec & Ht' & Hphys & Hrefs').
  pose proof (tables_memory _ _ _ _ Ht) as [H0 _].
  unfold put_page. change (vm (removed page s)) with (vm s). rewrite Hdec. cbn [bind_result].
  set (s' := removed page s <| vm ::= _ |>). exists s'. split; [done|].
  assert (Hgraph : graph s' = graph s).
  { unfold graph. simpl. rewrite <- map_fmap_compose. apply map_fmap_ext. by intros. }
  split; [|split; [|split; [done|split; [done|exact (put_page_struct page f (removed page s) Hdec)]]]].
  - constructor; [exact Ht'| | | |by rewrite Hgraph].
    + apply (index_frame _ (removed page s) s' Hi'); [done| |done].
      intros q p _ Hq. destruct (put_page_struct page f (removed page s) Hdec q p Hq) as (p' & Hq' & ? & ? & _ & _).
      by exists p'.
    + intros k q Hq. apply lookup_delete_Some in Hq as [Hne Hq]. destruct (Hp _ _ Hq) as (? & ? & ? & ?).
      split_and!; try done; try lia. simpl. rewrite Hrefs', decide_False; [done| |lia].
      intros ->. by apply Hne, eq_sym, (other_page holds users M s c offset page k page).
    + intros q Hq Hnone' Hnot. simpl. rewrite Hrefs' by lia. destruct (decide (q = page)) as [->|Hne]; [lia|].
      apply Ho; try done. intros k Hkq. apply (Hnot k).
      rewrite lookup_delete_ne; [done|]. intros <-. congruence.
  - split_and!; try done.
    + simpl. rewrite <- map_fmap_compose. apply map_fmap_ext. by intros.
    + by apply (dec_page_ref_size page).
Qed.

(** The pages of one cache. *)
Definition not_in (c : Z) (kp : (Z * Z) * Z) : Prop := kp.1.1 <> c.

Lemma free_pages_ok holds users fuel c M s x :
  ok holds users M s -> cache_lock s = true -> caches s !! c = Some x -> (length (page_list x) <= fuel)%nat ->
  exists s', free_cache_pages fuel c s = Done s' /\ ok holds users (filter (not_in c) M) s' /\ same_caches s s'.
Proof.
  revert M s x. induction fuel as [|fuel IH]; intros M s x Hs Hlock Hx Hlen.
  all: destruct (index_list _ _ (caches_index _ _ _ _ _ _ _ Hs) _ _ Hx) as [Hnd Hin].
  all: cbn [free_cache_pages]; unfold get_cache; rewrite Hx; cbn [bind_result].
  all: destruct (page_list x) as [|page l] eqn:Hl; simpl in Hlen; try lia.
  1, 2: exists s; split; [done|]; split; [|done]; rewrite map_filter_id; [done|];
    intros [c' o'] q Hq Hc; simpl in Hc; subst c'; destruct (Hin q) as [_ Hq'];
    destruct (not_elem_of_nil q); apply Hq'; by exists o'.
  destruct (proj1 (Hin page) ltac:(by left)) as [offset Hk].
  destruct (release_cache_page holds users M s c offset page Hs Hlock Hk) as (s1 & Hrel & Hs1 & Hsame & _ & Hc1 & _).
  apply bind_Done_inv in Hrel as (s0 & Hrem & Hput). rewrite Hrem. cbn [bind_result]. rewrite Hput. cbn [bind_result].
  destruct (IH (delete (c, offset) M) s1 (x <| page_list ::= without page |>)) as (s' & Hfree & Hs' & Hsame').
  - done.
  - by destruct Hsame as (_ & _ & -> & _).
  - by rewrite Hc1, lookup_fmap, Hx.
  - simpl. rewrite Hl. simpl. rewrite Z.eqb_refl. simpl.
    transitivity (length l); [apply List.filter_length_le|lia].
  - exists s'. split; [exact Hfree|]. split; [|by eapply same_caches_trans].
    assert (Hf : filter (not_in c) (delete (c, offset) M) = filter (not_in c) M); [|by rewrite <- Hf].
    rewrite map_filter_delete. apply delete_id. apply map_lookup_filter_None. right.
    intros q _ Hq. by apply Hq.
Qed.

(** *** Dropping a reference *)

Definition count_of (c : Z) (s : cache_state) : Z :=
  match caches s !! c with Some x => cache_ref_count x | None => 0 end.

(** The caches that had references and have none any more. *)
Definition died (s s' : cache_state) (c : Z) : Prop := 0 < count_of c s /\ count_of c s' = 0.
Definition survives (s s' : cache_state) (kp : (Z * Z) * Z) : Prop := ~ died s s' kp.1.1.

(** What dropping references keeps. *)
Record dropped (s s' : cache_state) : Prop := {
  dropped_lock : cache_lock s' = cache_lock s;
  dropped_files : (file <$> caches s') = (file <$> caches s);
  dropped_sources : (snd <$> graph s') = (snd <$> graph s);
  dropped_phys : phys (frames (vm s')) = phys (frames (vm s));
  dropped_maps : maps (vm s') = maps (vm s) /\ kernel_map (vm s') = kernel_map (vm s);
  dropped_size : memory_size (frames (vm s')) = memory_size (frames (vm s));
  dropped_counts : forall d, count_of d s' <= count_of d s
}.

Lemma graph_ok_ext users users' G : (forall c, users' c = users c) -> graph_ok users G -> graph_ok users' G.
Proof. intros He [Hc Hs Hd]. constructor; [|done|done]. intros. rewrite He. by apply (Hc c n src). Qed.

Lemma caches_ok_users holds users users' M s :
  (forall c, users' c = users c) -> ok holds users M s -> ok holds users' M s.
Proof. intros He [? ? ? ? Hg]. constructor; try done. by apply (graph_ok_ext users). Qed.

Lemma graph_lookup c x s : caches s !! c = Some x -> graph s !! c = Some (cache_ref_count x, source x).
Proof. intros Hx. unfold graph. by rewrite lookup_fmap, Hx. Qed.

Lemma count_of_graph c s : count_of c s = match graph s !! c with Some l => l.1 | None => 0 end.
Proof. unfold count_of, graph. rewrite lookup_fmap. by destruct (caches s !! c). Qed.

Lemma count_of_same s s' c : graph s' = graph s -> count_of c s' = count_of c s.
Proof. intros Hg. by rewrite !count_of_graph, Hg. Qed.

Lemma same_caches_dropped s s' : same_caches s s' -> dropped s s'.
Proof.
  intros (Hg & Hf & Hl & Hp & Hm & Hk & Hz). constructor; try done; [by rewrite Hg|].
  intros d. by rewrite (count_of_same _ _ _ Hg).
Qed.

Lemma dropped_trans s s' s'' : dropped s s' -> dropped s' s'' -> dropped s s''.
Proof.
  intros [H1 H2 H3 H4 [H5 H6] H7 H8] [H1' H2' H3' H4' [H5' H6'] H7' H8'].
  constructor; try congruence; [split; congruence|]. intros d. specialize (H8 d). specialize (H8' d). lia.
Qed.

(** Only the count of one cache changes. *)
Lemma set_count_ok holds users users' M s c x n :
  ok holds users M s -> caches s !! c = Some x -> graph_ok users' (<[c := (n, source x)]> (graph s)) ->
  n <= cache_ref_count x ->
  let s' := set_cache c (x <| cache_ref_count ::= fun _ => n |>) s in
  ok holds users' M s' /\ dropped s s' /\ graph s' = <[c := (n, source x)]> (graph s).
Proof.
  intros [Ht Hi Hp Ho Hg] Hx Hg' Hn s'. subst s'. set (s' := set_cache _ _ _).
  assert (Hgraph : graph s' = <[c := (n, source x)]> (graph s)) by (unfold graph; simpl; by rewrite fmap_insert).
  assert (Hsame : forall d, page_list <$> caches s' !! d = page_list <$> caches s !! d).
  { intros d. simpl. destruct (decide (d = c)) as [->|]; [by rewrite lookup_insert_eq, Hx|].
    by rewrite lookup_insert_ne by congruence. }
  split; [|split; [|exact Hgraph]].
  - constructor; [exact Ht| |exact Hp|exact Ho|by rewrite Hgraph].
    apply (index_frame M s s' Hi); [done| |done]. intros page p _ Hpage. by exists p.
  - constructor; try done.
    + simpl. rewrite fmap_insert. simpl. apply insert_id. by rewrite lookup_fmap, Hx.
    + rewrite Hgraph, fmap_insert. simpl. apply insert_id. by rewrite lookup_fmap, (graph_lookup _ _ _ Hx).
    + intros d. rewrite !count_of_graph, Hgraph. destruct (decide (d = c)) as [->|].
      * rewrite lookup_insert_eq, (graph_lookup _ _ _ Hx). simpl. lia.
      * by rewrite lookup_insert_ne by congruence.
Qed.

Lemma dec_in_ok holds depth fuel users c M s :
  ok holds users M s -> cache_lock s = false -> 0 < users c -> is_Some (caches s !! c) ->
  (forall d n src, graph s !! d = Some (n, src) -> src <> 0 -> (depth src < depth d)%nat) ->
  (depth c < fuel)%nat ->
  exists s', dec_cache_ref_in fuel c s = Done s' /\ dropped s s'
    /\ ok holds (<[c := users c - 1]> users) (filter (survives s s') M) s'.
Proof.
  revert users c M s. induction fuel as [|fuel IH]; intros users c M s Hs Hlock Hu [x Hx] Hdepth Hfuel; [lia|].
  cbn [dec_cache_ref_in]. unfold get_cache. rewrite Hlock. cbn [negb kassert bind_result].
  rewrite Hx. cbn [bind_result]. pose proof (graph_lookup c x s Hx) as Hgx.
  pose proof (caches_graph _ _ _ _ _ _ _ Hs) as Hg.
  destruct (graph_count _ _ Hg _ _ _ Hgx) as (Hc0 & _ & Hn). pose proof (children_range c (graph s)).
  rewrite (proj2 (Z.ltb_lt _ _)) by lia. cbn [kassert bind_result].
  destruct (Z.eqb_spec (cache_ref_count x) 1) as [H1|H1].
  2:{ destruct (set_count_ok holds users (<[c := users c - 1]> users) M s c x (cache_ref_count x - 1) Hs Hx)
        as (Hs' & Hd & Hg'); [apply (graph_drop _ _ _ (cache_ref_count x)); try done; lia|lia|].
      set (s' := set_cache _ _ _) in *. exists s'. split; [done|]. split; [done|].
      rewrite map_filter_id; [done|]. intros [c' o'] q _ [Hlive Hdead]. simpl in *.
      rewrite !count_of_graph, Hg' in *. destruct (decide (c' = c)) as [->|Hne].
      - rewrite lookup_insert_eq in Hdead. simpl in Hdead. lia.
      - rewrite lookup_insert_ne in Hdead by congruence. lia. }
  rewrite H1 in *. destruct (graph_die users (graph s) c (source x) Hg Hgx Hu) as [Hne Hdie].
  set (u := <[c := users c - 1]> users) in *. cbv zeta in Hdie.
  destruct (set_count_ok holds users _ M s c x 0 Hs Hx Hdie ltac:(lia)) as (Hs1 & Hd1 & Hg1).
  change (x <| cache_ref_count ::= fun n => n - 1 |>) with (x <| cache_ref_count := cache_ref_count x - 1 |>).
  rewrite H1. change (1 - 1) with 0. set (s1 := set_cache _ _ _) in *.
  assert (Hrec : exists s2, (if source x =? 0 then Done s1 else dec_cache_ref_in fuel (source x) s1) = Done s2
      /\ dropped s1 s2 /\ ok holds u (filter (survives s1 s2) M) s2).
  { destruct (Z.eqb_spec (source x) 0) as [H0|H0].
    - exists s1. split; [done|]. rewrite decide_True in Hs1 by done. split; [by apply same_caches_dropped|].
      rewrite map_filter_id; [done|]. intros k q _ [? ?]. lia.
    - rewrite decide_False in Hs1 by done.
      destruct (IH _ (source x) M s1 Hs1) as (s2 & Hdec & Hd2 & Hs2).
      + by rewrite (dropped_lock _ _ Hd1).
      + rewrite fn_lookup_insert. unfold u. rewrite fn_lookup_insert_ne by congruence.
        destruct (graph_source _ _ Hg _ _ _ Hgx H0) as [[m src'] Hsrc].
        destruct (graph_count _ _ Hg _ _ _ Hsrc). lia.
      + simpl. rewrite lookup_insert_ne by congruence.
        destruct (graph_source _ _ Hg _ _ _ Hgx H0) as [l Hl]. unfold graph in Hl. rewrite lookup_fmap in Hl.
        destruct (caches s !! source x); [by eexists|done].
      + intros d m src'. rewrite Hg1. destruct (decide (d = c)) as [->|Hdc].
        * rewrite lookup_insert_eq. intros [= <- <-]. by apply (Hdepth _ _ _ Hgx).
        * rewrite lookup_insert_ne by congruence. apply Hdepth.
      + pose proof (Hdepth _ _ _ Hgx H0). lia.
      + exists s2. split; [done|]. split; [done|]. eapply caches_ok_users; [|exact Hs2].
        intros d. rewrite fn_lookup_insert. destruct (decide (d = source x)) as [->|].
        * rewrite fn_lookup_insert. lia.
        * by rewrite !(fn_lookup_insert_ne _ (source x)) by congruence. }
  destruct Hrec as (s2 & -> & Hd2 & Hs2). cbn [bind_result].
  pose proof (dropped_trans _ _ _ Hd1 Hd2) as Hd.
  unfold lock_vm_cache. rewrite (dropped_lock _ _ Hd), Hlock. cbn [bind_result].
  assert (Hx2 : is_Some (caches (s2 <| cache_lock := true |>) !! c)).
  { simpl. pose proof (dropped_files _ _ Hd) as Hf. apply (f_equal (fun m : gmap Z Z => m !! c)) in Hf.
    rewrite !lookup_fmap, Hx in Hf. destruct (caches s2 !! c); [by eexists|done]. }
  destruct Hx2 as [x2 Hx2]. rewrite Hx2. cbn [bind_result].
  assert (Hs2' : ok holds u (filter (survives s1 s2) M) (s2 <| cache_lock := true |>)).
  { destruct Hs2 as [? Hi2 ? ? ?]. constructor; try done.
    apply (index_frame _ s2); [done|done| |done]. intros page p _ Hp. by exists p. }
  destruct (free_pages_ok holds u _ c _ _ x2 Hs2' eq_refl Hx2 (Nat.le_refl _)) as (s3 & Hfree & Hs3 & Hsame3).
  rewrite Hfree. cbn [bind_result]. pose proof Hsame3 as (Hg3 & _ & Hl3 & _).
  unfold unlock_vm_cache. rewrite Hl3. cbn [kassert bind_result].
  change (cache_lock (s2 <| cache_lock := true |>)) with true. cbn [bind_result].
  exists (s3 <| cache_lock := false |>). split; [done|].
  assert (Hcounts : forall d, count_of d (s3 <| cache_lock := false |>) = count_of d s2).
  { intros d. change (count_of d s3 = count_of d (s2 <| cache_lock := true |>)). by apply count_of_same. }
  split.
  - apply (dropped_trans _ s2); [done|]. destruct (same_caches_dropped _ _ Hsame3) as [A B C D E F G].
    constructor; try done. simpl. by rewrite (dropped_lock _ _ Hd), Hlock.
  - assert (HM : filter (survives s (s3 <| cache_lock := false |>)) M = filter (not_in c) (filter (survives s1 s2) M)).
    { rewrite map_filter_filter. apply map_filter_ext. intros [c' o'] q _. unfold survives, died, not_in. simpl.
      rewrite Hcounts. destruct (decide (c' = c)) as [->|Hc'].
      - pose proof (dropped_counts _ _ Hd2 c) as Hle. rewrite !(count_of_graph c), Hg1, lookup_insert_eq in *.
        simpl in Hle. rewrite Hgx. simpl. assert (match graph s2 !! c with Some l => l.1 | None => 0 end = 0) as Hz;
          [|split; [intros Hdead; exfalso; apply Hdead; split; [lia|exact Hz]|by intros [? _]]].
        destruct (graph s2 !! c) as [[m src']|] eqn:E; [|done].
        destruct (graph_count _ _ (caches_graph _ _ _ _ _ _ _ Hs2) _ _ _ E) as (_ & ? & ->).
        pose proof (children_range c (graph s2)). simpl in *. lia.
      - rewrite !(count_of_graph c' s), !(count_of_graph c' s1), Hg1, lookup_insert_ne by congruence. tauto. }
    rewrite HM. destruct Hs3 as [? Hi3 ? ? ?]. constructor; try done.
    apply (index_frame _ s3); [done|done| |done]. intros page p _ Hp. by exists p.
Qed.

Lemma dec_cache_ref_ok holds users c M s :
  ok holds users M s -> cache_lock s = false -> 0 < users c -> is_Some (caches s !! c) ->
  exists s', dec_cache_ref c s = Done s' /\ dropped s s'
    /\ ok holds (<[c := users c - 1]> users) (filter (survives s s') M) s'.
Proof.
  intros Hs Hlock Hu [x Hx]. destruct (graph_depth _ _ (caches_graph _ _ _ _ _ _ _ Hs)) as [depth Hdepth].
  pose proof (graph_lookup c x s Hx) as Hgx. destruct (Hdepth _ _ _ Hgx) as [Hlt _].
  unfold graph in Hlt. rewrite map_size_fmap in Hlt.
  apply (dec_in_ok holds depth); try done; [|lia].
  intros d n src Hd. by apply (Hdepth d n src).
Qed.

(** *** Making caches and references *)

(** The count of a live cache goes up, with the references to it from outside. *)
Lemma graph_inc users G c n src :
  graph_ok users G -> G !! c = Some (n, src) -> 0 < n ->
  graph_ok (<[c := users c + 1]> users) (<[c := (n + 1, src)]> G).
Proof.
  intros [Hcount Hsrc [depth Hdepth]] Hc Hn.
  assert (Hsame : forall d, children d (<[c := (n + 1, src)]> G) = children d G).
  { intros d. rewrite (children_insert d c _ _ _ Hc). unfold edge. simpl.
    destruct (decide (src = d /\ 0 < n)), (decide (src = d /\ 0 < n + 1)); lia. }
  assert (Hcases : forall d m src', <[c := (n + 1, src)]> G !! d = Some (m, src') ->
    exists m', G !! d = Some (m', src') /\ m = if decide (d = c) then m' + 1 else m').
  { intros d m src'. destruct (decide (d = c)) as [->|Hd].
    - rewrite lookup_insert_eq. intros [= <- <-]. by exists n.
    - rewrite lookup_insert_ne by congruence. by exists m. }
  constructor.
  - intros d m src' Hd. destruct (Hcases d m src' Hd) as (m' & Hd' & ->).
    destruct (Hcount _ _ _ Hd') as (? & ? & ?). split; [done|]. rewrite Hsame.
    destruct (decide (d = c)) as [->|]; [rewrite fn_lookup_insert; lia|].
    rewrite fn_lookup_insert_ne by congruence. lia.
  - intros d m src' Hd Hd0. destruct (Hcases d m src' Hd) as (m' & Hd' & _).
    destruct (decide (src' = c)) as [->|]; [rewrite lookup_insert_eq; by eexists|].
    rewrite lookup_insert_ne by done. by apply (Hsrc _ _ _ Hd').
  - exists depth. intros d m src' Hd. destruct (Hcases d m src' Hd) as (m' & Hd' & _).
    rewrite map_size_insert_Some by (by eexists). by apply (Hdepth _ _ _ Hd').
Qed.

(** A new cache takes over a reference to its source. *)
Lemma graph_new users G object src :
  graph_ok users G -> G !! object = None -> object <> 0 ->
  (src <> 0 -> is_Some (G !! src) /\ 0 < users src) ->
  graph_ok (<[object := 1]> (if decide (src = 0) then users else <[src := users src - 1]> users))
    (<[object := (1, src)]> G).
Proof.
  intros [Hcount Hsrc [depth Hdepth]] Hnew H0 Hs.
  assert (Hnone : children object G = 0).
  { unfold children. assert (Hempty : filter (fun kl : Z * (Z * Z) => kl.2.2 = object /\ 0 < kl.2.1) G = ∅).
    { apply map_empty_filter. intros c [n s0] Hc [Heq _]. simpl in Heq. subst s0.
      destruct (Hsrc _ _ _ Hc H0) as [l Hl]. congruence. }
    by rewrite Hempty, map_size_empty. }
  assert (Hsrc0 : src <> object).
  { intros ->. destruct (Hs H0) as [[l Hl] _]. congruence. }
  constructor.
  - intros d m src' Hd. rewrite children_new by done. unfold edge. simpl.
    destruct (decide (d = object)) as [->|Hne].
    + rewrite lookup_insert_eq in Hd. injection Hd as <- <-. rewrite fn_lookup_insert, Hnone.
      rewrite decide_False by (intros [? _]; congruence). split; [done|lia].
    + rewrite lookup_insert_ne in Hd by congruence. rewrite fn_lookup_insert_ne by congruence.
      destruct (Hcount _ _ _ Hd) as (Hd0 & Hu & Hm). split; [done|].
      destruct (decide (src = 0)) as [->|Hne0].
      * rewrite decide_False by (intros [? _]; congruence). lia.
      * destruct (Hs Hne0) as [_ Hpos]. destruct (decide (src = d /\ 0 < 1)) as [[-> _]|Hnd].
        -- rewrite fn_lookup_insert. lia.
        -- rewrite fn_lookup_insert_ne by (intros ->; apply Hnd; split; [done|lia]). lia.
  - intros d m src' Hd Hne. destruct (decide (src' = object)) as [->|]; [rewrite lookup_insert_eq; by eexists|].
    rewrite lookup_insert_ne by congruence. destruct (decide (d = object)) as [->|].
    + rewrite lookup_insert_eq in Hd. injection Hd as <- <-. by apply Hs.
    + rewrite lookup_insert_ne in Hd by congruence. by apply (Hsrc _ _ _ Hd).
  - exists (<[object := size G]> depth). intros d m src' Hd. rewrite map_size_insert_None by done.
    destruct (decide (d = object)) as [->|Hne].
    + rewrite lookup_insert_eq in Hd. injection Hd as <- <-. rewrite fn_lookup_insert. split; [lia|].
      intros Hne. rewrite fn_lookup_insert_ne by congruence. destruct (Hs Hne) as [[[n0 s0] Hl] _].
      by apply (Hdepth _ _ _ Hl).
    + rewrite lookup_insert_ne in Hd by congruence. rewrite (fn_lookup_insert_ne _ object) by congruence.
      destruct (Hdepth _ _ _ Hd) as [Hlt Hlt']. split; [lia|]. intros Hne'.
      rewrite fn_lookup_insert_ne; [by apply Hlt'|]. intros <-.
      destruct (Hsrc _ _ _ Hd Hne') as [l Hl]. congruence.
Qed.

(** A change of the caches that leaves the lists alone. *)
Lemma caches_ok_graph holds users users' M s s' :
  ok holds users M s -> vm s' = vm s -> hash_table s' = hash_table s ->
  (forall d, page_list <$> caches s' !! d = page_list <$> caches s !! d \/
             caches s !! d = None /\ page_list <$> caches s' !! d = Some []) ->
  graph_ok users' (graph s') -> ok holds users' M s'.
Proof.
  intros [Ht Hi Hp Ho Hg] Hvm Htab Hlists Hg'. constructor; rewrite ?Hvm; try done.
  pose proof Hi as [H1 H2 H3 H4 H5]. constructor; rewrite ?Htab; try done.
  - intros c o q Hq. destruct (H2 _ _ _ Hq) as (? & p & Hs & ?). split; [done|]. exists p.
    unfold page_struct in *. by rewrite Hvm.
  - intros c o q Hq. destruct (H3 _ _ _ Hq) as (? & [x Hx] & ? & ?). split_and!; try done.
    destruct (Hlists c) as [Hl|[Hn _]]; [|congruence]. rewrite Hx in Hl. destruct (caches s' !! c); [by eexists|done].
  - intros c x Hx. destruct (Hlists c) as [Hl|[Hn Hl]]; rewrite Hx in Hl.
    + destruct (caches s !! c) as [x0|] eqn:Hx0; [|done]. injection Hl as ->. by apply H4.
    + injection Hl as ->. split; [apply NoDup_nil_2|]. intros q. split; [by intros ?%elem_of_nil|].
      intros [o Hq]. destruct (H3 _ _ _ Hq) as (_ & [x0 Hx0] & _). congruence.
Qed.

Lemma inc_cache_ref_ok holds users c M s x :
  ok holds users M s -> caches s !! c = Some x -> 0 < cache_ref_count x < 2 ^ 31 - 1 ->
  exists s', inc_cache_ref c s = Done s'
    /\ ok holds (<[c := users c + 1]> users) M s' /\ vm s' = vm s /\ cache_lock s' = cache_lock s
    /\ caches s' = <[c := x <| cache_ref_count := cache_ref_count x + 1 |>]> (caches s).
Proof.
  intros Hs Hx Hmax. pose proof (graph_lookup c x s Hx) as Hgx.
  unfold inc_cache_ref, get_cache. rewrite Hx. cbn [bind_result].
  change (x <| cache_ref_count ::= fun n => s32 (n + 1) |>) with (x <| cache_ref_count := s32 (cache_ref_count x + 1) |>).
  rewrite s32_small by lia. set (s' := set_cache _ _ _). exists s'. split; [done|]. split; [|done].
  apply (caches_ok_graph holds users _ M s); try done.
  - intros d. left. simpl. destruct (decide (d = c)) as [->|]; [by rewrite lookup_insert_eq, Hx|].
    by rewrite lookup_insert_ne by congruence.
  - unfold graph. simpl. rewrite fmap_insert. apply (graph_inc _ _ _ (cache_ref_count x)); [|done|lia].
    apply (caches_graph _ _ _ _ _ _ _ Hs).
Qed.

Definition new_cache (old_file source_cache : Z) : vm_cache :=
  {| page_list := []; file := old_file; cache_ref_count := 1; source := source_cache |}.

Lemma create_vm_cache_ok holds users object old_file source_cache M s :
  ok holds users M s -> caches s !! object = None -> object <> 0 ->
  (source_cache <> 0 -> exists x, caches s !! source_cache = Some x /\ 0 < cache_ref_count x < 2 ^ 31 - 1) ->
  exists s', create_vm_cache object old_file source_cache s = Done s'
    /\ ok holds (<[object := 1]> users) M s' /\ vm s' = vm s /\ cache_lock s' = cache_lock s
    /\ caches s' !! object = Some (new_cache old_file source_cache)
    /\ (forall d, d <> object -> (file <$> caches s' !! d) = (file <$> caches s !! d)
         /\ (source <$> caches s' !! d) = (source <$> caches s !! d)
         /\ count_of d s' = count_of d s + (if decide (d = source_cache) then if decide (d = 0) then 0 else 1 else 0)).
Proof.
  intros Hs Hnew H0 Hsrc. unfold create_vm_cache. cbv zeta.
  assert (Hgnew : graph s !! object = None) by (unfold graph; by rewrite lookup_fmap, Hnew).
  pose proof (caches_graph _ _ _ _ _ _ _ Hs) as Hg.
  change {| page_list := []; file := old_file; cache_ref_count := 1; source := source_cache |}
    with (new_cache old_file source_cache).
  destruct (Z.eqb_spec source_cache 0) as [->|Hne0].
  - set (s' := set_cache _ _ _). exists s'. split; [done|].
    split; [|split; [done|split; [done|split; [simpl; apply lookup_insert_eq|]]]].
    + apply (caches_ok_graph holds users _ M s); try done.
      * intros d. simpl. destruct (decide (d = object)) as [->|]; [right; by rewrite lookup_insert_eq|].
        left. by rewrite lookup_insert_ne by congruence.
      * unfold graph. simpl. rewrite fmap_insert. by apply (graph_new users _ object 0 Hg).
    + intros d Hd. unfold count_of. simpl. rewrite lookup_insert_ne by congruence.
      split; [done|]. split; [done|]. destruct (decide (d = 0)); lia.
  - destruct (Hsrc Hne0) as (x & Hx & Hmax). pose proof (graph_lookup _ _ _ Hx) as Hgx.
    assert (Hso : source_cache <> object) by congruence.
    unfold inc_cache_ref, get_cache. simpl. rewrite lookup_insert_ne by congruence. rewrite Hx. cbn [bind_result].
    change (x <| cache_ref_count ::= fun n => s32 (n + 1) |>) with (x <| cache_ref_count := s32 (cache_ref_count x + 1) |>).
    rewrite s32_small by lia. set (s' := set_cache _ _ _). exists s'. split; [done|].
    split; [|split; [done|split; [done|split; [simpl; by rewrite lookup_insert_ne, lookup_insert_eq by congruence|]]]].
    + apply (caches_ok_graph holds users _ M s); try done.
      * intros d. simpl. destruct (decide (d = source_cache)) as [->|]; [left; by rewrite lookup_insert_eq, Hx|].
        rewrite (lookup_insert_ne _ source_cache) by congruence.
        destruct (decide (d = object)) as [->|]; [right; by rewrite lookup_insert_eq|].
        left. by rewrite lookup_insert_ne by congruence.
      * pose proof (graph_inc _ _ _ _ _ Hg Hgx ltac:(lia)) as Hg1.
        assert (Hpos : 0 < (<[source_cache := users source_cache + 1]> users) source_cache).
        { rewrite fn_lookup_insert. destruct (graph_count _ _ Hg _ _ _ Hgx). lia. }
        pose proof (graph_new _ _ object source_cache Hg1) as Hg2.
        rewrite lookup_insert_ne in Hg2 by congruence. specialize (Hg2 Hgnew H0).
        rewrite lookup_insert_eq in Hg2. specialize (Hg2 ltac:(intros _; split; [by eexists|exact Hpos])).
        unfold graph. simpl. rewrite !fmap_insert. rewrite insert_insert_ne by congruence.
        eapply graph_ok_ext; [|exact Hg2]. intros d. rewrite decide_False by done.
        destruct (decide (d = object)) as [->|]; [by rewrite !fn_lookup_insert|].
        rewrite !(fn_lookup_insert_ne _ object) by congruence.
        destruct (decide (d = source_cache)) as [->|]; [rewrite !fn_lookup_insert; lia|].
        by rewrite !fn_lookup_insert_ne by congruence.
    + intros d Hd. unfold count_of. simpl. destruct (decide (d = source_cache)) as [->|Hds].
      * rewrite lookup_insert_eq, Hx. simpl. rewrite decide_False by done. split_and!; done || lia.
      * rewrite !lookup_insert_ne by congruence. split_and!; try done. lia.
Qed.

(** *** Pages *)

(** [vm_allocate_page], on the state that holds the caches. *)
Definition allocate_page (s : cache_state) : result (Z * cache_state) :=
  '(page, v) <-- get_page (vm s);; Done (page, s <| vm := v |>).

Definition fresh_page (offset count : Z) : vm_page :=
  {| cache_offset := offset; cache := 0; busy := 0; dirty := 0; ref_count := count |}.

Lemma get_page_struct page v s :
  get_page (vm s) = Done (page, v) -> forall q, 0 <= q -> 0 <= page ->
  page_struct q (s <| vm := v |>) = if decide (q = page)
    then p <-- page_struct page s;; Done (fresh_page (cache_offset p) 1)
    else page_struct q s.
Proof.
  unfold get_page, vm_allocate_page. destruct (free_page_list (frames (vm s))) as [|page' l]; [done|].
  cbn [bind_result]. intros [= -> <-] q Hq H0. unfold page_struct. simpl.
  destruct (decide (q = page)) as [->|Hne].
  - rewrite list_lookup_alter_eq. destruct (pages _ !! _) as [p|]; [|done]. by destruct p.
  - by rewrite list_lookup_alter_ne by lia.
Qed.

Lemma allocate_page_ok holds users M s page s' :
  ok holds users M s -> allocate_page s = Done (page, s') ->
  ok (<[page := 1]> holds) users M s' /\ holds page = 0
  /\ first <= page < last /\ own page = None /\ (forall k, M !! k <> Some page)
  /\ (exists offset, page_struct page s' = Done (fresh_page offset 1))
  /\ (forall q, 0 <= q -> q <> page -> page_struct q s' = page_struct q s)
  /\ (forall a, memory_of (vm s') a = if decide (in_page page a) then 0 else memory_of (vm s) a)
  /\ (exists v, s' = s <| vm := v |>) /\ maps (vm s') = maps (vm s) /\ kernel_map (vm s') = kernel_map (vm s).
Proof.
  intros Hs Halloc. unfold allocate_page in Halloc.
  apply bind_Done_inv in Halloc as ([page' v] & Hget & Heq). injection Heq as -> <-.
  pose proof Hs as [Ht Hi Hp Ho Hg].
  destruct (get_page_ok first last own (vm s) page v Ht Hget) as (Ht' & Hnone & Hr & _ & [f Hf] & Hrefs & Hmem).
  assert (H0 : refs page (frames (vm s)) = 0).
  { unfold get_page in Hget. apply bind_Done_inv in Hget as ([q g] & Halloc & Heq). injection Heq as -> _.
    by destruct (allocate_ok _ _ _ _ _ (tables_pages _ _ _ _ Ht) Halloc) as (_ & _ & ? & _). }
  pose proof (tables_memory _ _ _ _ Ht) as [Hfirst _].
  assert (Hnew : forall k, M !! k <> Some page).
  { intros k Hk. destruct (Hp _ _ Hk) as (_ & _ & ? & ?). lia. }
  pose proof (Ho page Hr Hnone Hnew) as Hh.
  pose proof (get_page_struct page v s Hget) as Hstruct.
  assert (Hexists : exists p, page_struct page s = Done p).
  { destruct (ok_range _ _ _ (tables_pages _ _ _ _ Ht)) as (_ & Hlen & _). unfold page_struct.
    destruct (lookup_lt_is_Some_2 (pages (frames (vm s))) (Z.to_nat page)) as [p ->]; [lia|by eexists]. }
  split; [|split_and!; try done; try lia].
  - constructor; [exact Ht'| | | |exact Hg].
    + apply (index_frame M s _ Hi); [done| |done]. intros q p Hk Hq. exists p. split; [|done].
      destruct (index_page _ _ Hi _ _ _ Hk) as [Hq0 _].
      rewrite Hstruct, decide_False by (done || lia || (intros ->; exact (Hnew _ Hk))). done.
    + intros k q Hk. destruct (Hp _ _ Hk) as (Hrq & ? & ? & ?). assert (q <> page) by (intros ->; by apply (Hnew k)).
      rewrite fn_lookup_insert_ne by congruence. simpl. rewrite Hrefs by lia. rewrite decide_False by lia. split_and!; try done; lia.
    + intros q Hrq Hq Hnot. simpl. rewrite Hrefs by lia. destruct (decide (q = page)) as [->|].
      * by rewrite fn_lookup_insert.
      * rewrite fn_lookup_insert_ne by congruence. by apply Ho.
  - destruct Hexists as [p Hpage]. exists (cache_offset p). rewrite Hstruct by lia. rewrite decide_True by done.
    by rewrite Hpage.
  - intros q Hq Hne. rewrite Hstruct by lia. by rewrite decide_False.
  - by eexists.
  - simpl. by rewrite Hf.
  - simpl. by rewrite Hf.
Qed.

Lemma allocate_page_fails holds users M s f :
  ok holds users M s -> allocate_page s = Fault f -> f = HostExit.
Proof.
  intros Hs Halloc. unfold allocate_page in Halloc. destruct (get_page (vm s)) as [[q v]|f'] eqn:Hget; [done|].
  injection Halloc as <-. by destruct (get_page_fails first last own _ _ (caches_tables _ _ _ _ _ _ _ Hs) Hget).
Qed.

(** Fields the index does not look at. *)
Lemma set_page_struct_ok holds users M s page f :
  ok holds users M s -> 0 <= page ->
  (forall p, cache (f p) = cache p /\ cache_offset (f p) = cache_offset p /\ ref_count (f p) = ref_count p) ->
  ok holds users M (set_page_struct page f s) /\ same_caches s (set_page_struct page f s).
Proof.
  intros [Ht Hi Hp Ho Hg] H0 Hf. set (s' := set_page_struct page f s).
  assert (Hrefs : forall q, refs q (frames (vm s')) = refs q (frames (vm s))).
  { intros q. unfold refs. simpl. destruct (decide (Z.to_nat q = Z.to_nat page)) as [->|].
    - rewrite list_lookup_alter_eq. destruct (pages _ !! _) as [p|]; [|done]. simpl. by destruct (Hf p) as (_ & _ & ->).
    - by rewrite list_lookup_alter_ne. }
  assert (Hstruct : forall q p, page_struct q s = Done p -> exists p', page_struct q s' = Done p'
    /\ cache p' = cache p /\ cache_offset p' = cache_offset p).
  { intros q p Hq. unfold page_struct in *. simpl. destruct (decide (Z.to_nat q = Z.to_nat page)) as [Heq|].
    - rewrite Heq in *. rewrite list_lookup_alter_eq. destruct (pages _ !! _) as [p0|]; [|done]. injection Hq as ->.
      eexists. split; [done|]. by destruct (Hf p) as (? & ? & _).
    - rewrite list_lookup_alter_ne by done. by exists p. }
  assert (Hok : pages_ok first last (frames (vm s'))).
  { destruct (tables_pages _ _ _ _ Ht) as [H1 H2 H3 H4 H5]. constructor; try done.
    - simpl. by rewrite length_alter.
    - intros q Hq. rewrite Hrefs. by apply H3.
    - intros q Hq. rewrite Hrefs. by apply H4.
    - intros q Hq. rewrite Hrefs. by apply H5. }
  split; [|done]. constructor; [| | | |exact Hg].
  - change (vm s') with (vm s <| frames := frames (vm s') |>). by apply tables_ok_frames.
  - apply (index_frame M s s' Hi); [done| |done]. intros q p _ Hq. by apply Hstruct.
  - intros k q Hq. rewrite Hrefs. by apply (Hp k).
  - intros q Hq. rewrite Hrefs. by apply Ho.
Qed.

(** A reference to a page is given to a cache. *)
Lemma insert_cache_page_ok holds users M s c offset page p :
  ok holds users M s -> cache_lock s = true -> is_Some (caches s !! c) -> is_u32 offset ->
  first <= page < last -> own page = None -> 1 <= holds page -> (forall k, M !! k <> Some page) ->
  page_struct page s = Done p -> cache p = 0 -> M !! (c, PAGE_ALIGN offset) = None ->
  exists s', insert_cache_page c offset page s = Done s'
    /\ ok (<[page := holds page - 1]> holds) users (<[(c, PAGE_ALIGN offset) := page]> M) s'
    /\ same_caches s s'
    /\ (forall q, 0 <= q -> page_struct q s' = if decide (q = page)
          then Done (p <| cache := c |> <| cache_offset := PAGE_ALIGN offset |>) else page_struct q s).
Proof.
  intros Hs Hlock [x Hx] Hu Hr Hnone Hh Hnew Hp Hfree Habs. pose proof Hs as [Ht Hi Hpages Ho Hg].
  pose proof (tables_memory _ _ _ _ Ht) as [Hfirst _].
  destruct (graph_count _ _ Hg _ _ _ (graph_lookup _ _ _ Hx)) as (Hc0 & _).
  destruct (insert_ok M s c offset page x p Hi Hlock Hx Hc0 Hu ltac:(lia) Hp Hfree Habs) as [Hins Hi'].
  set (off := PAGE_ALIGN offset) in *. set (s' := inserted c off page x s) in *. exists s'. split; [exact Hins|].
  assert (Hrefs : forall q, refs q (frames (vm s')) = refs q (frames (vm s))).
  { intros q. unfold refs. simpl. destruct (decide (Z.to_nat q = Z.to_nat page)) as [->|].
    - rewrite list_lookup_alter_eq. by destruct (pages _ !! _).
    - by rewrite list_lookup_alter_ne. }
  assert (Hgraph : graph s' = graph s).
  { unfold graph. simpl. rewrite fmap_insert. simpl. apply insert_id. by rewrite lookup_fmap, Hx. }
  split; [|split].
  - constructor; [|exact Hi'| | |by rewrite Hgraph].
    + change (vm s') with (vm (set_page_struct page (fun p => p <| cache := c |> <| cache_offset := off |>) s)).
      change (tables_ok first last own (vm s <| frames := frames (vm s') |>)).
      apply tables_ok_frames; try done.
      destruct (tables_pages _ _ _ _ Ht) as [H1 H2 H3 H4 H5]. constructor; try done.
      * simpl. by rewrite length_alter.
      * intros q Hq. rewrite Hrefs. by apply H3.
      * intros q Hq. rewrite Hrefs. by apply H4.
      * intros q Hq. rewrite Hrefs. by apply H5.
    + intros k q Hk. rewrite Hrefs. destruct (decide (k = (c, off))) as [->|Hne].
      * rewrite lookup_insert_eq in Hk. injection Hk as <-. rewrite fn_lookup_insert.
        split_and!; try done; try lia. rewrite (Ho page Hr Hnone Hnew). lia.
      * rewrite lookup_insert_ne in Hk by congruence. assert (q <> page) by (intros ->; by apply (Hnew k)).
        rewrite fn_lookup_insert_ne by congruence. by apply (Hpages k).
    + intros q Hq Hqn Hnot. rewrite Hrefs. assert (q <> page).
      { intros ->. apply (Hnot (c, off)). apply lookup_insert_eq. }
      rewrite fn_lookup_insert_ne by congruence. apply Ho; try done. intros k Hk. apply (Hnot k).
      rewrite lookup_insert_ne; [done|]. intros <-. congruence.
  - split_and!; try done. simpl. rewrite fmap_insert. simpl. apply insert_id. by rewrite lookup_fmap, Hx.
  - intros q Hq. exact (page_struct_set page q _ s p ltac:(lia) Hq Hp).
Qed.

(** References from outside to a page. *)
Lemma put_page_ok holds users M s page :
  ok holds users M s -> first <= page < last -> own page = None -> 1 <= holds page ->
  exists s', put_page page s = Done s' /\ ok (<[page := holds page - 1]> holds) users M s' /\ same_caches s s'
    /\ (forall q p, page_struct q s = Done p -> exists p', page_struct q s' = Done p'
          /\ cache p' = cache p /\ cache_offset p' = cache_offset p /\ busy p' = busy p /\ dirty p' = dirty p).
Proof.
  intros [Ht Hi Hp Ho Hg] Hr Hnone Hh. pose proof (tables_memory _ _ _ _ Ht) as [Hfirst _].
  assert (Hpos : 0 < refs page (frames (vm s))).
  { destruct (decide (map_Exists (fun _ q => q = page) M)) as [(k & q & Hk & ->)|Hnot].
    - destruct (Hp _ _ Hk). lia.
    - rewrite Ho; [lia|done|done|]. intros k Hk. apply Hnot. by exists k, page. }
  destruct (dec_tables_ok first last own (vm s) page Ht Hnone Hr Hpos) as (f & Hdec & Ht' & Hphys & Hrefs).
  unfold put_page. rewrite Hdec. cbn [bind_result]. set (s' := s <| vm ::= _ |>). exists s'. split; [done|].
  assert (Hstruct := put_page_struct page f s Hdec).
  split; [|split; [|exact Hstruct]].
  - constructor; [exact Ht'| | | |exact Hg].
    + apply (index_frame M s s' Hi); [done| |done]. intros q p _ Hq.
      destruct (Hstruct q p Hq) as (p' & ? & ? & ? & _). by exists p'.
    + intros k q Hk. destruct (Hp _ _ Hk) as (? & ? & ? & ?). simpl. rewrite Hrefs by lia.
      destruct (decide (q = page)) as [->|]; [rewrite fn_lookup_insert|rewrite fn_lookup_insert_ne by congruence];
        split_and!; done || lia.
    + intros q Hq Hqn Hnot. simpl. rewrite Hrefs by lia. pose proof (Ho q Hq Hqn Hnot).
      destruct (decide (q = page)) as [->|]; [rewrite fn_lookup_insert; lia|by rewrite fn_lookup_insert_ne by congruence].
  - split_and!; try done. by apply (dec_page_ref_size page).
Qed.

(** [inc_page_ref], on the state that holds the caches. *)
Definition hold_page (page : Z) (s : cache_state) : result cache_state :=
  f <-- inc_page_ref page (frames (vm s));;
  Done (s <| vm ::= fun v => v <| frames := f |> |>).

Lemma inc_page_ref_same page f s :
  inc_page_ref page s = Done f ->
  memory_size f = memory_size s /\ exists n, pages f = alter (fun p => p <| ref_count := n |>) (Z.to_nat page) (pages s).
Proof. unfold inc_page_ref. intros H. apply bind_Done_inv in H as (n & _ & H). injection H as <-. split; [done|by eexists]. Qed.

Lemma hold_page_ok holds users M s page k :
  ok holds users M s -> M !! k = Some page -> holds page < 2 ^ 31 - 2 ->
  exists s', hold_page page s = Done s' /\ ok (<[page := holds page + 1]> holds) users M s' /\ same_caches s s'
    /\ (forall q p, page_struct q s = Done p -> exists p', page_struct q s' = Done p'
          /\ cache p' = cache p /\ cache_offset p' = cache_offset p /\ busy p' = busy p /\ dirty p' = dirty p).
Proof.
  intros [Ht Hi Hp Ho Hg] Hk Hmax. destruct (Hp _ _ Hk) as (Hr & Hnone & Hh & Hrefs).
  pose proof (tables_memory _ _ _ _ Ht) as [Hfirst _].
  destruct (inc_ok first last (frames (vm s)) page (tables_pages _ _ _ _ Ht) Hr ltac:(lia) ltac:(lia))
    as (f & Hinc & Hpok & Hphys & Hrefs').
  destruct (inc_page_ref_same _ _ _ Hinc) as (Hsize & n & Hpages).
  unfold hold_page. rewrite Hinc. cbn [bind_result]. set (s' := s <| vm ::= _ |>). exists s'. split; [done|].
  assert (Hstruct : forall q p, page_struct q s = Done p -> exists p', page_struct q s' = Done p'
    /\ cache p' = cache p /\ cache_offset p' = cache_offset p /\ busy p' = busy p /\ dirty p' = dirty p).
  { intros q p Hq. unfold page_struct in *. simpl. rewrite Hpages.
    destruct (decide (Z.to_nat q = Z.to_nat page)) as [Heq|].
    - rewrite Heq in *. rewrite list_lookup_alter_eq. destruct (pages _ !! _) as [p0|]; [|done].
      injection Hq as ->. by eexists.
    - rewrite list_lookup_alter_ne by done. by exists p. }
  split; [|split; [by split_and!|exact Hstruct]].
  constructor; [| | | |exact Hg].
  - apply (tables_ok_frames first last own (vm s) f); try done.
    intros q o Hown Hf. rewrite Hrefs', decide_False by (lia || congruence). done.
  - apply (index_frame M s s' Hi); [done| |done]. intros q p _ Hq.
    destruct (Hstruct q p Hq) as (p' & ? & ? & ? & _). by exists p'.
  - intros k' q Hq. destruct (Hp _ _ Hq) as (? & ? & ? & ?). simpl. rewrite Hrefs' by lia.
    destruct (decide (q = page)) as [->|]; [rewrite fn_lookup_insert|rewrite fn_lookup_insert_ne by congruence];
      split_and!; done || lia.
  - intros q Hq Hqn Hnot. simpl. rewrite Hrefs' by lia. pose proof (Ho q Hq Hqn Hnot).
    destruct (decide (q = page)) as [->|]; [by destruct (Hnot k)|by rewrite fn_lookup_insert_ne by congruence].
Qed.

(** ** The page cache as clients see it *)

(** The caches taken under the lock, as every client does. *)
Definition with_cache_lock {A} (f : cache_state -> result (A * cache_state)) (s : cache_state)
  : result (A * cache_state) :=
  s <-- lock_vm_cache s;; '(r, s) <-- f s;; s <-- unlock_vm_cache s;; Done (r, s).

Definition lookup_page (c offset : Z) : cache_state -> result (option Z * cache_state) :=
  with_cache_lock (fun s => r <-- lookup_cache_page c offset s;; Done (r, s)).

(** A new page for a place that has none. *)
Definition add_page (c offset : Z) : cache_state -> result (Z * cache_state) :=
  with_cache_lock (fun s => '(page, s) <-- allocate_page s;; s <-- insert_cache_page c offset page s;; Done (page, s)).

Definition drop_page (page : Z) : cache_state -> result (unit * cache_state) :=
  with_cache_lock (fun s => s <-- remove_cache_page page s;; s <-- put_page page s;; Done (tt, s)).

(** What a run of the operations leaves, next to the abstract state: the references held
    from outside and the map from places to pages. *)
Inductive cache_run : (Z -> Z) -> (Z -> Z) -> gmap (Z * Z) Z -> cache_state -> Prop :=
| run_start v junk :
    tables_ok first last own v ->
    (forall page, first <= page < last -> own page = None -> refs page (frames v) = 0) ->
    cache_run (fun _ => 0) (fun _ => 0) ∅ (bootstrap_vm_cache (Build_cache_state v ∅ junk false))
| run_create holds users M s object old_file source_cache s' :
    cache_run holds users M s -> caches s !! object = None -> object <> 0 ->
    (source_cache <> 0 -> 0 < count_of source_cache s < 2 ^ 31 - 1) ->
    create_vm_cache object old_file source_cache s = Done s' ->
    cache_run holds (<[object := 1]> users) M s'
| run_inc holds users M s c s' :
    cache_run holds users M s -> 0 < count_of c s < 2 ^ 31 - 1 -> inc_cache_ref c s = Done s' ->
    cache_run holds (<[c := users c + 1]> users) M s'
| run_dec holds users M s c s' :
    cache_run holds users M s -> 0 < users c -> dec_cache_ref c s = Done s' ->
    cache_run holds (<[c := users c - 1]> users) (filter (fun kp => 0 < count_of kp.1.1 s') M) s'
| run_add holds users M s c offset page s' :
    cache_run holds users M s -> 0 < count_of c s -> is_u32 offset -> M !! (c, PAGE_ALIGN offset) = None ->
    add_page c offset s = Done (page, s') ->
    cache_run holds users (<[(c, PAGE_ALIGN offset) := page]> M) s'
| run_drop holds users M s k page s' :
    cache_run holds users M s -> M !! k = Some page -> drop_page page s = Done (tt, s') ->
    cache_run holds users (delete k M) s'
| run_hold holds users M s k page s' :
    cache_run holds users M s -> M !! k = Some page -> holds page < 2 ^ 31 - 2 -> hold_page page s = Done s' ->
    cache_run (<[page := holds page + 1]> holds) users M s'
| run_put holds users M s page s' :
    cache_run holds users M s -> first <= page < last -> own page = None -> 0 < holds page ->
    put_page page s = Done s' ->
    cache_run (<[page := holds page - 1]> holds) users M s'.

Record run_inv (holds users : Z -> Z) (M : gmap (Z * Z) Z) (s : cache_state) : Prop := {
  inv_ok : ok holds users M s;
  inv_lock : cache_lock s = false;
  inv_live : forall c offset page, M !! (c, offset) = Some page -> 0 < count_of c s;
  inv_users : forall c, 0 < users c -> is_Some (caches s !! c)
}.

Lemma ok_lock holds users M s b : ok holds users M s -> ok holds users M (s <| cache_lock := b |>).
Proof.
  intros [? Hi ? ? ?]. constructor; try done. apply (index_frame M s); [done|done| |done].
  intros page p _ Hp. by exists p.
Qed.

Lemma lookup_page_ok holds users M s c offset :
  run_inv holds users M s -> lookup_page c offset s = Done (M !! (c, PAGE_ALIGN offset), s).
Proof.
  intros [Hok Hlock _ _]. unfold lookup_page, with_cache_lock, lock_vm_cache. rewrite Hlock. cbn [bind_result].
  rewrite (lookup_ok M); [|apply (ok_lock _ _ _ _ true Hok)|done]. cbn [bind_result].
  unfold unlock_vm_cache. cbn [kassert bind_result]. f_equal. f_equal. destruct s. simpl in *. by subst.
Qed.

Lemma count_of_pos c s : 0 < count_of c s -> exists x, caches s !! c = Some x /\ cache_ref_count x = count_of c s.
Proof. unfold count_of. destruct (caches s !! c) as [x|]; [by exists x|lia]. Qed.

Lemma count_of_nonneg holds users M s c : ok holds users M s -> 0 <= count_of c s.
Proof.
  intros Hs. rewrite count_of_graph. destruct (graph s !! c) as [[n src]|] eqn:E; [|done].
  destruct (graph_count _ _ (caches_graph _ _ _ _ _ _ _ Hs) _ _ _ E) as (_ & ? & ->).
  pose proof (children_range c (graph s)). simpl. lia.
Qed.

Lemma same_caches_some s s' c : same_caches s s' -> is_Some (caches s !! c) -> is_Some (caches s' !! c).
Proof.
  intros (_ & Hf & _) [x Hx]. apply (f_equal (fun m : gmap Z Z => m !! c)) in Hf.
  rewrite !lookup_fmap, Hx in Hf. destruct (caches s' !! c); [by eexists|done].
Qed.

Lemma run_same holds users M s holds' M' s' :
  run_inv holds users M s -> ok holds' users M' s' -> same_caches s s' ->
  (forall c offset page, M' !! (c, offset) = Some page -> 0 < count_of c s) -> run_inv holds' users M' s'.
Proof.
  intros [Hok Hlock Hlive Husers] Hok' Hsame Hlive'. pose proof Hsame as (Hg & _ & Hl & _).
  constructor; [done|by rewrite Hl| |].
  - intros c offset page Hk. rewrite (count_of_same s s') by done. by apply (Hlive' c offset page).
  - intros c Hc. apply (same_caches_some s); [done|]. by apply Husers.
Qed.

Lemma run_add_ok holds users M s c offset page s' :
  run_inv holds users M s -> 0 < count_of c s -> is_u32 offset -> M !! (c, PAGE_ALIGN offset) = None ->
  add_page c offset s = Done (page, s') -> run_inv holds users (<[(c, PAGE_ALIGN offset) := page]> M) s'.
Proof.
  intros Hinv Hc Hu Hnone Hadd. pose proof Hinv as [Hok Hlock Hlive Husers].
  unfold add_page, with_cache_lock, lock_vm_cache in Hadd. rewrite Hlock in Hadd. cbn [bind_result] in Hadd.
  apply bind_Done_inv in Hadd as ([page1 s3] & Hadd & Hun). apply bind_Done_inv in Hadd as ([page2 s1] & Halloc & Hins).
  apply bind_Done_inv in Hins as (s2 & Hins & Heq). injection Heq as -> ->.
  destruct (allocate_page_ok holds users M _ _ _ (ok_lock _ _ _ _ true Hok) Halloc)
    as (Hok1 & Hh & Hr & Hown & Hnew & [o Hp] & _ & _ & [v ->] & _).
  destruct (count_of_pos c s Hc) as (x & Hx & _).
  destruct (insert_cache_page_ok _ users M _ c offset page1 _ Hok1 eq_refl ltac:(by eexists) Hu Hr Hown
    ltac:(rewrite fn_lookup_insert; lia) Hnew Hp eq_refl Hnone) as (s4 & Hins' & Hok4 & Hsame & _).
  rewrite Hins in Hins'. injection Hins' as <-. apply bind_Done_inv in Hun as (s5 & Hun & Heq).
  injection Heq as -> ->. unfold unlock_vm_cache in Hun. apply bind_Done_inv in Hun as (_ & _ & Hun). injection Hun as <-.
  set (s1 := s <| cache_lock := true |> <| vm := v |>) in *.
  assert (Hok5 : ok holds users (<[(c, PAGE_ALIGN offset) := page]> M) (s3 <| cache_lock := false |>)).
  { apply ok_lock. destruct Hok4 as [? ? Hpage Hother ?]. constructor; try done.
    - intros k q Hk. destruct (Hpage k q Hk) as (H1 & H2 & H3 & H4). revert H3 H4.
      destruct (decide (q = page)) as [->|]; [rewrite !fn_lookup_insert|by rewrite !fn_lookup_insert_ne by congruence].
      intros. rewrite Hh. split_and!; lia || done.
    - intros q H1 H2 H3. rewrite (Hother q H1 H2 H3).
      destruct (decide (q = page)) as [->|]; [rewrite !fn_lookup_insert; lia|by rewrite !fn_lookup_insert_ne by congruence]. }
  destruct Hsame as (Hg & Hf & _). constructor; [exact Hok5|done| |].
  - intros c' o' q Hk. rewrite count_of_graph. change (graph (s3 <| cache_lock := false |>)) with (graph s3). rewrite Hg.
    change (graph s1) with (graph s). rewrite <- count_of_graph.
    destruct (decide ((c', o') = (c, PAGE_ALIGN offset))) as [[= -> ->]|Hne]; [done|].
    rewrite lookup_insert_ne in Hk by congruence. by apply (Hlive c' o' q).
  - intros c' Hc'. destruct (Husers c' Hc') as [x' Hx']. simpl.
    apply (f_equal (fun m : gmap Z Z => m !! c')) in Hf. rewrite !lookup_fmap in Hf. simpl in Hf. rewrite Hx' in Hf.
    destruct (caches s3 !! c'); [by eexists|done].
Qed.

Lemma run_drop_ok holds users M s k page s' :
  run_inv holds users M s -> M !! k = Some page -> drop_page page s = Done (tt, s') ->
  run_inv holds users (delete k M) s'.
Proof.
  intros Hinv Hk Hdrop. pose proof Hinv as [Hok Hlock Hlive Husers]. destruct k as [c offset].
  unfold drop_page, with_cache_lock, lock_vm_cache in Hdrop. rewrite Hlock in Hdrop. cbn [bind_result] in Hdrop.
  apply bind_Done_inv in Hdrop as ([[] s2] & Hdrop & Hun).
  destruct (release_cache_page holds users M (s <| cache_lock := true |>) c offset page
    (ok_lock _ _ _ _ true Hok) eq_refl Hk) as (s1 & Hrel & Hok1 & Hsame & _).
  apply bind_Done_inv in Hrel as (s0 & Hrem & Hput). rewrite Hrem in Hdrop. cbn [bind_result] in Hdrop.
  rewrite Hput in Hdrop. cbn [bind_result] in Hdrop. injection Hdrop as <-.
  apply bind_Done_inv in Hun as (s5 & Hun & Heq). injection Heq as <-. unfold unlock_vm_cache in Hun.
  apply bind_Done_inv in Hun as (_ & _ & Hun). injection Hun as <-.
  destruct Hsame as (Hg & Hf & _). constructor; [by apply ok_lock|done| |].
  - intros c' o' q Hq. apply lookup_delete_Some in Hq as [_ Hq]. rewrite count_of_graph.
    change (graph (s1 <| cache_lock := false |>)) with (graph s1). rewrite Hg.
    change (graph (s <| cache_lock := true |>)) with (graph s). rewrite <- count_of_graph. by apply (Hlive c' o' q).
  - intros c' Hc'. destruct (Husers c' Hc') as [x' Hx']. simpl.
    apply (f_equal (fun m : gmap Z Z => m !! c')) in Hf. rewrite !lookup_fmap in Hf. simpl in Hf. rewrite Hx' in Hf.
    destruct (caches s1 !! c'); [by eexists|done].
Qed.

Lemma run_dec_ok holds users M s c :
  run_inv holds users M s -> 0 < users c ->
  exists s', dec_cache_ref c s = Done s'
    /\ run_inv holds (<[c := users c - 1]> users) (filter (fun kp => 0 < count_of kp.1.1 s') M) s'.
Proof.
  intros [Hok Hlock Hlive Husers] Hc.
  destruct (dec_cache_ref_ok holds users c M s Hok Hlock Hc (Husers c Hc)) as (s' & Hdec & Hd & Hok').
  exists s'. split; [done|].
  assert (HM : filter (survives s s') M = filter (fun kp : (Z * Z) * Z => 0 < count_of kp.1.1 s') M).
  { apply map_filter_ext. intros [c' o'] q Hq. unfold survives, died. simpl.
    pose proof (Hlive c' o' q Hq). pose proof (count_of_nonneg _ _ _ _ c' Hok'). lia. }
  rewrite HM in Hok'. constructor; [done|by rewrite (dropped_lock _ _ Hd)| |].
  - intros c' o' q Hq. by apply map_lookup_filter_Some in Hq as [_ ?].
  - intros c' Hc'. assert (Hu : 0 < users c').
    { destruct (decide (c' = c)) as [->|]; [done|by rewrite fn_lookup_insert_ne in Hc' by congruence]. }
    destruct (Husers c' Hu) as [x Hx]. pose proof (dropped_files _ _ Hd) as Hf.
    apply (f_equal (fun m : gmap Z Z => m !! c')) in Hf. rewrite !lookup_fmap, Hx in Hf.
    destruct (caches s' !! c'); [by eexists|done].
Qed.

Lemma run_start_ok v junk :
  tables_ok first last own v ->
  (forall page, first <= page < last -> own page = None -> refs page (frames v) = 0) ->
  run_inv (fun _ => 0) (fun _ => 0) ∅ (bootstrap_vm_cache (Build_cache_state v ∅ junk false)).
Proof.
  intros Hv Hrefs. constructor; [|done|by intros|intros; lia].
  constructor; [done| |by intros|intros; by apply Hrefs|].
  - constructor; [done|by intros|by intros|by intros|].
    intros b l Hl. unfold bootstrap_vm_cache in Hl. cbn [hash_table] in Hl.
    change (replicate (Z.to_nat NUM_HASH_BUCKETS) [] !! b = Some l) in Hl.
    apply lookup_replicate in Hl as [-> _]. split; [apply NoDup_nil_2|].
    intros page. split; [by intros ?%elem_of_nil|by intros (c & o & Hk & _)].
  - constructor; [by intros|by intros|]. by exists (fun _ => O).
Qed.

Lemma cache_run_inv holds users M s : cache_run holds users M s -> run_inv holds users M s.
Proof.
  induction 1 as [v junk Hv Hrefs|holds users M s object old_file src s' _ IH Hnew H0 Hsrc Hop|holds users M s c s' _ IH Hc Hop
    |holds users M s c s' _ IH Hc Hop|holds users M s c offset page s' _ IH Hc Hu Hnone Hop|holds users M s k page s' _ IH Hk Hop
    |holds users M s k page s' _ IH Hk Hmax Hop|holds users M s page s' _ IH Hr Hown Hh Hop].
  - by apply run_start_ok.
  - destruct IH as [Hok Hlock Hlive Husers].
    destruct (create_vm_cache_ok holds users object old_file src M s Hok Hnew H0)
      as (s1 & Hcreate & Hok1 & Hvm & Hl & Hobj & Hothers).
    { intros Hne. destruct (count_of_pos src s) as (x & Hx & Hn); [by apply Hsrc|]. exists x. rewrite Hn. by split; [|apply Hsrc]. }
    rewrite Hop in Hcreate. injection Hcreate as <-.
    constructor; [done|congruence| |].
    + intros c o q Hq. pose proof (Hlive c o q Hq) as Hpos.
      destruct (decide (c = object)) as [->|Hne]; [unfold count_of in Hpos; rewrite Hnew in Hpos; lia|].
      destruct (Hothers c Hne) as (_ & _ & ->). repeat destruct (decide _); lia.
    + intros c Hc. destruct (decide (c = object)) as [->|Hne]; [by eexists|].
      rewrite fn_lookup_insert_ne in Hc by congruence. destruct (Husers c Hc) as [x Hx].
      destruct (Hothers c Hne) as (Hf & _). rewrite Hx in Hf. destruct (caches s' !! c); [by eexists|done].
  - destruct IH as [Hok Hlock Hlive Husers]. destruct (count_of_pos c s) as (x & Hx & Hn); [lia|].
    destruct (inc_cache_ref_ok holds users c M s x Hok Hx ltac:(lia)) as (s1 & Hinc & Hok1 & Hvm & Hl & Hcaches).
    rewrite Hop in Hinc. injection Hinc as <-. constructor; [done|congruence| |].
    + intros c' o q Hq. pose proof (Hlive c' o q Hq) as Hpos. unfold count_of in *. rewrite Hcaches.
      destruct (decide (c' = c)) as [->|]; [rewrite lookup_insert_eq; simpl; lia|by rewrite lookup_insert_ne by congruence].
    + intros c' Hc'. rewrite Hcaches. destruct (decide (c' = c)) as [->|]; [rewrite lookup_insert_eq; by eexists|].
      rewrite fn_lookup_insert_ne in Hc' by congruence. rewrite lookup_insert_ne by congruence. by apply Husers.
  - destruct (run_dec_ok holds users M s c IH Hc) as (s1 & Hdec & Hinv). rewrite Hop in Hdec. by injection Hdec as <-.
  - by apply (run_add_ok holds users M s c offset page).
  - by apply (run_drop_ok holds users M s k page).
  - destruct (hold_page_ok holds users M s page k (inv_ok _ _ _ _ IH) Hk Hmax) as (s1 & Hhold & Hok1 & Hsame & _).
    rewrite Hop in Hhold. injection Hhold as <-. apply (run_same holds users M s); try done. apply IH.
  - destruct (put_page_ok holds users M s page (inv_ok _ _ _ _ IH) Hr Hown ltac:(lia)) as (s1 & Hput & Hok1 & Hsame & _).
    rewrite Hop in Hput. injection Hput as <-. apply (run_same holds users M s); try done. apply IH.
Qed.

End Operations.

(** ** The property *)

(** C15: the page cache is a finite map with counted references.  After any sequence of making
    caches (with or without a source), taking and dropping references to them, adding and
    removing pages, and taking and dropping references to pages: looking up any offset of any
    cache, through the hash table, gives what the map that the sequence describes holds there;
    a cache's count is the number of references from outside and of live caches made from it;
    a page has one reference for the cache it is in and one for each taken; a cache nobody
    refers to has no pages; and whoever holds a reference can drop it, at any time, without
    failing an assertion, which releases exactly the caches whose last reference it was. *)
Theorem vm_cache_refines first last own holds users M s :
  cache_run first last own holds users M s ->
  (forall c offset, lookup_page c offset s = Done (M !! (c, PAGE_ALIGN offset), s))
  /\ (forall c x, caches s !! c = Some x -> cache_ref_count x = users c + children c (graph s))
  /\ (forall c offset page, M !! (c, offset) = Some page ->
        refs page (frames (vm s)) = 1 + holds page /\ 0 < count_of c s)
  /\ (forall page, first <= page < last -> own page = None -> (forall k, M !! k <> Some page) ->
        refs page (frames (vm s)) = holds page)
  /\ (forall c, 0 < users c -> exists s', dec_cache_ref c s = Done s'
        /\ (forall c' offset, lookup_page c' offset s' = Done (
              if decide (0 < count_of c' s') then M !! (c', PAGE_ALIGN offset) else None, s'))).
Proof.
  intros Hrun. pose proof (cache_run_inv _ _ _ _ _ _ _ Hrun) as Hinv. pose proof Hinv as [Hok Hlock Hlive Husers].
  split; [|split; [|split; [|split]]].
  - intros c offset. by apply (lookup_page_ok first last own holds users M).
  - intros c x Hx. by apply (graph_count _ _ (caches_graph _ _ _ _ _ _ _ Hok) c _ _ (graph_lookup c x s Hx)).
  - intros c offset page Hk. split; [by apply (caches_page _ _ _ _ _ _ _ Hok (c, offset))|by apply (Hlive c offset page)].
  - apply (caches_other _ _ _ _ _ _ _ Hok).
  - intros c Hc. destruct (run_dec_ok first last own holds users M s c Hinv Hc) as (s' & Hdec & Hinv').
    exists s'. split; [done|]. intros c' offset. rewrite (lookup_page_ok _ _ _ _ _ _ _ _ _ Hinv').
    do 2 f_equal. destruct (decide (0 < count_of c' s')) as [H|H].
    + destruct (M !! (c', PAGE_ALIGN offset)) as [page|] eqn:E.
      * by apply map_lookup_filter_Some.
      * apply map_lookup_filter_None. by left.
    + apply map_lookup_filter_None. right. intros page _ Hp. by apply H.
Qed.

(** An image with one page, and a copy of it with another at the same offset; the creator of
    the image lets go of it. *)
Definition empty_caches : cache_state := bootstrap_vm_cache (Build_cache_state boot_state ∅ [] false).
Definition with_image : cache_state := result_or empty_caches (create_vm_cache 0x100 0 0 empty_caches).
Definition with_copy : cache_state := result_or empty_caches (create_vm_cache 0x200 0 0x100 with_image).
Definition with_page : cache_state := (result_or (0, empty_caches) (add_page 0x100 0x3004 with_copy)).2.
Definition with_pages : cache_state := (result_or (0, empty_caches) (add_page 0x200 0x3000 with_page)).2.
Definition image_released : cache_state := result_or empty_caches (dec_cache_ref 0x100 with_pages).

Definition two_pages : gmap (Z * Z) Z := <[(0x200, PAGE_ALIGN 0x3000) := 3]> (<[(0x100, PAGE_ALIGN 0x3004) := 2]> ∅).
Definition two_users : Z -> Z := <[0x200 := 1]> (<[0x100 := 1]> (fun _ => 0)).

Lemma cache_run_example :
  cache_run 2 15 boot_own (fun _ => 0) (<[0x100 := two_users 0x100 - 1]> two_users)
    (filter (fun kp => 0 < count_of kp.1.1 image_released) two_pages) image_released.
Proof.
  assert (H0 : cache_run 2 15 boot_own (fun _ => 0) (fun _ => 0) ∅ empty_caches).
  { apply (run_start 2 15 boot_own boot_state []); [exact boot_tables_ok|].
    intros page Hp _. refine (refs_boot page 16 _ _). reflexivity. }
  assert (H1 : cache_run 2 15 boot_own (fun _ => 0) (<[0x100 := 1]> (fun _ => 0)) ∅ with_image).
  { apply (run_create 2 15 boot_own _ _ _ empty_caches 0x100 0 0); [exact H0|done|done|done|].
    apply ends_result. vm_compute; reflexivity. }
  assert (H2 : cache_run 2 15 boot_own (fun _ => 0) two_users ∅ with_copy).
  { apply (run_create 2 15 boot_own _ _ _ with_image 0x200 0 0x100); [exact H1|done|done|by vm_compute|].
    apply ends_result. vm_compute; reflexivity. }
  assert (H3 : cache_run 2 15 boot_own (fun _ => 0) two_users (<[(0x100, PAGE_ALIGN 0x3004) := 2]> ∅) with_page).
  { apply (run_add 2 15 boot_own _ _ _ with_copy 0x100 0x3004 2); [exact H2|by vm_compute|by split|done|].
    transitivity (Done (result_or (0, empty_caches) (add_page 0x100 0x3004 with_copy)));
      [apply ends_result; vm_compute; reflexivity|vm_compute; reflexivity]. }
  assert (H4 : cache_run 2 15 boot_own (fun _ => 0) two_users two_pages with_pages).
  { apply (run_add 2 15 boot_own _ _ _ with_page 0x200 0x3000 3); [exact H3|by vm_compute|by split|by vm_compute|].
    transitivity (Done (result_or (0, empty_caches) (add_page 0x200 0x3000 with_page)));
      [apply ends_result; vm_compute; reflexivity|vm_compute; reflexivity]. }
  apply (run_dec 2 15 boot_own _ _ _ with_pages 0x100); [exact H4|by vm_compute|].
  apply ends_result. vm_compute; reflexivity.
Qed.

(** The image lives on in its copy, and dies with it. *)
Lemma vm_cache_refines_witness :
  lookup_page 0x100 0x3ffc image_released = Done (Some 2, image_released)
  /\ lookup_page 0x200 0x3000 image_released = Done (Some 3, image_released)
  /\ exists s', dec_cache_ref 0x200 image_released = Done s'
      /\ lookup_page 0x100 0x3000 s' = Done (None, s') /\ lookup_page 0x200 0x3000 s' = Done (None, s').
Proof.
  destruct (vm_cache_refines 2 15 boot_own _ _ _ _ cache_run_example) as (Hlookup & _ & _ & _ & Hdec).
  split; [rewrite Hlookup; do 2 f_equal; vm_compute; reflexivity|].
  split; [rewrite Hlookup; do 2 f_equal; vm_compute; reflexivity|].
  destruct (Hdec 0x200 ltac:(by vm_compute)) as (s' & Hs' & Hlookup'). exists s'. split; [exact Hs'|].
  assert (Hdead : count_of 0x100 s' = 0 /\ count_of 0x200 s' = 0).
  { change s' with (result_or empty_caches (Done s')). rewrite <- Hs'. split; vm_compute; reflexivity. }
  destruct Hdead as [H1 H2]. rewrite !Hlookup', H1, H2. by rewrite !decide_False by lia.
Defined.
