(* ===== verification/VmFault.v ===== *)
(** * VmFault: page faults (soft_fault of software/kernel/vm_address_space.c)

    A fault looks for the page down the chain of caches behind the area, reads it from the
    file of a cache that has one, copies it when a store finds it in another cache than the
    area's own, and maps it.  [read_file] is what the file system answers: the bytes, or an
    error; Kernel's fs.c is not looked into here.  The handler is run by one thread from
    beginning to end: no other thread runs while it waits for a file, so a page is busy only
    inside it. *)

From S2P Require Export VmCache VmAreaMap.
From stdpp Require Import list gmap functions.
Import stdpp.list_relations.list.

#[local] Open Scope Z_scope.

(** ** Bytes of physical memory *)

Definition word_of (a : Z) : Z := a - a mod 4.
Definition byte_shift (a : Z) : Z := 8 * (a mod 4).

Definition phys_byte (a : Z) (memory : Z -> Z) : Z :=
  Z.land (Z.shiftr (memory (word_of a)) (byte_shift a)) 0xff.

Definition set_phys_byte (a b : Z) (memory : Z -> Z) : Z -> Z :=
  <[word_of a := Z.lor (Z.ldiff (memory (word_of a)) (Z.shiftl 0xff (byte_shift a))) (Z.shiftl b (byte_shift a))]> memory.

Fixpoint write_bytes (a : Z) (bytes : list Z) (memory : Z -> Z) : Z -> Z :=
  match bytes with
  | [] => memory
  | b :: bytes' => write_bytes (a + 1) bytes' (set_phys_byte a b memory)
  end.

(** [memcpy] of a page. *)
Definition copy_page (to from : Z) (memory : Z -> Z) : Z -> Z :=
  fun a => if (to <=? a) && (a <? to + PAGE_SIZE) then memory (from + (a - to)) else memory a.

(** ** The fault handler *)

Section Fault.

(** [read_file (handle, offset, ..., size)]: what is stored, or an error. *)
Context (read_file : Z -> Z -> Z -> option (list Z)).

Definition set_phys (f : (Z -> Z) -> Z -> Z) (s : cache_state) : cache_state :=
  s <| vm ::= fun v => v <| frames ::= fun fr => fr <| phys ::= f |> |> |>.

Definition page_busy (page : Z) (s : cache_state) : result bool :=
  p <-- page_struct page s;; Done (negb (busy p =? 0)).

Definition set_busy (page value : Z) : cache_state -> cache_state :=
  set_page_struct page (fun p => p <| busy := value |>).

(** The arithmetic is on unsigned ints; the result is kept in an int. *)
Definition bytes_to_read (area : vm_area) (area_offset : Z) : Z :=
  if (cache_length area <? area_offset) || (u32 (cache_length area - area_offset) <? PAGE_SIZE)
  then s32 (u32 (cache_length area - area_offset)) else PAGE_SIZE.

(** A page for a place of a cache, busy; the lock is held. *)
Definition insert_busy_page (c offset : Z) (s : cache_state) : result (Z * cache_state) :=
  '(page, s) <-- allocate_page s;;
  s <-- insert_cache_page c offset page (set_busy page 1 s);;
  Done (page, s).

(** What the search ends with: an error, or a page found, the page made on the way, and
    whether the page is another cache's. *)
Inductive search :=
| ReadFailed (s : cache_state)
| Searched (source_page dummy_page : option Z) (is_cow_page : bool) (s : cache_state).

Definition release_dummy (dummy : option Z) (s : cache_state) : result cache_state :=
  match dummy with
  | None => Done s
  | Some page => s <-- lock_vm_cache s;; s <-- remove_cache_page page s;; s <-- unlock_vm_cache s;; put_page page s
  end.

Definition read_cache_page (handle c offset area_offset : Z) (area : vm_area) (dummy : option Z)
    (is_cow_page : bool) (s : cache_state) : result search :=
  '(page, s) <-- insert_busy_page c offset s;;
  s <-- unlock_vm_cache s;;
  let size_to_read := bytes_to_read area area_offset in
  match (if 0 <? size_to_read then read_file handle offset size_to_read else Some []) with
  | None =>
      s <-- put_page page s;;
      s <-- release_dummy dummy s;;
      Done (ReadFailed s)
  | Some bytes =>
      let size_to_read := Z.max size_to_read 0 in
      let s := set_phys (write_bytes (page_to_pa page) bytes) s in
      let s := set_phys (write_bytes (page_to_pa page + size_to_read)
                 (replicate (Z.to_nat (PAGE_SIZE - size_to_read)) 0)) s in
      s <-- lock_vm_cache s;;
      Done (Searched (Some page) dummy is_cow_page (set_busy page 0 s))
  end.

(** [for (cache = area->cache; cache; cache = cache->source)] *)
Fixpoint search_caches (fuel : nat) (c offset area_offset : Z) (area : vm_area) (dummy : option Z)
    (is_cow_page : bool) (s : cache_state) : result search :=
  if c =? 0 then Done (Searched None dummy is_cow_page s)
  else
    match fuel with
    | O => Fault OutOfFuel
    | S fuel' =>
        found <-- lookup_cache_page c offset s;;
        match found with
        | Some page => Done (Searched (Some page) dummy is_cow_page s)
        | None =>
            x <-- get_cache c s;;
            if negb (file x =? 0) then read_cache_page (file x) c offset area_offset area dummy is_cow_page s
            else
              '(dummy, s) <--
                (if c =? cache area then '(page, s) <-- insert_busy_page c offset s;; Done (Some page, s)
                 else Done (dummy, s));;
              search_caches fuel' (source x) offset area_offset area dummy true s
        end
    end.

Definition some_page (page : option Z) : result Z :=
  match page with Some p => Done p | None => Fault AssertFailed end.

(** The page to map, after the search; the lock is held. *)
Definition choose_page (is_store : bool) (source_page dummy_page : option Z) (is_cow_page : bool)
    (s : cache_state) : result (Z * cache_state) :=
  match source_page with
  | None => dummy <-- some_page dummy_page;; Done (dummy, set_busy dummy 0 s)
  | Some page =>
      if is_cow_page then
        dummy <-- some_page dummy_page;;
        if is_store then
          Done (dummy, set_busy dummy 0 (set_phys (copy_page (page_to_pa dummy) (page_to_pa page)) s))
        else
          s <-- remove_cache_page dummy s;;
          s <-- put_page dummy s;;
          Done (page, s)
      else Done (page, s)
  end.

(** The flags of the mapping. *)
Definition fault_flags (is_kernel : bool) (area : vm_area) (is_store is_dirty : bool) : Z :=
  let page_flags := PAGE_PRESENT in
  let page_flags := if negb (Z.land (flags area) AREA_WRITABLE =? 0) && (is_dirty || is_store)
                    then Z.lor page_flags PAGE_WRITABLE else page_flags in
  let page_flags := if negb (Z.land (flags area) AREA_EXECUTABLE =? 0)
                    then Z.lor page_flags PAGE_EXECUTABLE else page_flags in
  if is_kernel then Z.lor page_flags (Z.lor PAGE_SUPERVISOR PAGE_GLOBAL) else page_flags.

(** [vm_map_page], on the state that holds the caches. *)
Definition map_page (map va pa : Z) (s : cache_state) : result cache_state :=
  v <-- vm_map_page map va pa (vm s);; Done (s <| vm := v |>).

(** From [inc_page_ref] on: the page found is mapped.  Waiting for a busy page would not end. *)
Definition map_found (map : Z) (is_kernel : bool) (area : vm_area) (address : Z) (is_store : bool)
    (page : Z) (s : cache_state) : result (bool * cache_state) :=
  s <-- hold_page page s;;
  s <-- unlock_vm_cache s;;
  b <-- page_busy page s;;
  if (b : bool) then Fault OutOfFuel
  else
    let s := if is_store then set_page_struct page (fun p => p <| dirty := 1 |>) s else s in
    p <-- page_struct page s;;
    s <-- map_page map address
            (Z.lor (page_to_pa page) (fault_flags is_kernel area is_store (negb (dirty p =? 0)))) s;;
    Done (true, s).

(** The space is known by its translation map, and whether it is the kernel's. *)
Definition soft_fault (map : Z) (is_kernel : bool) (area : vm_area) (address : Z) (is_store : bool)
    (s : cache_state) : result (bool * cache_state) :=
  if is_store && (Z.land (flags area) AREA_WRITABLE =? 0) then Done (false, s)
  else
    let area_offset := PAGE_ALIGN (u32 (address - low_address area)) in
    let offset := PAGE_ALIGN (u32 (area_offset + cache_offset area)) in
    s <-- lock_vm_cache s;;
    _ <-- kassert (negb (cache area =? 0));;
    found <-- search_caches (S (size (caches s))) (cache area) offset area_offset area None false s;;
    match found with
    | ReadFailed s => Done (false, s)
    | Searched source_page dummy_page is_cow_page s =>
        '(page, s) <-- choose_page is_store source_page dummy_page is_cow_page s;;
        map_found map is_kernel area address is_store page s
    end.

End Fault.

(** ** Bytes *)

Lemma phys_byte_bit a memory i :
  0 <= i -> Z.testbit (phys_byte a memory) i = Z.testbit (memory (word_of a)) (i + byte_shift a) && (i <? 8).
Proof.
  intros Hi. unfold phys_byte. change 0xff with (Z.ones 8). rewrite Z.land_spec, Z.shiftr_spec by done.
  f_equal. destruct (Z.ltb_spec i 8); [apply Z.ones_spec_low|apply Z.ones_spec_high]; lia.
Qed.

Lemma byte_bit b i : 0 <= b < 256 -> 8 <= i -> Z.testbit b i = false.
Proof. intros Hb Hi. apply (proj1 (is_unsigned_bits 8 b ltac:(lia)) Hb). lia. Qed.

Lemma set_byte_bit w b s i :
  0 <= b < 256 -> 0 <= s -> 0 <= i ->
  Z.testbit (Z.lor (Z.ldiff w (Z.shiftl 0xff s)) (Z.shiftl b s)) i
  = if (s <=? i) && (i <? s + 8) then Z.testbit b (i - s) else Z.testbit w i.
Proof.
  intros Hb Hs Hi. change 0xff with (Z.ones 8). rewrite Z.lor_spec, Z.ldiff_spec, !Z.shiftl_spec by done.
  destruct (Z.leb_spec s i); simpl.
  - destruct (Z.ltb_spec i (s + 8)).
    + rewrite Z.ones_spec_low by lia. simpl. by rewrite andb_false_r.
    + rewrite Z.ones_spec_high, (byte_bit b (i - s)) by lia. simpl. by rewrite andb_true_r, orb_false_r.
  - rewrite !(Z.testbit_neg_r _ (i - s)) by lia. simpl. by rewrite andb_true_r, orb_false_r.
Qed.

Lemma phys_byte_set a a' b memory :
  0 <= b < 256 -> phys_byte a' (set_phys_byte a b memory) = if decide (a' = a) then b else phys_byte a' memory.
Proof.
  intros Hb. assert (Hs : forall x, 0 <= byte_shift x <= 24 /\ byte_shift x mod 8 = 0 /\ word_of x = x - byte_shift x / 8).
  { intros x. unfold byte_shift, word_of. Z.div_mod_to_equations. lia. }
  destruct (Hs a) as (H1 & H2 & H3), (Hs a') as (H1' & H2' & H3').
  apply Z.bits_inj'. intros i Hi. rewrite phys_byte_bit by done. unfold set_phys_byte.
  destruct (decide (word_of a' = word_of a)) as [Hw|Hw].
  - rewrite Hw, fn_lookup_insert, set_byte_bit by (done || lia).
    destruct (Z.ltb_spec i 8); rewrite ?andb_true_r, ?andb_false_r.
    + destruct (decide (a' = a)) as [->|Hne].
      * rewrite (proj2 (Z.leb_le _ _)), (proj2 (Z.ltb_lt _ _)) by lia. simpl. f_equal. lia.
      * replace ((byte_shift a <=? i + byte_shift a') && (i + byte_shift a' <? byte_shift a + 8)) with false.
        -- rewrite phys_byte_bit by done. rewrite Hw, (proj2 (Z.ltb_lt _ _)) by done. by rewrite andb_true_r.
        -- symmetry. apply andb_false_iff. rewrite Z.leb_gt, Z.ltb_ge.
           assert (byte_shift a <> byte_shift a') by (intros Heq; rewrite Heq in *; lia).
           Z.div_mod_to_equations. lia.
    + destruct (decide (a' = a)) as [->|Hne]; [by rewrite byte_bit by lia|].
      rewrite phys_byte_bit, (proj2 (Z.ltb_ge _ _)) by lia. by rewrite andb_false_r.
  - rewrite fn_lookup_insert_ne by congruence. rewrite decide_False by congruence. by rewrite phys_byte_bit.
Qed.

Lemma write_bytes_lookup bytes : forall a a' memory,
  Forall (fun b => 0 <= b < 256) bytes ->
  phys_byte a' (write_bytes a bytes memory)
  = if decide (a <= a' < a + Z.of_nat (length bytes)) then bytes !!! Z.to_nat (a' - a) else phys_byte a' memory.
Proof.
  induction bytes as [|b bytes IH]; intros a a' memory Hb; cbn [write_bytes length].
  - rewrite decide_False by lia. done.
  - apply Forall_cons in Hb as [Hb Hbs]. rewrite IH by done. rewrite phys_byte_set by done.
    destruct (decide (a' = a)) as [->|Hne].
    + rewrite decide_False, decide_True by lia. by rewrite Z.sub_diag.
    + destruct (decide (a + 1 <= _ < _)) as [H|H].
      * rewrite decide_True by lia. replace (Z.to_nat (a' - a)) with (S (Z.to_nat (a' - (a + 1)))) by lia. done.
      * by rewrite decide_False by lia.
Qed.

(** Words no byte of which is written. *)
Lemma write_bytes_other bytes : forall a w memory,
  (forall i, 0 <= i < Z.of_nat (length bytes) -> word_of (a + i) <> w) ->
  write_bytes a bytes memory w = memory w.
Proof.
  induction bytes as [|b bytes IH]; intros a w memory Hw; cbn [write_bytes length] in *; [done|].
  rewrite IH.
  - unfold set_phys_byte. rewrite fn_lookup_insert_ne; [done|]. specialize (Hw 0 ltac:(lia)). by rewrite Z.add_0_r in Hw.
  - intros i Hi. specialize (Hw (i + 1) ltac:(lia)). by replace (a + (i + 1)) with (a + 1 + i) in Hw by lia.
Qed.

(** Bytes of a page are in its words. *)
Lemma byte_in_page page i : 0 <= i < PAGE_SIZE -> in_page page (word_of (page * PAGE_SIZE + i)).
Proof. unfold in_page, word_of, PAGE_SIZE. intros. Z.div_mod_to_equations. lia. Qed.

Lemma copy_page_byte to from i memory :
  0 <= i < PAGE_SIZE ->
  phys_byte (to * PAGE_SIZE + i) (copy_page (to * PAGE_SIZE) (from * PAGE_SIZE) memory)
  = phys_byte (from * PAGE_SIZE + i) memory.
Proof.
  intros Hi. unfold phys_byte, copy_page.
  assert (Hw : word_of (to * PAGE_SIZE + i) = to * PAGE_SIZE + word_of i
    /\ word_of (from * PAGE_SIZE + i) = from * PAGE_SIZE + word_of i
    /\ byte_shift (to * PAGE_SIZE + i) = byte_shift i /\ byte_shift (from * PAGE_SIZE + i) = byte_shift i
    /\ 0 <= word_of i < PAGE_SIZE).
  { unfold word_of, byte_shift, PAGE_SIZE in *. Z.div_mod_to_equations. lia. }
  destruct Hw as (-> & -> & -> & -> & Hr). rewrite (proj2 (Z.leb_le _ _)), (proj2 (Z.ltb_lt _ _)) by lia. simpl.
  do 3 f_equal. lia.
Qed.

(** ** What is kept *)

Section Properties.

Context (first last : Z) (own : Z -> option owner) (users : Z -> Z).

Abbreviation ok := (caches_ok first last own).

Definition page_byte (page i : Z) (s : cache_state) : Z :=
  phys_byte (page * PAGE_SIZE + i) (memory_of (vm s)).

(** The caches but for their pages; the page tables; and the pages that are in a cache, their
    contents and their flags. *)
Record kept (M : gmap (Z * Z) Z) (s s' : cache_state) : Prop := {
  kept_graph : graph s' = graph s;
  kept_files : (file <$> caches s') = (file <$> caches s);
  kept_maps : maps (vm s') = maps (vm s) /\ kernel_map (vm s') = kernel_map (vm s);
  kept_tables : forall page o a, own page = Some o -> in_page page a -> memory_of (vm s') a = memory_of (vm s) a;
  kept_pages : forall k page a, M !! k = Some page -> in_page page a -> memory_of (vm s') a = memory_of (vm s) a;
  kept_struct : forall k page p, M !! k = Some page -> page_struct page s = Done p ->
    exists p', page_struct page s' = Done p' /\ busy p' = busy p /\ dirty p' = dirty p
}.

Lemma kept_refl M s : kept M s s.
Proof. constructor; try done. intros k page p _ Hp. by exists p. Qed.

Lemma kept_trans M M' s s' s'' : M ⊆ M' -> kept M s s' -> kept M' s' s'' -> kept M s s''.
Proof.
  intros Hsub [H1 H2 [H3 H3'] H4 H5 H6] [K1 K2 [K3 K3'] K4 K5 K6]. constructor; try (split; congruence); try congruence.
  - intros page o a Ho Ha. rewrite (K4 page o a Ho Ha). by apply (H4 page o).
  - intros k page a Hk Ha. rewrite (K5 k page a (lookup_weaken _ _ _ _ Hk Hsub) Ha). by apply (H5 k page).
  - intros k page p Hk Hp. destruct (H6 k page p Hk Hp) as (p' & Hp' & ? & ?).
    destruct (K6 k page p' (lookup_weaken _ _ _ _ Hk Hsub) Hp') as (p'' & ? & ? & ?). exists p''. split_and!; congruence.
Qed.

Lemma kept_byte M s s' k page i :
  kept M s s' -> M !! k = Some page -> 0 <= i < PAGE_SIZE -> page_byte page i s' = page_byte page i s.
Proof.
  intros Hk HM Hi. unfold page_byte, phys_byte. by rewrite (kept_pages _ _ _ Hk k page _ HM (byte_in_page page i Hi)).
Qed.

Lemma kept_cache M s s' c x : kept M s s' -> caches s !! c = Some x ->
  exists x', caches s' !! c = Some x' /\ file x' = file x /\ source x' = source x.
Proof.
  intros Hk Hx. pose proof (kept_files _ _ _ Hk) as Hf. pose proof (kept_graph _ _ _ Hk) as Hg.
  apply (f_equal (fun m : gmap Z Z => m !! c)) in Hf. apply (f_equal (fun m : gmap Z (Z * Z) => m !! c)) in Hg.
  unfold graph in Hg. rewrite !lookup_fmap, Hx in Hf. rewrite !lookup_fmap, Hx in Hg. destruct (caches s' !! c) as [x'|]; [|done].
  injection Hf as Hf. injection Hg as _ Hg. by exists x'.
Qed.

Lemma same_caches_kept M s s' :
  same_caches s s' ->
  (forall k page p, M !! k = Some page -> page_struct page s = Done p ->
    exists p', page_struct page s' = Done p' /\ busy p' = busy p /\ dirty p' = dirty p) -> kept M s s'.
Proof.
  intros (Hg & Hf & _ & Hp & Hm & Hk & _) Hs. constructor; try done.
  - intros page o a _ _. unfold memory_of. by rewrite Hp.
  - intros k page a _ _. unfold memory_of. by rewrite Hp.
Qed.

(** A cached page: its number is not that of a table, nor of another place. *)
Lemma cached_page holds M s k page :
  ok holds users M s -> M !! k = Some page -> first <= page < last /\ own page = None /\ 0 < page.
Proof.
  intros Hs Hk. destruct (caches_page _ _ _ _ _ _ _ Hs k page Hk) as (? & ? & _).
  pose proof (tables_memory _ _ _ _ (caches_tables _ _ _ _ _ _ _ Hs)) as [? _]. split_and!; lia || done.
Qed.

Lemma in_page_inj page page' a : in_page page a -> in_page page' a -> page = page'.
Proof. unfold in_page, PAGE_SIZE. lia. Qed.

(** Writing to a page that is no table. *)
Lemma set_phys_ok holds M s page f :
  ok holds users M s -> own page = None ->
  (forall a, ~ in_page page a -> f (memory_of (vm s)) a = memory_of (vm s) a) ->
  ok holds users M (set_phys f s)
  /\ (forall M', (forall k, M' !! k <> Some page) -> kept M' s (set_phys f s)).
Proof.
  intros [Ht Hi Hp Ho Hg] Hnone Hf. split.
  - constructor; [|by apply (index_frame M s); [| |intros q p _ Hq; exists p|]|exact Hp|exact Ho|exact Hg].
    apply (tables_ok_memory first last own (vm s)); [done|by exists f|].
    intros sp q slot Hq Hslot. apply Hf. intros Ha. apply word_in_page in Ha; [congruence|done].
  - intros M' HM'. constructor; try done.
    + intros q o a Hq Ha. apply Hf. intros Ha'. rewrite (in_page_inj page q a Ha' Ha) in Hnone. congruence.
    + intros k q a Hq Ha. apply Hf. intros Ha'. apply (HM' k). by rewrite (in_page_inj page q a Ha' Ha).
    + intros k q p _ Hq. by exists p.
Qed.

(** A page of its own, busy, at a place that had none. *)
Lemma insert_busy_page_ok holds M s c offset :
  ok holds users M s -> cache_lock s = true -> is_Some (caches s !! c) -> is_u32 offset ->
  PAGE_ALIGN offset = offset -> M !! (c, offset) = None ->
  (exists page s', insert_busy_page c offset s = Done (page, s')
    /\ ok holds users (<[(c, offset) := page]> M) s' /\ kept M s s' /\ cache_lock s' = true
    /\ (forall k, M !! k <> Some page) /\ holds page = 0
    /\ (exists p, page_struct page s' = Done p /\ busy p = 1 /\ dirty p = 0)
    /\ (forall i, 0 <= i < PAGE_SIZE -> page_byte page i s' = 0))
  \/ insert_busy_page c offset s = Fault HostExit.
Proof.
  intros Hs Hlock [x Hx] Hu Ha Hnone. unfold insert_busy_page.
  destruct (allocate_page s) as [[page s1]|f] eqn:Halloc; [|right; by rewrite (allocate_page_fails first last own holds users M s f Hs Halloc)].
  left. cbn [bind_result].
  destruct (allocate_page_ok first last own holds users M s page s1 Hs Halloc)
    as (Hs1 & Hh & Hr & Hown & Hnew & [o Hp] & Hstruct & Hmem & [v ->] & Hmaps & Hkmap).
  pose proof (tables_memory _ _ _ _ (caches_tables _ _ _ _ _ _ _ Hs)) as [Hfirst _].
  destruct (set_page_struct_ok first last own _ users M _ page (fun p => p <| busy := 1 |>) Hs1 ltac:(lia) ltac:(done)) as [Hs2 Hsame2].
  set (s1 := s <| vm := v |>) in *. set (s2 := set_busy page 1 s1) in *. change (set_page_struct page _ s1) with s2 in Hs2, Hsame2.
  assert (Hp2 : page_struct page s2 = Done (fresh_page o 1 <| busy := 1 |>)).
  { unfold s2, set_busy. rewrite (page_struct_set page page _ s1 _ ltac:(lia) ltac:(lia) Hp). by rewrite decide_True. }
  destruct (insert_cache_page_ok first last own _ users M s2 c offset page _ Hs2 Hlock ltac:(by eexists) Hu Hr Hown
    ltac:(rewrite fn_lookup_insert; lia) Hnew Hp2 eq_refl ltac:(by rewrite Ha)) as (s3 & Hins & Hs3 & Hsame3 & Hstruct3).
  rewrite Hins. cbn [bind_result]. exists page, s3. rewrite Ha in *. split; [done|].
  destruct Hsame3 as (Hg3 & Hf3 & Hl3 & Hph3 & Hm3 & Hk3 & _).
  assert (Hmem3 : forall a, memory_of (vm s3) a = if decide (in_page page a) then 0 else memory_of (vm s) a).
  { intros a. unfold memory_of. rewrite Hph3. apply Hmem. }
  split_and!.
  - destruct Hs3 as [? ? Hpage Hother ?]. constructor; try done.
    + intros k q Hk. destruct (Hpage k q Hk) as (H1 & H2 & H3 & H4). revert H3 H4.
      destruct (decide (q = page)) as [->|]; [rewrite !fn_lookup_insert|by rewrite !fn_lookup_insert_ne by congruence].
      intros. rewrite Hh. split_and!; lia || done.
    + intros q H1 H2 H3. rewrite (Hother q H1 H2 H3).
      destruct (decide (q = page)) as [->|]; [rewrite !fn_lookup_insert; lia|by rewrite !fn_lookup_insert_ne by congruence].
  - constructor; try done.
    + split; [by rewrite Hm3|by rewrite Hk3].
    + intros q o' a Hq Hin. rewrite Hmem3, decide_False; [done|]. intros Hin'. by rewrite (in_page_inj page q a Hin' Hin) in Hown; rewrite Hq in Hown.
    + intros k q a Hk Hin. rewrite Hmem3, decide_False; [done|]. intros Hin'. apply (Hnew k). by rewrite (in_page_inj page q a Hin' Hin).
    + intros k q p Hk Hq. destruct (cached_page holds M s k q Hs Hk) as (_ & _ & Hq0).
      assert (q <> page) by (intros ->; by apply (Hnew k)).
      rewrite Hstruct3, decide_False by lia. unfold s2, set_busy. rewrite (page_struct_set page q _ s1 _ ltac:(lia) ltac:(lia) Hp).
      rewrite decide_False by done. rewrite Hstruct by lia. by exists p.
  - by rewrite Hl3.
  - done.
  - done.
  - eexists. rewrite Hstruct3, decide_True by lia. by split_and!.
  - intros i Hi. unfold page_byte, phys_byte. rewrite Hmem3, decide_True by (by apply byte_in_page). by rewrite Z.shiftr_0_l.
Qed.

(** ** What a place of a cache holds *)

Context (read_file : Z -> Z -> Z -> option (list Z)).

(** The file system stores no more than it was asked for. *)
Definition reads_ok : Prop := forall handle offset size bytes,
  0 < size -> read_file handle offset size = Some bytes ->
  Z.of_nat (length bytes) <= size /\ Forall (fun b => 0 <= b < 256) bytes.

Definition file_bytes (handle offset size : Z) : option (list Z) :=
  if 0 <? size then read_file handle offset size else Some [].

(** The contents of the page of cache [c] at [offset], if a file answers for at most [size]
    bytes of it: those of the page in the cache; or what its file has, and zeros; or what its
    source has; a chain that ends holds zeros. *)
Inductive serves (M : gmap (Z * Z) Z) (s : cache_state) (offset size : Z) : Z -> (Z -> Z) -> Prop :=
| serves_page c x page K :
    caches s !! c = Some x -> M !! (c, offset) = Some page ->
    (forall i, 0 <= i < PAGE_SIZE -> K i = page_byte page i s) ->
    serves M s offset size c K
| serves_file c x bytes K :
    caches s !! c = Some x -> M !! (c, offset) = None -> file x <> 0 ->
    file_bytes (file x) offset size = Some bytes ->
    (forall i, 0 <= i < PAGE_SIZE -> K i = nth (Z.to_nat i) bytes 0) ->
    serves M s offset size c K
| serves_source c x K :
    caches s !! c = Some x -> M !! (c, offset) = None -> file x = 0 ->
    serves M s offset size (source x) K -> serves M s offset size c K
| serves_zero K : (forall i, 0 <= i < PAGE_SIZE -> K i = 0) -> serves M s offset size 0 K.

Definition same_bytes (K K' : Z -> Z) : Prop := forall i, 0 <= i < PAGE_SIZE -> K i = K' i.

Lemma serves_det holds M s offset size c K K' :
  ok holds users M s -> serves M s offset size c K -> serves M s offset size c K' -> same_bytes K K'.
Proof.
  intros Hs HK. assert (H0 : caches s !! 0 = None).
  { destruct (caches s !! 0) as [x|] eqn:Hx; [|done].
    by destruct (graph_count _ _ (caches_graph _ _ _ _ _ _ _ Hs) _ _ _ (graph_lookup _ _ _ Hx)). }
  revert K'. induction HK as [c x page K Hx Hk HK|c x bytes K Hx Hk Hf Hr HK|c x K Hx Hk Hf _ IH|K HK];
    intros K' HK'; inversion HK'; subst; try congruence; intros i Hi.
  - rewrite HK by done. assert (page0 = page) as -> by congruence. symmetry. auto.
  - assert (x0 = x) as -> by congruence. assert (bytes0 = bytes) as -> by congruence. rewrite HK by done. symmetry. auto.
  - assert (x0 = x) as -> by congruence. by apply IH.
  - rewrite HK by done. symmetry. auto.
Qed.

Lemma serves_ext M s offset size c K K' :
  serves M s offset size c K -> same_bytes K' K -> serves M s offset size c K'.
Proof.
  intros HK. revert K'. induction HK as [c x page K Hx Hk HK|c x bytes K Hx Hk Hf Hr HK|c x K Hx Hk Hf _ IH|K HK]; intros K' He.
  - eapply serves_page; [done|done|]. intros i Hi. rewrite He by done. by apply HK.
  - eapply serves_file; try done. intros i Hi. rewrite He by done. by apply HK.
  - eapply serves_source; try done. by apply IH.
  - apply serves_zero. intros i Hi. rewrite He by done. by apply HK.
Qed.

(** Pages are added only where they hold what was there: nobody sees a difference. *)
Record grown (M M' : gmap (Z * Z) Z) (offset size : Z) (s s' : cache_state) : Prop := {
  grown_kept : kept M s s';
  grown_sub : M ⊆ M';
  grown_new : forall c o page, M' !! (c, o) = Some page -> M !! (c, o) = None ->
    o = offset /\ serves M s offset size c (fun i => page_byte page i s')
}.

Lemma serves_grown holds M M' offset size s s' o n c K :
  ok holds users M s -> grown M M' offset size s s' -> o <> offset \/ n = size ->
  serves M s o n c K -> serves M' s' o n c K.
Proof.
  intros Hs [Hkept Hsub Hnew] Hon. induction 1 as [c x page K Hx Hk HK|c x bytes K Hx Hk Hf Hr HK|c x K Hx Hk Hf HK IH|K HK].
  - destruct (kept_cache _ _ _ c x Hkept Hx) as (x' & Hx' & _).
    apply (serves_page _ _ _ _ c x' page); [done|by eapply lookup_weaken|].
    intros i Hi. rewrite (kept_byte _ _ _ _ _ _ Hkept Hk Hi). by apply HK.
  - destruct (kept_cache _ _ _ c x Hkept Hx) as (x' & Hx' & Hf' & _).
    destruct (M' !! (c, o)) as [page|] eqn:Hk'.
    + destruct (Hnew c o page Hk' Hk) as [-> Hserves]. destruct Hon as [?| ->]; [done|].
      apply (serves_page _ _ _ _ c x' page); [done|done|].
      apply (serves_det holds M s offset size c); [done|by eapply serves_file|done].
    + eapply serves_file; try done; by rewrite Hf'.
  - destruct (kept_cache _ _ _ c x Hkept Hx) as (x' & Hx' & Hf' & Hsrc).
    destruct (M' !! (c, o)) as [page|] eqn:Hk'.
    + destruct (Hnew c o page Hk' Hk) as [-> Hserves]. destruct Hon as [?| ->]; [done|].
      apply (serves_page _ _ _ _ c x' page); [done|done|].
      apply (serves_det holds M s offset size c); [done|by eapply serves_source|done].
    + eapply serves_source; [done|done|by rewrite Hf'|by rewrite Hsrc].
  - by apply serves_zero.
Qed.

(** The bytes to read are those of the page that the area has, if the area is not larger than
    an int can count. *)
Lemma bytes_to_read_ok area area_offset :
  is_u32 (cache_length area) -> 0 <= area_offset < 2 ^ 31 ->
  bytes_to_read area area_offset = Z.min PAGE_SIZE (cache_length area - area_offset).
Proof.
  intros Hl Ho. unfold bytes_to_read, PAGE_SIZE, is_u32, is_unsigned in *.
  destruct (Z.ltb_spec (cache_length area) area_offset); simpl.
  - unfold s32, signed, u32. rewrite <- (Z_mod_plus_full (cache_length area - area_offset) 1), Z.mod_mod by lia.
    rewrite Z.mod_small by lia. cbv zeta. destruct (Z.ltb_spec (cache_length area - area_offset + 1 * 2 ^ 32) (2 ^ (32 - 1))); lia.
  - rewrite u32_small by lia. destruct (Z.ltb_spec (cache_length area - area_offset) 0x1000); [|lia].
    rewrite s32_small by lia. lia.
Qed.

(** ** Reading a page from a file *)

Context (Hreads : reads_ok).

Lemma lock_step M s b : kept M s (s <| cache_lock := b |>).
Proof. constructor; try done. intros k page p _ Hp. by exists p. Qed.

Lemma page_absent holds M s page k q :
  ok holds users M s -> (forall k, M !! k <> Some page) -> M !! k = Some q -> q <> page.
Proof. intros _ Hnew Hk ->. by apply (Hnew k). Qed.

Lemma set_busy_ok holds M M' s page value p :
  ok holds users M s -> 0 <= page -> page_struct page s = Done p ->
  ok holds users M (set_busy page value s)
  /\ page_struct page (set_busy page value s) = Done (p <| busy := value |>)
  /\ graph (set_busy page value s) = graph s
  /\ ((forall k, M' !! k <> Some page) -> (forall k q, M' !! k = Some q -> 0 <= q) -> kept M' s (set_busy page value s)).
Proof.
  intros Hs H0 Hp. destruct (set_page_struct_ok first last own _ users M s page (fun p => p <| busy := value |>) Hs H0 ltac:(done)) as [Hs' Hsame].
  split; [exact Hs'|]. split; [|split; [done|]].
  - unfold set_busy. rewrite (page_struct_set page page _ s _ H0 H0 Hp). by rewrite decide_True.
  - intros Hnew Hpos. apply same_caches_kept; [exact Hsame|]. intros k q p' Hk Hq. exists p'. split; [|done].
    unfold set_busy. rewrite (page_struct_set page q _ s _ H0 (Hpos k q Hk) Hp). rewrite decide_False; [done|].
    intros ->. by apply (Hnew k).
Qed.

Lemma file_write_byte page bytes size memory i :
  0 <= i < PAGE_SIZE -> Z.of_nat (length bytes) <= Z.max size 0 <= PAGE_SIZE ->
  Forall (fun b => 0 <= b < 256) bytes -> phys_byte (page * PAGE_SIZE + i) memory = 0 ->
  phys_byte (page * PAGE_SIZE + i)
    (write_bytes (page * PAGE_SIZE + Z.max size 0) (replicate (Z.to_nat (PAGE_SIZE - Z.max size 0)) 0)
       (write_bytes (page * PAGE_SIZE) bytes memory)) = nth (Z.to_nat i) bytes 0.
Proof.
  intros Hi Hlen Hb Hz. rewrite write_bytes_lookup by (apply Forall_replicate; lia). rewrite length_replicate.
  assert (Hover : Z.of_nat (length bytes) <= i -> nth (Z.to_nat i) bytes 0 = 0) by (intros; apply nth_overflow; lia).
  destruct (decide (_ <= _ < _)) as [H|H].
  - rewrite lookup_total_replicate_2 by lia. symmetry. apply Hover. lia.
  - rewrite write_bytes_lookup by done. destruct (decide (_ <= _ < _)) as [H'|H'].
    + replace (page * PAGE_SIZE + i - page * PAGE_SIZE) with i by lia.
      destruct (lookup_lt_is_Some_2 bytes (Z.to_nat i)) as [b Hl]; [lia|].
      rewrite (list_lookup_total_correct _ _ _ Hl). symmetry. by apply nth_lookup_Some.
    + rewrite Hz. symmetry. apply Hover. lia.
Qed.

Lemma file_write_other page bytes size memory a :
  Z.of_nat (length bytes) <= Z.max size 0 <= PAGE_SIZE -> ~ in_page page a ->
  write_bytes (page * PAGE_SIZE + Z.max size 0) (replicate (Z.to_nat (PAGE_SIZE - Z.max size 0)) 0)
    (write_bytes (page * PAGE_SIZE) bytes memory) a = memory a.
Proof.
  intros Hlen Ha. rewrite !write_bytes_other; try done.
  - intros i Hi Heq. apply Ha. rewrite <- Heq. apply byte_in_page. lia.
  - rewrite length_replicate. intros i Hi Heq. apply Ha. rewrite <- Heq, <- Z.add_assoc. apply byte_in_page. lia.
Qed.

(** What the search finds: a page with the bytes asked for, not busy. *)
Definition found_page (M : gmap (Z * Z) Z) (s : cache_state) (c offset page : Z) (K : Z -> Z) : Prop :=
  M !! (c, offset) = Some page /\ (forall i, 0 <= i < PAGE_SIZE -> K i = page_byte page i s)
  /\ exists p, page_struct page s = Done p /\ busy p = 0.

Lemma read_cache_page_ok holds M s c x offset area_offset area dummy cow bytes :
  ok holds users M s -> cache_lock s = true -> caches s !! c = Some x -> is_u32 offset ->
  PAGE_ALIGN offset = offset -> M !! (c, offset) = None ->
  bytes_to_read area area_offset <= PAGE_SIZE ->
  file_bytes (file x) offset (bytes_to_read area area_offset) = Some bytes ->
  (exists page s', read_cache_page read_file (file x) c offset area_offset area dummy cow s
      = Done (Searched (Some page) dummy cow s')
    /\ ok holds users (<[(c, offset) := page]> M) s' /\ kept M s s' /\ cache_lock s' = true
    /\ (forall k, M !! k <> Some page) /\ holds page = 0
    /\ found_page (<[(c, offset) := page]> M) s' c offset page (fun i => nth (Z.to_nat i) bytes 0)
    /\ exists p, page_struct page s' = Done p /\ dirty p = 0)
  \/ read_cache_page read_file (file x) c offset area_offset area dummy cow s = Fault HostExit.
Proof.
  intros Hs Hlock Hx Hu Ha Hnone Hsize Hbytes. unfold read_cache_page.
  destruct (insert_busy_page_ok holds M s c offset Hs Hlock ltac:(by eexists) Hu Ha Hnone)
    as [(page & s1 & -> & Hs1 & Hk1 & Hl1 & Hnew & Hh & (p & Hp & Hb & Hd) & Hzero)| ->]; [left|by right].
  cbn [bind_result]. unfold unlock_vm_cache. rewrite Hl1. cbn [kassert bind_result]. cbv zeta.
  set (n := bytes_to_read area area_offset) in *. unfold file_bytes in Hbytes. rewrite Hbytes.
  assert (Hlen : Z.of_nat (length bytes) <= Z.max n 0 <= PAGE_SIZE /\ Forall (fun b => 0 <= b < 256) bytes).
  { destruct (Z.ltb_spec 0 n); [destruct (Hreads _ _ _ _ ltac:(done) Hbytes) as [? ?]|injection Hbytes as <-]; split; simpl; try done;
      unfold PAGE_SIZE in *; lia. }
  destruct Hlen as [Hlen Hrange].
  set (M1 := <[(c, offset) := page]> M) in *.
  assert (HM1 : M1 !! (c, offset) = Some page) by apply lookup_insert_eq.
  destruct (cached_page holds M1 s1 (c, offset) page Hs1 HM1) as (Hr & Hown & H0).
  rewrite (page_to_pa_small first last _ page (tables_pages _ _ _ _ (caches_tables _ _ _ _ _ _ _ Hs1)) Hr).
  set (s2 := s1 <| cache_lock := false |>).
  assert (Hs2 : ok holds users M1 s2) by (by apply ok_lock).
  set (g := fun memory => write_bytes (page * PAGE_SIZE + Z.max n 0) (replicate (Z.to_nat (PAGE_SIZE - Z.max n 0)) 0)
              (write_bytes (page * PAGE_SIZE) bytes memory)).
  change (set_phys (write_bytes (page * PAGE_SIZE + Z.max n 0) (replicate (Z.to_nat (PAGE_SIZE - Z.max n 0)) 0))
    (set_phys (write_bytes (page * PAGE_SIZE) bytes) s2)) with (set_phys g s2).
  destruct (set_phys_ok holds M1 s2 page g Hs2 Hown) as [Hs3 Hk3].
  { intros a Hin. by apply file_write_other. }
  set (s3 := set_phys g s2) in *. unfold lock_vm_cache. change (cache_lock s3) with false. cbn [bind_result].
  set (s4 := s3 <| cache_lock := true |>).
  assert (Hs4 : ok holds users M1 s4) by (by apply ok_lock).
  destruct (set_busy_ok holds M1 M s4 page 0 p Hs4 ltac:(lia) Hp) as (Hs5 & Hp5 & _ & Hk5).
  exists page, (set_busy page 0 s4). split; [done|]. split; [done|]. split; [|split; [done|split; [done|split; [done|split]]]].
  - eapply (kept_trans M M); [done| |apply Hk5; [done|]].
    + eapply (kept_trans M M); [done|exact Hk1|]. eapply (kept_trans M M); [done|apply (lock_step _ _ false)|].
      eapply (kept_trans M M); [done|by apply Hk3|apply lock_step].
    + intros k q Hk. destruct (cached_page holds M s k q Hs Hk). lia.
  - split; [done|]. split; [|by eexists].
    intros i Hi. symmetry. apply file_write_byte; try done. change (memory_of (vm s2)) with (memory_of (vm s1)). by apply Hzero.
  - by eexists.
Qed.

(** ** The search *)

Definition idle (M : gmap (Z * Z) Z) (s : cache_state) : Prop :=
  forall k page, M !! k = Some page -> exists p, page_struct page s = Done p /\ busy p = 0.

Lemma idle_kept M s s' k page :
  idle M s -> kept M s s' -> M !! k = Some page -> exists p, page_struct page s' = Done p /\ busy p = 0.
Proof.
  intros Hi Hkept Hk. destruct (Hi k page Hk) as (p & Hp & Hb).
  destruct (kept_struct _ _ _ Hkept k page p Hk Hp) as (p' & ? & ? & ?). exists p'. split; [done|congruence].
Qed.

(** A page that was there, or a clean one. *)
Definition old_or_clean (M : gmap (Z * Z) Z) (s : cache_state) (c offset page : Z) : Prop :=
  M !! (c, offset) = Some page \/ exists p, page_struct page s = Done p /\ dirty p = 0.

Section Search.

Context (holds : Z -> Z) (M : gmap (Z * Z) Z) (s : cache_state) (area : vm_area) (offset area_offset : Z).
Context (depth : Z -> nat).

Let size := bytes_to_read area area_offset.

Context (Hs : ok holds users M s) (Hidle : idle M s) (Hu : is_u32 offset) (Ha : PAGE_ALIGN offset = offset).
Context (Hsize : size <= PAGE_SIZE).
Context (Hdepth : forall c n src, graph s !! c = Some (n, src) -> src <> 0 -> (depth src < depth c)%nat).

Lemma cache_not_0 c x : caches s !! c = Some x -> c <> 0.
Proof. intros Hx. by destruct (graph_count _ _ (caches_graph _ _ _ _ _ _ _ Hs) _ _ _ (graph_lookup _ _ _ Hx)). Qed.

Lemma depth_source c x : caches s !! c = Some x -> source x <> 0 -> (depth (source x) < depth c)%nat.
Proof. intros Hx. apply (Hdepth _ _ _ (graph_lookup _ _ _ Hx)). Qed.

(** Below the area's cache, which has a page of its own by now. *)
Lemma search_rest c K d s1 fuel :
  serves M s offset size c K ->
  let M1 := <[(cache area, offset) := d]> M in
  ok holds users M1 s1 -> cache_lock s1 = true -> M !! (cache area, offset) = None -> kept M s s1 ->
  (c <> 0 -> (depth c < fuel)%nat /\ (depth c < depth (cache area))%nat) ->
  (exists src M2 s2,
    search_caches read_file fuel c offset area_offset area (Some d) true s1 = Done (Searched src (Some d) true s2)
    /\ ok holds users M2 s2 /\ cache_lock s2 = true /\ kept M1 s1 s2 /\
    match src with
    | None => M2 = M1 /\ same_bytes K (fun _ => 0)
    | Some page => exists c', c' <> cache area /\ found_page M2 s2 c' offset page K /\ old_or_clean M s2 c' offset page
        /\ (M2 = M1 \/ M2 = <[(c', offset) := page]> M1 /\ M !! (c', offset) = None /\ serves M s offset size c' K)
    end)
  \/ search_caches read_file fuel c offset area_offset area (Some d) true s1 = Fault HostExit.
Proof.
  intros HK M1 Hs1 Hl1 Hca Hkept. revert fuel.
  assert (HM1 : forall c, c <> cache area -> M1 !! (c, offset) = M !! (c, offset)).
  { intros c0 Hne. unfold M1. apply lookup_insert_ne. congruence. }
  induction HK as [c x page K Hx Hk HK|c x bytes K Hx Hk Hf Hr HK|c x K Hx Hk Hf HK IH|K HK]; intros fuel Hc.
  4: { left. exists None, M1, s1. split; [by destruct fuel|]. split_and!; try done. apply kept_refl. }
  all: pose proof (cache_not_0 c x Hx) as Hc0; destruct (Hc Hc0) as [Hfuel Hlt].
  all: assert (Hne : c <> cache area) by (intros ->; lia).
  all: destruct fuel as [|fuel]; [lia|]; cbn [search_caches]; rewrite (proj2 (Z.eqb_neq _ _) Hc0).
  all: rewrite (lookup_ok M1 s1 c offset (caches_index _ _ _ _ _ _ _ Hs1) Hl1), Ha, (HM1 c Hne), Hk; cbn [bind_result].
  all: destruct (kept_cache _ _ _ c x Hkept Hx) as (x' & Hx' & Hfile & Hsource).
  - left. exists (Some page), M1, s1. split; [done|]. split; [done|]. split; [done|]. split; [apply kept_refl|].
    exists c. split; [done|]. split; [|split; [by left|by left]]. split; [by rewrite HM1|].
    split; [|by apply (idle_kept M s s1 (c, offset))].
    intros i Hi. rewrite HK by done. symmetry. by apply (kept_byte M s s1 (c, offset)).
  - unfold get_cache. rewrite Hx'. cbn [bind_result]. rewrite (proj2 (Z.eqb_neq (file x') 0)) by congruence. cbn [negb].
    destruct (read_cache_page_ok holds M1 s1 c x' offset area_offset area (Some d) true bytes Hs1 Hl1 Hx' Hu Ha
      ltac:(by rewrite HM1) Hsize ltac:(by rewrite Hfile))
      as [(page & s2 & -> & Hs2 & Hk2 & Hl2 & Hnew & _ & Hfound & Hclean)| ->]; [left|by right].
    exists (Some page), (<[(c, offset) := page]> M1), s2. split; [done|]. split; [done|]. split; [done|]. split; [done|].
    exists c. split; [done|]. split; [|split; [by right|right; split; [done|split; [done|by eapply serves_file]]]].
    destruct Hfound as (HM & Hb & Hbusy). split; [done|]. split; [|done]. intros i Hi. rewrite HK by done. by apply Hb.
  - unfold get_cache. rewrite Hx'. cbn [bind_result]. rewrite Hfile, Hf. cbn [Z.eqb negb].
    rewrite (proj2 (Z.eqb_neq _ _) Hne). cbn [bind_result]. rewrite Hsource.
    apply IH. intros Hsrc. pose proof (depth_source c x Hx Hsrc). lia.
Qed.

(** The page made for the area's cache while the search goes on. *)
Definition dummy_page (M2 : gmap (Z * Z) Z) (s2 : cache_state) (d : Z) : Prop :=
  M !! (cache area, offset) = None /\ (forall k, M !! k <> Some d) /\ M2 !! (cache area, offset) = Some d
  /\ (exists p, page_struct d s2 = Done p /\ busy p = 1 /\ dirty p = 0)
  /\ (forall i, 0 <= i < PAGE_SIZE -> page_byte d i s2 = 0) /\ holds d = 0.

Lemma search_ok K fuel :
  serves M s offset size (cache area) K -> cache area <> 0 -> cache_lock s = true ->
  (depth (cache area) < fuel)%nat ->
  (exists src dummy cow M2 s2,
    search_caches read_file fuel (cache area) offset area_offset area None false s = Done (Searched src dummy cow s2)
    /\ ok holds users M2 s2 /\ cache_lock s2 = true /\ kept M s s2 /\
    ((cow = false /\ exists page, src = Some page /\ found_page M2 s2 (cache area) offset page K
        /\ old_or_clean M s2 (cache area) offset page
        /\ (M2 = M \/ M2 = <[(cache area, offset) := page]> M /\ M !! (cache area, offset) = None))
     \/ (cow = true /\ exists d, dummy = Some d /\ dummy_page M2 s2 d /\
        ((src = None /\ M2 = <[(cache area, offset) := d]> M /\ same_bytes K (fun _ => 0))
         \/ exists page c', src = Some page /\ c' <> cache area /\ found_page M2 s2 c' offset page K
            /\ old_or_clean M s2 c' offset page
            /\ (M2 = <[(cache area, offset) := d]> M
                \/ M2 = <[(c', offset) := page]> (<[(cache area, offset) := d]> M)
                   /\ M !! (c', offset) = None /\ serves M s offset size c' K)))))
  \/ search_caches read_file fuel (cache area) offset area_offset area None false s = Fault HostExit.
Proof.
  intros HK Hc0 Hlock Hfuel. destruct fuel as [|fuel]; [lia|]. cbn [search_caches]. rewrite (proj2 (Z.eqb_neq _ _) Hc0).
  rewrite (lookup_ok M s _ offset (caches_index _ _ _ _ _ _ _ Hs) Hlock), Ha.
  inversion HK as [c x page K' Hx Hk HK'|c x bytes K' Hx Hk Hf Hr HK'|c x K' Hx Hk Hf HK'|]; subst; rewrite ?Hk; cbn [bind_result]; [| | |done].
  - left. exists (Some page), None, false, M, s. split; [done|]. split; [done|]. split; [done|]. split; [apply kept_refl|].
    left. split; [done|]. exists page. split; [done|]. split; [|split; [by left|by left]]. split; [done|]. split; [done|]. by apply (Hidle (cache area, offset)).
  - unfold get_cache. rewrite Hx. cbn [bind_result]. rewrite (proj2 (Z.eqb_neq _ _) Hf). cbn [negb].
    destruct (read_cache_page_ok holds M s _ x offset area_offset area None false bytes Hs Hlock Hx Hu Ha Hk Hsize Hr)
      as [(page & s2 & -> & Hs2 & Hk2 & Hl2 & Hnew & _ & Hfound & Hclean)| ->]; [left|by right].
    exists (Some page), None, false, (<[(cache area, offset) := page]> M), s2. split; [done|]. split; [done|]. split; [done|]. split; [done|].
    left. split; [done|]. exists page. split; [done|]. split; [|split; [by right|by right]].
    destruct Hfound as (HM & Hb & Hbusy). split; [done|]. split; [|done]. intros i Hi. rewrite HK' by done. by apply Hb.
  - unfold get_cache. rewrite Hx. cbn [bind_result]. rewrite Hf. cbn [Z.eqb negb]. rewrite Z.eqb_refl.
    destruct (insert_busy_page_ok holds M s (cache area) offset Hs Hlock ltac:(by eexists) Hu Ha Hk)
      as [(d & s1 & -> & Hs1 & Hk1 & Hl1 & Hnew & Hh & Hp & Hzero)| ->]; [|by right]. cbn [bind_result].
    assert (Hsrc : source x <> 0 -> (depth (source x) < fuel)%nat /\ (depth (source x) < depth (cache area))%nat).
    { intros Hsrc. pose proof (depth_source _ x Hx Hsrc). lia. }
    destruct (search_rest (source x) K d s1 fuel HK' Hs1 Hl1 Hk Hk1 Hsrc) as [(src & M2 & s2 & -> & Hs2 & Hl2 & Hk2 & Hcase)| ->]; [left|by right].
    assert (Hd1 : (<[(cache area, offset) := d]> M) !! (cache area, offset) = Some d) by apply lookup_insert_eq.
    exists src, (Some d), true, M2, s2. split; [done|]. split; [done|]. split; [done|].
    split; [eapply (kept_trans M); [by apply insert_subseteq|exact Hk1|exact Hk2]|].
    right. split; [done|]. exists d. split; [done|]. split.
    + split; [done|]. split; [done|]. split; [|split; [|split; [|done]]].
      * destruct src as [page|]; [|by destruct Hcase as [-> _]].
        destruct Hcase as (c' & Hne & _ & _ & [-> |(-> & _)]); [done|]. by rewrite lookup_insert_ne by congruence.
      * destruct Hp as (p & Hp & Hb & Hd). destruct (kept_struct _ _ _ Hk2 _ _ p Hd1 Hp) as (p' & ? & ? & ?).
        exists p'. split_and!; congruence.
      * intros i Hi. rewrite (kept_byte _ _ _ _ _ i Hk2 Hd1 Hi). by apply Hzero.
    + destruct src as [page|]; [right|left; by destruct Hcase as [-> ?]].
      destruct Hcase as (c' & Hne & Hfound & Hold & Hgrow). by exists page, c'.
Qed.

(** ** The page to map *)

Lemma grown_same M2 s2 : M2 = M -> kept M s s2 -> grown M M2 offset size s s2.
Proof. intros -> Hk. constructor; [done|done|]. intros c o page H1 H2. congruence. Qed.

Lemma grown_one c page K s2 :
  M !! (c, offset) = None -> kept M s s2 -> serves M s offset size c K ->
  same_bytes K (fun i => page_byte page i s2) -> grown M (<[(c, offset) := page]> M) offset size s s2.
Proof.
  intros Hnone Hk HK Hb. constructor; [done|by apply insert_subseteq|].
  intros c' o page' H1 H2. destruct (decide ((c', o) = (c, offset))) as [[= -> ->]|Hne].
  - rewrite lookup_insert_eq in H1. injection H1 as <-. split; [done|]. eapply serves_ext; [exact HK|].
    intros i Hi. symmetry. by apply Hb.
  - rewrite lookup_insert_ne in H1 by congruence. congruence.
Qed.

Lemma grown_two c c' d page K K' s2 :
  c <> c' -> M !! (c, offset) = None -> M !! (c', offset) = None -> kept M s s2 ->
  serves M s offset size c K -> same_bytes K (fun i => page_byte d i s2) ->
  serves M s offset size c' K' -> same_bytes K' (fun i => page_byte page i s2) ->
  grown M (<[(c', offset) := page]> (<[(c, offset) := d]> M)) offset size s s2.
Proof.
  intros Hne H1 H2 Hk HK Hb HK' Hb'. constructor; [done| |].
  - transitivity (<[(c, offset) := d]> M); apply insert_subseteq; [done|]. by rewrite lookup_insert_ne by congruence.
  - intros e o q Hq Hnone. destruct (decide ((e, o) = (c', offset))) as [[= -> ->]|Hne1].
    + rewrite lookup_insert_eq in Hq. injection Hq as <-. split; [done|]. eapply serves_ext; [exact HK'|].
      intros i Hi. symmetry. by apply Hb'.
    + rewrite lookup_insert_ne in Hq by congruence. destruct (decide ((e, o) = (c, offset))) as [[= -> ->]|Hne2].
      * rewrite lookup_insert_eq in Hq. injection Hq as <-. split; [done|]. eapply serves_ext; [exact HK|].
        intros i Hi. symmetry. by apply Hb.
      * rewrite lookup_insert_ne in Hq by congruence. congruence.
Qed.

(** The page to map, and what has become of the caches. *)
Definition chosen (is_store : bool) (K : Z -> Z) (page : Z) (s' : cache_state) : Prop :=
  exists M' c', ok holds users M' s' /\ cache_lock s' = true /\ grown M M' offset size s s' /\ idle M' s'
    /\ found_page M' s' c' offset page K /\ old_or_clean M s' c' offset page
    /\ (is_store = true -> c' = cache area).

(** The page made for the area's cache becomes its page. *)
Lemma keep_dummy is_store K d M2 s2 s3 :
  dummy_page M2 s2 d -> serves M s offset size (cache area) K ->
  ok holds users M2 s3 -> cache_lock s3 = true -> kept M s s3 ->
  (exists p, page_struct d s3 = Done p /\ dirty p = 0) ->
  same_bytes K (fun i => page_byte d i s3) ->
  (M2 = <[(cache area, offset) := d]> M \/ exists page c' K', c' <> cache area /\ page <> d
     /\ M2 = <[(c', offset) := page]> (<[(cache area, offset) := d]> M) /\ M !! (c', offset) = None
     /\ serves M s offset size c' K' /\ same_bytes K' (fun i => page_byte page i s3)
     /\ exists p, page_struct page s3 = Done p /\ busy p = 0) ->
  chosen is_store K d (set_busy d 0 s3).
Proof.
  intros (Hca & Hnew & Hd & _ & _ & _) HK Hs3 Hl3 Hk3 (p & Hp & Hclean) Hb Hcase.
  destruct (cached_page holds M2 s3 _ d Hs3 Hd) as (_ & _ & H0).
  destruct (set_busy_ok holds M2 M s3 d 0 p Hs3 ltac:(lia) Hp) as (Hs4 & Hp4 & Hg4 & Hk4).
  assert (Hk : kept M s (set_busy d 0 s3)).
  { eapply (kept_trans M M); [done|exact Hk3|]. apply Hk4; [exact Hnew|].
    intros k q Hq. destruct (cached_page holds M s k q Hs Hq). lia. }
  exists M2, (cache area). split; [done|]. split; [done|]. split; [|split; [|split; [|split; [right; by eexists|done]]]].
  - destruct Hcase as [->|(page & c' & K' & Hne & _ & -> & Hnone & HK' & Hb' & _)].
    + by apply (grown_one _ _ K).
    + by apply (grown_two _ _ _ _ K K').
  - intros k q Hq. destruct (decide (q = d)) as [->|Hqd]; [by eexists|].
    assert (Hcases : M !! k = Some q \/ exists p, page_struct q s3 = Done p /\ busy p = 0).
    { destruct Hcase as [->|(page & c' & K' & Hne & Hpd & -> & Hnone & HK' & Hb' & Hbusy)].
      - left. apply lookup_insert_Some in Hq as [[_ ?]|[_ ?]]; [congruence|done].
      - apply lookup_insert_Some in Hq as [[_ <-]|[_ Hq]]; [by right|].
        left. apply lookup_insert_Some in Hq as [[_ ?]|[_ ?]]; [congruence|done]. }
    destruct Hcases as [HM|(p' & Hp' & Hbusy)]; [by apply (idle_kept M s _ k)|].
    exists p'. split; [|done]. unfold set_busy.
    destruct (cached_page holds M2 s3 k q Hs3 Hq) as (_ & _ & Hq0).
    rewrite (page_struct_set d q _ s3 _ ltac:(lia) ltac:(lia) Hp). by rewrite decide_False.
  - split; [done|]. split; [|by eexists]. exact Hb.
Qed.

Lemma choose_ok is_store K src dummy cow M2 s2 :
  serves M s offset size (cache area) K ->
  ok holds users M2 s2 -> cache_lock s2 = true -> kept M s s2 ->
  ((cow = false /\ exists page, src = Some page /\ found_page M2 s2 (cache area) offset page K
        /\ old_or_clean M s2 (cache area) offset page
        /\ (M2 = M \/ M2 = <[(cache area, offset) := page]> M /\ M !! (cache area, offset) = None))
   \/ (cow = true /\ exists d, dummy = Some d /\ dummy_page M2 s2 d /\
      ((src = None /\ M2 = <[(cache area, offset) := d]> M /\ same_bytes K (fun _ => 0))
       \/ exists page c', src = Some page /\ c' <> cache area /\ found_page M2 s2 c' offset page K
          /\ old_or_clean M s2 c' offset page
          /\ (M2 = <[(cache area, offset) := d]> M
              \/ M2 = <[(c', offset) := page]> (<[(cache area, offset) := d]> M)
                 /\ M !! (c', offset) = None /\ serves M s offset size c' K)))) ->
  exists page s', choose_page is_store src dummy cow s2 = Done (page, s') /\ chosen is_store K page s'.
Proof.
  intros HK Hs2 Hl2 Hk2 [(-> & page & -> & Hfound & Hold & HM2)|(-> & d & -> & Hdummy & [(-> & HM2 & HK0)|(page & c' & -> & Hne & Hfound & Hold & HM2)])].
  - exists page, s2. split; [done|]. exists M2, (cache area). split; [done|]. split; [done|].
    split; [|split; [|by split]].
    + destruct HM2 as [HM2|[-> Hnone]]; [by apply grown_same|]. apply (grown_one _ _ K); try done. by destruct Hfound as (_ & ? & _).
    + intros k q Hq. destruct HM2 as [->|[-> Hnone]]; [by apply (idle_kept M s s2 k)|].
      apply lookup_insert_Some in Hq as [[_ <-]|[_ Hq]]; [by destruct Hfound as (_ & _ & ?)|by apply (idle_kept M s s2 k)].
  - cbn [choose_page some_page bind_result]. exists d, (set_busy d 0 s2). split; [done|].
    pose proof Hdummy as (_ & _ & _ & (p & Hp & _ & Hclean) & Hzero & _).
    apply (keep_dummy is_store K d M2 s2 s2); try done; [by eexists| |by left].
    intros i Hi. rewrite HK0 by done. symmetry. by apply Hzero.
  - pose proof Hdummy as (Hca & Hnew & Hd & (p & Hp & Hbusy & Hclean) & Hzero & Hh).
    destruct Hfound as (HM & Hb & Hpbusy).
    assert (Hpd : page <> d).
    { intros ->. pose proof (other_page first last own holds users M2 s2 (cache area) offset d (c', offset) d Hs2 Hd HM eq_refl). congruence. }
    destruct (cached_page holds M2 s2 _ d Hs2 Hd) as (Hrd & Hod & Hd0).
    destruct (cached_page holds M2 s2 _ page Hs2 HM) as (Hrp & Hop & Hp0).
    cbn [choose_page some_page bind_result]. destruct is_store.
    + pose proof (tables_pages _ _ _ _ (caches_tables _ _ _ _ _ _ _ Hs2)) as Hpok.
      rewrite (page_to_pa_small first last _ d Hpok Hrd), (page_to_pa_small first last _ page Hpok Hrp).
      destruct (set_phys_ok holds M2 s2 d (copy_page (d * PAGE_SIZE) (page * PAGE_SIZE)) Hs2 Hod) as [Hs3 Hk3].
      { intros a Hin. unfold copy_page. destruct ((d * PAGE_SIZE <=? a) && (a <? d * PAGE_SIZE + PAGE_SIZE)) eqn:E; [|done].
        exfalso. apply Hin. unfold in_page, PAGE_SIZE in *. bool_to_prop. lia. }
      set (s3 := set_phys _ s2) in *. eexists d, _. split; [reflexivity|].
      assert (Hpage3 : forall i, 0 <= i < PAGE_SIZE -> page_byte page i s3 = page_byte page i s2).
      { intros i Hi. unfold page_byte, phys_byte. f_equal. f_equal. unfold s3, memory_of. simpl. unfold copy_page.
        pose proof (byte_in_page page i Hi) as Hin.
        destruct (_ && _) eqn:E; [|done]. exfalso. apply Hpd. apply (in_page_inj _ _ _ Hin).
        unfold in_page, PAGE_SIZE in *. bool_to_prop. lia. }
      apply (keep_dummy true K d M2 s2 s3); try done.
      * eapply (kept_trans M M); [done|exact Hk2|by apply Hk3].
      * by eexists.
      * intros i Hi. rewrite Hb by done. symmetry. by apply copy_page_byte.
      * destruct HM2 as [->|(-> & Hnone & HK')]; [by left|right]. exists page, c', K. split_and!; try done.
        intros i Hi. rewrite Hpage3 by done. by apply Hb.
    + destruct (release_cache_page first last own holds users M2 s2 (cache area) offset d Hs2 Hl2 Hd)
        as (s3 & Hrel & Hs3 & Hsame & _ & _ & Hstruct).
      apply bind_Done_inv in Hrel as (s0 & Hrem & Hput). rewrite Hrem. cbn [bind_result]. rewrite Hput. cbn [bind_result].
      exists page, s3. split; [done|].
      assert (Hk3 : kept M2 s2 s3).
      { apply same_caches_kept; [done|]. intros k q p' _ Hq. destruct (Hstruct q p' Hq) as (p'' & ? & _ & _ & ? & ?). by exists p''. }
      assert (HMsub : M ⊆ M2).
      { destruct HM2 as [->|(-> & Hnone & _)]; [by apply insert_subseteq|].
        transitivity (<[(cache area, offset) := d]> M); apply insert_subseteq; [done|]. by rewrite lookup_insert_ne by congruence. }
      assert (Hk : kept M s s3) by (by eapply kept_trans).
      assert (Hbytes : same_bytes K (fun i => page_byte page i s3)).
      { intros i Hi. rewrite (kept_byte _ _ _ _ _ i Hk3 HM Hi). by apply Hb. }
      assert (Hpage3 : exists p, page_struct page s3 = Done p /\ busy p = 0).
      { destruct Hpbusy as (p' & Hp' & Hb'). destruct (kept_struct _ _ _ Hk3 _ _ p' HM Hp') as (p'' & ? & ? & _).
        exists p''. split; [done|congruence]. }
      assert (Hold3 : old_or_clean M s3 c' offset page).
      { destruct Hold as [?|(p' & Hp' & Hc')]; [by left|right].
        destruct (kept_struct _ _ _ Hk3 _ _ p' HM Hp') as (p'' & ? & _ & ?). exists p''. split; [done|congruence]. }
      pose proof Hsame as (_ & _ & Hl3 & _). rewrite Hl2 in Hl3.
      destruct HM2 as [->|(-> & Hnone & HK')].
      * rewrite delete_insert_id in Hs3 by done. rewrite lookup_insert_ne in HM by congruence.
        exists M, c'. split; [done|]. split; [done|]. split; [by apply grown_same|]. split; [|by split].
        intros k q Hq. by apply (idle_kept M s s3 k).
      * rewrite delete_insert_ne in Hs3 by congruence. rewrite delete_insert_id in Hs3 by done.
        exists (<[(c', offset) := page]> M), c'. split; [done|]. split; [done|].
        split; [by apply (grown_one _ _ K)|]. split; [|split; [|by split]].
        -- intros k q Hq. apply lookup_insert_Some in Hq as [[_ <-]|[_ Hq]]; [done|by apply (idle_kept M s s3 k)].
        -- split; [apply lookup_insert_eq|]. by split.
Qed.

End Search.

End Properties.

(** ** Mapping the page *)

Lemma map_page_ok first last own holds users M s map va pa :
  caches_ok first last own holds users M s -> 0 <= va < 2 ^ 32 -> kernel_table_present va (vm s) ->
  is_Some (directory_of (space_of map va) (vm s)) ->
  (exists own' s', map_page map va pa s = Done s'
    /\ caches_ok first last own' holds users M s' /\ extends own own'
    /\ caches s' = caches s /\ cache_lock s' = cache_lock s
    /\ (maps (vm s') = maps (vm s) /\ kernel_map (vm s') = kernel_map (vm s))
    /\ (forall k page a, M !! k = Some page -> in_page page a -> memory_of (vm s') a = memory_of (vm s) a)
    /\ (forall k page, M !! k = Some page -> page_struct page s' = page_struct page s)
    /\ (forall sp dir va', directory_of sp (vm s) = Some dir -> in_space sp va' ->
         walk dir va' (memory_of (vm s'))
         = if decide (sp = space_of map va /\ va' / PAGE_SIZE = va / PAGE_SIZE) then pa
           else walk dir va' (memory_of (vm s))))
  \/ map_page map va pa s = Fault HostExit.
Proof.
  intros Hs Hva Hkernel Hdir. pose proof Hs as [Ht Hi Hp Ho Hg]. unfold map_page.
  destruct (vm_map_page map va pa (vm s)) as [v|f] eqn:Hmap; cbn [bind_result];
    [left|right; f_equal; by apply (map_page_fails first last own (vm s) map va pa)].
  destruct (map_page_mapped first last own (vm s) map va pa v Ht Hva Hkernel Hmap)
    as (_ & [(own' & Ht' & Hext & Hothers & Hpages) (Hmaps & Hkm & _) Hwalk]).
  pose proof (tables_memory _ _ _ _ Ht) as [Hfirst _].
  assert (Hsame : (forall q, own' q = None -> own q = None)
    /\ (forall k q, M !! k = Some q -> own' q = None)
    /\ (forall q, 0 <= q -> own' q = None -> refs q (frames v) = refs q (frames (vm s))
         /\ page_struct q (s <| vm := v |>) = page_struct q s)).
  { split; [|split].
    - intros q Hq. destruct (own q) eqn:E; [|done]. by rewrite (Hext _ _ E) in Hq.
    - intros k q Hk. destruct (Hp k q Hk) as (_ & Hnone & ? & Hrefs).
      destruct Hpages as [[-> _]|(page & v' & o & Hget & _ & ->)]; [done|]. rewrite fn_lookup_insert_ne; [done|].
      intros ->. unfold get_page in Hget. apply bind_Done_inv in Hget as ([q' g] & Halloc & Heq). injection Heq as -> _.
      destruct (allocate_ok _ _ _ _ _ (tables_pages _ _ _ _ Ht) Halloc) as (_ & _ & Hz & _). lia.
    - intros q Hq Hnone. destruct Hpages as [[-> Heq]|(page & v' & o & Hget & Heq & ->)].
      + unfold refs, page_struct. simpl. by rewrite Heq.
      + assert (Hne : q <> page) by (intros ->; by rewrite fn_lookup_insert in Hnone).
        destruct (get_page_ok first last own (vm s) page v' Ht Hget) as (_ & _ & Hr & _ & _ & Hrefs & _).
        pose proof (get_page_struct page v' s Hget q Hq ltac:(lia)) as Hstruct. rewrite decide_False in Hstruct by done.
        unfold page_struct in *. simpl in *. rewrite Heq. split; [|exact Hstruct].
        specialize (Hrefs q Hq). rewrite decide_False in Hrefs by done. rewrite <- Hrefs. unfold refs. by rewrite Heq. }
  destruct Hsame as (Hback & Hcached & Hsame). exists own', (s <| vm := v |>).
  split; [done|]. split; [|split_and!; try done].
  - constructor; [exact Ht'| | | |exact Hg].
    + apply (index_frame M s); [done|done| |done]. intros q p Hk Hq. exists p. split; [|done].
      destruct (Hp _ _ Hk) as (? & _). by destruct (Hsame q ltac:(lia) (Hcached _ _ Hk)) as [_ ->].
    + intros k q Hk. destruct (Hp _ _ Hk) as (? & ? & ? & ?). split_and!; try lia; [by eapply Hcached|].
      simpl. destruct (Hsame q ltac:(lia) (Hcached _ _ Hk)) as [-> _]. done.
    + intros q Hq Hnone Hnot. simpl. destruct (Hsame q ltac:(lia) Hnone) as [-> _]. apply Ho; [done|by apply Hback|done].
  - intros k q a Hk Ha. by apply (Hothers q a Ha (Hcached k q Hk)).
  - intros k q Hk. destruct (Hp _ _ Hk) as (? & _). by apply (Hsame q ltac:(lia) (Hcached k q Hk)).
Qed.

Lemma serves_frame read_file M s s' offset size c K :
  (forall c x, caches s !! c = Some x -> exists x', caches s' !! c = Some x' /\ file x' = file x /\ source x' = source x) ->
  (forall k page i, M !! k = Some page -> 0 <= i < PAGE_SIZE -> page_byte page i s' = page_byte page i s) ->
  serves read_file M s offset size c K -> serves read_file M s' offset size c K.
Proof.
  intros Hc Hb. induction 1 as [c x page K Hx Hk HK|c x bytes K Hx Hk Hf Hr HK|c x K Hx Hk Hf _ IH|K HK].
  - destruct (Hc c x Hx) as (x' & Hx' & _). eapply serves_page; [done|done|]. intros i Hi. rewrite HK by done. symmetry. by apply (Hb (c, offset)).
  - destruct (Hc c x Hx) as (x' & Hx' & Hf' & _). eapply serves_file; try done; by rewrite Hf'.
  - destruct (Hc c x Hx) as (x' & Hx' & Hf' & Hs'). eapply serves_source; [done|done|by rewrite Hf'|by rewrite Hs'].
  - by apply serves_zero.
Qed.

Lemma PAGE_ALIGN_idem x : is_u32 x -> PAGE_ALIGN (PAGE_ALIGN x) = PAGE_ALIGN x.
Proof.
  intros Hx. destruct (PAGE_ALIGN_spec x Hx) as (Ha & ? & ?).
  assert (Hu : is_u32 (PAGE_ALIGN x)) by (unfold is_u32, is_unsigned in *; lia).
  rewrite (PAGE_ALIGN_mod (PAGE_ALIGN x) Hu). unfold page_aligned in Ha. lia.
Qed.

(** A store marks its page. *)
Lemma mark_dirty_ok first last own holds users M s page p (is_store : bool) :
  caches_ok first last own holds users M s -> 0 < page -> page_struct page s = Done p ->
  let s' := if is_store then set_page_struct page (fun p => p <| dirty := 1 |>) s else s in
  caches_ok first last own holds users M s' /\ same_caches s s'
  /\ page_struct page s' = Done (if is_store then p <| dirty := 1 |> else p)
  /\ forall q p, 0 <= q -> page_struct q s = Done p -> exists p', page_struct q s' = Done p' /\ busy p' = busy p.
Proof.
  intros Hs H0 Hp. destruct is_store; cbv zeta.
  - destruct (set_page_struct_ok first last own holds users M s page (fun p => p <| dirty := 1 |>) Hs ltac:(lia) ltac:(done)) as [? ?].
    split; [done|]. split; [done|]. split; [by rewrite (page_struct_set page page _ s p), decide_True by (done || lia)|].
    intros q p' Hq Hp'. rewrite (page_struct_set page q _ s p) by (done || lia).
    destruct (decide (q = page)) as [->|]; [|by exists p']. rewrite Hp in Hp'. injection Hp' as <-. by eexists.
  - split; [done|]. split; [done|]. split; [done|]. intros q p' _ Hp'. by exists p'.
Qed.

(** The page is mapped, its reference counted, its dirty flag set by a store. *)
Lemma map_found_ok first last own holds users M k map is_kernel area address is_store page s p :
  caches_ok first last own holds users M s -> cache_lock s = true -> idle M s ->
  M !! k = Some page -> holds page < 2 ^ 31 - 2 -> page_struct page s = Done p ->
  is_u32 address -> kernel_table_present address (vm s) -> is_Some (directory_of (space_of map address) (vm s)) ->
  (exists own' s', map_found map is_kernel area address is_store page s = Done (true, s')
    /\ caches_ok first last own' (<[page := holds page + 1]> holds) users M s' /\ idle M s' /\ cache_lock s' = false
    /\ (maps (vm s') = maps (vm s) /\ kernel_map (vm s') = kernel_map (vm s))
    /\ (forall c x, caches s !! c = Some x -> exists x', caches s' !! c = Some x' /\ file x' = file x /\ source x' = source x)
    /\ (forall k q i, M !! k = Some q -> 0 <= i < PAGE_SIZE -> page_byte q i s' = page_byte q i s)
    /\ (forall sp dir va, directory_of sp (vm s) = Some dir -> in_space sp va ->
         walk dir va (memory_of (vm s'))
         = if decide (sp = space_of map address /\ va / PAGE_SIZE = address / PAGE_SIZE)
           then Z.lor (page * PAGE_SIZE) (fault_flags is_kernel area is_store (is_store || negb (dirty p =? 0)))
           else walk dir va (memory_of (vm s))))
  \/ map_found map is_kernel area address is_store page s = Fault HostExit.
Proof.
  intros Hs Hl Hidle HM Hholds Hp Haddr Hkernel Hdir. unfold map_found.
  destruct (hold_page_ok first last own holds users M s page k Hs HM Hholds) as (s4 & -> & Hs4 & Hsame4 & Hstruct4).
  cbn [bind_result]. pose proof Hsame4 as (_ & _ & Hl4 & _). rewrite Hl in Hl4.
  unfold unlock_vm_cache. rewrite Hl4. cbn [kassert bind_result]. set (s5 := s4 <| cache_lock := false |>).
  destruct (Hstruct4 page p Hp) as (p4 & Hp4 & _ & _ & Hb4 & Hd4).
  assert (Hbusy : busy p = 0) by (destruct (Hidle k page HM) as (p0 & Hp0 & ?); congruence).
  unfold page_busy. change (page_struct page s5) with (page_struct page s4). rewrite Hp4. cbn [bind_result].
  rewrite Hb4, Hbusy. cbn [Z.eqb negb]. cbv zeta.
  destruct (cached_page first last own users _ M s4 _ page Hs4 HM) as (Hr & _ & H0).
  set (holds' := <[page := holds page + 1]> holds) in *.
  assert (Hs5 : caches_ok first last own holds' users M s5) by (by apply ok_lock).
  destruct (mark_dirty_ok first last own holds' users M s5 page p4 is_store Hs5 H0 Hp4) as (Hs6 & Hsame6 & Hp6 & Hstruct6).
  set (s6 := if is_store then _ else s5) in *. rewrite Hp6. cbn [bind_result].
  destruct Hsame4 as (Hg4 & Hf4 & _ & Hph4 & Hm4 & Hkm4 & _), Hsame6 as (Hg6 & Hf6 & Hl6 & Hph6 & Hm6 & Hkm6 & _).
  assert (Hg : graph s6 = graph s) by (rewrite Hg6; exact Hg4).
  assert (Hf : (file <$> caches s6) = (file <$> caches s)) by (rewrite Hf6; exact Hf4).
  assert (Hm : maps (vm s6) = maps (vm s)) by (rewrite Hm6; exact Hm4).
  assert (Hkm : kernel_map (vm s6) = kernel_map (vm s)) by (rewrite Hkm6; exact Hkm4).
  assert (Hph : phys (frames (vm s6)) = phys (frames (vm s))) by (rewrite Hph6; exact Hph4).
  assert (Hmem : memory_of (vm s6) = memory_of (vm s)) by exact Hph.
  assert (Hdir6 : forall sp, directory_of sp (vm s6) = directory_of sp (vm s)).
  { intros [|m]; simpl; [by rewrite Hkm|by rewrite Hm]. }
  rewrite (page_to_pa_small first last _ page (tables_pages _ _ _ _ (caches_tables _ _ _ _ _ _ _ Hs6)) Hr).
  replace (negb (dirty (if is_store then p4 <| dirty := 1 |> else p4) =? 0)) with (is_store || negb (dirty p =? 0))
    by (destruct is_store; [done|simpl; by rewrite Hd4]).
  set (pa := Z.lor (page * PAGE_SIZE) _).
  destruct (map_page_ok first last own holds' users M s6 map address pa Hs6 Haddr) as [(own' & s7 & -> & Hs7 & Hext & Hc7 & Hl7 & [Hm7 Hkm7] & Hmem7 & Hstruct7 & Hwalk7)| ->].
  { intros Hk. rewrite Hkm, Hmem. by apply Hkernel. }
  { by rewrite Hdir6. }
  2: by right.
  left. exists own', s7. split; [done|]. split; [done|]. split; [|split; [|split; [by rewrite Hm7, Hkm7|split; [|split]]]].
  - intros k' q Hk. destruct (Hidle k' q Hk) as (p' & Hp' & Hb'). destruct (Hstruct4 q p' Hp') as (p'' & Hp'' & _ & _ & Hb'' & _).
    destruct (cached_page first last own users _ M s4 _ q Hs4 Hk) as (_ & _ & Hq0).
    destruct (Hstruct6 q p'' ltac:(lia) Hp'') as (p3 & Hp3 & Hb3).
    exists p3. rewrite (Hstruct7 k' q Hk). split; [done|congruence].
  - by rewrite Hl7, Hl6.
  - intros e x Hx. rewrite Hc7. apply (f_equal (fun m : gmap Z Z => m !! e)) in Hf.
    apply (f_equal (fun m : gmap Z (Z * Z) => m !! e)) in Hg. unfold graph in Hg.
    rewrite !lookup_fmap, Hx in Hf. rewrite !lookup_fmap, Hx in Hg. destruct (caches s6 !! e) as [x'|]; [|done].
    injection Hf as Hf. injection Hg as _ Hg. by exists x'.
  - intros k' q i Hk Hi. unfold page_byte, phys_byte. by rewrite (Hmem7 k' q _ Hk (byte_in_page q i Hi)), Hmem.
  - intros sp dir va Hsp Hin. rewrite (Hwalk7 sp dir va) by (by rewrite ?Hdir6). by rewrite Hmem.
Qed.

(** Where in its cache the area has the page of an address, and how much a file may give. *)
Definition area_page (area : vm_area) (address : Z) : Z := PAGE_ALIGN (u32 (address - low_address area)).
Definition fault_offset (area : vm_area) (address : Z) : Z :=
  PAGE_ALIGN (u32 (area_page area address + cache_offset area)).
Definition fault_size (area : vm_area) (address : Z) : Z := bytes_to_read area (area_page area address).

(** ** Serving a fault *)

(** What a fault needs of the state and the area. *)
Record fault_ready (first last : Z) (own : Z -> option owner) (holds users : Z -> Z)
    (M : gmap (Z * Z) Z) (map : Z) (area : vm_area) (address : Z) (s : cache_state) : Prop := {
  ready_ok : caches_ok first last own holds users M s;
  ready_lock : cache_lock s = false;
  ready_idle : idle M s;
  ready_holds : forall page, holds page < 2 ^ 31 - 2;
  ready_cache : cache area <> 0;
  ready_length : is_u32 (cache_length area);
  ready_address : is_u32 address /\ low_address area <= address < low_address area + 2 ^ 31;
  ready_map : is_Some (directory_of (space_of map address) (vm s)) /\ kernel_table_present address (vm s)
}.

(** The fault is served: the page of the address is mapped to a page frame with the contents
    [K]; nothing else about the address spaces changes; the pages of the caches stay there with
    what is in them; a place of a cache that has no page would be served as before, unless it is
    the same offset with another number of bytes of the file ([served_others]); the invariant
    holds, with one more reference to the page.  A store has a page of the area's own cache; a load has a mapping
    that allows stores only if the page was there, and dirty. *)
Record fault_served (read_file : Z -> Z -> Z -> option (list Z)) (first last : Z) (own : Z -> option owner)
    (holds users : Z -> Z) (M : gmap (Z * Z) Z) (map : Z) (is_kernel : bool) (area : vm_area) (address : Z)
    (is_store : bool) (K : Z -> Z) (s s' : cache_state) (own' : Z -> option owner) (M' : gmap (Z * Z) Z)
    (page c' : Z) (is_dirty : bool) : Prop := {
  served_ok : caches_ok first last own' (<[page := holds page + 1]> holds) users M' s' /\ idle M' s'
    /\ cache_lock s' = false;
  served_maps : maps (vm s') = maps (vm s) /\ kernel_map (vm s') = kernel_map (vm s);
  served_page : M' !! (c', fault_offset area address) = Some page;
  served_bytes : forall i, 0 <= i < PAGE_SIZE -> phys_byte (page * PAGE_SIZE + i) (memory_of (vm s')) = K i;
  served_walk : forall sp dir va, directory_of sp (vm s) = Some dir -> in_space sp va ->
    walk dir va (memory_of (vm s'))
    = if decide (sp = space_of map address /\ va / PAGE_SIZE = address / PAGE_SIZE)
      then Z.lor (page * PAGE_SIZE) (fault_flags is_kernel area is_store is_dirty)
      else walk dir va (memory_of (vm s));
  served_store : is_store = true -> c' = cache area;
  served_load : is_store = false -> is_dirty = true -> M !! (c', fault_offset area address) = Some page
    /\ exists p, page_struct page s = Done p /\ dirty p <> 0;
  served_others : forall c o n K', o <> fault_offset area address \/ n = fault_size area address ->
    serves read_file M s o n c K' -> serves read_file M' s' o n c K';
  served_kept : forall k q, M !! k = Some q -> M' !! k = Some q
    /\ forall i, 0 <= i < PAGE_SIZE -> phys_byte (q * PAGE_SIZE + i) (memory_of (vm s')) = phys_byte (q * PAGE_SIZE + i) (memory_of (vm s))
}.

(** [soft_fault] serves the fault, or the machine is out of memory. *)
Lemma soft_fault_ok read_file first last own holds users M map is_kernel area address is_store s K :
  reads_ok read_file -> fault_ready first last own holds users M map area address s ->
  (is_store = true -> Z.land (flags area) AREA_WRITABLE <> 0) ->
  serves read_file M s (fault_offset area address) (fault_size area address) (cache area) K ->
  match soft_fault read_file map is_kernel area address is_store s with
  | Fault f => f = HostExit
  | Done (r, s') => r = true /\ exists own' M' page c' is_dirty,
      fault_served read_file first last own holds users M map is_kernel area address is_store K s s' own' M' page c' is_dirty
  end.
Proof.
  intros Hreads [Hs Hlock Hidle Hholds Hc0 Hlen [Haddr Hrange] [Hdir Hkernel]] Hwritable HK.
  set (offset := fault_offset area address) in *.
  assert (Hpage : 0 <= area_page area address < 2 ^ 31).
  { unfold area_page. rewrite u32_small by lia.
    destruct (PAGE_ALIGN_spec (address - low_address area)) as (_ & ? & ?); [split; lia|lia]. }
  assert (Hsize : fault_size area address <= PAGE_SIZE) by (unfold fault_size; rewrite bytes_to_read_ok by done; lia).
  assert (Hu : is_u32 offset) by (apply is_u32_land, is_u32_u32).
  assert (Ha : PAGE_ALIGN offset = offset) by (apply PAGE_ALIGN_idem, is_u32_u32).
  pose proof (caches_graph _ _ _ _ _ _ _ Hs) as Hg. destruct (graph_depth _ _ Hg) as [depth Hdepth].
  unfold soft_fault. change (PAGE_ALIGN (u32 (address - low_address area))) with (area_page area address).
  change (PAGE_ALIGN (u32 (area_page area address + cache_offset area))) with offset.
  replace (is_store && (Z.land (flags area) AREA_WRITABLE =? 0)) with false.
  2: { symmetry. destruct is_store; [|done]. simpl. apply Z.eqb_neq. by apply Hwritable. }
  unfold lock_vm_cache. rewrite Hlock. cbn [bind_result]. rewrite (proj2 (Z.eqb_neq _ _) Hc0). cbn [negb kassert bind_result].
  cbv zeta. set (s0 := s <| cache_lock := true |>).
  assert (Hs0 : caches_ok first last own holds users M s0) by (by apply ok_lock).
  assert (HK0 : serves read_file M s0 offset (fault_size area address) (cache area) K).
  { apply (serves_frame read_file M s s0); [intros c x Hx; by exists x|done|exact HK]. }
  assert (Hfuel : (depth (cache area) < S (size (caches s0)))%nat).
  { inversion HK as [c x ? ? Hx|c x ? ? Hx|c x ? Hx|]; subst; try congruence.
    all: destruct (Hdepth _ _ _ (graph_lookup _ _ _ Hx)) as [Hlt _]; unfold graph in Hlt; rewrite map_size_fmap in Hlt; simpl; lia. }
  destruct (search_ok first last own users read_file Hreads holds M s0 area offset (area_page area address) depth
    Hs0 Hidle Hu Ha Hsize (fun c n src H => proj2 (Hdepth c n src H)) K _ HK0 Hc0 eq_refl Hfuel)
    as [(src & dummy & cow & M2 & s2 & -> & Hs2 & Hl2 & Hk2 & Hcase)| ->]; [|done]. cbn [bind_result].
  destruct (choose_ok first last own users read_file holds M s0 area offset (area_page area address)
    Hs0 Hidle is_store K src dummy cow M2 s2 HK0 Hs2 Hl2 Hk2 Hcase)
    as (page & s3 & -> & M' & c' & Hs3 & Hl3 & Hgrown & Hidle3 & (HM & Hb & p3 & Hp3 & Hbusy3) & Hold & Hstore). cbn [bind_result].
  pose proof (grown_kept _ _ _ _ _ _ _ _ Hgrown) as Hk3. destruct (kept_maps _ _ _ _ Hk3) as [Hm3 Hkm3].
  assert (Hdir3 : forall sp, directory_of sp (vm s3) = directory_of sp (vm s)).
  { intros [|m]; simpl; [by rewrite Hkm3|by rewrite Hm3]. }
  assert (Hkernel3 : kernel_table_present address (vm s3)).
  { intros Hk. specialize (Hkernel Hk). rewrite Hkm3. change (kernel_map (vm s0)) with (kernel_map (vm s)).
    destruct (tables_dir _ _ _ _ (caches_tables _ _ _ _ _ _ _ Hs) Kernel _ eq_refl) as (pd & Hpd & Hown).
    rewrite Hpd in *. rewrite (kept_tables _ _ _ _ Hk3 pd _ _ Hown); [done|]. apply word_in_page; [|done]. by apply index_range. }
  destruct (map_found_ok first last own holds users M' _ map is_kernel area address is_store page s3 p3
    Hs3 Hl3 Hidle3 HM (Hholds page) Hp3 Haddr Hkernel3 ltac:(by rewrite Hdir3))
    as [(own' & s7 & -> & Hs7 & Hidle7 & Hl7 & [Hm7 Hkm7] & Hcaches7 & Hbytes7 & Hwalk7)| ->]; [|done].
  split; [done|]. exists own', M', page, c', (is_store || negb (dirty p3 =? 0)).
  constructor; try done.
  - rewrite Hm7, Hkm7, Hm3, Hkm3. done.
  - intros i Hi. rewrite Hb by done. by apply (Hbytes7 _ page i HM).
  - intros sp dir va Hsp Hin. rewrite (Hwalk7 sp dir va) by (by rewrite ?Hdir3). destruct (decide _); [done|].
    apply (walk_same first last own (vm s) sp); [by destruct Hs|done|done|].
    intros q o i Hq Hi _. apply (kept_tables _ _ _ _ Hk3 q o); [done|by apply word_in_page].
  - intros -> Hd. simpl in Hd. apply negb_true_iff, Z.eqb_neq in Hd.
    destruct Hold as [HMold|(p & Hp & Hclean)]; [|congruence]. split; [done|].
    destruct (Hidle _ _ HMold) as (p & Hp & _). exists p. split; [done|].
    destruct (kept_struct _ _ _ _ Hk3 _ _ p HMold Hp) as (p' & Hp' & _ & Hd'). congruence.
  - intros c o n K' Hon HK'. apply (serves_frame read_file M' s3 s7); [exact Hcaches7|exact Hbytes7|].
    apply (serves_grown first last own users read_file holds M M' offset (fault_size area address) s0 s3); try done.
    apply (serves_frame read_file M s s0); [intros e x Hx; by exists x|done|done].
  - intros k q Hq. pose proof (lookup_weaken _ _ _ _ Hq (grown_sub _ _ _ _ _ _ _ _ Hgrown)) as Hq'. split; [done|].
    intros i Hi. transitivity (page_byte q i s3); [exact (Hbytes7 k q i Hq' Hi)|exact (kept_byte _ _ _ _ _ _ i Hk3 Hq Hi)].
Qed.

(** A program's data: a file's three bytes behind an image cache, and a copy-on-write cache of
    it behind a writable area. *)
Definition small_file (handle offset size : Z) : option (list Z) := Some (take (Z.to_nat size) [10; 20; 30]).

Lemma small_file_ok : reads_ok small_file.
Proof.
  intros handle offset size bytes Hsize [= <-]. split; [|apply Forall_take; repeat constructor; lia].
  rewrite length_take. lia.
Qed.

Definition no_caches : cache_state := bootstrap_vm_cache (Build_cache_state state_created ∅ [] false).
Definition image_made : cache_state := result_or no_caches (create_vm_cache 0x300 0 0 no_caches).
(** [image_cache->file = file] *)
Definition image_with_file : cache_state :=
  set_cache 0x300 {| page_list := []; file := 7; cache_ref_count := 1; source := 0 |} image_made.
Definition copy_made : cache_state := result_or no_caches (create_vm_cache 0x400 0 0x300 image_with_file).

Definition data_area : vm_area :=
  {| area_ptr := 0x500; low_address := 0x5000; high_address := 0x6fff; cache := 0x400; cache_offset := 0x1000;
     cache_length := 0x1003; flags := AREA_WRITABLE; name := [] |}.

Lemma created_pages_free :
  exists own, tables_ok 2 15 own state_created
    /\ forall page, 2 <= page < 15 -> own page = None -> refs page (frames state_created) = 0.
Proof.
  destruct (create_map_ok 2 15 boot_own boot_state 0x100 state_created boot_tables_ok (lookup_empty _) created_eq)
    as (page & id & bits & m & Hdir & _ & _ & _ & Ht & Hmaps & _).
  set (own := <[page := Some (Directory (User 0x100))]> boot_own) in *. exists own. split; [exact Ht|].
  assert (Hpage : page = 2).
  { assert (Hm : maps state_created !! 0x100 = Some {| page_dir := 2 * PAGE_SIZE; asid := 0 |}) by (vm_compute; reflexivity).
    rewrite Hmaps, lookup_insert_eq in Hm. injection Hm as ->. simpl in Hdir. unfold PAGE_SIZE in *. lia. }
  intros q Hq Hown. assert (q <> 2) by (intros ->; subst own; by rewrite Hpage, fn_lookup_insert in Hown).
  assert (Hall : forallb (fun p => refs p (frames state_created) =? 0) (seqZ 3 12) = true) by (vm_compute; reflexivity).
  rewrite forallb_forall in Hall. apply Z.eqb_eq, Hall. apply list_elem_of_In, elem_of_seqZ. lia.
Qed.

Lemma copy_made_ready : exists own users,
  fault_ready 2 15 own (fun _ => 0) users ∅ 0x100 data_area 0x6004 copy_made.
Proof.
  destruct created_pages_free as (own & Ht & Hfree).
  destruct (run_start_ok 2 15 own state_created [] Ht Hfree) as [H0 _ _ _].
  destruct (create_vm_cache_ok 2 15 own (fun _ => 0) (fun _ => 0) 0x300 0 0 ∅ no_caches H0)
    as (s1 & Hs1 & H1 & Hvm1 & _); [done|done|done|].
  assert (E1 : s1 = image_made) by (unfold image_made; by rewrite Hs1). subst s1.
  assert (H2 : caches_ok 2 15 own (fun _ => 0) (<[0x300 := 1]> (fun _ => 0)) ∅ image_with_file).
  { apply (caches_ok_graph 2 15 own (fun _ => 0) (<[0x300 := 1]> (fun _ => 0)) _ ∅ image_made); [exact H1|done|done| |].
    - intros d. left. simpl. destruct (decide (d = 0x300)) as [->|]; [done|].
      by rewrite !lookup_insert_ne by congruence.
    - assert (graph image_with_file = graph image_made) as -> by (vm_compute; reflexivity).
      exact (caches_graph _ _ _ _ _ _ _ H1). }
  destruct (create_vm_cache_ok 2 15 own (fun _ => 0) (<[0x300 := 1]> (fun _ => 0)) 0x400 0 0x300 ∅ image_with_file H2)
    as (s3 & Hs3 & H3 & Hvm3 & _); [done|done|intros _; eexists; split; [vm_compute; reflexivity|simpl; lia]|].
  assert (E3 : s3 = copy_made) by (unfold copy_made; by rewrite Hs3). subst s3.
  exists own. eexists. constructor; [exact H3|done|by intros|intros; lia|done|by split|split; [by split|simpl; lia]|].
  split; [|intros H; vm_compute in H; congruence]. rewrite Hvm3. by eexists.
Qed.

(** The copy has no page, nor has the image; the file has three bytes. *)
Lemma copy_made_serves :
  serves small_file ∅ copy_made (fault_offset data_area 0x6004) (fault_size data_area 0x6004) (cache data_area)
    (fun i => nth (Z.to_nat i) [10; 20; 30] 0).
Proof.
  eapply (serves_source small_file ∅ copy_made _ _ 0x400); [vm_compute; reflexivity|done|done|].
  eapply (serves_file small_file ∅ copy_made _ _ 0x300); [vm_compute; reflexivity|done|done|vm_compute; reflexivity|done].
Qed.
