(* ===== verification/VmSpace.v ===== *)
(** * VmSpace: address spaces (software/kernel/vm_address_space.c)

    An address space is its area map and its translation map; [None] names the kernel's, the
    others are known by the address of their structure.  The objects the slab allocator gives
    are arguments.  A reader or writer holds the lock [mut] for the whole of each function
    (RwLock), so each is one step. *)

From S2P Require Export VmFault.
From stdpp Require Import list gmap functions.
Import stdpp.list_relations.list.

#[local] Open Scope Z_scope.

(** ** Data *)

Record vm_address_space := { area_map : vm_area_map; translation_map : Z }.

#[export]
Instance vm_address_space_fields : Fields vm_address_space := fun a =>
  Build_vm_address_space (area_map a) (translation_map a).

Record space_state := { cs : cache_state; kernel_address_space : vm_address_space; spaces : gmap Z vm_address_space }.

#[export]
Instance space_state_fields : Fields space_state := fun s =>
  Build_space_state (cs s) (kernel_address_space s) (spaces s).

Definition get_space (sp : option Z) (s : space_state) : result vm_address_space :=
  match sp with
  | None => Done (kernel_address_space s)
  | Some p => match spaces s !! p with Some a => Done a | None => Fault OutOfBounds end
  end.

Definition set_area_map (sp : option Z) (m : vm_area_map) (s : space_state) : space_state :=
  match sp with
  | None => s <| kernel_address_space ::= fun a => a <| area_map := m |> |>
  | Some p => s <| spaces ::= alter (fun a => a <| area_map := m |>) p |>
  end.

Definition is_kernel_space (sp : option Z) : bool := match sp with None => true | Some _ => false end.

(** Operations on the caches and on the page tables, in a state with spaces. *)
Definition on_caches (f : cache_state -> result cache_state) (s : space_state) : result space_state :=
  c <-- f (cs s);; Done (s <| cs := c |>).

Definition on_vm (f : vm_state -> result vm_state) : space_state -> result space_state :=
  on_caches (fun c => v <-- f (vm c);; Done (c <| vm := v |>)).

(** ** Operations *)

Section Operations.

Context (read_file : Z -> Z -> Z -> option (list Z)).

(** The areas of the kernel; [KERNEL_END] is the linker's, [memory_size] the machine's. *)
Definition KERNEL_HEAP_SIZE : Z := 0x01000000.

Definition wire_kernel_area (object : vm_area) (address size : Z) (area_name : list Z) (area_flags : Z)
    (m : vm_area_map) : result vm_area_map :=
  created <-- create_vm_area m object address size PLACE_EXACT area_name area_flags;;
  Done (match created with Some (_, m) => m | None => m end).

Fixpoint wire_stacks (objects : list vm_area) (i : Z) (area_name : list Z) (m : vm_area_map) : result vm_area_map :=
  match objects with
  | [] => Done m
  | object :: objects' =>
      m <-- wire_kernel_area object (u32 (INITIAL_KERNEL_STACKS + i * KERNEL_STACK_SIZE)) KERNEL_STACK_SIZE
              area_name (Z.lor AREA_WIRED AREA_WRITABLE) m;;
      wire_stacks objects' (i + 1) area_name m
  end.

(** The names are those of the code; [kernel], [alias], [heap] and [device] are the objects. *)
Definition vm_address_space_init (map KERNEL_END memory_size : Z) (kernel alias heap device : vm_area)
    (stacks : list vm_area) (names : list (list Z)) (s : space_state) : result space_state :=
  let m := init_area_map KERNEL_BASE 0xffffffff in
  let wired := Z.lor AREA_WIRED AREA_WRITABLE in
  m <-- wire_kernel_area kernel KERNEL_BASE (u32 (KERNEL_END - KERNEL_BASE)) (nth 0 names [])
          (Z.lor wired AREA_EXECUTABLE) m;;
  m <-- wire_kernel_area alias PHYS_MEM_ALIAS memory_size (nth 1 names []) wired m;;
  m <-- wire_kernel_area heap KERNEL_HEAP_BASE KERNEL_HEAP_SIZE (nth 2 names []) wired m;;
  m <-- wire_kernel_area device DEVICE_REG_BASE 0x10000 (nth 3 names []) wired m;;
  m <-- wire_stacks stacks 0 (nth 4 names []) m;;
  Done (s <| kernel_address_space := {| area_map := m; translation_map := map |} |>).

Definition create_address_space (object map_object : Z) (s : space_state) : result space_state :=
  s <-- on_vm (create_translation_map map_object) s;;
  Done (s <| spaces ::= <[object := {| area_map := init_area_map PAGE_SIZE (KERNEL_BASE - 1);
                                       translation_map := map_object |}]> |>).

(** [while ((area = first_area(&space->area_map)) != 0)]: one turn for each area. *)
Fixpoint destroy_areas (fuel : nat) (object : Z) (s : space_state) : result space_state :=
  a <-- get_space (Some object) s;;
  match first_area (area_map a) with
  | None => Done s
  | Some area =>
      match fuel with
      | O => Fault OutOfFuel
      | S fuel' =>
          s <-- (if cache area =? 0 then Done s else on_caches (dec_cache_ref (cache area)) s);;
          destroy_areas fuel' object
            (set_area_map (Some object) (destroy_vm_area (area_ptr area) (area_map a)) s)
      end
  end.

(** The structure is not given back to the slab allocator. *)
Definition destroy_address_space (object : Z) (s : space_state) : result space_state :=
  a <-- get_space (Some object) s;;
  s <-- destroy_areas (length (area_list (area_map a))) object s;;
  on_vm (destroy_translation_map (translation_map a)) s.

(** [for (fault_addr = area->low_address; fault_addr < area->high_address; ...)] *)
Fixpoint wire_pages (fuel : nat) (map : Z) (is_kernel : bool) (area : vm_area) (fault_addr : Z)
    (s : cache_state) : result cache_state :=
  if fault_addr <? high_address area then
    match fuel with
    | O => Fault OutOfFuel
    | S fuel' =>
        '(r, s) <-- soft_fault read_file map is_kernel area fault_addr true s;;
        if (r : bool) then wire_pages fuel' map is_kernel area (u32 (fault_addr + PAGE_SIZE)) s
        else Fault HostExit
    end
  else Done s.

(** The number of pages of an area. *)
Definition area_pages (area : vm_area) : nat := S (Z.to_nat ((high_address area - low_address area) / PAGE_SIZE)).

(** [cache_object] and [old_file] are the cache structure [slab_alloc] gives when one is made. *)
Definition create_area (sp : option Z) (object : vm_area) (cache_object old_file : Z) (address size : Z)
    (place : placement) (area_name : list Z) (area_flags area_cache area_cache_offset : Z) (s : space_state)
    : result (option vm_area * space_state) :=
  s <-- (if area_cache =? 0 then on_caches (create_vm_cache cache_object old_file 0) s
         else on_caches (inc_cache_ref area_cache) s);;
  let new_cache := if area_cache =? 0 then cache_object else area_cache in
  a <-- get_space sp s;;
  created <-- create_vm_area (area_map a) object address size place area_name area_flags;;
  match created with
  | None => Done (None, s)
  | Some (area, m) =>
      let fill (x : vm_area) := x <| cache := new_cache |> <| cache_offset := area_cache_offset |>
                                  <| cache_length := size |> in
      let area := fill area in
      let s := set_area_map sp (update_area (area_ptr area) fill m) s in
      s <-- (if Z.land area_flags AREA_WIRED =? 0 then Done s
             else on_caches (wire_pages (area_pages area) (translation_map a) (is_kernel_space sp) area
                               (low_address area)) s);;
      Done (Some area, s)
  end.

(** [for (offset = 0; offset < size; offset += PAGE_SIZE)] *)
Fixpoint map_pages (fuel : nat) (map va pa page_flags offset size : Z) (s : cache_state) : result cache_state :=
  if offset <? size then
    match fuel with
    | O => Fault OutOfFuel
    | S fuel' =>
        s <-- map_page map (u32 (va + offset)) (Z.lor (u32 (pa + offset)) page_flags) s;;
        map_pages fuel' map va pa page_flags (u32 (offset + PAGE_SIZE)) size s
    end
  else Done s.

Definition contiguous_flags (is_kernel : bool) (area_flags : Z) : Z :=
  let page_flags := PAGE_PRESENT in
  let page_flags := if Z.land area_flags AREA_WRITABLE =? 0 then page_flags else Z.lor page_flags PAGE_WRITABLE in
  let page_flags := if Z.land area_flags AREA_EXECUTABLE =? 0 then page_flags else Z.lor page_flags PAGE_EXECUTABLE in
  if is_kernel then Z.lor page_flags (Z.lor PAGE_SUPERVISOR PAGE_GLOBAL) else page_flags.

Definition map_contiguous_memory (sp : option Z) (object : vm_area) (address size : Z) (place : placement)
    (area_name : list Z) (area_flags phys_addr : Z) (s : space_state) : result (option vm_area * space_state) :=
  let area_flags := Z.lor area_flags AREA_WIRED in
  a <-- get_space sp s;;
  created <-- create_vm_area (area_map a) object address size place area_name area_flags;;
  match created with
  | None => Done (None, s)
  | Some (area, m) =>
      let fill (x : vm_area) := x <| cache := 0 |> in
      let area := fill area in
      let s := set_area_map sp (update_area (area_ptr area) fill m) s in
      s <-- on_caches (map_pages (S (Z.to_nat (size / PAGE_SIZE))) (translation_map a) (low_address area) phys_addr
                         (contiguous_flags (is_kernel_space sp) area_flags) 0 size) s;;
      Done (Some area, s)
  end.

(** [for (va = area->low_address; va < area->high_address; va += PAGE_SIZE)] *)
Fixpoint release_pages (fuel : nat) (map va high : Z) (s : cache_state) : result cache_state :=
  if va <? high then
    match fuel with
    | O => Fault OutOfFuel
    | S fuel' =>
        ptentry <-- query_translation_map map va (vm s);;
        s <-- (if Z.land ptentry PAGE_PRESENT =? 0 then Done s
               else page <-- pa_to_page ptentry (frames (vm s));; put_page page s);;
        release_pages fuel' map (u32 (va + PAGE_SIZE)) high s
    end
  else Done s.

(** [area] is the structure, which is in the map of the space. *)
Definition destroy_area (sp : option Z) (area : vm_area) (s : space_state) : result space_state :=
  a <-- get_space sp s;;
  s <-- on_caches (release_pages (area_pages area) (translation_map a) (low_address area) (high_address area)) s;;
  let s := set_area_map sp (destroy_vm_area (area_ptr area) (area_map a)) s in
  if cache area =? 0 then Done s else on_caches (dec_cache_ref (cache area)) s.

(** [current] is the space of the process that runs. *)
Definition handle_page_fault (current address : Z) (is_store : bool) (s : space_state)
    : result (bool * space_state) :=
  let sp := if KERNEL_BASE <=? address then None else Some current in
  a <-- get_space sp s;;
  match lookup_area (area_map a) address with
  | None => Done (false, s)
  | Some area =>
      '(r, c) <-- soft_fault read_file (translation_map a) (is_kernel_space sp) area address is_store (cs s);;
      Done (r, s <| cs := c |>)
  end.

End Operations.

(** ** Faults *)

(** C16: a page fault makes the address hold what its area's cache holds there.  For an address
    in no area, or a store to an area that may not be written, [handle_page_fault] answers no
    and changes nothing.  Else, if the read of the file that it needs succeeds ([serves] asks for
    that: after a read that fails the new page stays in its cache, free and busy), it answers
    yes, or the machine is out of memory.  The page of the address is mapped, with the area's rights, to a
    page frame with exactly the contents the chain of caches had at that offset - those of the
    resident page, else the file's bytes and zeros, else its source's, else zeros.  Every other
    address of every space is mapped as it was; every page that was in a cache stays there with its
    contents; and any other place of the caches - another offset, or this offset with the same
    number of bytes to read - has the contents it had.  This offset with another number of
    bytes to read may not: an area that counts on other bytes of the file there finds the page
    that this fault read.  A store has a page of the area's own cache; a load maps a page
    for writing only if it was there and dirty. *)
Theorem page_fault_maps_contents read_file first last own holds users M current address is_store s a K :
  let sp := if KERNEL_BASE <=? address then None else Some current in
  reads_ok read_file -> get_space sp s = Done a -> map_ok (area_map a) ->
  (forall area, area ∈ area_list (area_map a) -> covers area address ->
     fault_ready first last own holds users M (translation_map a) area address (cs s)
     /\ serves read_file M (cs s) (fault_offset area address) (fault_size area address) (cache area) (K area)) ->
  match handle_page_fault read_file current address is_store s with
  | Fault f => f = HostExit
  | Done (true, s') =>
      kernel_address_space s' = kernel_address_space s /\ spaces s' = spaces s /\
      exists area own' M' page c' is_dirty, area ∈ area_list (area_map a) /\ covers area address
        /\ (is_store = true -> Z.land (flags area) AREA_WRITABLE <> 0)
        /\ fault_served read_file first last own holds users M (translation_map a) (is_kernel_space sp) area address
             is_store (K area) (cs s) (cs s') own' M' page c' is_dirty
  | Done (false, s') => s' = s /\ forall area, area ∈ area_list (area_map a) -> covers area address ->
      is_store = true /\ Z.land (flags area) AREA_WRITABLE = 0
  end.
Proof.
  intros sp Hreads Ha Hmap Hready. unfold handle_page_fault. fold sp. rewrite Ha. cbn [bind_result].
  destruct (lookup_area (area_map a) address) as [area|] eqn:Hlookup.
  - apply (lookup_area_spec _ _ _ Hmap) in Hlookup as Harea. destruct Harea as [Hin Hcovers].
    destruct (Hready area Hin Hcovers) as [Hr Hserves].
    assert (Hone : forall other, other ∈ area_list (area_map a) -> covers other address -> other = area).
    { intros other Ho Hc. assert (lookup_area (area_map a) address = Some other) by (by apply lookup_area_spec). congruence. }
    destruct (decide (is_store = true /\ Z.land (flags area) AREA_WRITABLE = 0)) as [[-> Hro]|Hw].
    + unfold soft_fault. rewrite Hro. cbn [Z.eqb andb bind_result]. split; [by destruct s|].
      intros other Ho Hc. by rewrite (Hone other Ho Hc).
    + pose proof (soft_fault_ok read_file first last own holds users M (translation_map a) (is_kernel_space sp) area
        address is_store (cs s) (K area) Hreads Hr) as Hfault.
      assert (Hwritable : is_store = true -> Z.land (flags area) AREA_WRITABLE <> 0) by (intros ->; intros ?; by apply Hw).
      specialize (Hfault Hwritable Hserves).
      destruct (soft_fault _ _ _ area _ _ _) as [[r c]|f]; [|done]. cbn [bind_result].
      destruct Hfault as (-> & own' & M' & page & c' & is_dirty & Hserved). split; [done|]. split; [done|].
      by exists area, own', M', page, c', is_dirty.
  - split; [done|]. intros area Hin Hcovers.
    assert (Hsome : lookup_area (area_map a) address = Some area) by (by apply lookup_area_spec). congruence.
Qed.

(** The program of VmFault in an address space. *)
Definition data_space : space_state := {|
  cs := copy_made;
  kernel_address_space := {| area_map := init_area_map KERNEL_BASE 0xffffffff; translation_map := 0 |};
  spaces := {[0x600 := {| area_map := {| map_low := PAGE_SIZE; map_high := KERNEL_BASE - 1; area_list := [data_area] |};
                          translation_map := 0x100 |}]}
|}.

Lemma page_fault_maps_contents_witness :
  exists s', handle_page_fault small_file 0x600 0x6004 true data_space = Done (true, s')
    /\ exists page, walk (2 * PAGE_SIZE) 0x6004 (memory_of (vm (cs s'))) = Z.lor (page * PAGE_SIZE) 3
        /\ phys_byte (page * PAGE_SIZE + 1) (memory_of (vm (cs s'))) = 20
        /\ phys_byte (page * PAGE_SIZE + 5) (memory_of (vm (cs s'))) = 0.
Proof.
  destruct copy_made_ready as (own & users & Hready).
  assert (Hmap : map_ok {| map_low := PAGE_SIZE; map_high := KERNEL_BASE - 1; area_list := [data_area] |}).
  { constructor; simpl; [by split|by split| |by repeat constructor|by repeat constructor; intros ?%elem_of_nil].
    unfold PAGE_SIZE, KERNEL_BASE. lia. }
  pose proof (page_fault_maps_contents small_file 2 15 own (fun _ => 0) users ∅ 0x600 0x6004 true data_space _
    (fun _ i => nth (Z.to_nat i) [10; 20; 30] 0) small_file_ok eq_refl Hmap) as Hfault.
  assert (Hends : match handle_page_fault small_file 0x600 0x6004 true data_space with Done (r, _) => r | _ => false end = true)
    by (vm_compute; reflexivity).
  destruct (handle_page_fault small_file 0x600 0x6004 true data_space) as [[[] s']|f]; [|done|done].
  destruct Hfault as (_ & _ & area & own' & M' & page & c' & is_dirty & Hin & _ & _ & [_ _ _ Hbytes Hwalk _ _ _]).
  { intros area Hin _. apply list_elem_of_singleton in Hin as ->. by split; [|apply copy_made_serves]. }
  exists s'. split; [done|]. exists page. apply list_elem_of_singleton in Hin as ->.
  rewrite (Hwalk (User 0x100) (2 * PAGE_SIZE) 0x6004); [|vm_compute; reflexivity|by split].
  rewrite decide_True by done. split; [by destruct is_dirty|]. by split; rewrite Hbytes by (unfold PAGE_SIZE; lia).
Defined.

(** ** New areas *)

(** What a new anonymous area is, and that faults in it can be served. *)
Lemma new_area_ready read_file first last own holds users M current object cache_object address size place
    area_name area_flags s a area s1 :
  get_space (Some current) s = Done a -> map_ok (area_map a) -> map_high (area_map a) < KERNEL_BASE ->
  sane_request (area_map a) address size place -> area_ptr object ∉ map area_ptr (area_list (area_map a)) ->
  size <= 2 ^ 31 -> caches_ok first last own holds users M (cs s) -> cache_lock (cs s) = false -> idle M (cs s) ->
  (forall page, holds page < 2 ^ 31 - 2) -> caches (cs s) !! cache_object = None -> cache_object <> 0 ->
  is_Some (maps (vm (cs s)) !! translation_map a) -> Z.land area_flags AREA_WIRED = 0 ->
  create_area read_file (Some current) object cache_object 0 address size place area_name area_flags 0 0 s
    = Done (Some area, s1) ->
  exists a', get_space (Some current) s1 = Done a' /\ map_ok (area_map a') /\ translation_map a' = translation_map a
    /\ area ∈ area_list (area_map a') /\ flags area = area_flags /\ vm (cs s1) = vm (cs s)
    /\ forall va, covers area va -> va < KERNEL_BASE
         /\ fault_ready first last own holds (<[cache_object := 1]> users) M (translation_map a) area va (cs s1)
         /\ serves read_file M (cs s1) (fault_offset area va) (fault_size area va) (cache area) (fun _ => 0).
Proof.
  intros Ha Hmap Hhigh Hsane Hfresh Hsize Hs Hlock Hidle Hholds Hnew H0 Hdir Hwired Hcreate.
  unfold create_area in Hcreate. cbn [Z.eqb] in Hcreate. cbv zeta in Hcreate.
  destruct (create_vm_cache_ok first last own holds users cache_object 0 0 M (cs s) Hs Hnew H0 ltac:(done))
    as (c & Hc & Hsc & Hvm & Hl & Hobj & _).
  unfold on_caches in Hcreate. rewrite Hc in Hcreate. cbn [bind_result] in Hcreate.
  assert (Ha1 : get_space (Some current) (s <| cs := c |>) = Done a) by exact Ha.
  rewrite Ha1 in Hcreate. cbn [bind_result] in Hcreate.
  apply bind_Done_inv in Hcreate as ([[area0 m]|] & Hplace & Hcreate); [|done].
  rewrite Hwired in Hcreate. cbn [Z.eqb bind_result] in Hcreate. injection Hcreate as <- <-.
  destruct (create_inv _ _ _ _ _ _ _ _ _ Hmap Hsane Hfresh Hplace)
    as (Hm & Hptr & Hfl & _ & _ & _ & _ & Hperm & Hbest & r & Hr & Hlow & Hhigh').
  rewrite Hr in Hbest. destruct Hbest as (lo & Hplo & Hpl & _). pose proof Hsane as (_ & Hs0 & _).
  destruct (round_up_align size Hs0) as (_ & Hps & Hru).
  destruct (placed_ok _ _ _ _ _ Hmap Hpl Hplo Hps ltac:(lia) Hfresh) as (_ & Hfree & Hlo & Hhi & _ & _).
  set (fill := fun x : vm_area => _). set (area := fill area0).
  assert (Hfill : same_range fill) by done.
  set (m' := update_area (area_ptr area) fill m).
  assert (Hspace : spaces s !! current = Some a).
  { simpl in Ha. destruct (spaces s !! current); [by injection Ha as ->|done]. }
  exists (a <| area_map := m' |>). split; [|split; [by apply update_area_ok|split; [done|split; [|split; [done|split; [exact Hvm|]]]]]].
  - simpl. by rewrite lookup_alter_eq, Hspace.
  - simpl. change (In area0 (area_list m)) with (In area0 (area_list m)).
    apply list_elem_of_fmap. exists area0. split.
    + change (area_ptr area) with (area_ptr area0). by rewrite Z.eqb_refl.
    + rewrite Hperm. by left.
  - intros va [Hva1 Hva2]. change (low_address area0 <= va) in Hva1. change (va <= high_address area0) in Hva2.
    assert (Hrange : 0 <= low_address area0 /\ high_address area0 <= map_high (area_map a)
      /\ high_address area0 = low_address area0 + round_up size - 1).
    { destruct Hfree as (? & ? & _). destruct (ok_low _ Hmap). rewrite Hlow, Hhigh'. lia. }
    assert (Hround : round_up size <= 2 ^ 31).
    { clear - Hsize. unfold round_up, PAGE_SIZE. change (2 ^ 31) with (524288 * 0x1000) in *.
      apply Z.mul_le_mono_nonneg_r; [lia|]. apply Z.lt_succ_r, Z.div_lt_upper_bound; lia. }
    unfold KERNEL_BASE in *. split; [lia|]. split.
    + constructor; simpl; try done.
      * by rewrite Hl.
      * intros k page Hk. destruct (Hidle k page Hk) as (p & Hp & Hb). exists p. split; [|done].
        unfold page_struct in *. simpl. by rewrite Hvm.
      * split; unfold PAGE_SIZE in *; lia.
      * split; [split; lia|lia].
      * split; [|intros Hk; unfold KERNEL_BASE in Hk; lia]. unfold space_of, KERNEL_BASE.
        rewrite (proj2 (Z.leb_gt _ _)) by lia. simpl. rewrite Hvm. destruct Hdir as [dm ->]. by eexists.
    + eapply serves_source; [exact Hobj| |done|].
      * destruct (M !! (cache_object, fault_offset area va)) as [page|] eqn:E; [|done].
        destruct (index_key _ _ (caches_index _ _ _ _ _ _ _ Hs) _ _ _ E) as (_ & [x Hx] & _). congruence.
      * by apply serves_zero.
Qed.

(** The entry a fault makes leads to its page. *)
Lemma fault_entry page is_kernel area is_store is_dirty :
  0 <= page * PAGE_SIZE < 2 ^ 32 ->
  let entry := Z.lor (page * PAGE_SIZE) (fault_flags is_kernel area is_store is_dirty) in
  PAGE_ALIGN entry = page * PAGE_SIZE /\ Z.land entry PAGE_PRESENT <> 0.
Proof.
  intros Hpage entry.
  assert (Hflags : exists f, fault_flags is_kernel area is_store is_dirty = f /\ 0 <= f < 2 ^ 12 /\ Z.testbit f 0 = true).
  { eexists. split; [reflexivity|]. unfold fault_flags. cbv zeta.
    destruct (_ && _), (negb (Z.land (flags area) AREA_EXECUTABLE =? 0)), is_kernel; vm_compute; split; try done; split; done. }
  destruct Hflags as (f & Hf & Hrange & Hbit). subst entry. rewrite Hf.
  assert (Hlor : Z.lor (page * PAGE_SIZE) f = page * PAGE_SIZE + f).
  { symmetry. apply Z.add_nocarry_lor. apply Z.bits_inj'. intros i Hi. rewrite Z.land_spec, Z.bits_0.
    change PAGE_SIZE with (2 ^ 12). destruct (Z.lt_ge_cases i 12).
    - by rewrite Z.mul_pow2_bits_low by lia.
    - rewrite (proj2 (proj1 (is_unsigned_bits 12 f ltac:(lia)) Hrange) i) by lia. apply andb_false_r. }
  split.
  - rewrite Hlor, PAGE_ALIGN_mod.
    + change (2 ^ 12) with PAGE_SIZE in Hrange. rewrite Z.add_comm, Z_mod_plus_full, Z.mod_small by done. lia.
    + change (2 ^ 12) with PAGE_SIZE in Hrange. split; unfold PAGE_SIZE in *; [lia|].
      change (2 ^ 32) with (0x100000 * 0x1000) in *. nia.
  - intros H. apply (f_equal (fun z => Z.testbit z 0)) in H. rewrite Z.land_spec, Z.lor_spec, Hbit, orb_true_r in H. done.
Qed.

(** After a fault in a process's space the address is mapped to the page. *)
Lemma served_mapping read_file first last own holds users M map area va is_store K s s' own' M' page c' is_dirty :
  fault_served read_file first last own holds users M map false area va is_store K s s' own' M' page c' is_dirty ->
  0 <= va < KERNEL_BASE -> is_Some (maps (vm s) !! map) ->
  exists mapping, query_translation_map map va (vm s') = Done mapping
    /\ PAGE_ALIGN mapping = page * PAGE_SIZE /\ Z.land mapping PAGE_PRESENT <> 0.
Proof.
  intros Hserved Hva [dm Hdm].
  pose proof (served_walk _ _ _ _ _ _ _ _ _ _ _ _ _ _ _ _ _ _ _ _ Hserved (User map) (page_dir dm) va) as Hwalk.
  exists (Z.lor (page * PAGE_SIZE) (fault_flags false area is_store is_dirty)).
  pose proof (served_ok _ _ _ _ _ _ _ _ _ _ _ _ _ _ _ _ _ _ _ _ Hserved) as (Hok & _).
  pose proof (served_page _ _ _ _ _ _ _ _ _ _ _ _ _ _ _ _ _ _ _ _ Hserved) as Hpage.
  destruct (caches_page _ _ _ _ _ _ _ Hok _ _ Hpage) as (Hrange & _).
  destruct (ok_range _ _ _ (tables_pages _ _ _ _ (caches_tables _ _ _ _ _ _ _ Hok))) as (? & _ & ?).
  destruct (fault_entry page false area is_store is_dirty) as [Halign Hpresent]; [unfold PAGE_SIZE in *; lia|].
  split; [|done]. unfold query_translation_map. rewrite (proj2 (Z.leb_gt _ _)) by lia. unfold get_map.
  destruct (served_maps _ _ _ _ _ _ _ _ _ _ _ _ _ _ _ _ _ _ _ _ Hserved) as [Hmaps _].
  rewrite Hmaps, Hdm. cbn [bind_result]. f_equal. rewrite Hwalk; [|simpl; by rewrite Hdm|by apply in_user].
  rewrite decide_True; [done|]. split; [|done]. unfold space_of. by rewrite (proj2 (Z.leb_gt _ _)) by lia.
Qed.

(** C17: a new area reads as zeros.  When [create_area] makes an anonymous area in a process's
    space, whatever place it finds, the area is in the map with the rights asked for, and the
    first fault at any address of it is served (or the machine is out of memory), for loads and,
    if it may be written, for stores: the address is mapped to a page frame of zeros. *)
Theorem new_area_reads_zero read_file first last own holds users M current object cache_object address size place
    area_name area_flags s a area s1 va is_store :
  reads_ok read_file ->
  get_space (Some current) s = Done a -> map_ok (area_map a) -> map_high (area_map a) < KERNEL_BASE ->
  sane_request (area_map a) address size place -> area_ptr object ∉ map area_ptr (area_list (area_map a)) ->
  size <= 2 ^ 31 -> caches_ok first last own holds users M (cs s) -> cache_lock (cs s) = false -> idle M (cs s) ->
  (forall page, holds page < 2 ^ 31 - 2) -> caches (cs s) !! cache_object = None -> cache_object <> 0 ->
  is_Some (maps (vm (cs s)) !! translation_map a) -> Z.land area_flags AREA_WIRED = 0 ->
  create_area read_file (Some current) object cache_object 0 address size place area_name area_flags 0 0 s
    = Done (Some area, s1) ->
  covers area va -> (is_store = true -> Z.land area_flags AREA_WRITABLE <> 0) ->
  match handle_page_fault read_file current va is_store s1 with
  | Fault f => f = HostExit
  | Done (r, s2) => r = true /\ exists page mapping, query_translation_map (translation_map a) va (vm (cs s2)) = Done mapping
      /\ PAGE_ALIGN mapping = page * PAGE_SIZE /\ Z.land mapping PAGE_PRESENT <> 0
      /\ forall i, 0 <= i < PAGE_SIZE -> phys_byte (page * PAGE_SIZE + i) (memory_of (vm (cs s2))) = 0
  end.
Proof.
  intros Hreads Ha Hmap Hhigh Hsane Hfresh Hsize Hs Hlock Hidle Hholds Hnew H0 Hdir Hwired Hcreate Hva Hstore.
  destruct (new_area_ready read_file first last own holds users M current object cache_object address size place
    area_name area_flags s a area s1 Ha Hmap Hhigh Hsane Hfresh Hsize Hs Hlock Hidle Hholds Hnew H0 Hdir Hwired Hcreate)
    as (a' & Ha' & Hmap' & Htm & Hin & Hfl & Hvm & Hready).
  destruct (Hready va Hva) as (Hlt & Hr & Hserves). unfold handle_page_fault.
  rewrite (proj2 (Z.leb_gt _ _)) by lia. rewrite Ha'. cbn [bind_result].
  rewrite (proj2 (lookup_area_spec _ _ _ Hmap') (conj Hin Hva)), Htm.
  pose proof (soft_fault_ok read_file first last own holds _ M (translation_map a) false area va is_store (cs s1)
    (fun _ => 0) Hreads Hr ltac:(by rewrite Hfl) Hserves) as Hfault.
  cbn [is_kernel_space]. destruct (soft_fault _ _ _ area _ _ _) as [[r c]|f]; [|done]. cbn [bind_result].
  destruct Hfault as (-> & own' & M' & page & c' & is_dirty & Hserved). split; [done|].
  pose proof (ready_address _ _ _ _ _ _ _ _ _ _ Hr) as [[Hva0 _] _].
  destruct (served_mapping _ _ _ _ _ _ _ _ _ _ _ _ _ _ _ _ _ _ _ Hserved) as (mapping & Hq & Halign & Hpresent);
    [lia|by rewrite Hvm|].
  exists page, mapping. split_and!; try done. exact (served_bytes _ _ _ _ _ _ _ _ _ _ _ _ _ _ _ _ _ _ _ _ Hserved).
Qed.

Definition empty_space : space_state := {|
  cs := no_caches;
  kernel_address_space := {| area_map := init_area_map KERNEL_BASE 0xffffffff; translation_map := 0 |};
  spaces := {[0x600 := {| area_map := init_area_map PAGE_SIZE (KERNEL_BASE - 1); translation_map := 0x100 |}]}
|}.

(** An object of the slab allocator for an area. *)
Definition area_object : vm_area :=
  {| area_ptr := 0x500; low_address := 7; high_address := 7; cache := 7; cache_offset := 7; cache_length := 7;
     flags := 7; name := replicate 32 7 |}.

Definition new_area : result (option vm_area * space_state) :=
  create_area small_file (Some 0x600) area_object 0x400 0 0x5000 0x1800 PLACE_SEARCH_UP [104; 105] AREA_WRITABLE 0 0 empty_space.

Lemma new_area_reads_zero_witness :
  exists area s1 s2, new_area = Done (Some area, s1) /\ low_address area = 0x5000 /\ high_address area = 0x6fff
    /\ handle_page_fault small_file 0x600 0x6010 true s1 = Done (true, s2)
    /\ exists page mapping, query_translation_map 0x100 0x6010 (vm (cs s2)) = Done mapping
      /\ PAGE_ALIGN mapping = page * PAGE_SIZE /\ Z.land mapping PAGE_PRESENT <> 0
      /\ forall i, 0 <= i < PAGE_SIZE -> phys_byte (page * PAGE_SIZE + i) (memory_of (vm (cs s2))) = 0.
Proof.
  assert (Harea : exists area s1, new_area = Done (Some area, s1) /\ low_address area = 0x5000 /\ high_address area = 0x6fff
    /\ match handle_page_fault small_file 0x600 0x6010 true s1 with Done _ => true | _ => false end = true).
  { assert (Hends : match new_area with
      | Done (Some area, s1) => (low_address area =? 0x5000) && (high_address area =? 0x6fff)
          && match handle_page_fault small_file 0x600 0x6010 true s1 with Done _ => true | _ => false end
      | _ => false end = true) by (vm_compute; reflexivity).
    destruct new_area as [[[area|] s1]|]; [|done|done]. exists area, s1. split; [done|].
    apply andb_true_iff in Hends as [[H1 H2]%andb_true_iff H3]. bool_to_prop. by split_and!. }
  destruct Harea as (area & s1 & Hcreate & Hlow & Hhigh & Hends).
  destruct created_pages_free as (own & Ht & Hfree).
  destruct (run_start_ok 2 15 own state_created [] Ht Hfree) as [H0 _ _ _].
  pose proof (new_area_reads_zero small_file 2 15 own (fun _ => 0) (fun _ => 0) ∅ 0x600 area_object 0x400 0x5000 0x1800 PLACE_SEARCH_UP
    [104; 105] AREA_WRITABLE empty_space _ area s1 0x6010 true small_file_ok eq_refl) as Hzero.
  cbn [area_map translation_map] in Hzero.
  assert (Hmap : map_ok (init_area_map PAGE_SIZE (KERNEL_BASE - 1)))
    by (constructor; vm_compute; try done; try constructor; done).
  assert (Hsane : sane_request (init_area_map PAGE_SIZE (KERNEL_BASE - 1)) 0x5000 0x1800 PLACE_SEARCH_UP).
  { split; [by split|]. split; [by split|]. split; [by vm_compute|]. split; [by vm_compute|].
    intros other H. by apply elem_of_nil in H. }
  assert (Hfresh : area_ptr area_object ∉ map area_ptr (area_list (init_area_map PAGE_SIZE (KERNEL_BASE - 1))))
    by (simpl; apply not_elem_of_nil).
  assert (Hidle : idle ∅ (cs empty_space)) by (intros k page Hk; by rewrite lookup_empty in Hk).
  assert (Hdir : is_Some (maps (vm (cs empty_space)) !! 0x100)) by (vm_compute; by eexists).
  specialize (Hzero Hmap ltac:(done) Hsane Hfresh ltac:(lia) H0 eq_refl Hidle ltac:(intros; lia) eq_refl ltac:(lia)
    Hdir eq_refl Hcreate ltac:(split; lia) ltac:(done)).
  destruct (handle_page_fault small_file 0x600 0x6010 true s1) as [[r s2]|] eqn:Hs2; [|done].
  destruct Hzero as (-> & Hpage). exists area, s1, s2. by split_and!.
Defined.

(** ** Areas of given caches *)

Lemma update_area_perm area f m areas :
  same_range f -> area_list m ≡ₚ area :: areas -> area_ptr area ∉ map area_ptr areas ->
  area_list (update_area (area_ptr area) f m) ≡ₚ f area :: areas.
Proof.
  intros Hf Hperm Hfresh. simpl. rewrite Hperm. simpl. rewrite Z.eqb_refl. by rewrite update_fresh.
Qed.

(** An area of a process at a free place, with a cache that exists. *)
Lemma create_area_ok read_file first last own holds users M current object address size area_name area_flags c offset s a x :
  spaces s !! current = Some a -> map_ok (area_map a) -> is_u32 address -> page_aligned address ->
  0 < size <= 2 ^ 32 - PAGE_SIZE -> area_ptr object ∉ map area_ptr (area_list (area_map a)) ->
  length (name object) = 32%nat -> (length area_name < 32)%nat -> free_range (area_map a) address (round_up size) ->
  caches_ok first last own holds users M (cs s) -> caches (cs s) !! c = Some x -> 0 < cache_ref_count x < 2 ^ 31 - 1 ->
  c <> 0 -> Z.land area_flags AREA_WIRED = 0 ->
  exists area m s', create_area read_file (Some current) object 0 0 address size PLACE_EXACT area_name area_flags c offset s
      = Done (Some area, s')
    /\ spaces s' !! current = Some (a <| area_map := m |>) /\ map_ok m
    /\ map_low m = map_low (area_map a) /\ map_high m = map_high (area_map a)
    /\ area_list m ≡ₚ area :: area_list (area_map a) /\ area_ptr area = area_ptr object
    /\ low_address area = address /\ high_address area = address + round_up size - 1
    /\ cache area = c /\ cache_offset area = offset /\ flags area = area_flags
    /\ caches_ok first last own holds (<[c := users c + 1]> users) M (cs s') /\ vm (cs s') = vm (cs s)
    /\ cache_lock (cs s') = cache_lock (cs s)
    /\ caches (cs s') = <[c := x <| cache_ref_count := cache_ref_count x + 1 |>]> (caches (cs s)).
Proof.
  intros Ha Hmap Hu Hal Hsize Hfresh Hname Hlen Hfree Hs Hx Hmax Hc Hwired.
  destruct (inc_cache_ref_ok first last own holds users c M (cs s) x Hs Hx Hmax) as (c' & Hinc & Hs' & Hvm & Hl & Hcaches).
  destruct (create_exact (area_map a) object address size area_name area_flags Hmap Hu Hal Hsize Hfresh Hname Hlen Hfree)
    as (area0 & m & Hcreate & Hm & Hptr & Hfl & Hlow & Hhigh & Hperm & Hlo & Hhi).
  unfold create_area. rewrite (proj2 (Z.eqb_neq _ _) Hc). unfold on_caches. rewrite Hinc. cbn [bind_result get_space].
  change (spaces (s <| cs := c' |>)) with (spaces s). rewrite Ha. cbn [bind_result]. rewrite Hcreate. cbn [bind_result].
  rewrite Hwired. cbn [Z.eqb bind_result]. set (fill := fun y : vm_area => y <| cache := c |> <| cache_offset := offset |> <| cache_length := size |>).
  eexists (fill area0), (update_area (area_ptr (fill area0)) fill m), _. split; [reflexivity|].
  assert (Hfill : same_range fill) by done.
  split; [simpl; by rewrite lookup_alter_eq, Ha|]. split; [by apply update_area_ok|].
  split; [done|]. split; [done|]. split; [|by split_and!].
  change (area_ptr (fill area0)) with (area_ptr area0). apply update_area_perm; [done|done|by rewrite Hptr].
Qed.

(** ** Sequences of faults *)

(** What a process sees: every address of every area has a page with the contents [K], once its
    fault is served; areas that share a place of a cache agree how much of a file it takes. *)
Record space_ready (read_file : Z -> Z -> Z -> option (list Z)) (first last bound current : Z)
    (K : vm_area -> Z -> Z -> Z) (a : vm_address_space) (s : space_state) : Prop := {
  space_here : spaces s !! current = Some a;
  space_areas : map_ok (area_map a);
  space_user : map_high (area_map a) < KERNEL_BASE;
  space_mapped : is_Some (maps (vm (cs s)) !! translation_map a);
  space_lock : cache_lock (cs s) = false;
  space_each : forall area, area ∈ area_list (area_map a) ->
    cache area <> 0 /\ is_u32 (cache_length area) /\ 0 <= low_address area /\ high_address area < low_address area + 2 ^ 31;
  space_sizes : forall area va area' va', area ∈ area_list (area_map a) -> area' ∈ area_list (area_map a) ->
    covers area va -> covers area' va' -> fault_offset area va = fault_offset area' va' ->
    fault_size area va = fault_size area' va';
  space_caches : exists own holds users M, caches_ok first last own holds users M (cs s) /\ idle M (cs s)
    /\ (forall page, holds page <= bound)
    /\ forall area va, area ∈ area_list (area_map a) -> covers area va ->
         serves read_file M (cs s) (fault_offset area va) (fault_size area va) (cache area) (K area va)
}.

(** A fault of a process, anywhere in its areas. *)
Lemma space_fault_served read_file first last bound current K a s area va is_store :
  reads_ok read_file -> space_ready read_file first last bound current K a s -> bound < 2 ^ 31 - 2 ->
  area ∈ area_list (area_map a) -> covers area va -> (is_store = true -> Z.land (flags area) AREA_WRITABLE <> 0) ->
  match handle_page_fault read_file current va is_store s with
  | Fault f => f = HostExit
  | Done (r, s') => r = true /\ spaces s' = spaces s
      /\ exists own holds users M own' M' page c' is_dirty,
         fault_served read_file first last own holds users M (translation_map a) false area va is_store (K area va) (cs s) (cs s')
           own' M' page c' is_dirty
         /\ caches_ok first last own holds users M (cs s) /\ (forall q, holds q <= bound)
         /\ forall other va', other ∈ area_list (area_map a) -> covers other va' ->
            serves read_file M (cs s) (fault_offset other va') (fault_size other va') (cache other) (K other va')
  end.
Proof.
  intros Hreads [Hhere Hmap Huser Hdir Hlock Heach Hsizes (own & holds & users & M & Hok & Hidle & Hbound & Hserves)]
    Hmax Hin Hva Hstore.
  destruct (Heach area Hin) as (Hc & Hlen & Hlow & Hsize).
  assert (Hva' : 0 <= va < KERNEL_BASE /\ low_address area <= va < low_address area + 2 ^ 31).
  { destruct Hva. pose proof (ok_between _ Hmap) as Hbet. destruct (between_member _ _ _ _ Hbet Hin). lia. }
  assert (Hr : fault_ready first last own holds users M (translation_map a) area va (cs s)).
  { constructor; try done; [intros page; specialize (Hbound page); lia|unfold KERNEL_BASE in *; split; [split; lia|lia]|].
    split; [|intros Hk; lia]. unfold space_of. rewrite (proj2 (Z.leb_gt _ _)) by lia. simpl.
    destruct Hdir as [dm ->]. by eexists. }
  unfold handle_page_fault. rewrite (proj2 (Z.leb_gt _ _)) by lia. cbn [get_space]. rewrite Hhere. cbn [bind_result].
  rewrite (proj2 (lookup_area_spec _ _ _ Hmap) (conj Hin Hva)). cbn [is_kernel_space].
  pose proof (soft_fault_ok read_file first last own holds users M (translation_map a) false area va is_store (cs s)
    (K area va) Hreads Hr Hstore (Hserves area va Hin Hva)) as Hfault.
  destruct (soft_fault _ _ _ area _ _ _) as [[r c]|f]; [|done]. cbn [bind_result].
  destruct Hfault as (-> & own' & M' & page & c' & is_dirty & Hserved). split; [done|]. split; [done|].
  by exists own, holds, users, M, own', M', page, c', is_dirty.
Qed.

Lemma space_fault read_file first last bound current K a s area va is_store :
  reads_ok read_file -> space_ready read_file first last bound current K a s -> bound < 2 ^ 31 - 2 ->
  area ∈ area_list (area_map a) -> covers area va -> (is_store = true -> Z.land (flags area) AREA_WRITABLE <> 0) ->
  match handle_page_fault read_file current va is_store s with
  | Fault f => f = HostExit
  | Done (r, s') => r = true /\ space_ready read_file first last (bound + 1) current K a s'
      /\ exists page mapping, query_translation_map (translation_map a) va (vm (cs s')) = Done mapping
      /\ PAGE_ALIGN mapping = page * PAGE_SIZE /\ Z.land mapping PAGE_PRESENT <> 0
      /\ forall i, 0 <= i < PAGE_SIZE -> phys_byte (page * PAGE_SIZE + i) (memory_of (vm (cs s'))) = K area va i
  end.
Proof.
  intros Hreads Hready Hmax Hin Hva Hstore.
  pose proof (space_fault_served read_file first last bound current K a s area va is_store Hreads Hready Hmax Hin Hva Hstore) as Hfault.
  destruct (handle_page_fault _ _ _ _ _) as [[r s']|f]; [|done].
  destruct Hready as [Hhere Hmap Huser Hdir Hlock Heach Hsizes _].
  destruct Hfault as (-> & Hspaces & own & holds & users & M & own' & M' & page & c' & is_dirty & Hserved & _ & Hbound & Hserves).
  destruct (served_ok _ _ _ _ _ _ _ _ _ _ _ _ _ _ _ _ _ _ _ _ Hserved) as (Hok' & Hidle' & Hlock').
  destruct (served_maps _ _ _ _ _ _ _ _ _ _ _ _ _ _ _ _ _ _ _ _ Hserved) as [Hmaps _]. split; [done|]. split.
  - constructor; try done; [by rewrite Hspaces|by rewrite Hmaps|].
    exists own', (<[page := holds page + 1]> holds), users, M'. split; [exact Hok'|]. split; [exact Hidle'|]. split.
    + intros q. specialize (Hbound q). destruct (decide (q = page)) as [->|]; [rewrite fn_lookup_insert; lia|].
      rewrite fn_lookup_insert_ne by congruence. lia.
    + intros other va' Hother Hva''.
      apply (served_others _ _ _ _ _ _ _ _ _ _ _ _ _ _ _ _ _ _ _ _ Hserved); [|by apply Hserves].
      destruct (decide (fault_offset other va' = fault_offset area va)) as [He|]; [right|by left]. by apply Hsizes.
  - pose proof (ok_between _ Hmap) as Hbet. destruct (between_member _ _ _ _ Hbet Hin). destruct Hva, (Heach area Hin) as (_ & _ & ? & _).
    destruct (served_mapping _ _ _ _ _ _ _ _ _ _ _ _ _ _ _ _ _ _ _ Hserved) as (mapping & Hq & Halign & Hpresent);
      [lia|done|].
    exists page, mapping. split_and!; try done. exact (served_bytes _ _ _ _ _ _ _ _ _ _ _ _ _ _ _ _ _ _ _ _ Hserved).
Qed.

(** The other pages of the process are mapped as before. *)
Lemma space_fault_elsewhere read_file first last bound current K a s area va is_store s' va' :
  reads_ok read_file -> space_ready read_file first last bound current K a s -> bound < 2 ^ 31 - 2 ->
  area ∈ area_list (area_map a) -> covers area va -> (is_store = true -> Z.land (flags area) AREA_WRITABLE <> 0) ->
  handle_page_fault read_file current va is_store s = Done (true, s') ->
  0 <= va' < KERNEL_BASE -> va' / PAGE_SIZE <> va / PAGE_SIZE ->
  query_translation_map (translation_map a) va' (vm (cs s')) = query_translation_map (translation_map a) va' (vm (cs s)).
Proof.
  intros Hreads Hready Hmax Hin Hva Hstore Hrun Hva' Hother.
  pose proof (space_fault_served read_file first last bound current K a s area va is_store Hreads Hready Hmax Hin Hva Hstore) as Hfault.
  rewrite Hrun in Hfault. destruct Hfault as (_ & _ & own & holds & users & M & own' & M' & page & c' & is_dirty & Hserved & _).
  destruct (space_mapped _ _ _ _ _ _ _ _ Hready) as [dm Hdm].
  destruct (served_maps _ _ _ _ _ _ _ _ _ _ _ _ _ _ _ _ _ _ _ _ Hserved) as [Hmaps _].
  unfold query_translation_map, get_map. rewrite (proj2 (Z.leb_gt KERNEL_BASE va')), Hmaps, Hdm by lia. cbn [bind_result]. f_equal.
  rewrite (served_walk _ _ _ _ _ _ _ _ _ _ _ _ _ _ _ _ _ _ _ _ Hserved (User (translation_map a)) (page_dir dm) va');
    [|simpl; by rewrite Hdm|by apply in_user].
  rewrite decide_False; [done|]. by intros [_ ?].
Qed.

(** A page of a cache. *)
Definition in_cache (q : Z) (s : cache_state) : Prop := exists b l, hash_table s !! b = Some l /\ q ∈ l.

Lemma in_cache_index M s q : index_ok M s -> in_cache q s <-> exists k, M !! k = Some q.
Proof.
  intros Hi. split.
  - intros (b & l & Hl & Hq). apply (index_bucket _ _ Hi _ _ Hl) in Hq as (c & offset & Hk & _). by eexists.
  - intros [[c offset] Hk]. destruct (bucket_in_table M s c offset Hi) as [l Hl]. exists (bucket_of c offset), l.
    split; [done|]. apply (index_bucket _ _ Hi _ _ Hl). by exists c, offset.
Qed.

Lemma covers_user read_file first last bound current K a s area va :
  space_ready read_file first last bound current K a s -> area ∈ area_list (area_map a) -> covers area va -> 0 <= va < KERNEL_BASE.
Proof.
  intros Hready Hin [H1 H2]. destruct (space_each _ _ _ _ _ _ _ _ Hready area Hin) as (_ & _ & Hlow & _).
  pose proof (ok_between _ (space_areas _ _ _ _ _ _ _ _ Hready)) as Hbet. destruct (between_member _ _ _ _ Hbet Hin).
  pose proof (space_user _ _ _ _ _ _ _ _ Hready). lia.
Qed.

(** Pages that are there stay with what is in them, and a page that is mapped is one of a cache. *)
Lemma space_fault_keeps read_file first last bound current K a s area va is_store s' :
  reads_ok read_file -> space_ready read_file first last bound current K a s -> bound < 2 ^ 31 - 2 ->
  area ∈ area_list (area_map a) -> covers area va -> (is_store = true -> Z.land (flags area) AREA_WRITABLE <> 0) ->
  handle_page_fault read_file current va is_store s = Done (true, s') ->
  (forall q, in_cache q (cs s) -> in_cache q (cs s') /\ forall i, 0 <= i < PAGE_SIZE ->
     phys_byte (q * PAGE_SIZE + i) (memory_of (vm (cs s'))) = phys_byte (q * PAGE_SIZE + i) (memory_of (vm (cs s))))
  /\ exists page mapping, query_translation_map (translation_map a) va (vm (cs s')) = Done mapping
     /\ PAGE_ALIGN mapping = page * PAGE_SIZE /\ in_cache page (cs s').
Proof.
  intros Hreads Hready Hmax Hin Hva Hstore Hrun.
  pose proof (space_fault_served read_file first last bound current K a s area va is_store Hreads Hready Hmax Hin Hva Hstore) as Hfault.
  rewrite Hrun in Hfault. destruct Hfault as (_ & _ & own & holds & users & M & own' & M' & page & c' & is_dirty & Hserved & Hok & _).
  pose proof (served_kept _ _ _ _ _ _ _ _ _ _ _ _ _ _ _ _ _ _ _ _ Hserved) as Hkept.
  destruct (served_ok _ _ _ _ _ _ _ _ _ _ _ _ _ _ _ _ _ _ _ _ Hserved) as (Hok' & _).
  split.
  - intros q Hq. apply (in_cache_index _ _ q (caches_index _ _ _ _ _ _ _ Hok)) in Hq as [k Hk].
    destruct (Hkept k q Hk) as [Hk' Hbytes]. split; [|exact Hbytes].
    apply (in_cache_index _ _ q (caches_index _ _ _ _ _ _ _ Hok')). by exists k.
  - destruct (covers_user _ _ _ _ _ _ _ _ _ _ Hready Hin Hva) as [Hlow Hhigh].
    destruct (served_mapping _ _ _ _ _ _ _ _ _ _ _ _ _ _ _ _ _ _ _ Hserved) as (mapping & Hq & Halign & _);
      [by split|exact (space_mapped _ _ _ _ _ _ _ _ Hready)|].
    exists page, mapping. split; [done|]. split; [done|]. apply (in_cache_index _ _ page (caches_index _ _ _ _ _ _ _ Hok')).
    eexists. exact (served_page _ _ _ _ _ _ _ _ _ _ _ _ _ _ _ _ _ _ _ _ Hserved).
Qed.

(** ** Spaces that are created *)

(** A new translation map takes a free page: the caches and the other maps stay. *)
Lemma create_map_caches first last own holds users M s object v :
  caches_ok first last own holds users M s -> maps (vm s) !! object = None ->
  create_translation_map object (vm s) = Done v ->
  exists own' m, caches_ok first last own' holds users M (s <| vm := v |>) /\ maps v = <[object := m]> (maps (vm s))
    /\ (forall k q, M !! k = Some q -> page_struct q (s <| vm := v |>) = page_struct q s
          /\ forall a, in_page q a -> memory_of v a = memory_of (vm s) a)
    /\ (forall sp dir va, directory_of sp (vm s) = Some dir -> in_space sp va ->
          walk dir va (memory_of v) = walk dir va (memory_of (vm s))).
Proof.
  intros Hs Hfresh Hcreate. pose proof Hs as [Ht Hi Hp Ho Hg].
  pose proof (tables_memory _ _ _ _ Ht) as [Hfirst _].
  destruct (create_map_ok first last own (vm s) object v Ht Hfresh Hcreate)
    as (page & id & bits & m & Hdir & Hid & _ & Hnone & Ht' & Hmaps & _ & _ & _ & _ & Hmem).
  unfold create_translation_map in Hcreate. apply bind_Done_inv in Hcreate as ([page' v1] & Hget & Hcreate). cbv zeta in Hcreate.
  apply bind_Done_inv in Hcreate as ([id' bits'] & Hbits & Hcreate). injection Hcreate as <-.
  destruct (get_page_ok first last own (vm s) page' v1 Ht Hget) as (_ & Hnone' & Hr' & Hpa & [f ->] & Hrefs & _).
  assert (page' = page) as ->.
  { cbn in Hmaps. apply (f_equal (fun g : gmap Z TranslationMap.translation_map => g !! object)) in Hmaps.
    rewrite !lookup_insert_eq in Hmaps. injection Hmaps as <-. simpl in Hdir. rewrite Hpa in Hdir. unfold PAGE_SIZE in *. lia. }
  set (v := _ <| map_list ::= _ |>) in *.
  assert (Hz : refs page (frames (vm s)) = 0).
  { unfold get_page in Hget. apply bind_Done_inv in Hget as ([q' g] & Halloc & Heq). injection Heq as -> _.
    by destruct (allocate_ok _ _ _ _ _ (tables_pages _ _ _ _ Ht) Halloc) as (_ & _ & ? & _). }
  assert (Hcached : forall k q, M !! k = Some q -> q <> page).
  { intros k q Hk ->. destruct (Hp k page Hk) as (_ & _ & ? & ?). lia. }
  assert (Hsame : forall q, 0 <= q -> q <> page -> refs q (frames v) = refs q (frames (vm s))
    /\ page_struct q (s <| vm := v |>) = page_struct q s).
  { intros q Hq Hne. split; [pose proof (Hrefs q Hq) as Hrq; rewrite decide_False in Hrq by done; exact Hrq|].
    pose proof (get_page_struct page (vm s <| frames := f |>) s Hget q Hq ltac:(lia)) as Hstruct.
    rewrite decide_False in Hstruct by done. exact Hstruct. }
  exists (<[page := Some (Directory (User object))]> own), m. split; [|split; [done|split]].
  - constructor; [exact Ht'| | | |exact Hg].
    + apply (index_frame M s); [done|done| |done]. intros q p Hk Hq. exists p. split; [|done].
      destruct (Hp _ _ Hk) as (? & _). by destruct (Hsame q ltac:(lia) (Hcached _ _ Hk)) as [_ ->].
    + intros k q Hk. destruct (Hp _ _ Hk) as (? & ? & ? & ?). rewrite fn_lookup_insert_ne by (intros ->; by destruct (Hcached _ _ Hk)).
      split_and!; try done; try lia. change (refs q (frames v) = 1 + holds q).
      by destruct (Hsame q ltac:(lia) (Hcached _ _ Hk)) as [-> _].
    + intros q Hq Hown Hnot. assert (q <> page) by (intros ->; by rewrite fn_lookup_insert in Hown).
      rewrite fn_lookup_insert_ne in Hown by done.
      change (refs q (frames v) = holds q). destruct (Hsame q ltac:(lia)) as [-> _]; [done|]. by apply Ho.
  - intros k q Hk. destruct (Hp _ _ Hk) as (? & _). destruct (Hsame q ltac:(lia) (Hcached _ _ Hk)) as [_ ?]. split; [done|].
    intros a Ha. apply Hmem. intros Ha'. apply (Hcached _ _ Hk). by apply (in_page_inj _ _ a).
  - intros sp dir va Hsp Hin. apply (walk_same first last own (vm s) sp); [done|done|done|].
    intros q o i Hq Hii _. apply Hmem. rewrite word_in_page by done. congruence.
Qed.

(** Another space leaves the process's space, and what is in the pages of the caches, as they were. *)
Lemma create_space_ready read_file first last bound current K a s object map_object s' :
  space_ready read_file first last bound current K a s -> object <> current -> maps (vm (cs s)) !! map_object = None ->
  create_address_space object map_object s = Done s' ->
  space_ready read_file first last bound current K a s'
  /\ (forall va, 0 <= va < KERNEL_BASE ->
        query_translation_map (translation_map a) va (vm (cs s')) = query_translation_map (translation_map a) va (vm (cs s)))
  /\ forall q, in_cache q (cs s) -> in_cache q (cs s') /\ forall i, 0 <= i < PAGE_SIZE ->
       phys_byte (q * PAGE_SIZE + i) (memory_of (vm (cs s'))) = phys_byte (q * PAGE_SIZE + i) (memory_of (vm (cs s))).
Proof.
  intros [Hhere Hmap Huser [dm Hdm] Hlock Heach Hsizes (own & holds & users & M & Hok & Hidle & Hbound & Hserves)] Hne Hfresh Hrun.
  unfold create_address_space in Hrun. apply bind_Done_inv in Hrun as (s1 & Hmaps & [= <-]).
  unfold on_vm, on_caches in Hmaps. apply bind_Done_inv in Hmaps as (c & Hmaps & [= <-]).
  apply bind_Done_inv in Hmaps as (v & Hcreate & [= <-]).
  destruct (create_map_caches first last own holds users M (cs s) map_object v Hok Hfresh Hcreate)
    as (own' & m & Hok' & Hv & Hpages & Hwalk).
  assert (Htm : maps v !! translation_map a = Some dm).
  { rewrite Hv. rewrite lookup_insert_ne; [done|]. intros E. rewrite E in Hfresh. congruence. }
  assert (Hbytes : forall k q i, M !! k = Some q -> 0 <= i < PAGE_SIZE ->
    phys_byte (q * PAGE_SIZE + i) (memory_of v) = phys_byte (q * PAGE_SIZE + i) (memory_of (vm (cs s)))).
  { intros k q i Hk Hi. unfold phys_byte. destruct (Hpages k q Hk) as [_ Hb]. by rewrite Hb by (by apply byte_in_page). }
  split; [|split].
  - constructor; try done.
    + simpl. by rewrite lookup_insert_ne by congruence.
    + exists own', holds, users, M. split; [exact Hok'|]. split; [|split; [done|]].
      * intros k q Hk. destruct (Hidle k q Hk) as (p & Hp & Hb). exists p. split; [|done].
        destruct (Hpages k q Hk) as [Hstruct _]. simpl. by rewrite Hstruct.
      * intros area va Hin Hva. apply (serves_frame read_file M (cs s)); [intros c x Hx; by exists x| |by apply Hserves].
        intros k q i Hk Hi. by apply (Hbytes k).
  - intros va Hva. simpl. unfold query_translation_map, get_map. rewrite (proj2 (Z.leb_gt KERNEL_BASE va)), Htm, Hdm by lia.
    cbn [bind_result]. f_equal. apply (Hwalk (User (translation_map a))); [simpl; by rewrite Hdm|by apply in_user].
  - intros q Hq. split; [exact Hq|]. apply (in_cache_index _ _ q (caches_index _ _ _ _ _ _ _ Hok)) in Hq as [k Hk].
    intros i Hi. by apply (Hbytes k).
Qed.

(** ** Areas that are destroyed *)

Fixpoint page_faults (stores : list bool) (address : Z) (s : space_state) : result space_state :=
  match stores with
  | [] => Done s
  | is_store :: stores' =>
      '(r, s) <-- handle_page_fault small_file 0x600 address is_store s;;
      if (r : bool) then page_faults stores' address s else Fault HostExit
  end.

(** A new area, page faults at one address of it, and the area destroyed. *)
Definition area_used (stores : list bool) : result space_state :=
  '(created, s) <-- new_area;;
  match created with
  | None => Fault HostExit
  | Some area => s <-- page_faults stores 0x6010 s;; destroy_area (Some 0x600) area s
  end.

(** Destroying an area undoes its page faults wrongly, in two ways.  After one store to a new
    area and its destruction, the page is free, but the address is still mapped to it with the
    right to write: the page table entries are never cleared.  After a load and then a store,
    which take two references for the one mapping, the destruction drops one: the page
    is in no cache any more, but keeps a reference that nothing will drop. *)
Theorem destroy_area_miscounts :
  (exists s mapping, area_used [true] = Done s /\ query_translation_map 0x100 0x6010 (vm (cs s)) = Done mapping
     /\ Z.land mapping PAGE_PRESENT <> 0 /\ Z.land mapping PAGE_WRITABLE <> 0
     /\ mapping / PAGE_SIZE ∈ free_page_list (frames (vm (cs s))))
  /\ (exists s mapping, area_used [false; true] = Done s
     /\ query_translation_map 0x100 0x6010 (vm (cs s)) = Done mapping
     /\ Forall (fun bucket => mapping / PAGE_SIZE ∉ bucket) (hash_table (cs s)) /\ refs (mapping / PAGE_SIZE) (frames (vm (cs s))) = 1
     /\ mapping / PAGE_SIZE ∉ free_page_list (frames (vm (cs s)))).
Proof.
  set (ends := fun stores (f : space_state -> Z -> bool) =>
    match area_used stores with
    | Done s => match query_translation_map 0x100 0x6010 (vm (cs s)) with Done mapping => f s mapping | _ => false end
    | _ => false end).
  assert (Hends : forall stores f, ends stores f = true -> exists s mapping, area_used stores = Done s
    /\ query_translation_map 0x100 0x6010 (vm (cs s)) = Done mapping /\ f s mapping = true).
  { intros stores f. unfold ends. destruct (area_used stores) as [s|] eqn:Hs; [|done].
    destruct query_translation_map as [mapping|] eqn:Hq; [|done]. intros Hf. by exists s, mapping. }
  assert (Hmem : forall page l, existsb (Z.eqb page) l = true <-> page ∈ l).
  { intros page l. rewrite existsb_exists, list_elem_of_In. split; [by intros (x & ? & ->%Z.eqb_eq)|].
    intros. exists page. by rewrite Z.eqb_refl. }
  split.
  - destruct (Hends [true] (fun s mapping => negb (Z.land mapping PAGE_PRESENT =? 0) && negb (Z.land mapping PAGE_WRITABLE =? 0)
      && existsb (Z.eqb (mapping / PAGE_SIZE)) (free_page_list (frames (vm (cs s)))))) as (s & mapping & Hs & Hq & Hf).
    { vm_compute. reflexivity. }
    exists s, mapping. apply andb_true_iff in Hf as [[H1 H2]%andb_true_iff H3]. apply Hmem in H3.
    split; [exact Hs|]. split; [exact Hq|]. split; [|split; [|exact H3]]; intros H; [by rewrite H in H1|by rewrite H in H2].
  - destruct (Hends [false; true] (fun s mapping =>
      forallb (fun bucket => negb (existsb (Z.eqb (mapping / PAGE_SIZE)) bucket)) (hash_table (cs s))
      && (refs (mapping / PAGE_SIZE) (frames (vm (cs s))) =? 1)
      && negb (existsb (Z.eqb (mapping / PAGE_SIZE)) (free_page_list (frames (vm (cs s))))))) as (s & mapping & Hs & Hq & Hf).
    { vm_compute. reflexivity. }
    exists s, mapping. apply andb_true_iff in Hf as [[H1 H2]%andb_true_iff H3]. apply Z.eqb_eq in H2.
    split; [exact Hs|]. split; [exact Hq|]. split; [|split; [exact H2|]].
    + apply Forall_forall. intros bucket Hin Hp. apply Hmem in Hp. rewrite forallb_forall in H1.
      apply list_elem_of_In, H1 in Hin. by rewrite Hp in Hin.
    + intros Hp%Hmem. by rewrite Hp in H3.
Qed.

(** Wiring an area that may not be written stops the kernel. *)
Example wired_read_only_panics :
  match create_area small_file (Some 0x600) area_object 0x400 0 0x5000 0x1800 PLACE_SEARCH_UP [] AREA_WIRED 0 0 empty_space with
  | Fault HostExit => True | _ => False end.
Proof. vm_compute. exact I. Qed.
