(* ===== verification/KernelFs.v ===== *)
(** * KernelFs: the kernel's SD card driver and files (software/kernel/sd_card.c, fs.c)

    The driver is that of the bare-metal library (SdDriver) but for the checksum it sends, the
    argument of the last initialisation command, and a spinlock around a read.  The file system
    reads the images mkfs builds, as the library's does (Fs).  The static variables are a
    record; [kmalloc] and [slab_alloc] succeed, and what they give is an argument.  Messages
    are left out. *)

From S2P Require Export Fs VmSpace.
From stdpp Require Import list gmap.

#[local] Open Scope Z_scope.

Definition RAMDISK_BASE_PA : Z := 0x4000000.
Definition RAMDISK_MAX_SIZE : Z := 0x800000.

(** [handles] are the structures that were allocated, with base_location and length. *)
Record kernel_files (B : Type) := {
  registers : B;
  sd_lock : bool;
  initialized : bool;
  directory : option (list (option Z));
  ramdisk_area : option vm_area;
  handles : gmap Z (Z * Z);
  space : space_state
}.

Arguments Build_kernel_files {B}.
Arguments registers {B}.
Arguments sd_lock {B}.
Arguments initialized {B}.
Arguments directory {B}.
Arguments ramdisk_area {B}.
Arguments handles {B}.
Arguments space {B}.

#[export]
Instance kernel_files_fields B : Fields (kernel_files B) := fun s =>
  Build_kernel_files (registers s) (sd_lock s) (initialized s) (directory s) (ramdisk_area s) (handles s) (space s).

(** What static initialisation gives. *)
Definition files_init {B} (b : B) (space : space_state) : kernel_files B :=
  {| registers := b; sd_lock := false; initialized := false; directory := None; ramdisk_area := None;
     handles := ∅; space := space |}.

Section files.
Context {B : Type} `{!Registers B} (ramdisk : list Z).
Implicit Types s : kernel_files B.

(** ** sd_card.c *)

Definition send_sd_command (command : sd_command) (parameter : Z) (b : B) : result (Z * B) :=
  b <-- send_bytes (command_encoding command parameter) b;;
  b <-- send_bytes [0x95] b;;
  read_response MAX_RETRIES b.

(** The loop that waits for the end of initialisation; [retries] as [retry] counts up. *)
Fixpoint poll_app_op_cond (retries : nat) (b : B) : result (Z * B) :=
  '(result, b) <-- send_sd_command CMD_APP_CMD 0 b;;
  if negb (result =? 1) then Done (-1, b)
  else
    '(result, b) <-- send_sd_command CMD_APP_OP_COND 0 b;;
    b <-- send_bytes (replicate 5 0xff) b;;
    if result =? 0 then Done (0, b)
    else if negb (result =? 1) then Done (-1, b)
    else match retries with O => Done (-1, b) | S retries' => poll_app_op_cond retries' b end.

Definition init_sd_device (b : B) : result (Z * B) :=
  b <-- set_clock_divisor 125 b;;
  b <-- set_cs 1 b;;
  b <-- send_bytes (replicate 10 0xff) b;;
  b <-- set_cs 0 b;;
  '(result, b) <-- send_sd_command CMD_GO_IDLE_STATE 0 b;;
  if negb (result =? 1) then Done (-1, b)
  else
    '(result, b) <-- send_sd_command CMD_SEND_IF_COND (Z.lor 0x100 CHECK_PATTERN) b;;
    if negb (result =? 1) then Done (-1, b)
    else
      b <-- send_bytes [0xff; 0xff] b;;
      '(result, b) <-- spi_transfer 0xff b;;
      if negb (Z.land result 0xf =? 1) then Done (-1, b)
      else
        '(result, b) <-- spi_transfer 0xff b;;
        if negb (result =? CHECK_PATTERN) then Done (-1, b)
        else
          '(result, b) <-- poll_app_op_cond MAX_RETRIES b;;
          if result =? 0 then b <-- set_clock_divisor 5 b;; Done (0, b) else Done (-1, b).

(** [None] is the result -1: the lock is not released then.  Taking a lock that is held never
    ends, as interrupts are off. *)
Definition read_sd_device (block_address : Z) s : result (option (list Z) * kernel_files B) :=
  if sd_lock s then Fault OutOfFuel
  else
    let failed b := (None, s <| registers := b |> <| sd_lock := true |>) in
    '(result, b) <-- send_sd_command CMD_READ_SINGLE_BLOCK block_address (registers s);;
    if negb (result =? 0) then Done (failed b)
    else
      '(found, b) <-- wait_data_token (Z.to_nat 9999) b;;
      if negb found then Done (failed b)
      else
        '(bytes, b) <-- receive_bytes (Z.to_nat SDMMC_BLOCK_SIZE) b;;
        b <-- send_bytes [0xff; 0xff] b;;
        Done (Some bytes, s <| registers := b |>).

(** ** fs.c *)

(** The RAM disk's pages hold [ramdisk]; the area maps them. *)
Definition read_block (block_num : Z) s : result (option (list Z) * kernel_files B) :=
  match ramdisk_area s with
  | Some _ =>
      let bytes := Sdmmc.read_file (block_num * SDMMC_BLOCK_SIZE) SDMMC_BLOCK_SIZE ramdisk in
      if (0 <=? block_num) && (Z.of_nat (length bytes) =? SDMMC_BLOCK_SIZE)
      then Done (Some bytes, s) else Fault OutOfBounds
  | None => read_sd_device (u32 block_num) s
  end.

(** [area_object] is the structure the area of a RAM disk gets. *)
Definition use_ramdisk (area_object : vm_area) s : result (kernel_files B) :=
  '(area, sp) <-- map_contiguous_memory None area_object 0 RAMDISK_MAX_SIZE PLACE_SEARCH_UP
                    [114; 97; 109; 100; 105; 115; 107] AREA_WIRED RAMDISK_BASE_PA (space s);;
  match area with
  | None => Fault OutOfBounds
  | Some area => Done (s <| space := sp |> <| ramdisk_area := Some area |>)
  end.

Definition directory_size (blocks : Z) : Z := PAGE_ALIGN (u32 (u32 (blocks * SDMMC_BLOCK_SIZE) + PAGE_SIZE - 1)).

Definition init_file_system (area_object : vm_area) s : result (Z * kernel_files B) :=
  '(r, b) <-- init_sd_device (registers s);;
  let s := s <| registers := b |> in
  s <-- (if r <? 0 then use_ramdisk area_object s else Done s);;
  '(super_block, s) <-- read_block 0 s;;
  match super_block with
  | None => Done (-1, s)
  | Some super_block =>
      if negb (bool_decide (Sdmmc.read_file magic_at 4 super_block = FS_MAGIC)) then Done (-1, s)
      else
        let blocks := s32 (num_directory_blocks (load32 num_directory_entries_at super_block)) in
        buffer <-- copy_in 0 super_block (malloc (directory_size blocks));;
        '(complete, buffer, s) <-- read_directory read_block (Z.to_nat (blocks - 1)) 1 buffer s;;
        let s := s <| directory := Some buffer |> in
        if complete then Done (0, s) else Done (-1, s)
  end.

(** [object] is the handle [slab_alloc] gives; the result is the handle. *)
Definition open_initialized (path : list Z) (object : Z) s : result (option Z * kernel_files B) :=
  match directory s with
  | None => Fault OutOfBounds
  | Some buffer =>
      entry <-- lookup_directory path buffer;;
      match entry with
      | None => Done (None, s)
      | Some (start, length) => Done (Some object, s <| handles ::= <[object := (start, length)]> |>)
      end
  end.

Definition open_file (path : list Z) (object : Z) (area_object : vm_area) s : result (option Z * kernel_files B) :=
  if initialized s then open_initialized path object s
  else
    '(r, s) <-- init_file_system area_object s;;
    if r <? 0 then Done (None, s) else open_initialized path object (s <| initialized := true |>).

(** The result, the bytes stored from [out_ptr] on, and the state. *)
Definition read_file (handle offset size_to_copy : Z) s : result (Z * list Z * kernel_files B) :=
  match handles s !! handle with
  | None => Fault OutOfBounds
  | Some (base_location, length) =>
      let fs_offset := s32 (base_location + offset) in
      let size_to_copy := if length <? u32 (offset + size_to_copy) then s32 (length - offset) else size_to_copy in
      if size_to_copy <=? 0 then Done (0, [], s)
      else
        let offset_in_block := Z.land fs_offset (SDMMC_BLOCK_SIZE - 1) in
        let block_number := Z.quot fs_offset SDMMC_BLOCK_SIZE in
        '(complete, stored, s) <--
          read_loop read_block (S (Z.to_nat size_to_copy)) size_to_copy 0 offset_in_block block_number [] s;;
        if complete then Done (size_to_copy, stored, s) else Done (-1, stored, s)
  end.
End files.

(** ** The card *)

(** The kernel's initialisation, which asks for no high capacity card, works too. *)
Class KernelCard (B : Type) `{SdCard B} := {
  card_init_sd : forall file b, card_off file b -> exists b', init_sd_device b = Done (0, b') /\ card_file file b'
}.

Lemma emulator_init_sd file d :
  emulator_card_off file d -> exists d', init_sd_device d = Done (0, d') /\ emulator_card_file file d'.
Proof.
  intros (random & Hr & Hf & Hd). unfold powered_on in Hd. destruct d. simpl in Hd. subst.
  eexists. split; [vm_compute; reflexivity|].
  split; [|done]. constructor; try done. constructor; simpl; try done.
  - by intros file' [= <-].
  - split; [done|]. by repeat constructor.
  - exact (malloc_bytes 512).
Qed.

#[export]
Instance emulator_kernel_card : KernelCard devices := { card_init_sd := emulator_init_sd }.

(** ** Files of an image *)

Section served.
Context {B : Type} `{KernelCard B} (ramdisk : list Z) (area_object : vm_area).
Implicit Types s : kernel_files B.

(** [s] reads its blocks from a card that holds [image]. *)
Definition on_card (image : list Z) s : Prop :=
  ramdisk_area s = None /\ sd_lock s = false /\ card_file image (registers s) /\ Z.of_nat (length image) < 2 ^ 31.

Definition card_moved (image : list Z) s s' : Prop :=
  on_card image s' /\ exists b, s' = s <| registers := b |>.

Lemma read_block_moved image s0 s block :
  card_moved image s0 s -> 0 <= block -> (block + 1) * SDMMC_BLOCK_SIZE <= Z.of_nat (length image) ->
  exists s', read_block ramdisk block s
    = Done (Some (Sdmmc.read_file (block * SDMMC_BLOCK_SIZE) SDMMC_BLOCK_SIZE image), s') /\ card_moved image s0 s'.
Proof.
  intros [(Hram & Hlock & Hcard & Hmax) [b ->]] Hb0 Hl. simpl in Hram, Hlock, Hcard.
  assert (Hu : u32 block = block) by (apply u32_nonneg_small; unfold SDMMC_BLOCK_SIZE in Hl; lia).
  destruct (card_read image b block 0x95 Hcard ltac:(by split) Hb0 Hl ltac:(lia)) as (ignored & d1 & d2 & data & checksum
    & b1 & b2 & b3 & b4 & b5 & Hd1 & Hd2 & T1 & T2 & T3 & T4 & T5 & <- & Hb5).
  assert (Hsent : command_packet CMD_READ_SINGLE_BLOCK block 0x95 = command_encoding CMD_READ_SINGLE_BLOCK block ++ [0x95])
    by done.
  rewrite Hsent in T1. rewrite <- (take_drop 5 ignored) in T1.
  pose proof (transferred_length _ _ _ _ T1) as Hlen. rewrite take_drop in Hlen.
  apply transferred_app_inv in T1 as (b0 & T0 & T1); [|rewrite length_take, Hlen; done].
  exists (s0 <| registers := b5 |>). split; [|split; [exact (conj Hram (conj Hlock (conj Hb5 Hmax)))|exists b5; reflexivity]].
  unfold read_block, read_sd_device, send_sd_command.
  change (ramdisk_area (s0 <| registers := b |>)) with (ramdisk_area s0). rewrite Hram. cbv iota beta.
  change (sd_lock (s0 <| registers := b |>)) with (sd_lock s0). rewrite Hlock. cbv iota beta.
  change (registers (s0 <| registers := b |>)) with b. rewrite Hu.
  rewrite (send_bytes_transferred _ _ _ _ T0). cbn [bind_result]. rewrite (send_bytes_transferred _ _ _ _ T1). cbn [bind_result].
  rewrite (read_response_transferred _ _ _ _ _ T2) by done. cbn [bind_result Z.eqb negb].
  rewrite (wait_data_token_transferred _ _ _ _ T3 Hd2). cbn [bind_result negb].
  rewrite (receive_bytes_transferred _ _ _ _ T4). cbn [bind_result].
  by rewrite (send_bytes_transferred _ _ _ _ T5).
Qed.

(** The file system after the image was mounted; [contents] are the files that are open. *)
Record mounted (files : list source_file) (image : list Z) (contents : gmap Z (list Z)) s : Prop := {
  mounted_card : on_card image s;
  mounted_initialized : initialized s = true;
  mounted_directory : exists rest, directory s = Some (map Some (Fs.directory_of files image) ++ rest);
  mounted_handles : forall h bytes, contents !! h = Some bytes ->
    exists start, handles s !! h = Some (start, Z.of_nat (length bytes)) /\ stored_at image start bytes
}.

(** Initialising mounts the image. *)
Lemma init_file_system_mounts files image b sp :
  valid_input files -> is_image files image -> whole_directory files image -> card_off image b ->
  exists s, init_file_system ramdisk area_object (files_init b sp) = Done (0, s)
    /\ mounted files image ∅ (s <| initialized := true |>).
Proof.
  intros Hin Himage Hwhole Hoff. destruct (valid_input_sizes files Hin) as (_ & _ & Hge & Hmax).
  destruct (num_directory_blocks_spec files Hin) as [Hblocks Hone].
  pose proof (image_header files image Himage) as Hlen. pose proof (input_size files Hin) as Hsize.
  destruct (card_init_sd image b Hoff) as (b0 & Hinit & Hb0).
  unfold init_file_system. simpl. rewrite Hinit. cbn [bind_result Z.ltb Z.compare].
  set (s0 := files_init b sp <| registers := b0 |>).
  assert (Hs0 : card_moved image s0 s0) by (split; [repeat split; try done; lia|by exists b0]).
  set (blocks := num_directory_blocks (Z.of_nat (length files))) in *.
  assert (Hu : u32 (blocks * SDMMC_BLOCK_SIZE) = blocks * SDMMC_BLOCK_SIZE)
    by (apply u32_nonneg_small; unfold SDMMC_BLOCK_SIZE in *; lia).
  assert (Hs32 : s32 blocks = blocks) by (apply s32_small; unfold SDMMC_BLOCK_SIZE in *; lia).
  set (size := directory_size blocks).
  assert (Hroom : blocks * SDMMC_BLOCK_SIZE <= size).
  { subst size. unfold directory_size. rewrite Hu. rewrite u32_small by (unfold PAGE_SIZE; lia).
    destruct (PAGE_ALIGN_spec (blocks * SDMMC_BLOCK_SIZE + PAGE_SIZE - 1)) as (_ & ? & _);
      [split; unfold PAGE_SIZE; lia|lia]. }
  destruct (mount_backed (read_block ramdisk) image (card_moved image s0) (read_block_moved image s0) files
    (size - blocks * SDMMC_BLOCK_SIZE) s0 Hin Himage Hwhole Hs0 ltac:(lia))
    as (s1 & Hr & Hs1 & Hmagic & Hcount & buffer & Hcopy & Hdir).
  rewrite Hr. cbn [bind_result]. rewrite Hmagic, bool_decide_true by done. cbn [negb]. rewrite Hcount.
  fold blocks in Hcopy, Hdir |- *. rewrite Hs32. fold size.
  rewrite Z.add_sub_assoc, Z.add_simpl_l in Hcopy. rewrite Hcopy. cbn [bind_result].
  destruct (Hdir s1 Hs1) as (s2 & E & Hs2 & b2 & ->). rewrite E. cbn [bind_result].
  eexists. split; [reflexivity|]. constructor; [exact Hs2|done|by eexists|].
  intros h bytes Hh. by rewrite lookup_empty in Hh.
Qed.

Lemma open_mounted files image contents name object s :
  valid_input files -> is_image files image -> whole_directory files image -> is_name name ->
  mounted files image contents s ->
  exists s', open_initialized name object s = Done (match find_name name files with Some _ => Some object | None => None end, s')
    /\ mounted files image (match (i ← find_name name files; files !! i) with
                            | Some file => <[object := Mkfs.file_bytes file]> contents | None => contents end) s'.
Proof.
  intros Hin Himage Hwhole Hname Hs. pose proof Hs as [Hcard Hinit [rest Hdir] Hhandles].
  unfold open_initialized. rewrite Hdir, lookup_directory_spec by done. cbn [bind_result].
  destruct (find_name name files) as [i|] eqn:Hi; [|by exists s].
  destruct (find_name_lookup name files i Hi) as (file & Hfile & _). simpl. rewrite Hfile. simpl.
  eexists. split; [reflexivity|]. constructor; [exact Hcard|exact Hinit|by exists rest|].
  intros h bytes Hh. simpl. destruct (decide (h = object)) as [->|Hne].
  - rewrite lookup_insert_eq in Hh. injection Hh as <-. rewrite lookup_insert_eq. eexists. split; [done|]. by apply file_stored.
  - rewrite lookup_insert_ne in Hh by congruence. rewrite lookup_insert_ne by congruence. by apply Hhandles.
Qed.

Lemma read_mounted files image contents h bytes offset size s :
  mounted files image contents s -> contents !! h = Some bytes ->
  0 <= offset < 2 ^ 31 -> 0 <= size < 2 ^ 31 ->
  let data := Sdmmc.read_file offset size bytes in
  exists s', read_file ramdisk h offset size s = Done (Z.of_nat (length data), data, s') /\ mounted files image contents s'.
Proof.
  intros Hs Hh Hoff Hsize data. pose proof Hs as [Hcard Hinit Hdir Hhandles].
  destruct (Hhandles h bytes Hh) as (start & Hstart & Hstored). pose proof Hstored as (Hst0 & Hmod & Hmax & _).
  unfold read_file. rewrite Hstart. cbv zeta. rewrite (u32_small (offset + size)) by lia.
  set (n := if _ <? offset + size then _ else size).
  destruct (Z.le_gt_cases (Z.of_nat (length bytes)) offset) as [Hpast|Hin].
  { assert (Hdata : data = []) by by apply read_file_past. exists s. rewrite Hdata. split; [|done].
    assert (Hn : n <= 0).
    { subst n. destruct (_ <? _) eqn:E; bool_to_prop; [rewrite s32_small by lia|]; lia. }
    by rewrite (proj2 (Z.leb_le _ _) Hn). }
  assert (Hn : n = Z.min size (Z.of_nat (length bytes) - offset)).
  { subst n. destruct (_ <? _) eqn:E; bool_to_prop; [rewrite s32_small by lia|]; lia. }
  assert (Hdata : data = Sdmmc.read_file offset n bytes) by (subst data; rewrite Hn; apply read_file_min; lia).
  assert (Hlen : Z.of_nat (length data) = n) by (rewrite Hdata; apply read_file_length; lia).
  destruct (n <=? 0) eqn:En; bool_to_prop.
  { exists s. replace data with (@nil Z) by (symmetry; apply length_zero_iff_nil; lia). by split. }
  rewrite s32_small by lia. change (SDMMC_BLOCK_SIZE - 1) with (Z.ones 9). rewrite Z.land_ones by lia.
  change (2 ^ 9) with SDMMC_BLOCK_SIZE.
  rewrite Z.add_mod, Hmod, Z.add_0_l, Z.mod_mod by done.
  destruct (read_window (read_block ramdisk) image (card_moved image s) (read_block_moved image s)
    start bytes offset n s) as (s' & Hl & Hb & b & ->); [|done|lia..|].
  - split; [done|]. exists (registers s). by destruct s.
  - rewrite Hl. cbn [bind_result]. rewrite <- Hdata, Hlen. eexists. split; [reflexivity|].
    constructor; [exact Hb|done|exact Hdir|exact Hhandles].
Qed.

(** ** Sequences of requests *)

Inductive request :=
| OpenFile (path : list Z) (object : Z)
| ReadFile (handle offset size : Z).

Inductive answer :=
| Opened (handle : option Z)
| Got (result : Z) (bytes : list Z).

Definition request_step (op : request) s : result (answer * kernel_files B) :=
  match op with
  | OpenFile path object => '(h, s) <-- open_file ramdisk path object area_object s;; Done (Opened h, s)
  | ReadFile handle offset size => '(r, bytes, s) <-- read_file ramdisk handle offset size s;; Done (Got r bytes, s)
  end.

Fixpoint request_run (ops : list request) s : result (list answer * kernel_files B) :=
  match ops with
  | [] => Done ([], s)
  | op :: rest => '(a, s) <-- request_step op s;; '(answers, s) <-- request_run rest s;; Done (a :: answers, s)
  end.
End served.

(** The specification: a handle is the contents of a file. *)
Definition contents_step (files : list source_file) (op : request) (contents : gmap Z (list Z)) : answer * gmap Z (list Z) :=
  match op with
  | OpenFile path object =>
      match (i ← find_name path files; files !! i) with
      | Some file => (Opened (Some object), <[object := Mkfs.file_bytes file]> contents)
      | None => (Opened None, contents)
      end
  | ReadFile handle offset size =>
      let data := Sdmmc.read_file offset size (default [] (contents !! handle)) in
      (Got (Z.of_nat (length data)) data, contents)
  end.

Fixpoint contents_run (files : list source_file) (ops : list request) (contents : gmap Z (list Z)) : list answer :=
  match ops with
  | [] => []
  | op :: rest => let '(a, contents) := contents_step files op contents in a :: contents_run files rest contents
  end.

(** A handle that is read was opened. *)
Definition valid_request (contents : gmap Z (list Z)) (op : request) : Prop :=
  match op with
  | OpenFile path _ => is_name path
  | ReadFile handle offset size => is_Some (contents !! handle) /\ 0 <= offset < 2 ^ 31 /\ 0 <= size < 2 ^ 31
  end.

Fixpoint valid_requests (files : list source_file) (ops : list request) (contents : gmap Z (list Z)) : Prop :=
  match ops with
  | [] => True
  | op :: rest => valid_request contents op /\ valid_requests files rest (contents_step files op contents).2
  end.

Section refinement.
Context {B : Type} `{KernelCard B} (ramdisk : list Z) (area_object : vm_area).

Lemma step_mounted files image contents op (s : kernel_files B) :
  valid_input files -> is_image files image -> whole_directory files image ->
  mounted files image contents s -> valid_request contents op ->
  exists s', request_step ramdisk area_object op s = Done ((contents_step files op contents).1, s')
    /\ mounted files image (contents_step files op contents).2 s'.
Proof.
  intros Hin Himage Hwhole Hs Hop. destruct op as [path object|h offset size]; simpl in *.
  - destruct (open_mounted files image contents path object s Hin Himage Hwhole Hop Hs) as (s' & E & Hs').
    exists s'. unfold open_file. rewrite (mounted_initialized _ _ _ _ Hs). rewrite E. cbn [bind_result].
    destruct (find_name path files) as [i|] eqn:Hi; simpl in *; [|by split].
    destruct (find_name_lookup path files i Hi) as (file & Hfile & _). by rewrite Hfile in *.
  - destruct Hop as ([bytes Hh] & Hoff & Hsize). rewrite Hh. simpl.
    destruct (read_mounted ramdisk files image contents h bytes offset size s Hs Hh Hoff Hsize) as (s' & -> & Hs').
    by exists s'.
Qed.

Lemma run_mounted files image ops contents (s : kernel_files B) :
  valid_input files -> is_image files image -> whole_directory files image ->
  mounted files image contents s -> valid_requests files ops contents ->
  exists s', request_run ramdisk area_object ops s = Done (contents_run files ops contents, s').
Proof.
  intros Hin Himage Hwhole. revert contents s. induction ops as [|op ops IH]; intros contents s Hs Hops; [by exists s|].
  destruct Hops as [Hop Hops]. cbn [request_run contents_run].
  destruct (step_mounted files image contents op s Hin Himage Hwhole Hs Hop) as (s1 & -> & Hs1). cbn [bind_result].
  destruct (contents_step files op contents) as [a contents'] eqn:Hstep. simpl in *.
  destruct (IH contents' s1 Hs1 Hops) as (s2 & ->). by exists s2.
Qed.

(** C10: the kernel serves the images mkfs builds, over any card that keeps the promises of
    [SdCard] and that the kernel's initialisation starts.  The files have base names that fit a
    directory entry and not all of them are empty.  From power-up, any sequence of
    opening files and reading from the handles, in any order, at any offset below 2 GB and of any
    size below 2 GB, gives what the contents of the packed files give: a handle for the names that
    are there and none for the others, and for a read the bytes of that file at that offset, fewer
    at its end.  (From 2 GB on the code reads other blocks of the disk.) *)
Theorem kernel_serves_packed_files files header :
  valid_input files -> Exists (fun f => Mkfs.file_bytes f <> []) files ->
  Z.of_nat (length header) = header_size (Z.of_nat (length files)) ->
  exists image, mkfs files header = Done (Some image) /\
    forall (b : B) space ops, card_off image b -> valid_requests files ops ∅ ->
    exists s, request_run ramdisk area_object ops (files_init b space) = Done (contents_run files ops ∅, s).
Proof.
  intros Hin Hex Hlen. destruct (mkfs_spec files header Hin Hlen) as (image & Hmk & Himage).
  exists image. split; [done|]. intros b sp ops Hoff Hops.
  pose proof (whole_directory_nonempty files image Hin Himage Hex) as Hwhole.
  destruct ops as [|op ops]; [by eexists|].
  destruct (init_file_system_mounts ramdisk area_object files image b sp Hin Himage Hwhole Hoff) as (s0 & Hinit & Hs0).
  destruct op as [path object|h offset size].
  2: { destruct Hops as [([bytes Hh] & _) _]. by rewrite lookup_empty in Hh. }
  destruct (run_mounted files image (OpenFile path object :: ops) ∅ _ Hin Himage Hwhole Hs0 Hops) as (s & E).
  exists s. rewrite <- E. cbn [request_run request_step]. unfold open_file. rewrite Hinit. cbn [bind_result]. done.
Qed.
End refinement.

(** ** Failed reads *)

Section failures.
Context {B : Type} `{!Registers B} (ramdisk : list Z).
Implicit Types s : kernel_files B.

Lemma failed_read_keeps_lock block s s' :
  read_sd_device block s = Done (None, s') ->
  sd_lock s' = true /\ handles s' = handles s /\ ramdisk_area s' = ramdisk_area s.
Proof.
  unfold read_sd_device. destruct (sd_lock s); [done|]. intros H.
  apply bind_Done_inv in H as ([r b] & _ & H). destruct (negb (r =? 0)); [by injection H as <-|].
  apply bind_Done_inv in H as ([found b'] & _ & H). destruct (negb found); [by injection H as <-|].
  apply bind_Done_inv in H as ([bytes b''] & _ & H). by apply bind_Done_inv in H as (b3 & _ & H).
Qed.

Lemma read_sd_device_keeps block s r s' :
  read_sd_device block s = Done (r, s') -> handles s' = handles s /\ ramdisk_area s' = ramdisk_area s.
Proof.
  unfold read_sd_device. destruct (sd_lock s); [done|]. intros H.
  apply bind_Done_inv in H as ([r0 b] & _ & H). destruct (negb (r0 =? 0)); [by injection H as _ <-|].
  apply bind_Done_inv in H as ([found b'] & _ & H). destruct (negb found); [by injection H as _ <-|].
  apply bind_Done_inv in H as ([bytes b''] & _ & H). apply bind_Done_inv in H as (b3 & _ & H). by injection H as _ <-.
Qed.

Lemma failed_loop_keeps_lock fuel n total off block stored s stored' s' :
  ramdisk_area s = None ->
  read_loop (read_block ramdisk) fuel n total off block stored s = Done (false, stored', s') ->
  sd_lock s' = true /\ handles s' = handles s /\ ramdisk_area s' = None.
Proof.
  revert total off block stored s. induction fuel as [|fuel IH]; intros total off block stored s Hram H;
    cbn [read_loop] in H; (destruct (total <? n); [|done]); [done|].
  apply bind_Done_inv in H as ([got s1] & Hr & H). unfold read_block in Hr. rewrite Hram in Hr.
  destruct (read_sd_device_keeps _ _ _ _ Hr) as [Hh1 Hram1]. rewrite Hram in Hram1. destruct got as [bytes|].
  - destruct (_ && _); apply IH in H as (? & Hh & ?); try done; by rewrite Hh, Hh1.
  - injection H as <- <-. destruct (failed_read_keeps_lock _ _ _ Hr) as (Hl & _). done.
Qed.

(** C37: one failed read of the card stops the kernel's files for good.  When [read_file] answers
    -1, the driver left its spinlock taken: the next [read_file] of any open file that has
    bytes to give never returns, and interrupts are off. *)
Theorem failed_read_stops_files h offset size s bytes s' :
  ramdisk_area s = None -> read_file ramdisk h offset size s = Done (-1, bytes, s') ->
  forall h' start length offset' size', handles s' !! h' = Some (start, length) -> length < 2 ^ 31 ->
  0 <= offset' < length -> 0 < size' < 2 ^ 31 ->
  read_file ramdisk h' offset' size' s' = Fault OutOfFuel.
Proof.
  intros Hram Hr h' start length offset' size' Hh' Hmax Hoff Hsize.
  assert (Hlock : sd_lock s' = true /\ ramdisk_area s' = None).
  { unfold read_file in Hr. destruct (handles s !! h) as [[base len]|]; [|done]. cbv zeta in Hr.
    set (n := if _ <? _ then _ else _) in Hr. destruct (n <=? 0) eqn:En; [done|]. bool_to_prop.
    apply bind_Done_inv in Hr as ([[complete stored] s1] & Hl & Hr). destruct complete.
    - injection Hr as Hr _ _. lia.
    - injection Hr as _ <-. destruct (failed_loop_keeps_lock _ _ _ _ _ _ _ _ _ Hram Hl) as (? & _ & ?). done. }
  destruct Hlock as [Hlock Hram']. unfold read_file. rewrite Hh'. cbv zeta.
  set (n := if _ <? _ then _ else _).
  assert (Hn : 0 < n).
  { subst n. destruct (_ <? _) eqn:E; bool_to_prop; [rewrite s32_small by lia|]; lia. }
  rewrite (proj2 (Z.leb_gt _ _) Hn). cbn [read_loop]. rewrite (proj2 (Z.ltb_lt 0 n) Hn).
  unfold read_block, read_sd_device. by rewrite Hram', Hlock.
Qed.
End failures.

(** ** Witnesses *)

(** Registers behind which nothing answers. *)
#[local] Instance no_card : Registers unit := {
  register_write _ _ b := Done b;
  register_read _ b := Done (0xff, b);
  register_polls := 1
}.

Definition card_removed : kernel_files unit :=
  files_init tt empty_space <| handles := {[1 := (0x200, 3)]} |>.

Lemma failed_read_stops_files_witness :
  exists s, read_file [] 1 0 2 card_removed = Done (-1, [], s) /\ read_file [] 1 0 1 s = Fault OutOfFuel.
Proof.
  destruct (read_file [] 1 0 2 card_removed) as [[[r bytes] s]|f] eqn:E; [|vm_compute in E; done].
  assert (Hr : r = -1 /\ bytes = [] /\ handles s !! 1 = Some (0x200, 3)).
  { assert (Hends : match read_file [] 1 0 2 card_removed with
      | Done (r, [], s) => (r =? -1) && bool_decide (handles s !! 1 = Some (0x200, 3)) | _ => false end = true)
      by (vm_compute; reflexivity).
    rewrite E in Hends. destruct bytes; [|done]. apply andb_true_iff in Hends as [H1 H2].
    bool_to_prop. by apply bool_decide_eq_true in H2. }
  destruct Hr as (-> & -> & Hh). exists s. split; [done|].
  by apply (failed_read_stops_files [] 1 0 2 card_removed [] s eq_refl E 1 0x200 3 0 1 Hh); lia.
Defined.

Lemma kernel_serves_packed_files_witness :
  exists image s, mkfs sample_files (replicate 88 0xdd) = Done (Some image)
    /\ request_run [] area_object [OpenFile [0x78] 0x700; OpenFile [0x6c; 0x6f] 0x700; ReadFile 0x700 1 9; ReadFile 0x700 0 1;
         OpenFile [0x68; 0x69] 0x708; ReadFile 0x708 500 50; ReadFile 0x700 3 1] (files_init (started (Some image)) empty_space)
       = Done ([Opened None; Opened (Some 0x700); Got 2 [8; 9]; Got 1 [7]; Opened (Some 0x708);
                Got 50 (map Z.of_nat (seq 100 50)); Got 0 []], s).
Proof.
  destruct (kernel_serves_packed_files (B := devices) [] area_object sample_files (replicate 88 0xdd) sample_valid)
    as (image & Hm & Hserved).
  { constructor. discriminate. }
  { reflexivity. }
  exists image. destruct (Hserved _ empty_space [OpenFile [0x78] 0x700; OpenFile [0x6c; 0x6f] 0x700; ReadFile 0x700 1 9;
    ReadFile 0x700 0 1; OpenFile [0x68; 0x69] 0x708; ReadFile 0x708 500 50; ReadFile 0x700 3 1] (sample_card image Hm)) as [s Hs].
  { repeat split; try (by vm_decide); try (by eexists); try lia. }
  exists s. split; [exact Hm|exact Hs].
Defined.

(** ** What the virtual memory system sees *)

(** The files that are open, as the parameter of [soft_fault]: [read_mounted] says that
    [read_file] answers this. *)
Definition served_file (contents : gmap Z (list Z)) (handle offset size : Z) : option (list Z) :=
  Sdmmc.read_file offset size <$> contents !! handle.

Lemma served_file_ok contents :
  map_Forall (fun _ => Forall is_u8) contents -> reads_ok (served_file contents).
Proof.
  intros Hall h offset size bytes Hsize H. unfold served_file in H.
  destruct (contents !! h) as [all|] eqn:Hh; [|done]. injection H as <-. split.
  - unfold Sdmmc.read_file. rewrite length_take. lia.
  - unfold Sdmmc.read_file. apply Forall_take, Forall_drop. apply (Forall_impl _ _ _ (Hall _ _ Hh)).
    intros x [? Hx]. by split.
Qed.
