(* ===== verification/KernelLoader.v ===== *)
(** * KernelLoader: loading programs (software/kernel/loader.c, elf.h)

    The files are parameters ([open_file], [read_file], as KernelFs shows they are), the
    objects the slab allocator gives are arguments, and memory on the stack that was not read
    into is [None].  Messages are left out. *)

From S2P Require Export KernelFs.
From stdpp Require Import list gmap functions.
Import stdpp.list_relations.list.

#[local] Open Scope Z_scope.

Definition MAX_SEGMENTS : Z := 10.
Definition ELF_MAGIC : list Z := [0x7f; 69; 76; 70].
Definition EM_NYUZI : Z := 9999.
Definition PF_X : Z := 1.
Definition PF_W : Z := 2.
Definition PT_LOAD : Z := 1.

(** The packed structures of elf.h: their sizes, and where the fields that are used are. *)
Definition sizeof_Elf32_Ehdr : Z := 52.
Definition sizeof_Elf32_Phdr : Z := 32.
Definition e_machine_at : Z := 18.
Definition e_entry_at : Z := 24.
Definition e_phoff_at : Z := 28.
Definition e_phnum_at : Z := 44.
Definition p_type_at : Z := 0.
Definition p_offset_at : Z := 4.
Definition p_vaddr_at : Z := 8.
Definition p_filesz_at : Z := 16.
Definition p_memsz_at : Z := 20.
Definition p_flags_at : Z := 24.

(** libc.c, on memory of which bytes may be undefined. *)
Fixpoint memcmp (str1 : list (option Z)) (str2 : list Z) {struct str2} : result Z :=
  match str2 with
  | [] => Done 0
  | c2 :: rest2 =>
      match str1 with
      | Some c1 :: rest1 => let diff := s8 c1 - s8 c2 in if diff =? 0 then memcmp rest1 rest2 else Done diff
      | _ => Fault OutOfBounds
      end
  end.

(** An [Elf32_Half]. *)
Definition half_at (at_ : Z) (buffer : list (option Z)) : result Z :=
  match mapM id (take 2 (drop (Z.to_nat at_) buffer)) with
  | Some bytes => if Z.of_nat (length bytes) =? 2 then Done (bytes_word bytes) else Fault OutOfBounds
  | None => Fault OutOfBounds
  end.

Section Loader.

Context (open_file : list Z -> option Z) (read_file : Z -> Z -> Z -> option (list Z)).

(** [size] bytes of a variable of [capacity] bytes are read; a file may give fewer. *)
Definition read_into (capacity handle offset size : Z) : option (list (option Z)) :=
  bytes ← read_file handle offset size;
  Some (map Some bytes ++ malloc (capacity - Z.of_nat (length bytes))).

(** What the slab allocators give: [cow_file] is what the memory of the second cache holds
    where its [file] is. *)
Record loader_objects := {
  image_object : Z;
  cow_object : Z;
  cow_file : Z;
  segment_object : Z -> vm_area
}.

Definition segment_flags (p_flags : Z) : Z :=
  let area_flags := 0 in
  let area_flags := if Z.land p_flags PF_W =? 0 then area_flags else Z.lor area_flags AREA_WRITABLE in
  if Z.land p_flags PF_X =? 0 then area_flags else Z.lor area_flags AREA_EXECUTABLE.

(** One turn of the loop over segments; [cow_cache] is 0 before it is made.  The result is
    false when no area could be created. *)
Definition load_segment (current : Z) (objects : loader_objects) (segments : list (option Z))
    (image_cache segment_index cow_cache : Z) (s : space_state) : result (bool * Z * space_state) :=
  let field at_ := directory_word (segment_index * sizeof_Elf32_Phdr + at_) segments in
  p_type <-- field p_type_at;;
  if Z.land p_type PT_LOAD =? 0 then Done (true, cow_cache, s)
  else
    p_memsz <-- field p_memsz_at;;
    if p_memsz =? 0 then Done (true, cow_cache, s)
    else
      p_offset <-- field p_offset_at;;
      p_vaddr <-- field p_vaddr_at;;
      p_filesz <-- field p_filesz_at;;
      p_flags <-- field p_flags_at;;
      '(area_cache, cow_cache, s) <--
        (if Z.land p_flags PF_W =? 0 then Done (image_cache, cow_cache, s)
         else if cow_cache =? 0 then
           s <-- on_caches (create_vm_cache (cow_object objects) (cow_file objects) image_cache) s;;
           Done (cow_object objects, cow_object objects, s)
         else Done (cow_cache, cow_cache, s));;
      '(area, s) <-- create_area read_file (Some current) (segment_object objects segment_index) 0 0 p_vaddr p_memsz
                       PLACE_EXACT (map (fun c => Z.of_nat c) [112; 114; 111; 103; 114; 97; 109; 32; 115; 101; 103; 109; 101; 110; 116]%nat)
                       (segment_flags p_flags) area_cache p_offset s;;
      match area with
      | None => Done (false, cow_cache, s)
      | Some area =>
          a <-- get_space (Some current) s;;
          Done (true, cow_cache, set_area_map (Some current)
            (update_area (area_ptr area) (fun x => x <| cache_length := p_filesz |>) (area_map a)) s)
      end.

Fixpoint load_segments (count : nat) (current : Z) (objects : loader_objects) (segments : list (option Z))
    (image_cache segment_index cow_cache : Z) (s : space_state) : result (bool * Z * space_state) :=
  match count with
  | O => Done (true, cow_cache, s)
  | S count' =>
      '(loaded, cow_cache, s) <-- load_segment current objects segments image_cache segment_index cow_cache s;;
      if (loaded : bool) then load_segments count' current objects segments image_cache (segment_index + 1) cow_cache s
      else Done (false, cow_cache, s)
  end.

(** [None] is the result -1; else [*out_entry] is given.  [current] is the space of the process. *)
Definition load_program (current : Z) (filename : list Z) (objects : loader_objects) (s : space_state)
    : result (option Z * space_state) :=
  match open_file filename with
  | None => Done (None, s)
  | Some file =>
      match read_into sizeof_Elf32_Ehdr file 0 sizeof_Elf32_Ehdr with
      | None => Done (None, s)
      | Some image_header =>
          difference <-- memcmp image_header ELF_MAGIC;;
          if negb (difference =? 0) then Done (None, s)
          else
            e_machine <-- half_at e_machine_at image_header;;
            if negb (e_machine =? EM_NYUZI) then Done (None, s)
            else
              e_phnum <-- half_at e_phnum_at image_header;;
              if (MAX_SEGMENTS <? e_phnum) || (e_phnum =? 0) then Done (None, s)
              else
                e_phoff <-- directory_word e_phoff_at image_header;;
                match read_into (MAX_SEGMENTS * sizeof_Elf32_Phdr) file e_phoff (e_phnum * sizeof_Elf32_Phdr) with
                | None => Done (None, s)
                | Some segments =>
                    let image_cache := image_object objects in
                    s <-- on_caches (create_vm_cache image_cache file 0) s;;
                    '(loaded, cow_cache, s) <-- load_segments (Z.to_nat e_phnum) current objects segments image_cache 0 0 s;;
                    if negb loaded then Done (None, s)
                    else
                      s <-- on_caches (dec_cache_ref image_cache) s;;
                      s <-- (if cow_cache =? 0 then Done s else on_caches (dec_cache_ref cow_cache) s);;
                      e_entry <-- directory_word e_entry_at image_header;;
                      Done (Some e_entry, s)
                end
      end
  end.

End Loader.

(** ** Programs *)

(** What a program file says: the specification of the loader reads it directly. *)
Definition load16 (at_ : Z) (bytes : list Z) : Z := bytes_word (Sdmmc.read_file at_ 2 bytes).

Record segment := { seg_offset : Z; seg_vaddr : Z; seg_filesz : Z; seg_memsz : Z; seg_p_flags : Z }.

Definition entry_point (file : list Z) : Z := load32 e_entry_at file.
Definition segment_count (file : list Z) : Z := load16 e_phnum_at file.

(** The field of an entry of the segment table. *)
Definition phdr (file : list Z) (index at_ : Z) : Z :=
  load32 (load32 e_phoff_at file + (index * sizeof_Elf32_Phdr + at_)) file.

(** The segment of an entry, if it is to be loaded. *)
Definition segment_at (file : list Z) (index : Z) : option segment :=
  if (Z.land (phdr file index p_type_at) PT_LOAD =? 0) || (phdr file index p_memsz_at =? 0) then None
  else Some {| seg_offset := phdr file index p_offset_at; seg_vaddr := phdr file index p_vaddr_at;
               seg_filesz := phdr file index p_filesz_at; seg_memsz := phdr file index p_memsz_at;
               seg_p_flags := phdr file index p_flags_at |}.

Definition program_segments (file : list Z) : list segment := omap (segment_at file) (seqZ 0 (segment_count file)).

(** The byte of a segment in memory: those of the file, then zeros. *)
Definition segment_byte (file : list Z) (seg : segment) (i : Z) : Z :=
  if i <? seg_filesz seg then nth (Z.to_nat (seg_offset seg + i)) file 0 else 0.

Definition seg_writable (seg : segment) : bool := negb (Z.land (seg_p_flags seg) PF_W =? 0).

Definition in_segment (seg : segment) (va : Z) : Prop :=
  seg_vaddr seg <= va < seg_vaddr seg + round_up (seg_memsz seg).

(** A segment of whole pages of a user's address space and of the file. *)
Record segment_ok (file : list Z) (seg : segment) : Prop := {
  seg_aligned : page_aligned (seg_vaddr seg) /\ page_aligned (seg_offset seg);
  seg_size : 0 < seg_memsz seg < 2 ^ 31 - PAGE_SIZE /\ is_u32 (seg_filesz seg);
  seg_user : PAGE_SIZE <= seg_vaddr seg /\ seg_vaddr seg + round_up (seg_memsz seg) <= KERNEL_BASE;
  seg_stored : 0 <= seg_offset seg /\ seg_offset seg + round_up (seg_memsz seg) < 2 ^ 31
}.

(** Segments share no page of memory and no page of the file, counting what is filled with
    zeros: a cache has one page for each place, whichever segment it is for. *)
Definition separate (seg seg' : segment) : Prop :=
  (seg_vaddr seg + round_up (seg_memsz seg) <= seg_vaddr seg' \/ seg_vaddr seg' + round_up (seg_memsz seg') <= seg_vaddr seg)
  /\ (seg_offset seg + round_up (seg_memsz seg) <= seg_offset seg' \/ seg_offset seg' + round_up (seg_memsz seg') <= seg_offset seg).

Record program_file (file : list Z) : Prop := {
  program_bytes : Forall is_u8 file;
  program_magic : Sdmmc.read_file 0 4 file = ELF_MAGIC;
  program_machine : load16 e_machine_at file = EM_NYUZI;
  program_count : 1 <= segment_count file <= MAX_SEGMENTS;
  program_header : sizeof_Elf32_Ehdr <= Z.of_nat (length file) < 2 ^ 31;
  program_table : 0 <= load32 e_phoff_at file
    /\ load32 e_phoff_at file + segment_count file * sizeof_Elf32_Phdr <= Z.of_nat (length file);
  program_segments_ok : Forall (segment_ok file) (program_segments file);
  program_separate : forall i j seg seg', i <> j -> program_segments file !! i = Some seg ->
    program_segments file !! j = Some seg' -> separate seg seg'
}.

(** ** Reading the headers *)

Lemma half_at_defined at_ bytes rest :
  0 <= at_ -> at_ + 2 <= Z.of_nat (length bytes) ->
  half_at at_ (map Some bytes ++ rest) = Done (load16 at_ bytes).
Proof.
  intros H0 Hl. unfold half_at.
  rewrite drop_app_le by (rewrite length_map; lia).
  rewrite take_app_le by (rewrite length_drop, length_map; lia).
  change (map Some bytes) with (Some <$> bytes). rewrite <- fmap_drop, <- fmap_take.
  change (Some <$> take 2 (drop (Z.to_nat at_) bytes)) with (map Some (Sdmmc.read_file at_ 2 bytes)).
  rewrite Fs.mapM_Some, (proj2 (Z.eqb_eq _ _)); [done|]. apply read_file_length; lia.
Qed.

Lemma memcmp_prefix l m rest :
  take (length m) l = m -> memcmp (map Some l ++ rest) m = Done 0.
Proof.
  revert l. induction m as [|c m IH]; intros [|x l]; simpl; try done. intros [= -> Hm]. rewrite Z.sub_diag. simpl. by apply IH.
Qed.

Section headers.
Context (read_file : Z -> Z -> Z -> option (list Z)) (handle : Z) (file : list Z).

(** The handle reads the file. *)
Definition reads_from : Prop := forall offset size,
  0 <= offset < 2 ^ 31 -> 0 <= size < 2 ^ 31 -> read_file handle offset size = Some (Sdmmc.read_file offset size file).

Lemma read_into_ok capacity offset size :
  reads_from -> 0 <= offset < 2 ^ 31 -> 0 <= size < 2 ^ 31 ->
  read_into read_file capacity handle offset size
  = Some (map Some (Sdmmc.read_file offset size file) ++ malloc (capacity - Z.of_nat (length (Sdmmc.read_file offset size file)))).
Proof. intros H Ho Hs. unfold read_into. by rewrite H. Qed.

(** A word of what was read is a word of the file. *)
Lemma window_word offset size at_ rest :
  0 <= offset -> 0 <= at_ -> at_ + 4 <= size -> offset + size <= Z.of_nat (length file) ->
  directory_word at_ (map Some (Sdmmc.read_file offset size file) ++ rest) = Done (load32 (offset + at_) file).
Proof.
  intros Ho Ha Has Hl. rewrite directory_word_defined by (rewrite ?read_file_length; lia).
  f_equal. unfold load32. by rewrite read_read by lia.
Qed.

Lemma window_half offset size at_ rest :
  0 <= offset -> 0 <= at_ -> at_ + 2 <= size -> offset + size <= Z.of_nat (length file) ->
  half_at at_ (map Some (Sdmmc.read_file offset size file) ++ rest) = Done (load16 (offset + at_) file).
Proof.
  intros Ho Ha Has Hl. rewrite half_at_defined by (rewrite ?read_file_length; lia).
  f_equal. unfold load16. by rewrite read_read by lia.
Qed.
End headers.

(** ** Making the areas *)

Definition area_objects_ok (objects : loader_objects) : Prop := forall i, 0 <= i < MAX_SEGMENTS ->
  length (name (segment_object objects i)) = 32%nat
  /\ forall j, 0 <= j < MAX_SEGMENTS -> area_ptr (segment_object objects i) = area_ptr (segment_object objects j) -> i = j.

(** What the caller and the slab allocators provide: a process's space without areas, and
    objects that are not in use. *)
Record loader_ready (first last : Z) (own : Z -> option owner) (holds users : Z -> Z) (M : gmap (Z * Z) Z)
    (current : Z) (objects : loader_objects) (a : vm_address_space) (s : space_state) : Prop := {
  ready_space : spaces s !! current = Some a /\ area_map a = init_area_map PAGE_SIZE (KERNEL_BASE - 1);
  ready_translation : is_Some (maps (vm (cs s)) !! translation_map a);
  ready_caches : caches_ok first last own holds users M (cs s) /\ idle M (cs s) /\ cache_lock (cs s) = false;
  ready_image : image_object objects <> 0 /\ caches (cs s) !! image_object objects = None;
  ready_cow : cow_object objects <> 0 /\ caches (cs s) !! cow_object objects = None /\ cow_file objects = 0;
  ready_distinct : image_object objects <> cow_object objects;
  ready_areas : area_objects_ok objects
}.

Section loading.
Context (read_file : Z -> Z -> Z -> option (list Z)) (first last : Z) (own : Z -> option owner) (holds : Z -> Z)
  (M : gmap (Z * Z) Z) (current handle : Z) (objects : loader_objects) (a0 : vm_address_space) (vm0 : vm_state).

Abbreviation image := (image_object objects).

Definition segment_cache (seg : segment) : Z := if seg_writable seg then cow_object objects else image_object objects.

Record segment_area (seg : segment) (area : vm_area) : Prop := {
  area_low : low_address area = seg_vaddr seg;
  area_high : high_address area = seg_vaddr seg + round_up (seg_memsz seg) - 1;
  area_cache : cache area = segment_cache seg;
  area_offset : cache_offset area = seg_offset seg;
  area_length : cache_length area = seg_filesz seg;
  area_flags : flags area = segment_flags (seg_p_flags seg)
}.

(** After [index] turns, which made the areas of the segments [done]. *)
Record loading (index : Z) (done : list segment) (cow : Z) (s : space_state) : Prop := {
  loading_map : exists m, spaces s !! current = Some (a0 <| area_map := m |>) /\ map_ok m
    /\ map_low m = PAGE_SIZE /\ map_high m = KERNEL_BASE - 1
    /\ (forall area, area ∈ area_list m -> (exists seg, seg ∈ done /\ segment_area seg area)
         /\ exists i, 0 <= i < index /\ area_ptr area = area_ptr (segment_object objects i))
    /\ (forall seg, seg ∈ done -> exists area, area ∈ area_list m /\ segment_area seg area);
  loading_vm : vm (cs s) = vm0 /\ cache_lock (cs s) = false;
  loading_users : exists users, caches_ok first last own holds users M (cs s)
    /\ 0 < users image /\ (cow <> 0 -> 0 < users cow) /\ (forall seg, seg ∈ done -> 1 < users (segment_cache seg));
  loading_image : exists x, caches (cs s) !! image = Some x /\ VmCache.file x = handle /\ source x = 0
    /\ 1 + (if decide (cow = 0) then 0 else 1) <= cache_ref_count x <= 1 + index + (if decide (cow = 0) then 0 else 1);
  loading_cow : if decide (cow = 0) then caches (cs s) !! cow_object objects = None /\ Forall (fun seg => seg_writable seg = false) done
    else cow = cow_object objects /\ exists y, caches (cs s) !! cow = Some y /\ VmCache.file y = 0 /\ source y = image
      /\ cache_ref_count y <= 1 + index
}.

(** A cache someone uses is referenced. *)
Lemma used_count N users c x s :
  caches_ok first last own holds users N s -> caches s !! c = Some x -> 0 < users c -> 0 < cache_ref_count x.
Proof.
  intros Hs Hx Hu. destruct (graph_count _ _ (caches_graph _ _ _ _ _ _ _ Hs) _ _ _ (graph_lookup _ _ _ Hx)) as (_ & _ & ->).
  pose proof (children_range c (graph s)). lia.
Qed.

Context (Himage0 : image <> 0) (Hcow0 : cow_object objects <> 0) (Hdistinct : image <> cow_object objects)
  (Hfile0 : cow_file objects = 0).

(** The cache for a segment. *)
Lemma segment_cache_ok index done cow s p_flags :
  loading index done cow s -> 0 <= index <= MAX_SEGMENTS ->
  exists cow' s1,
    (if Z.land p_flags PF_W =? 0 then Done (image, cow, s)
     else if cow =? 0 then
       s <-- on_caches (create_vm_cache (cow_object objects) (cow_file objects) image) s;;
       Done (cow_object objects, cow_object objects, s)
     else Done (cow, cow, s))
    = Done (if Z.land p_flags PF_W =? 0 then image else cow_object objects, cow', s1)
    /\ loading index done cow' s1 /\ (Z.land p_flags PF_W <> 0 -> cow' <> 0) /\ (Z.land p_flags PF_W = 0 -> cow' = cow).
Proof.
  intros Hload Hindex. destruct (Z.eqb_spec (Z.land p_flags PF_W) 0) as [|Hw]; [by exists cow, s|].
  pose proof Hload as [Hmap [Hvm Hlock] (users & Hs & Hui & Huc & Hsh) (x & Hx & Hxf & Hxs & Hxc) Hcow].
  destruct (Z.eqb_spec cow 0) as [->|Hc]; rewrite ?decide_True, ?decide_False in Hcow by done.
  2: { destruct Hcow as [-> _]. by exists (cow_object objects), s. }
  destruct Hcow as [Hnew Hnone]. rewrite decide_True in Hxc by done.
  assert (Hsrc : image <> 0 -> exists x, caches (cs s) !! image = Some x /\ 0 < cache_ref_count x < 2 ^ 31 - 1).
  { intros _. exists x. split; [done|]. pose proof (used_count _ _ _ _ _ Hs Hx Hui). unfold MAX_SEGMENTS in *. lia. }
  destruct (create_vm_cache_ok first last own holds users (cow_object objects) (cow_file objects) image M (cs s)
    Hs Hnew Hcow0 Hsrc) as (c & Hcreate & Hs' & Hvm' & Hl' & Hobj & Hothers).
  exists (cow_object objects), (s <| cs := c |>). unfold on_caches. rewrite Hcreate. cbn [bind_result].
  split; [done|]. split; [|by split]. rewrite Hfile0 in Hobj.
  constructor; simpl; [exact Hmap|by rewrite Hvm', Hl'| | |].
  - exists (<[cow_object objects := 1]> users). split; [done|]. rewrite fn_lookup_insert_ne by congruence.
    rewrite fn_lookup_insert. split; [done|]. split; [lia|]. intros seg Hseg. rewrite Forall_forall in Hnone.
    pose proof (Hsh seg Hseg) as H. unfold segment_cache in *. rewrite (Hnone seg Hseg) in *. by rewrite fn_lookup_insert_ne by congruence.
  - destruct (Hothers image Hdistinct) as (Hf & Hsr & Hco). rewrite Hx in Hf, Hsr. simpl in Hf, Hsr.
    destruct (caches c !! image) as [x'|] eqn:Hx'; [|done]. injection Hf as Hf. injection Hsr as Hsr.
    unfold count_of in Hco. rewrite Hx, Hx' in Hco. rewrite decide_True, decide_False in Hco by done.
    rewrite decide_False by done. exists x'. split; [done|]. split; [congruence|]. split; [congruence|lia].
  - rewrite decide_False by done. split; [done|]. eexists. split; [exact Hobj|]. simpl. split_and!; try done; lia.
Qed.
(** A segment gets its area. *)
Lemma segment_area_ok index done cow s seg area_name file :
  loading index done cow s -> 0 <= index < MAX_SEGMENTS -> (seg_writable seg = true -> cow <> 0) ->
  segment_ok file seg -> is_u32 (seg_filesz seg) -> (forall seg', seg' ∈ done -> separate seg' seg) ->
  (length area_name < 32)%nat -> area_objects_ok objects ->
  exists area s1 a1,
    create_area read_file (Some current) (segment_object objects index) 0 0 (seg_vaddr seg) (seg_memsz seg) PLACE_EXACT
      area_name (segment_flags (seg_p_flags seg)) (segment_cache seg) (seg_offset seg) s = Done (Some area, s1)
    /\ get_space (Some current) s1 = Done a1
    /\ loading (index + 1) (done ++ [seg]) cow (set_area_map (Some current)
         (update_area (area_ptr area) (fun x => x <| cache_length := seg_filesz seg |>) (area_map a1)) s1).
Proof.
  intros Hload Hindex Hcw [[Hva Hoa] [Hsz Hfz] [Hu1 Hu2] Hst] Hfu Hsep Hname Hobjs.
  pose proof Hload as [(m & Hsp & Hm & Hml & Hmh & Hin & Hhas) [Hvm Hlock] (users & Hs & Hui & Huc & Hsh) (x & Hx & Hxf & Hxs & Hxc) Hcow].
  destruct (Hobjs index Hindex) as [Hlen Hinj].
  assert (Hround : seg_memsz seg <= round_up (seg_memsz seg))
    by (apply round_up_align; unfold PAGE_SIZE in *; change (2 ^ 31) with 0x80000000 in *; change (2 ^ 32) with 0x100000000; lia).
  (* the cache *)
  assert (Hcache : segment_cache seg <> 0 /\ 0 < users (segment_cache seg)
    /\ exists y, caches (cs s) !! segment_cache seg = Some y /\ cache_ref_count y <= 2 + index).
  { unfold segment_cache. destruct (seg_writable seg).
    - specialize (Hcw eq_refl). rewrite decide_False in Hcow by done. destruct Hcow as (-> & y & Hy & _ & _ & Hyc).
      split; [done|]. split; [by apply Huc|]. exists y. split; [done|lia].
    - split; [done|]. split; [done|]. exists x. split; [done|]. destruct (decide (cow = 0)); lia. }
  destruct Hcache as (Hc0 & Hcu & y & Hy & Hyc). pose proof (used_count _ _ _ _ _ Hs Hy Hcu) as Hypos.
  assert (Hfresh : area_ptr (segment_object objects index) ∉ map area_ptr (area_list m)).
  { intros Hp. apply list_elem_of_fmap in Hp as (area & Hp & Ha). destruct (Hin area Ha) as [_ (i & Hi & Hpi)].
    assert (index = i) by (apply Hinj; [lia|congruence]). lia. }
  assert (Hfree : free_range m (seg_vaddr seg) (round_up (seg_memsz seg))).
  { split; [lia|]. split; [lia|]. apply Forall_forall. intros area Ha. destruct (Hin area Ha) as [(seg' & Hs' & Hsa) _].
    destruct (Hsep seg' Hs') as [Hd _]. rewrite (area_low _ _ Hsa), (area_high _ _ Hsa). lia. }
  assert (Hflags : Z.land (segment_flags (seg_p_flags seg)) AREA_WIRED = 0).
  { unfold segment_flags. by destruct (Z.land _ PF_W =? 0), (Z.land _ PF_X =? 0). }
  assert (Hpos : 0 <= seg_vaddr seg) by (unfold PAGE_SIZE in Hu1; lia).
  destruct (create_area_ok read_file first last own holds users M current (segment_object objects index) (seg_vaddr seg)
    (seg_memsz seg) area_name (segment_flags (seg_p_flags seg)) (segment_cache seg) (seg_offset seg) s (a0 <| area_map := m |>) y)
    as (area & m1 & s1 & Hcreate & Hsp1 & Hm1 & Hml1 & Hmh1 & Hperm & Hptr & Hlow & Hhigh & Hca & Hco & Hfl & Hs1 & Hvm1 & Hl1 & Hcs1);
    try done.
  { split; [lia|]. unfold KERNEL_BASE in *. lia. }
  { unfold PAGE_SIZE in *. change (2 ^ 31) with 0x80000000 in *. change (2 ^ 32) with 0x100000000. lia. }
  { unfold MAX_SEGMENTS in *. lia. }
  exists area, s1, (a0 <| area_map := m |> <| area_map := m1 |>). split; [done|]. split; [unfold get_space; by rewrite Hsp1|].
  set (fill := fun z : vm_area => z <| cache_length := seg_filesz seg |>). simpl (area_map _).
  assert (Hfill : same_range fill) by done.
  assert (Hperm1 : area_list (update_area (area_ptr area) fill m1) ≡ₚ fill area :: area_list m)
    by (apply update_area_perm; [done|done|by rewrite Hptr]).
  assert (Hsa : segment_area seg (fill area)) by by constructor.
  constructor; simpl.
  - exists (update_area (area_ptr area) fill m1). split; [by rewrite lookup_alter_eq, Hsp1|].
    split; [by apply update_area_ok|]. split; [simpl in *; congruence|]. split; [simpl in *; congruence|]. split.
    + intros other Ho. rewrite Hperm1 in Ho. apply elem_of_cons in Ho as [->|Ho].
      * split; [exists seg; split; [apply elem_of_app; right; apply list_elem_of_singleton; done|done]|].
        exists index. split; [lia|exact Hptr].
      * destruct (Hin other Ho) as [(seg' & Hs' & Hsa') (i & Hi & Hp)].
        split; [exists seg'; split; [apply elem_of_app; by left|done]|]. exists i. split; [lia|done].
    + intros seg' Hs'. apply elem_of_app in Hs' as [Hs'|Hs'].
      * destruct (Hhas seg' Hs') as (other & Ho & Hsa'). exists other. split; [|done]. rewrite Hperm1. by right.
      * apply list_elem_of_singleton in Hs' as ->. exists (fill area). split; [|done]. rewrite Hperm1. by left.
  - by rewrite Hvm1, Hl1.
  - exists (<[segment_cache seg := users (segment_cache seg) + 1]> users). split; [done|].
    assert (Hge : forall d, 0 < users d -> 0 < (<[segment_cache seg := users (segment_cache seg) + 1]> users) d).
    { intros d Hd. destruct (decide (d = segment_cache seg)) as [->|]; [rewrite fn_lookup_insert; lia|].
      by rewrite fn_lookup_insert_ne by congruence. }
    split; [by apply Hge|]. split; [intros Hc; by apply Hge, Huc|]. intros seg' Hs'.
    destruct (decide (segment_cache seg' = segment_cache seg)) as [->|Hne]; [rewrite fn_lookup_insert; lia|].
    rewrite fn_lookup_insert_ne by congruence. apply elem_of_app in Hs' as [Hs'|Hs']; [by apply Hsh|].
    apply list_elem_of_singleton in Hs' as ->. done.
  - rewrite Hcs1. destruct (decide (segment_cache seg = image)) as [He|He].
    + rewrite He in *. assert (y = x) as -> by congruence. rewrite lookup_insert_eq. eexists. split; [done|]. simpl.
      split_and!; try done; lia.
    + rewrite lookup_insert_ne by done. exists x. split_and!; try done; lia.
  - rewrite Hcs1. destruct (decide (cow = 0)) as [->|Hc].
    + destruct Hcow as [Hnew Hnone]. assert (Hw : seg_writable seg = false) by (destruct (seg_writable seg); [by destruct Hcw|done]).
      unfold segment_cache. rewrite Hw. rewrite lookup_insert_ne by done. split; [done|].
      apply Forall_app. split; [done|]. by constructor.
    + destruct Hcow as (-> & z & Hz & Hzf & Hzs & Hzc). split; [done|].
      destruct (decide (segment_cache seg = cow_object objects)) as [He|He].
      * rewrite He in *. assert (y = z) as -> by congruence. rewrite lookup_insert_eq. eexists. split; [done|]. simpl.
        split_and!; try done; lia.
      * rewrite lookup_insert_ne by done. exists z. split_and!; try done; lia.
Qed.
Lemma loading_skip index done cow s : loading index done cow s -> loading (index + 1) done cow s.
Proof.
  intros [(m & Hsp & Hm & Hml & Hmh & Hin & Hhas) Hvm Hu (x & Hx & Hxf & Hxs & Hxc) Hcow]. constructor; try done.
  - exists m. split_and!; try done. intros area Ha. destruct (Hin area Ha) as [? (i & Hi & Hp)].
    split; [done|]. exists i. split; [lia|done].
  - exists x. split_and!; try done; lia.
  - destruct (decide (cow = 0)); [done|]. destruct Hcow as (? & y & ? & ? & ? & ?). split; [done|].
    exists y. split_and!; try done; lia.
Qed.

Context (prog : list Z) (Hprog : program_file prog) (Hobjects : area_objects_ok objects).

Definition loaded_before (index : Z) : list segment := omap (segment_at prog) (seqZ 0 index).

Lemma loaded_next index :
  0 <= index -> loaded_before (index + 1) = loaded_before index ++ match segment_at prog index with Some seg => [seg] | None => [] end.
Proof.
  intros Hi. unfold loaded_before. rewrite seqZ_app by lia. by rewrite omap_app.
Qed.

Lemma loaded_prefix index :
  0 <= index < segment_count prog -> exists rest,
  program_segments prog = loaded_before index ++ match segment_at prog index with Some seg => [seg] | None => [] end ++ rest.
Proof.
  intros Hi. unfold program_segments.
  replace (segment_count prog) with ((index + 1) + (segment_count prog - (index + 1))) by lia.
  rewrite seqZ_app by lia. rewrite omap_app. fold (loaded_before (index + 1)). rewrite loaded_next by lia. rewrite <- app_assoc. by eexists.
Qed.

(** The second cache is made for a segment. *)
Definition cow_used (done : list segment) (cow : Z) : Prop :=
  cow <> 0 -> exists seg, seg ∈ done /\ seg_writable seg = true.

(** One turn of the loop. *)
Lemma load_segment_ok index cow s rest :
  let segments := map Some (Sdmmc.read_file (load32 e_phoff_at prog) (segment_count prog * sizeof_Elf32_Phdr) prog) ++ rest in
  0 <= index < segment_count prog -> loading index (loaded_before index) cow s -> cow_used (loaded_before index) cow ->
  exists cow' s', load_segment read_file current objects segments image index cow s = Done (true, cow', s')
    /\ loading (index + 1) (loaded_before (index + 1)) cow' s' /\ cow_used (loaded_before (index + 1)) cow'.
Proof.
  intros segments Hindex Hload Hused. pose proof (program_count _ Hprog) as Hcount. destruct (program_table _ Hprog) as [Hoff Htable].
  assert (Hfield : forall at_, 0 <= at_ -> at_ + 4 <= sizeof_Elf32_Phdr ->
    directory_word (index * sizeof_Elf32_Phdr + at_) segments = Done (phdr prog index at_)).
  { intros at_ H1 H2. unfold sizeof_Elf32_Phdr in *. unfold phdr. apply window_word; unfold sizeof_Elf32_Phdr; lia. }
  destruct (loaded_prefix index Hindex) as [others Hall]. rewrite loaded_next by lia.
  unfold load_segment. rewrite Hfield by (vm_compute; congruence). cbn [bind_result].
  unfold segment_at in Hall |- *.
  destruct (Z.land (phdr prog index p_type_at) PT_LOAD =? 0) eqn:Htype.
  { exists cow, s. rewrite app_nil_r. split; [done|]. split; [by apply loading_skip|done]. }
  rewrite Hfield by (vm_compute; congruence). cbn [bind_result]. destruct (phdr prog index p_memsz_at =? 0) eqn:Hmem.
  { exists cow, s. rewrite app_nil_r. split; [done|]. split; [by apply loading_skip|done]. }
  rewrite !Hfield by (vm_compute; congruence). cbn [bind_result orb] in *.
  set (seg := Build_segment _ _ _ _ _) in *.
  destruct (segment_cache_ok index (loaded_before index) cow s (phdr prog index p_flags_at) Hload ltac:(lia))
    as (cow' & s1 & -> & Hload1 & Hcw & Hsame). cbn [bind_result].
  assert (Hin : seg ∈ program_segments prog) by (rewrite Hall; set_solver).
  pose proof (program_segments_ok _ Hprog) as Hok. rewrite Forall_forall in Hok. specialize (Hok seg Hin).
  assert (Hcache : (if Z.land (phdr prog index p_flags_at) PF_W =? 0 then image else cow_object objects) = segment_cache seg).
  { unfold segment_cache, seg_writable. simpl. by destruct (Z.land _ PF_W =? 0). }
  rewrite Hcache.
  destruct (segment_area_ok index (loaded_before index) cow' s1 seg
    (map (fun c => Z.of_nat c) [112; 114; 111; 103; 114; 97; 109; 32; 115; 101; 103; 109; 101; 110; 116]%nat) prog Hload1)
    as (area & s2 & a & Hcreate & Hget & Hload2).
  - unfold MAX_SEGMENTS in *. lia.
  - intros Hw. apply Hcw. unfold seg_writable in Hw. simpl in Hw. intros E. by rewrite E in Hw.
  - done.
  - destruct (seg_size _ _ Hok) as [_ ?]. done.
  - intros seg' Hs'. apply list_elem_of_lookup in Hs' as [i Hi].
    apply (program_separate _ Hprog i (length (loaded_before index))).
    + apply lookup_lt_Some in Hi. lia.
    + rewrite Hall. by apply lookup_app_l_Some.
    + rewrite Hall. rewrite lookup_app_r by lia. by rewrite Nat.sub_diag.
  - simpl. lia.
  - done.
  - exists cow', (set_area_map (Some current) (update_area (area_ptr area) (fun x => x <| cache_length := seg_filesz seg |>) (area_map a)) s2).
    change (phdr prog index p_vaddr_at) with (seg_vaddr seg). change (phdr prog index p_memsz_at) with (seg_memsz seg).
    change (phdr prog index p_offset_at) with (seg_offset seg). change (phdr prog index p_flags_at) with (seg_p_flags seg).
    rewrite Hcreate. cbn [bind_result]. rewrite Hget. split; [done|]. split; [exact Hload2|].
    intros Hc'. destruct (seg_writable seg) eqn:Hw; [exists seg; split; [set_solver|done]|].
    unfold seg_writable in Hw. simpl in Hw. apply negb_false_iff, Z.eqb_eq in Hw. rewrite (Hsame Hw) in Hc'.
    destruct (Hused Hc') as (seg' & Hs' & ?). exists seg'. split; [set_solver|done].
Qed.

Lemma load_segments_ok count index cow s rest :
  let segments := map Some (Sdmmc.read_file (load32 e_phoff_at prog) (segment_count prog * sizeof_Elf32_Phdr) prog) ++ rest in
  0 <= index -> index + Z.of_nat count = segment_count prog -> loading index (loaded_before index) cow s ->
  cow_used (loaded_before index) cow ->
  exists cow' s', load_segments read_file count current objects segments image index cow s = Done (true, cow', s')
    /\ loading (segment_count prog) (program_segments prog) cow' s' /\ cow_used (program_segments prog) cow'.
Proof.
  intros segments. revert index cow s. induction count as [|count IH]; intros index cow s Hi Hsum Hload Hused.
  - exists cow, s. assert (index = segment_count prog) as -> by lia. by split_and!.
  - destruct (load_segment_ok index cow s rest ltac:(lia) Hload Hused) as (cow1 & s1 & E & Hload1 & Hused1).
    destruct (IH (index + 1) cow1 s1 ltac:(lia) ltac:(lia) Hload1 Hused1) as (cow2 & s2 & E2 & Hload2).
    exists cow2, s2. split; [|done]. cbn [load_segments]. fold segments in E. rewrite E. cbn [bind_result]. exact E2.
Qed.
(** *** The loader's references go *)

(** A reference to a cache without pages is dropped; if it was the last, there is no source. *)
Lemma dec_quiet N users c x s :
  caches_ok first last own holds users N s -> cache_lock s = false -> 0 < users c -> caches s !! c = Some x ->
  (forall o, N !! (c, o) = None) -> (cache_ref_count x = 1 -> source x = 0) ->
  exists s' N', dec_cache_ref c s = Done s' /\ vm s' = vm s /\ cache_lock s' = false
    /\ caches s' = <[c := x <| cache_ref_count := cache_ref_count x - 1 |>]> (caches s)
    /\ caches_ok first last own holds (<[c := users c - 1]> users) N' s' /\ N' ⊆ N.
Proof.
  intros Hs Hlock Hu Hx HM Hlast. pose proof (used_count _ _ _ _ _ Hs Hx Hu) as Hpos.
  destruct (dec_cache_ref_ok first last own holds users c N s Hs Hlock Hu ltac:(by eexists)) as (s' & Hdec & Hd & Hs').
  exists s', (filter (survives s s') N). split; [done|].
  assert (Hpages : page_list x = []).
  { destruct (index_list _ _ (caches_index _ _ _ _ _ _ _ Hs) c x Hx) as [_ Hp]. destruct (page_list x) as [|q l]; [done|].
    destruct (proj1 (Hp q) ltac:(left)) as [o Ho]. by rewrite HM in Ho. }
  assert (Hrun : vm s' = vm s /\ caches s' = <[c := x <| cache_ref_count := cache_ref_count x - 1 |>]> (caches s)).
  { clear Hs' Hd. unfold dec_cache_ref in Hdec. cbn [dec_cache_ref_in] in Hdec. rewrite Hlock in Hdec. cbn [negb kassert bind_result] in Hdec.
    unfold get_cache at 1 in Hdec. rewrite Hx in Hdec. cbn [bind_result] in Hdec.
    rewrite (proj2 (Z.ltb_lt _ _) Hpos) in Hdec. cbn [kassert bind_result] in Hdec. cbv zeta in Hdec.
    change (x <| cache_ref_count ::= fun n => n - 1 |>) with (x <| cache_ref_count := cache_ref_count x - 1 |>) in Hdec.
    set (s1 := set_cache c _ s) in Hdec.
    destruct (Z.eqb_spec (cache_ref_count x) 1) as [H1|H1]; [|injection Hdec as <-; done].
    rewrite (Hlast H1) in Hdec. cbn [Z.eqb bind_result] in Hdec.
    unfold lock_vm_cache in Hdec. change (cache_lock s1) with (cache_lock s) in Hdec. rewrite Hlock in Hdec. cbn [bind_result] in Hdec.
    unfold get_cache at 1 in Hdec. simpl (caches _ !! c) in Hdec. rewrite lookup_insert_eq in Hdec. cbn [bind_result] in Hdec.
    simpl (page_list _) in Hdec. rewrite Hpages in Hdec. simpl (length _) in Hdec. cbn [free_cache_pages] in Hdec.
    unfold get_cache in Hdec. simpl (caches _ !! c) in Hdec. rewrite lookup_insert_eq in Hdec. cbn [bind_result] in Hdec.
    simpl (page_list _) in Hdec. rewrite Hpages in Hdec. by injection Hdec as <-. }
  destruct Hrun as [Hvm Hcs]. split; [done|]. split; [by rewrite (dropped_lock _ _ Hd)|]. split; [done|]. split; [done|].
  apply map_filter_subseteq.
Qed.
(** *** What the areas hold *)

(** The byte of the file that an area has at byte [i] of the page of an address. *)
Definition area_byte (area : vm_area) (va i : Z) : Z :=
  let j := area_page area va + i in
  if j <? cache_length area then nth (Z.to_nat (cache_offset area + j)) prog 0 else 0.

Lemma window_nth offset size i (bytes : list Z) :
  0 <= offset -> 0 <= i -> nth (Z.to_nat i) (Sdmmc.read_file offset size bytes) 0
  = if i <? size then nth (Z.to_nat (offset + i)) bytes 0 else 0.
Proof.
  intros Ho Hi. unfold Sdmmc.read_file. rewrite !nth_lookup. destruct (Z.ltb_spec i size).
  - rewrite lookup_take_lt by lia. rewrite lookup_drop. do 2 f_equal. lia.
  - by rewrite lookup_take_ge by lia.
Qed.

(** Where a fault in a segment's area looks. *)
Lemma segment_fault seg area va :
  segment_ok prog seg -> segment_area seg area -> covers area va ->
  0 <= area_page area va < round_up (seg_memsz seg)
  /\ fault_offset area va = seg_offset seg + area_page area va
  /\ fault_size area va = Z.min PAGE_SIZE (seg_filesz seg - area_page area va).
Proof.
  intros [[Hva Hoa] [Hsz Hfz] [Hu1 Hu2] [Ho Hst]] [Hlow Hhigh _ Hoff Hlen _] [Hc1 Hc2]. rewrite Hlow in Hc1. rewrite Hhigh in Hc2.
  assert (Hpage : page_aligned (area_page area va) /\ 0 <= area_page area va <= va - seg_vaddr seg).
  { unfold area_page. rewrite Hlow. rewrite u32_small by (unfold PAGE_SIZE in *; lia).
    destruct (PAGE_ALIGN_spec (va - seg_vaddr seg)) as (? & ? & ?); [split; unfold PAGE_SIZE, KERNEL_BASE in *; lia|]. split; [done|lia]. }
  destruct Hpage as [Hpa Hpr]. split; [lia|]. split.
  - unfold fault_offset. rewrite Hoff, u32_small by lia. rewrite PAGE_ALIGN_mod by (split; lia).
    unfold page_aligned in *. rewrite Z.add_mod, Hpa, Hoa by done. change ((0 + 0) mod PAGE_SIZE) with 0. lia.
  - unfold fault_size. rewrite bytes_to_read_ok by (rewrite ?Hlen; done || lia). by rewrite Hlen.
Qed.

Context (Hhandle : handle <> 0) (Hreads : reads_from read_file handle prog).

(** A chain that leads to the image has the bytes of the file. *)
Lemma image_serves M' s x seg area va :
  segment_ok prog seg -> segment_area seg area -> covers area va ->
  caches s !! image = Some x -> VmCache.file x = handle -> M' !! (image, fault_offset area va) = None ->
  serves read_file M' s (fault_offset area va) (fault_size area va) image (area_byte area va).
Proof.
  intros Hok Hsa Hva Hx Hxf HM. destruct (segment_fault seg area va Hok Hsa Hva) as (Hpage & Hoff & Hsize).
  destruct Hok as [_ _ _ [Ho Hst]]. pose proof (area_length _ _ Hsa) as Hlen. pose proof (area_offset _ _ Hsa) as Hao.
  set (n := fault_size area va) in *.
  eapply (serves_file read_file M' s _ _ image x (if 0 <? n then Sdmmc.read_file (fault_offset area va) n prog else [])); try done.
  - by rewrite Hxf.
  - unfold file_bytes. rewrite Hxf. destruct (Z.ltb_spec 0 n); [|done]. apply Hreads; [lia|]. unfold PAGE_SIZE in *. lia.
  - intros i Hi. unfold area_byte. rewrite Hlen, Hao, Hoff. destruct (Z.ltb_spec 0 n).
    + rewrite window_nth by lia. destruct (Z.ltb_spec (area_page area va + i) (seg_filesz seg)), (Z.ltb_spec i n); try lia; try done.
      f_equal. lia.
    + destruct (Z.ltb_spec (area_page area va + i) (seg_filesz seg)); [lia|]. by destruct (Z.to_nat i).
Qed.

(** The places of different segments are different, and of one segment give the same. *)
Lemma segment_sizes seg seg' area area' va va' :
  seg ∈ program_segments prog -> seg' ∈ program_segments prog -> segment_area seg area -> segment_area seg' area' ->
  covers area va -> covers area' va' -> fault_offset area va = fault_offset area' va' -> fault_size area va = fault_size area' va'.
Proof.
  intros Hs Hs' Ha Ha' Hva Hva' Heq. pose proof (program_segments_ok _ Hprog) as Hok. rewrite Forall_forall in Hok.
  destruct (segment_fault seg area va (Hok _ Hs) Ha Hva) as (Hp & Hoff & Hsize).
  destruct (segment_fault seg' area' va' (Hok _ Hs') Ha' Hva') as (Hp' & Hoff' & Hsize').
  apply list_elem_of_lookup in Hs as [i Hi]. apply list_elem_of_lookup in Hs' as [j Hj].
  destruct (decide (i = j)) as [->|Hne].
  - assert (seg' = seg) as -> by congruence. rewrite Hsize, Hsize'. f_equal. lia.
  - destruct (program_separate _ Hprog i j seg seg' Hne Hi Hj) as [_ Hsep]. lia.
Qed.

Context (HM : forall o, M !! (image, o) = None /\ M !! (cow_object objects, o) = None).

(** The loader's references are dropped, and the process can run. *)
Lemma release_space_ok bound cow s :
  loading (segment_count prog) (program_segments prog) cow s -> cow_used (program_segments prog) cow ->
  idle M (cs s) -> (forall page, holds page <= bound) -> is_Some (maps vm0 !! translation_map a0) ->
  exists s' m, (s <-- on_caches (dec_cache_ref image) s;;
             if cow =? 0 then Done s else on_caches (dec_cache_ref cow) s) = Done s'
    /\ space_ready read_file first last bound current area_byte (a0 <| area_map := m |>) s'
    /\ forall seg, seg ∈ program_segments prog -> exists area, area ∈ area_list m /\ segment_area seg area.
Proof.
  intros [(m & Hsp & Hm & Hml & Hmh & Hin & Hhas) [Hvm Hlock] (users & Hs & Hui & Huc & Hsh) (x & Hx & Hxf & Hxs & Hxc) Hcow]
    Hused Hidle Hbound Hdir.
  destruct (dec_quiet M users image x (cs s) Hs Hlock Hui Hx (fun o => proj1 (HM o)) ltac:(done))
    as (c1 & M1 & Hdec1 & Hvm1 & Hl1 & Hcs1 & Hok1 & Hsub1).
  assert (Hfinal : exists c2 M2 users2, (if cow =? 0 then Done c1 else dec_cache_ref cow c1) = Done c2
    /\ vm c2 = vm (cs s) /\ cache_lock c2 = false /\ caches_ok first last own holds users2 M2 c2 /\ M2 ⊆ M
    /\ (exists x2, caches c2 !! image = Some x2 /\ VmCache.file x2 = handle)
    /\ (cow <> 0 -> cow = cow_object objects /\ exists y, caches c2 !! cow = Some y /\ VmCache.file y = 0 /\ source y = image)).
  { destruct (Z.eqb_spec cow 0) as [->|Hc].
    - exists c1, M1, (<[image := users image - 1]> users). split_and!; try done.
      rewrite Hcs1, lookup_insert_eq. eexists. split; [done|]. exact Hxf.
    - rewrite decide_False in Hcow by done. destruct Hcow as (-> & y & Hy & Hyf & Hys & Hyc).
      assert (Hy1 : caches c1 !! cow_object objects = Some y) by (by rewrite Hcs1, lookup_insert_ne by congruence).
      assert (Hu1 : (<[image := users image - 1]> users) (cow_object objects) = users (cow_object objects))
        by (by rewrite fn_lookup_insert_ne by congruence).
      destruct (Hused Hc) as (seg & Hseg & Hw). pose proof (Hsh seg Hseg) as Htwo. unfold segment_cache in Htwo. rewrite Hw in Htwo.
      assert (Hy2 : cache_ref_count y <> 1).
      { pose proof (graph_count _ _ (caches_graph _ _ _ _ _ _ _ Hs) _ _ _ (graph_lookup _ _ _ Hy)) as (_ & _ & ->).
        pose proof (children_range (cow_object objects) (graph (cs s))). lia. }
      assert (HM1 : forall o, M1 !! (cow_object objects, o) = None).
      { intros o. destruct (M1 !! _) as [q|] eqn:E; [|done]. apply (lookup_weaken _ _ _ _ E) in Hsub1. by rewrite (proj2 (HM o)) in Hsub1. }
      destruct (dec_quiet M1 (<[image := users image - 1]> users) (cow_object objects) y c1 Hok1 Hl1 ltac:(rewrite Hu1; by apply Huc) Hy1 HM1 ltac:(done))
        as (c2 & M2 & Hdec2 & Hvm2 & Hl2 & Hcs2 & Hok2 & Hsub2).
      exists c2, M2. eexists. split; [exact Hdec2|]. split; [congruence|]. split; [done|]. split; [exact Hok2|].
      split; [by etransitivity|]. split.
      + rewrite Hcs2, lookup_insert_ne, Hcs1, lookup_insert_eq by congruence. eexists. split; [done|]. exact Hxf.
      + intros _. split; [done|]. rewrite Hcs2, lookup_insert_eq. eexists. split; [done|]. by split. }
  destruct Hfinal as (c2 & M2 & users2 & Hdec & Hvm2 & Hl2 & Hok2 & Hsub & (x2 & Hx2 & Hx2f) & Hcow2).
  exists (s <| cs := c2 |>), m. split; [|split; [|exact Hhas]].
  { unfold on_caches. rewrite Hdec1. cbn [bind_result]. change (cs (s <| cs := c1 |>)) with c1.
    destruct (cow =? 0); [by injection Hdec as <-|]. by rewrite Hdec. }
  assert (HM2 : forall c o, c = image \/ c = cow_object objects -> M2 !! (c, o) = None).
  { intros c o Hc. destruct (M2 !! (c, o)) as [q|] eqn:E; [|done]. apply (lookup_weaken _ _ _ _ E) in Hsub.
    destruct (HM o). destruct Hc as [-> | ->]; congruence. }
  pose proof (program_segments_ok _ Hprog) as Hsegs. rewrite Forall_forall in Hsegs.
  constructor; simpl; try done.
  - rewrite Hmh. lia.
  - by rewrite Hvm2, Hvm.
  - intros area Ha. destruct (Hin area Ha) as [(seg & Hseg & Hsa) _]. destruct (Hsegs seg Hseg) as [_ [? ?] [? ?] [? ?]].
    rewrite (area_cache _ _ Hsa), (area_length _ _ Hsa), (area_low _ _ Hsa), (area_high _ _ Hsa). unfold segment_cache, PAGE_SIZE in *.
    split; [by destruct (seg_writable seg)|]. split; [done|]. lia.
  - intros area va area' va' Ha Ha' Hva Hva' Heq. destruct (Hin area Ha) as [(seg & Hseg & Hsa) _].
    destruct (Hin area' Ha') as [(seg' & Hseg' & Hsa') _]. by apply (segment_sizes seg seg').
  - exists own, holds, users2, M2. split; [done|]. split.
    { intros k page Hk. destruct (Hidle k page) as (p & Hp & Hb); [by apply (lookup_weaken M2)|]. exists p.
      unfold page_struct in *. rewrite Hvm2. by split. }
    split; [done|]. intros area va Ha Hva. destruct (Hin area Ha) as [(seg & Hseg & Hsa) _].
    pose proof (image_serves M2 c2 x2 seg area va (Hsegs seg Hseg) Hsa Hva Hx2 Hx2f (HM2 image _ (or_introl eq_refl))) as Himg.
    rewrite (area_cache _ _ Hsa). unfold segment_cache. destruct (seg_writable seg) eqn:Hw; [|exact Himg].
    destruct (Hhas seg Hseg) as (other & _ & _).
    assert (Hc : cow <> 0).
    { intros ->. rewrite decide_True in Hcow by done. destruct Hcow as [_ Hnone]. rewrite Forall_forall in Hnone.
      by rewrite (Hnone seg Hseg) in Hw. }
    destruct (Hcow2 Hc) as (-> & y & Hy & Hyf & Hys). eapply serves_source; [exact Hy|apply HM2; by right|done|by rewrite Hys].
Qed.
End loading.

(** ** Programs in memory *)

Fixpoint faults_run (read_file : Z -> Z -> Z -> option (list Z)) (current : Z) (faults : list (Z * bool)) (s : space_state)
    : result (bool * space_state) :=
  match faults with
  | [] => Done (true, s)
  | (va, is_store) :: rest =>
      '(r, s) <-- handle_page_fault read_file current va is_store s;;
      if (r : bool) then faults_run read_file current rest s else Done (false, s)
  end.

(** A program may load from its segments and store to those that may be written. *)
Definition allowed (prog : list Z) (fault : Z * bool) : Prop :=
  exists seg, seg ∈ program_segments prog /\ in_segment seg fault.1 /\ (fault.2 = true -> seg_writable seg = true).

Section programs.
Context (open_file : list Z -> option Z) (read_file : Z -> Z -> Z -> option (list Z)) (first last : Z)
  (own : Z -> option owner) (holds users : Z -> Z) (M : gmap (Z * Z) Z) (current : Z) (objects : loader_objects)
  (a : vm_address_space) (s : space_state) (filename : list Z) (handle : Z) (prog : list Z) (bound : Z).

Context (Hopen : open_file filename = Some handle) (Hhandle : handle <> 0) (Hreads : reads_ok read_file)
  (Hfrom : reads_from read_file handle prog) (Hprog : program_file prog)
  (Hready : loader_ready first last own holds users M current objects a s) (Hbound : forall page, holds page <= bound).

Lemma no_pages o : M !! (image_object objects, o) = None /\ M !! (cow_object objects, o) = None.
Proof.
  destruct Hready as [_ _ [Hok _] [_ Hi] [_ [Hc _]] _ _].
  split; (destruct (M !! _) as [q|] eqn:E; [|done]);
    destruct (index_key _ _ (caches_index _ _ _ _ _ _ _ Hok) _ _ _ E) as (_ & [x Hx] & _); congruence.
Qed.

(** Loading ends with the entry point, and the process's space is ready. *)
Lemma load_program_ok :
  exists s1 m, load_program open_file read_file current filename objects s = Done (Some (entry_point prog), s1)
    /\ space_ready read_file first last bound current (area_byte prog) (a <| area_map := m |>) s1
    /\ forall seg, seg ∈ program_segments prog -> exists area, area ∈ area_list m /\ segment_area objects seg area.
Proof.
  pose proof Hready as [[Hsp Hmap] Hdir (Hok & Hidle & Hlock) [Hi0 Hinew] [Hc0 [Hcnew Hcfile]] Hdist Hobjs].
  pose proof (program_header _ Hprog) as Hhead. destruct (program_table _ Hprog) as [Hoff Htable].
  pose proof (program_count _ Hprog) as Hcount. unfold MAX_SEGMENTS, sizeof_Elf32_Phdr, sizeof_Elf32_Ehdr in *.
  unfold load_program. rewrite Hopen.
  rewrite (read_into_ok read_file handle prog) by (done || (unfold sizeof_Elf32_Ehdr; lia)).
  set (rest := malloc _). set (header := Sdmmc.read_file 0 sizeof_Elf32_Ehdr prog).
  assert (Hmagic : take 4 header = ELF_MAGIC).
  { rewrite <- (program_magic _ Hprog). unfold header, Sdmmc.read_file. rewrite drop_0, take_take. done. }
  rewrite (memcmp_prefix header ELF_MAGIC rest) by exact Hmagic. cbn [bind_result Z.eqb negb].
  unfold header. rewrite (window_half prog 0 _ e_machine_at) by (unfold sizeof_Elf32_Ehdr, e_machine_at, e_phnum_at, e_phoff_at, e_entry_at; lia).
  cbn [bind_result]. change (load16 (0 + e_machine_at) prog) with (load16 e_machine_at prog).
  rewrite (program_machine _ Hprog). cbn [Z.eqb negb]. rewrite Z.eqb_refl. cbn [negb].
  rewrite (window_half prog 0 _ e_phnum_at) by (unfold sizeof_Elf32_Ehdr, e_machine_at, e_phnum_at, e_phoff_at, e_entry_at; lia).
  cbn [bind_result]. change (load16 (0 + e_phnum_at) prog) with (segment_count prog).
  rewrite (proj2 (Z.ltb_ge _ _)), (proj2 (Z.eqb_neq _ _)) by (unfold MAX_SEGMENTS; lia). cbn [orb].
  rewrite (window_word prog 0 _ e_phoff_at) by (unfold sizeof_Elf32_Ehdr, e_machine_at, e_phnum_at, e_phoff_at, e_entry_at; lia).
  cbn [bind_result]. change (load32 (0 + e_phoff_at) prog) with (load32 e_phoff_at prog).
  rewrite (read_into_ok read_file handle prog) by (done || (unfold sizeof_Elf32_Phdr; lia)).
  set (rest' := malloc _).
  destruct (create_vm_cache_ok first last own holds users (image_object objects) handle 0 M (cs s) Hok Hinew Hi0 ltac:(done))
    as (c & Hcreate & Hok' & Hvm' & Hl' & Hobj & Hothers).
  unfold on_caches at 1. rewrite Hcreate. cbn [bind_result].
  assert (Hload0 : loading first last own holds M current handle objects a (vm (cs s)) 0 [] 0 (s <| cs := c |>)).
  { constructor; simpl.
    - exists (area_map a). rewrite Hmap. split; [by rewrite Hsp, <- Hmap; destruct a|].
      split; [constructor; vm_compute; try done; try constructor; done|]. split; [done|]. split; [done|].
      split; [by intros area ?%elem_of_nil|by intros seg ?%elem_of_nil].
    - by rewrite Hvm', Hl'.
    - exists (<[image_object objects := 1]> users). split; [done|]. rewrite fn_lookup_insert. split; [lia|]. split; [done|].
      by intros seg ?%elem_of_nil.
    - eexists. split; [exact Hobj|]. simpl. split_and!; try done; lia.
    - split; [|done]. destruct (Hothers (cow_object objects) ltac:(congruence)) as (Hf & _).
      rewrite Hcnew in Hf. by destruct (caches c !! cow_object objects). }
  destruct (load_segments_ok read_file first last own holds M current handle objects a (vm (cs s)) Hi0 Hc0 Hdist Hcfile
    prog Hprog Hobjs (Z.to_nat (segment_count prog)) 0 0 (s <| cs := c |>) rest' ltac:(lia) ltac:(lia) Hload0 ltac:(by intros []))
    as (cow & s1 & E & Hload & Hused).
  rewrite E. cbn [bind_result negb].
  assert (Hidle1 : idle M (cs s1)).
  { intros k page Hk. destruct (Hidle k page Hk) as (p & Hp & Hb). exists p. unfold page_struct in *.
    destruct (loading_vm _ _ _ _ _ _ _ _ _ _ _ _ _ _ Hload) as [-> _]. by split. }
  destruct (release_space_ok read_file first last own holds M current handle objects a (vm (cs s)) Hi0 Hc0 Hdist prog Hprog Hhandle
    Hfrom no_pages bound cow s1 Hload Hused Hidle1 Hbound Hdir) as (s2 & m & Hrel & Hspace & Hareas).
  exists s2, m. split; [|by split].
  apply bind_Done_inv in Hrel as (s3 & Hd1 & Hd2). rewrite Hd1. cbn [bind_result]. rewrite Hd2. cbn [bind_result].
  rewrite (window_word prog 0 _ e_entry_at) by (unfold sizeof_Elf32_Ehdr, e_machine_at, e_phnum_at, e_phoff_at, e_entry_at; lia). done.
Qed.
Lemma segment_fault_in_space area seg va (is_store : bool) :
  seg ∈ program_segments prog -> segment_area objects seg area -> in_segment seg va ->
  (is_store = true -> seg_writable seg = true) ->
  covers area va /\ (is_store = true -> Z.land (flags area) AREA_WRITABLE <> 0).
Proof.
  intros Hseg [Hlow Hhigh _ _ _ Hfl] [Hv1 Hv2] Hst. split; [split; lia|]. intros E. specialize (Hst E).
  rewrite Hfl. unfold seg_writable in Hst. unfold segment_flags.
  destruct (Z.land _ PF_W =? 0); [done|]. by destruct (Z.land _ PF_X =? 0).
Qed.

Lemma area_segment_byte area seg va i :
  seg ∈ program_segments prog -> segment_area objects seg area -> in_segment seg va ->
  area_byte prog area va i = segment_byte prog seg (PAGE_ALIGN (va - seg_vaddr seg) + i).
Proof.
  intros Hseg [Hlow Hhigh _ Hoff Hlen _] [Hv1 Hv2].
  pose proof (program_segments_ok _ Hprog) as Hok. rewrite Forall_forall in Hok. destruct (Hok seg Hseg) as [_ _ [? ?] _].
  unfold area_byte, segment_byte, area_page. rewrite Hlow, Hoff, Hlen. rewrite u32_small; [done|].
  unfold KERNEL_BASE, PAGE_SIZE in *. lia.
Qed.

(** Any number of allowed faults is served. *)
Lemma faults_ok faults bound' m s1 :
  space_ready read_file first last bound' current (area_byte prog) (a <| area_map := m |>) s1 ->
  (forall seg, seg ∈ program_segments prog -> exists area, area ∈ area_list m /\ segment_area objects seg area) ->
  Forall (allowed prog) faults -> bound' + Z.of_nat (length faults) < 2 ^ 31 - 2 ->
  match faults_run read_file current faults s1 with
  | Fault f => f = HostExit
  | Done (r, s2) => r = true
      /\ space_ready read_file first last (bound' + Z.of_nat (length faults)) current (area_byte prog) (a <| area_map := m |>) s2
  end.
Proof.
  intros Hs Hareas Hall. revert bound' s1 Hs.
  induction Hall as [|[va is_store] faults (seg & Hseg & Hva & Hst) _ IH]; intros bound' s1 Hs Hmax.
  - simpl. by rewrite Z.add_0_r.
  - cbn [faults_run length] in *. destruct (Hareas seg Hseg) as (area & Harea & Hsa).
    pose proof (segment_fault_in_space area seg va is_store Hseg Hsa Hva Hst) as [Hcov Hw].
    pose proof (space_fault read_file first last bound' current (area_byte prog) _ s1 area va is_store Hreads Hs ltac:(lia) Harea Hcov Hw)
      as Hfault.
    destruct (handle_page_fault _ _ va is_store s1) as [[r s2]|f]; [|done]. cbn [bind_result].
    destruct Hfault as (-> & Hs2 & _). specialize (IH (bound' + 1) s2 Hs2 ltac:(lia)).
    destruct (faults_run _ _ _ _) as [[r s3]|f]; [|done].
    replace (bound' + Z.of_nat (S (length faults))) with (bound' + 1 + Z.of_nat (length faults)) by lia. done.
Qed.

(** C8: a loaded program has the memory its file says.  For a program file whose segments are
    whole pages of a user's space and share no page of memory or of the file, [load_program]
    answers the entry point.  Whatever pages the process then faults in, in whatever order,
    loading or (where it may) storing, the next fault at any address of any segment is served
    (or the machine is out of memory): its page is mapped, and holds the segment's bytes of the
    file and zeros after them. *)
Theorem program_memory_is_its_file :
  exists s1, load_program open_file read_file current filename objects s = Done (Some (entry_point prog), s1) /\
    forall faults va is_store seg,
    Forall (allowed prog) faults -> bound + Z.of_nat (length faults) < 2 ^ 31 - 2 ->
    seg ∈ program_segments prog -> in_segment seg va -> (is_store = true -> seg_writable seg = true) ->
    match faults_run read_file current faults s1 with
    | Fault f => f = HostExit
    | Done (r, s2) => r = true /\
        match handle_page_fault read_file current va is_store s2 with
        | Fault f => f = HostExit
        | Done (r, s3) => r = true /\ exists page mapping,
            query_translation_map (translation_map a) va (vm (cs s3)) = Done mapping
            /\ PAGE_ALIGN mapping = page * PAGE_SIZE /\ Z.land mapping PAGE_PRESENT <> 0
            /\ forall i, 0 <= i < PAGE_SIZE -> phys_byte (page * PAGE_SIZE + i) (memory_of (vm (cs s3)))
                 = segment_byte prog seg (PAGE_ALIGN (va - seg_vaddr seg) + i)
        end
    end.
Proof.
  destruct load_program_ok as (s1 & m & Hload & Hs1 & Hareas). exists s1. split; [exact Hload|].
  intros faults va is_store seg Hall Hmax Hseg Hva Hst.
  pose proof (faults_ok faults bound m s1 Hs1 Hareas Hall Hmax) as Hrun.
  destruct (faults_run _ _ _ _) as [[r s2]|f]; [|done]. destruct Hrun as [-> Hs2]. split; [done|].
  destruct (Hareas seg Hseg) as (area & Harea & Hsa).
  pose proof (segment_fault_in_space area seg va is_store Hseg Hsa Hva Hst) as [Hcov Hw].
  pose proof (space_fault read_file first last _ current (area_byte prog) _ s2 area va is_store Hreads Hs2 Hmax Harea Hcov Hw)
    as Hfault.
  destruct (handle_page_fault _ _ va is_store s2) as [[r s3]|f]; [|done].
  destruct Hfault as (-> & _ & page & mapping & Hq & Halign & Hpresent & Hbytes). split; [done|].
  exists page, mapping. split_and!; try done. intros i Hi. rewrite Hbytes by done.
  by apply (area_segment_byte area seg va).
Qed.
End programs.

(** ** A program *)

(** An ELF file with two segments: a page of code at 0x5000 from the file's byte [text] on, and data at
    0x7000 with 4 bytes from [data] on and 0x1800 in memory. *)
Definition elf_header (entry phoff phnum : Z) : list Z :=
  ELF_MAGIC ++ replicate 14 0 ++ [15; 39] ++ replicate 4 0 ++ word_bytes entry ++ word_bytes phoff
  ++ replicate 12 0 ++ [phnum; 0] ++ replicate 6 0.

Definition elf_segment (offset vaddr filesz memsz p_flags : Z) : list Z :=
  word_bytes 1 ++ word_bytes offset ++ word_bytes vaddr ++ word_bytes 0 ++ word_bytes filesz ++ word_bytes memsz
  ++ word_bytes p_flags ++ word_bytes 0.

Definition two_segments (text data : Z) : list Z :=
  let header := elf_header 0x5004 52 2 ++ elf_segment text 0x5000 0x1000 0x1000 5 ++ elf_segment data 0x7000 4 0x1800 6 in
  let put (offset : Z) (bytes image : list Z) :=
    take (Z.to_nat offset) image ++ bytes ++ drop (Z.to_nat offset + length bytes) image in
  put text [81; 82; 83; 84; 85; 86; 87; 88] (put data [61; 62; 63; 64] (header ++ replicate (Z.to_nat 0x2f84) 9)).

Definition small_program : list Z := two_segments 0x1000 0x2000.

Definition program_handle (name : list Z) : option Z := if decide (name = [112]) then Some 7 else None.

Definition small_objects : loader_objects := {|
  image_object := 0x400; cow_object := 0x420; cow_file := 0;
  segment_object i := area_object <| area_ptr := 0x500 + 0x40 * i |>
|}.

Lemma small_program_ok : program_file small_program.
Proof.
  assert (Hsegs : program_segments small_program
    = [ {| seg_offset := 0x1000; seg_vaddr := 0x5000; seg_filesz := 0x1000; seg_memsz := 0x1000; seg_p_flags := 5 |};
        {| seg_offset := 0x2000; seg_vaddr := 0x7000; seg_filesz := 4; seg_memsz := 0x1800; seg_p_flags := 6 |} ])
    by (vm_compute; reflexivity).
  constructor.
  - apply (bool_decide_unpack _). vm_compute. exact I.
  - vm_compute. reflexivity.
  - vm_compute. reflexivity.
  - vm_compute. split; discriminate.
  - vm_compute. split; [discriminate|reflexivity].
  - vm_compute. split; discriminate.
  - rewrite Hsegs. repeat constructor; simpl; try done; vm_compute; congruence.
  - rewrite Hsegs. clear Hsegs. set (text := Build_segment 0x1000 _ _ _ _). set (data := Build_segment 0x2000 _ _ _ _).
    assert (Hsep : separate text data /\ separate data text) by (vm_compute; intuition discriminate).
    intros [|[|i]] [|[|j]] seg seg' Hij Hi Hj; try done; injection Hi as <-; injection Hj as <-; apply Hsep.
Qed.

Definition small_read : Z -> Z -> Z -> option (list Z) := served_file {[7 := small_program]}.

Lemma small_read_ok : reads_ok small_read /\ reads_from small_read 7 small_program.
Proof.
  split.
  - apply served_file_ok. intros h bytes Hh. apply lookup_singleton_Some in Hh as [_ <-]. apply (program_bytes _ small_program_ok).
  - intros offset size _ _. unfold small_read, served_file. by rewrite lookup_singleton_eq.
Qed.

Lemma small_ready : exists own,
  loader_ready 2 15 own (fun _ => 0) (fun _ => 0) ∅ 0x600 small_objects
    {| area_map := init_area_map PAGE_SIZE (KERNEL_BASE - 1); translation_map := 0x100 |} empty_space.
Proof.
  destruct created_pages_free as (own & Ht & Hfree). exists own.
  destruct (run_start_ok 2 15 own state_created [] Ht Hfree) as [H0 _ _ _].
  assert (Hdir : is_Some (maps (vm (cs empty_space)) !! 0x100)) by (vm_compute; by eexists).
  constructor; [done|exact Hdir| |done|done|done|].
  - split; [exact H0|]. split; [|done]. intros k page Hk. by rewrite lookup_empty in Hk.
  - intros i _. split; [done|]. intros j _ Hij. simpl in Hij. lia.
Qed.

(** The process runs its code, stores to its data, and looks past its initialised data. *)
Definition program_run (prog_read : Z -> Z -> Z -> option (list Z)) (faults : list (Z * bool)) (va : Z)
    : result (option Z * (bool * space_state)) :=
  '(entry, s) <-- load_program program_handle prog_read 0x600 [112] small_objects empty_space;;
  '(_, s) <-- faults_run prog_read 0x600 faults s;;
  '(r, s) <-- handle_page_fault prog_read 0x600 va false s;;
  Done (entry, (r, s)).

Lemma program_memory_is_its_file_witness :
  exists s1 s2 s3, load_program program_handle small_read 0x600 [112] small_objects empty_space = Done (Some 0x5004, s1)
    /\ faults_run small_read 0x600 [(0x5004, false); (0x7abc, true)] s1 = Done (true, s2)
    /\ handle_page_fault small_read 0x600 0x7004 false s2 = Done (true, s3)
    /\ exists page mapping, query_translation_map 0x100 0x7004 (vm (cs s3)) = Done mapping
      /\ PAGE_ALIGN mapping = page * PAGE_SIZE /\ Z.land mapping PAGE_PRESENT <> 0
      /\ phys_byte (page * PAGE_SIZE + 1) (memory_of (vm (cs s3))) = 62
      /\ phys_byte (page * PAGE_SIZE + 4) (memory_of (vm (cs s3))) = 0.
Proof.
  destruct small_ready as [own Hready]. destruct small_read_ok as [Hok Hfrom].
  assert (Hopen : program_handle [112] = Some 7) by done.
  destruct (program_memory_is_its_file program_handle small_read 2 15 own (fun _ => 0) (fun _ => 0) ∅ 0x600 small_objects _
    empty_space [112] 7 small_program 0 Hopen ltac:(lia) Hok Hfrom small_program_ok Hready ltac:(lia)) as (s1 & Hload & Hruns).
  set (seg := {| seg_offset := 0x2000; seg_vaddr := 0x7000; seg_filesz := 4; seg_memsz := 0x1800; seg_p_flags := 6 |}).
  assert (Hsegs : program_segments small_program = [
    {| seg_offset := 0x1000; seg_vaddr := 0x5000; seg_filesz := 0x1000; seg_memsz := 0x1000; seg_p_flags := 5 |}; seg])
    by (vm_compute; reflexivity).
  specialize (Hruns [(0x5004, false); (0x7abc, true)] 0x7004 false seg). rewrite Hsegs in Hruns.
  assert (Hall : Forall (allowed small_program) [(0x5004, false); (0x7abc, true)]).
  { apply List.Forall_cons; [|apply List.Forall_cons; [|apply Forall_nil_2]]; unfold allowed; rewrite Hsegs;
      [eexists; split; [left|]|exists seg; split; [right; left|]]; (split; [split; vm_compute; congruence|done]). }
  specialize (Hruns Hall ltac:(vm_compute; congruence) ltac:(right; left) ltac:(split; vm_compute; congruence) ltac:(done)).
  assert (Hends : match program_run small_read [(0x5004, false); (0x7abc, true)] 0x7004 with Done _ => true | _ => false end = true)
    by (vm_compute; reflexivity).
  unfold program_run in Hends. rewrite Hload in Hends. cbn [bind_result] in Hends.
  destruct (faults_run _ _ _ s1) as [[r2 s2]|] eqn:Hs2; [|done]. cbn [bind_result] in Hends. destruct Hruns as [-> Hfault].
  destruct (handle_page_fault _ _ _ _ s2) as [[r3 s3]|] eqn:Hs3; [|done].
  destruct Hfault as (-> & page & mapping & Hq & Halign & Hpresent & Hbytes).
  exists s1, s2, s3. split; [exact Hload|]. split; [done|]. split; [done|]. exists page, mapping.
  split; [done|]. split; [done|]. split; [done|].
  split; rewrite Hbytes by (unfold PAGE_SIZE; lia); vm_compute; reflexivity.
Defined.

(** ** Segments that share pages of the file *)

(** What the process sees at an address after some faults. *)
Definition byte_seen (prog : list Z) (faults : list (Z * bool)) (va : Z) : option Z :=
  match program_run (served_file {[7 := prog]}) faults va with
  | Done (_, (true, s)) =>
      match query_translation_map 0x100 va (vm (cs s)) with
      | Done mapping => Some (phys_byte (PAGE_ALIGN mapping + va mod PAGE_SIZE) (memory_of (vm (cs s))))
      | Fault _ => None
      end
  | _ => None
  end.

(** The data's zeros would be where the file has the code. *)
Definition overlapping_program : list Z := two_segments 0x2000 0x1000.

(** Zeros of a segment that the file would have under another segment are not zeros.  The
    data of this program is 4 bytes and zeros, in the file just before the code.  Its second
    page shares a place of the file's cache with the code, so whichever is touched first decides
    what both hold: after the code ran, uninitialised data reads as code; after uninitialised
    data was read, the code is zeros. *)
Theorem bss_shares_file_pages :
  exists text data, program_segments overlapping_program = [text; data]
    /\ in_segment text 0x5000 /\ in_segment data 0x8000
    /\ segment_byte overlapping_program text 0 = 81 /\ segment_byte overlapping_program data 0x1000 = 0
    /\ byte_seen overlapping_program [] 0x5000 = Some 81 /\ byte_seen overlapping_program [] 0x8000 = Some 0
    /\ byte_seen overlapping_program [(0x5000, false)] 0x8000 = Some 81
    /\ byte_seen overlapping_program [(0x8000, false)] 0x5000 = Some 0.
Proof.
  eexists _, _. split; [vm_compute; reflexivity|]. split; [split; vm_compute; congruence|]. split; [split; vm_compute; congruence|].
  repeat split; vm_compute; reflexivity.
Qed.
