(* ===== verification/KernelHeap.v ===== *)
(** * KernelHeap: the kernel's heap (software/kernel/kernel_heap.c)

    Free ranges are linked through the memory they describe: the header of a range, its [next]
    and [size], are the first words of the range.  The heap is virtual memory, so every access
    to a header goes through the kernel's page tables (TranslationMap) to physical memory, and
    growing the heap allocates pages (VmPage) and maps them.  [heap_lock] is held with
    interrupts off over each function, so each is one step.

    The loops over the list have as fuel one more than the pages of the heap: ranges start at
    different page boundaries ([heap_ok]). *)

From S2P Require Export TranslationMap.
From S2P Require Import BootMap.
From stdpp Require Import list gmap functions.
Import stdpp.list_relations.list.

#[local] Open Scope Z_scope.

(** ** Data *)

(** [struct free_range]: where its fields are. *)
Definition range_next (range : Z) : Z := range.
Definition range_size (range : Z) : Z := range + 4.

Record heap_state := { hm : vm_state; free_list : Z; wilderness_ptr : Z }.

#[export]
Instance heap_state_fields : Fields heap_state := fun s =>
  Build_heap_state (hm s) (free_list s) (wilderness_ptr s).

(** ** Kernel memory through the page tables *)

(** The physical address of a word; the kernel traps on an address that is not mapped, not
    aligned or not writable. *)
Definition kernel_pa (va : Z) (m : vm_state) : result Z :=
  let entry := walk (page_dir (kernel_map m)) va (memory_of m) in
  if (KERNEL_BASE <=? va) && (va mod 4 =? 0) && negb (Z.land entry PAGE_PRESENT =? 0)
     && negb (Z.land entry PAGE_WRITABLE =? 0)
  then Done (PAGE_ALIGN entry + va mod PAGE_SIZE)
  else Fault OutOfBounds.

Definition load_word (va : Z) (s : heap_state) : result Z :=
  pa <-- kernel_pa va (hm s);; Done (memory_of (hm s) pa).

Definition store_word (va v : Z) (s : heap_state) : result heap_state :=
  pa <-- kernel_pa va (hm s);; Done (s <| hm ::= write_phys pa v |>).

(** ** Operations *)

Definition boot_init_heap (base_address : Z) (s : heap_state) : heap_state :=
  s <| wilderness_ptr := base_address |>.

(** [prev_ptr] points to [free_list] ([None]) or to the [next] field of a range. *)
Definition read_link (prev_ptr : option Z) (s : heap_state) : result Z :=
  match prev_ptr with
  | None => Done (free_list s)
  | Some range => load_word (range_next range) s
  end.

Definition write_link (prev_ptr : option Z) (v : Z) (s : heap_state) : result heap_state :=
  match prev_ptr with
  | None => Done (s <| free_list := v |>)
  | Some range => store_word (range_next range) v s
  end.

Definition range_fuel (s : heap_state) : nat :=
  S (S (Z.to_nat ((wilderness_ptr s - KERNEL_HEAP_BASE) / PAGE_SIZE))).

(** Lop a slice off the front of a range. *)
Definition lop_range (prev_ptr : option Z) (candidate size : Z) (s : heap_state) : result heap_state :=
  let new_range := u32 (candidate + size) in
  next <-- load_word (range_next candidate) s;;
  s <-- store_word (range_next new_range) next s;;
  write_link prev_ptr new_range s.

Definition remove_range (prev_ptr : option Z) (candidate : Z) (s : heap_state) : result heap_state :=
  next <-- load_word (range_next candidate) s;;
  write_link prev_ptr next s.

(** The walk for a range that is big enough; 0 when there is none. *)
Fixpoint search_ranges (fuel : nat) (prev_ptr : option Z) (size : Z) (s : heap_state)
  : result (Z * heap_state) :=
  match fuel with
  | O => Fault OutOfFuel
  | S fuel' =>
      candidate <-- read_link prev_ptr s;;
      if candidate =? 0 then Done (0, s) else
      candidate_size <-- load_word (range_size candidate) s;;
      if candidate_size =? size then
        s <-- remove_range prev_ptr candidate s;; Done (candidate, s)
      else if size <? candidate_size then
        s <-- lop_range prev_ptr candidate size s;; Done (candidate, s)
      else search_ranges fuel' (Some candidate) size s
  end.

(** Wire in pages. *)
Fixpoint wire_heap (fuel : nat) (va stop : Z) (m : vm_state) : result vm_state :=
  if va <? stop then
    match fuel with
    | O => Fault OutOfFuel
    | S fuel' =>
        '(page, m) <-- get_page m;;
        m <-- vm_map_page 0 va (Z.lor (page_to_pa page) kernel_flags) m;;
        wire_heap fuel' (u32 (va + PAGE_SIZE)) stop m
    end
  else Done m.

(** The walk for the place of a range that does not come first. *)
Fixpoint place_range (fuel : nat) (new_range prev_range : Z) (s : heap_state) : result (Z * heap_state) :=
  match fuel with
  | O => Fault OutOfFuel
  | S fuel' =>
      if prev_range =? 0 then Done (0, s) else
      next <-- load_word (range_next prev_range) s;;
      if (next =? 0) || ((prev_range <? new_range) && (new_range <? next)) then
        s <-- store_word (range_next new_range) next s;;
        s <-- store_word (range_next prev_range) new_range s;;
        Done (prev_range, s)
      else place_range fuel' new_range next s
  end.

Definition merge_with_next (new_range : Z) (s : heap_state) : result heap_state :=
  next <-- load_word (range_next new_range) s;;
  if next =? 0 then Done s else
  size <-- load_word (range_size new_range) s;;
  if u32 (new_range + size) =? next then
    next_size <-- load_word (range_size next) s;;
    s <-- store_word (range_size new_range) (u32 (size + next_size)) s;;
    next_next <-- load_word (range_next next) s;;
    store_word (range_next new_range) next_next s
  else Done s.

Definition merge_with_previous (prev_range new_range : Z) (s : heap_state) : result heap_state :=
  if prev_range =? 0 then Done s else
  prev_size <-- load_word (range_size prev_range) s;;
  if u32 (prev_range + prev_size) =? new_range then
    next <-- load_word (range_next new_range) s;;
    s <-- store_word (range_next prev_range) next s;;
    size <-- load_word (range_size new_range) s;;
    store_word (range_size prev_range) (u32 (prev_size + size)) s
  else Done s.

Definition insert_free_range (new_range : Z) (s : heap_state) : result heap_state :=
  '(prev_range, s) <--
    (if (free_list s =? 0) || (new_range <? free_list s) then
       s <-- store_word (range_next new_range) (free_list s) s;;
       Done (0, s <| free_list := new_range |>)
     else place_range (range_fuel s) new_range (free_list s) s);;
  s <-- merge_with_next new_range s;;
  merge_with_previous prev_range new_range s.

Definition grow_size (size : Z) : Z :=
  let twice := u32 (size * 2) in if twice <? 0x10000 then 0x10000 else twice.

(** No ranges are large enough: grow the heap. *)
Definition grow_heap (size : Z) (s : heap_state) : result (Z * heap_state) :=
  let stop := u32 (wilderness_ptr s + grow_size size) in
  m <-- wire_heap (S (Z.to_nat (grow_size size / PAGE_SIZE))) (wilderness_ptr s) stop (hm s);;
  let s := s <| hm := m |> in
  let block := wilderness_ptr s in
  let new_range := u32 (wilderness_ptr s + size) in
  s <-- store_word (range_size new_range) (u32 (grow_size size - size)) s;;
  s <-- insert_free_range new_range (s <| wilderness_ptr := stop |>);;
  Done (block, s).

Definition kmalloc (size : Z) (s : heap_state) : result (Z * heap_state) :=
  '(block, s) <-- search_ranges (range_fuel s) None size s;;
  if block =? 0 then grow_heap size s else Done (block, s).

Definition kfree (ptr size : Z) (s : heap_state) : result heap_state :=
  s <-- store_word (range_size ptr) size s;;
  insert_free_range ptr s.

(** ** The pages of the heap *)

Lemma heap_entry page :
  0 <= page -> (page + 1) * PAGE_SIZE <= 2 ^ 32 ->
  PAGE_ALIGN (Z.lor (page * PAGE_SIZE) kernel_flags) = page * PAGE_SIZE
  /\ Z.land (Z.lor (page * PAGE_SIZE) kernel_flags) PAGE_PRESENT <> 0
  /\ Z.land (Z.lor (page * PAGE_SIZE) kernel_flags) PAGE_WRITABLE <> 0.
Proof.
  intros Hp Hmax.
  assert (Hlor : Z.lor (page * PAGE_SIZE) kernel_flags = page * PAGE_SIZE + 27).
  { change kernel_flags with 27. symmetry. apply Z.add_nocarry_lor. change PAGE_SIZE with (2 ^ 12).
    apply Z.bits_inj'. intros i Hi. rewrite Z.land_spec, Z.bits_0.
    destruct (decide (i < 12)); [by rewrite Z.mul_pow2_bits_low by lia|].
    rewrite (proj2 (proj1 (is_unsigned_bits 12 27 ltac:(lia)) ltac:(done)) i) by lia. apply andb_false_r. }
  split; [|split].
  - rewrite Hlor, PAGE_ALIGN_mod.
    + unfold PAGE_SIZE. Z.div_mod_to_equations. lia.
    + unfold is_u32, is_unsigned, PAGE_SIZE in *. lia.
  - rewrite Z.land_lor_distr_l. intros Hz%Z.lor_eq_0_iff. destruct Hz as [_ Hz]. by vm_compute in Hz.
  - rewrite Z.land_lor_distr_l. intros Hz%Z.lor_eq_0_iff. destruct Hz as [_ Hz]. by vm_compute in Hz.
Qed.

Lemma walk_page dir va va' memory :
  va / PAGE_SIZE = va' / PAGE_SIZE -> walk dir va memory = walk dir va' memory.
Proof. intros H. unfold walk, pgdindex, pgtindex. by rewrite H. Qed.

(** The word of the heap at [va], when page [i] of kernel memory is in the page [frame i]. *)
Definition frame_pa (frame : Z -> Z) (va : Z) : Z := frame (va / PAGE_SIZE) * PAGE_SIZE + va mod PAGE_SIZE.
Definition word (frame : Z -> Z) (m : vm_state) (va : Z) : Z := memory_of m (frame_pa frame va).

Section Pages.
Context (first last base limit : Z).

(** The heap from [base] to [top]: each page is mapped to a page of its own, which is nobody
    else's; it can grow to [limit] through page tables that exist. *)
Record heap_pages (own : Z -> option owner) (frame : Z -> Z) (top : Z) (m : vm_state) : Prop := {
  hp_tables : tables_ok first last own m;
  hp_top : top <= limit;
  hp_present : forall va, base <= va < limit -> kernel_table_present va m;
  hp_walk : forall va, base <= va < top ->
    walk (page_dir (kernel_map m)) va (memory_of m) = Z.lor (frame (va / PAGE_SIZE) * PAGE_SIZE) kernel_flags;
  hp_frame : forall va, base <= va < top ->
    first <= frame (va / PAGE_SIZE) < last /\ own (frame (va / PAGE_SIZE)) = None
    /\ 0 < refs (frame (va / PAGE_SIZE)) (frames m);
  hp_inj : forall va va', base <= va < top -> base <= va' < top ->
    frame (va / PAGE_SIZE) = frame (va' / PAGE_SIZE) -> va / PAGE_SIZE = va' / PAGE_SIZE
}.

Context (Hbase : KERNEL_BASE <= base) (Hlimit : limit < 2 ^ 32).

(** A word the kernel may use. *)
Definition heap_word (top va : Z) : Prop := base <= va < top /\ va mod 4 = 0.

Lemma frame_pa_inj own frame top m va va' :
  heap_pages own frame top m -> base <= va < top -> base <= va' < top ->
  frame_pa frame va = frame_pa frame va' -> va = va'.
Proof.
  intros Hp Hva Hva' Heq. unfold frame_pa in Heq.
  pose proof (Z.mod_pos_bound va PAGE_SIZE ltac:(done)). pose proof (Z.mod_pos_bound va' PAGE_SIZE ltac:(done)).
  assert (Hframe : frame (va / PAGE_SIZE) = frame (va' / PAGE_SIZE)) by (unfold PAGE_SIZE in *; lia).
  apply (hp_inj _ _ _ _ Hp) in Hframe; [|done|done].
  rewrite (Z.div_mod va PAGE_SIZE), (Z.div_mod va' PAGE_SIZE) by done.
  rewrite Hframe in *. lia.
Qed.

Lemma frame_bound own frame top m va :
  heap_pages own frame top m -> base <= va < top ->
  0 <= frame (va / PAGE_SIZE) /\ (frame (va / PAGE_SIZE) + 1) * PAGE_SIZE <= 2 ^ 32.
Proof.
  intros Hp Hva. destruct (hp_frame _ _ _ _ Hp va Hva) as [Hr _].
  destruct (tables_memory _ _ _ _ (hp_tables _ _ _ _ Hp)) as [H0 _].
  destruct (ok_range _ _ _ (tables_pages _ _ _ _ (hp_tables _ _ _ _ Hp))) as (_ & _ & Hmax).
  unfold PAGE_SIZE in *. lia.
Qed.

Lemma kernel_pa_ok own frame top m va :
  heap_pages own frame top m -> heap_word top va -> kernel_pa va m = Done (frame_pa frame va).
Proof.
  intros Hp [Hva Halign]. destruct (frame_bound _ _ _ _ _ Hp Hva) as [H0 H1].
  destruct (heap_entry (frame (va / PAGE_SIZE)) H0 H1) as (Ha & Hpr & Hw).
  unfold kernel_pa. cbv zeta. rewrite (hp_walk _ _ _ _ Hp va Hva), Ha.
  rewrite (proj2 (Z.leb_le _ _)) by lia. rewrite (proj2 (Z.eqb_eq _ _) Halign).
  by rewrite (proj2 (Z.eqb_neq _ _) Hpr), (proj2 (Z.eqb_neq _ _) Hw).
Qed.

Lemma load_word_ok own frame top s va :
  heap_pages own frame top (hm s) -> heap_word top va -> load_word va s = Done (word frame (hm s) va).
Proof. intros Hp Hva. unfold load_word. by rewrite (kernel_pa_ok _ _ _ _ _ Hp Hva). Qed.

Lemma frame_pa_page frame va : in_page (frame (va / PAGE_SIZE)) (frame_pa frame va).
Proof.
  unfold in_page, frame_pa. pose proof (Z.mod_pos_bound va PAGE_SIZE ltac:(done)). lia.
Qed.

(** A write to a page of the heap. *)
Lemma write_heap_ok own frame top m va v :
  heap_pages own frame top m -> base <= va < top ->
  heap_pages own frame top (write_phys (frame_pa frame va) v m)
  /\ (forall va', base <= va' < top ->
       word frame (write_phys (frame_pa frame va) v m) va' = if decide (va' = va) then v else word frame m va').
Proof.
  intros Hp Hva. destruct (hp_frame _ _ _ _ Hp va Hva) as (Hr & Hnone & _).
  assert (Hsame : forall p o a, own p = Some o -> in_page p a ->
    memory_of (write_phys (frame_pa frame va) v m) a = memory_of m a).
  { intros p o a Hown Ha. rewrite memory_write, decide_False; [done|]. intros ->.
    assert (p = frame (va / PAGE_SIZE)) as -> by (pose proof (frame_pa_page frame va) as H2; unfold in_page, PAGE_SIZE in *; lia).
    congruence. }
  assert (Hslot : forall p o slot, own p = Some o -> 0 <= slot < 1024 ->
    memory_of (write_phys (frame_pa frame va) v m) (p * PAGE_SIZE + slot * 4) = memory_of m (p * PAGE_SIZE + slot * 4)).
  { intros p o slot Hown Hs. apply (Hsame p o); [done|]. by apply word_in_page. }
  pose proof (hp_tables _ _ _ _ Hp) as Hok.
  split; [constructor; simpl|].
  - apply (tables_ok_memory first last own m); [done|by eexists|]. intros sp p slot. by apply Hslot.
  - apply (hp_top _ _ _ _ Hp).
  - intros va' Hva' HK. specialize (hp_present _ _ _ _ Hp va' Hva' HK). simpl.
    destruct (tables_dir _ _ _ _ Hok Kernel _ eq_refl) as (kd & Hkd & Hkown).
    destruct (index_range va' ltac:(unfold KERNEL_BASE in *; lia)) as [Hr1 _].
    rewrite Hkd, (Hslot kd _ _ Hkown Hr1). done.
  - intros va' Hva'. rewrite <- (hp_walk _ _ _ _ Hp va' Hva').
    apply (walk_same first last own m Kernel); [done|done| |].
    + apply in_kernel. pose proof (hp_top _ _ _ _ Hp). unfold KERNEL_BASE in *. lia.
    + intros p o slot Hown Hs _. by apply (Hslot p o).
  - intros va'. apply (hp_frame _ _ _ _ Hp).
  - apply (hp_inj _ _ _ _ Hp).
  - intros va' Hva'. unfold word. rewrite memory_write. destruct (decide (va' = va)) as [->|Hne].
    + by rewrite decide_True.
    + rewrite decide_False; [done|]. intros Heq. apply Hne. by apply (frame_pa_inj own frame top m).
Qed.

Lemma heap_store_ok own frame top s va v :
  heap_pages own frame top (hm s) -> heap_word top va ->
  exists m, store_word va v s = Done (s <| hm := m |>) /\ heap_pages own frame top m
    /\ (forall va', base <= va' < top ->
         word frame m va' = if decide (va' = va) then v else word frame (hm s) va')
    /\ (forall p, refs p (frames m) = refs p (frames (hm s))).
Proof.
  intros Hp Hva. exists (write_phys (frame_pa frame va) v (hm s)).
  unfold store_word. rewrite (kernel_pa_ok _ _ _ _ _ Hp Hva). split; [done|].
  destruct (write_heap_ok own frame top (hm s) va v Hp ltac:(apply Hva)) as [H1 H2]. done.
Qed.

Lemma get_page_free own m page m1 :
  tables_ok first last own m -> get_page m = Done (page, m1) -> refs page (frames m) = 0.
Proof.
  intros Hok Hget. unfold get_page in Hget. apply bind_Done_inv in Hget as ([p f] & Hget & [= -> _]).
  by destruct (allocate_ok _ _ _ _ _ (tables_pages _ _ _ _ Hok) Hget) as (_ & _ & ? & _).
Qed.

(** A page taken for the heap's next page. *)
Lemma heap_page_ok own frame top m page m1 :
  heap_pages own frame top m -> page_aligned top -> base <= top -> top + PAGE_SIZE <= limit ->
  get_page m = Done (page, m1) ->
  exists m', vm_map_page 0 top (Z.lor (page_to_pa page) kernel_flags) m1 = Done m'
    /\ let frame' := <[top / PAGE_SIZE := page]> frame in
       heap_pages own frame' (top + PAGE_SIZE) m'
       /\ (forall va, base <= va < top -> word frame' m' va = word frame m va)
       /\ (forall va, top <= va < top + PAGE_SIZE -> word frame' m' va = 0)
       /\ free_page_list (frames m') = free_page_list (frames m1).
Proof.
  intros Hp Ha Hb Hl Hget. pose proof (hp_tables _ _ _ _ Hp) as Hok.
  destruct (get_page_ok first last own m page m1 Hok Hget)
    as (Hok1 & Hnone & Hrange & Hpa & [f ->] & Hrefs & Hzero).
  destruct (tables_memory _ _ _ _ Hok) as [Hfirst _].
  set (m1 := m <| frames := f |>) in *. rewrite Hpa.
  assert (Hkeep : forall p o slot, own p = Some o -> 0 <= slot < 1024 ->
    memory_of m1 (p * PAGE_SIZE + slot * 4) = memory_of m (p * PAGE_SIZE + slot * 4)).
  { intros p o slot Hown Hs. rewrite Hzero, decide_False; [done|]. rewrite word_in_page by done. congruence. }
  assert (Hdirs : forall m2 va, (forall p sp slot, own p = Some (Directory sp) -> 0 <= slot < 1024 ->
      memory_of m2 (p * PAGE_SIZE + slot * 4) = memory_of m (p * PAGE_SIZE + slot * 4)) ->
    kernel_map m2 = kernel_map m -> base <= va < limit -> kernel_table_present va m2).
  { intros m2 va Hsame Hk Hva HK. specialize (hp_present _ _ _ _ Hp va Hva HK). rewrite Hk.
    destruct (tables_dir _ _ _ _ Hok Kernel _ eq_refl) as (kd & Hkd & Hkown). simpl in Hkd.
    destruct (index_range va ltac:(unfold KERNEL_BASE in *; lia)) as [Hr1 _].
    by rewrite Hkd, (Hsame kd _ _ Hkown Hr1). }
  assert (Hpres : kernel_table_present top m1).
  { apply Hdirs; [|done|unfold PAGE_SIZE in *; lia]. intros p sp slot. apply Hkeep. }
  assert (Hin : in_space Kernel top) by (apply in_kernel; unfold KERNEL_BASE, PAGE_SIZE in *; lia).
  specialize (Hpres ltac:(lia)).
  destruct (set_table_entry_ok first last own m1 Kernel (page_dir (kernel_map m)) top
    (Z.lor (page * PAGE_SIZE) kernel_flags) Hok1 eq_refl Hin Hpres) as (Hok2 & Hwalk & Hothers).
  set (m2 := set_table_entry _ _ _ _) in *.
  exists m2. split.
  { unfold vm_map_page. rewrite (proj2 (Z.leb_le _ _)) by lia. cbv zeta.
    by rewrite (proj2 (Z.eqb_neq _ _) Hpres). }
  intros frame'.
  assert (Hold : forall va, base <= va < top -> frame' (va / PAGE_SIZE) = frame (va / PAGE_SIZE)
    /\ va / PAGE_SIZE <> top / PAGE_SIZE /\ frame (va / PAGE_SIZE) <> page).
  { intros va Hva. unfold page_aligned in Ha.
    assert (va / PAGE_SIZE <> top / PAGE_SIZE) by (unfold PAGE_SIZE in *; Z.div_mod_to_equations; lia).
    split; [by apply fn_lookup_insert_ne|]. split; [done|]. intros Heq.
    destruct (hp_frame _ _ _ _ Hp va Hva) as (Hr & _ & Hpos). rewrite Heq in Hpos.
    pose proof (get_page_free own m page m1 Hok Hget). lia. }
  assert (Htop : forall va, top <= va < top + PAGE_SIZE -> va / PAGE_SIZE = top / PAGE_SIZE).
  { intros va Hva. unfold page_aligned, PAGE_SIZE in *. Z.div_mod_to_equations. lia. }
  assert (Hnew : frame' (top / PAGE_SIZE) = page) by apply fn_lookup_insert.
  assert (Hsplit : forall va, base <= va < top + PAGE_SIZE -> base <= va < top \/ top <= va < top + PAGE_SIZE) by lia.
  assert (Hw : forall va, base <= va < top + PAGE_SIZE ->
    word frame' m2 va = if decide (va < top) then word frame m va else 0).
  { intros va Hva. unfold word. destruct (decide _).
    - destruct (Hold va ltac:(lia)) as (Heq & _ & Hne).
      destruct (hp_frame _ _ _ _ Hp va ltac:(lia)) as (_ & Hn & _).
      assert (frame_pa frame' va = frame_pa frame va) as -> by (unfold frame_pa; by rewrite Heq).
      rewrite (Hothers _ _ (frame_pa_page frame va) Hn), Hzero, decide_False; [done|].
      pose proof (frame_pa_page frame va). unfold in_page, frame_pa, PAGE_SIZE in *. lia.
    - assert (Heq : frame' (va / PAGE_SIZE) = page) by (rewrite Htop by lia; done).
      pose proof (frame_pa_page frame' va) as Hpg. rewrite Heq in Hpg.
      by rewrite (Hothers _ _ Hpg Hnone), Hzero, decide_True. }
  split; [constructor|split; [|split]].
  - done.
  - lia.
  - intros va Hva. apply Hdirs; [|done|done]. intros p sp slot Hown Hs.
    rewrite <- (Hkeep p _ slot Hown Hs). unfold m2, set_table_entry. cbv zeta.
    destruct (present_table _ _ _ _ Kernel _ top Hok1 eq_refl Hin Hpres) as (pt & Hpt & _ & Halign).
    simpl in Halign. rewrite Halign. change (memory_of (?a <| invalidated ::= ?g |>)) with (memory_of a).
    rewrite memory_write, decide_False; [done|].
    destruct (index_range top ltac:(unfold KERNEL_BASE, PAGE_SIZE in *; lia)) as [_ Hr2].
    rewrite word_eq by done. intros [-> _]. congruence.
  - intros va Hva. change (kernel_map m2) with (kernel_map m1).
    rewrite (Hwalk Kernel _ va eq_refl) by (apply in_kernel; unfold KERNEL_BASE, PAGE_SIZE in *; lia).
    destruct (Hsplit va Hva) as [Hva'|Hva'].
    + destruct (Hold va Hva') as (Heq & Hne & _). rewrite decide_False by (by intros [_ ?]).
      rewrite Heq, <- (hp_walk _ _ _ _ Hp va Hva').
      apply (walk_same first last own m Kernel); [done|done| |].
      * apply in_kernel. pose proof (hp_top _ _ _ _ Hp). unfold KERNEL_BASE in *. lia.
      * intros p o slot Hown Hs _. by apply (Hkeep p o).
    + rewrite decide_True by (split; [done|by apply Htop]). rewrite (Htop va Hva'), Hnew. done.
  - intros va Hva. change (refs ?p (frames m2)) with (refs p (frames m1)).
    destruct (Hsplit va Hva) as [Hva'|Hva'].
    + destruct (Hold va Hva') as (-> & _ & Hne). destruct (hp_frame _ _ _ _ Hp va Hva') as (Hr & Hn & Hpos).
      split; [done|]. split; [done|]. rewrite Hrefs, decide_False by (done || lia). done.
    + rewrite (Htop va Hva'), Hnew. split; [done|]. split; [done|]. rewrite Hrefs, decide_True by (done || lia). done.
  - intros va va' Hva Hva' Heq.
    destruct (Hsplit va Hva) as [H1|H1], (Hsplit va' Hva') as [H2|H2].
    + destruct (Hold va H1) as (E1 & _ & _), (Hold va' H2) as (E2 & _ & _).
      apply (hp_inj _ _ _ _ Hp); [done|done|congruence].
    + destruct (Hold va H1) as (E1 & _ & ?). rewrite (Htop va' H2), Hnew in Heq. congruence.
    + destruct (Hold va' H2) as (E2 & _ & ?). rewrite (Htop va H1), Hnew in Heq. congruence.
    + by rewrite (Htop va H1), (Htop va' H2).
  - intros va Hva. rewrite Hw, decide_True by (unfold PAGE_SIZE in *; lia). done.
  - intros va Hva. rewrite Hw, decide_False by lia. done.
  - done.
Qed.

Lemma get_page_list m :
  match free_page_list (frames m) with
  | [] => get_page m = Fault HostExit
  | page :: rest => exists m1, get_page m = Done (page, m1) /\ free_page_list (frames m1) = rest
  end.
Proof.
  unfold get_page, vm_allocate_page. destruct (free_page_list (frames m)); [done|]. by eexists.
Qed.

(** Wiring [n] pages fails only when fewer are free. *)
Lemma wire_heap_ok own n : forall fuel frame top m,
  heap_pages own frame top m -> page_aligned top -> base <= top -> top + Z.of_nat n * PAGE_SIZE <= limit ->
  (n <= fuel)%nat ->
  (exists m' frame', wire_heap fuel top (top + Z.of_nat n * PAGE_SIZE) m = Done m'
     /\ heap_pages own frame' (top + Z.of_nat n * PAGE_SIZE) m'
     /\ (forall va, base <= va < top -> word frame' m' va = word frame m va)
     /\ (forall va, top <= va < top + Z.of_nat n * PAGE_SIZE -> word frame' m' va = 0))
  \/ wire_heap fuel top (top + Z.of_nat n * PAGE_SIZE) m = Fault HostExit
     /\ (length (free_page_list (frames m)) < n)%nat.
Proof.
  induction n as [|n IH]; intros fuel frame top m Hp Ha Hb Hl Hfuel.
  { left. exists m, frame. replace (top + Z.of_nat 0 * PAGE_SIZE) with top by lia.
    split; [|split; [done|split; [done|lia]]].
    destruct fuel; simpl; by rewrite Z.ltb_irrefl. }
  destruct fuel as [|fuel]; [lia|]. cbn [wire_heap].
  rewrite (proj2 (Z.ltb_lt _ _)) by (unfold PAGE_SIZE in *; lia).
  pose proof (get_page_list m) as Hlist. destruct (free_page_list (frames m)) as [|page rest] eqn:Hfree.
  { right. rewrite Hlist. split; [done|simpl; lia]. }
  destruct Hlist as (m1 & Hget & Hrest). rewrite Hget. cbn [bind_result].
  destruct (heap_page_ok own frame top m page m1 Hp Ha Hb ltac:(unfold PAGE_SIZE in *; lia) Hget)
    as (m2 & -> & Hp2 & Hold & Hnew & Hfree2).
  cbn [bind_result]. set (frame2 := <[top / PAGE_SIZE := page]> frame) in *.
  rewrite u32_small by (unfold KERNEL_BASE, PAGE_SIZE in *; lia).
  replace (top + Z.of_nat (S n) * PAGE_SIZE) with (top + PAGE_SIZE + Z.of_nat n * PAGE_SIZE) in * by lia.
  destruct (IH fuel frame2 (top + PAGE_SIZE) m2 Hp2) as [(m3 & frame3 & Hrun & Hp3 & Hold3 & Hnew3)|[Hrun Hlen]].
  - unfold page_aligned, PAGE_SIZE in *. Z.div_mod_to_equations. lia.
  - unfold PAGE_SIZE in *. lia.
  - lia.
  - lia.
  - left. exists m3, frame3. split; [done|]. split; [done|]. split.
    + intros va Hva. rewrite Hold3 by (unfold PAGE_SIZE in *; lia). by apply Hold.
    + intros va Hva. destruct (decide (va < top + PAGE_SIZE)).
      * rewrite Hold3 by lia. apply Hnew. lia.
      * apply Hnew3. lia.
  - right. split; [done|]. rewrite Hfree2, Hrest in Hlen. simpl. lia.
Qed.

End Pages.

(** ** The free list *)

(** [link] leads through the ranges at [l] to the null pointer. *)
Fixpoint chain (w : Z -> Z) (link : Z) (l : list Z) : Prop :=
  match l with
  | [] => link = 0
  | a :: l' => link = a /\ chain w (w (range_next a)) l'
  end.

Lemma chain_frame w w' l : forall link,
  (forall a, a ∈ l -> w' (range_next a) = w (range_next a)) -> chain w link l -> chain w' link l.
Proof.
  induction l as [|a l IH]; intros link Hsame Hc; [done|]. destruct Hc as [-> Hc]. split; [done|].
  rewrite Hsame by by left. apply IH; [|done]. intros b Hb. apply Hsame. by right.
Qed.

(** Changing what the last of [l1] (or the head) links to. *)
Lemma chain_relink w w' l1 l2 l2' v : forall head head',
  chain w head (l1 ++ l2) -> NoDup l1 -> chain w' v l2' ->
  (forall a, a ∈ l1 -> list.last l1 <> Some a -> w' (range_next a) = w (range_next a)) ->
  match list.last l1 with None => head' = v | Some p => head' = head /\ w' (range_next p) = v end ->
  chain w' head' (l1 ++ l2').
Proof.
  induction l1 as [|a l1 IH]; intros head head' Hc Hnd Hc' Hsame Hlast.
  { simpl in *. by subst. }
  destruct Hc as [-> Hc]. apply NoDup_cons in Hnd as [Hnot Hnd].
  destruct l1 as [|b l1].
  - simpl in *. destruct Hlast as [-> Hlast]. split; [done|]. by rewrite Hlast.
  - change (list.last (a :: b :: l1)) with (list.last (b :: l1)) in *.
    assert (Hl : exists p, list.last (b :: l1) = Some p).
    { destruct (list.last (b :: l1)) eqn:E; [by eexists|]. by apply list.last_None in E. }
    destruct Hl as [p Hp]. rewrite Hp in Hlast, Hsame. destruct Hlast as [-> Hlast]. split; [done|].
    rewrite Hsame; [|by left|].
    + apply (IH (w (range_next a))); [done|done|done| |].
      * intros c Hcin Hne. apply Hsame; [by right|]. by rewrite <- Hp.
      * by rewrite Hp.
    + intros [= ->]. apply Hnot. by apply list.last_Some_elem_of.
Qed.

Lemma chain_split w l1 l2 : forall head,
  chain w head (l1 ++ l2) ->
  match list.last l1 with None => head | Some p => w (range_next p) end
  = match l2 with [] => 0 | a :: _ => a end.
Proof.
  induction l1 as [|a l1 IH]; intros head Hc.
  - simpl in *. destruct l2; [done|]. by destruct Hc.
  - destruct Hc as [-> Hc]. destruct l1 as [|b l1].
    + simpl in *. destruct l2; [done|]. by destruct Hc.
    + specialize (IH _ Hc). change (list.last (a :: b :: l1)) with (list.last (b :: l1)).
      destruct (list.last (b :: l1)) eqn:E; [done|]. by apply list.last_None in E.
Qed.

Lemma chain_rest w l1 l2 : forall head,
  chain w head (l1 ++ l2) -> exists link, chain w link l2.
Proof. induction l1 as [|a l1 IH]; intros head Hc; [by exists head|]. destruct Hc as [_ Hc]. by eapply IH. Qed.

(** ** The invariant *)

Definition apart (a n a' n' : Z) : Prop := a + n <= a' \/ a' + n' <= a.

(** [regions] says where the pieces of the heap are, free and allocated, and how large. *)
Definition all_apart (regions : gmap Z Z) : Prop :=
  forall a n a' n', regions !! a = Some n -> regions !! a' = Some n' -> a <> a' -> apart a n a' n'.

Lemma all_apart_insert regions a n :
  all_apart regions -> 
  (forall a' n', regions !! a' = Some n' -> a' <> a -> apart a n a' n') ->
  all_apart (<[a := n]> regions).
Proof.
  intros Hr Hnew b m b' m' Hb Hb' Hne.
  apply lookup_insert_Some in Hb as [[<- <-]|[Hb1 Hb]]; apply lookup_insert_Some in Hb' as [[<- <-]|[Hb1' Hb']]; [done| | |].
  - by apply Hnew.
  - destruct (Hnew b m Hb ltac:(congruence)); [by right|by left].
  - by apply (Hr b m b' m').
Qed.

Lemma grow_size_least size : 0x10000 <= grow_size size.
Proof. unfold grow_size. cbv zeta. destruct (Z.ltb_spec (u32 (size * 2)) 0x10000); lia. Qed.

Lemma grow_size_eq size : 0 < size -> size * 2 < 2 ^ 32 -> grow_size size = Z.max 0x10000 (size * 2).
Proof.
  intros H0 H1. unfold grow_size. rewrite u32_small by lia. cbv zeta.
  destruct (Z.ltb_spec (size * 2) 0x10000); lia.
Qed.

Section Heap.
Context (first last base limit : Z).
Context (Hbase : KERNEL_HEAP_BASE <= base) (Halign : page_aligned base) (Hlimit : limit < 2 ^ 32).

(** Every free range is a region whose size its header gives, or 0 when the range was left by
    a lop: the code does not write the size of what is left.  The words that would be sizes
    if the range were lopped are 0 too. *)
Record heap_ok (own : Z -> option owner) (frame : Z -> Z) (regions : gmap Z Z) (ranges : list Z)
    (s : heap_state) : Prop := {
  h_pages : heap_pages first last base limit own frame (wilderness_ptr s) (hm s);
  h_wilderness : base <= wilderness_ptr s /\ page_aligned (wilderness_ptr s);
  h_chain : chain (word frame (hm s)) (free_list s) ranges;
  h_nodup : NoDup ranges;
  h_regions : forall a n, regions !! a = Some n ->
    page_aligned a /\ page_aligned n /\ 0 < n /\ base <= a /\ a + n <= wilderness_ptr s;
  h_apart : all_apart regions;
  h_ranges : forall a, a ∈ ranges -> exists n, regions !! a = Some n
    /\ (word frame (hm s) (range_size a) = 0 \/ word frame (hm s) (range_size a) = n)
    /\ forall k, page_aligned k -> 0 < k < n -> word frame (hm s) (range_size (a + k)) = 0
}.

Lemma KHB : KERNEL_BASE <= base.
Proof. unfold KERNEL_BASE, KERNEL_HEAP_BASE in *. lia. Qed.

Lemma aligned_4 a : page_aligned a -> a mod 4 = 0 /\ (a + 4) mod 4 = 0.
Proof. unfold page_aligned, PAGE_SIZE. intros. split; Z.div_mod_to_equations; lia. Qed.

Lemma aligned_add a b : page_aligned a -> page_aligned b -> page_aligned (a + b).
Proof. unfold page_aligned, PAGE_SIZE. intros. Z.div_mod_to_equations. lia. Qed.

Lemma aligned_sub a b : page_aligned a -> page_aligned b -> page_aligned (a - b).
Proof. unfold page_aligned, PAGE_SIZE. intros. Z.div_mod_to_equations. lia. Qed.

Lemma aligned_le n : page_aligned n -> 0 < n -> PAGE_SIZE <= n.
Proof. unfold page_aligned, PAGE_SIZE. intros. Z.div_mod_to_equations. lia. Qed.

Lemma aligned_size_ne a b : page_aligned a -> page_aligned b -> range_size a <> range_next b.
Proof. unfold page_aligned, range_size, range_next, PAGE_SIZE. intros. Z.div_mod_to_equations. lia. Qed.

Section State.
Context (own : Z -> option owner) (frame : Z -> Z) (regions : gmap Z Z) (ranges : list Z) (s : heap_state).
Context (Hs : heap_ok own frame regions ranges s).

Abbreviation w := (word frame (hm s)).

(** The header of a region is memory the kernel may use. *)
Lemma header_words a n :
  regions !! a = Some n ->
  heap_word base (wilderness_ptr s) (range_next a) /\ heap_word base (wilderness_ptr s) (range_size a).
Proof.
  intros Ha. destruct (h_regions _ _ _ _ _ Hs a n Ha) as (H1 & H2 & H3 & H4 & H5).
  pose proof (aligned_le n H2 H3). destruct (aligned_4 a H1).
  unfold heap_word, range_next, range_size, PAGE_SIZE in *. split; (split; [lia|done]).
Qed.

Lemma range_region a : a ∈ ranges -> exists n, regions !! a = Some n.
Proof. intros Ha. destruct (h_ranges _ _ _ _ _ Hs a Ha) as (n & ? & _). by exists n. Qed.

Lemma read_link_ok l1 l2 :
  ranges = l1 ++ l2 ->
  read_link (list.last l1) s = Done (match l2 with [] => 0 | a :: _ => a end).
Proof.
  intros Heq. pose proof (h_chain _ _ _ _ _ Hs) as Hc. rewrite Heq in Hc.
  rewrite <- (chain_split _ _ _ _ Hc). unfold read_link.
  destruct (list.last l1) as [p|] eqn:Hp; [|done].
  destruct (range_region p) as [n Hn].
  { rewrite Heq. apply elem_of_app. left. by apply list.last_Some_elem_of. }
  apply (load_word_ok first last base limit KHB own frame (wilderness_ptr s)); [apply (h_pages _ _ _ _ _ Hs)|].
  by apply (header_words p n).
Qed.

(** What the walk of the free list finds. *)
Inductive found (size : Z) (l1 l2 : list Z) (r : result (Z * heap_state)) : Prop :=
| found_none : r = Done (0, s) -> found size l1 l2 r
| found_exact la c lb : l2 = la ++ c :: lb -> regions !! c = Some size ->
    r = (t <-- remove_range (list.last (l1 ++ la)) c s;; Done (c, t)) -> found size l1 l2 r
| found_larger la c lb n : l2 = la ++ c :: lb -> regions !! c = Some n -> size < n ->
    r = (t <-- lop_range (list.last (l1 ++ la)) c size s;; Done (c, t)) -> found size l1 l2 r.

Lemma search_ranges_ok size l2 : forall l1 fuel,
  0 < size -> ranges = l1 ++ l2 -> (length l2 < fuel)%nat ->
  found size l1 l2 (search_ranges fuel (list.last l1) size s).
Proof.
  induction l2 as [|c l2 IH]; intros l1 fuel Hsize Heq Hfuel;
    (destruct fuel as [|fuel]; [simpl in Hfuel; lia|]); cbn [search_ranges];
    rewrite (read_link_ok l1 _ Heq); cbn [bind_result].
  { by apply found_none. }
  assert (Hin : c ∈ ranges) by (rewrite Heq; apply elem_of_app; right; by left).
  destruct (h_ranges _ _ _ _ _ Hs c Hin) as (n & Hn & Hstored & _).
  destruct (h_regions _ _ _ _ _ Hs c n Hn) as (_ & _ & Hn0 & Hc & _).
  rewrite (proj2 (Z.eqb_neq c 0)) by (unfold KERNEL_HEAP_BASE in *; lia).
  rewrite (load_word_ok first last base limit KHB own frame (wilderness_ptr s) s (range_size c)
    (h_pages _ _ _ _ _ Hs) (proj2 (header_words c n Hn))). cbn [bind_result].
  destruct (Z.eqb_spec (w (range_size c)) size) as [Heqs|Hnes].
  { apply (found_exact _ _ _ _ [] c l2); [done| |by rewrite app_nil_r].
    rewrite Hn. f_equal. destruct Hstored; lia. }
  destruct (Z.ltb_spec size (w (range_size c))) as [Hlt|Hge].
  { apply (found_larger _ _ _ _ [] c l2 n); [done|done| |by rewrite app_nil_r].
    destruct Hstored; lia. }
  specialize (IH (l1 ++ [c]) fuel Hsize ltac:(by rewrite Heq, <- app_assoc) ltac:(simpl in Hfuel; lia)).
  rewrite last_snoc in IH. destruct IH as [Hr|la b lb Hl Hb Hr|la b lb m Hl Hb Hm Hr].
  - by apply found_none.
  - apply (found_exact _ _ _ _ (c :: la) b lb); [by rewrite Hl|done|]. by rewrite Hr, <- app_assoc.
  - apply (found_larger _ _ _ _ (c :: la) b lb m); [by rewrite Hl|done|done|]. by rewrite Hr, <- app_assoc.
Qed.

(** Ranges start at different page boundaries, so the fuel is enough. *)
Lemma ranges_count : (length ranges <= Z.to_nat ((wilderness_ptr s - KERNEL_HEAP_BASE) / PAGE_SIZE))%nat.
Proof.
  set (k := Z.to_nat _).
  assert (Hsub : ranges ⊆+ map (fun i => KERNEL_HEAP_BASE + i * PAGE_SIZE) (seqZ 0 (Z.of_nat k))).
  { apply NoDup_submseteq; [apply (h_nodup _ _ _ _ _ Hs)|]. intros a Ha.
    destruct (range_region a Ha) as [n Hn].
    destruct (h_regions _ _ _ _ _ Hs a n Hn) as (H1 & H2 & H3 & H4 & H5).
    pose proof (aligned_le n H2 H3). destruct (h_wilderness _ _ _ _ _ Hs) as [_ Hw].
    apply list_elem_of_fmap. exists ((a - KERNEL_HEAP_BASE) / PAGE_SIZE).
    unfold page_aligned, KERNEL_HEAP_BASE, PAGE_SIZE in *. split.
    - Z.div_mod_to_equations. lia.
    - apply elem_of_seqZ. unfold k. rewrite Z2Nat.id by (Z.div_mod_to_equations; lia).
      Z.div_mod_to_equations. lia. }
  apply submseteq_length in Hsub. rewrite length_map, length_seqZ in Hsub. lia.
Qed.

Lemma apart_words a n a' n' i j :
  regions !! a = Some n -> regions !! a' = Some n' -> a <> a' -> 0 <= i < n -> 0 <= j < n' -> a + i <> a' + j.
Proof. intros Ha Ha' Hne Hi Hj. destruct (h_apart _ _ _ _ _ Hs a n a' n' Ha Ha' Hne); lia. Qed.

Lemma inside_no_region a n i : regions !! a = Some n -> 0 < i < n -> regions !! (a + i) = None.
Proof.
  intros Ha Hi. destruct (regions !! (a + i)) as [m|] eqn:E; [|done]. exfalso.
  destruct (h_regions _ _ _ _ _ Hs _ m E) as (_ & _ & Hm & _).
  apply (apart_words a n (a + i) m i 0 Ha E); lia.
Qed.

(** What is allocated: regions that are not free ranges. *)
Definition live (regions : gmap Z Z) (ranges : list Z) (a n : Z) : Prop := regions !! a = Some n /\ a ∉ ranges.

(** A block was allocated; the blocks there were are still there, with their contents. *)
Record allocated (size block : Z) (frame' : Z -> Z) (regions' : gmap Z Z) (ranges' : list Z) (s' : heap_state) : Prop := {
  al_ok : heap_ok own frame' regions' ranges' s';
  al_new : live regions' ranges' block size;
  al_fresh : forall n, ~ live regions ranges block n;
  al_live : forall a n, live regions ranges a n -> live regions' ranges' a n;
  al_words : forall a n i, live regions ranges a n -> 0 <= i < n ->
    word frame' (hm s') (a + i) = w (a + i);
  al_wilderness : wilderness_ptr s <= wilderness_ptr s' <= wilderness_ptr s + grow_size size
}.

Lemma live_not_range a n i p : live regions ranges a n -> 0 <= i < n -> p ∈ ranges -> a + i <> range_next p.
Proof.
  intros [Ha Hnot] Hi Hp. destruct (range_region p Hp) as [m Hm]. unfold range_next.
  replace p with (p + 0) by lia. destruct (h_regions _ _ _ _ _ Hs p m Hm) as (_ & _ & Hm0 & _).
  apply (apart_words a n p m); [done|done| |done|lia]. by intros ->.
Qed.
End State.

(** Storing a link, in the head or in a range. *)
Lemma write_link_ok own frame top s prev v :
  heap_pages first last base limit own frame top (hm s) ->
  (forall p, prev = Some p -> heap_word base top p) ->
  exists s', write_link prev v s = Done s' /\ heap_pages first last base limit own frame top (hm s')
    /\ wilderness_ptr s' = wilderness_ptr s
    /\ free_list s' = match prev with None => v | Some _ => free_list s end
    /\ forall va, base <= va < top ->
         word frame (hm s') va = if decide (prev = Some va) then v else word frame (hm s) va.
Proof.
  intros Hp Hprev. destruct prev as [p|]; cbn [write_link].
  - destruct (heap_store_ok first last base limit KHB Hlimit own frame top s (range_next p) v Hp (Hprev p eq_refl))
      as (m & -> & Hm & Hwords & _).
    eexists. split; [done|]. split; [done|]. split; [done|]. split; [done|]. intros va Hva.
    change (hm (s <| hm := m |>)) with m. rewrite (Hwords va Hva). unfold range_next. destruct (decide (va = p)) as [->|Hne].
    + by rewrite decide_True.
    + rewrite decide_False; [done|congruence].
  - eexists. split; [done|]. split; [done|]. split; [done|]. split; [done|]. intros va Hva. by rewrite decide_False.
Qed.

(** The words of an allocated block are the client's. *)
Lemma live_word own frame regions ranges s a n va :
  heap_ok own frame regions ranges s -> live regions ranges a n -> a <= va < a + n -> va mod 4 = 0 ->
  heap_word base (wilderness_ptr s) va /\ load_word va s = Done (word frame (hm s) va).
Proof.
  intros Hs [Ha _] Hva H4. destruct (h_regions _ _ _ _ _ Hs a n Ha) as (_ & _ & _ & ? & ?).
  assert (Hw : heap_word base (wilderness_ptr s) va) by (split; [lia|done]). split; [done|].
  apply (load_word_ok first last base limit KHB own frame (wilderness_ptr s)); [apply (h_pages _ _ _ _ _ Hs)|done].
Qed.

(** The same heap over memory whose words at the headers did not change. *)
Lemma heap_ok_memory own own' frame regions ranges s m :
  heap_ok own frame regions ranges s ->
  heap_pages first last base limit own' frame (wilderness_ptr s) m ->
  (forall a n i, a ∈ ranges -> regions !! a = Some n -> 0 <= i < n ->
     word frame m (a + i) = word frame (hm s) (a + i)) ->
  heap_ok own' frame regions ranges (s <| hm := m |>).
Proof.
  intros Hs Hp Hsame. constructor; try apply Hs; [done| |].
  - apply (chain_frame (word frame (hm s))); [|apply (h_chain _ _ _ _ _ Hs)]. intros a Ha.
    destruct (range_region _ _ _ _ _ Hs a Ha) as [n Hn]. destruct (h_regions _ _ _ _ _ Hs a n Hn) as (_ & _ & ? & _).
    unfold range_next. simpl. replace a with (a + 0) by lia. by apply (Hsame a n).
  - intros a Ha. destruct (h_ranges _ _ _ _ _ Hs a Ha) as (n & Hn & Hst & Hz). exists n. split; [done|].
    destruct (h_regions _ _ _ _ _ Hs a n Hn) as (_ & H2 & H3 & _). pose proof (aligned_le n H2 H3).
    unfold range_size in *. split.
    + simpl. rewrite (Hsame a n 4) by (done || (unfold PAGE_SIZE in *; lia)). done.
    + intros k Hk Hkn. pose proof (aligned_le (n - k) (aligned_sub _ _ H2 Hk) ltac:(lia)). rewrite <- Z.add_assoc.
      simpl. rewrite (Hsame a n (k + 4)) by (done || (unfold PAGE_SIZE in *; lia)). rewrite Z.add_assoc. by apply Hz.
Qed.

Lemma live_store_ok own frame regions ranges s a n va v :
  heap_ok own frame regions ranges s -> live regions ranges a n -> a <= va < a + n -> va mod 4 = 0 ->
  exists m, store_word va v s = Done (s <| hm := m |>) /\ heap_ok own frame regions ranges (s <| hm := m |>)
    /\ forall va', base <= va' < wilderness_ptr s ->
         word frame m va' = if decide (va' = va) then v else word frame (hm s) va'.
Proof.
  intros Hs Hl Hva H4. destruct (live_word _ _ _ _ _ _ _ _ Hs Hl Hva H4) as [Hw _].
  destruct (heap_store_ok first last base limit KHB Hlimit own frame (wilderness_ptr s) s va v (h_pages _ _ _ _ _ Hs) Hw)
    as (m & Hstore & Hp & Hwords & _).
  exists m. split; [done|]. split; [|done]. apply (heap_ok_memory own); [done|done|].
  intros b k i Hb Hk Hi. destruct (h_regions _ _ _ _ _ Hs b k Hk) as (_ & _ & _ & ? & ?).
  rewrite Hwords, decide_False; [done| |lia]. intros Heq.
  apply (apart_words _ _ _ _ _ Hs b k a n i (va - a) Hk (proj1 Hl)); [|done|lia|lia].
  intros ->. by apply (proj2 Hl).
Qed.

Section State2.
Context (own : Z -> option owner) (frame : Z -> Z) (regions : gmap Z Z) (s : heap_state).
Context (pre rest : list Z) (c size : Z) (Hs : heap_ok own frame regions (pre ++ c :: rest) s).
Context (Hsize : 0 < size) (Hpage : page_aligned size).

Abbreviation w := (word frame (hm s)).

Lemma candidate_range : c ∈ (pre ++ c :: rest) /\ chain w (w (range_next c)) rest /\ NoDup pre /\ NoDup rest
  /\ (c ∉ pre) /\ (c ∉ rest) /\ (forall a, a ∈ pre -> a ∉ rest).
Proof.
  pose proof (h_nodup _ _ _ _ _ Hs) as Hnd. apply NoDup_app in Hnd as (H1 & H2 & H3).
  apply NoDup_cons in H3 as [H3 H4].
  destruct (chain_rest _ _ _ _ (h_chain _ _ _ _ _ Hs)) as [link [_ Hc]].
  split; [apply elem_of_app; right; by left|]. split; [done|]. split; [done|]. split; [done|]. split.
  - intros Hin. apply (H2 c Hin). by left.
  - split; [done|]. intros a Ha Hr. apply (H2 a Ha). by right.
Qed.

Lemma previous_word p : list.last pre = Some p -> p ∈ pre /\ heap_word base (wilderness_ptr s) p.
Proof.
  intros Hp. apply list.last_Some_elem_of in Hp. split; [done|].
  destruct (range_region _ _ _ _ _ Hs p) as [n Hn]; [apply elem_of_app; by left|].
  by destruct (header_words _ _ _ _ _ Hs p n Hn).
Qed.

Lemma load_next : load_word (range_next c) s = Done (w (range_next c)).
Proof.
  destruct (range_region _ _ _ _ _ Hs c (proj1 candidate_range)) as [n Hn].
  apply (load_word_ok first last base limit KHB own frame (wilderness_ptr s)); [apply (h_pages _ _ _ _ _ Hs)|].
  by apply (header_words _ _ _ _ _ Hs c n).
Qed.

Lemma remove_range_ok :
  regions !! c = Some size ->
  exists s', remove_range (list.last pre) c s = Done s'
    /\ allocated own frame regions (pre ++ c :: rest) s size c frame regions (pre ++ rest) s'.
Proof.
  intros Hc. destruct candidate_range as (Hin & Hchain & Hpre & Hrest & Hcpre & Hcrest & Hsep).
  unfold remove_range. rewrite load_next. cbn [bind_result].
  destruct (write_link_ok own frame (wilderness_ptr s) s (list.last pre) (w (range_next c))
    (h_pages _ _ _ _ _ Hs) (fun p Hp => proj2 (previous_word p Hp))) as (s' & -> & Hp' & Hw' & Hhead & Hwords).
  exists s'. split; [done|].
  assert (Hregion : forall a, a ∈ (pre ++ c :: rest) -> base <= range_next a < wilderness_ptr s).
  { intros a Ha. destruct (range_region _ _ _ _ _ Hs a Ha) as [n Hn].
    by destruct (header_words _ _ _ _ _ Hs a n Hn) as [[? _] _]. }
  assert (Hsub : forall a, a ∈ pre ++ rest -> a ∈ (pre ++ c :: rest)).
  { intros a. rewrite !elem_of_app, elem_of_cons. tauto. }
  assert (Hsizes : forall a, page_aligned a -> base <= range_size a < wilderness_ptr s ->
    word frame (hm s') (range_size a) = w (range_size a)).
  { intros a Ha Hr. rewrite Hwords, decide_False; [done| |done]. intros Hp.
    destruct (previous_word _ Hp) as [Hpin _].
    destruct (range_region _ _ _ _ _ Hs (range_size a)) as [n Hn]; [apply elem_of_app; by left|].
    destruct (h_regions _ _ _ _ _ Hs _ n Hn) as [Hal _]. by apply (aligned_size_ne a (range_size a) Ha Hal). }
  constructor; [constructor| | | | |].
  - by rewrite Hw'.
  - rewrite Hw'. apply (h_wilderness _ _ _ _ _ Hs).
  - apply (chain_relink w _ pre (c :: rest) rest (w (range_next c)) (free_list s)); [apply (h_chain _ _ _ _ _ Hs)|done| | |].
    + apply (chain_frame w); [|done]. intros a Ha. rewrite Hwords; [|apply Hregion, Hsub, elem_of_app; by right].
      rewrite decide_False; [done|]. intros Hp. by apply (Hsep a (proj1 (previous_word _ Hp))).
    + intros a Ha Hl. rewrite Hwords; [|apply Hregion, Hsub, elem_of_app; by left]. by rewrite decide_False.
    + rewrite Hhead. destruct (list.last pre) as [p|] eqn:Hp; [|done]. split; [done|].
      destruct (previous_word p Hp) as [_ [Hr _]]. unfold range_next. by rewrite Hwords, decide_True.
  - apply NoDup_app. split; [done|]. split; [done|done].
  - rewrite Hw'. apply (h_regions _ _ _ _ _ Hs).
  - apply (h_apart _ _ _ _ _ Hs).
  - intros a Ha. destruct (h_ranges _ _ _ _ _ Hs a (Hsub a Ha)) as (n & Hn & Hst & Hz).
    destruct (h_regions _ _ _ _ _ Hs a n Hn) as (H1 & H2 & H3 & H4 & H5). pose proof (aligned_le n H2 H3).
    exists n. split; [done|]. split.
    + rewrite Hsizes; [done|done|]. unfold range_size, PAGE_SIZE in *. lia.
    + intros k Hk Hkn. pose proof (aligned_le (n - k) (aligned_sub _ _ H2 Hk) ltac:(lia)).
      rewrite Hsizes; [by apply Hz|by apply aligned_add|]. unfold range_size, PAGE_SIZE in *. lia.
  - split; [done|]. rewrite elem_of_app. tauto.
  - intros n [_ Hnot]. done.
  - intros a n [Ha Hnot]. split; [done|]. intros Hx. by apply Hnot, Hsub.
  - intros a n i Hl Hi. destruct (h_regions _ _ _ _ _ Hs a n (proj1 Hl)) as (_ & _ & _ & ? & ?).
    rewrite Hwords, decide_False; [done| |lia]. intros Hp.
    apply (live_not_range _ _ _ _ _ Hs a n i (a + i) Hl Hi); [|done].
    apply elem_of_app. left. apply (previous_word _ Hp).
  - rewrite Hw'. pose proof (grow_size_least size). lia.
Qed.

Lemma lop_range_ok n :
  regions !! c = Some n -> size < n ->
  exists s', lop_range (list.last pre) c size s = Done s'
    /\ allocated own frame regions (pre ++ c :: rest) s size c frame (<[c + size := n - size]> (<[c := size]> regions))
         (pre ++ (c + size) :: rest) s'.
Proof.
  intros Hc Hn. destruct candidate_range as (Hin & Hchain & Hpre & Hrest & Hcpre & Hcrest & Hsep).
  destruct (h_regions _ _ _ _ _ Hs c n Hc) as (Hca & Hna & Hn0 & Hcb & Hct).
  pose proof (h_wilderness _ _ _ _ _ Hs) as [Hwb Hwa].
  pose proof (hp_top _ _ _ _ _ _ _ _ (h_pages _ _ _ _ _ Hs)) as Htop.
  set (c' := c + size) in *. assert (Hc'a : page_aligned c') by by apply aligned_add.
  assert (Hnone : regions !! c' = None) by (apply (inside_no_region _ _ _ _ _ Hs c n size Hc); lia).
  assert (Hc'r : forall a, a ∈ (pre ++ c :: rest) -> a <> c').
  { intros a Ha ->. destruct (range_region _ _ _ _ _ Hs c' Ha). congruence. }
  pose proof (aligned_le size Hpage Hsize) as Hsp.
  pose proof (aligned_le (n - size) (aligned_sub _ _ Hna Hpage) ltac:(lia)) as Hnp.
  unfold lop_range. rewrite load_next. cbn [bind_result]. rewrite u32_small by (unfold KERNEL_HEAP_BASE in *; lia).
  fold c'. destruct (aligned_4 c' Hc'a) as [Hc'4 _].
  destruct (heap_store_ok first last base limit KHB Hlimit own frame (wilderness_ptr s) s (range_next c')
    (w (range_next c)) (h_pages _ _ _ _ _ Hs)) as (m & -> & Hm & Hwords1 & _).
  { split; [unfold range_next, PAGE_SIZE in *; lia|done]. }
  cbn [bind_result]. set (s1 := s <| hm := m |>) in *.
  destruct (write_link_ok own frame (wilderness_ptr s) s1 (list.last pre) c'
    Hm (fun p Hp => proj2 (previous_word p Hp))) as (s' & -> & Hp' & Hw' & Hhead & Hwords2).
  exists s'. split; [done|]. change (wilderness_ptr s1) with (wilderness_ptr s) in *.
  change (free_list s1) with (free_list s) in *. change (hm s1) with m in *.
  assert (Hwords : forall va, base <= va < wilderness_ptr s -> word frame (hm s') va
    = if decide (list.last pre = Some va) then c' else if decide (va = c') then w (range_next c) else w va).
  { intros va Hva. by rewrite Hwords2, Hwords1. }
  assert (Hprev : forall p, list.last pre = Some p -> p ∈ (pre ++ c :: rest) /\ p ∈ pre /\ p <> c').
  { intros p Hp. destruct (previous_word p Hp) as [Hpin _]. assert (p ∈ (pre ++ c :: rest)) by (apply elem_of_app; by left).
    split; [done|]. split; [done|]. by apply Hc'r. }
  assert (Hregion : forall a, a ∈ (pre ++ c :: rest) -> base <= range_next a < wilderness_ptr s).
  { intros a Ha. destruct (range_region _ _ _ _ _ Hs a Ha) as [k Hk].
    by destruct (header_words _ _ _ _ _ Hs a k Hk) as [[? _] _]. }
  assert (Hsizes : forall a, page_aligned a -> base <= range_size a < wilderness_ptr s ->
    word frame (hm s') (range_size a) = w (range_size a)).
  { intros a Ha Hr. rewrite Hwords by done. rewrite decide_False, decide_False; [done| |].
    - by apply (aligned_size_ne a c').
    - intros Hp. destruct (Hprev _ Hp) as (Hpin & _). destruct (range_region _ _ _ _ _ Hs (range_size a) Hpin) as [k Hk].
      destruct (h_regions _ _ _ _ _ Hs _ k Hk) as [Hal _]. by apply (aligned_size_ne a (range_size a) Ha Hal). }
  assert (Hlookup : forall a k, a ∈ (pre ++ c :: rest) -> a <> c -> regions !! a = Some k ->
    <[c':=n - size]> (<[c:=size]> regions) !! a = Some k).
  { intros a k Ha Hne Hk. rewrite lookup_insert_ne by by apply not_eq_sym, Hc'r.
    by rewrite lookup_insert_ne by congruence. }
  assert (Hc'not : c' ∉ (pre ++ c :: rest)) by (intros Hx; by apply (Hc'r c' Hx)).
  assert (Hsplit : forall a, a ∈ pre ++ c' :: rest <-> a = c' \/ a ∈ (pre ++ c :: rest) /\ a <> c).
  { intros a. rewrite !elem_of_app, !elem_of_cons. split.
    - intros [H|[H|H]]; [right|by left|right]; (split; [tauto|by intros ->]).
    - tauto. }
  constructor; [constructor| | | | |].
  - by rewrite Hw'.
  - by rewrite Hw'.
  - apply (chain_relink w _ pre (c :: rest) (c' :: rest) c' (free_list s)); [apply (h_chain _ _ _ _ _ Hs)|done| | |].
    + split; [done|]. replace (word frame (hm s') (range_next c')) with (w (range_next c)).
      * apply (chain_frame w); [|done]. intros a Ha.
        assert (Hain : a ∈ (pre ++ c :: rest)) by (apply elem_of_app; right; by right).
        rewrite Hwords by by apply Hregion. rewrite decide_False, decide_False; [done|by apply Hc'r|].
        intros Hp. by apply (Hsep a (proj1 (proj2 (Hprev _ Hp)))).
      * rewrite Hwords by (unfold range_next, PAGE_SIZE in *; lia). rewrite decide_False, decide_True; [done|done|].
        intros Hp. by apply (Hprev _ Hp).
    + intros a Ha Hl. assert (Hain : a ∈ (pre ++ c :: rest)) by (apply elem_of_app; by left).
      rewrite Hwords by by apply Hregion. by rewrite decide_False, decide_False by (done || by apply Hc'r).
    + rewrite Hhead. destruct (list.last pre) as [p|] eqn:Hp; [|done]. split; [done|].
      destruct (Hprev p eq_refl) as [Hpin _]. rewrite Hwords by by apply Hregion. by rewrite decide_True.
  - apply NoDup_app. split; [done|]. split.
    + intros a Ha [->|Hr]%elem_of_cons; [|by apply (Hsep a)]. apply Hc'not, elem_of_app. by left.
    + apply NoDup_cons. split; [|done]. intros Hx. apply Hc'not, elem_of_app. right. by right.
  - rewrite Hw'. intros a k [[<- <-]|[_ [[<- <-]|[_ Ha]]%lookup_insert_Some]]%lookup_insert_Some.
    + split; [done|]. split; [by apply aligned_sub|]. lia.
    + split; [done|]. split; [done|]. lia.
    + by apply (h_regions _ _ _ _ _ Hs).
  - assert (Hother : forall a k, regions !! a = Some k -> a <> c -> apart c n a k).
    { intros a k Ha Hne. by apply (h_apart _ _ _ _ _ Hs c n a k Hc Ha). }
    apply all_apart_insert; [apply all_apart_insert; [apply (h_apart _ _ _ _ _ Hs)|]|].
    + intros a k Ha Hne. destruct (Hother a k Ha Hne); [left|right]; lia.
    + intros a k [[<- <-]|[Hne Ha]]%lookup_insert_Some _; [right; lia|].
      destruct (Hother a k Ha (not_eq_sym Hne)); [left|right]; lia.
  - intros a Ha. apply Hsplit in Ha as [->|[Ha Hne]].
    + exists (n - size). split; [by rewrite lookup_insert_eq|].
      destruct (h_ranges _ _ _ _ _ Hs c Hin) as (k & Hk & _ & Hz). assert (k = n) as -> by congruence. split.
      * left. rewrite Hsizes by (done || (unfold range_size, PAGE_SIZE in *; lia)). by apply Hz.
      * intros k Hka Hkn. pose proof (aligned_le (n - size - k) (aligned_sub _ _ (aligned_sub _ _ Hna Hpage) Hka) ltac:(lia)).
        rewrite Hsizes by (by apply aligned_add || (unfold range_size, PAGE_SIZE in *; lia)).
        replace (c' + k) with (c + (size + k)) by (unfold c'; lia). apply Hz; [by apply aligned_add|lia].
    + destruct (h_ranges _ _ _ _ _ Hs a Ha) as (k & Hk & Hst & Hz).
      destruct (h_regions _ _ _ _ _ Hs a k Hk) as (H1 & H2 & H3 & H4 & H5). pose proof (aligned_le k H2 H3).
      exists k. split; [by apply Hlookup|]. split.
      * rewrite Hsizes by (done || (unfold range_size, PAGE_SIZE in *; lia)). done.
      * intros j Hj Hjk. pose proof (aligned_le (k - j) (aligned_sub _ _ H2 Hj) ltac:(lia)).
        rewrite Hsizes by (by apply aligned_add || (unfold range_size, PAGE_SIZE in *; lia)). by apply Hz.
  - split; [by rewrite lookup_insert_ne, lookup_insert_eq by lia|]. rewrite Hsplit. intros [?|[_ ?]]; [lia|done].
  - intros k [_ Hnot]. done.
  - intros a k [Ha Hnot]. split.
    + rewrite !lookup_insert_ne; [done| |]; intros <-; [by apply Hnot|congruence].
    + rewrite Hsplit. intros [->|[? _]]; [congruence|done].
  - intros a k i Hl Hi. destruct (h_regions _ _ _ _ _ Hs a k (proj1 Hl)) as (_ & _ & _ & ? & ?).
    rewrite Hwords by lia. rewrite decide_False, decide_False; [done| |].
    + intros Heq. apply (apart_words _ _ _ _ _ Hs a k c n i size (proj1 Hl) Hc); [|done|lia|exact Heq].
      intros ->. by apply (proj2 Hl).
    + intros Hp. apply (live_not_range _ _ _ _ _ Hs a k i (a + i) Hl Hi); [|done]. by apply (Hprev _ Hp).
  - rewrite Hw'. pose proof (grow_size_least size). lia.
Qed.
End State2.

(** Inserting a range above all the others. *)
Section Insert.
Context (own : Z -> option owner) (frame : Z -> Z) (new_range : Z).

(** The ranges of the list are below the new one and do not reach it. *)
Record below (s : heap_state) (a : Z) : Prop := {
  below_next : heap_word base (wilderness_ptr s) (range_next a);
  below_size : heap_word base (wilderness_ptr s) (range_size a);
  below_new : 0 < a /\ a + 4 < new_range;
  below_end : 0 <= word frame (hm s) (range_size a) /\ a + word frame (hm s) (range_size a) < new_range
}.

Context (s : heap_state) (ranges : list Z).
Context (Hp : heap_pages first last base limit own frame (wilderness_ptr s) (hm s)).
Context (Hnext : heap_word base (wilderness_ptr s) (range_next new_range)).
Context (Hchain : chain (word frame (hm s)) (free_list s) ranges) (Hbelow : forall a, a ∈ ranges -> below s a).

Lemma place_range_last l : forall fuel link,
  chain (word frame (hm s)) link l -> (forall a, a ∈ l -> below s a) -> (length l <= fuel)%nat ->
  forall p, list.last l = Some p ->
  place_range fuel new_range link s
  = (t <-- store_word (range_next new_range) 0 s;; t <-- store_word (range_next p) new_range t;; Done (p, t)).
Proof.
  induction l as [|a l IH]; intros fuel link Hc Hb Hfuel p Hlast; [done|].
  destruct Hc as [-> Hc]. destruct fuel as [|fuel]; [simpl in Hfuel; lia|]. cbn [place_range].
  destruct (Hb a ltac:(by left)) as [H1 H2 H3 H4].
  rewrite (proj2 (Z.eqb_neq a 0)) by lia.
  rewrite (load_word_ok first last base limit KHB own frame (wilderness_ptr s) s (range_next a) Hp H1). cbn [bind_result].
  destruct l as [|b l].
  - simpl in Hc, Hlast. injection Hlast as <-. rewrite Hc. done.
  - pose proof Hc as [Hab _]. destruct (Hb b ltac:(right; by left)) as [_ _ H5 _].
    rewrite Hab in Hc |- *. rewrite (proj2 (Z.eqb_neq b 0)) by lia.
    rewrite (proj2 (Z.ltb_ge new_range b)), andb_false_r by lia. cbn [orb].
    apply IH; [done| |simpl in *; lia|done]. intros x Hx. apply Hb. by right.
Qed.

Lemma insert_last_ok :
  (length ranges <= range_fuel s)%nat ->
  exists s', insert_free_range new_range s = Done s'
    /\ heap_pages first last base limit own frame (wilderness_ptr s) (hm s')
    /\ wilderness_ptr s' = wilderness_ptr s
    /\ free_list s' = match list.last ranges with None => new_range | Some _ => free_list s end
    /\ forall va, base <= va < wilderness_ptr s ->
         word frame (hm s') va = if decide (list.last ranges = Some va) then new_range
                                 else if decide (va = new_range) then 0 else word frame (hm s) va.
Proof.
  intros Hfuel.
  assert (Hlink : list.last ranges = None /\ free_list s = 0 \/
    exists p, list.last ranges = Some p /\ free_list s <> 0 /\ free_list s < new_range).
  { destruct ranges as [|a l]; [by left|]. right. destruct Hchain as [-> _].
    destruct (Hbelow a ltac:(by left)) as [_ _ Ha _].
    destruct (list.last (a :: l)) as [p|] eqn:E; [exists p; split; [done|lia]|by apply list.last_None in E]. }
  destruct (heap_store_ok first last base limit KHB Hlimit own frame (wilderness_ptr s) s (range_next new_range) 0 Hp Hnext)
    as (m1 & Hstore1 & Hp1 & Hwords1 & _).
  unfold insert_free_range. destruct Hlink as [[Hlast H0]|(p & Hlast & Hne & Hlt)].
  - rewrite H0, Hstore1, Hlast. cbn [bind_result orb Z.eqb].
    set (s1 := _ <| free_list := new_range |>). exists s1.
    assert (Hload : load_word (range_next new_range) s1 = Done 0).
    { rewrite (load_word_ok first last base limit KHB own frame (wilderness_ptr s) s1 _ Hp1 Hnext).
      unfold s1. simpl. by rewrite Hwords1, decide_True by (done || apply Hnext). }
    split; [unfold merge_with_next, merge_with_previous; by rewrite Hload|].
    split; [done|]. split; [done|]. split; [done|].
    intros va Hva. rewrite decide_False by done. unfold s1. simpl. by rewrite Hwords1.
  - assert (Hin : p ∈ ranges) by by apply list.last_Some_elem_of.
    destruct (Hbelow p Hin) as [Hn Hsz Hnew Hend].
    rewrite (proj2 (Z.eqb_neq _ _) Hne), (proj2 (Z.ltb_ge _ _)) by lia. cbn [orb].
    rewrite (place_range_last ranges _ _ Hchain Hbelow Hfuel p Hlast), Hstore1. cbn [bind_result].
    set (s1 := s <| hm := m1 |>).
    destruct (heap_store_ok first last base limit KHB Hlimit own frame (wilderness_ptr s) s1 (range_next p) new_range Hp1 Hn)
      as (m2 & -> & Hp2 & Hwords2 & _).
    cbn [bind_result]. set (s2 := s1 <| hm := m2 |>). exists s2.
    assert (Hwords : forall va, base <= va < wilderness_ptr s -> word frame (hm s2) va
      = if decide (list.last ranges = Some va) then new_range
        else if decide (va = new_range) then 0 else word frame (hm s) va).
    { intros va Hva. unfold s2. simpl. rewrite Hwords2 by done. unfold s1. simpl. rewrite Hwords1 by done.
      rewrite Hlast. unfold range_next. destruct (decide (va = p)) as [->|]; [by rewrite decide_True|].
      by rewrite (decide_False (P := Some p = Some va)) by congruence. }
    assert (Hload : load_word (range_next new_range) s2 = Done 0).
    { rewrite (load_word_ok first last base limit KHB own frame (wilderness_ptr s) s2 _ Hp2 Hnext).
      rewrite Hwords by apply Hnext. rewrite decide_False, decide_True; [done|done|].
      rewrite Hlast. unfold range_next. intros [= ->]. lia. }
    assert (Hload2 : load_word (range_size p) s2 = Done (word frame (hm s) (range_size p))).
    { rewrite (load_word_ok first last base limit KHB own frame (wilderness_ptr s) s2 _ Hp2 Hsz).
      rewrite Hwords by apply Hsz. rewrite decide_False, decide_False; [done| |].
      - unfold range_size. lia.
      - rewrite Hlast. unfold range_size. intros [= ?]. lia. }
    split; [|by repeat (split; [done || by rewrite Hlast|])].
    unfold merge_with_next, merge_with_previous. rewrite Hload. cbn [bind_result Z.eqb].
    rewrite (proj2 (Z.eqb_neq p 0)), Hload2 by lia. cbn [bind_result].
    rewrite u32_small by (destruct Hnext as [[? ?] _]; pose proof (hp_top _ _ _ _ _ _ _ _ Hp); unfold range_next in *; lia).
    by rewrite (proj2 (Z.eqb_neq _ _)) by lia.
Qed.
End Insert.

(** ** Growing the heap *)

Section Grow.
Context (own : Z -> option owner) (frame : Z -> Z) (regions : gmap Z Z) (ranges : list Z) (s : heap_state).
Context (Hs : heap_ok own frame regions ranges s) (size : Z) (Hsize : 0 < size) (Hpage : page_aligned size).
Context (Hroom : wilderness_ptr s + Z.max 0x10000 (size * 2) <= limit).

Lemma wilderness_facts :
  grow_size size = Z.max 0x10000 (size * 2) /\ page_aligned (grow_size size)
  /\ PAGE_SIZE <= size /\ PAGE_SIZE <= grow_size size - size
  /\ base <= wilderness_ptr s /\ page_aligned (wilderness_ptr s) /\ page_aligned (wilderness_ptr s + size).
Proof.
  destruct (h_wilderness _ _ _ _ _ Hs) as [Hwb Hwa].
  assert (Hg : grow_size size = Z.max 0x10000 (size * 2)).
  { apply grow_size_eq; [done|]. unfold KERNEL_HEAP_BASE in *. lia. }
  assert (Hga : page_aligned (grow_size size)).
  { rewrite Hg. destruct (Z.max_spec 0x10000 (size * 2)) as [[_ ->]|[_ ->]]; [|done].
    replace (size * 2) with (size + size) by lia. by apply aligned_add. }
  pose proof (aligned_le size Hpage Hsize).
  pose proof (aligned_le (grow_size size - size) (aligned_sub _ _ Hga Hpage) ltac:(lia)).
  split_and!; try done. by apply aligned_add.
Qed.

Abbreviation top := (wilderness_ptr s).
Abbreviation new := (wilderness_ptr s + size).
Abbreviation g := (grow_size size).

Lemma region_words a n k j :
  regions !! a = Some n -> page_aligned k -> 0 <= k < n -> (j = 0 \/ j = 4) ->
  base <= a + k + j < top /\ page_aligned a.
Proof.
  intros Ha Hk Hkn Hj. destruct (h_regions _ _ _ _ _ Hs a n Ha) as (H1 & H2 & H3 & H4 & H5).
  pose proof (aligned_le (n - k) (aligned_sub _ _ H2 Hk) ltac:(lia)). unfold PAGE_SIZE in *. split; [lia|done].
Qed.

(** The heap once its last page is wired and the rest of them is in the free list. *)
Lemma grown_ok s' frame' :
  heap_pages first last base limit own frame' (top + g) (hm s') -> wilderness_ptr s' = top + g ->
  free_list s' = match list.last ranges with None => new | Some _ => free_list s end ->
  (forall va, base <= va < top + g -> word frame' (hm s') va
    = if decide (list.last ranges = Some va) then new
      else if decide (va = range_size new) then g - size
      else if decide (va < top) then word frame (hm s) va else 0) ->
  allocated own frame regions ranges s size top frame'
    (<[new := g - size]> (<[top := size]> regions)) (ranges ++ [new]) s'.
Proof.
  intros Hp Hw Hhead Hwords. destruct wilderness_facts as (_ & Hga & Hsp & Hgs & Hwb & Hwa & Hna).
  assert (Hold : forall a n, regions !! a = Some n -> base <= a /\ a + n <= top /\ 0 < n).
  { intros a n Ha. by destruct (h_regions _ _ _ _ _ Hs a n Ha) as (_ & _ & ? & ? & ?). }
  assert (Hnone : regions !! top = None /\ regions !! new = None).
  { split; [destruct (regions !! top) as [k|] eqn:E|destruct (regions !! new) as [k|] eqn:E]; try done;
      destruct (Hold _ _ E) as (_ & ? & ?); lia. }
  assert (Hsizes : forall a n k, a ∈ ranges -> regions !! a = Some n -> page_aligned k -> 0 <= k < n ->
    word frame' (hm s') (range_size (a + k)) = word frame (hm s) (range_size (a + k))).
  { intros a n k Ha Hn Hk Hkn. destruct (region_words a n k 4 Hn Hk Hkn ltac:(by right)) as [Hr Hal].
    rewrite Hwords by (unfold range_size, PAGE_SIZE in *; lia).
    rewrite decide_False, decide_False, decide_True; [done|unfold range_size; lia|unfold range_size, PAGE_SIZE in *; lia|].
    intros Hl%list.last_Some_elem_of. destruct (range_region _ _ _ _ _ Hs _ Hl) as [j Hj].
    destruct (h_regions _ _ _ _ _ Hs _ j Hj) as [Hal' _].
    by apply (aligned_size_ne (a + k) (range_size (a + k)) (aligned_add _ _ Hal Hk) Hal'). }
  assert (Hrn : forall a, a ∈ ranges -> exists n, regions !! a = Some n /\ a <> top /\ a <> new).
  { intros a Ha. destruct (range_region _ _ _ _ _ Hs a Ha) as [n Hn]. exists n. split; [done|].
    destruct (Hold a n Hn) as (_ & ? & ?). lia. }
  constructor; [constructor| | | | |].
  - by rewrite Hw.
  - rewrite Hw. split; [unfold PAGE_SIZE in *; lia|by apply aligned_add].
  - apply (chain_relink (word frame (hm s)) _ ranges [] [new] new (free_list s));
      [rewrite app_nil_r; apply (h_chain _ _ _ _ _ Hs)|apply (h_nodup _ _ _ _ _ Hs)| | |].
    + split; [done|]. simpl. rewrite Hwords by (unfold range_next, PAGE_SIZE in *; lia).
      rewrite decide_False, decide_False, decide_False; [done| | |].
      * unfold range_next, PAGE_SIZE in *. lia.
      * unfold range_next, range_size. lia.
      * intros Hl%list.last_Some_elem_of. destruct (Hrn _ Hl) as (n & _ & _ & Hne). by apply Hne.
    + intros a Ha Hl. destruct (Hrn a Ha) as (n & Hn & _).
      destruct (region_words a n 0 0 Hn ltac:(done) ltac:(destruct (Hold a n Hn); lia) ltac:(by left)) as [Hr _].
      unfold range_next. rewrite Hwords by (unfold PAGE_SIZE in *; lia).
      rewrite decide_False, decide_False, decide_True; [done|lia|unfold range_size, PAGE_SIZE in *; lia|done].
    + rewrite Hhead. destruct (list.last ranges) as [p|] eqn:Hl; [|done]. split; [done|].
      apply list.last_Some_elem_of in Hl. destruct (Hrn p Hl) as (n & Hn & _).
      destruct (region_words p n 0 0 Hn ltac:(done) ltac:(destruct (Hold p n Hn); lia) ltac:(by left)) as [Hr _].
      unfold range_next. rewrite Hwords by (unfold PAGE_SIZE in *; lia). by rewrite decide_True.
  - apply NoDup_app. split; [apply (h_nodup _ _ _ _ _ Hs)|]. split; [|apply NoDup_singleton].
    intros a Ha ->%list_elem_of_singleton. by destruct (Hrn _ Ha) as (n & _ & _ & ?).
  - rewrite Hw. intros a n [[<- <-]|[_ [[<- <-]|[_ Ha]]%lookup_insert_Some]]%lookup_insert_Some.
    + split; [done|]. split; [by apply aligned_sub|]. unfold PAGE_SIZE in *. lia.
    + split; [done|]. split; [done|]. unfold PAGE_SIZE in *. lia.
    + destruct (h_regions _ _ _ _ _ Hs a n Ha) as (H1 & H2 & H3 & H4 & H5).
      split; [done|]. split; [done|]. unfold PAGE_SIZE in *. lia.
  - apply all_apart_insert; [apply all_apart_insert; [apply (h_apart _ _ _ _ _ Hs)|]|].
    + intros a n Ha _. destruct (Hold a n Ha) as (_ & ? & _). by right.
    + intros a n [[<- <-]|[_ Ha]]%lookup_insert_Some _; right; [lia|].
      destruct (Hold a n Ha) as (_ & ? & _). lia.
  - intros a [Ha| ->%list_elem_of_singleton]%elem_of_app.
    + destruct (h_ranges _ _ _ _ _ Hs a Ha) as (n & Hn & Hst & Hz). destruct (Hrn a Ha) as (_ & _ & ? & ?).
      destruct (Hold a n Hn) as (_ & _ & Hn0). exists n.
      split; [by rewrite !lookup_insert_ne by done|]. split.
      * pose proof (Hsizes a n 0 Ha Hn ltac:(done) ltac:(lia)) as H1. rewrite Z.add_0_r in H1. by rewrite H1.
      * intros k Hk Hkn. rewrite (Hsizes a n k) by (done || lia). by apply Hz.
    + exists (g - size). split; [by rewrite lookup_insert_eq|].
      assert (Hlast : forall va, list.last ranges = Some va -> va < top).
      { intros va Hl%list.last_Some_elem_of. destruct (Hrn _ Hl) as (n & Hn & _).
        destruct (Hold _ n Hn) as (_ & ? & ?). lia. }
      split.
      * right. rewrite Hwords by (unfold range_size, PAGE_SIZE in *; lia).
        rewrite decide_False, decide_True; [done|done|].
        intros Hl%Hlast. unfold range_size, PAGE_SIZE in *. lia.
      * intros k Hk Hkn.
        pose proof (aligned_le (g - size - k) (aligned_sub _ _ (aligned_sub _ _ Hga Hpage) Hk) ltac:(lia)).
        rewrite Hwords by (unfold range_size, PAGE_SIZE in *; lia).
        rewrite decide_False, decide_False, decide_False; [done| | |]; unfold range_size, PAGE_SIZE in *; [lia|lia|].
        intros Hl%Hlast. lia.
  - split; [rewrite lookup_insert_ne by (unfold PAGE_SIZE in *; lia); by rewrite lookup_insert_eq|].
    intros [Ha|Ha%list_elem_of_singleton]%elem_of_app; [|lia]. by destruct (Hrn _ Ha) as (n & _ & ? & _).
  - intros n [Ha _]. destruct Hnone. congruence.
  - intros a n [Ha Hnot]. destruct (Hold a n Ha) as (_ & ? & ?). split.
    + by rewrite !lookup_insert_ne by lia.
    + intros [Hx|Hx%list_elem_of_singleton]%elem_of_app; [done|lia].
  - intros a n i Hl Hi. destruct (Hold a n (proj1 Hl)) as (? & ? & ?).
    rewrite Hwords by (unfold PAGE_SIZE in *; lia).
    rewrite decide_False, decide_False, decide_True; [done|lia|unfold range_size, PAGE_SIZE in *; lia|].
    intros Hp'%list.last_Some_elem_of. by apply (live_not_range _ _ _ _ _ Hs a n i (a + i) Hl Hi).
  - rewrite Hw. unfold PAGE_SIZE in *. lia.
Qed.

Lemma grow_heap_ok :
  (exists s' frame', grow_heap size s = Done (wilderness_ptr s, s')
     /\ allocated own frame regions ranges s size (wilderness_ptr s) frame'
          (<[wilderness_ptr s + size := grow_size size - size]> (<[wilderness_ptr s := size]> regions))
          (ranges ++ [wilderness_ptr s + size]) s')
  \/ grow_heap size s = Fault HostExit
     /\ Z.of_nat (length (free_page_list (frames (hm s)))) * PAGE_SIZE < grow_size size.
Proof.
  destruct wilderness_facts as (Hg & Hga & Hsp & Hgs & Hwb & Hwa & Hnew4).
  set (n := Z.to_nat (g / PAGE_SIZE)).
  assert (Hn : Z.of_nat n * PAGE_SIZE = g).
  { unfold n. rewrite Z2Nat.id by (apply Z.div_pos; unfold PAGE_SIZE in *; lia).
    unfold page_aligned, PAGE_SIZE in *. Z.div_mod_to_equations. lia. }
  unfold grow_heap. fold n.
  rewrite (u32_small (top + g)) by (unfold KERNEL_HEAP_BASE, PAGE_SIZE in *; lia).
  destruct (wire_heap_ok first last base limit KHB Hlimit own n (S n) frame top (hm s) (h_pages _ _ _ _ _ Hs) Hwa Hwb
    ltac:(lia) ltac:(lia)) as [(m & frame' & Hrun & Hp & Hold & Hzero)|[Hrun Hfree]]; rewrite Hn in Hrun.
  2: { right. rewrite Hrun. split; [done|]. rewrite <- Hn. unfold PAGE_SIZE. lia. }
  left. rewrite Hrun, Hn in *. cbn [bind_result]. clear Hrun.
  set (s1 := s <| hm := m |>). cbv zeta. change (wilderness_ptr s1) with top.
  rewrite (u32_small (top + size)), (u32_small (g - size)) by (unfold KERNEL_HEAP_BASE, PAGE_SIZE in *; lia).
  assert (Hnext : heap_word base (top + g) (range_next new) /\ heap_word base (top + g) (range_size new)).
  { destruct (aligned_4 _ Hnew4). unfold heap_word, range_next, range_size, PAGE_SIZE in *.
    split; (split; [lia|done]). }
  destruct Hnext as [Hnext Hnsize].
  destruct (heap_store_ok first last base limit KHB Hlimit own frame' (top + g) s1 (range_size new) (g - size) Hp Hnsize)
    as (m2 & -> & Hp2 & Hwords1 & _).
  cbn [bind_result]. set (s2 := s1 <| hm := m2 |> <| wilderness_ptr := top + g |>).
  assert (Hwords2 : forall va, base <= va < top + g -> word frame' (hm s2) va
    = if decide (va = range_size new) then g - size else if decide (va < top) then word frame (hm s) va else 0).
  { intros va Hva. change (hm s2) with m2. rewrite (Hwords1 va Hva). destruct (decide _); [done|].
    change (hm s1) with m. destruct (decide (va < top)); [apply Hold; lia|apply Hzero; lia]. }
  assert (Hold' : forall a j, a ∈ ranges -> (j = 0 \/ j = 4) ->
    base <= a + j < top /\ word frame' (hm s2) (a + j) = word frame (hm s) (a + j)).
  { intros a j Ha Hj. destruct (range_region _ _ _ _ _ Hs a Ha) as [k Hk].
    destruct (h_regions _ _ _ _ _ Hs a k Hk) as (_ & _ & Hk0 & _).
    destruct (region_words a k 0 j Hk ltac:(done) ltac:(lia) Hj) as [Hr _]. rewrite Z.add_0_r in Hr. split; [done|].
    rewrite Hwords2 by lia. rewrite decide_False by (unfold range_size, PAGE_SIZE in *; lia). by rewrite decide_True by lia. }
  assert (Hbelow : forall a, a ∈ ranges -> below frame' new s2 a).
  { intros a Ha. destruct (h_ranges _ _ _ _ _ Hs a Ha) as (k & Hk & Hst & _).
    destruct (h_regions _ _ _ _ _ Hs a k Hk) as (H1 & _ & H3 & H4 & H5). destruct (aligned_4 a H1).
    destruct (Hold' a 0 Ha ltac:(by left)) as [Hr0 _], (Hold' a 4 Ha ltac:(by right)) as [Hr4 Hw4].
    change (a + 4) with (range_size a) in Hw4.
    constructor; change (wilderness_ptr s2) with (top + g); unfold heap_word, range_next.
    - split; [lia|done].
    - unfold range_size. split; [lia|done].
    - unfold KERNEL_HEAP_BASE, PAGE_SIZE in *. lia.
    - rewrite Hw4. unfold PAGE_SIZE in *. lia. }
  assert (Hchain2 : chain (word frame' (hm s2)) (free_list s2) ranges).
  { apply (chain_frame (word frame (hm s))); [|apply (h_chain _ _ _ _ _ Hs)]. intros a Ha. unfold range_next.
    destruct (Hold' a 0 Ha ltac:(by left)) as [_ H0]. by rewrite Z.add_0_r in H0. }
  destruct (insert_last_ok own frame' new s2 ranges Hp2 Hnext Hchain2 Hbelow) as (s3 & -> & Hp3 & Hw3 & Hhead & Hwords3).
  { pose proof (ranges_count _ _ _ _ _ Hs) as Hcount. unfold range_fuel. change (wilderness_ptr s2) with (top + g).
    assert ((top - KERNEL_HEAP_BASE) / PAGE_SIZE <= (top + g - KERNEL_HEAP_BASE) / PAGE_SIZE)
      by (apply Z.div_le_mono; unfold PAGE_SIZE in *; lia).
    lia. }
  cbn [bind_result]. exists s3, frame'. split; [done|].
  apply grown_ok; [done|done|done|]. intros va Hva. rewrite (Hwords3 va Hva). destruct (decide _); [done|].
  destruct (decide (va = new)) as [->|Hne].
  - rewrite decide_False by (unfold range_size; lia). rewrite decide_False by (unfold PAGE_SIZE in *; lia). done.
  - by apply Hwords2.
Qed.

(** ** [kmalloc] *)

(** A multiple of the page size is always given, unless no page is free. *)
Lemma kmalloc_ok :
  (exists block s' frame' regions' ranges', kmalloc size s = Done (block, s')
     /\ allocated own frame regions ranges s size block frame' regions' ranges' s')
  \/ kmalloc size s = Fault HostExit
     /\ Z.of_nat (length (free_page_list (frames (hm s)))) * PAGE_SIZE < grow_size size.
Proof.
  destruct wilderness_facts as (_ & _ & Hsp & Hgs & Hwb & _).
  assert (Hfuel : (length ranges < range_fuel s)%nat).
  { pose proof (ranges_count _ _ _ _ _ Hs). unfold range_fuel. lia. }
  assert (Hne : forall c n, regions !! c = Some n -> (c =? 0) = false).
  { intros c n Hc. destruct (h_regions _ _ _ _ _ Hs c n Hc) as (_ & _ & _ & ? & _).
    apply Z.eqb_neq. unfold KERNEL_HEAP_BASE in *. lia. }
  unfold kmalloc. change None with (list.last (@nil Z)).
  destruct (search_ranges_ok _ _ _ _ _ Hs size ranges [] _ Hsize eq_refl Hfuel)
    as [->|la c lb Heq Hc ->|la c lb n Heq Hc Hn ->].
  - cbn [bind_result Z.eqb]. destruct grow_heap_ok as [(s' & frame' & -> & Hal)|[-> Hfree]]; [left|by right].
    do 5 eexists. split; [done|]. exact Hal.
  - left. pose proof Hs as Hs2. rewrite Heq in Hs2 |- *.
    destruct (remove_range_ok own frame regions s la lb c size Hs2 Hc) as (s' & Hrun & Hal).
    rewrite app_nil_l, Hrun. cbn [bind_result]. rewrite (Hne c _ Hc).
    do 5 eexists. split; [done|]. exact Hal.
  - left. pose proof Hs as Hs2. rewrite Heq in Hs2 |- *.
    destruct (lop_range_ok own frame regions s la lb c size Hs2 Hsize Hpage n Hc Hn) as (s' & Hrun & Hal).
    rewrite app_nil_l, Hrun. cbn [bind_result]. rewrite (Hne c _ Hc).
    do 5 eexists. split; [done|]. exact Hal.
Qed.
End Grow.
End Heap.

(** ** An example: a heap at its usual place in a memory of 64 pages, 3 of them the boot code's *)

Definition heap_table (a : Z) : Z := if a =? 0x1000 + pgdindex KERNEL_HEAP_BASE * 4 then 0x2001 else 0.

Definition heap_boot : heap_state := boot_init_heap KERNEL_HEAP_BASE {|
  hm := {|
    frames := vm_page_init 0x40000 3
      {| pages := replicate 64 boot_page; free_page_list := []; memory_size := 0; phys := heap_table |};
    kernel_map := {| page_dir := 0x1000; asid := 0 |};
    map_list := []; maps := ∅; asid_alloc := [0; 0]; invalidated := []; registers := (0, 0) |};
  free_list := 0; wilderness_ptr := 0 |}.

Definition heap_own (page : Z) : option owner :=
  if decide (page = 1) then Some (Directory Kernel)
  else if decide (page = 2) then Some (Table Kernel (pgdindex KERNEL_HEAP_BASE)) else None.

Lemma heap_boot_ok :
  heap_ok 3 63 KERNEL_HEAP_BASE (KERNEL_HEAP_BASE + 0x400000) heap_own (fun _ => 0) ∅ [] heap_boot.
Proof.
  destruct (vm_page_init_ok 0x40000 3
    {| pages := replicate 64 boot_page; free_page_list := []; memory_size := 0; phys := heap_table |}
    64 eq_refl eq_refl ltac:(lia) ltac:(lia)) as [Hok _].
  enough (Hpages : heap_pages 3 63 KERNEL_HEAP_BASE (KERNEL_HEAP_BASE + 0x400000) heap_own (fun _ => 0)
    KERNEL_HEAP_BASE (hm heap_boot)).
  { constructor; [exact Hpages|done|done|apply NoDup_nil_2|by intros a n|by intros a n|].
    intros a Ha. by apply elem_of_nil in Ha. }
  constructor; try (intros va Hva; exfalso; lia); try (intros va va' Hva; exfalso; lia).
  - constructor.
    + exact Hok.
    + done.
    + intros page o. unfold heap_own. destruct (decide (page = 1)) as [->|]; [intros _; split; lia|].
      destruct (decide (page = 2)) as [->|]; [intros _; split; lia|done].
    + intros page o. unfold heap_own. destruct (decide _); [by intros [= <-]|].
      destruct (decide _); [by intros [= <-]|done].
    + intros [|map] dir; simpl; [|by rewrite lookup_empty]. intros [= <-]. by exists 1.
    + intros [|map] dir slot; simpl; [|by rewrite lookup_empty]. intros [= <-] Hslot.
      unfold memory_of. simpl. unfold heap_table. destruct (Z.eqb_spec (0x1000 + slot * 4) (0x1000 + pgdindex KERNEL_HEAP_BASE * 4)) as [Heq|Hne].
      * right. exists 2. assert (slot = pgdindex KERNEL_HEAP_BASE) as -> by lia. done.
      * by left.
    + intros map dir slot; simpl. by rewrite lookup_empty.
    + split; [apply NoDup_nil_2|]. intros map. simpl. rewrite lookup_empty. split; [by intros ?%elem_of_nil|by intros []].
  - done.
  - intros va Hva _. assert (pgdindex va = pgdindex KERNEL_HEAP_BASE) as Heq.
    { unfold pgdindex, KERNEL_HEAP_BASE, PAGE_SIZE in *. Z.div_mod_to_equations. lia. }
    unfold kernel_table_present. simpl. unfold memory_of. simpl. rewrite Heq. by vm_compute.
Qed.

(** Several allocations in a row. *)
Fixpoint kmallocs (sizes : list Z) (s : heap_state) : result (list Z * heap_state) :=
  match sizes with
  | [] => Done ([], s)
  | size :: sizes' =>
      '(block, s) <-- kmalloc size s;;
      '(blocks, s) <-- kmallocs sizes' s;;
      Done (block :: blocks, s)
  end.

(** Page after page: where the blocks are, and how many pages they took. *)
Definition pages_taken : option (list Z * Z) :=
  match kmallocs [0x1000; 0x1000; 0x1000; 0x1000] heap_boot with
  | Done (blocks, s) => Some (blocks, (wilderness_ptr s - KERNEL_HEAP_BASE) / PAGE_SIZE)
  | Fault _ => None
  end.

(** A block is filled, freed, and allocated again in parts. *)
Definition reused_block : result (list Z * list Z) :=
  '(old, s) <-- kmallocs [0x2000; 0xe000] heap_boot;;
  s <-- store_word (KERNEL_HEAP_BASE + 0x1004) 0x8000 s;;
  s <-- kfree KERNEL_HEAP_BASE 0x2000 s;;
  '(new, s) <-- kmallocs [0x1000; 0x8000] s;;
  Done (old, new).

Lemma lopped_range_examples :
  pages_taken = Some ([KERNEL_HEAP_BASE; KERNEL_HEAP_BASE + 0x1000;
                       KERNEL_HEAP_BASE + 0x10000; KERNEL_HEAP_BASE + 0x11000], 32)
  /\ exists freed used again overlapping,
       reused_block = Done ([freed; used], [again; overlapping])
       /\ used <= freed + 0x2000 /\ again = freed
       /\ ~ apart overlapping 0x8000 used 0xe000.
Proof.
  split; [vm_compute; reflexivity|].
  exists KERNEL_HEAP_BASE, (KERNEL_HEAP_BASE + 0x2000), KERNEL_HEAP_BASE, (KERNEL_HEAP_BASE + 0x1000).
  split; [vm_compute; reflexivity|]. split; [lia|]. split; [done|]. unfold apart. lia.
Qed.

(** ** Properties *)

(** C36: what is left of a range after a slice is lopped off its front has no size of its own.
    In any heap whose first free range is larger than asked for, whatever its memory holds, [kmalloc]
    gives the front of the range and links the rest in its place, and writes no other word: the
    size of the rest is the number that memory held there.  That number decides what the rest
    is good for next, however long it is: a block of that size, or a smaller one, is given there, even
    if it reaches over blocks in use; and a larger one, when there is no other range, grows the heap,
    even if the rest is long enough. *)
Theorem lopped_range_loses_size first last base limit own frame s size :
  let top := wilderness_ptr s in
  let w := word frame (hm s) in
  let block := free_list s in
  let rest := block + size in
  let number := w (range_size rest) in
  KERNEL_HEAP_BASE <= base -> limit < 2 ^ 32 -> heap_pages first last base limit own frame top (hm s) ->
  heap_word base top block -> heap_word base top (range_size block) -> heap_word base top rest -> heap_word base top (range_size rest) ->
  0 < size < w (range_size block) ->
  exists s', kmalloc size s = Done (block, s')
    /\ heap_pages first last base limit own frame top (hm s') /\ wilderness_ptr s' = top /\ free_list s' = rest
    /\ (forall va, base <= va < top -> word frame (hm s') va = if decide (va = range_next rest) then w (range_next block) else w va)
    /\ (forall size', size' = number \/ size' < number /\ heap_word base top (rest + size') ->
          exists s'', kmalloc size' s' = Done (rest, s''))
    /\ (forall size', number < size' -> w (range_next block) = 0 -> kmalloc size' s' = grow_heap size' s').
Proof.
  intros top w block rest number Hbase Hlimit Hp Hblock Hblock4 Hrest Hrest4 Hsize.
  assert (HK : KERNEL_BASE <= base) by (unfold KERNEL_BASE, KERNEL_HEAP_BASE in *; lia).
  pose proof (hp_top _ _ _ _ _ _ _ _ Hp) as Htop. unfold KERNEL_HEAP_BASE in Hbase.
  assert (Hne : forall va, heap_word base top va -> (va =? 0) = false) by (intros va [Hva _]; apply Z.eqb_neq; lia).
  assert (Hsmall : forall va, heap_word base top va -> u32 va = va) by (intros va [Hva _]; apply u32_small; lia).
  assert (Hload : forall s1 va, heap_pages first last base limit own frame top (hm s1) -> heap_word base top va ->
    load_word va s1 = Done (word frame (hm s1) va)).
  { intros s1 va H1 H2. by apply (load_word_ok first last base limit HK own frame top). }
  assert (Hstore : forall s1 va v, heap_pages first last base limit own frame top (hm s1) -> heap_word base top va ->
    exists m, store_word va v s1 = Done (s1 <| hm := m |>) /\ heap_pages first last base limit own frame top m
      /\ forall va', base <= va' < top -> word frame m va' = if decide (va' = va) then v else word frame (hm s1) va').
  { intros s1 va v H1 H2. destruct (heap_store_ok first last base limit HK Hlimit own frame top s1 va v H1 H2) as (m & ? & ? & ? & _).
    by exists m. }
  destruct (Hstore s (range_next rest) (w (range_next block)) Hp Hrest) as (m & Hlink & Hm & Hwords).
  set (s' := s <| hm := m |> <| free_list := rest |>). exists s'.
  assert (Hnumber : word frame (hm s') (range_size rest) = number).
  { change (hm s') with m. rewrite Hwords, decide_False; [done|unfold range_size, range_next; lia|apply Hrest4]. }
  assert (Hnext : word frame (hm s') (range_next rest) = w (range_next block)).
  { change (hm s') with m. by rewrite Hwords, decide_True by (done || apply Hrest). }
  split; [|split; [done|split; [done|split; [done|split; [done|split]]]]].
  - unfold kmalloc, range_fuel. cbn [search_ranges read_link bind_result]. fold block. rewrite (Hne block Hblock).
    rewrite (Hload s _ Hp Hblock4). cbn [bind_result]. fold w.
    rewrite (proj2 (Z.eqb_neq _ _)), (proj2 (Z.ltb_lt size _)) by lia.
    unfold lop_range. fold rest. rewrite (Hload s (range_next block) Hp Hblock). cbn [bind_result]. rewrite (Hsmall rest Hrest).
    fold w. rewrite Hlink. cbn [bind_result write_link]. by rewrite (Hne block Hblock).
  - intros size' Hsize'. unfold kmalloc, range_fuel. cbn [search_ranges read_link bind_result]. change (free_list s') with rest.
    rewrite (Hne rest Hrest), (Hload s' _ Hm Hrest4), Hnumber. cbn [bind_result].
    destruct (Z.eqb_spec number size') as [_|Hneq].
    + unfold remove_range. rewrite (Hload s' (range_next rest) Hm Hrest). cbn [bind_result write_link]. rewrite (Hne rest Hrest). by eexists.
    + destruct Hsize' as [?|[Hlt Hin]]; [congruence|]. rewrite (proj2 (Z.ltb_lt _ _) Hlt).
      unfold lop_range. rewrite (Hload s' (range_next rest) Hm Hrest). cbn [bind_result]. rewrite (Hsmall _ Hin).
      destruct (Hstore s' (range_next (rest + size')) (word frame (hm s') (range_next rest)) Hm Hin) as (m2 & -> & _).
      cbn [bind_result write_link]. rewrite (Hne rest Hrest). by eexists.
  - intros size' Hlarge Hend. unfold kmalloc, range_fuel. cbn [search_ranges read_link bind_result]. change (free_list s') with rest.
    rewrite (Hne rest Hrest), (Hload s' _ Hm Hrest4), Hnumber. cbn [bind_result].
    rewrite (proj2 (Z.eqb_neq _ _)), (proj2 (Z.ltb_ge size' _)) by lia.
    rewrite (Hload s' (range_next rest) Hm Hrest), Hnext, Hend. done.
Qed.

Lemma lopped_range_loses_size_witness :
  exists s0, kmalloc 0x1000 heap_boot = Done (KERNEL_HEAP_BASE, s0)
    /\ exists s s1 s2 s3, store_word (KERNEL_HEAP_BASE + 0x2004) 0x20000 s0 = Done s
    /\ kmalloc 0x1000 s = Done (KERNEL_HEAP_BASE + 0x1000, s1) /\ wilderness_ptr s1 = KERNEL_HEAP_BASE + 0x10000
    /\ kmalloc 0x20000 s1 = Done (KERNEL_HEAP_BASE + 0x2000, s2)
    /\ kmalloc 0x10 s1 = Done (KERNEL_HEAP_BASE + 0x2000, s3)
    /\ kmalloc 0x20004 s1 = grow_heap 0x20004 s1.
Proof.
  assert (HB : KERNEL_HEAP_BASE <= KERNEL_HEAP_BASE) by lia.
  assert (HL : KERNEL_HEAP_BASE + 0x400000 < 2 ^ 32) by done.
  assert (Hroom : wilderness_ptr heap_boot + Z.max 0x10000 (0x1000 * 2) <= KERNEL_HEAP_BASE + 0x400000) by (vm_compute; congruence).
  assert (Hpos : 0 < 0x1000) by lia.
  assert (HKH : KERNEL_BASE <= KERNEL_HEAP_BASE) by done.
  pose proof (kmalloc_ok 3 63 KERNEL_HEAP_BASE (KERNEL_HEAP_BASE + 0x400000) HB HL heap_own (fun _ => 0) ∅ []
    heap_boot heap_boot_ok 0x1000 Hpos eq_refl Hroom) as Hok. clear Hroom.
  assert (Hstart : match kmalloc 0x1000 heap_boot with
    | Done (b, s) => b = KERNEL_HEAP_BASE /\ free_list s = KERNEL_HEAP_BASE + 0x1000 /\ wilderness_ptr s = KERNEL_HEAP_BASE + 0x10000
        /\ load_word (KERNEL_HEAP_BASE + 0x1000) s = Done 0 /\ load_word (KERNEL_HEAP_BASE + 0x1004) s = Done 0xf000
    | Fault _ => False end) by (vm_compute; split_and!; reflexivity).
  destruct (kmalloc 0x1000 heap_boot) as [[b s0]|f] eqn:Hrun; [|destruct Hstart].
  destruct Hstart as (-> & Hfree & Htop & Hnext & Hsize).
  destruct Hok as [(b & s' & frame & regions & ranges & [= <- <-] & Hal)|[Hfault _]]; [|discriminate Hfault].
  exists s0. split; [reflexivity|]. clear Hrun.
  pose proof (h_pages _ _ _ _ _ _ _ _ _ (al_ok _ _ _ _ _ _ _ _ _ _ _ _ _ _ _ Hal)) as Hp. rewrite Htop in Hp. clear Hal.
  assert (Hword : forall k, 0 <= k < 0x10000 -> k mod 4 = 0 -> heap_word KERNEL_HEAP_BASE (KERNEL_HEAP_BASE + 0x10000) (KERNEL_HEAP_BASE + k)).
  { intros k Hk H4. split; [lia|]. unfold KERNEL_HEAP_BASE. Z.div_mod_to_equations. lia. }
  rewrite (load_word_ok 3 63 _ _ HKH _ frame _ _ _ Hp (Hword 0x1000 ltac:(lia) eq_refl)) in Hnext. injection Hnext as Hnext.
  rewrite (load_word_ok 3 63 _ _ HKH _ frame _ _ _ Hp (Hword 0x1004 ltac:(lia) eq_refl)) in Hsize. injection Hsize as Hsize.
  destruct (heap_store_ok 3 63 _ _ HKH HL heap_own frame _ s0 (KERNEL_HEAP_BASE + 0x2004) 0x20000 Hp) as (m & Hstore & Hm & Hwords & _);
    [by apply (Hword 0x2004)|].
  destruct (lopped_range_loses_size 3 63 _ _ heap_own frame (s0 <| hm := m |>) 0x1000 HB HL) as (s1 & H1 & _ & H2 & _ & _ & H3 & H4).
  - change (wilderness_ptr (s0 <| hm := m |>)) with (wilderness_ptr s0). by rewrite Htop.
  - change (heap_word KERNEL_HEAP_BASE (wilderness_ptr s0) (free_list s0)). rewrite Htop, Hfree. by apply (Hword 0x1000).
  - change (heap_word KERNEL_HEAP_BASE (wilderness_ptr s0) (range_size (free_list s0))). rewrite Htop, Hfree. by apply (Hword 0x1004).
  - change (heap_word KERNEL_HEAP_BASE (wilderness_ptr s0) (free_list s0 + 0x1000)). rewrite Htop, Hfree. by apply (Hword 0x2000).
  - change (heap_word KERNEL_HEAP_BASE (wilderness_ptr s0) (range_size (free_list s0 + 0x1000))). rewrite Htop, Hfree. by apply (Hword 0x2004).
  - change (0 < 0x1000 < word frame m (range_size (free_list s0))). rewrite Hfree.
    change (range_size (KERNEL_HEAP_BASE + 0x1000)) with (KERNEL_HEAP_BASE + 0x1004). rewrite Hwords, decide_False, Hsize by (done || lia). lia.
  - change (free_list (s0 <| hm := m |>)) with (free_list s0) in *. change (hm (s0 <| hm := m |>)) with m in *.
    change (wilderness_ptr (s0 <| hm := m |>)) with (wilderness_ptr s0) in *. rewrite Hfree in *. rewrite Htop in *.
    change (range_size (KERNEL_HEAP_BASE + 0x1000 + 0x1000)) with (KERNEL_HEAP_BASE + 0x2004) in *.
    rewrite Hwords, decide_True in H3, H4 by (done || lia).
    change (range_next (KERNEL_HEAP_BASE + 0x1000)) with (KERNEL_HEAP_BASE + 0x1000) in H4.
    rewrite Hwords, decide_False, Hnext in H4 by (done || lia).
    destruct (H3 0x20000 (or_introl eq_refl)) as [s2 E2].
    destruct (H3 0x10) as [s3 E3]; [right; split; [lia|by apply (Hword 0x2010)]|].
    exists (s0 <| hm := m |>), s1, s2, s3. split_and!; try done. by apply H4.
Defined.
