(* ===== verification/Slab.v ===== *)
(** * Slab: allocation of kernel objects (software/kernel/slab.c, slab.h)

    A slab allocator hands out objects of one size.  It carves them out of pages it takes from
    the kernel heap (KernelHeap) and links the freed ones through their own first words.  [lock]
    is held with interrupts off over each function, so each is one step.

    [object_history] interleaves the allocators of the whole kernel, direct uses of the heap, stores
    of the owners to their objects, and whatever else the kernel does with memory. *)

From S2P Require Export KernelHeap.
From stdpp Require Import list gmap functions.
Import stdpp.list_relations.list.

#[local] Open Scope Z_scope.

Record slab_allocator := {
  object_size : Z;
  free_objects : Z;
  wilderness_slab : Z;
  wilderness_offset : Z;
  slab_size : Z
}.

#[export]
Instance slab_allocator_fields : Fields slab_allocator := fun sa =>
  Build_slab_allocator (object_size sa) (free_objects sa) (wilderness_slab sa) (wilderness_offset sa) (slab_size sa).

Definition MAKE_SLAB (size : Z) : slab_allocator := {|
  object_size := size; free_objects := 0; wilderness_slab := 0; wilderness_offset := 0; slab_size := PAGE_SIZE |}.

(** ** Operations *)

(** If there is no wilderness, or the slab is full, a new slab. *)
Definition refill_slab (sa : slab_allocator) (s : heap_state) : result (slab_allocator * heap_state) :=
  if (wilderness_slab sa =? 0) || (slab_size sa <? u32 (wilderness_offset sa + object_size sa)) then
    '(block, s) <-- kmalloc (slab_size sa) s;;
    Done (sa <| wilderness_slab := block |> <| wilderness_offset := 0 |>, s)
  else Done (sa, s).

Definition slab_alloc (sa : slab_allocator) (s : heap_state) : result (Z * slab_allocator * heap_state) :=
  if negb (free_objects sa =? 0) then
    let object := free_objects sa in
    next <-- load_word object s;;
    Done (object, sa <| free_objects := next |>, s)
  else
    '(sa, s) <-- refill_slab sa s;;
    let object := u32 (wilderness_slab sa + wilderness_offset sa) in
    Done (object, sa <| wilderness_offset ::= fun offset => u32 (offset + object_size sa) |>, s).

Definition slab_free (object : Z) (sa : slab_allocator) (s : heap_state) : result (slab_allocator * heap_state) :=
  s <-- store_word object (free_objects sa) s;;
  Done (sa <| free_objects := object |>, s).

(** ** The kernel's objects *)

(** The heap and every allocator on it, by address. *)
Record kernel_memory := { heap : heap_state; slabs : Z -> slab_allocator }.

#[export]
Instance kernel_memory_fields : Fields kernel_memory := fun st => Build_kernel_memory (heap st) (slabs st).

Definition alloc_object (k : Z) (st : kernel_memory) : result (Z * kernel_memory) :=
  '(o, sa, h) <-- slab_alloc (slabs st k) (heap st);;
  Done (o, {| heap := h; slabs := <[k := sa]> (slabs st) |}).

Definition free_object (k o : Z) (st : kernel_memory) : result kernel_memory :=
  '(sa, h) <-- slab_free o (slabs st k) (heap st);;
  Done {| heap := h; slabs := <[k := sa]> (slabs st) |}.

Section Objects.
Context (first last base limit : Z).
Context (Hbase : KERNEL_HEAP_BASE <= base) (Hbasealign : page_aligned base) (Hlimit : limit < 2 ^ 32).
(** The sizes of the kernel's objects. *)
Context (size : Z -> Z) (Hsizes : forall k, 4 <= size k <= PAGE_SIZE /\ size k mod 4 = 0).

(** What the rest of the kernel does to memory: it leaves the heap's pages and their mapping. *)
Definition heap_untouched (m m' : vm_state) : Prop :=
  forall own frame top, heap_pages first last base limit own frame top m ->
  exists own', heap_pages first last base limit own' frame top m'
    /\ forall va, base <= va < top -> word frame m' va = word frame m va.

(** [live] maps the objects in use to their allocators, [buffers] the blocks of the heap that
    were not taken by an allocator to their sizes. *)
Inductive object_history : gmap Z Z -> gmap Z Z -> kernel_memory -> Prop :=
| used_start own frame st :
    heap_ok first last base limit own frame ∅ [] (heap st) -> (forall k, slabs st k = MAKE_SLAB (size k)) ->
    object_history ∅ ∅ st
| used_alloc live buffers st k o st' :
    object_history live buffers st -> wilderness_ptr (heap st) + 0x10000 <= limit ->
    alloc_object k st = Done (o, st') -> object_history (<[o := k]> live) buffers st'
| used_free live buffers st k o st' :
    object_history live buffers st -> live !! o = Some k -> free_object k o st = Done st' ->
    object_history (delete o live) buffers st'
| used_kmalloc live buffers st n b h :
    object_history live buffers st -> 0 < n -> page_aligned n ->
    wilderness_ptr (heap st) + Z.max 0x10000 (n * 2) <= limit ->
    kmalloc n (heap st) = Done (b, h) -> object_history live (<[b := n]> buffers) (st <| heap := h |>)
| used_object_store live buffers st k o va v h :
    object_history live buffers st -> live !! o = Some k -> o <= va < o + size k -> va mod 4 = 0 ->
    store_word va v (heap st) = Done h -> object_history live buffers (st <| heap := h |>)
| used_buffer_store live buffers st b n va v h :
    object_history live buffers st -> buffers !! b = Some n -> b <= va < b + n -> va mod 4 = 0 ->
    store_word va v (heap st) = Done h -> object_history live buffers (st <| heap := h |>)
| used_kernel live buffers st m :
    object_history live buffers st -> heap_untouched (hm (heap st)) m ->
    object_history live buffers (st <| heap ::= fun h => h <| hm := m |> |>).

(** [objects] are all that were ever carved, [frees] the free lists, [blocks] the slabs. *)
Record objects_ok (own : Z -> option owner) (frame : Z -> Z) (regions : gmap Z Z) (ranges : list Z)
    (objects : gmap Z Z) (frees : Z -> list Z) (blocks buffers : gmap Z Z)
    (st : kernel_memory) : Prop := {
  o_heap : heap_ok first last base limit own frame regions ranges (heap st);
  o_size : forall k, object_size (slabs st k) = size k /\ slab_size (slabs st k) = PAGE_SIZE;
  o_block : forall o k, objects !! o = Some k -> exists b, blocks !! b = Some k /\ b <= o /\ o + size k <= b + PAGE_SIZE
    /\ o mod 4 = 0;
  o_blocks : forall b k, blocks !! b = Some k -> live regions ranges b PAGE_SIZE /\ buffers !! b = None;
  o_buffers : forall b n, buffers !! b = Some n -> live regions ranges b n;
  o_apart : forall o k o' k', objects !! o = Some k -> objects !! o' = Some k' -> o <> o' -> apart o (size k) o' (size k');
  o_wilderness : forall k, wilderness_slab (slabs st k) <> 0 ->
    blocks !! wilderness_slab (slabs st k) = Some k
    /\ 0 <= wilderness_offset (slabs st k) <= PAGE_SIZE /\ wilderness_offset (slabs st k) mod 4 = 0
    /\ forall o k', objects !! o = Some k' -> wilderness_slab (slabs st k) <= o < wilderness_slab (slabs st k) + PAGE_SIZE ->
         o + size k' <= wilderness_slab (slabs st k) + wilderness_offset (slabs st k);
  o_chain : forall k, chain (word frame (hm (heap st))) (free_objects (slabs st k)) (frees k);
  o_nodup : forall k, NoDup (frees k);
  o_frees : forall k o, o ∈ frees k -> objects !! o = Some k
}.

Definition in_use (objects : gmap Z Z) (frees : Z -> list Z) (o k : Z) : Prop := objects !! o = Some k /\ o ∉ frees k.

Section Ok.
Context (own : Z -> option owner) (frame : Z -> Z) (regions : gmap Z Z) (ranges : list Z).
Context (objects : gmap Z Z) (frees : Z -> list Z) (blocks buffers : gmap Z Z) (st : kernel_memory).
Context (Hst : objects_ok own frame regions ranges objects frees blocks buffers st).

Lemma block_apart b k b' n :
  blocks !! b = Some k -> live regions ranges b' n -> b <> b' -> apart b PAGE_SIZE b' n.
Proof.
  intros Hb [Hb' _] Hne. destruct (o_blocks _ _ _ _ _ _ _ _ _ Hst b k Hb) as [[Hr _] _].
  by apply (h_apart _ _ _ _ _ _ _ _ _ (o_heap _ _ _ _ _ _ _ _ _ Hst) b PAGE_SIZE b' n).
Qed.

(** Objects do not meet buffers. *)
Lemma object_buffer_apart o k b n :
  objects !! o = Some k -> buffers !! b = Some n -> apart o (size k) b n.
Proof.
  intros Ho Hb. destruct (o_block _ _ _ _ _ _ _ _ _ Hst o k Ho) as (c & Hc & H1 & H2 & _).
  destruct (block_apart c k b n Hc (o_buffers _ _ _ _ _ _ _ _ _ Hst b n Hb)) as [H|H].
  - intros ->. destruct (o_blocks _ _ _ _ _ _ _ _ _ Hst b k Hc). congruence.
  - left. lia.
  - right. lia.
Qed.

(** The words of an object are words of an allocated block. *)
Lemma object_block o k va :
  objects !! o = Some k -> o <= va < o + size k -> exists b, live regions ranges b PAGE_SIZE /\ b <= va < b + PAGE_SIZE.
Proof.
  intros Ho Hva. destruct (o_block _ _ _ _ _ _ _ _ _ Hst o k Ho) as (b & Hb & ? & ? & _).
  exists b. split; [|lia]. by destruct (o_blocks _ _ _ _ _ _ _ _ _ Hst b k Hb).
Qed.

Lemma object_word o k : objects !! o = Some k ->
  exists b, live regions ranges b PAGE_SIZE /\ b <= o < b + PAGE_SIZE /\ o mod 4 = 0 /\ o <> 0.
Proof.
  intros Ho. destruct (Hsizes k) as [[? _] _]. destruct (object_block o k o Ho ltac:(lia)) as (b & Hb & Hr).
  destruct (o_block _ _ _ _ _ _ _ _ _ Hst o k Ho) as (_ & _ & _ & _ & H4).
  destruct (h_regions _ _ _ _ _ _ _ _ _ (o_heap _ _ _ _ _ _ _ _ _ Hst) b _ (proj1 Hb)) as (_ & _ & _ & ? & _).
  exists b. split; [done|]. split; [done|]. split; [done|]. unfold KERNEL_HEAP_BASE in *. lia.
Qed.

(** Another heap that keeps the allocated blocks and the links of the free objects. *)
Lemma objects_ok_heap own' frame' regions' ranges' h :
  heap_ok first last base limit own' frame' regions' ranges' h ->
  (forall a n, live regions ranges a n -> live regions' ranges' a n) ->
  (forall k o, o ∈ frees k -> word frame' (hm h) o = word frame (hm (heap st)) o) ->
  objects_ok own' frame' regions' ranges' objects frees blocks buffers (st <| heap := h |>).
Proof.
  intros Hh Hlive Hwords. constructor; try apply Hst.
  - done.
  - intros b k Hb. destruct (o_blocks _ _ _ _ _ _ _ _ _ Hst b k Hb). split; [by apply Hlive|done].
  - intros b n Hb. by apply Hlive, (o_buffers _ _ _ _ _ _ _ _ _ Hst).
  - intros k. apply (chain_frame (word frame (hm (heap st)))); [|apply (o_chain _ _ _ _ _ _ _ _ _ Hst)].
    intros o Ho. by apply (Hwords k).
Qed.

(** A block from the heap: nothing else changes, and no block or buffer is at its address. *)
Lemma kmalloc_objects n b frame' regions' ranges' h :
  allocated first last base limit own frame regions ranges (heap st) n b frame' regions' ranges' h ->
  objects_ok own frame' regions' ranges' objects frees blocks buffers (st <| heap := h |>)
  /\ blocks !! b = None /\ buffers !! b = None
  /\ forall o k va, objects !! o = Some k -> o <= va < o + size k ->
       word frame' (hm h) va = word frame (hm (heap st)) va.
Proof.
  intros Hal.
  assert (Hwords : forall o k va, objects !! o = Some k -> o <= va < o + size k ->
    word frame' (hm h) va = word frame (hm (heap st)) va).
  { intros o k va Ho Hva. destruct (object_block o k va Ho Hva) as (c & Hc & Hr).
    replace va with (c + (va - c)) by lia.
    apply (al_words _ _ _ _ _ _ _ _ _ _ _ _ _ _ _ Hal c PAGE_SIZE); [done|lia]. }
  split; [|split; [|split; [|done]]].
  - apply objects_ok_heap; [apply Hal|apply Hal|]. intros k o Ho. destruct (Hsizes k).
    apply (Hwords o k); [by apply (o_frees _ _ _ _ _ _ _ _ _ Hst)|lia].
  - destruct (blocks !! b) as [k|] eqn:E; [|done]. exfalso.
    by apply (al_fresh _ _ _ _ _ _ _ _ _ _ _ _ _ _ _ Hal PAGE_SIZE), (o_blocks _ _ _ _ _ _ _ _ _ Hst b k).
  - destruct (buffers !! b) as [k|] eqn:E; [|done]. exfalso.
    by apply (al_fresh _ _ _ _ _ _ _ _ _ _ _ _ _ _ _ Hal k), (o_buffers _ _ _ _ _ _ _ _ _ Hst b k).
Qed.

(** The next object of the wilderness. *)
Lemma carve_ok k slabs' :
  let sa := slabs st k in
  let o := wilderness_slab sa + wilderness_offset sa in
  wilderness_slab sa <> 0 -> wilderness_offset sa + size k <= PAGE_SIZE ->
  slabs' k = sa <| wilderness_offset := wilderness_offset sa + size k |> ->
  (forall j, j <> k -> slabs' j = slabs st j) ->
  objects !! o = None
  /\ objects_ok own frame regions ranges (<[o := k]> objects) frees blocks buffers {| heap := heap st; slabs := slabs' |}.
Proof.
  intros sa o Hws Hoff Hk Hothers.
  destruct (o_wilderness _ _ _ _ _ _ _ _ _ Hst k Hws) as (Hb & Ho & Ho4 & Hbelow).
  fold sa in Hb, Ho, Ho4, Hbelow, Hws. destruct (Hsizes k) as [Hk4 Hkm].
  destruct (o_blocks _ _ _ _ _ _ _ _ _ Hst _ _ Hb) as [Hl _].
  destruct (h_regions _ _ _ _ _ _ _ _ _ (o_heap _ _ _ _ _ _ _ _ _ Hst) _ _ (proj1 Hl)) as (Hal & _).
  assert (Hnew : forall o' k', objects !! o' = Some k' -> apart o (size k) o' (size k')).
  { intros o' k' Ho'. destruct (o_block _ _ _ _ _ _ _ _ _ Hst o' k' Ho') as (b' & Hb' & H1 & H2 & _).
    destruct (Hsizes k') as [? _]. destruct (decide (b' = wilderness_slab sa)) as [->|Hne].
    - right. apply (Hbelow o' k' Ho'). lia.
    - destruct (o_blocks _ _ _ _ _ _ _ _ _ Hst _ _ Hb') as [Hl' _].
      destruct (block_apart (wilderness_slab sa) k b' PAGE_SIZE Hb Hl' (not_eq_sym Hne)); [left|right]; unfold o; lia. }
  assert (Hslab : forall j, object_size (slabs' j) = object_size (slabs st j) /\ slab_size (slabs' j) = slab_size (slabs st j)
    /\ free_objects (slabs' j) = free_objects (slabs st j) /\ wilderness_slab (slabs' j) = wilderness_slab (slabs st j)).
  { intros j. destruct (decide (j = k)) as [->|Hne]; [by rewrite Hk|by rewrite Hothers]. }
  split.
  { destruct (objects !! o) as [k'|] eqn:E; [|done]. exfalso. destruct (Hsizes k'). destruct (Hnew o k' E); lia. }
  constructor; simpl.
  - apply Hst.
  - intros j. destruct (Hslab j) as (-> & -> & _). apply (o_size _ _ _ _ _ _ _ _ _ Hst).
  - intros o' k' [[<- <-]|[_ Ho']]%lookup_insert_Some; [|by apply (o_block _ _ _ _ _ _ _ _ _ Hst)].
    exists (wilderness_slab sa). split; [done|]. unfold o. split; [lia|]. split; [lia|].
    unfold page_aligned, PAGE_SIZE in Hal. Z.div_mod_to_equations. lia.
  - apply Hst.
  - apply Hst.
  - intros o1 k1 o2 k2 [[<- <-]|[Hn1 H1]]%lookup_insert_Some [[<- <-]|[Hn2 H2]]%lookup_insert_Some Hne; [done| | |].
    + by apply Hnew.
    + destruct (Hnew o1 k1 H1); [by right|by left].
    + by apply (o_apart _ _ _ _ _ _ _ _ _ Hst).
  - intros j Hj. destruct (Hslab j) as (_ & _ & _ & Hwsj). rewrite Hwsj in Hj |- *.
    destruct (o_wilderness _ _ _ _ _ _ _ _ _ Hst j Hj) as (Hbj & Hoj & Ho4j & Hbelowj).
    destruct (decide (j = k)) as [->|Hne].
    + rewrite Hk. simpl. fold sa. split; [done|]. split; [lia|]. split; [Z.div_mod_to_equations; lia|].
      intros o' k' [[<- <-]|[_ Ho']]%lookup_insert_Some Hr; [unfold o; lia|]. specialize (Hbelow o' k' Ho' Hr). lia.
    + rewrite (Hothers j Hne). split; [done|]. split; [done|]. split; [done|].
      intros o' k' [[<- <-]|[_ Ho']]%lookup_insert_Some Hr; [|by apply Hbelowj].
      exfalso. assert (wilderness_slab (slabs st j) <> wilderness_slab sa) as Hd by (intros E; rewrite E in Hbj; congruence).
      destruct (block_apart _ j _ PAGE_SIZE Hbj Hl Hd); unfold o in Hr; lia.
  - intros j. destruct (Hslab j) as (_ & _ & -> & _). apply (o_chain _ _ _ _ _ _ _ _ _ Hst).
  - apply Hst.
  - intros j o' Ho'. rewrite lookup_insert_ne; [by apply (o_frees _ _ _ _ _ _ _ _ _ Hst)|].
    intros <-. apply (o_frees _ _ _ _ _ _ _ _ _ Hst) in Ho'. destruct (Hsizes j). destruct (Hnew o j Ho'); lia.
Qed.

(** Changing the free list of one allocator. *)
Lemma relist_ok k link l slabs' :
  slabs' k = slabs st k <| free_objects := link |> -> (forall j, j <> k -> slabs' j = slabs st j) ->
  chain (word frame (hm (heap st))) link l -> NoDup l -> (forall o, o ∈ l -> objects !! o = Some k) ->
  objects_ok own frame regions ranges objects (<[k := l]> frees) blocks buffers {| heap := heap st; slabs := slabs' |}.
Proof.
  intros Hk Hothers Hchain Hnd Hl.
  assert (Hslab : forall j, object_size (slabs' j) = object_size (slabs st j) /\ slab_size (slabs' j) = slab_size (slabs st j)
    /\ wilderness_slab (slabs' j) = wilderness_slab (slabs st j) /\ wilderness_offset (slabs' j) = wilderness_offset (slabs st j)).
  { intros j. destruct (decide (j = k)) as [->|Hne]; [by rewrite Hk|by rewrite Hothers]. }
  constructor; simpl; try apply Hst.
  - intros j. destruct (Hslab j) as (-> & -> & _). apply (o_size _ _ _ _ _ _ _ _ _ Hst).
  - intros j Hj. destruct (Hslab j) as (_ & _ & Hw & Ho). rewrite Hw in Hj |- *. rewrite Ho. by apply (o_wilderness _ _ _ _ _ _ _ _ _ Hst).
  - intros j. destruct (decide (j = k)) as [->|Hne].
    + by rewrite fn_lookup_insert, Hk.
    + rewrite fn_lookup_insert_ne, Hothers by done. apply (o_chain _ _ _ _ _ _ _ _ _ Hst).
  - intros j. destruct (decide (j = k)) as [->|Hne]; [by rewrite fn_lookup_insert|].
    rewrite fn_lookup_insert_ne by done. apply Hst.
  - intros j o. destruct (decide (j = k)) as [->|Hne]; [rewrite fn_lookup_insert; apply Hl|].
    rewrite fn_lookup_insert_ne by done. apply Hst.
Qed.

(** A new slab for an allocator. *)
Lemma new_slab_ok k b slabs' :
  live regions ranges b PAGE_SIZE -> blocks !! b = None -> buffers !! b = None ->
  slabs' k = slabs st k <| wilderness_slab := b |> <| wilderness_offset := 0 |> ->
  (forall j, j <> k -> slabs' j = slabs st j) ->
  objects_ok own frame regions ranges objects frees (<[b := k]> blocks) buffers {| heap := heap st; slabs := slabs' |}.
Proof.
  intros Hl Hb Hbuf Hk Hothers.
  assert (Hslab : forall j, object_size (slabs' j) = object_size (slabs st j) /\ slab_size (slabs' j) = slab_size (slabs st j)
    /\ free_objects (slabs' j) = free_objects (slabs st j)).
  { intros j. destruct (decide (j = k)) as [->|Hne]; [by rewrite Hk|by rewrite Hothers]. }
  assert (Hold : forall c j, blocks !! c = Some j -> <[b := k]> blocks !! c = Some j).
  { intros c j Hc. rewrite lookup_insert_ne; [done|congruence]. }
  constructor; simpl; try apply Hst.
  - intros j. destruct (Hslab j) as (-> & -> & _). apply (o_size _ _ _ _ _ _ _ _ _ Hst).
  - intros o j Ho. destruct (o_block _ _ _ _ _ _ _ _ _ Hst o j Ho) as (c & Hc & H1). exists c. split; [by apply Hold|done].
  - intros c j [[<- <-]|[_ Hc]]%lookup_insert_Some; [done|]. by apply (o_blocks _ _ _ _ _ _ _ _ _ Hst c j).
  - intros j. destruct (decide (j = k)) as [->|Hne].
    + rewrite Hk. simpl. intros _. rewrite lookup_insert_eq. split; [done|]. split; [unfold PAGE_SIZE; lia|]. split; [done|].
      intros o k' Ho Hr. exfalso. destruct (Hsizes k') as [? _].
      destruct (o_block _ _ _ _ _ _ _ _ _ Hst o k' Ho) as (c & Hc & H1 & H2 & _).
      destruct (block_apart c k' b PAGE_SIZE Hc Hl ltac:(congruence)); lia.
    + rewrite (Hothers j Hne). intros Hj. destruct (o_wilderness _ _ _ _ _ _ _ _ _ Hst j Hj) as (H1 & H2).
      split; [by apply Hold|done].
  - intros j. destruct (Hslab j) as (_ & _ & ->). apply (o_chain _ _ _ _ _ _ _ _ _ Hst).
Qed.

Lemma object_load o k va :
  objects !! o = Some k -> o <= va < o + size k -> va mod 4 = 0 ->
  base <= va < wilderness_ptr (heap st) /\ load_word va (heap st) = Done (word frame (hm (heap st)) va).
Proof.
  intros Ho Hva H4. destruct (object_block o k va Ho Hva) as (b & Hb & Hr).
  destruct (live_word first last base limit Hbase _ _ _ _ _ b PAGE_SIZE va (o_heap _ _ _ _ _ _ _ _ _ Hst) Hb Hr H4) as [[? _] Hload].
  done.
Qed.

Lemma objects_ok_slabs slabs' :
  (forall j, slabs' j = slabs st j) ->
  objects_ok own frame regions ranges objects frees blocks buffers {| heap := heap st; slabs := slabs' |}.
Proof.
  intros Hsame. constructor; simpl; try apply Hst; intros j; rewrite Hsame; apply Hst.
Qed.
End Ok.

(** ** Allocating and freeing objects *)

Section Ops.
Context (own : Z -> option owner) (frame : Z -> Z) (regions : gmap Z Z) (ranges : list Z).
Context (objects : gmap Z Z) (frees : Z -> list Z) (blocks buffers : gmap Z Z) (st : kernel_memory).
Context (Hst : objects_ok own frame regions ranges objects frees blocks buffers st).


Lemma pop_object_ok k o l :
  frees k = o :: l ->
  exists st', alloc_object k st = Done (o, st') /\ heap st' = heap st
    /\ objects_ok own frame regions ranges objects (<[k := l]> frees) blocks buffers st'.
Proof.
  intros Hk. pose proof (o_chain _ _ _ _ _ _ _ _ _ Hst k) as Hc. rewrite Hk in Hc. destruct Hc as [Hlink Hc].
  pose proof (o_nodup _ _ _ _ _ _ _ _ _ Hst k) as Hnd. rewrite Hk in Hnd. apply NoDup_cons in Hnd as [_ Hnd].
  assert (Hl : forall o', o' ∈ o :: l -> objects !! o' = Some k).
  { intros o' Ho'. apply (o_frees _ _ _ _ _ _ _ _ _ Hst). by rewrite Hk. }
  destruct (object_word _ _ _ _ _ _ _ _ _ Hst o k (Hl o ltac:(by left))) as (b & Hb & Hr & H4 & H0).
  destruct (live_word first last base limit Hbase _ _ _ _ _ b PAGE_SIZE o (o_heap _ _ _ _ _ _ _ _ _ Hst) Hb Hr H4) as [_ Hload].
  unfold alloc_object, slab_alloc. rewrite Hlink, (proj2 (Z.eqb_neq o 0) H0). cbn [negb]. rewrite Hload. cbn [bind_result].
  eexists. split; [done|]. split; [done|].
  apply (relist_ok _ _ _ _ _ _ _ _ _ Hst k (word frame (hm (heap st)) o)); [by rewrite fn_lookup_insert| |done|done|].
  - intros j Hj. by apply fn_lookup_insert_ne.
  - intros o' Ho'. apply Hl. by right.
Qed.

(** The heap and the slab an object is carved from when none is free. *)
Lemma refill_ok k :
  wilderness_ptr (heap st) + 0x10000 <= limit ->
  (exists sa h frame' regions' ranges' blocks',
     refill_slab (slabs st k) (heap st) = Done (sa, h)
     /\ objects_ok own frame' regions' ranges' objects frees blocks' buffers {| heap := h; slabs := <[k := sa]> (slabs st) |}
     /\ wilderness_slab sa <> 0 /\ wilderness_offset sa + size k <= PAGE_SIZE
     /\ (forall b n va, live regions ranges b n -> b <= va < b + n -> word frame' (hm h) va = word frame (hm (heap st)) va))
  \/ refill_slab (slabs st k) (heap st) = Fault HostExit
     /\ Z.of_nat (length (free_page_list (frames (hm (heap st))))) * PAGE_SIZE < 0x10000.
Proof.
  intros Hroom. destruct (o_size _ _ _ _ _ _ _ _ _ Hst k) as [Hos Hss]. destruct (Hsizes k) as [Hk _].
  unfold refill_slab. rewrite Hos, Hss.
  destruct ((wilderness_slab (slabs st k) =? 0) || (PAGE_SIZE <? u32 (wilderness_offset (slabs st k) + size k))) eqn:E.
  - destruct (kmalloc_ok first last base limit Hbase Hlimit own frame regions ranges (heap st)
      (o_heap _ _ _ _ _ _ _ _ _ Hst) PAGE_SIZE ltac:(done) ltac:(done) Hroom)
      as [(b & h & frame' & regions' & ranges' & -> & Hal)|[-> Hfree]]; [left|by right].
    destruct (kmalloc_objects _ _ _ _ _ _ _ _ _ Hst _ _ _ _ _ _ Hal) as (Hok & Hb & Hbuf & _).
    cbn [bind_result]. eexists _, h, frame', regions', ranges', (<[b := k]> blocks). split; [done|]. split; [|split; [|split]].
    + apply (new_slab_ok _ _ _ _ _ _ _ _ (st <| heap := h |>) Hok k b); [apply Hal|done|done|by rewrite fn_lookup_insert|].
      intros j Hj. by apply fn_lookup_insert_ne.
    + simpl. destruct (al_new _ _ _ _ _ _ _ _ _ _ _ _ _ _ _ Hal) as [Hr _].
      destruct (h_regions _ _ _ _ _ _ _ _ _ (al_ok _ _ _ _ _ _ _ _ _ _ _ _ _ _ _ Hal) _ _ Hr) as (_ & _ & _ & ? & _).
      unfold KERNEL_HEAP_BASE in *. lia.
    + simpl. lia.
    + intros c n va Hc Hva. replace va with (c + (va - c)) by lia.
      apply (al_words _ _ _ _ _ _ _ _ _ _ _ _ _ _ _ Hal c n); [done|lia].
  - left. apply orb_false_elim in E as [Hws Hoff]. bool_to_prop.
    destruct (o_wilderness _ _ _ _ _ _ _ _ _ Hst k Hws) as (_ & Hr & _).
    rewrite u32_small in Hoff by (unfold PAGE_SIZE in *; lia).
    exists (slabs st k), (heap st), frame, regions, ranges, blocks. split; [done|]. split; [|done].
    apply (objects_ok_slabs _ _ _ _ _ _ _ _ _ Hst). intros j.
    destruct (decide (j = k)) as [->|Hne]; [apply fn_lookup_insert|by apply fn_lookup_insert_ne].
Qed.

(** What an allocation gives: an object that is not in use, everything else as it was. *)
Record object_given (k o : Z) (st' : kernel_memory) : Prop := {
  given_ok : exists own frame' regions' ranges' objects' frees' blocks',
    objects_ok own frame' regions' ranges' objects' frees' blocks' buffers st'
    /\ (forall o' j, in_use objects' frees' o' j <-> in_use objects frees o' j \/ o' = o /\ j = k)
    /\ (forall b n va, live regions ranges b n -> b <= va < b + n -> word frame' (hm (heap st')) va = word frame (hm (heap st)) va);
  given_fresh : forall j, ~ in_use objects frees o j
}.

Lemma alloc_object_ok k :
  wilderness_ptr (heap st) + 0x10000 <= limit ->
  (exists o st', alloc_object k st = Done (o, st') /\ object_given k o st')
  \/ alloc_object k st = Fault HostExit
     /\ Z.of_nat (length (free_page_list (frames (hm (heap st))))) * PAGE_SIZE < 0x10000.
Proof.
  intros Hroom. destruct (frees k) as [|o l] eqn:Hk.
  - pose proof (o_chain _ _ _ _ _ _ _ _ _ Hst k) as Hc. rewrite Hk in Hc. simpl in Hc.
    unfold alloc_object, slab_alloc. rewrite Hc. cbn [negb Z.eqb].
    destruct (refill_ok k Hroom) as [(sa & h & frame' & regions' & ranges' & blocks' & -> & Hok & Hws & Hoff & Hwords)|[-> Hfree]];
      [left|by right].
    cbn [bind_result]. set (st1 := {| heap := h; slabs := <[k := sa]> (slabs st) |}) in *.
    assert (Hsa : slabs st1 k = sa) by apply fn_lookup_insert.
    pose proof (o_wilderness _ _ _ _ _ _ _ _ _ Hok k) as Hw. rewrite Hsa in Hw. specialize (Hw Hws). destruct Hw as (Hb & Hr & _).
    destruct (o_size _ _ _ _ _ _ _ _ _ Hok k) as [Hsize _]. rewrite Hsa in Hsize.
    destruct (o_blocks _ _ _ _ _ _ _ _ _ Hok _ _ Hb) as [[Hreg _] _].
    destruct (h_regions _ _ _ _ _ _ _ _ _ (o_heap _ _ _ _ _ _ _ _ _ Hok) _ _ Hreg) as (_ & _ & _ & Hlo & Hhi).
    pose proof (hp_top _ _ _ _ _ _ _ _ (h_pages _ _ _ _ _ _ _ _ _ (o_heap _ _ _ _ _ _ _ _ _ Hok))) as Htop.
    destruct (Hsizes k) as [Hk4 _].
    rewrite u32_small by (unfold KERNEL_HEAP_BASE, PAGE_SIZE in *; lia).
    set (sa' := sa <| wilderness_offset ::= _ |>).
    destruct (carve_ok _ _ _ _ _ _ _ _ st1 Hok k (<[k := sa']> (slabs st))) as [Hnone Hok'].
    + by rewrite Hsa.
    + by rewrite Hsa.
    + rewrite Hsa, fn_lookup_insert. change sa' with (sa <| wilderness_offset := u32 (wilderness_offset sa + object_size sa) |>).
      by rewrite Hsize, u32_small by (unfold PAGE_SIZE in *; lia).
    + intros j Hj. simpl. by rewrite !fn_lookup_insert_ne by done.
    + rewrite Hsa in Hnone, Hok'. set (o := wilderness_slab sa + wilderness_offset sa) in *.
      assert (Hnofree : forall j, o ∉ frees j).
      { intros j Hj. apply (o_frees _ _ _ _ _ _ _ _ _ Hst) in Hj. congruence. }
      exists o. eexists. split; [done|]. split; [|intros j [Ho _]; congruence].
      do 7 eexists. split; [exact Hok'|]. split; [|exact Hwords].
      intros o' j. unfold in_use. destruct (decide (o' = o)) as [->|Hne].
      * rewrite lookup_insert_eq. split; [intros [[= <-] _]; by right|]. intros [[? _]|[_ ->]]; [congruence|]. split; [done|apply Hnofree].
      * rewrite lookup_insert_ne by done. tauto.
  - left. destruct (pop_object_ok k o l Hk) as (st' & Hrun & Hheap & Hok). exists o, st'. split; [done|].
    pose proof (o_nodup _ _ _ _ _ _ _ _ _ Hst k) as Hnd. rewrite Hk in Hnd. apply NoDup_cons in Hnd as [Hnot _].
    assert (Ho : objects !! o = Some k) by (apply (o_frees _ _ _ _ _ _ _ _ _ Hst); rewrite Hk; by left).
    split.
    + do 7 eexists. split; [exact Hok|]. split; [|by rewrite Hheap].
      intros o' j. unfold in_use. destruct (decide (j = k)) as [->|Hne].
      * rewrite fn_lookup_insert, Hk, not_elem_of_cons. destruct (decide (o' = o)) as [->|]; [|tauto]. split; [by right|]. done.
      * rewrite fn_lookup_insert_ne by done. split; [tauto|]. intros [?|[_ ?]]; done.
    + intros j [Hj Hfree]. assert (j = k) as -> by congruence. apply Hfree. rewrite Hk. by left.
Qed.

(** An object is distinct from the free ones in every word. *)
Lemma in_use_word o k va j o' :
  in_use objects frees o k -> o <= va < o + size k -> o' ∈ frees j -> o' <> va.
Proof.
  intros [Ho Hnot] Hva Ho'. pose proof (o_frees _ _ _ _ _ _ _ _ _ Hst j o' Ho') as Hobj.
  assert (Hne : o <> o') by (intros <-; assert (j = k) as -> by congruence; done).
  destruct (Hsizes j) as [? _]. destruct (o_apart _ _ _ _ _ _ _ _ _ Hst o k o' j Ho Hobj Hne); lia.
Qed.

(** A store to memory in use. *)
Lemma store_in_use b n va v :
  live regions ranges b n -> b <= va < b + n -> va mod 4 = 0 -> (forall j o', o' ∈ frees j -> o' <> va) ->
  exists h, store_word va v (heap st) = Done h
    /\ objects_ok own frame regions ranges objects frees blocks buffers (st <| heap := h |>)
    /\ wilderness_ptr h = wilderness_ptr (heap st)
    /\ forall va', base <= va' < wilderness_ptr (heap st) ->
         word frame (hm h) va' = if decide (va' = va) then v else word frame (hm (heap st)) va'.
Proof.
  intros Hl Hva H4 Hfree.
  destruct (live_store_ok first last base limit Hbase Hlimit own frame regions ranges (heap st) b n va v
    (o_heap _ _ _ _ _ _ _ _ _ Hst) Hl Hva H4) as (m & Hrun & Hok & Hwords).
  eexists. split; [exact Hrun|]. split; [|by split].
  apply (objects_ok_heap _ _ _ _ _ _ _ _ _ Hst _ _ _ _ _ Hok); [done|]. intros j o' Ho'. simpl.
  destruct (object_word _ _ _ _ _ _ _ _ _ Hst o' j (o_frees _ _ _ _ _ _ _ _ _ Hst j o' Ho')) as (c & [Hc _] & Hr & _).
  destruct (h_regions _ _ _ _ _ _ _ _ _ (o_heap _ _ _ _ _ _ _ _ _ Hst) c _ Hc) as (_ & _ & _ & ? & ?).
  rewrite Hwords by lia. rewrite decide_False; [done|]. by apply (Hfree j).
Qed.

Lemma object_store_ok o k va v :
  in_use objects frees o k -> o <= va < o + size k -> va mod 4 = 0 ->
  exists h, store_word va v (heap st) = Done h
    /\ objects_ok own frame regions ranges objects frees blocks buffers (st <| heap := h |>)
    /\ wilderness_ptr h = wilderness_ptr (heap st)
    /\ forall va', base <= va' < wilderness_ptr (heap st) ->
         word frame (hm h) va' = if decide (va' = va) then v else word frame (hm (heap st)) va'.
Proof.
  intros Ho Hva H4. destruct (object_block _ _ _ _ _ _ _ _ _ Hst o k va (proj1 Ho) Hva) as (b & Hb & Hr).
  apply (store_in_use b PAGE_SIZE); [done|done|done|]. intros j o' Ho'. by apply (in_use_word o k va j).
Qed.

Lemma free_object_ok o k :
  in_use objects frees o k ->
  exists st', free_object k o st = Done st'
    /\ objects_ok own frame regions ranges objects (<[k := o :: frees k]> frees) blocks buffers st'
    /\ forall o' j, in_use objects (<[k := o :: frees k]> frees) o' j <-> in_use objects frees o' j /\ o' <> o.
Proof.
  intros Ho. destruct (Hsizes k) as [Hk4 _].
  destruct (object_word _ _ _ _ _ _ _ _ _ Hst o k (proj1 Ho)) as (b & Hb & Hr & H4 & H0).
  destruct (object_store_ok o k o (free_objects (slabs st k)) Ho ltac:(lia) H4) as (h & Hrun & Hok & Hw & Hwords).
  unfold free_object, slab_free. rewrite Hrun. cbn [bind_result]. eexists. split; [done|]. split.
  - apply (relist_ok _ _ _ _ _ _ _ _ _ Hok k o); simpl.
    + by rewrite fn_lookup_insert.
    + intros j Hj. by apply fn_lookup_insert_ne.
    + split; [done|]. unfold range_next.
      destruct (h_regions _ _ _ _ _ _ _ _ _ (o_heap _ _ _ _ _ _ _ _ _ Hst) b _ (proj1 Hb)) as (_ & _ & _ & ? & ?).
      rewrite Hwords by lia. rewrite decide_True by done. apply (o_chain _ _ _ _ _ _ _ _ _ Hok).
    + apply NoDup_cons. split; [apply Ho|apply Hst].
    + intros o' [->|Ho']%elem_of_cons; [apply Ho|]. by apply (o_frees _ _ _ _ _ _ _ _ _ Hst).
  - intros o' j. unfold in_use. destruct (decide (j = k)) as [->|Hne].
    + rewrite fn_lookup_insert, not_elem_of_cons. tauto.
    + rewrite fn_lookup_insert_ne by done. split; [|tauto]. intros [Hj ?]. split; [done|].
      intros ->. apply Hne. destruct Ho. congruence.
Qed.
End Ops.

(** ** Histories *)

Definition object_inv (live_objects buffers : gmap Z Z) (st : kernel_memory) : Prop :=
  exists own frame regions ranges objects frees blocks,
    objects_ok own frame regions ranges objects frees blocks buffers st
    /\ forall o k, live_objects !! o = Some k <-> in_use objects frees o k.

Lemma buffer_inv own frame regions ranges objects frees blocks buffers st n b h frame' regions' ranges' :
  objects_ok own frame regions ranges objects frees blocks buffers st ->
  allocated first last base limit own frame regions ranges (heap st) n b frame' regions' ranges' h ->
  objects_ok own frame' regions' ranges' objects frees blocks (<[b := n]> buffers) (st <| heap := h |>).
Proof.
  intros Hst Hal. destruct (kmalloc_objects _ _ _ _ _ _ _ _ _ Hst _ _ _ _ _ _ Hal) as (Hok & Hblock & Hbuf & _).
  constructor; try apply Hok.
  - intros c k Hc. destruct (o_blocks _ _ _ _ _ _ _ _ _ Hok c k Hc) as [Hl Hn]. split; [done|].
    rewrite lookup_insert_ne; [done|congruence].
  - intros c k [[<- <-]|[_ Hc]]%lookup_insert_Some; [apply Hal|]. by apply (o_buffers _ _ _ _ _ _ _ _ _ Hok).
Qed.

Lemma buffer_word own frame regions ranges objects frees blocks buffers st b n va j o :
  objects_ok own frame regions ranges objects frees blocks buffers st ->
  buffers !! b = Some n -> b <= va < b + n -> o ∈ frees j -> o <> va.
Proof.
  intros Hst Hb Hva Ho. apply (o_frees _ _ _ _ _ _ _ _ _ Hst) in Ho.
  destruct (Hsizes j). destruct (object_buffer_apart _ _ _ _ _ _ _ _ _ Hst o j b n Ho Hb); lia.
Qed.

Lemma object_history_inv live_objects buffers st :
  object_history live_objects buffers st -> object_inv live_objects buffers st.
Proof.
  induction 1 as [own frame st Hheap Hslabs|lo bufs st k o st' _ IH Hroom Hrun|lo bufs st k o st' _ IH Ho Hrun
    |lo bufs st n b h _ IH Hn Hal Hroom Hrun|lo bufs st k o va v h _ IH Ho Hva H4 Hrun
    |lo bufs st b n va v h _ IH Hb Hva H4 Hrun|lo bufs st m _ IH Hm];
    try destruct IH as (own & frame & regions & ranges & objects & frees & blocks & Hst & Hlive).
  - exists own, frame, ∅, [], ∅, (fun _ => []), ∅. split.
    + constructor; try done; intros k; rewrite ?Hslabs; try done; [apply NoDup_nil_2|by intros o ?%elem_of_nil].
    + intros o k. unfold in_use. by rewrite !lookup_empty; split; [|intros []].
  - destruct (alloc_object_ok _ _ _ _ _ _ _ _ _ Hst k Hroom) as [(o' & st'' & Hrun' & [Hok Hfresh])|[Hrun' _]];
      rewrite Hrun in Hrun'; [injection Hrun' as <- <-|done].
    destruct Hok as (own' & frame' & regions' & ranges' & objects' & frees' & blocks' & Hok & Huse & _).
    exists own', frame', regions', ranges', objects', frees', blocks'. split; [done|].
    intros o' j. rewrite Huse, <- Hlive. destruct (decide (o' = o)) as [->|Hne].
    + rewrite lookup_insert_eq. split; [intros [= ->]; by right|].
      intros [Hj|[_ ->]]; [|done]. exfalso. by apply (Hfresh j), Hlive.
    + rewrite lookup_insert_ne by done. tauto.
  - destruct (free_object_ok _ _ _ _ _ _ _ _ _ Hst o k (proj1 (Hlive o k) Ho)) as (st'' & Hrun' & Hok & Huse).
    rewrite Hrun in Hrun'. injection Hrun' as <-. do 7 eexists. split; [exact Hok|].
    intros o' j. rewrite Huse, <- Hlive, lookup_delete_Some. split; intros [? ?]; split; congruence.
  - destruct (kmalloc_ok first last base limit Hbase Hlimit own frame regions ranges (heap st)
      (o_heap _ _ _ _ _ _ _ _ _ Hst) n Hn Hal Hroom) as [(b' & h' & frame' & regions' & ranges' & Hrun' & Hall)|[Hrun' _]];
      rewrite Hrun in Hrun'; [injection Hrun' as <- <-|done].
    do 7 eexists. split; [by apply (buffer_inv _ _ _ _ _ _ _ _ _ _ _ _ _ _ _ Hst Hall)|done].
  - destruct (object_store_ok _ _ _ _ _ _ _ _ _ Hst o k va v (proj1 (Hlive o k) Ho) Hva H4) as (h' & Hrun' & Hok & _).
    rewrite Hrun in Hrun'. injection Hrun' as <-. do 7 eexists. split; [exact Hok|done].
  - destruct (store_in_use _ _ _ _ _ _ _ _ _ Hst b n va v (o_buffers _ _ _ _ _ _ _ _ _ Hst b n Hb) Hva H4) as (h' & Hrun' & Hok & _).
    { intros j o' Ho'. by apply (buffer_word _ _ _ _ _ _ _ _ _ b n va j o' Hst). }
    rewrite Hrun in Hrun'. injection Hrun' as <-. do 7 eexists. split; [exact Hok|done].
  - pose proof (o_heap _ _ _ _ _ _ _ _ _ Hst) as Hheap.
    destruct (Hm own frame _ (h_pages _ _ _ _ _ _ _ _ _ Hheap)) as (own' & Hp & Hwords).
    assert (Hok : heap_ok first last base limit own' frame regions ranges (heap st <| hm := m |>)).
    { apply (heap_ok_memory first last base limit own); [done|done|]. intros a n i _ Ha Hi.
      destruct (h_regions _ _ _ _ _ _ _ _ _ Hheap a n Ha) as (_ & _ & _ & ? & ?). apply Hwords. lia. }
    exists own', frame, regions, ranges, objects, frees, blocks. split; [|done].
    apply (objects_ok_heap _ _ _ _ _ _ _ _ _ Hst _ _ _ _ (heap st <| hm := m |>) Hok); [done|].
    intros j o Ho. apply Hwords.
    destruct (object_word _ _ _ _ _ _ _ _ _ Hst o j (o_frees _ _ _ _ _ _ _ _ _ Hst j o Ho)) as (c & [Hc _] & Hr & _).
    destruct (h_regions _ _ _ _ _ _ _ _ _ Hheap c _ Hc) as (_ & _ & _ & ? & ?). lia.
Qed.
End Objects.

(** ** The rest of the kernel *)

(** Allocating a page leaves the heap alone. *)
Lemma get_page_untouched first last base limit m page m' :
  KERNEL_HEAP_BASE <= base -> limit < 2 ^ 32 ->
  get_page m = Done (page, m') -> heap_untouched first last base limit m m'.
Proof.
  intros Hbase Hlimit Hget own frame top Hp. pose proof (hp_tables _ _ _ _ _ _ _ _ Hp) as Hok.
  destruct (get_page_ok first last own m page m' Hok Hget) as (Hok' & Hnone & Hrange & _ & [f ->] & Hrefs & Hzero).
  destruct (tables_memory _ _ _ _ Hok) as [Hfirst _].
  assert (Hframe : forall va, base <= va < top -> frame (va / PAGE_SIZE) <> page).
  { intros va Hva Heq. destruct (hp_frame _ _ _ _ _ _ _ _ Hp va Hva) as (_ & _ & Hpos).
    pose proof (get_page_free first last own m page _ Hok Hget). rewrite Heq in Hpos. lia. }
  assert (Howned : forall p o slot, own p = Some o -> 0 <= slot < 1024 ->
    memory_of (m <| frames := f |>) (p * PAGE_SIZE + slot * 4) = memory_of m (p * PAGE_SIZE + slot * 4)).
  { intros p o slot Hown Hs. rewrite Hzero, decide_False; [done|]. rewrite word_in_page by done. congruence. }
  exists own. split; [constructor; try apply Hp; [done| | |]|].
  - intros va Hva HK. specialize (hp_present _ _ _ _ _ _ _ _ Hp va Hva HK).
    destruct (tables_dir _ _ _ _ Hok Kernel _ eq_refl) as (kd & Hkd & Hkown). simpl in Hkd |- *.
    destruct (index_range va ltac:(unfold KERNEL_HEAP_BASE in *; lia)) as [Hr1 _].
    by rewrite Hkd, (Howned kd _ _ Hkown Hr1).
  - intros va Hva. rewrite <- (hp_walk _ _ _ _ _ _ _ _ Hp va Hva).
    apply (walk_same first last own m Kernel); [done|done| |].
    + apply in_kernel. pose proof (hp_top _ _ _ _ _ _ _ _ Hp). unfold KERNEL_BASE, KERNEL_HEAP_BASE in *. lia.
    + intros p o slot Hown Hs _. by apply (Howned p o).
  - intros va Hva. destruct (hp_frame _ _ _ _ _ _ _ _ Hp va Hva) as (H1 & H2 & H3). split; [done|]. split; [done|].
    rewrite Hrefs, decide_False by (lia || by apply Hframe). done.
  - intros va Hva. unfold word. rewrite Hzero, decide_False; [done|].
    pose proof (frame_pa_page frame va) as H1. intros H2. apply (Hframe va Hva).
    unfold in_page, PAGE_SIZE in *. lia.
Qed.

(** The kernel's directory while a user address is mapped. *)
Lemma map_user_directory first last own m map va pa m' i :
  tables_ok first last own m -> 0 <= va < KERNEL_BASE -> vm_map_page map va pa m = Done m' -> 0 <= i < 1024 ->
  kernel_map m' = kernel_map m
  /\ memory_of m' (page_dir (kernel_map m) + i * 4) = memory_of m (page_dir (kernel_map m) + i * 4).
Proof.
  intros Hok Hva Hmap Hi. destruct (map_page_mapped first last own m map va pa m' Hok
    ltac:(unfold KERNEL_BASE in *; lia) ltac:(intros ?; lia) Hmap) as [_ [_ (_ & Hk & _) _]].
  split; [done|]. clear Hk.
  unfold vm_map_page, get_map in Hmap. rewrite (proj2 (Z.leb_gt _ _)) in Hmap by lia.
  destruct (maps m !! map) as [um|] eqn:Hm; [|done]. cbn [bind_result] in Hmap.
  assert (Hdir : directory_of (User map) m = Some (page_dir um)) by (simpl; by rewrite Hm).
  destruct (tables_dir _ _ _ _ Hok _ _ Hdir) as (ud & Hud & Hudown).
  destruct (tables_dir _ _ _ _ Hok Kernel _ eq_refl) as (kd & Hkd & Hkown).
  destruct (index_range va ltac:(unfold KERNEL_BASE in *; lia)) as [Hr1 Hr2].
  apply bind_Done_inv in Hmap as (m1 & Htable & [= <-]). rewrite Hkd.
  assert (Hin : in_space (User map) va) by by apply in_user.
  destruct (_ =? 0) eqn:E; bool_to_prop.
  - apply bind_Done_inv in Htable as ([page m2] & Hget & [= <-]).
    destruct (get_page_ok first last own m page m2 Hok Hget) as (_ & Hnone & Hrange & Hpa & [f ->] & _ & Hzero).
    assert (Hne : page <> kd) by congruence.
    destruct (tables_memory _ _ _ _ Hok) as [Hfirst _].
    destruct (ok_range _ _ _ (tables_pages _ _ _ _ Hok)) as (_ & _ & Hmax).
    unfold set_table_entry. cbv zeta. rewrite (memory_write (page_dir um + _)), decide_True by done.
    rewrite Hpa, entry_value, entry_page by (unfold PAGE_SIZE in *; lia).
    change (memory_of (?a <| invalidated ::= ?g |>)) with (memory_of a).
    rewrite !memory_write, Hud, !decide_False.
    + rewrite Hzero, decide_False; [done|]. rewrite word_in_page by done. done.
    + rewrite word_eq by done. intros [-> _]. congruence.
    + rewrite word_eq by done. intros [? _]. done.
  - injection Htable as <-.
    destruct (present_table _ _ _ _ (User map) _ va Hok Hdir Hin E) as (pt & Hpt & _ & Halign).
    unfold set_table_entry. cbv zeta. rewrite Halign.
    change (memory_of (?a <| invalidated ::= ?g |>)) with (memory_of a).
    rewrite memory_write, decide_False; [done|]. rewrite word_eq by done. intros [-> _]. congruence.
Qed.

(** Mapping a user address leaves the heap alone. *)
Lemma map_user_untouched first last base limit m map va pa m' :
  KERNEL_HEAP_BASE <= base -> limit < 2 ^ 32 -> 0 <= va < KERNEL_BASE ->
  vm_map_page map va pa m = Done m' -> heap_untouched first last base limit m m'.
Proof.
  intros Hbase Hlimit Hva Hmap own frame top Hp. pose proof (hp_tables _ _ _ _ _ _ _ _ Hp) as Hok.
  destruct (map_page_mapped first last own m map va pa m' Hok ltac:(unfold KERNEL_BASE in *; lia) ltac:(intros ?; lia) Hmap)
    as [_ [(own' & Hok' & Hext & Hothers & Hpages) (_ & Hk & _) Hwalk]].
  assert (Hframe : forall v, base <= v < top -> own' (frame (v / PAGE_SIZE)) = None
    /\ 0 < refs (frame (v / PAGE_SIZE)) (frames m')).
  { intros v Hv. destruct (hp_frame _ _ _ _ _ _ _ _ Hp v Hv) as (Hr & Hn & Hpos).
    destruct (tables_memory _ _ _ _ Hok) as [Hfirst _].
    destruct Hpages as [[-> Heq]|(page & v' & o & Hget & Heq & ->)]; unfold refs in *; rewrite Heq; [done|].
    assert (Hne : frame (v / PAGE_SIZE) <> page).
    { intros Hf. pose proof (get_page_free first last own m page v' Hok Hget). unfold refs in *. rewrite Hf in Hpos. lia. }
    rewrite fn_lookup_insert_ne by congruence. split; [done|].
    destruct (get_page_ok first last own m page v' Hok Hget) as (_ & _ & _ & _ & _ & Hrefs & _). unfold refs in Hrefs.
    rewrite Hrefs, decide_False by (done || lia). done. }
  exists own'. split; [constructor; try apply Hp; [done| | |]|].
  - intros v Hv HK. specialize (hp_present _ _ _ _ _ _ _ _ Hp v Hv HK).
    destruct (index_range v ltac:(unfold KERNEL_HEAP_BASE in *; lia)) as [Hr1 _].
    destruct (map_user_directory first last own m map va pa m' _ Hok Hva Hmap Hr1) as [-> Hword]. by rewrite Hword.
  - intros v Hv. rewrite <- (hp_walk _ _ _ _ _ _ _ _ Hp v Hv), Hk.
    rewrite (Hwalk Kernel _ v eq_refl).
    + rewrite decide_False; [done|]. unfold space_of. rewrite (proj2 (Z.leb_gt _ _)) by lia. by intros [? _].
    + apply in_kernel. pose proof (hp_top _ _ _ _ _ _ _ _ Hp). unfold KERNEL_BASE, KERNEL_HEAP_BASE in *. lia.
  - intros v Hv. destruct (hp_frame _ _ _ _ _ _ _ _ Hp v Hv) as (Hr & _). split; [done|]. by apply Hframe.
  - intros v Hv. unfold word. apply (Hothers (frame (v / PAGE_SIZE))); [apply frame_pa_page|by apply Hframe].
Qed.

(** ** Properties *)

(** C19: kernel objects do not overlap.  After any sequence of allocations and frees by all the
    slab allocators, direct allocations from the heap, stores of the owners to their objects and
    buffers, and page allocations and mappings by the rest of the kernel: objects and buffers
    in use are pairwise apart; their owners can store to every word of them, which changes no
    other; an object in use can be freed; and an allocation gives an object that was not in
    use and changes no object that is, unless fewer than the sixteen pages the heap grows by
    are free, and then it stops the kernel.  The heap grows only through page tables that exist
    ([limit]), and its users ask for whole pages. *)
Theorem objects_separate first last base limit size live_objects buffers st :
  KERNEL_HEAP_BASE <= base -> limit < 2 ^ 32 ->
  (forall k, 4 <= size k <= PAGE_SIZE /\ size k mod 4 = 0) ->
  object_history first last base limit size live_objects buffers st ->
  (forall o k o' k', live_objects !! o = Some k -> live_objects !! o' = Some k' -> o <> o' ->
     apart o (size k) o' (size k')) /\
  (forall b n, buffers !! b = Some n ->
     (forall o k, live_objects !! o = Some k -> apart o (size k) b n) /\
     (forall b' n', buffers !! b' = Some n' -> b <> b' -> apart b n b' n')) /\
  (forall o k va v, live_objects !! o = Some k -> o <= va < o + size k -> va mod 4 = 0 ->
     exists h, store_word va v (heap st) = Done h /\ load_word va h = Done v /\
       forall o' k' va', live_objects !! o' = Some k' -> o' <= va' < o' + size k' -> va' mod 4 = 0 -> va' <> va ->
         load_word va' h = load_word va' (heap st)) /\
  (forall o k, live_objects !! o = Some k -> exists st', free_object k o st = Done st') /\
  (forall k, wilderness_ptr (heap st) + 0x10000 <= limit ->
     (exists o st', alloc_object k st = Done (o, st') /\ live_objects !! o = None /\
        forall o' k' va, live_objects !! o' = Some k' -> o' <= va < o' + size k' -> va mod 4 = 0 ->
          load_word va (heap st') = load_word va (heap st)) \/
     alloc_object k st = Fault HostExit
     /\ Z.of_nat (length (free_page_list (frames (hm (heap st))))) < 16).
Proof.
  intros Hbase Hlimit Hsizes Hhist.
  destruct (object_history_inv first last base limit Hbase Hlimit size Hsizes _ _ _ Hhist)
    as (own & frame & regions & ranges & objects & frees & blocks & Hst & Hlive).
  pose proof (o_heap _ _ _ _ _ _ _ _ _ _ _ _ _ _ Hst) as Hheap.
  assert (Hobj : forall o k, live_objects !! o = Some k -> objects !! o = Some k) by (intros o k Ho; by apply Hlive).
  split; [|split; [|split; [|split]]].
  - intros o k o' k' Ho Ho'. by apply (o_apart _ _ _ _ _ _ _ _ _ _ _ _ _ _ Hst); apply Hobj.
  - intros b n Hb. split.
    + intros o k Ho. apply (object_buffer_apart _ _ _ _ _ _ _ _ _ _ _ _ _ _ Hst); [by apply Hobj|done].
    + intros b' n' Hb' Hne. pose proof (o_buffers _ _ _ _ _ _ _ _ _ _ _ _ _ _ Hst) as Hbuf.
      by apply (h_apart _ _ _ _ _ _ _ _ _ Hheap); [apply Hbuf|apply Hbuf|].
  - intros o k va v Ho Hva H4.
    destruct (object_store_ok first last base limit Hbase Hlimit size Hsizes _ _ _ _ _ _ _ _ _ Hst o k va v
      (proj1 (Hlive o k) Ho) Hva H4) as (h & Hrun & Hok & _ & Hwords).
    assert (Hload : forall o' k' va', live_objects !! o' = Some k' -> o' <= va' < o' + size k' -> va' mod 4 = 0 ->
      load_word va' h = Done (if decide (va' = va) then v else word frame (hm (heap st)) va')
      /\ load_word va' (heap st) = Done (word frame (hm (heap st)) va')).
    { intros o' k' va' Ho' Hva' H4'.
      destruct (object_load first last base limit Hbase size _ _ _ _ _ _ _ _ _ Hok o' k' va' (Hobj _ _ Ho') Hva' H4') as [_ Hh].
      simpl in Hh. rewrite Hh.
      destruct (object_load first last base limit Hbase size _ _ _ _ _ _ _ _ _ Hst o' k' va' (Hobj _ _ Ho') Hva' H4') as [Hr ->].
      by rewrite Hwords. }
    exists h. split; [done|]. split.
    + destruct (Hload o k va Ho Hva H4) as [-> _]. by rewrite decide_True.
    + intros o' k' va' Ho' Hva' H4' Hne. destruct (Hload o' k' va' Ho' Hva' H4') as [-> ->]. by rewrite decide_False.
  - intros o k Ho. destruct (free_object_ok first last base limit Hbase Hlimit size Hsizes _ _ _ _ _ _ _ _ _ Hst o k)
      as (st' & Hrun & _); [by apply Hlive|]. by exists st'.
  - intros k Hroom.
    destruct (alloc_object_ok first last base limit Hbase Hlimit size Hsizes _ _ _ _ _ _ _ _ _ Hst k Hroom)
      as [(o & st' & Hrun & [(own' & frame' & regions' & ranges' & objects' & frees' & blocks' & Hst' & Huse & Hwords) Hfresh])|[Hrun Hfree]];
      [left|right; split; [done|unfold PAGE_SIZE in Hfree; lia]].
    exists o, st'. split; [done|]. split.
    + destruct (live_objects !! o) as [j|] eqn:E; [|done]. exfalso. by apply (Hfresh j), Hlive.
    + intros o' k' va Ho' Hva H4.
      destruct (object_load first last base limit Hbase size _ _ _ _ _ _ _ _ _ Hst o' k' va (Hobj _ _ Ho') Hva H4) as [_ ->].
      destruct (object_load first last base limit Hbase size _ _ _ _ _ _ _ _ _ Hst' o' k' va) as [_ ->]; [|done|done|].
      { apply Huse. left. by apply Hlive. }
      f_equal. destruct (object_block _ _ _ _ _ _ _ _ _ _ _ _ _ _ Hst o' k' va (Hobj _ _ Ho') Hva) as (b & Hb & Hr).
      by apply (Hwords b PAGE_SIZE).
Qed.

(** Two allocators on the example heap: objects of 36 and 64 bytes. *)
Definition sample_size (k : Z) : Z := if k =? 1 then 36 else 64.

Lemma sample_sizes_ok k : 4 <= sample_size k <= PAGE_SIZE /\ sample_size k mod 4 = 0.
Proof. unfold sample_size, PAGE_SIZE. by destruct (k =? 1). Qed.

Definition sample_memory : kernel_memory := {| heap := heap_boot; slabs := fun k => MAKE_SLAB (sample_size k) |}.

Definition sample_alloc (k : Z) (st : kernel_memory) : Z * kernel_memory := result_or (0, st) (alloc_object k st).

Definition sample_first : Z * kernel_memory := sample_alloc 1 sample_memory.
Definition sample_second : Z * kernel_memory := sample_alloc 2 sample_first.2.
Definition sample_freed : kernel_memory := result_or sample_memory (free_object 1 sample_first.1 sample_second.2).

Lemma objects_separate_witness :
  object_history 3 63 KERNEL_HEAP_BASE (KERNEL_HEAP_BASE + 0x400000) sample_size
    (<[sample_second.1 := 2]> (<[sample_first.1 := 1]> ∅)) ∅ sample_second.2
  /\ (sample_first.1, sample_second.1) = (KERNEL_HEAP_BASE, KERNEL_HEAP_BASE + 0x1000)
  /\ apart sample_first.1 36 sample_second.1 64
  /\ (sample_alloc 1 sample_freed).1 = sample_first.1.
Proof.
  assert (Hh : object_history 3 63 KERNEL_HEAP_BASE (KERNEL_HEAP_BASE + 0x400000) sample_size
    (<[sample_second.1 := 2]> (<[sample_first.1 := 1]> ∅)) ∅ sample_second.2).
  { apply (used_alloc _ _ _ _ _ _ _ sample_first.2).
    - apply (used_alloc _ _ _ _ _ _ _ sample_memory).
      + apply (used_start _ _ _ _ _ heap_own (fun _ => 0)); [exact heap_boot_ok|done].
      + vm_compute. discriminate.
      + unfold sample_first, sample_alloc. rewrite <- surjective_pairing. apply ends_result. vm_compute. reflexivity.
    - vm_compute. discriminate.
    - unfold sample_second, sample_alloc. rewrite <- surjective_pairing. apply ends_result. vm_compute. reflexivity. }
  assert (Haddr : (sample_first.1, sample_second.1) = (KERNEL_HEAP_BASE, KERNEL_HEAP_BASE + 0x1000)) by (vm_compute; reflexivity).
  split; [exact Hh|]. split; [exact Haddr|]. split; [|vm_compute; reflexivity].
  pose proof (proj1 (objects_separate 3 63 KERNEL_HEAP_BASE (KERNEL_HEAP_BASE + 0x400000) sample_size _ _ _
    (Z.le_refl _) eq_refl sample_sizes_ok Hh)) as Hapart.
  pose proof (f_equal fst Haddr) as H1. pose proof (f_equal snd Haddr) as H2. cbn [fst snd] in H1, H2.
  apply (Hapart sample_first.1 1 sample_second.1 2); rewrite H1, H2.
  - rewrite lookup_insert_ne by done. by rewrite lookup_insert_eq.
  - by rewrite lookup_insert_eq.
  - done.
Defined.
