(* ===== verification/Process.v ===== *)
(** * Process: threads and processes come and go (software/kernel/thread.c, main.c)

    The scheduler's part of thread.c is Sched; this file has the structures, what creates and
    destroys them, and the calls into the address spaces (VmSpace) and the loader
    (KernelLoader).  The structures a slab allocator gives are arguments (Slab shows that they
    are distinct).

    [list_add_tail(&process_list, proc)] links the structure by its first words, but the first
    word of [struct process] is [ref_count]; [list_entry] comes second.  So the reference count
    and the [prev] link of a process are one word, and the model keeps it once: in the heap of
    list nodes (KernelList).  The list of a process's threads goes through [process_entry], a
    node of its own, and is the sequence it stands for. *)

From S2P Require Export KernelList Sched KernelLoader KernelHeap.
From stdpp Require Import list gmap functions.
Import stdpp.list_relations.list.

#[local] Open Scope Z_scope.

(** ** Data *)

(** What the scheduler does not have of [struct thread]. *)
Record thread := {
  thread_name : list Z;
  thread_id : Z;
  kernel_stack_top : Z;
  current_stack : Z;
  kernel_stack_area : vm_area;
  user_stack_area : option vm_area;
  thread_proc : Z;
  start_func : Z;
  thread_param : Z
}.

(** [struct process] but [ref_count], which is the word at its address; [None] is the
    kernel's address space. *)
Record process := { process_id : Z; thread_list : list Z; proc_space : option Z }.

#[export]
Instance process_fields : Fields process := fun p => Build_process (process_id p) (thread_list p) (proc_space p).

(** [process_nodes] holds [process_list], by its address, and the first two words of every process. *)
Record kernel_state := {
  address_spaces : space_state;
  scheduler : sched;
  threads : gmap Z thread;
  processes : gmap Z process;
  process_nodes : gmap Z list_node;
  next_thread_id : Z;
  next_process_id : Z;
  kernel_proc : Z
}.

#[export]
Instance kernel_state_fields : Fields kernel_state := fun k =>
  Build_kernel_state (address_spaces k) (scheduler k) (threads k) (processes k) (process_nodes k)
    (next_thread_id k) (next_process_id k) (kernel_proc k).

Definition get_thread (th : Z) (k : kernel_state) : result thread :=
  match threads k !! th with Some t => Done t | None => Fault OutOfBounds end.

Definition get_process (p : Z) (k : kernel_state) : result process :=
  match processes k !! p with Some x => Done x | None => Fault OutOfBounds end.

Definition update_process (p : Z) (f : process -> process) (k : kernel_state) : kernel_state :=
  k <| processes ::= alter f p |>.

(** What the scheduler reads of a thread. *)
Definition scheduling_info (k : kernel_state) (th : Z) : Sched.thread_fields :=
  match threads k !! th with
  | None => {| Sched.kernel_stack_ptr := 0; Sched.translation_map := 0 |}
  | Some t =>
      {| Sched.kernel_stack_ptr := kernel_stack_top t;
         Sched.translation_map :=
           match processes k !! thread_proc t with
           | None => 0
           | Some p =>
               match get_space (proc_space p) (address_spaces k) with
               | Done a => VmSpace.translation_map a
               | Fault _ => 0
               end
           end |}
  end.

(** The first word of a process. *)
Definition ref_count (p : Z) (k : kernel_state) : result Z := get_prev p (process_nodes k).

Section Threads.

Context (open_file : list Z -> option Z) (read_file : Z -> Z -> Z -> option (list Z)).
(** Addresses the linker gives: the list head and the functions a new thread starts in. *)
Context (process_list_head user_thread_kernel_start kernel_thread_kernel_start new_process_start : Z).

(** ** Creating *)

Definition CONTEXT_FRAME_SIZE : Z := 0x840.
Definition RA_OFFSET : Z := 0x818.

(** What the allocators give for a thread: [name_bytes] is what its name field holds. *)
Record thread_objects := {
  thread_object : Z;
  name_bytes : list Z;
  kernel_area_object : vm_area;
  kernel_cache_object : Z;
  kernel_cache_file : Z;
  user_area_object : vm_area;
  user_cache_object : Z;
  user_cache_file : Z
}.

Definition kernel_stack_name : list Z := map Z.of_nat [107; 101; 114; 110; 101; 108; 32; 115; 116; 97; 99; 107]%nat.
Definition user_stack_name : list Z := map Z.of_nat [117; 115; 101; 114; 32; 115; 116; 97; 99; 107]%nat.

(** A store of the kernel through its page tables. *)
Definition store_kernel (va v : Z) : space_state -> result space_state :=
  on_vm (fun m => pa <-- kernel_pa va m;; Done (write_phys pa v m)).

(** [&th->process_entry] at the tail of the list of [proc], then [th] at the tail of the ready queue. *)
Definition enqueue_thread (th : Z) (t : thread) (k : kernel_state) : kernel_state :=
  update_process (thread_proc t) (fun p => p <| thread_list ::= fun l => l ++ [th] |>) k
    <| threads ::= <[th := t]> |> <| scheduler ::= enqueue_new_thread th |>.

Definition create_user_stack (o : thread_objects) (p : process) (kernel_only : bool) (s : space_state)
    : result (option vm_area * space_state) :=
  if kernel_only then Done (None, s)
  else create_area read_file (proc_space p) (user_area_object o) (user_cache_object o) (user_cache_file o)
         0xffffffff 0x10000 PLACE_SEARCH_DOWN user_stack_name AREA_WRITABLE 0 0 s.

Definition spawn_thread_internal (o : thread_objects) (name : list Z) (proc init_func start param : Z)
    (kernel_only : bool) (k : kernel_state) : result (Z * kernel_state) :=
  copied <-- strlcpy (name_bytes o) name 32;;
  '(area, s) <-- create_area read_file None (kernel_area_object o) (kernel_cache_object o) (kernel_cache_file o)
                   0xffffffff KERNEL_STACK_SIZE PLACE_SEARCH_DOWN kernel_stack_name
                   (Z.lor AREA_WIRED AREA_WRITABLE) 0 0 (address_spaces k);;
  match area with
  | None => Fault OutOfBounds
  | Some area =>
      let top := u32 (high_address area + 1) in
      let stack := u32 (top - CONTEXT_FRAME_SIZE) in
      s <-- store_kernel (u32 (stack + RA_OFFSET)) init_func s;;
      p <-- get_process proc k;;
      '(user, s) <-- create_user_stack o p kernel_only s;;
      let t := {| thread_name := copied; thread_id := next_thread_id k; kernel_stack_top := top;
                  current_stack := stack; kernel_stack_area := area; user_stack_area := user;
                  thread_proc := proc; start_func := start; thread_param := param |} in
      Done (thread_object o,
            enqueue_thread (thread_object o) t
              (k <| address_spaces := s |> <| next_thread_id ::= fun id => u32 (id + 1) |>))
  end.

Definition spawn_user_thread (o : thread_objects) (name : list Z) (proc start_address : Z) : kernel_state -> result (Z * kernel_state) :=
  spawn_thread_internal o name proc user_thread_kernel_start start_address 0 false.

Definition spawn_kernel_thread (o : thread_objects) (name : list Z) (start param : Z) (k : kernel_state)
    : result (Z * kernel_state) :=
  spawn_thread_internal o name (kernel_proc k) kernel_thread_kernel_start start param true k.

(** A list operation on the processes. *)
Definition on_process_nodes {A} (f : gmap Z list_node -> result (A * gmap Z list_node)) (k : kernel_state) : result kernel_state :=
  '(_, h) <-- f (process_nodes k);; Done (k <| process_nodes := h |>).

(** Until [list_add_tail], as in the code; the other fields are set before it too. *)
Definition add_process (p id : Z) (space : option Z) (k : kernel_state) : result kernel_state :=
  on_process_nodes (__list_add_tail process_list_head p)
    (k <| processes ::= <[p := {| process_id := id; thread_list := []; proc_space := space |}]> |>).

(** [kernel_proc->ref_count] is not set: it is what the memory holds, [old]. *)
Definition bool_init_kernel_process (p : Z) (old : list_node) (k : kernel_state) : result kernel_state :=
  '(_, h) <-- list_init process_list_head (process_nodes k);;
  k <-- add_process p 0 None (k <| process_nodes := <[p := old]> h |>);;
  Done (k <| kernel_proc := p |> <| next_process_id := 1 |>
          <| scheduler ::= fun q => q <| ready_q := [] |> <| dead_q := [] |> |>).

Record process_objects := {
  process_object : Z;
  process_words : list_node;
  space_object : Z;
  map_object : Z;
  program_objects : loader_objects;
  first_thread : thread_objects
}.

Definition user_thread_name : list Z := map Z.of_nat [117; 115; 101; 114; 95; 116; 104; 114; 101; 97; 100]%nat.

(** The process, before its program is looked at. *)
Definition begin_program (o : process_objects) (k : kernel_state) : result kernel_state :=
  let p := process_object o in
  let id := next_process_id k in
  s <-- create_address_space (space_object o) (map_object o) (address_spaces k);;
  h <-- set_prev p 2 (<[p := process_words o]> (process_nodes k));;
  add_process p id (Some (space_object o))
    (k <| address_spaces := s |> <| process_nodes := h |> <| next_process_id := u32 (id + 1) |>).

(** [None] is the null pointer; the process stays in the list then. *)
Definition finish_program (o : process_objects) (filename : list Z) (k : kernel_state) : result (option Z * kernel_state) :=
  '(entry_point, s) <-- load_program open_file read_file (space_object o) filename (program_objects o) (address_spaces k);;
  let k := k <| address_spaces := s |> in
  match entry_point with
  | None => Done (None, k)
  | Some entry_point =>
      '(_, k) <-- spawn_thread_internal (first_thread o) user_thread_name (process_object o) new_process_start entry_point 0 false k;;
      Done (Some (process_object o), k)
  end.

Definition exec_program (o : process_objects) (filename : list Z) (k : kernel_state) : result (option Z * kernel_state) :=
  k <-- begin_program o k;; finish_program o filename k.

(** ** Destroying *)

(** [destroy_area] of an area that is in the list of [listed]: [list_remove_node] finds the
    list by itself, the page tables are those of [sp]. *)
Definition destroy_listed_area (listed sp : option Z) (area : vm_area) (s : space_state) : result space_state :=
  a <-- get_space sp s;;
  s <-- on_caches (release_pages (area_pages area) (VmSpace.translation_map a) (low_address area) (high_address area)) s;;
  b <-- get_space listed s;;
  let s := set_area_map listed (destroy_vm_area (area_ptr area) (area_map b)) s in
  if VmAreaMap.cache area =? 0 then Done s else on_caches (dec_cache_ref (VmAreaMap.cache area)) s.

(** The process of the thread that runs. *)
Definition current_process (hwthread : nat) (k : kernel_state) : result Z :=
  th <-- Sched.current_thread hwthread (scheduler k);;
  t <-- get_thread th k;;
  Done (thread_proc t).

Definition destroy_process (p : Z) (k : kernel_state) : result kernel_state :=
  x <-- get_process p k;;
  _ <-- kassert (bool_decide (thread_list x = []));;
  k <-- on_process_nodes (__list_remove_node p) k;;
  match proc_space x with
  | None => Fault OutOfBounds
  | Some space =>
      s <-- destroy_address_space space (address_spaces k);;
      Done (k <| address_spaces := s |> <| processes ::= delete p |>)
  end.

Definition dec_proc_ref (hwthread : nat) (p : Z) (k : kernel_state) : result kernel_state :=
  current <-- current_process hwthread k;;
  _ <-- kassert (bool_decide (current <> p));;
  count <-- ref_count p k;;
  let count := u32 (count - 1) in
  h <-- set_prev p count (process_nodes k);;
  let k := k <| process_nodes := h |> in
  if count =? 0 then destroy_process p k else Done k.

Definition destroy_user_stack (t : thread) (p : process) (s : space_state) : result space_state :=
  match user_stack_area t with
  | None => Done s
  | Some area => destroy_area (proc_space p) area s
  end.

(** The whole of [destroy_thread]; its assertions are [Sched.destroy_thread]. *)
Definition destroy_thread_structure (hwthread : nat) (th : Z) (k : kernel_state) : result kernel_state :=
  t <-- get_thread th k;;
  _ <-- Sched.destroy_thread hwthread th (scheduler k);;
  p <-- get_process (thread_proc t) k;;
  let k := update_process (thread_proc t) (fun p => p <| thread_list ::= base.filter (fun x => x <> th) |>) k in
  s <-- destroy_user_stack t p (address_spaces k);;
  s <-- destroy_listed_area None (proc_space p) (kernel_stack_area t) s;;
  dec_proc_ref hwthread (thread_proc t) (k <| address_spaces := s |> <| threads ::= delete th |>).

(** One turn of [grim_reaper]. *)
Definition grim_reaper_turn (hwthread : nat) (k : kernel_state) : result kernel_state :=
  let '(dead, q) := grim_reaper_take (scheduler k) in
  let k := k <| scheduler := q |> in
  match dead with
  | None => q <-- reschedule (scheduling_info k) hwthread q;; Done (k <| scheduler := q |>)
  | Some th => destroy_thread_structure hwthread th k
  end.

(** ** Running *)

Definition on_scheduler (f : sched -> result sched) (k : kernel_state) : result kernel_state :=
  q <-- f (scheduler k);; Done (k <| scheduler := q |>).

Definition kernel_reschedule (hwthread : nat) (k : kernel_state) : result kernel_state :=
  on_scheduler (reschedule (scheduling_info k) hwthread) k.

(** [thread_exit] does not return: the next thread goes on. *)
Definition thread_exit (hwthread : nat) (k : kernel_state) : result kernel_state :=
  k <-- on_scheduler (thread_exit_enqueue hwthread) k;;
  on_scheduler (thread_exit_finish (scheduling_info k) hwthread) k.

(** Where [user_thread_kernel_start] and [new_process_start] jump to, and with which stack. *)
Definition start_user_mode (th : Z) (k : kernel_state) : result (Z * Z) :=
  t <-- get_thread th k;;
  match user_stack_area t with
  | None => Fault OutOfBounds
  | Some area => Done (start_func t, u32 (high_address area + 1))
  end.

Definition idle_thread_name : list Z := map Z.of_nat [105; 100; 108; 101; 95; 116; 104; 114; 101; 97; 100]%nat.

(** A thread structure for a hardware thread that is already running: the fields of [t], what the
    memory held, stay but for the name, identifier and process. *)
Definition boot_init_thread (hwthread : nat) (th : Z) (t : thread) (k : kernel_state) : result kernel_state :=
  copied <-- strlcpy (thread_name t) idle_thread_name 32;;
  let t := {| thread_name := copied; thread_id := next_thread_id k; kernel_stack_top := kernel_stack_top t;
              current_stack := current_stack t; kernel_stack_area := kernel_stack_area t;
              user_stack_area := user_stack_area t; thread_proc := kernel_proc k;
              start_func := start_func t; thread_param := thread_param t |} in
  _ <-- Sched.current_thread hwthread (scheduler k);;
  Done (update_process (kernel_proc k) (fun p => p <| thread_list ::= fun l => l ++ [th] |>) k
          <| threads ::= <[th := t]> |> <| next_thread_id ::= fun id => u32 (id + 1) |>
          <| scheduler ::= fun q => set_state th THREAD_RUNNING q <| cur_thread ::= <[hwthread := th]> |> |>).

(** The test of the idle loop in [kernel_main]. *)
Definition init_exited (init_proc : Z) (k : kernel_state) : result bool :=
  p <-- get_process init_proc k;; Done (bool_decide (thread_list p = [])).

End Threads.

(** ** The reference count of a process *)

Lemma get_prev_Done p h c : get_prev p h = Done c <-> exists n, h !! p = Some n /\ prev n = c.
Proof.
  unfold get_prev, get_node. destruct (h !! p) as [n|]; simpl; split.
  - intros [= <-]. by exists n.
  - by intros (n' & [= <-] & <-).
  - done.
  - by intros (n & ? & _).
Qed.

Lemma set_prev_Done p v h h' : set_prev p v h = Done h' ->
  is_Some (h !! p) /\ forall q, get_prev q h' = if decide (q = p) then Done v else get_prev q h.
Proof.
  unfold set_prev, get_prev, get_node. destruct (h !! p) as [n|] eqn:E; [|done]. intros [= <-].
  split; [by eexists|]. intros q. destruct (decide (q = p)) as [->|Hne].
  - by rewrite lookup_insert_eq.
  - by rewrite lookup_insert_ne.
Qed.

Lemma set_next_Done p v h h' : set_next p v h = Done h' -> forall q, get_prev q h' = get_prev q h.
Proof.
  unfold set_next, get_prev, get_node. destruct (h !! p) as [n|] eqn:E; [|done]. intros [= <-] q.
  destruct (decide (q = p)) as [->|Hne]; [rewrite lookup_insert_eq, E; done|by rewrite lookup_insert_ne].
Qed.

(** Adding at the tail overwrites the first word of the node with the old last node. *)
Lemma add_tail_prevs list node h r h' :
  __list_add_tail list node h = Done (r, h') -> node <> list -> get_prev list h <> Done node ->
  exists l, get_prev list h = Done l
    /\ forall q, get_prev q h' = if decide (q = list) then Done node else if decide (q = node) then Done l else get_prev q h.
Proof.
  intros Hrun Hne Hnot. unfold __list_add_tail, link_neighbours in Hrun.
  apply bind_Done_inv in Hrun as (l & Hl & Hrun). apply bind_Done_inv in Hrun as (h1 & H1 & Hrun).
  apply bind_Done_inv in Hrun as (h2 & H2 & Hrun). apply bind_Done_inv in Hrun as (h5 & Hlink & [= _ <-]).
  apply bind_Done_inv in Hlink as (p & Hp & Hlink). apply bind_Done_inv in Hlink as (h3 & H3 & Hlink).
  apply bind_Done_inv in Hlink as (n & Hn & H4).
  destruct (set_prev_Done _ _ _ _ H1) as [_ E1]. pose proof (set_next_Done _ _ _ _ H2) as E2.
  pose proof (set_next_Done _ _ _ _ H3) as E3. destruct (set_prev_Done _ _ _ _ H4) as [_ E4].
  assert (n = list) as ->.
  { rewrite E2, E1, decide_True in Hp by done. injection Hp as <-.
    unfold set_next, get_node in H2, H3. destruct (h1 !! node) as [m|] eqn:Em; [|done]. injection H2 as <-.
    destruct (<[node:=m <| next := list |>]> h1 !! l) as [m'|] eqn:Em'; [|done]. injection H3 as <-.
    unfold get_next, get_node in Hn. destruct (decide (l = node)) as [->|Hl'].
    - congruence.
    - rewrite lookup_insert_ne in Hn by done. rewrite lookup_insert_eq in Hn. by injection Hn as <-. }
  exists l. split; [done|]. intros q. rewrite E4. destruct (decide (q = list)); [done|].
  rewrite E3, E2, E1. done.
Qed.

Section Counting.

Context (open_file : list Z -> option Z) (read_file : Z -> Z -> Z -> option (list Z)).
Context (process_list_head new_process_start : Z) (Hhead : KERNEL_BASE <= process_list_head < 2 ^ 32).

(** What the kernel does to its processes; scheduling, memory and thread structures, which do
    not touch their first words, are [process_other].  [n] counts the references given back, [created] are
    the processes there ever were. *)
Inductive process_history : Z -> list Z -> kernel_state -> Prop :=
| process_boot p old k k' :
    processes k = ∅ -> KERNEL_BASE <= p < 2 ^ 32 -> p <> process_list_head ->
    bool_init_kernel_process process_list_head p old k = Done k' -> process_history 0 [p] k'
| process_exec n created k o filename r k' :
    process_history n created k ->
    KERNEL_BASE <= process_object o < 2 ^ 32 -> process_object o <> process_list_head -> processes k !! process_object o = None ->
    exec_program open_file read_file process_list_head new_process_start o filename k = Done (r, k') ->
    process_history n (process_object o :: created) k'
| process_spawn n created k o name proc init_func start param kernel_only r k' :
    process_history n created k ->
    spawn_thread_internal read_file o name proc init_func start param kernel_only k = Done (r, k') ->
    process_history n created k'
| process_drop n created k hwthread p k' :
    process_history n created k -> p ∈ created -> dec_proc_ref hwthread p k = Done k' -> process_history (n + 1) created k'
| process_reap n created k hwthread k' :
    process_history n created k -> grim_reaper_turn hwthread k = Done k' -> process_history (n + 1) created k'
| process_other n created k k' :
    process_history n created k -> process_nodes k' = process_nodes k ->
    (forall p, is_Some (processes k' !! p) <-> is_Some (processes k !! p)) -> process_history n created k'.

Record counts_ok (n : Z) (created : list Z) (k : kernel_state) : Prop := {
  counts_range : 0 <= n;
  counts_created : forall p, p ∈ created <-> is_Some (processes k !! p);
  counts_last : exists l, get_prev process_list_head (process_nodes k) = Done l
    /\ (l = process_list_head \/ l ∈ created);
  counts_word : forall p, p ∈ created ->
    p <> process_list_head /\ KERNEL_BASE <= p < 2 ^ 32
    /\ exists c, ref_count p k = Done c /\ KERNEL_BASE - n <= c < 2 ^ 32
}.

Lemma same_nodes_counts n created k k' :
  counts_ok n created k -> process_nodes k' = process_nodes k ->
  (forall p, is_Some (processes k' !! p) <-> is_Some (processes k !! p)) -> counts_ok n created k'.
Proof.
  intros [H1 H2 H3 H4] Hn Hp. constructor; [done| |by rewrite Hn|].
  - intros p. by rewrite H2, Hp.
  - intros p Hin. unfold ref_count. rewrite Hn. by apply H4.
Qed.

(** A new process. *)
Lemma add_process_counts n created k p id space k' :
  counts_ok n created k -> KERNEL_BASE <= p < 2 ^ 32 -> p <> process_list_head -> p ∉ created ->
  add_process process_list_head p id space k = Done k' -> counts_ok n (p :: created) k'.
Proof.
  intros [H1 H2 (l & Hl & Hin) H4] Hp Hne Hnot Hadd. unfold add_process, on_process_nodes in Hadd.
  apply bind_Done_inv in Hadd as ([r h] & Hrun & [= <-]).
  assert (Hlr : KERNEL_BASE <= l < 2 ^ 32 /\ l <> p).
  { destruct Hin as [->|Hin]; [split; [done|congruence]|]. destruct (H4 l Hin) as (_ & ? & _). split; [done|congruence]. }
  destruct (add_tail_prevs _ _ _ _ _ Hrun Hne) as (l' & Hl' & Hprev).
  { simpl. rewrite Hl. intros [= ->]. by apply (proj2 Hlr). }
  simpl in Hl'. assert (l' = l) as -> by congruence. constructor; simpl.
  - done.
  - intros q. rewrite elem_of_cons, H2. destruct (decide (q = p)) as [->|Hq].
    + rewrite lookup_insert_eq. split; [by eexists|by left].
    + rewrite lookup_insert_ne by done. tauto.
  - exists p. rewrite Hprev, decide_True by done. split; [done|right; by left].
  - intros q Hq. unfold ref_count. simpl. rewrite Hprev. apply elem_of_cons in Hq as [->|Hq].
    + split; [done|]. split; [done|]. rewrite decide_False, decide_True by done. exists l. split; [done|lia].
    + destruct (H4 q Hq) as (Hq1 & Hq2 & c & Hc & Hr). split; [done|]. split; [done|].
      rewrite decide_False, decide_False by congruence. by exists c.
Qed.

(** A reference given back. *)
Lemma dec_proc_ref_counts n created k hwthread p k' :
  counts_ok n created k -> n + 1 < KERNEL_BASE ->
  dec_proc_ref hwthread p k = Done k' -> is_Some (processes k !! p) ->
  counts_ok (n + 1) created k' /\ processes k' = processes k.
Proof.
  intros [H1 H2 (l & Hl & Hin) H4] Hn Hrun Hp. apply H2 in Hp. destruct (H4 p Hp) as (Hp1 & Hp2 & c & Hc & Hr).
  unfold dec_proc_ref in Hrun. apply bind_Done_inv in Hrun as (cur & _ & Hrun).
  apply bind_Done_inv in Hrun as (_ & _ & Hrun). rewrite Hc in Hrun. cbn [bind_result] in Hrun.
  rewrite u32_small in Hrun by (unfold KERNEL_BASE in *; lia).
  apply bind_Done_inv in Hrun as (h & Hset & Hrun). destruct (set_prev_Done _ _ _ _ Hset) as [_ Hprev].
  rewrite (proj2 (Z.eqb_neq (c - 1) 0)) in Hrun by lia. injection Hrun as <-. split; [|done].
  constructor; simpl; [lia|done| |].
  - exists l. rewrite Hprev, decide_False by congruence. done.
  - intros q Hq. destruct (H4 q Hq) as (Hq1 & Hq2 & d & Hd & Hdr). split; [done|]. split; [done|].
    unfold ref_count. simpl. rewrite Hprev. destruct (decide (q = p)) as [->|]; [exists (c - 1); split; [done|]|].
    + unfold KERNEL_BASE in *. lia.
    + exists d. split; [done|lia].
Qed.

Lemma spawn_processes o name proc init_func start param kernel_only k r k' :
  spawn_thread_internal read_file o name proc init_func start param kernel_only k = Done (r, k') ->
  process_nodes k' = process_nodes k /\ (forall p, is_Some (processes k' !! p) <-> is_Some (processes k !! p)).
Proof.
  unfold spawn_thread_internal. intros Hrun. apply bind_Done_inv in Hrun as (copied & _ & Hrun).
  apply bind_Done_inv in Hrun as ([area s] & _ & Hrun). destruct area as [area|]; [|done]. cbv zeta in Hrun.
  apply bind_Done_inv in Hrun as (s2 & _ & Hrun). apply bind_Done_inv in Hrun as (x & _ & Hrun).
  apply bind_Done_inv in Hrun as ([user s3] & _ & [= <- <-]). split; [done|]. intros p. simpl.
  destruct (decide (p = proc)) as [->|Hne].
  - by rewrite lookup_alter_eq, fmap_is_Some.
  - by rewrite lookup_alter_ne.
Qed.

Lemma fresh_node_counts n created k p v words h :
  counts_ok n created k -> p ∉ created -> p <> process_list_head ->
  set_prev p v (<[p := words]> (process_nodes k)) = Done h -> counts_ok n created (k <| process_nodes := h |>).
Proof.
  intros [H1 H2 (l & Hl & Hin) H4] Hnot Hne Hset. destruct (set_prev_Done _ _ _ _ Hset) as [_ Hprev].
  assert (Hold : forall q, q <> p -> get_prev q h = get_prev q (process_nodes k)).
  { intros q Hq. rewrite Hprev, decide_False by done. unfold get_prev, get_node. by rewrite lookup_insert_ne. }
  constructor; [done|done| |].
  - exists l. simpl. rewrite Hold by done. done.
  - intros q Hq. unfold ref_count. simpl. rewrite Hold by congruence. by apply H4.
Qed.

Lemma exec_counts n created k o filename r k' :
  counts_ok n created k -> KERNEL_BASE <= process_object o < 2 ^ 32 -> process_object o <> process_list_head ->
  processes k !! process_object o = None ->
  exec_program open_file read_file process_list_head new_process_start o filename k = Done (r, k') ->
  counts_ok n (process_object o :: created) k'.
Proof.
  intros Hk Hp Hne Hfresh Hrun. unfold exec_program in Hrun. apply bind_Done_inv in Hrun as (k1 & Hbegin & Hrun).
  unfold begin_program in Hbegin. cbv zeta in Hbegin. unfold finish_program in Hrun. cbv zeta in Hrun.
  apply bind_Done_inv in Hbegin as (s & _ & Hbegin). apply bind_Done_inv in Hbegin as (h & Hset & Hadd).
  assert (Hnot : process_object o ∉ created).
  { intros Hin. apply (counts_created _ _ _ Hk) in Hin. rewrite Hfresh in Hin. by destruct Hin. }
  pose proof (fresh_node_counts n created k _ _ _ _ Hk Hnot Hne Hset) as H0.
  assert (H1 : counts_ok n (process_object o :: created) k1).
  { eapply add_process_counts; [|done|done|done|exact Hadd]. by apply (same_nodes_counts _ _ _ _ H0). }
  apply bind_Done_inv in Hrun as ([entry s2] & _ & Hrun). destruct entry as [entry|].
  - apply bind_Done_inv in Hrun as ([th k2] & Hspawn & [= <- <-]).
    destruct (spawn_processes _ _ _ _ _ _ _ _ _ _ Hspawn) as [Hn Hd].
    apply (same_nodes_counts n _ k1); [done|exact Hn|exact Hd].
  - injection Hrun as <- <-. by apply (same_nodes_counts n _ k1).
Qed.

Lemma boot_counts p old k k' :
  processes k = ∅ -> KERNEL_BASE <= p < 2 ^ 32 -> p <> process_list_head ->
  bool_init_kernel_process process_list_head p old k = Done k' -> counts_ok 0 [p] k'.
Proof.
  intros Hempty Hp Hne Hrun. unfold bool_init_kernel_process in Hrun.
  apply bind_Done_inv in Hrun as ([r h] & Hinit & Hrun). apply bind_Done_inv in Hrun as (k1 & Hadd & [= <-]).
  assert (Hhead' : get_prev process_list_head (<[p := old]> h) = Done process_list_head).
  { unfold list_init in Hinit. apply bind_Done_inv in Hinit as (h1 & _ & Hinit).
    apply bind_Done_inv in Hinit as (h2 & Hset & [= _ <-]). destruct (set_prev_Done _ _ _ _ Hset) as [_ Hprev].
    specialize (Hprev process_list_head). rewrite decide_True in Hprev by done.
    unfold get_prev, get_node in *. by rewrite lookup_insert_ne. }
  assert (H0 : counts_ok 0 [] (k <| process_nodes := <[p := old]> h |>)).
  { constructor; simpl; [done| |eauto|by intros q ?%elem_of_nil].
    intros q. rewrite Hempty, lookup_empty. split; [by intros ?%elem_of_nil|by intros []]. }
  assert (H1 : counts_ok 0 [p] k1) by (eapply add_process_counts; [exact H0|done|done|by intros ?%elem_of_nil|exact Hadd]).
  by apply (same_nodes_counts 0 [p] k1).
Qed.

Lemma reap_counts n created k hwthread k' :
  counts_ok n created k -> n + 1 < KERNEL_BASE -> grim_reaper_turn hwthread k = Done k' ->
  counts_ok (n + 1) created k'.
Proof.
  intros Hk Hn Hrun. unfold grim_reaper_turn in Hrun.
  destruct (grim_reaper_take (scheduler k)) as [[th|] q]; cbv zeta in Hrun.
  - unfold destroy_thread_structure in Hrun. apply bind_Done_inv in Hrun as (t & _ & Hrun).
    apply bind_Done_inv in Hrun as (u & _ & Hrun). apply bind_Done_inv in Hrun as (x & Hx & Hrun). cbv zeta in Hrun.
    apply bind_Done_inv in Hrun as (s1 & _ & Hrun). apply bind_Done_inv in Hrun as (s2 & _ & Hrun).
    unfold get_process in Hx. destruct (processes _ !! thread_proc t) as [x'|] eqn:Ex; [|done].
    eapply dec_proc_ref_counts; [|done|exact Hrun|].
    + apply (same_nodes_counts _ _ k); [done|done|]. intros p. simpl.
      destruct (decide (p = thread_proc t)) as [->|Hne]; [by rewrite lookup_alter_eq, fmap_is_Some|by rewrite lookup_alter_ne].
    + simpl in *. rewrite lookup_alter_eq, Ex. by eexists.
  - apply bind_Done_inv in Hrun as (q' & _ & [= <-]).
    destruct (same_nodes_counts n created k (k <| scheduler := q' |>) Hk eq_refl ltac:(done)) as [H1 H2 H3 H4].
    constructor; [lia|done|done|]. intros p Hp. destruct (H4 p Hp) as (? & ? & c & Hc & Hr).
    split; [done|]. split; [done|]. exists c. split; [done|lia].
Qed.

Lemma process_history_counts n created k :
  process_history n created k -> n < KERNEL_BASE -> counts_ok n created k.
Proof.
  induction 1 as [p old k k' Hempty Hp Hne Hrun|n created k o filename r k' _ IH Hp Hne Hfresh Hrun
    |n created k o name proc init start param only r k' _ IH Hrun|n created k hwthread p k' _ IH Hin Hrun
    |n created k hwthread k' _ IH Hrun|n created k k' _ IH Hnodes Hsame]; intros Hn.
  - by apply (boot_counts p old k).
  - by apply (exec_counts n created k o filename r); [apply IH| | | |].
  - destruct (spawn_processes _ _ _ _ _ _ _ _ _ _ Hrun) as [H1 H2].
    apply (same_nodes_counts n created k); [by apply IH|exact H1|exact H2].
  - specialize (IH ltac:(lia)).
    by destruct (dec_proc_ref_counts n created k hwthread p k' IH Hn Hrun (proj1 (counts_created _ _ _ IH p) Hin)).
  - by apply (reap_counts n created k hwthread); [apply IH; lia| |].
  - by apply (same_nodes_counts n created k); [apply IH| |].
Qed.

(** C21: no process is ever destroyed.  A process is linked into the list of processes by its
    first words, and the first of them is its reference count, so the two references that
    [exec_program] counts are overwritten with the address of the process before it.  From then
    on the count is a kernel address less the references given back: in every history it is
    far from 0 when the last thread of the process is gone, the test for 0 in
    [dec_proc_ref] never holds, and the process, with its address space, stays. *)
Theorem dead_processes_stay n created k :
  process_history n created k -> n < KERNEL_BASE - 1 ->
  (forall p, p ∈ created -> is_Some (processes k !! p)
     /\ exists count, ref_count p k = Done count /\ KERNEL_BASE - n <= count) /\
  (forall hwthread p k', p ∈ created -> dec_proc_ref hwthread p k = Done k' -> processes k' = processes k) /\
  (forall hwthread k' p, grim_reaper_turn hwthread k = Done k' -> p ∈ created -> is_Some (processes k' !! p)).
Proof.
  intros Hhist Hn. pose proof (process_history_counts n created k Hhist ltac:(lia)) as Hk.
  split; [|split].
  - intros p Hp. split; [by apply (counts_created _ _ _ Hk)|].
    destruct (counts_word _ _ _ Hk p Hp) as (_ & _ & c & Hc & Hr). exists c. split; [done|lia].
  - intros hwthread p k' Hp Hrun.
    by destruct (dec_proc_ref_counts n created k hwthread p k' Hk ltac:(lia) Hrun (proj1 (counts_created _ _ _ Hk p) Hp)).
  - intros hwthread k' p Hrun Hp. by apply (counts_created _ _ _ (reap_counts n created k hwthread k' Hk ltac:(lia) Hrun)).
Qed.
End Counting.

(** ** An example: the kernel starts, runs a program, and its thread exits *)

Definition stack_table (a : Z) : Z := if a =? 0x1000 + 1023 * 4 then 0x2001 else 0.

Definition booted_memory : cache_state := bootstrap_vm_cache {|
  vm := {|
    frames := vm_page_init 0x80000 3
      {| pages := replicate 128 boot_page; free_page_list := []; memory_size := 0; phys := stack_table |};
    kernel_map := {| page_dir := 0x1000; asid := 0 |};
    map_list := []; maps := ∅; asid_alloc := [0; 0]; invalidated := []; registers := (0, 0) |};
  caches := ∅; hash_table := []; cache_lock := false |}.

Definition area_at (p : Z) : vm_area := area_object <| area_ptr := p |>.

Definition booted_spaces : result space_state :=
  vm_address_space_init 0 0xc0003000 0x80000 (area_at 0xd0010000) (area_at 0xd0010040) (area_at 0xd0010080)
    (area_at 0xd00100c0) [] [] {|
    cs := booted_memory;
    kernel_address_space := {| area_map := init_area_map 0 0; VmSpace.translation_map := 0 |};
    spaces := ∅ |}.

Definition list_head_address : Z := 0xc0001000.

Definition first_state (s : space_state) : kernel_state := {|
  address_spaces := s;
  scheduler := {| thread_states := fun _ => THREAD_DEAD; cur_thread := [0]; ready_q := [9]; dead_q := [8];
                  disable_preempt_count := [0]; trap_kernel_stack := [0]; hw_translation_map := [0] |};
  threads := ∅; processes := ∅; process_nodes := {[list_head_address := {| prev := 5; next := 5 |}]};
  next_thread_id := 0; next_process_id := 0; kernel_proc := 0 |}.

(** What slab memory held before. *)
Definition dirty_thread : thread := {|
  thread_name := replicate 32 7; thread_id := 7; kernel_stack_top := 7; current_stack := 7;
  kernel_stack_area := area_object; user_stack_area := None; thread_proc := 7; start_func := 7; thread_param := 7 |}.

Definition thread_objects_at (p : Z) : thread_objects := {|
  thread_object := p; name_bytes := replicate 32 7;
  kernel_area_object := area_at (p + 0x100); kernel_cache_object := p + 0x200; kernel_cache_file := 0;
  user_area_object := area_at (p + 0x140); user_cache_object := p + 0x240; user_cache_file := 0 |}.

Definition program_process : process_objects := {|
  process_object := 0xd0005000; process_words := {| prev := 7; next := 7 |};
  space_object := 0x600; map_object := 0x100; program_objects := small_objects;
  first_thread := thread_objects_at 0xd0006000 |}.

Definition run_spawn := spawn_kernel_thread small_read 0xc0002100 (thread_objects_at 0xd0003000) [71] 0xc0002000 0.
Definition run_exec := exec_program program_handle small_read list_head_address 0xc0002200 program_process [112].

Definition kernel_booted : result kernel_state :=
  s <-- booted_spaces;;
  k <-- bool_init_kernel_process list_head_address 0xd0000000 {| prev := 7; next := 7 |} (first_state s);;
  boot_init_thread 0 0xd0001000 dirty_thread k.

Definition kernel_started : result (option Z * kernel_state) :=
  k <-- kernel_booted;;
  '(_, k) <-- run_spawn k;;
  run_exec k.

(** The program's thread runs and exits, and the reaper destroys it. *)
Definition program_over : result kernel_state :=
  '(_, k) <-- kernel_started;;
  k <-- kernel_reschedule 0 k;;
  k <-- kernel_reschedule 0 k;;
  k <-- thread_exit 0 k;;
  k <-- kernel_reschedule 0 k;;
  grim_reaper_turn 0 k.

(** A second kernel thread exits instead. *)
Definition kernel_thread_over : result kernel_state :=
  k <-- kernel_booted;;
  '(_, k) <-- run_spawn k;;
  '(_, k) <-- spawn_kernel_thread small_read 0xc0002100 (thread_objects_at 0xd0004000) [72] 0xc0002300 0 k;;
  k <-- kernel_reschedule 0 k;;
  k <-- kernel_reschedule 0 k;;
  k <-- thread_exit 0 k;;
  k <-- kernel_reschedule 0 k;;
  grim_reaper_turn 0 k.

Definition result_state (r : result kernel_state) : kernel_state :=
  match r with Done k => k | Fault _ => first_state {| cs := booted_memory;
    kernel_address_space := {| area_map := init_area_map 0 0; VmSpace.translation_map := 0 |}; spaces := ∅ |} end.

Definition pair_state {A} (r : result (A * kernel_state)) : result kernel_state := '(_, k) <-- r;; Done k.

Definition kernel_initialized : result kernel_state :=
  s <-- booted_spaces;;
  bool_init_kernel_process list_head_address 0xd0000000 {| prev := 7; next := 7 |} (first_state s).

Definition state_booted : space_state := result_or (address_spaces (result_state (Fault HostExit))) booted_spaces.
Definition state_init : kernel_state := result_state
  (bool_init_kernel_process list_head_address 0xd0000000 {| prev := 7; next := 7 |} (first_state state_booted)).
Definition state_boot : kernel_state := result_state (boot_init_thread 0 0xd0001000 dirty_thread state_init).
Definition state_reaper : kernel_state := result_state (pair_state (run_spawn state_boot)).
Definition state_program : kernel_state := result_state (pair_state (run_exec state_reaper)).
Definition state_tick : kernel_state := result_state (kernel_reschedule 0 state_program).
Definition state_runs : kernel_state := result_state (kernel_reschedule 0 state_tick).
Definition state_exited : kernel_state := result_state (thread_exit 0 state_runs).
Definition state_reaping : kernel_state := result_state (kernel_reschedule 0 state_exited).
Definition state_over : kernel_state := result_state (grim_reaper_turn 0 state_reaping).

Lemma ends_state r k : result_state r = k -> ends r = true -> r = Done k.
Proof. intros <-. by destruct r. Qed.

Lemma ends_pair {A} (r : result (A * kernel_state)) k :
  result_state (pair_state r) = k -> ends r = true -> exists a, r = Done (a, k).
Proof. intros <-. destruct r as [[a k]|]; [|done]. by exists a. Qed.

Lemma spawned_eq : exists r, spawn_thread_internal small_read (thread_objects_at 0xd0003000) [71] (kernel_proc state_boot)
  0xc0002100 0xc0002000 0 true state_boot = Done (r, state_reaper).
Proof.
  apply ends_pair; [unfold state_reaper, run_spawn, spawn_kernel_thread; reflexivity|vm_compute; reflexivity].
Qed.

Lemma executed_eq : exists r, exec_program program_handle small_read list_head_address 0xc0002200 program_process [112] state_reaper
  = Done (r, state_program).
Proof. apply ends_pair; [unfold state_program, run_exec; reflexivity|vm_compute; reflexivity]. Qed.

Lemma same_processes k k' : dom (processes k') = dom (processes k) ->
  forall p, is_Some (processes k' !! p) <-> is_Some (processes k !! p).
Proof. intros Hd p. by rewrite <- !elem_of_dom, Hd. Qed.

(** A kernel thread that exits stops the kernel: the reaper, which is one too, may not give back
    a reference to its own process. *)
Theorem kernel_thread_exit_stops :
  (forall hwthread p k, current_process hwthread k = Done p -> dec_proc_ref hwthread p k = Fault AssertFailed)
  /\ kernel_thread_over = Fault AssertFailed.
Proof.
  split; [|vm_compute; reflexivity]. intros hwthread p k Hp. unfold dec_proc_ref. rewrite Hp. cbn [bind_result].
  by rewrite bool_decide_false by (intros H; by apply H).
Qed.

Lemma program_history :
  process_history program_handle small_read list_head_address 0xc0002200 1 [0xd0005000; 0xd0000000] state_over.
Proof.
  destruct spawned_eq as [r1 E1], executed_eq as [r2 E2].
  change 1 with (0 + 1).
  refine (process_reap _ _ _ _ 0 _ state_reaping 0 state_over _ _);
    [|apply ends_state; [unfold state_over; reflexivity|vm_compute; reflexivity]].
  refine (process_other _ _ _ _ _ _ state_program _ _ _ _); [|vm_compute; reflexivity|apply same_processes; vm_compute; reflexivity].
  refine (process_exec _ _ _ _ 0 _ _ _ _ _ _ _ _ _ _ E2);
    [|unfold KERNEL_BASE; simpl; lia|discriminate|vm_compute; reflexivity].
  refine (process_spawn _ _ _ _ _ _ _ _ _ _ _ _ _ _ _ _ _ E1).
  refine (process_other _ _ _ _ _ _ state_init _ _ _ _); [|vm_compute; reflexivity|apply same_processes; vm_compute; reflexivity].
  refine (process_boot _ _ _ _ 0xd0000000 {| prev := 7; next := 7 |} (first_state state_booted) state_init _ _ _ _);
    [reflexivity|unfold KERNEL_BASE; lia|discriminate|apply ends_state; [unfold state_init; reflexivity|vm_compute; reflexivity]].
Qed.

Lemma list_head_range : KERNEL_BASE <= list_head_address < 2 ^ 32.
Proof. unfold KERNEL_BASE, list_head_address. lia. Qed.

Lemma dead_processes_stay_witness :
  init_exited 0xd0005000 state_over = Done true
  /\ is_Some (processes state_over !! 0xd0005000)
  /\ exists count, ref_count 0xd0005000 state_over = Done count /\ KERNEL_BASE - 1 <= count.
Proof.
  split; [vm_compute; reflexivity|].
  apply (proj1 (dead_processes_stay program_handle small_read list_head_address 0xc0002200
    list_head_range 1 [0xd0005000; 0xd0000000] state_over program_history ltac:(reflexivity))).
  by left.
Defined.
