(* ===== verification/ThreadLife.v ===== *)
(** * ThreadLife: every thread of the kernel is accounted for (software/kernel/thread.c)

    The operations of Process and Sched interleaved on one hardware thread: whatever the
    kernel's threads do, each is in the list of its process and in one place of the scheduler,
    and the reaper finds only threads that are dead and not running. *)

From S2P Require Export Process.
From stdpp Require Import list gmap functions.
Import stdpp.list_relations.list.

#[local] Open Scope Z_scope.

(** ** Every thread is accounted for *)

Section Life.

Context (open_file : list Z -> option Z) (read_file : Z -> Z -> Z -> option (list Z)).
Context (process_list_head new_process_start idle : Z).

(** One hardware thread; [c] is current.  [idle] is the thread that started the kernel: it is
    always ready or running. *)
Record life_pre (k : kernel_state) (c : Z) : Prop := {
  life_sched : sched_ok (scheduler k);
  life_cur : cur_thread (scheduler k) = [c];
  life_preempt : disable_preempt_count (scheduler k) = [0];
  life_dead : NoDup (dead_q (scheduler k)) /\ forall t, t ∈ dead_q (scheduler k) ->
    thread_states (scheduler k) t = THREAD_DEAD /\ is_Some (threads k !! t);
  life_known : forall t, t ∈ ready_q (scheduler k) \/ t = c -> is_Some (threads k !! t);
  life_idle : idle ∈ ready_q (scheduler k) \/ idle = c /\ thread_states (scheduler k) c = THREAD_RUNNING;
  life_lists : forall p x, processes k !! p = Some x -> NoDup (thread_list x)
    /\ forall t, t ∈ thread_list x <-> exists r, threads k !! t = Some r /\ thread_proc r = p;
  life_procs : forall t r, threads k !! t = Some r -> is_Some (processes k !! thread_proc r)
}.

Definition life_ok (k : kernel_state) (c : Z) : Prop :=
  life_pre k c /\ thread_states (scheduler k) c = THREAD_RUNNING.

(** What may happen between two moments at which [c] runs with interrupts on. *)
Inductive life_step (k : kernel_state) (c : Z) : kernel_state -> Prop :=
| life_tick k' : kernel_reschedule 0 k = Done k' -> life_step k c k'
| life_exit k' : c <> idle -> thread_exit 0 k = Done k' -> life_step k c k'
| life_wait k' : c <> idle ->
    kernel_reschedule 0 (k <| scheduler ::= set_state c THREAD_WAITING |>) = Done k' -> life_step k c k'
| life_wake t k' : is_Some (threads k !! t) ->
    on_scheduler (Sched.make_thread_ready t) k = Done k' -> life_step k c k'
| life_spawn o name proc init_func start param kernel_only r k' : threads k !! thread_object o = None ->
    spawn_thread_internal read_file o name proc init_func start param kernel_only k = Done (r, k') -> life_step k c k'
| life_exec o filename r k' : threads k !! thread_object (first_thread o) = None ->
    processes k !! process_object o = None ->
    exec_program open_file read_file process_list_head new_process_start o filename k = Done (r, k') -> life_step k c k'
| life_reap k' : grim_reaper_turn 0 k = Done k' -> life_step k c k'
| life_drop p k' : dec_proc_ref 0 p k = Done k' -> life_step k c k'.

Inductive life_run (k0 : kernel_state) (c0 : Z) : kernel_state -> Prop :=
| life_start : life_ok k0 c0 -> life_run k0 c0 k0
| life_next k c k' : life_run k0 c0 k -> cur_thread (scheduler k) = [c] -> life_step k c k' -> life_run k0 c0 k'.

(** Switching threads. *)
Lemma reschedule_life k c :
  life_pre k c -> exists k' c', kernel_reschedule 0 k = Done k' /\ life_ok k' c' /\ threads k' = threads k
    /\ processes k' = processes k /\ dead_q (scheduler k') = dead_q (scheduler k).
Proof.
  intros [H1 H2 H3 [H4 H4'] H5 H6 H7 H8]. set (q := scheduler k) in *.
  assert (Hc : thread_states q c <> THREAD_READY) by (apply (ok_cur _ H1); rewrite H2; by left).
  assert (Hreq : ready_q (requeued c q) <> [] /\ (idle ∈ ready_q (requeued c q))
    /\ (forall t, t ∈ ready_q (requeued c q) -> t ∈ ready_q q \/ t = c)
    /\ (forall t, thread_states q t = THREAD_DEAD -> thread_states (requeued c q) t = THREAD_DEAD)).
  { assert (Hidle : idle ∈ ready_q (requeued c q)).
    { unfold requeued. case_bool_decide as Hrun; simpl.
      - apply elem_of_app. destruct H6 as [?|[-> _]]; [by left|right; by apply list_elem_of_singleton].
      - destruct H6 as [?|[_ ?]]; done. }
    split; [by intros E; rewrite E in Hidle; apply elem_of_nil in Hidle|]. split; [done|].
    unfold requeued. case_bool_decide as Hrun; simpl; [|split; [by left|done]]. split.
    - intros t [?|?%list_elem_of_singleton]%elem_of_app; [by left|by right].
    - intros t Ht. rewrite fn_lookup_insert_ne; [done|]. intros ->. congruence. }
  destruct Hreq as (Hne & Hidle & Hsub & Hdead).
  destruct (reschedule_ok (scheduling_info k) 0 q c H1) as
    (nt & rest & q' & Hq & Hrun & Hok' & Hr' & Hct & Hst & Hpre & Hdq & _); [by rewrite H3|by rewrite H2|done|].
  exists (k <| scheduler := q' |>), nt. unfold kernel_reschedule, on_scheduler. fold q. rewrite Hrun. cbn [bind_result].
  split; [done|]. split; [|by rewrite <- Hdq].
  rewrite Hq in Hidle, Hsub. assert (Hrun' : thread_states q' nt = THREAD_RUNNING) by (rewrite Hst; apply fn_lookup_insert).
  split; [constructor; simpl|done].
  - done.
  - by rewrite Hct, H2.
  - by rewrite Hpre.
  - rewrite Hdq. split; [done|]. intros t Ht. destruct (H4' t Ht) as [Hd Hs]. split; [|done].
    rewrite Hst, fn_lookup_insert_ne; [by apply Hdead|]. intros <-.
    assert (nt ∈ ready_q (requeued c q)) as Hin by (rewrite Hq; by left).
    destruct (requeued_facts q c H1 ltac:(rewrite H2; by left)) as (_ & Hready & _).
    apply Hready in Hin. rewrite Hdead in Hin by done. done.
  - rewrite Hr'. intros t Ht. apply H5. apply Hsub. apply elem_of_cons. tauto.
  - rewrite Hr'. apply elem_of_cons in Hidle as [->|?]; [right; by split|by left].
  - done.
  - done.
Qed.

(** The current thread stops running. *)
Lemma stop_current q c st :
  sched_ok q -> cur_thread q = [c] -> thread_states q c = THREAD_RUNNING ->
  st <> THREAD_READY -> st <> THREAD_RUNNING -> sched_ok (set_state c st q).
Proof.
  intros [H1 H2 H3 H4 H5] Hcur Hrun Hst1 Hst2. constructor; simpl; try done.
  - intros t. rewrite H2. destruct (decide (t = c)) as [->|Hne].
    + rewrite fn_lookup_insert, Hrun. done.
    + by rewrite fn_lookup_insert_ne.
  - intros t. rewrite Hcur. intros ->%list_elem_of_singleton. by rewrite fn_lookup_insert.
  - intros t. destruct (decide (t = c)) as [->|Hne]; [by rewrite fn_lookup_insert|].
    rewrite fn_lookup_insert_ne by done. apply H5.
Qed.

Lemma wait_life k c :
  life_ok k c -> c <> idle -> life_pre (k <| scheduler ::= set_state c THREAD_WAITING |>) c.
Proof.
  intros [[H1 H2 H3 [H4 H4'] H5 H6 H7 H8] Hrun] Hne. constructor; simpl; try done.
  - by apply stop_current.
  - split; [done|]. intros t Ht. destruct (H4' t Ht) as [Hd ?]. split; [|done].
    rewrite fn_lookup_insert_ne; [done|]. intros ->. congruence.
  - destruct H6 as [?|[? _]]; [by left|congruence].
Qed.

Lemma exit_life k c :
  life_ok k c -> c <> idle ->
  let k1 := k <| scheduler ::= fun q => set_state c THREAD_DEAD (q <| dead_q ::= fun l => l ++ [c] |>) |> in
  life_pre k1 c /\ thread_exit 0 k = kernel_reschedule 0 k1.
Proof.
  intros [[H1 H2 H3 [H4 H4'] H5 H6 H7 H8] Hrun] Hne k1. split.
  - constructor; simpl; try done.
    + apply stop_current; [by destruct H1|done|done|done|done].
    + split.
      * apply NoDup_snoc; [done|]. intros Hin. destruct (H4' c Hin) as [? _]. congruence.
      * intros t [Ht| ->%list_elem_of_singleton]%elem_of_app; [|rewrite fn_lookup_insert; split; [done|apply H5; by right]].
        destruct (H4' t Ht) as [Hd ?]. split; [|done]. rewrite fn_lookup_insert_ne; [done|]. intros ->. congruence.
    + destruct H6 as [?|[? _]]; [by left|congruence].
  - unfold thread_exit, on_scheduler, thread_exit_enqueue, thread_exit_finish, kernel_reschedule, on_scheduler,
      Sched.current_thread, array_get. rewrite H2. cbn [bind_result list_lookup lookup]. simpl. rewrite H2. simpl. done.
Qed.

Lemma wake_life k c t k' :
  life_ok k c -> is_Some (threads k !! t) -> on_scheduler (Sched.make_thread_ready t) k = Done k' -> life_ok k' c.
Proof.
  intros [[H1 H2 H3 [H4 H4'] H5 H6 H7 H8] Hrun] Ht Hw. unfold on_scheduler in Hw.
  rewrite make_thread_ready_waiting in Hw. case_bool_decide as Hst; [|done]. cbn [bind_result] in Hw. injection Hw as <-.
  assert (Hne : t <> c) by (intros ->; congruence).
  split; [constructor; simpl; try done|simpl; by rewrite fn_lookup_insert_ne by done].
  - apply enqueue_ok; [done|by rewrite Hst|]. by rewrite H2, list_elem_of_singleton.
  - split; [done|]. intros u Hu. destruct (H4' u Hu) as [Hd ?]. split; [|done].
    rewrite fn_lookup_insert_ne; [done|]. intros ->. congruence.
  - intros u [[?| ->%list_elem_of_singleton]%elem_of_app| ->]; [apply H5; by left|done|apply H5; by right].
  - rewrite elem_of_app, fn_lookup_insert_ne by done. tauto.
Qed.

(** Threads and the lists of their processes. *)
Definition lists_ok (ths : gmap Z thread) (procs : gmap Z process) : Prop :=
  (forall p x, procs !! p = Some x -> NoDup (thread_list x)
     /\ forall t, t ∈ thread_list x <-> exists r, ths !! t = Some r /\ thread_proc r = p)
  /\ forall t r, ths !! t = Some r -> is_Some (procs !! thread_proc r).

Lemma lists_insert ths procs th t :
  lists_ok ths procs -> ths !! th = None -> is_Some (procs !! thread_proc t) ->
  lists_ok (<[th := t]> ths) (alter (fun p => p <| thread_list ::= fun l => l ++ [th] |>) (thread_proc t) procs).
Proof.
  intros [Hl Hp] Hnew Hproc. split.
  - intros p x Hx. destruct (decide (p = thread_proc t)) as [->|Hne].
    + rewrite lookup_alter_eq in Hx. apply fmap_Some in Hx as (x0 & Hx0 & ->). destruct (Hl _ _ Hx0) as [Hnd Hin]. simpl. split.
      * apply NoDup_snoc; [done|]. rewrite Hin. intros (r & Hr & _). congruence.
      * intros u. rewrite elem_of_app, list_elem_of_singleton, Hin. destruct (decide (u = th)) as [->|Hu].
        -- rewrite lookup_insert_eq. split; [intros _; by exists t|]. intros _. by right.
        -- rewrite lookup_insert_ne by done. tauto.
    + rewrite lookup_alter_ne in Hx by done. destruct (Hl _ _ Hx) as [Hnd Hin]. split; [done|].
      intros u. rewrite Hin. destruct (decide (u = th)) as [->|Hu].
      * rewrite lookup_insert_eq, Hnew. split; [by intros (? & ? & _)|]. intros (r & [= <-] & ?). by subst.
      * by rewrite lookup_insert_ne.
  - intros u r Hu. destruct (decide (thread_proc r = thread_proc t)) as [->|Hne].
    + by rewrite lookup_alter_eq, fmap_is_Some.
    + rewrite lookup_alter_ne by done. apply lookup_insert_Some in Hu as [[_ <-]|[_ Hu]]; [done|]. by apply (Hp u).
Qed.

Lemma lists_delete ths procs th t :
  lists_ok ths procs -> ths !! th = Some t ->
  lists_ok (delete th ths) (alter (fun p => p <| thread_list ::= base.filter (fun x => x <> th) |>) (thread_proc t) procs).
Proof.
  intros [Hl Hp] Hold. split.
  - intros p x Hx. destruct (decide (p = thread_proc t)) as [->|Hne].
    + rewrite lookup_alter_eq in Hx. apply fmap_Some in Hx as (x0 & Hx0 & ->). destruct (Hl _ _ Hx0) as [Hnd Hin]. simpl. split.
      * by apply NoDup_filter.
      * intros u. rewrite list_elem_of_filter, Hin. setoid_rewrite lookup_delete_Some. firstorder.
    + rewrite lookup_alter_ne in Hx by done. destruct (Hl _ _ Hx) as [Hnd Hin]. split; [done|].
      intros u. rewrite Hin. setoid_rewrite lookup_delete_Some. split; [|firstorder].
      intros (r & Hr & <-). exists r. split; [|done]. split; [|done]. intros <-. congruence.
  - intros u r [_ Hu]%lookup_delete_Some. destruct (decide (thread_proc r = thread_proc t)) as [->|Hne].
    + rewrite lookup_alter_eq, fmap_is_Some. by apply (Hp th).
    + rewrite lookup_alter_ne by done. by apply (Hp u).
Qed.

Lemma lists_new_process ths procs p x :
  lists_ok ths procs -> procs !! p = None -> thread_list x = [] -> lists_ok ths (<[p := x]> procs).
Proof.
  intros [Hl Hp] Hnew Hx. split.
  - intros q y [[<- <-]|[_ Hy]]%lookup_insert_Some; [|by apply Hl]. rewrite Hx. split; [apply NoDup_nil_2|].
    intros t. rewrite elem_of_nil. split; [done|]. intros (r & Hr & <-). apply Hp in Hr. rewrite Hnew in Hr. by destruct Hr.
  - intros t r Hr. destruct (decide (thread_proc r = p)) as [->|Hne]; [rewrite lookup_insert_eq; by eexists|].
    rewrite lookup_insert_ne by done. by apply (Hp t).
Qed.

Lemma lists_drop_process ths procs p x :
  lists_ok ths procs -> procs !! p = Some x -> thread_list x = [] -> lists_ok ths (delete p procs).
Proof.
  intros [Hl Hp] Hold Hx. split.
  - intros q y [_ Hy]%lookup_delete_Some. by apply Hl.
  - intros t r Hr. rewrite lookup_delete_ne; [by apply (Hp t)|]. intros ->.
    assert (t ∈ thread_list x) as Hin by (apply (proj2 (Hl _ _ Hold)); by exists r). rewrite Hx in Hin. by apply elem_of_nil in Hin.
Qed.

Lemma life_pre_lists k c : life_pre k c -> lists_ok (threads k) (processes k).
Proof. intros H. split; apply H. Qed.

(** Changes of processes and memory only. *)
Lemma life_same_threads k k' c :
  life_ok k c -> scheduler k' = scheduler k -> threads k' = threads k -> lists_ok (threads k') (processes k') -> life_ok k' c.
Proof.
  intros [[H1 H2 H3 H4 H5 H6 H7 H8] Hrun] Hs Ht [Hl Hp]. split; [constructor|]; rewrite ?Hs, ?Ht; try done; by rewrite <- Ht.
Qed.

Lemma spawn_life o name proc init_func start param kernel_only k c r k' :
  life_ok k c -> threads k !! thread_object o = None ->
  spawn_thread_internal read_file o name proc init_func start param kernel_only k = Done (r, k') -> life_ok k' c.
Proof.
  intros [Hpre Hrun] Hnew Hspawn. pose proof (life_pre_lists _ _ Hpre) as Hlists.
  unfold spawn_thread_internal in Hspawn. apply bind_Done_inv in Hspawn as (copied & _ & Hspawn).
  apply bind_Done_inv in Hspawn as ([area s] & _ & Hspawn). destruct area as [area|]; [|done]. cbv zeta in Hspawn.
  apply bind_Done_inv in Hspawn as (s2 & _ & Hspawn). apply bind_Done_inv in Hspawn as (x & Hx & Hspawn).
  apply bind_Done_inv in Hspawn as ([user s3] & _ & [= <- <-]).
  unfold get_process in Hx. destruct (processes k !! proc) as [x'|] eqn:Ex; [|done].
  set (t := Build_thread _ _ _ _ _ _ _ _ _). destruct Hpre as [H1 H2 H3 [H4 H4'] H5 H6 H7 H8].
  assert (Hfresh : thread_states (scheduler k) (thread_object o) <> THREAD_READY /\ thread_object o <> c).
  { split; [intros E; apply (ok_ready _ H1) in E; destruct (H5 _ (or_introl E))|intros E; destruct (H5 c (or_intror eq_refl)); rewrite <- E in *]; congruence. }
  destruct Hfresh as [Hst Hne].
  destruct (lists_insert (threads k) (processes k) (thread_object o) t Hlists Hnew ltac:(simpl; by rewrite Ex)) as [Hl Hp].
  split; [constructor; simpl; try done|simpl; by rewrite fn_lookup_insert_ne by congruence].
  - apply enqueue_ok; [done|done|]. by rewrite H2, list_elem_of_singleton.
  - split; [done|]. intros u Hu. destruct (H4' u Hu) as [Hd Hs]. assert (u <> thread_object o) by (intros ->; rewrite Hnew in Hs; by destruct Hs).
    by rewrite fn_lookup_insert_ne, lookup_insert_ne by congruence.
  - intros u Hu. destruct (decide (u = thread_object o)) as [->|Hu']; [rewrite lookup_insert_eq; by eexists|].
    rewrite lookup_insert_ne by done. apply H5. rewrite elem_of_app, list_elem_of_singleton in Hu. tauto.
  - rewrite elem_of_app, fn_lookup_insert_ne by congruence. tauto.
Qed.

Lemma exec_life o filename k c r k' :
  life_ok k c -> threads k !! thread_object (first_thread o) = None -> processes k !! process_object o = None ->
  exec_program open_file read_file process_list_head new_process_start o filename k = Done (r, k') -> life_ok k' c.
Proof.
  intros Hk Ht Hp Hrun. unfold exec_program in Hrun. apply bind_Done_inv in Hrun as (k1 & Hbegin & Hrun).
  unfold begin_program in Hbegin. cbv zeta in Hbegin. unfold finish_program in Hrun. cbv zeta in Hrun.
  apply bind_Done_inv in Hbegin as (s & _ & Hbegin). apply bind_Done_inv in Hbegin as (h & _ & Hadd).
  apply bind_Done_inv in Hrun as ([entry s2] & _ & Hrun).
  unfold add_process, on_process_nodes in Hadd. apply bind_Done_inv in Hadd as ([u h2] & _ & [= <-]).
  set (k2 := _ <| address_spaces := s2 |>) in Hrun.
  assert (Hk2 : life_ok k2 c).
  { apply (life_same_threads k); [done|done|done|]. apply lists_new_process; [|done|done]. apply (life_pre_lists k c), Hk. }
  destruct entry as [entry|].
  - apply bind_Done_inv in Hrun as ([th k3] & Hspawn & [= <- <-]). by apply (spawn_life _ _ _ _ _ _ _ _ _ _ _ Hk2 Ht Hspawn).
  - by injection Hrun as <- <-.
Qed.

Lemma dec_proc_ref_life p k c k' :
  life_ok k c -> dec_proc_ref 0 p k = Done k' ->
  life_ok k' c /\ threads k' = threads k /\ (processes k' = processes k \/ processes k' = delete p (processes k)).
Proof.
  intros Hk Hrun. unfold dec_proc_ref in Hrun.
  apply bind_Done_inv in Hrun as (cur & _ & Hrun). apply bind_Done_inv in Hrun as (_ & _ & Hrun).
  apply bind_Done_inv in Hrun as (count & _ & Hrun). cbv zeta in Hrun. apply bind_Done_inv in Hrun as (h & _ & Hrun).
  destruct (_ =? 0).
  - unfold destroy_process in Hrun. apply bind_Done_inv in Hrun as (x & Hx & Hrun).
    apply bind_Done_inv in Hrun as (u & Hempty & Hrun). apply bind_Done_inv in Hrun as (k1 & Hnodes & Hrun).
    unfold on_process_nodes in Hnodes. apply bind_Done_inv in Hnodes as ([v h1] & _ & [= <-]).
    destruct (proc_space x) as [space|]; [|done]. apply bind_Done_inv in Hrun as (s & _ & [= <-]).
    apply kassert_Done, bool_decide_eq_true_1 in Hempty. unfold get_process in Hx. simpl in Hx.
    destruct (processes k !! p) as [x'|] eqn:Ex; [|done]. injection Hx as ->.
    split; [|split; [done|by right]]. apply (life_same_threads k); [done|done|done|].
    apply (lists_drop_process _ _ p x); [|done|done]. apply (life_pre_lists k c), Hk.
  - injection Hrun as <-. split; [|split; [done|by left]].
    apply (life_same_threads k); [done|done|done|]. apply (life_pre_lists k c), Hk.
Qed.

(** A turn of the reaper that takes a thread. *)
Lemma reap_life k c th rest k' :
  life_ok k c -> dead_q (scheduler k) = th :: rest -> grim_reaper_turn 0 k = Done k' ->
  life_ok k' c /\ threads k' = delete th (threads k)
  /\ forall p x, processes k' !! p = Some x -> th ∉ thread_list x.
Proof.
  intros Hk Hdead Hrun. unfold grim_reaper_turn, grim_reaper_take in Hrun. rewrite Hdead in Hrun. cbv zeta in Hrun.
  unfold destroy_thread_structure in Hrun. apply bind_Done_inv in Hrun as (t & Ht & Hrun).
  apply bind_Done_inv in Hrun as (u & _ & Hrun). apply bind_Done_inv in Hrun as (x & _ & Hrun). cbv zeta in Hrun.
  apply bind_Done_inv in Hrun as (s1 & _ & Hrun). apply bind_Done_inv in Hrun as (s2 & _ & Hrun).
  unfold get_thread in Ht. simpl in Ht. destruct (threads k !! th) as [t'|] eqn:Et; [|done]. injection Ht as ->.
  set (k2 := _ <| threads ::= delete th |>) in Hrun.
  destruct Hk as [[H1 H2 H3 [H4 H4'] H5 H6 H7 H8] Hrunning].
  rewrite Hdead in H4, H4'. apply NoDup_cons in H4 as [Hnot H4]. destruct (H4' th ltac:(by left)) as [Hdth _].
  destruct (lists_delete (threads k) (processes k) th t (conj H7 H8) Et) as [Hl Hp].
  assert (Hk2 : life_ok k2 c).
  { split; [constructor; simpl; try done|done].
    - by destruct H1.
    - split; [done|]. intros v Hv. destruct (H4' v ltac:(by right)) as [Hd Hs]. split; [done|].
      rewrite lookup_delete_ne; [done|]. intros <-. done.
    - intros v Hv. rewrite lookup_delete_ne; [by apply H5|]. intros <-.
      destruct Hv as [Hv| ->]; [apply (ok_ready _ H1) in Hv; congruence|congruence]. }
  destruct (dec_proc_ref_life _ _ _ _ Hk2 Hrun) as (Hk' & Hths & _). split; [done|]. split; [done|].
  intros p y Hy Hin. destruct Hk' as [Hk' _]. apply (proj2 (life_lists _ _ Hk' p y Hy)) in Hin as (r & Hr & _).
  rewrite Hths in Hr. simpl in Hr. by rewrite lookup_delete_eq in Hr.
Qed.

Lemma step_life k c k' : life_ok k c -> life_step k c k' -> exists c', life_ok k' c'.
Proof.
  intros Hk [k1 Hrun|k1 Hne Hrun|k1 Hne Hrun|t k1 Ht Hrun|o name proc init_func start param only r k1 Hnew Hrun
    |o filename r k1 Ht Hp Hrun|k1 Hrun|p k1 Hrun].
  - destruct (reschedule_life k c (proj1 Hk)) as (k2 & c' & Hrun' & Hok & _). exists c'. congruence.
  - destruct (exit_life k c Hk Hne) as [Hpre Heq]. destruct (reschedule_life _ c Hpre) as (k2 & c' & Hrun' & Hok & _).
    exists c'. congruence.
  - destruct (reschedule_life _ c (wait_life k c Hk Hne)) as (k2 & c' & Hrun' & Hok & _). exists c'. congruence.
  - exists c. by apply (wake_life k c t).
  - exists c. by apply (spawn_life _ _ _ _ _ _ _ _ _ _ _ Hk Hnew Hrun).
  - exists c. by apply (exec_life o filename k c r).
  - destruct (dead_q (scheduler k)) as [|th rest] eqn:Hdead.
    + destruct (reschedule_life k c (proj1 Hk)) as (k2 & c' & Hrun' & Hok & _). exists c'.
      unfold grim_reaper_turn, grim_reaper_take in Hrun. rewrite Hdead in Hrun. cbv zeta in Hrun.
      assert (k <| scheduler := scheduler k |> = k) as E by by destruct k.
      unfold kernel_reschedule, on_scheduler in Hrun'. rewrite E in Hrun. rewrite Hrun' in Hrun. by injection Hrun as <-.
    + exists c. by apply (reap_life k c th rest).
  - exists c. by apply (dec_proc_ref_life p k c).
Qed.

Lemma run_life k0 c0 k : life_run k0 c0 k -> exists c, life_ok k c.
Proof.
  induction 1 as [|k c k' _ [c' Hk] Hcur Hstep]; [by eexists|].
  assert (c' = c) as -> by (destruct Hk as [[_ Hc _ _ _ _ _ _] _]; congruence). by apply (step_life k c k').
Qed.

(** C20: every thread is accounted for.  On one hardware thread, whatever the kernel's threads
    do (preemption, waiting, waking, exiting, starting threads and programs, giving back
    processes, reaping), each thread is in the list of its own process and in no other, the
    ready threads are the ready queue, one thread runs, and the dead queue holds dead threads
    that have their structure still.  So the timer can always preempt and any thread but the idle
    one can always exit; a thread the reaper takes passes its assertions, and when the reaper is
    done the thread is in no list, and all others are as they were. *)
Theorem threads_accounted k0 c0 k :
  life_run k0 c0 k ->
  exists c, cur_thread (scheduler k) = [c] /\ thread_states (scheduler k) c = THREAD_RUNNING
  /\ (forall t, t ∈ ready_q (scheduler k) <-> thread_states (scheduler k) t = THREAD_READY)
  /\ (forall t r, threads k !! t = Some r -> exists x, processes k !! thread_proc r = Some x /\ t ∈ thread_list x)
  /\ (forall p x t, processes k !! p = Some x -> t ∈ thread_list x ->
        exists r, threads k !! t = Some r /\ thread_proc r = p)
  /\ (exists k', kernel_reschedule 0 k = Done k')
  /\ (c <> idle -> exists k', thread_exit 0 k = Done k' /\ threads k' = threads k
        /\ dead_q (scheduler k') = dead_q (scheduler k) ++ [c])
  /\ (forall th rest, dead_q (scheduler k) = th :: rest ->
        Sched.destroy_thread 0 th (scheduler k) = Done tt
        /\ forall k', grim_reaper_turn 0 k = Done k' -> threads k' = delete th (threads k)
             /\ forall p x, processes k' !! p = Some x -> th ∉ thread_list x).
Proof.
  intros Hhist. destruct (run_life k0 c0 k Hhist) as [c Hk]. pose proof Hk as [[H1 H2 H3 [H4 H4'] H5 H6 H7 H8] Hrun].
  exists c. split; [done|]. split; [done|]. split; [apply H1|]. split; [|split; [|split; [|split]]].
  - intros t r Hr. destruct (H8 t r Hr) as [x Hx]. exists x. split; [done|]. apply (proj2 (H7 _ x Hx)). by exists r.
  - intros p x t Hx Hin. by apply (proj2 (H7 p x Hx)).
  - destruct (reschedule_life k c (proj1 Hk)) as (k' & _ & Hres & _). by exists k'.
  - intros Hne. destruct (exit_life k c Hk Hne) as [Hpre ->].
    destruct (reschedule_life _ c Hpre) as (k' & c' & Hres & _ & Hths & _ & Hdead). exists k'. split; [done|].
    split; [by rewrite Hths|by rewrite Hdead].
  - intros th rest Hdead. split; [|intros k' Hturn; by apply (reap_life k c th rest)].
    destruct (H4' th ltac:(rewrite Hdead; by left)) as [Hst _].
    unfold Sched.destroy_thread, Sched.current_thread, array_get. rewrite (bool_decide_true _ Hst), H2. simpl.
    rewrite bool_decide_true; [done|]. intros ->. congruence.
Qed.
End Life.

(** The example of Process: the program has just exited. *)
Definition idle_thread : Z := 0xd0001000.

Definition one_thread (idle : Z) : sched := {|
  thread_states := <[idle := THREAD_RUNNING]> (fun _ => THREAD_DEAD); cur_thread := [idle];
  ready_q := []; dead_q := []; disable_preempt_count := [0]; trap_kernel_stack := [0]; hw_translation_map := [0] |}.

(** A kernel with its first thread only. *)
Lemma one_thread_life idle proc name_id space t k :
  scheduler k = one_thread idle -> threads k = {[idle := t]} -> thread_proc t = proc ->
  processes k = {[proc := {| process_id := name_id; thread_list := [idle]; proc_space := space |}]} ->
  life_ok idle k idle.
Proof.
  intros Hs Ht Hproc Hp.
  assert (Hst : forall u, thread_states (one_thread idle) u = if decide (u = idle) then THREAD_RUNNING else THREAD_DEAD).
  { intros u. simpl. destruct (decide _) as [->|]; [apply fn_lookup_insert|by rewrite fn_lookup_insert_ne]. }
  split; [constructor|]; rewrite ?Hs, ?Ht, ?Hp; try done.
  - constructor; try setoid_rewrite Hst; simpl.
    + apply NoDup_nil_2.
    + intros u. rewrite elem_of_nil. by destruct (decide _).
    + apply NoDup_singleton.
    + intros u _. by destruct (decide _).
    + intros u. rewrite list_elem_of_singleton. by destruct (decide _).
  - split; [apply NoDup_nil_2|by intros u ?%elem_of_nil].
  - intros u [?%elem_of_nil| ->]; [done|]. rewrite lookup_singleton_eq. by eexists.
  - right. split; [done|]. by rewrite Hst, decide_True.
  - intros p x Hx. apply lookup_singleton_Some in Hx as [<- <-]. simpl. split; [apply NoDup_singleton|].
    intros u. rewrite list_elem_of_singleton. split.
    + intros ->. exists t. by rewrite lookup_singleton_eq.
    + intros (r & Hr & _). apply lookup_singleton_Some in Hr as [<- _]. done.
  - intros u r [<- <-]%lookup_singleton_Some. rewrite Hproc, lookup_singleton_eq. by eexists.
  - by rewrite Hst, decide_True.
Qed.

Lemma boot_life : life_ok idle_thread state_boot idle_thread.
Proof.
  eapply (one_thread_life idle_thread 0xd0000000 0 None); [vm_compute; reflexivity|vm_compute; reflexivity|reflexivity|vm_compute; reflexivity].
Qed.

Lemma program_life : life_run program_handle small_read list_head_address 0xc0002200 idle_thread state_boot idle_thread state_exited.
Proof.
  destruct spawned_eq as [r1 E1], executed_eq as [r2 E2].
  refine (life_next _ _ _ _ _ _ _ state_runs 0xd0006000 _ _ _ _); [|vm_compute; reflexivity|].
  2: { refine (life_exit _ _ _ _ _ _ _ _ _ _); [discriminate|apply ends_state; [unfold state_exited; reflexivity|vm_compute; reflexivity]]. }
  refine (life_next _ _ _ _ _ _ _ state_tick 0xd0003000 _ _ _ _); [|vm_compute; reflexivity|].
  2: { refine (life_tick _ _ _ _ _ _ _ _ _). apply ends_state; [unfold state_runs; reflexivity|vm_compute; reflexivity]. }
  refine (life_next _ _ _ _ _ _ _ state_program idle_thread _ _ _ _); [|vm_compute; reflexivity|].
  2: { refine (life_tick _ _ _ _ _ _ _ _ _). apply ends_state; [unfold state_tick; reflexivity|vm_compute; reflexivity]. }
  refine (life_next _ _ _ _ _ _ _ state_reaper idle_thread _ _ _ _); [|vm_compute; reflexivity|].
  2: { refine (life_exec _ _ _ _ _ _ _ _ _ _ _ _ _ E2); vm_compute; reflexivity. }
  refine (life_next _ _ _ _ _ _ _ state_boot idle_thread _ _ _ _); [|vm_compute; reflexivity|].
  2: { refine (life_spawn _ _ _ _ _ _ _ _ _ _ _ _ _ _ _ _ _ E1). vm_compute. reflexivity. }
  apply life_start. exact boot_life.
Qed.

Lemma threads_accounted_witness :
  life_run program_handle small_read list_head_address 0xc0002200 idle_thread state_boot idle_thread state_exited
  /\ dead_q (scheduler state_exited) = [0xd0006000]
  /\ Sched.destroy_thread 0 0xd0006000 (scheduler state_exited) = Done tt.
Proof.
  split; [exact program_life|].
  assert (Hd : dead_q (scheduler state_exited) = [0xd0006000]) by (vm_compute; reflexivity).
  split; [exact Hd|].
  destruct (threads_accounted program_handle small_read list_head_address 0xc0002200 idle_thread state_boot idle_thread
    state_exited program_life) as (c & _ & _ & _ & _ & _ & _ & _ & Hreap).
  exact (proj1 (Hreap 0xd0006000 [] Hd)).
Defined.
