(* ===== verification/Vga.v ===== *)
(** * Vga: the display (software/libs/libos/bare-metal/vga.c, kernel/vga.c)

    The display hardware is a small processor that makes the synchronization signals
    (hardware/fpga/common/vga_sequencer.sv, vga_controller.sv); the driver compiles its program.
    Here are the compiler, over the interface of registers of SdDriver, and the hardware as an
    instance of it: writing a register, and one clock of the sequencer per pixel.  The
    instruction that runs in a pixel clock is the one at [pc]: the memory was read with the
    current address in the clock before, in which [pixel_en] was off. *)

From S2P Require Export SdDriver KernelDefs.
From stdpp Require Import list.
Import stdpp.list_relations.list.

#[local] Open Scope Z_scope.

(** ** The driver *)

Definition REG_VGA_ENABLE : Z := 0x0180.
Definition REG_VGA_MICROCODE : Z := 0x0184.
Definition REG_VGA_BASE : Z := 0x0188.
Definition REG_VGA_LENGTH : Z := 0x018c.

Definition OP_LOAD : Z := 0.
Definition OP_LOOP : Z := 1.
Definition HCOUNT : Z := 0.
Definition VCOUNT : Z := 1.
Definition F_VISIBLE : Z := 1.
Definition F_NEW_FRAME : Z := 2.
Definition F_HSYNC : Z := 4.
Definition F_VSYNC : Z := 8.
Definition FB_BASE : Z := 0x200000.

Inductive vga_mode := VGA_MODE_640x480 | VGA_MODE_640x400.

#[export]
Instance vga_mode_enum : CEnum vga_mode.
Proof.
  refine {|
    enum_value := fun m => match m with VGA_MODE_640x480 => 0 | VGA_MODE_640x400 => 1 end;
    enum_all := [VGA_MODE_640x480; VGA_MODE_640x400] |}; solve_enum.
Defined.

(** The parameters of [compile_microcode]. *)
Record timing := {
  hfp : Z; hs : Z; hbp : Z; hpol : bool; hres : Z;
  vfp : Z; vs : Z; vbp : Z; vpol : bool; vres : Z
}.

(** The word [emit_op] stores. *)
Definition microinstruction (opcode counter_index value flags : Z) : Z :=
  u32 (Z.lor (Z.lor (Z.lor (Z.shiftl opcode 18) (Z.shiftl counter_index 17)) (Z.shiftl value 4)) flags).

Section Driver.

Context {B : Type} {registers : Registers B}.

Record ucode_state := { ucode_emit_pc : Z; ucode_sync_flags : Z; ucode_board : B }.

#[export]
Instance ucode_state_fields : Fields ucode_state := fun s =>
  Build_ucode_state (ucode_emit_pc s) (ucode_sync_flags s) (ucode_board s).

Definition emit_op (opcode counter_index value : Z) (s : ucode_state) : result ucode_state :=
  b <-- register_write REG_VGA_MICROCODE (microinstruction opcode counter_index value (ucode_sync_flags s)) (ucode_board s);;
  Done (s <| ucode_board := b |> <| ucode_emit_pc ::= Z.add 1 |>).

Definition flip (flag : Z) (s : ucode_state) : ucode_state := s <| ucode_sync_flags ::= Z.lxor flag |>.

(** Load a counter and loop on the spot. *)
Definition emit_count (count : Z) (s : ucode_state) : result ucode_state :=
  s <-- emit_op OP_LOAD HCOUNT (count - 1) s;;
  emit_op OP_LOOP HCOUNT (ucode_emit_pc s) s.

Definition emit_scanline (hfp hs hbp hres : Z) (visible : bool) (s : ucode_state) : result ucode_state :=
  s <-- emit_count hfp s;;
  s <-- emit_count hs (flip F_HSYNC s);;
  s <-- emit_count hbp (flip F_HSYNC s);;
  s <-- emit_count hres (if visible then flip F_VISIBLE s else s);;
  Done (if visible then flip F_VISIBLE s else s).

(** [count] scan lines. *)
Definition emit_lines (count : Z) (t : timing) (visible : bool) (s : ucode_state) : result ucode_state :=
  s <-- emit_op OP_LOAD VCOUNT count s;;
  let v_loop_top := ucode_emit_pc s in
  s <-- emit_scanline (hfp t) (hs t) (hbp t) (hres t) visible s;;
  emit_op OP_LOOP VCOUNT v_loop_top s.

Definition initial_sync_flags (t : timing) : Z := Z.lor (if vpol t then 0 else F_VSYNC) (if hpol t then 0 else F_HSYNC).

(** The compiler, which is the same in the kernel. *)
Definition compile_microcode (t : timing) (b : B) : result B :=
  let s := {| ucode_emit_pc := 0; ucode_sync_flags := initial_sync_flags t; ucode_board := b |} in
  s <-- emit_lines (vfp t) t false s;;
  s <-- emit_lines (vs t) t false (flip F_VSYNC s);;
  s <-- emit_lines (vbp t) t false (flip F_VSYNC s);;
  s <-- emit_lines (vres t) t true s;;
  register_write REG_VGA_MICROCODE (Z.lor (ucode_sync_flags s) F_NEW_FRAME) (ucode_board s).

(** What compile_microcode of libs/libos does around it. *)
Definition load_and_enable (t : timing) (b : B) : result B :=
  b <-- register_write REG_VGA_ENABLE 0 b;;
  b <-- compile_microcode t b;;
  b <-- register_write REG_VGA_BASE FB_BASE b;;
  b <-- register_write REG_VGA_LENGTH (u32 (hres t * vres t)) b;;
  register_write REG_VGA_ENABLE 1 b.

Definition mode_timing (m : vga_mode) : timing :=
  match m with
  | VGA_MODE_640x480 => {| hfp := 16; hs := 96; hbp := 48; hpol := false; hres := 640;
                           vfp := 10; vs := 2; vbp := 33; vpol := false; vres := 480 |}
  | VGA_MODE_640x400 => {| hfp := 16; hs := 96; hbp := 48; hpol := false; hres := 640;
                           vfp := 12; vs := 2; vbp := 35; vpol := true; vres := 400 |}
  end.

(** 0 is the null pointer. *)
Definition init_vga (mode : Z) (b : B) : result (Z * B) :=
  match enum_of_Z mode with
  | None => Done (0, b)
  | Some m => b <-- load_and_enable (mode_timing m) b;; Done (FB_BASE, b)
  end.

End Driver.

Arguments ucode_state : clear implicits.

(** ** The hardware *)

Definition MAX_INSTRUCTIONS : nat := 48.

(** vga_sequencer and the registers of vga_controller. *)
Record sequencer := {
  instruction_memory : list Z;
  counters : Z * Z;
  program_counter : nat;
  prog_load_addr : nat;
  sequencer_en : bool;
  fb_base_address : Z;
  fb_length : Z
}.

#[export]
Instance sequencer_fields : Fields sequencer := fun s =>
  Build_sequencer (instruction_memory s) (counters s) (program_counter s) (prog_load_addr s)
    (sequencer_en s) (fb_base_address s) (fb_length s).

(** A register write is also a clock: while the sequencer is on, the load address stays 0. *)
Definition sequencer_write (reg v : Z) (s : sequencer) : sequencer :=
  let enabled := sequencer_en s in
  let s' := if enabled then s <| prog_load_addr := O |> else s in
  if reg =? REG_VGA_ENABLE then s' <| sequencer_en := Z.testbit v 0 |>
  else if reg =? REG_VGA_MICROCODE then
    let s' := s' <| instruction_memory ::= <[prog_load_addr s := Z.land v (Z.ones 19)]> |> in
    if enabled then s'
    else s' <| program_counter := O |> <| prog_load_addr ::= fun a => Nat.modulo (S a) 64 |>
  else if reg =? REG_VGA_BASE then s' <| fb_base_address := v |>
  else if reg =? REG_VGA_LENGTH then s' <| fb_length := v |>
  else s'.

#[export]
Instance sequencer_registers : Registers sequencer := {
  register_write reg v s := Done (sequencer_write reg v s);
  register_read _ s := Done (0, s);
  register_polls := O
}.

(** The fields of a microinstruction. *)
Definition uop_loops (uop : Z) : bool := Z.testbit uop 18.
Definition uop_counter (uop : Z) : bool := Z.testbit uop 17.
Definition uop_immediate (uop : Z) : Z := Z.land (Z.shiftr uop 4) (Z.ones 13).

(** What the sequencer drives in a pixel clock. *)
Record signals := { vga_vs : bool; vga_hs : bool; in_visible_region : bool; start_frame : bool }.

Definition uop_signals (uop : Z) (first : bool) : signals :=
  {| vga_vs := Z.testbit uop 3; vga_hs := Z.testbit uop 2; in_visible_region := Z.testbit uop 0; start_frame := first |}.

Definition get_counter (vertical : bool) (c : Z * Z) : Z := if vertical then c.2 else c.1.
Definition set_counter (vertical : bool) (v : Z) (c : Z * Z) : Z * Z := if vertical then (c.1, v) else (v, c.2).

(** A pixel clock of the enabled sequencer; [None] is an address outside the memory. *)
Definition pixel_clock (s : sequencer) : option (signals * sequencer) :=
  uop ← instruction_memory s !! program_counter s;
  let counter_nxt := if uop_loops uop then Z.modulo (get_counter (uop_counter uop) (counters s) - 1) (2 ^ 13)
                     else uop_immediate uop in
  let branch_en := Z.testbit uop 1 || uop_loops uop && negb (counter_nxt =? 0) in
  let pc_nxt := if branch_en then Z.to_nat (Z.land (uop_immediate uop) (Z.ones 6)) else Nat.modulo (S (program_counter s)) 64 in
  Some (uop_signals uop (bool_decide (program_counter s = O)),
        s <| counters ::= set_counter (uop_counter uop) counter_nxt |> <| program_counter := pc_nxt |>).

Fixpoint pixel_clocks (n : nat) (s : sequencer) : option (list signals * sequencer) :=
  match n with
  | O => Some ([], s)
  | S n' => '(x, s) ← pixel_clock s; '(l, s) ← pixel_clocks n' s; Some (x :: l, s)
  end.

(** ** What the display should see *)

(** The signals outside ([v], [h] off) and inside the synchronization pulses. *)
Definition sync_signals (t : timing) (v h visible : bool) : signals :=
  {| vga_vs := xorb v (negb (vpol t)); vga_hs := xorb h (negb (hpol t)); in_visible_region := visible; start_frame := false |}.

Definition clocks {A} (n : Z) (x : A) : list A := replicate (Z.to_nat n) x.

Definition scan_line (t : timing) (v visible : bool) : list signals :=
  clocks (hfp t) (sync_signals t v false false) ++ clocks (hs t) (sync_signals t v true false)
  ++ clocks (hbp t) (sync_signals t v false false) ++ clocks (hres t) (sync_signals t v false visible).

(** A clock to load the counter, and after each line one to count it. *)
Definition scan_lines (t : timing) (n : Z) (v visible : bool) : list signals :=
  let pause := sync_signals t v false false in
  pause :: concat (clocks n (scan_line t v visible ++ [pause])).

Definition starting (l : list signals) : list signals :=
  match l with
  | [] => []
  | x :: l => {| vga_vs := vga_vs x; vga_hs := vga_hs x; in_visible_region := in_visible_region x; start_frame := true |} :: l
  end.

Definition frame (t : timing) : list signals :=
  starting (scan_lines t (vfp t) false false ++ scan_lines t (vs t) true false ++ scan_lines t (vbp t) false false
            ++ scan_lines t (vres t) false true ++ [sync_signals t false false false]).

(** How many clocks of [l] have a signal. *)
Definition count_signal (signal : signals -> bool) (l : list signals) : Z :=
  Z.of_nat (length (base.filter (fun x => signal x = true) l)).

Record timing_ok (t : timing) : Prop := {
  ok_hfp : 2 <= hfp t <= 2 ^ 13;
  ok_hs : 2 <= hs t <= 2 ^ 13;
  ok_hbp : 2 <= hbp t <= 2 ^ 13;
  ok_hres : 2 <= hres t <= 2 ^ 13;
  ok_vfp : 1 <= vfp t < 2 ^ 13;
  ok_vs : 1 <= vs t < 2 ^ 13;
  ok_vbp : 1 <= vbp t < 2 ^ 13;
  ok_vres : 1 <= vres t < 2 ^ 13
}.

(** A program written now starts at address 0: holds after reset, and again after any upload. *)
Definition upload_ready (s : sequencer) : Prop :=
  length (instruction_memory s) = MAX_INSTRUCTIONS /\ (sequencer_en s = true \/ prog_load_addr s = O).

(** ** Microinstructions *)

Lemma microinstruction_sum op c v f :
  0 <= op <= 1 -> 0 <= c <= 1 -> 0 <= v < 2 ^ 13 -> 0 <= f < 2 ^ 4 ->
  microinstruction op c v f = op * 2 ^ 18 + c * 2 ^ 17 + v * 2 ^ 4 + f.
Proof.
  intros. unfold microinstruction. rewrite <- !Z.lor_assoc.
  rewrite (lor_shiftl_add v 4), (lor_shiftl_add c 17), (lor_shiftl_add op 18) by (unfold is_unsigned; lia).
  rewrite u32_small; lia.
Qed.

Lemma microinstruction_decode op c v f :
  0 <= op <= 1 -> 0 <= c <= 1 -> 0 <= v < 2 ^ 13 -> 0 <= f < 2 ^ 4 ->
  let u := microinstruction op c v f in
  uop_loops u = (op =? 1) /\ uop_counter u = (c =? 1) /\ uop_immediate u = v
  /\ (forall b, 0 <= b < 4 -> Z.testbit u b = Z.testbit f b) /\ Z.land u (Z.ones 19) = u.
Proof.
  intros Hop Hc Hv Hf. cbv zeta. rewrite microinstruction_sum by done. unfold uop_loops, uop_counter, uop_immediate.
  assert (Hbit : forall a b n, 0 <= n -> (a / 2 ^ n) mod 2 = Z.b2z b -> Z.testbit a n = b).
  { intros a b n Hn E. apply Z.b2z_inj. by rewrite Z.testbit_spec'. }
  repeat split.
  - apply Hbit; [lia|]. destruct (Z.eqb_spec op 1); simpl Z.b2z; Z.div_mod_to_equations; lia.
  - apply Hbit; [lia|]. destruct (Z.eqb_spec c 1); simpl Z.b2z; Z.div_mod_to_equations; lia.
  - rewrite Z.land_ones, Z.shiftr_div_pow2 by lia. Z.div_mod_to_equations. lia.
  - intros b Hb. apply Hbit; [lia|]. rewrite Z.testbit_spec' by lia.
    assert (b = 0 \/ b = 1 \/ b = 2 \/ b = 3) as [->|[->|[->| ->]]] by lia; Z.div_mod_to_equations; lia.
  - rewrite Z.land_ones by lia. apply Z.mod_small. lia.
Qed.

(** ** The program *)

Definition scanline_words (t : timing) (p : nat) (f : Z) (visible : bool) : list Z :=
  let at_ i := Z.of_nat (p + i) in
  let g := Z.lxor F_HSYNC f in
  let d := if visible then Z.lxor F_VISIBLE f else f in
  [microinstruction OP_LOAD HCOUNT (hfp t - 1) f; microinstruction OP_LOOP HCOUNT (at_ 1%nat) f;
   microinstruction OP_LOAD HCOUNT (hs t - 1) g; microinstruction OP_LOOP HCOUNT (at_ 3%nat) g;
   microinstruction OP_LOAD HCOUNT (hbp t - 1) f; microinstruction OP_LOOP HCOUNT (at_ 5%nat) f;
   microinstruction OP_LOAD HCOUNT (hres t - 1) d; microinstruction OP_LOOP HCOUNT (at_ 7%nat) d].

Definition lines_words (t : timing) (p : nat) (n f : Z) (visible : bool) : list Z :=
  microinstruction OP_LOAD VCOUNT n f :: scanline_words t (S p) f visible
  ++ [microinstruction OP_LOOP VCOUNT (Z.of_nat (S p)) f].

Definition microcode (t : timing) : list Z :=
  let f := initial_sync_flags t in
  lines_words t 0 (vfp t) f false ++ lines_words t 10 (vs t) (Z.lxor F_VSYNC f) false
  ++ lines_words t 20 (vbp t) f false ++ lines_words t 30 (vres t) f true ++ [Z.lor f F_NEW_FRAME].

Record flags_ok (f : Z) : Prop := { flags_range : 0 <= f < 2 ^ 4; flags_same_frame : Z.testbit f 1 = false }.

Lemma initial_flags_ok t : flags_ok (initial_sync_flags t).
Proof. unfold initial_sync_flags. by destruct (vpol t), (hpol t). Qed.

Lemma flip_flags_ok t (v h d : bool) :
  flags_ok (Z.lxor (if d then F_VISIBLE else 0) (Z.lxor (if h then F_HSYNC else 0) (Z.lxor (if v then F_VSYNC else 0) (initial_sync_flags t))))
  /\ uop_signals (Z.lxor (if d then F_VISIBLE else 0) (Z.lxor (if h then F_HSYNC else 0) (Z.lxor (if v then F_VSYNC else 0) (initial_sync_flags t)))) false
     = sync_signals t v h d.
Proof.
  unfold initial_sync_flags, sync_signals. destruct (vpol t), (hpol t), v, h, d; (split; [split; [vm_decide|]|]; reflexivity).
Qed.

Lemma flip_twice a f : Z.lxor a (Z.lxor a f) = f.
Proof. by rewrite <- Z.lxor_assoc, Z.lxor_nilpotent, Z.lxor_0_l. Qed.

Section Loading.

Context (t : timing) (base : sequencer) (Ht : timing_ok t) (Hbase : upload_ready base) (Hoff : sequencer_en base = false).

Definition loaded (ws : list Z) : sequencer :=
  base <| instruction_memory := ws ++ drop (length ws) (instruction_memory base) |>
       <| prog_load_addr := length ws |>
       <| program_counter := match ws with [] => program_counter base | _ => O end |>.

Definition emitted (f : Z) (ws : list Z) : ucode_state sequencer :=
  {| ucode_emit_pc := Z.of_nat (length ws); ucode_sync_flags := f; ucode_board := loaded ws |}.

Lemma write_loaded w ws :
  (length ws < MAX_INSTRUCTIONS)%nat -> Z.land w (Z.ones 19) = w ->
  sequencer_write REG_VGA_MICROCODE w (loaded ws) = loaded (ws ++ [w]).
Proof.
  intros Hlen Hw. unfold sequencer_write. simpl. rewrite Hoff, Hw. unfold loaded, update. simpl. rewrite Hoff.
  assert (HS : (S (length ws) `mod` 64)%nat = S (length ws)) by (apply Nat.mod_small; unfold MAX_INSTRUCTIONS in Hlen; lia).
  destruct Hbase as [Hmem _].
  destruct (lookup_lt_is_Some_2 (instruction_memory base) (length ws)) as [x Hx]; [by rewrite Hmem|].
  f_equal.
  - rewrite insert_app_r_alt, Nat.sub_diag, length_app, <- app_assoc by done. f_equal.
    rewrite (drop_S _ x) by done. simpl. by rewrite Nat.add_1_r.
  - by destruct ws.
  - rewrite length_app. simpl in *. lia.
Qed.

Lemma emit_op_loaded op c v f ws :
  (length ws < MAX_INSTRUCTIONS)%nat -> 0 <= op <= 1 -> 0 <= c <= 1 -> 0 <= v < 2 ^ 13 -> flags_ok f ->
  emit_op op c v (emitted f ws) = Done (emitted f (ws ++ [microinstruction op c v f])).
Proof.
  intros Hlen Hop Hc Hv Hf. destruct (microinstruction_decode op c v f Hop Hc Hv (flags_range f Hf)) as (_ & _ & _ & _ & Hw).
  unfold emit_op. cbn [register_write sequencer_registers bind_result]. unfold emitted at 1 2. cbn [ucode_board ucode_sync_flags].
  rewrite write_loaded by done. unfold emitted, update. simpl. rewrite length_app. simpl. do 2 f_equal. lia.
Qed.

Lemma emitted_pc f ws : ucode_emit_pc (emitted f ws) = Z.of_nat (length ws).
Proof. done. Qed.

Lemma emit_count_loaded n f ws :
  (length ws + 2 <= MAX_INSTRUCTIONS)%nat -> 2 <= n <= 2 ^ 13 -> flags_ok f ->
  emit_count n (emitted f ws) = Done (emitted f (ws ++ [microinstruction OP_LOAD HCOUNT (n - 1) f;
    microinstruction OP_LOOP HCOUNT (Z.of_nat (length ws + 1)) f])).
Proof.
  intros Hlen Hn Hf. unfold emit_count, OP_LOAD, OP_LOOP, HCOUNT, MAX_INSTRUCTIONS in *.
  rewrite emit_op_loaded by (unfold MAX_INSTRUCTIONS; try done; lia). cbn [bind_result].
  rewrite emitted_pc, emit_op_loaded by (rewrite ?length_app; cbn [length]; unfold MAX_INSTRUCTIONS; try done; lia).
  rewrite length_app, <- app_assoc. simpl. done.
Qed.

Lemma flip_emitted a f ws : flip a (emitted f ws) = emitted (Z.lxor a f) ws.
Proof. done. Qed.

Lemma emit_scanline_loaded (v visible : bool) ws :
  let f := Z.lxor (if v then F_VSYNC else 0) (initial_sync_flags t) in
  (length ws + 8 <= MAX_INSTRUCTIONS)%nat ->
  emit_scanline (hfp t) (hs t) (hbp t) (hres t) visible (emitted f ws) = Done (emitted f (ws ++ scanline_words t (length ws) f visible)).
Proof.
  intros f Hlen. destruct Ht. unfold emit_scanline.
  pose proof (proj1 (flip_flags_ok t v false false)) as H0. pose proof (proj1 (flip_flags_ok t v true false)) as H1.
  pose proof (proj1 (flip_flags_ok t v false visible)) as H2. fold f in H0, H1, H2. cbn [Z.lxor] in H0, H1.
  rewrite emit_count_loaded by (try done; lia). cbn [bind_result].
  rewrite flip_emitted, emit_count_loaded by (rewrite ?length_app; simpl; try done; lia). cbn [bind_result].
  rewrite flip_emitted, flip_twice, emit_count_loaded by (rewrite ?length_app; simpl; try done; lia). cbn [bind_result].
  set (ws3 := _ ++ [_; _]).
  assert (Hend : emit_count (hres t) (emitted (if visible then Z.lxor F_VISIBLE f else f) ws3)
    = Done (emitted (if visible then Z.lxor F_VISIBLE f else f) (ws ++ scanline_words t (length ws) f visible))).
  { rewrite emit_count_loaded; [|unfold ws3; rewrite !length_app; simpl; lia|done|by destruct visible].
    unfold ws3. rewrite !length_app, <- !app_assoc. simpl. unfold scanline_words.
    by rewrite <- !Nat.add_assoc. }
  destruct visible; [rewrite flip_emitted|]; rewrite Hend; cbn [bind_result]; [|done].
  by rewrite flip_emitted, flip_twice.
Qed.

Lemma emit_lines_loaded n (v visible : bool) ws :
  let f := Z.lxor (if v then F_VSYNC else 0) (initial_sync_flags t) in
  (length ws + 10 <= MAX_INSTRUCTIONS)%nat -> 1 <= n < 2 ^ 13 ->
  emit_lines n t visible (emitted f ws) = Done (emitted f (ws ++ lines_words t (length ws) n f visible)).
Proof.
  intros f Hlen Hn. unfold emit_lines, MAX_INSTRUCTIONS in *.
  pose proof (proj1 (flip_flags_ok t v false false)) as Hf. fold f in Hf. cbn [Z.lxor] in Hf.
  rewrite emit_op_loaded by (unfold MAX_INSTRUCTIONS, OP_LOAD, VCOUNT; try done; lia). cbn [bind_result]. cbv zeta.
  rewrite emitted_pc. pose proof (emit_scanline_loaded v visible (ws ++ [microinstruction OP_LOAD VCOUNT n f])) as Hline.
  cbv zeta in Hline. fold f in Hline. rewrite Hline by (rewrite length_app; simpl; unfold MAX_INSTRUCTIONS; lia). cbn [bind_result].
  rewrite emit_op_loaded by (rewrite ?length_app; simpl; unfold MAX_INSTRUCTIONS, OP_LOOP, VCOUNT; try done; lia).
  rewrite !length_app, <- !app_assoc. simpl. by rewrite !(Nat.add_1_r (length ws)).
Qed.

Lemma compile_loads : compile_microcode t base = Done (loaded (microcode t)).
Proof.
  destruct Ht. unfold compile_microcode. cbv zeta.
  assert (Hstart : {| ucode_emit_pc := 0; ucode_sync_flags := initial_sync_flags t; ucode_board := base |}
    = emitted (Z.lxor 0 (initial_sync_flags t)) []).
  { unfold emitted, loaded, update. simpl. f_equal. destruct base as [m c p a e b l]. simpl in *.
    destruct Hbase as [_ [Hb|Ha]]; simpl in *; [congruence|by rewrite Ha]. }
  rewrite Hstart.
  rewrite (emit_lines_loaded (vfp t) false false) by (simpl; unfold MAX_INSTRUCTIONS; lia). cbn [bind_result].
  rewrite flip_emitted, (emit_lines_loaded (vs t) true false) by (simpl; unfold MAX_INSTRUCTIONS; lia). cbn [bind_result].
  rewrite flip_emitted, flip_twice, (emit_lines_loaded (vbp t) false false) by (simpl; unfold MAX_INSTRUCTIONS; lia). cbn [bind_result].
  rewrite (emit_lines_loaded (vres t) false true) by (simpl; unfold MAX_INSTRUCTIONS; lia). cbn [bind_result].
  cbn [register_write sequencer_registers]. unfold emitted. cbn [ucode_board ucode_sync_flags].
  rewrite write_loaded; [|simpl; unfold MAX_INSTRUCTIONS; lia|].
  - done.
  - unfold initial_sync_flags. by destruct (vpol t), (hpol t).
Qed.

End Loading.

(** ** The run *)

(** The sequencer drives [l] in as many clocks. *)
Definition runs (s : sequencer) (l : list signals) (s' : sequencer) : Prop := pixel_clocks (length l) s = Some (l, s').

Lemma runs_cons s x s1 l s2 : pixel_clock s = Some (x, s1) -> runs s1 l s2 -> runs s (x :: l) s2.
Proof. unfold runs. intros H1 H2. simpl. rewrite H1. simpl. by rewrite H2. Qed.

Lemma runs_one s x s' : pixel_clock s = Some (x, s') -> runs s [x] s'.
Proof. unfold runs. simpl. by intros ->. Qed.

Lemma runs_app s l1 s1 l2 s2 : runs s l1 s1 -> runs s1 l2 s2 -> runs s (l1 ++ l2) s2.
Proof.
  revert s. induction l1 as [|x l1 IH]; intros s H1 H2; [by injection H1 as ->|].
  unfold runs in H1. simpl in H1. destruct (pixel_clock s) as [[y s']|] eqn:Ey; [|done]. simpl in H1.
  destruct (pixel_clocks (length l1) s') as [[l s'']|] eqn:El; [|done]. simpl in H1.
  injection H1 as -> -> ->. apply (runs_cons _ _ s'); [done|]. by apply IH.
Qed.

Section Running.

Context (base : sequencer).

Definition running (p : nat) (h v : Z) : sequencer := base <| counters := (h, v) |> <| program_counter := p |>.

Definition code_at (p : nat) (l : list Z) : Prop := forall i w, l !! i = Some w -> instruction_memory base !! (p + i)%nat = Some w.

Lemma code_at_app p l1 l2 : code_at p (l1 ++ l2) -> code_at p l1 /\ code_at (p + length l1) l2.
Proof.
  intros H. split.
  - intros i w Hi. apply H. by apply lookup_app_l_Some.
  - intros i w Hi. rewrite <- Nat.add_assoc. apply H. rewrite lookup_app_r by lia. by rewrite Nat.add_comm, Nat.add_sub.
Qed.

Lemma code_at_cons p w l : code_at p (w :: l) -> instruction_memory base !! p = Some w /\ code_at (S p) l.
Proof.
  intros H. split; [rewrite <- (Nat.add_0_r p); by apply H|].
  intros i x Hi. replace (S p + i)%nat with (p + S i)%nat by lia. by apply H.
Qed.

(** The clock at a microinstruction of known fields. *)
Lemma clock_at p w h v :
  instruction_memory base !! p = Some w ->
  pixel_clock (running p h v) =
    let n := if uop_loops w then Z.modulo (get_counter (uop_counter w) (h, v) - 1) (2 ^ 13) else uop_immediate w in
    Some (uop_signals w (bool_decide (p = O)),
      running (if Z.testbit w 1 || uop_loops w && negb (n =? 0) then Z.to_nat (Z.land (uop_immediate w) (Z.ones 6)) else Nat.modulo (S p) 64)
        (set_counter (uop_counter w) n (h, v)).1 (set_counter (uop_counter w) n (h, v)).2).
Proof.
  intros Hw. unfold pixel_clock. change (instruction_memory (running p h v)) with (instruction_memory base).
  change (program_counter (running p h v)) with p. rewrite Hw. cbv zeta. cbn [mbind option_bind].
  unfold running, update. cbn [counters]. by destruct (uop_counter w).
Qed.

Lemma load_clock p c n f h v :
  instruction_memory base !! p = Some (microinstruction OP_LOAD c n f) ->
  0 <= c <= 1 -> 0 <= n < 2 ^ 13 -> flags_ok f -> (S p < 64)%nat ->
  pixel_clock (running p h v) = Some (uop_signals f (bool_decide (p = O)),
    running (S p) (if c =? 1 then h else n) (if c =? 1 then n else v)).
Proof.
  intros Hw Hc Hn [Hf Hf1] Hp. destruct (microinstruction_decode OP_LOAD c n f) as (H1 & H2 & H3 & H4 & _); [unfold OP_LOAD; lia|done..|].
  rewrite (clock_at _ _ _ _ Hw), H1, H2, H3, (H4 1), Hf1, Nat.mod_small by lia.
  unfold uop_signals. rewrite !H4 by lia. by destruct (c =? 1).
Qed.

Lemma loop_clock p c d f h v :
  instruction_memory base !! p = Some (microinstruction OP_LOOP c (Z.of_nat d) f) ->
  0 <= c <= 1 -> (d < 64)%nat -> flags_ok f -> (0 < p)%nat -> (S p < 64)%nat ->
  let n := (if c =? 1 then v else h) - 1 in
  0 <= n < 2 ^ 13 ->
  pixel_clock (running p h v) = Some (uop_signals f false,
    running (if n =? 0 then S p else d) (if c =? 1 then h else n) (if c =? 1 then n else v)).
Proof.
  intros Hw Hc Hd [Hf Hf1] Hp0 Hp n Hn. destruct (microinstruction_decode OP_LOOP c (Z.of_nat d) f) as (H1 & H2 & H3 & H4 & _); [unfold OP_LOOP; lia|done|lia|done|].
  rewrite (clock_at _ _ _ _ Hw), H1, H2, H3, (H4 1), Hf1, Nat.mod_small by lia.
  unfold uop_signals. rewrite !H4, bool_decide_false by lia. cbv zeta. change (OP_LOOP =? 1) with true. cbn [orb andb].
  assert (Hnext : (get_counter (c =? 1) (h, v) - 1) mod 2 ^ 13 = n)
    by (unfold n in *; destruct (c =? 1); simpl; by apply Z.mod_small).
  rewrite Hnext,  Z.land_ones, Z.mod_small by lia. rewrite Nat2Z.id.
  destruct (n =? 0), (c =? 1); done.
Qed.

(** A [LOOP] on the spot. *)
Lemma spin p f k v :
  instruction_memory base !! p = Some (microinstruction OP_LOOP HCOUNT (Z.of_nat p) f) ->
  flags_ok f -> (0 < p)%nat -> (S p < 64)%nat -> (1 <= k)%nat -> Z.of_nat k < 2 ^ 13 ->
  runs (running p (Z.of_nat k) v) (replicate k (uop_signals f false)) (running (S p) 0 v).
Proof.
  intros Hw Hf Hp0 Hp. induction k as [|k IH]; intros Hk Hk'; [lia|]. simpl replicate.
  pose proof (loop_clock p HCOUNT p f (Z.of_nat (S k)) v Hw ltac:(unfold HCOUNT; lia) ltac:(lia) Hf Hp0 Hp) as Hclock.
  unfold HCOUNT in Hclock. cbv zeta in Hclock. change (0 =? 1) with false in Hclock. cbv iota in Hclock.
  replace (Z.of_nat (S k) - 1) with (Z.of_nat k) in Hclock by lia. eapply runs_cons; [apply Hclock; lia|].
  destruct k as [|k]; [done|]. rewrite (proj2 (Z.eqb_neq (Z.of_nat (S k)) 0)) by lia. apply IH; lia.
Qed.

(** [emit_count]: a signal for [n] clocks. *)
Lemma count_run p n f h v rest :
  code_at p (microinstruction OP_LOAD HCOUNT (n - 1) f :: microinstruction OP_LOOP HCOUNT (Z.of_nat (S p)) f :: rest) ->
  2 <= n <= 2 ^ 13 -> flags_ok f -> (0 < p)%nat -> (p < 60)%nat ->
  runs (running p h v) (clocks n (uop_signals f false)) (running (S (S p)) 0 v) /\ code_at (S (S p)) rest.
Proof.
  intros Hcode Hn Hf Hp0 Hp. apply code_at_cons in Hcode as [H1 [H2 H3]%code_at_cons]. split; [|done].
  unfold clocks. replace (Z.to_nat n) with (S (Z.to_nat (n - 1))) by lia. simpl replicate.
  eapply runs_cons.
  - rewrite (load_clock p HCOUNT (n - 1) f h v H1), bool_decide_false by (unfold HCOUNT; try done; lia). done.
  - change (HCOUNT =? 1) with false. cbv iota. rewrite <- (Z2Nat.id (n - 1)) at 1 by lia.
    apply spin; try done; lia.
Qed.

Context (t : timing) (Ht : timing_ok t).

Lemma line_run p (v visible : bool) h c :
  let f := Z.lxor (if v then F_VSYNC else 0) (initial_sync_flags t) in
  code_at p (scanline_words t p f visible) -> (0 < p)%nat -> (p < 50)%nat ->
  runs (running p h c) (scan_line t v visible) (running (p + 8) 0 c).
Proof.
  intros f Hcode Hp0 Hp. destruct Ht.
  destruct (flip_flags_ok t v false false) as [G0 S0]. destruct (flip_flags_ok t v true false) as [G1 S1].
  destruct (flip_flags_ok t v false visible) as [G2 S2]. fold f in G0, G1, G2, S0, S1, S2. cbv iota in *.
  rewrite !Z.lxor_0_l in *.
  assert (E : (if visible then Z.lxor F_VISIBLE f else f) = Z.lxor (if visible then F_VISIBLE else 0) f) by by destruct visible.
  unfold scanline_words in Hcode. rewrite E in Hcode.
  replace (p + 1)%nat with (S p) in Hcode by lia. replace (p + 3)%nat with (S (S (S p))) in Hcode by lia.
  replace (p + 5)%nat with (S (S (S (S (S p))))) in Hcode by lia. replace (p + 7)%nat with (S (S (S (S (S (S (S p))))))) in Hcode by lia.
  destruct (count_run p (hfp t) f h c _ Hcode) as [R1 C1]; [done|done|lia|lia|].
  destruct (count_run _ (hs t) _ 0 c _ C1) as [R2 C2]; [done|done|lia|lia|].
  destruct (count_run _ (hbp t) f 0 c _ C2) as [R3 C3]; [done|done|lia|lia|].
  destruct (count_run _ (hres t) _ 0 c _ C3) as [R4 _]; [done|done|lia|lia|].
  rewrite S0 in R1, R3. rewrite S1 in R2. rewrite S2 in R4. unfold scan_line.
  replace (p + 8)%nat with (S (S (S (S (S (S (S (S p)))))))) by lia.
  eapply runs_app; [exact R1|]. eapply runs_app; [exact R2|]. eapply runs_app; [exact R3|exact R4].
Qed.

Lemma lines_loop p (v visible : bool) k h :
  let f := Z.lxor (if v then F_VSYNC else 0) (initial_sync_flags t) in
  code_at p (scanline_words t p f visible ++ [microinstruction OP_LOOP VCOUNT (Z.of_nat p) f]) ->
  (0 < p)%nat -> (p < 50)%nat -> (1 <= k)%nat -> Z.of_nat k < 2 ^ 13 ->
  runs (running p h (Z.of_nat k))
    (concat (replicate k (scan_line t v visible ++ [sync_signals t v false false]))) (running (p + 9) 0 0).
Proof.
  intros f Hcode Hp0 Hp. apply code_at_app in Hcode as [Hline [Hloop _]%code_at_cons]. cbn [length scanline_words] in Hloop.
  destruct (flip_flags_ok t v false false) as [G S]. fold f in G, S. cbv iota in *. rewrite !Z.lxor_0_l in *.
  revert h. induction k as [|k IH]; intros h Hk Hk'; [lia|]. simpl replicate. simpl concat.
  pose proof (loop_clock (p + 8) VCOUNT p f 0 (Z.of_nat (Datatypes.S k)) Hloop ltac:(unfold VCOUNT; lia) ltac:(lia) G ltac:(lia) ltac:(lia)) as Hclock.
  cbv zeta in Hclock. change (VCOUNT =? 1) with true in Hclock. cbv iota in Hclock.
  replace (Z.of_nat (Datatypes.S k) - 1) with (Z.of_nat k) in Hclock by lia. specialize (Hclock ltac:(lia)).
  eapply runs_app; [eapply runs_app; [by apply line_run|]; rewrite <- S; apply runs_one; exact Hclock|].
  destruct k as [|k].
  - simpl. by replace (Datatypes.S (p + 8)) with (p + 9)%nat by lia.
  - rewrite (proj2 (Z.eqb_neq (Z.of_nat (Datatypes.S k)) 0)) by lia. apply (IH 0); lia.
Qed.

(** A group of lines, which is the start of the frame when it is the first. *)
Lemma lines_run p n (v visible : bool) h c :
  let f := Z.lxor (if v then F_VSYNC else 0) (initial_sync_flags t) in
  code_at p (lines_words t p n f visible) -> (p < 40)%nat -> 1 <= n < 2 ^ 13 ->
  runs (running p h c) (match p with O => starting | S _ => id end (scan_lines t n v visible)) (running (p + 10) 0 0).
Proof.
  intros f Hcode Hp Hn. apply code_at_cons in Hcode as [Hload Hcode].
  destruct (flip_flags_ok t v false false) as [G S]. fold f in G, S. cbv iota in *. rewrite !Z.lxor_0_l in *.
  pose proof (load_clock p VCOUNT n f h c Hload ltac:(unfold VCOUNT; lia) ltac:(lia) G ltac:(lia)) as Hclock.
  change (VCOUNT =? 1) with true in Hclock. cbv iota in Hclock.
  pose proof (lines_loop (Datatypes.S p) v visible (Z.to_nat n) h Hcode ltac:(lia) ltac:(lia) ltac:(lia) ltac:(lia)) as Hrun.
  rewrite Z2Nat.id in Hrun by lia. replace (Datatypes.S p + 9)%nat with (p + 10)%nat in Hrun by lia.
  destruct p as [|p]; (eapply runs_cons; [rewrite Hclock, ?(bool_decide_false (Datatypes.S p = O)) by done|exact Hrun]).
  - rewrite bool_decide_true by done. unfold starting, uop_signals. by rewrite <- S.
  - by rewrite S.
Qed.

Lemma frame_run h c : code_at 0 (microcode t) -> runs (running 0 h c) (frame t) (running 0 0 0).
Proof.
  intros Hcode. destruct Ht. unfold microcode in Hcode.
  apply code_at_app in Hcode as [C1 Hcode]. apply code_at_app in Hcode as [C2 Hcode].
  apply code_at_app in Hcode as [C3 Hcode]. apply code_at_app in Hcode as [C4 [C5 _]%code_at_cons]. cbn [length lines_words scanline_words app Nat.add] in *.
  pose proof (lines_run 0 (vfp t) false false h c C1 ltac:(lia) ltac:(lia)) as R1.
  pose proof (lines_run 10 (vs t) true false 0 0 C2 ltac:(lia) ltac:(lia)) as R2.
  pose proof (lines_run 20 (vbp t) false false 0 0 C3 ltac:(lia) ltac:(lia)) as R3.
  pose proof (lines_run 30 (vres t) false true 0 0 C4 ltac:(lia) ltac:(lia)) as R4.
  assert (R5 : runs (running 40 0 0) [sync_signals t false false false] (running 0 0 0)).
  { apply runs_one. rewrite (clock_at _ _ _ _ C5). unfold initial_sync_flags, sync_signals. by destruct (vpol t), (hpol t). }
  change (frame t) with (starting (scan_lines t (vfp t) false false) ++ scan_lines t (vs t) true false
    ++ scan_lines t (vbp t) false false ++ scan_lines t (vres t) false true ++ [sync_signals t false false false]).
  eapply runs_app; [exact R1|]. eapply runs_app; [exact R2|]. eapply runs_app; [exact R3|]. eapply runs_app; [exact R4|exact R5].
Qed.

Lemma frames_run n h c : code_at 0 (microcode t) ->
  exists h' c', runs (running 0 h c) (concat (replicate n (frame t))) (running 0 h' c').
Proof.
  intros Hcode. revert h c. induction n as [|n IH]; intros h c; [by exists h, c|].
  destruct (IH 0 0) as (h' & c' & Hrun). exists h', c'.
  change (concat (replicate (S n) (frame t))) with (frame t ++ concat (replicate n (frame t))). eapply (runs_app _ (frame t)); [by apply frame_run|exact Hrun].
Qed.

End Running.

(** ** Counting *)

Lemma count_app g l1 l2 : count_signal g (l1 ++ l2) = count_signal g l1 + count_signal g l2.
Proof. unfold count_signal. rewrite filter_app, length_app. lia. Qed.

Lemma count_cons g x l : count_signal g (x :: l) = (if g x then 1 else 0) + count_signal g l.
Proof. unfold count_signal. rewrite filter_cons. destruct (g x); simpl; lia. Qed.

Lemma count_clocks g n x : 0 <= n -> count_signal g (clocks n x) = if g x then n else 0.
Proof.
  intros Hn. unfold clocks. rewrite <- (Z2Nat.id n) at 2 by lia.
  induction (Z.to_nat n) as [|k IH]; [by destruct (g x)|]. simpl replicate. rewrite count_cons, IH. destruct (g x); lia.
Qed.

Lemma count_concat g n l : 0 <= n -> count_signal g (concat (clocks n l)) = n * count_signal g l.
Proof.
  intros Hn. unfold clocks. rewrite <- (Z2Nat.id n) at 2 by lia.
  induction (Z.to_nat n) as [|k IH]; [done|]. simpl. rewrite count_app, IH. lia.
Qed.

Lemma count_starting g l : (forall x, g x = g {| vga_vs := vga_vs x; vga_hs := vga_hs x; in_visible_region := in_visible_region x; start_frame := true |}) ->
  count_signal g (starting l) = count_signal g l.
Proof. intros Hg. destruct l as [|x l]; [done|]. simpl. by rewrite !count_cons, <- Hg. Qed.

Lemma count_scan_line g t v visible : timing_ok t ->
  count_signal g (scan_line t v visible) = (if g (sync_signals t v false false) then hfp t + hbp t else 0)
    + (if g (sync_signals t v true false) then hs t else 0) + (if g (sync_signals t v false visible) then hres t else 0).
Proof.
  intros []. unfold scan_line. rewrite !count_app, !count_clocks by lia.
  destruct (g (sync_signals t v false false)); lia.
Qed.

Lemma count_scan_lines g t n v visible : timing_ok t -> 0 <= n ->
  count_signal g (scan_lines t n v visible) = (if g (sync_signals t v false false) then 1 else 0)
    + n * (count_signal g (scan_line t v visible) + if g (sync_signals t v false false) then 1 else 0).
Proof.
  intros Ht Hn. unfold scan_lines. rewrite count_cons, count_concat, count_app, count_cons by lia.
  change (count_signal g []) with 0. lia.
Qed.

Lemma count_frame g t : timing_ok t ->
  (forall x, g x = g {| vga_vs := vga_vs x; vga_hs := vga_hs x; in_visible_region := in_visible_region x; start_frame := true |}) ->
  count_signal g (frame t) =
    count_signal g (scan_lines t (vfp t) false false) + count_signal g (scan_lines t (vs t) true false)
    + count_signal g (scan_lines t (vbp t) false false) + count_signal g (scan_lines t (vres t) false true)
    + if g (sync_signals t false false false) then 1 else 0.
Proof.
  intros Ht Hg. unfold frame. rewrite count_starting by done. rewrite !count_app, count_cons.
  unfold count_signal at 5. simpl. lia.
Qed.

Lemma count_all l : count_signal (fun _ => true) l = Z.of_nat (length l).
Proof. induction l as [|x l IH]; [done|]. rewrite count_cons, IH. simpl. lia. Qed.

Lemma frame_counts t : timing_ok t ->
  Z.of_nat (length (frame t)) = (vfp t + vs t + vbp t + vres t) * (hfp t + hs t + hbp t + hres t + 1) + 5
  /\ count_signal in_visible_region (frame t) = hres t * vres t
  /\ count_signal (fun x => bool_decide (vga_hs x = hpol t)) (frame t) = (vfp t + vs t + vbp t + vres t) * hs t
  /\ count_signal (fun x => bool_decide (vga_vs x = vpol t)) (frame t) = vs t * (hfp t + hs t + hbp t + hres t + 1) + 1.
Proof.
  intros Ht. pose proof Ht as [].
  assert (Hpol : forall b : bool, bool_decide (xorb false (negb b) = b) = false /\ bool_decide (xorb true (negb b) = b) = true) by (by intros []).
  rewrite <- count_all. repeat split; rewrite count_frame, !count_scan_lines, !count_scan_line by (try done; lia); simpl;
    destruct (Hpol (hpol t)) as [E1 E2]; destruct (Hpol (vpol t)) as [E3 E4]; simpl in *; rewrite ?E1, ?E2, ?E3, ?E4; nia.
Qed.

(** ** The display *)

Lemma enabled_after base ws len : sequencer_en base = false ->
  sequencer_write REG_VGA_ENABLE 1 (sequencer_write REG_VGA_LENGTH len (sequencer_write REG_VGA_BASE FB_BASE (loaded base ws)))
  = {| instruction_memory := ws ++ drop (length ws) (instruction_memory base); counters := counters base;
       program_counter := match ws with [] => program_counter base | _ => O end; prog_load_addr := length ws; sequencer_en := true;
       fb_base_address := FB_BASE; fb_length := len |}.
Proof.
  intros Hoff. assert (H1 : forall v s, sequencer_en s = false -> sequencer_write REG_VGA_BASE v s = s <| fb_base_address := v |>)
    by (intros v s H; unfold sequencer_write; by rewrite H).
  assert (H2 : forall v s, sequencer_en s = false -> sequencer_write REG_VGA_LENGTH v s = s <| fb_length := v |>)
    by (intros v s H; unfold sequencer_write; by rewrite H).
  assert (H3 : forall s, sequencer_en s = false -> sequencer_write REG_VGA_ENABLE 1 s = s <| sequencer_en := true |>)
    by (intros s H; unfold sequencer_write; by rewrite H).
  by rewrite H1, H2, H3.
Qed.

(** C22: what the screen gets.  For any mode whose counts the hardware can hold, from any state
    in which a program can be written (after reset, or with an older program running), the
    driver's program makes the sequencer repeat one frame for ever: [vfp], [vs], [vbp] and [vres]
    lines of front porch, pulse, back porch and pixels, in the polarities asked for.  The visible
    clocks of a frame are exactly the [hres * vres] pixels the driver tells the controller to
    fetch, every line has one horizontal pulse of [hs] clocks, and there is one vertical pulse.
    Counting lines takes one clock in each line, so a line takes one clock more than its parts,
    and a frame five more. *)
Theorem display_frames t s :
  timing_ok t -> upload_ready s ->
  exists s', load_and_enable t s = Done s' /\ upload_ready s'
  /\ fb_base_address s' = FB_BASE /\ fb_length s' = count_signal in_visible_region (frame t)
  /\ (forall n, exists s'', runs s' (concat (replicate n (frame t))) s'')
  /\ Z.of_nat (length (frame t)) = (vfp t + vs t + vbp t + vres t) * (hfp t + hs t + hbp t + hres t + 1) + 5
  /\ count_signal in_visible_region (frame t) = hres t * vres t
  /\ count_signal (fun x => bool_decide (vga_hs x = hpol t)) (frame t) = (vfp t + vs t + vbp t + vres t) * hs t
  /\ count_signal (fun x => bool_decide (vga_vs x = vpol t)) (frame t) = vs t * (hfp t + hs t + hbp t + hres t + 1) + 1.
Proof.
  intros Ht [Hmem Haddr]. set (base := sequencer_write REG_VGA_ENABLE 0 s).
  assert (Hbase : upload_ready base /\ sequencer_en base = false).
  { unfold base, sequencer_write. destruct (sequencer_en s) eqn:He; [by repeat split; [|right]|].
    destruct Haddr as [?|Haddr]; [done|]. by repeat split; [|right]. }
  destruct Hbase as [Hbase Hoff]. destruct (frame_counts t Ht) as (Hlen & Hvis & Hhs & Hvs).
  unfold load_and_enable. cbn [register_write sequencer_registers bind_result]. fold base.
  rewrite (compile_loads t base Ht Hbase Hoff). cbn [bind_result]. eexists. split; [reflexivity|].
  set (s' := sequencer_write _ _ _).
  assert (Hs' : s' = {| instruction_memory := microcode t ++ drop 41 (instruction_memory base);
    counters := counters base; program_counter := O; prog_load_addr := 41%nat; sequencer_en := true;
    fb_base_address := FB_BASE; fb_length := u32 (hres t * vres t) |}).
  { unfold s'. by rewrite (enabled_after base). }
  clearbody s'. subst s'. split; [|split; [|split; [|split]]]; [|done| |intros n|done].
  - split; [|by left]. destruct Hbase as [Hb _]. unfold instruction_memory. fold (instruction_memory base).
    by rewrite length_app, length_drop, Hb.
  - rewrite Hvis. destruct Ht. apply u32_small. nia.
  - match goal with |- exists s2, runs ?x _ s2 => set (s' := x) end.
    destruct (frames_run s' t Ht n (counters base).1 (counters base).2) as (h' & c' & Hrun).
    { intros i w Hi. by apply lookup_app_l_Some. }
    unfold running, update in Hrun. simpl in Hrun. rewrite <- surjective_pairing in Hrun. by eexists.
Qed.

(** The 640x480 mode, after reset. *)
Definition reset_sequencer : sequencer := {|
  instruction_memory := replicate MAX_INSTRUCTIONS 0; counters := (0, 0); program_counter := O;
  prog_load_addr := O; sequencer_en := false; fb_base_address := 0; fb_length := 0 |}.

Lemma display_frames_witness :
  exists s', init_vga 0 reset_sequencer = Done (FB_BASE, s') /\ fb_length s' = 640 * 480
  /\ (exists s'', runs s' (frame (mode_timing VGA_MODE_640x480)) s'')
  /\ Z.of_nat (length (frame (mode_timing VGA_MODE_640x480))) = 525 * 801 + 5.
Proof.
  assert (Ht : timing_ok (mode_timing VGA_MODE_640x480)) by (constructor; vm_decide).
  assert (Hr : upload_ready reset_sequencer) by (split; [reflexivity|right; reflexivity]).
  destruct (display_frames _ _ Ht Hr) as (s' & Hload & _ & _ & Hfetch & Hruns & Hlen & Hvis & _).
  exists s'. split; [|split; [|split]].
  - unfold init_vga. change (enum_of_Z 0) with (Some VGA_MODE_640x480). cbv iota. rewrite Hload. reflexivity.
  - rewrite Hfetch, Hvis. reflexivity.
  - destruct (Hruns 1%nat) as [s'' Hrun]. exists s''. rewrite <- (app_nil_r (frame _)). exact Hrun.
  - rewrite Hlen. reflexivity.
Defined.
