(* ===== verification/Printf.v ===== *)
(** * Printf: formatted output (software/libs/libc/src/vfprintf.c, vprintf of kernel/libc.c)

    The two functions are one scanner; [variant] holds what differs.  [printer] is the state of
    its loop: a character is given to [putc] of the sink, which is a parameter.  An argument of
    another type than the conversion takes is undefined in C and a fault here.  The precision of
    [double], in which libc keeps the number, is the compiler's; the kernel keeps it in a [float];
    both keep the fraction in a [float]. *)

From Stdlib Require Import Ascii String.
From S2P Require Export CString Float32.
From stdpp Require Import list.
Import stdpp.list_relations.list.

#[local] Open Scope Z_scope.

(** A character constant. *)
Definition ch (c : ascii) : Z := char_of c.
Arguments ch c%_char.

Inductive argument :=
| ArgInt (v : Z)
| ArgLongLong (v : Z)
| ArgString (s : list Z)
| ArgDouble (v : spec_float).

Record variant := {
  kPrefixCharacters : list Z;
  has_long_long : bool;
  floatval_prec : Z;
  floatval_emax : Z
}.

Definition kFlagCharacters : list Z := [ch "-"; ch "+"; ch " "; ch "0"].
Definition kHexDigits : list Z :=
  [ch "0"; ch "1"; ch "2"; ch "3"; ch "4"; ch "5"; ch "6"; ch "7"; ch "8"; ch "9";
   ch "a"; ch "b"; ch "c"; ch "d"; ch "e"; ch "f"].

Definition kernel_variant : variant := {|
  kPrefixCharacters := [ch "F"; ch "N"; ch "h"; ch "l"; ch "L"];
  has_long_long := false; floatval_prec := f32_prec; floatval_emax := f32_emax |}.

Definition libc_variant (prec emax : Z) : variant := {|
  kPrefixCharacters := [ch "F"; ch "N"; ch "h"; ch "l"; ch "L"; ch "z"; ch "t"];
  has_long_long := true; floatval_prec := prec; floatval_emax := emax |}.

Inductive scan_state := kScanText | kScanFlags | kScanWidth | kScanPrecision | kScanPrefix | kScanFormat.

Definition isdigit (c : Z) : bool := (ch "0" <=? c) && (c <=? ch "9").

(** [SET_FLAG], [FLAG_IS_SET] with the characters of [set]. *)
Definition set_bit_of (set : list Z) (c bits : Z) : Z :=
  match strchr c set with Some i => Z.lor bits (Z.shiftl 1 (Z.of_nat i)) | None => bits end.

Definition bit_of_is_set (set : list Z) (c bits : Z) : bool :=
  match strchr c set with Some i => Z.testbit bits (Z.of_nat i) | None => false end.

Section Printing.

Context (v : variant) {S : Type} (putc : Z -> S -> result S).

(** ** What a conversion puts out *)

Fixpoint put_all (l : list Z) (s : S) : result S :=
  match l with [] => Done s | c :: l => s <-- putc c s;; put_all l s end.

Definition hex_digit (d : Z) : Z := default 0 (kHexDigits !! Z.to_nat d).

(** The loop that fills [temp_string] backwards from [index]: the string from the last index on. *)
Fixpoint write_backwards (index : nat) (radix value : Z) (rest : list Z) : list Z :=
  let rest := hex_digit (value mod radix) :: rest in
  let value := value / radix in
  if value =? 0 then rest
  else match index with O => rest | Datatypes.S index => write_backwards index radix value rest end.

Definition temp_string (radix value : Z) : list Z := write_backwards 63 radix value [].

Definition repeat_char (n c : Z) : list Z := replicate (Z.to_nat n) c.

Definition is_signed (conversion : Z) : bool := (conversion =? ch "d") || (conversion =? ch "i").

Definition radix_of (conversion : Z) : Z :=
  if conversion =? ch "o" then 8
  else if (conversion =? ch "x") || (conversion =? ch "X") || (conversion =? ch "p") then 16 else 10.

(** The [value] read for a conversion, as an unsigned number of the width the variant computes with. *)
Definition integer_value (long : bool) (conversion : Z) (args : list argument) : result (Z * list argument) :=
  if has_long_long v && long then
    match args with ArgLongLong x :: args => Done (x, args) | _ => Fault OutOfBounds end
  else
    match args with
    | ArgInt x :: args => Done (if has_long_long v && is_signed conversion then u64 (s32 x) else x, args)
    | _ => Fault OutOfBounds
    end.

(** A negative value is negated, and has its sign put out first. *)
Definition take_sign (conversion value : Z) : list Z * Z :=
  if is_signed conversion && (if has_long_long v then Z.testbit value 63 else Z.testbit value 31)
  then ([ch "-"], if has_long_long v then u64 (- value) else u32 (- value))
  else ([], value).

Definition integer_text (zero : bool) (width precision : Z) (conversion value : Z) : list Z :=
  let '(sign, value) := take_sign conversion value in
  let digits := temp_string (radix_of conversion) value in
  let count := Z.of_nat (length digits) in
  sign ++ repeat_char (width - count) (if zero then ch "0" else ch " ")
    ++ repeat_char (precision - Z.max count width) (ch "0") ++ digits.

(** The characters before the NUL, at most [max_width]. *)
Fixpoint string_chars (max_width : Z) (s : list Z) : result (list Z) :=
  if max_width <=? 0 then Done []
  else match s with
       | [] => Fault OutOfBounds
       | c :: s => if c =? 0 then Done [] else l <-- string_chars (max_width - 1) s;; Done (c :: l)
       end.

Definition string_text (width precision : Z) (s : list Z) : result (list Z) :=
  let max_width := if precision =? 0 then 0x7fffffff else precision in
  l <-- string_chars max_width s;;
  Done (l ++ repeat_char (Z.min width max_width - Z.of_nat (length l)) (ch " ")).

(** [(int) f]; a value that is no [int] is undefined. *)
Definition float_to_int (f : spec_float) : result Z :=
  match f with
  | S754_zero _ => Done 0
  | S754_finite s m e =>
      let n := Z.shiftl (Zpos m) e in
      let n := if s then - n else n in
      if (- 2 ^ 31 <=? n) && (n <? 2 ^ 31) then Done n else Fault OutOfBounds
  | _ => Fault OutOfBounds
  end.

(** The conversion of a number to a type of this precision. *)
Definition float_of (prec emax : Z) (f : spec_float) : spec_float :=
  match f with
  | S754_finite s m e => binary_normalize prec emax (if s then Zneg m else Zpos m) e s
  | _ => f
  end.

(** [while (wholePart > 0)]: at most ten digits of an [int], in [wholeStr]. *)
Fixpoint whole_digits (fuel : nat) (whole : Z) (rest : list Z) : list Z :=
  match fuel with
  | O => rest
  | Datatypes.S fuel => if 0 <? whole then whole_digits fuel (whole / 10) (ch "0" + whole mod 10 :: rest) else rest
  end.

(** [frac] and what is computed with it are floats. *)
Fixpoint fraction_digits (fuel : nat) (frac : spec_float) (max_digits : Z) : result (list Z) :=
  match fuel with
  | O => Fault OutOfFuel
  | Datatypes.S fuel =>
      let frac := f32_mul frac (f32_of_int 10) in
      digit <-- float_to_int frac;;
      let frac := f32_sub frac (f32_of_int digit) in
      if SFltb (S754_zero false) frac && (0 <? max_digits)
      then l <-- fraction_digits fuel frac (max_digits - 1);; Done (ch "0" + digit :: l)
      else Done [ch "0" + digit]
  end.

Definition float_text (precision : Z) (arg : spec_float) : result (list Z) :=
  let floatval := float_of (floatval_prec v) (floatval_emax v) arg in
  let negative := SFltb floatval (S754_zero false) in
  let floatval := if negative then SFopp floatval else floatval in
  whole <-- float_to_int floatval;;
  let difference := SFsub (floatval_prec v) (floatval_emax v) floatval
                      (binary_normalize (floatval_prec v) (floatval_emax v) whole 0 false) in
  let frac := float_of f32_prec f32_emax difference in
  let max_digits := if 0 <? precision then precision else 7 in
  l <-- fraction_digits (Datatypes.S (Z.to_nat max_digits)) frac max_digits;;
  Done ((if negative then [ch "-"] else [])
        ++ (if whole =? 0 then [ch "0"] else whole_digits 10 whole []) ++ [ch "."] ++ l).

Definition is_integer_conversion (c : Z) : bool :=
  bool_decide (c ∈ [ch "p"; ch "x"; ch "X"; ch "o"; ch "u"; ch "d"; ch "i"]).

(** [case kScanFormat]: the text of a conversion and the arguments left; a character that is no
    conversion is dropped. *)
Definition convert (flags prefixes width precision conversion : Z) (args : list argument) : result (list Z * list argument) :=
  if is_integer_conversion conversion then
    let width := if conversion =? ch "p" then 8 else width in
    let zero := (conversion =? ch "p") || bit_of_is_set kFlagCharacters (ch "0") flags in
    '(value, args) <-- integer_value (bit_of_is_set (kPrefixCharacters v) (ch "L") prefixes) conversion args;;
    Done (integer_text zero width precision conversion value, args)
  else if conversion =? ch "c" then
    match args with ArgInt x :: args => Done ([x], args) | _ => Fault OutOfBounds end
  else if conversion =? ch "s" then
    match args with
    | ArgString s :: args => l <-- string_text width precision s;; Done (l, args)
    | _ => Fault OutOfBounds
    end
  else if (conversion =? ch "f") || (conversion =? ch "g") then
    match args with
    | ArgDouble f :: args => l <-- float_text precision f;; Done (l, args)
    | _ => Fault OutOfBounds
    end
  else Done ([], args).

(** ** The scanner *)

Record printer := {
  flags : Z; prefixes : Z; width : Z; precision : Z;
  scan : scan_state; format : list Z; arguments : list argument; sink : S
}.

#[export]
Instance printer_fields : Fields printer := fun p =>
  Build_printer (flags p) (prefixes p) (width p) (precision p) (scan p) (format p) (arguments p) (sink p).

Definition add_digit (n c : Z) : Z := s32 (n * 10 + c - ch "0").

(** One turn of the loop, at character [c] with [rest] after it. *)
Definition vprintf_step (c : Z) (rest : list Z) (p : printer) : result printer :=
  match scan p with
  | kScanText =>
      if c =? ch "%" then
        Done (p <| format := rest |> <| scan := kScanFlags |> <| flags := 0 |> <| prefixes := 0 |>
                <| width := 0 |> <| precision := 0 |>)
      else s <-- putc c (sink p);; Done (p <| format := rest |> <| sink := s |>)
  | kScanFlags =>
      if c =? ch "%" then s <-- putc c (sink p);; Done (p <| format := rest |> <| sink := s |> <| scan := kScanText |>)
      else if bool_decide (c ∈ kFlagCharacters) then
        Done (p <| flags ::= set_bit_of kFlagCharacters c |> <| format := rest |>)
      else Done (p <| scan := kScanWidth |>)
  | kScanWidth =>
      if isdigit c then Done (p <| width ::= fun n => add_digit n c |> <| format := rest |>)
      else if c =? ch "." then Done (p <| scan := kScanPrecision |> <| format := rest |>)
      else Done (p <| scan := kScanPrefix |>)
  | kScanPrecision =>
      if isdigit c then Done (p <| precision ::= fun n => add_digit n c |> <| format := rest |>)
      else Done (p <| scan := kScanPrefix |>)
  | kScanPrefix =>
      if bool_decide (c ∈ kPrefixCharacters v) then
        Done (p <| prefixes ::= set_bit_of (kPrefixCharacters v) c |> <| format := rest |>)
      else Done (p <| scan := kScanFormat |>)
  | kScanFormat =>
      '(l, args) <-- convert (flags p) (prefixes p) (width p) (precision p) c (arguments p);;
      s <-- put_all l (sink p);;
      Done (p <| sink := s |> <| arguments := args |> <| format := rest |> <| scan := kScanText |>)
  end.

Fixpoint vprintf_loop (fuel : nat) (p : printer) : result printer :=
  match format p with
  | [] => Done p
  | c :: rest =>
      match fuel with
      | O => Fault OutOfFuel
      | Datatypes.S fuel => p <-- vprintf_step c rest p;; vprintf_loop fuel p
      end
  end.

(** No character takes more than six turns. *)
Definition vprintf (fmt : list Z) (args : list argument) (s : S) : result S :=
  p <-- vprintf_loop (6 * length fmt)
          {| flags := 0; prefixes := 0; width := 0; precision := 0; scan := kScanText;
             format := fmt; arguments := args; sink := s |};;
  Done (sink p).

End Printing.

Arguments printer : clear implicits.

(** ** What a format means

    A format string is a sequence of pieces; each puts out its text by itself. *)

Inductive piece :=
| Literal (c : Z)
| Percent
| Directive (fl : list Z) (w : list Z) (p : option (list Z)) (pre : list Z) (conversion : Z).

Definition unparse (x : piece) : list Z :=
  match x with
  | Literal c => [c]
  | Percent => [ch "%"; ch "%"]
  | Directive fl w p pre c =>
      [ch "%"] ++ fl ++ w ++ match p with Some ds => ch "." :: ds | None => [] end ++ pre ++ [c]
  end.

Definition all_in (l set : list Z) : Prop := forall c, c ∈ l -> c ∈ set.

Definition digits_only (l : list Z) : Prop := forall c, c ∈ l -> isdigit c = true.

(** A conversion is a character with no other meaning in its place. *)
Definition piece_ok (v : variant) (x : piece) : Prop :=
  match x with
  | Literal c => c <> ch "%"
  | Percent => True
  | Directive fl w p pre c =>
      all_in fl kFlagCharacters /\ digits_only w /\ head w <> Some (ch "0")
      /\ match p with Some ds => digits_only ds | None => True end
      /\ all_in pre (kPrefixCharacters v)
      /\ c ∉ kPrefixCharacters v /\ c ∉ kFlagCharacters /\ isdigit c = false /\ c <> ch "." /\ c <> ch "%"
  end.

Definition decimal (l : list Z) : Z := fold_left add_digit l 0.

Definition bits_of (set l : list Z) : Z := fold_left (fun bits c => set_bit_of set c bits) l 0.

Definition render (v : variant) (x : piece) (args : list argument) : result (list Z * list argument) :=
  match x with
  | Literal c => Done ([c], args)
  | Percent => Done ([ch "%"], args)
  | Directive fl w p pre c =>
      convert v (bits_of kFlagCharacters fl) (bits_of (kPrefixCharacters v) pre) (decimal w)
        (match p with Some ds => decimal ds | None => 0 end) c args
  end.

Fixpoint print_pieces (v : variant) {S} (putc : Z -> S -> result S) (l : list piece) (args : list argument) (s : S)
    : result (list argument * S) :=
  match l with
  | [] => Done (args, s)
  | x :: l => '(text, args) <-- render v x args;; s <-- put_all putc text s;; print_pieces v putc l args s
  end.

(** ** The scanner terminates *)

Definition scan_rank (st : scan_state) : nat :=
  match st with kScanText => 0 | kScanFlags => 4 | kScanWidth => 3 | kScanPrecision => 2 | kScanPrefix => 1 | kScanFormat => 0 end.

Section Scanning.

Context (v : variant) {S : Type} (putc : Z -> S -> result S).

Definition turns_left (p : printer S) : nat := 5 * length (format p) + scan_rank (scan p).

Lemma step_measure c rest p p' :
  format p = c :: rest -> vprintf_step v putc c rest p = Done p' -> (turns_left p' < turns_left p)%nat.
Proof.
  intros Hf Hstep. unfold turns_left. rewrite Hf. unfold vprintf_step in Hstep.
  destruct (scan p) eqn:Hs.
  all: repeat (match type of Hstep with (if ?b then _ else _) = _ => destruct b end).
  all: try (apply bind_Done_inv in Hstep as ([l args] & _ & Hstep)); try (apply bind_Done_inv in Hstep as (s & _ & Hstep)).
  all: injection Hstep as <-; simpl; rewrite ?Hf, ?Hs; simpl; lia.
Qed.

(** Enough fuel is enough: more changes nothing. *)
Lemma loop_fuel n m p : (turns_left p <= n)%nat -> (turns_left p <= m)%nat ->
  vprintf_loop v putc n p = vprintf_loop v putc m p.
Proof.
  revert m p. induction n as [|n IH]; intros m p Hn Hm.
  - destruct (format p) as [|c rest] eqn:Hf; [destruct m; simpl; by rewrite Hf|].
    unfold turns_left in Hn. rewrite Hf in Hn. simpl in Hn. lia.
  - destruct (format p) as [|c rest] eqn:Hf; [destruct m; simpl; by rewrite Hf|].
    destruct m as [|m]; [unfold turns_left in Hm; rewrite Hf in Hm; simpl in Hm; lia|].
    simpl. rewrite Hf. destruct (vprintf_step v putc c rest p) as [p'|] eqn:Hstep; [|done]. simpl.
    pose proof (step_measure _ _ _ _ Hf Hstep). apply IH; lia.
Qed.

(** The loop without its fuel. *)
Definition prints (p : printer S) : result (printer S) := vprintf_loop v putc (turns_left p) p.

Lemma prints_nil p : format p = [] -> prints p = Done p.
Proof. intros Hf. unfold prints. destruct (turns_left p); simpl; by rewrite Hf. Qed.

Lemma prints_cons p c rest : format p = c :: rest -> prints p = (p <-- vprintf_step v putc c rest p;; prints p).
Proof.
  intros Hf. unfold prints. assert (Hpos : (0 < turns_left p)%nat) by (unfold turns_left; rewrite Hf; simpl; lia).
  destruct (turns_left p) as [|n] eqn:Hn; [lia|]. simpl. rewrite Hf.
  destruct (vprintf_step v putc c rest p) as [p'|] eqn:Hstep; [|done]. simpl.
  pose proof (step_measure _ _ _ _ Hf Hstep). apply loop_fuel; lia.
Qed.

(** ** The scanner means what the pieces say *)

Lemma prints_flags fl b pre w p rest args s :
  all_in fl kFlagCharacters ->
  prints {| flags := b; prefixes := pre; width := w; precision := p; scan := kScanFlags; format := fl ++ rest; arguments := args; sink := s |}
  = prints {| flags := fold_left (fun bits c => set_bit_of kFlagCharacters c bits) fl b; prefixes := pre; width := w; precision := p;
              scan := kScanFlags; format := rest; arguments := args; sink := s |}.
Proof.
  revert b. induction fl as [|c fl IH]; intros b Hfl; [done|].
  assert (Hc : c ∈ kFlagCharacters) by (apply Hfl; by left).
  erewrite prints_cons by done. unfold vprintf_step. cbn [scan].
  assert (c =? ch "%" = false) as -> by (apply Z.eqb_neq; intros ->; revert Hc; by vm_decide).
  rewrite bool_decide_true by done. cbn [bind_result]. apply IH. intros x Hx. apply Hfl. by right.
Qed.

Lemma prints_width ds b pre w p rest args s :
  digits_only ds ->
  prints {| flags := b; prefixes := pre; width := w; precision := p; scan := kScanWidth; format := ds ++ rest; arguments := args; sink := s |}
  = prints {| flags := b; prefixes := pre; width := fold_left add_digit ds w; precision := p;
              scan := kScanWidth; format := rest; arguments := args; sink := s |}.
Proof.
  revert w. induction ds as [|c ds IH]; intros w Hds; [done|].
  erewrite prints_cons by done. unfold vprintf_step. cbn [scan].
  rewrite (Hds c) by (by left). cbn [bind_result]. apply IH. intros x Hx. apply Hds. by right.
Qed.

Lemma prints_precision ds b pre w p rest args s :
  digits_only ds ->
  prints {| flags := b; prefixes := pre; width := w; precision := p; scan := kScanPrecision; format := ds ++ rest; arguments := args; sink := s |}
  = prints {| flags := b; prefixes := pre; width := w; precision := fold_left add_digit ds p;
              scan := kScanPrecision; format := rest; arguments := args; sink := s |}.
Proof.
  revert p. induction ds as [|c ds IH]; intros p Hds; [done|].
  erewrite prints_cons by done. unfold vprintf_step. cbn [scan].
  rewrite (Hds c) by (by left). cbn [bind_result]. apply IH. intros x Hx. apply Hds. by right.
Qed.

Lemma prints_prefixes l b pre w p rest args s :
  all_in l (kPrefixCharacters v) ->
  prints {| flags := b; prefixes := pre; width := w; precision := p; scan := kScanPrefix; format := l ++ rest; arguments := args; sink := s |}
  = prints {| flags := b; prefixes := fold_left (fun bits c => set_bit_of (kPrefixCharacters v) c bits) l pre; width := w; precision := p;
              scan := kScanPrefix; format := rest; arguments := args; sink := s |}.
Proof.
  revert pre. induction l as [|c l IH]; intros pre Hl; [done|].
  erewrite prints_cons by done. unfold vprintf_step. cbn [scan].
  rewrite bool_decide_true by (apply Hl; by left). cbn [bind_result]. apply IH. intros x Hx. apply Hl. by right.
Qed.

(** The prefixes and the conversion. *)
Lemma prints_conversion l c b w p rest args s :
  all_in l (kPrefixCharacters v) -> c ∉ kPrefixCharacters v ->
  prints {| flags := b; prefixes := 0; width := w; precision := p; scan := kScanPrefix; format := l ++ c :: rest; arguments := args; sink := s |}
  = ('(text, args) <-- convert v b (bits_of (kPrefixCharacters v) l) w p c args;; s <-- put_all putc text s;;
     prints {| flags := b; prefixes := bits_of (kPrefixCharacters v) l; width := w; precision := p;
               scan := kScanText; format := rest; arguments := args; sink := s |}).
Proof.
  intros Hl Hc. rewrite prints_prefixes by done. erewrite prints_cons by done. unfold vprintf_step at 1. cbn [scan].
  rewrite bool_decide_false by done. cbn [bind_result]. unfold update. cbn [flags prefixes width precision arguments sink format]. erewrite prints_cons by done. unfold vprintf_step. cbn [scan flags prefixes width precision arguments sink].
  unfold bits_of. destruct (convert _ _ _ _ _ _ _) as [[text args']|]; [|done]. cbn [bind_result]. destruct (put_all putc text s); [|done]. cbn [bind_result]. reflexivity.
Qed.

(** After the width: the precision, the prefixes and the conversion. *)
Lemma prints_after_width p l c b w rest args s :
  match p with Some ds => digits_only ds | None => True end ->
  all_in l (kPrefixCharacters v) -> c ∉ kPrefixCharacters v -> isdigit c = false -> c <> ch "." ->
  (forall x, x ∈ kPrefixCharacters v -> isdigit x = false /\ x <> ch ".") ->
  prints {| flags := b; prefixes := 0; width := w; precision := 0; scan := kScanWidth;
            format := match p with Some ds => ch "." :: ds | None => [] end ++ l ++ c :: rest; arguments := args; sink := s |}
  = ('(text, args) <-- convert v b (bits_of (kPrefixCharacters v) l) w (match p with Some ds => decimal ds | None => 0 end) c args;;
     s <-- put_all putc text s;;
     prints {| flags := b; prefixes := bits_of (kPrefixCharacters v) l; width := w;
               precision := match p with Some ds => decimal ds | None => 0 end;
               scan := kScanText; format := rest; arguments := args; sink := s |}).
Proof.
  intros Hp Hl Hc Hd Hdot Hpre.
  assert (Hhead : forall x r, l ++ c :: rest = x :: r -> isdigit x = false /\ x <> ch ".").
  { intros x r Heq. destruct l as [|y l]; injection Heq as <- _; [done|]. apply Hpre, Hl. by left. }
  destruct (l ++ c :: rest) as [|x r] eqn:Heq; [by destruct l|]. destruct (Hhead x r eq_refl) as [Hx1 Hx2].
  apply Z.eqb_neq in Hx2. destruct p as [ds|].
  - cbn [app]. erewrite prints_cons by done. unfold vprintf_step at 1. cbn [scan]. change (isdigit (ch ".")) with false. cbv iota.
    rewrite Z.eqb_refl. cbn [bind_result]. unfold update. cbn [flags prefixes width precision arguments sink].
    rewrite prints_precision by done. erewrite prints_cons by done. unfold vprintf_step at 1. cbn [scan]. rewrite Hx1. cbn [bind_result].
    unfold update. cbn [flags prefixes width precision arguments sink format]. rewrite <- Heq. by apply prints_conversion.
  - cbn [app]. erewrite prints_cons by done. unfold vprintf_step at 1. cbn [scan]. rewrite Hx1, Hx2. cbn [bind_result].
    unfold update. cbn [flags prefixes width precision arguments sink format]. rewrite <- Heq. by apply prints_conversion.
Qed.

(** From [kScanText], whatever the directive before left. *)
Definition text_state (b pre w p : Z) (fmt : list Z) (args : list argument) (s : S) : printer S :=
  {| flags := b; prefixes := pre; width := w; precision := p; scan := kScanText; format := fmt; arguments := args; sink := s |}.

Definition outcome (p : printer S) : result (list argument * S) := p <-- prints p;; Done (arguments p, sink p).

Definition prefixes_ok : Prop := forall x, x ∈ kPrefixCharacters v ->
  isdigit x = false /\ x <> ch "." /\ x ∉ kFlagCharacters /\ x <> ch "%".

Lemma prints_piece x b pre w p rest args s :
  prefixes_ok -> piece_ok v x ->
  exists b' pre' w' p', prints (text_state b pre w p (unparse x ++ rest) args s)
    = ('(text, args) <-- render v x args;; s <-- put_all putc text s;; prints (text_state b' pre' w' p' rest args s)).
Proof.
  intros Hpre Hok. unfold text_state. destruct x as [c| |fl wd pr pf c].
  - exists b, pre, w, p. erewrite prints_cons by done. unfold vprintf_step. cbn [scan].
    rewrite (proj2 (Z.eqb_neq _ _)) by done. cbn [render put_all bind_result sink]. by destruct (putc c s).
  - exists 0, 0, 0, 0. erewrite prints_cons by done. unfold vprintf_step at 1. cbn [scan]. rewrite Z.eqb_refl. cbn [bind_result].
    unfold update. cbn [flags prefixes width precision arguments sink format scan].
    erewrite prints_cons by done. unfold vprintf_step at 1. cbn [scan]. rewrite Z.eqb_refl. cbn [render put_all bind_result sink].
    by destruct (putc (ch "%") s).
  - destruct Hok as (Hfl & Hwd & Hw0 & Hpr & Hpf & Hc1 & Hc2 & Hc3 & Hc4 & Hc5).
    exists (bits_of kFlagCharacters fl), (bits_of (kPrefixCharacters v) pf), (decimal wd), (match pr with Some ds => decimal ds | None => 0 end).
    cbn [unparse]. rewrite <- !app_assoc. cbn [app]. erewrite prints_cons by done. unfold vprintf_step at 1. cbn [scan]. rewrite Z.eqb_refl.
    cbn [bind_result]. unfold update. cbn [flags prefixes width precision arguments sink format].
    rewrite prints_flags by done. fold (bits_of kFlagCharacters fl).
    set (tail := match pr with Some ds => ch "." :: ds | None => [] end ++ pf ++ c :: rest).
    assert (Hleave : forall x r, wd ++ tail = x :: r -> x ∉ kFlagCharacters /\ x <> ch "%").
    { intros x r Heq. destruct wd as [|y wd].
      - unfold tail in Heq. destruct pr as [ds|]; [injection Heq as <- _; vm_decide|]. destruct pf as [|z pf]; injection Heq as <- _; [done|].
        apply Hpre, Hpf. by left.
      - injection Heq as <- _. pose proof (Hwd y ltac:(by left)) as Hy. simpl in Hw0.
        assert (y <> ch "0") as Hy0 by congruence. unfold isdigit in Hy. apply andb_true_iff in Hy as [Hy1%Z.leb_le Hy2%Z.leb_le].
        unfold kFlagCharacters. rewrite !not_elem_of_cons, elem_of_nil. vm_compute in Hy0, Hy1, Hy2. vm_compute.
        repeat split; try tauto; intros ->; try (by apply Hy0); by (apply Hy1 || apply Hy2). }
    destruct (wd ++ tail) as [|x r] eqn:Heq; [unfold tail in Heq; by destruct wd, pr, pf|].
    destruct (Hleave x r eq_refl) as [Hx1 Hx2]. erewrite prints_cons by done. unfold vprintf_step at 1. cbn [scan].
    rewrite (proj2 (Z.eqb_neq _ _)) by done. rewrite bool_decide_false by done. cbn [bind_result]. unfold update.
    cbn [flags prefixes width precision arguments sink format]. rewrite <- Heq. rewrite prints_width by done. unfold tail.
    rewrite prints_after_width; try done. intros y Hy. split; by apply Hpre.
Qed.

Lemma prints_pieces l : prefixes_ok -> Forall (piece_ok v) l -> forall b pre w p args s,
  outcome (text_state b pre w p (concat (map unparse l)) args s) = print_pieces v putc l args s.
Proof.
  intros Hpre. induction 1 as [|x l Hx _ IH]; intros b pre w p args s.
  - unfold outcome. by rewrite prints_nil.
  - unfold outcome. simpl concat. destruct (prints_piece x b pre w p (concat (map unparse l)) args s Hpre Hx) as (b' & pre' & w' & p' & ->).
    simpl print_pieces. destruct (render v x args) as [[text args']|]; [|done]. cbn [bind_result].
    destruct (put_all putc text s) as [s'|]; [|done]. cbn [bind_result]. apply IH.
Qed.

Lemma vprintf_prints fmt args s : vprintf v putc fmt args s = ('(_, s) <-- outcome (text_state 0 0 0 0 fmt args s);; Done s).
Proof.
  unfold vprintf, outcome, prints. fold (text_state 0 0 0 0 fmt args s). set (p := text_state _ _ _ _ _ _ _).
  rewrite (loop_fuel (6 * length fmt) (turns_left p) p); [|unfold turns_left; simpl; lia|done].
  by destruct (vprintf_loop _ _ _ _).
Qed.

End Scanning.

(** ** Two sinks *)

(** Both end, with related states, or both fail in the same way. *)
Definition result_rel {A B} (R : A -> B -> Prop) (a : result A) (b : result B) : Prop :=
  match a, b with Done x, Done y => R x y | Fault f, Fault g => f = g | _, _ => False end.

Lemma bind_rel {A B C D} (R : A -> B -> Prop) (Q : C -> D -> Prop) a b (f : A -> result C) (g : B -> result D) :
  result_rel R a b -> (forall x y, R x y -> result_rel Q (f x) (g y)) -> result_rel Q (bind_result a f) (bind_result b g).
Proof. intros H1 H2. destruct a, b; simpl in *; [by apply H2|done|done|done]. Qed.

Section Simulation.

Context (v : variant) {S T : Type} (R : S -> T -> Prop) (putc : Z -> S -> result S) (putc' : Z -> T -> result T).
Context (Hputc : forall c s t, R s t -> result_rel R (putc c s) (putc' c t)).

Definition printer_rel (p : printer S) (q : printer T) : Prop :=
  flags p = flags q /\ prefixes p = prefixes q /\ width p = width q /\ precision p = precision q
  /\ scan p = scan q /\ format p = format q /\ arguments p = arguments q /\ R (sink p) (sink q).

Lemma put_all_rel l s t : R s t -> result_rel R (put_all putc l s) (put_all putc' l t).
Proof.
  revert s t. induction l as [|c l IH]; intros s t H; [done|]. simpl. apply (bind_rel R); [by apply Hputc|]. intros x y. apply IH.
Qed.

Lemma step_rel c rest p q : printer_rel p q ->
  result_rel printer_rel (vprintf_step v putc c rest p) (vprintf_step v putc' c rest q).
Proof.
  intros (H1 & H2 & H3 & H4 & H5 & H6 & H7 & H8). unfold vprintf_step. rewrite H5.
  assert (Hput : forall st, scan p = st -> result_rel printer_rel
    (s <-- putc c (sink p);; Done (p <| format := rest |> <| sink := s |>)) (s <-- putc' c (sink q);; Done (q <| format := rest |> <| sink := s |>))).
  { intros st _. apply (bind_rel R); [by apply Hputc|]. intros x y Hxy. unfold printer_rel. simpl. by rewrite H1, H2, H3, H4, H5, H7. }
  destruct (scan q) eqn:Hq.
  - destruct (_ =? _); [unfold printer_rel; simpl; by rewrite H7|by apply (Hput kScanText)].
  - destruct (_ =? _).
    + apply (bind_rel R); [by apply Hputc|]. intros x y Hxy. unfold printer_rel. simpl. by rewrite H1, H2, H3, H4, H7.
    + destruct (bool_decide _); unfold printer_rel; simpl; by rewrite ?H1, H2, H3, H4, ?H5, ?H6, H7.
  - destruct (isdigit c); [|destruct (_ =? _)]; unfold printer_rel; simpl; by rewrite H1, H2, ?H3, H4, ?H5, ?H6, H7.
  - destruct (isdigit c); unfold printer_rel; simpl; by rewrite H1, H2, H3, ?H4, ?H5, ?H6, H7.
  - destruct (bool_decide _); unfold printer_rel; simpl; by rewrite H1, ?H2, H3, H4, ?H5, ?H6, H7.
  - rewrite H1, H2, H3, H4, H7. destruct (convert _ _ _ _ _ _ _) as [[l args]|]; [|done]. cbn [bind_result].
    apply (bind_rel R); [by apply put_all_rel|]. intros x y Hxy. unfold printer_rel. simpl. by rewrite H1, H2, H3, H4.
Qed.

Lemma vprintf_rel fmt args s t : R s t -> result_rel R (vprintf v putc fmt args s) (vprintf v putc' fmt args t).
Proof.
  intros H. unfold vprintf. apply (bind_rel printer_rel); [|intros p q Hpq; apply Hpq].
  match goal with |- result_rel _ (vprintf_loop _ _ _ ?a) (vprintf_loop _ _ _ ?b) => set (p := a); set (q := b) end.
  assert (Hpq : printer_rel p q) by done. clearbody p q. revert p q Hpq.
  generalize (6 * length fmt)%nat as fuel. induction fuel as [|fuel IH]; intros p q Hpq; simpl;
    pose proof Hpq as (_ & _ & _ & _ & _ & Hf & _ & _); rewrite Hf; destruct (format q) as [|c rest]; try done.
  apply (bind_rel printer_rel); [by apply step_rel|]. intros x y. apply IH.
Qed.

End Simulation.

Definition prefix_character_ok (x : Z) : bool :=
  negb (isdigit x) && negb (x =? ch ".") && bool_decide (x ∉ kFlagCharacters) && negb (x =? ch "%").

Lemma prefixes_ok_check v : forallb prefix_character_ok (kPrefixCharacters v) = true -> prefixes_ok v.
Proof.
  intros Hall x Hx. rewrite forallb_forall in Hall. specialize (Hall x (proj1 (list_elem_of_In _ _) Hx)).
  unfold prefix_character_ok in Hall. apply andb_true_iff in Hall as [Hall H4]. apply andb_true_iff in Hall as [Hall H3%bool_decide_eq_true_1].
  apply andb_true_iff in Hall as [H1%negb_true_iff H2]. apply negb_true_iff, Z.eqb_neq in H2. by apply negb_true_iff, Z.eqb_neq in H4.
Qed.

Lemma kernel_prefixes_ok : prefixes_ok kernel_variant.
Proof. apply prefixes_ok_check. reflexivity. Qed.

Lemma libc_prefixes_ok prec emax : prefixes_ok (libc_variant prec emax).
Proof. apply prefixes_ok_check. reflexivity. Qed.

(** ** Numbers *)

(** The number digits stand for. *)
Definition digit_value (c : Z) : Z := if c <=? ch "9" then c - ch "0" else c - ch "a" + 10.
Definition numeral_value (radix : Z) (l : list Z) : Z := fold_left (fun n c => n * radix + digit_value c) l 0.

(** Its digits without leading zeros. *)
Definition is_numeral (radix n : Z) (l : list Z) : Prop :=
  numeral_value radix l = n /\ (forall c, c ∈ l -> exists d, 0 <= d < radix /\ c = hex_digit d)
  /\ exists c l', l = c :: l' /\ (l' <> [] -> c <> ch "0").

Lemma hex_digit_value d : 0 <= d < 16 -> digit_value (hex_digit d) = d /\ (hex_digit d = ch "0" <-> d = 0).
Proof.
  intros Hd. assert (Hall : Forall (fun d => digit_value (hex_digit d) = d /\ (hex_digit d = ch "0" <-> d = 0)) (seqZ 0 16)).
  { repeat constructor; vm_compute; try done; intros; discriminate. }
  rewrite Forall_forall in Hall. apply Hall, elem_of_seqZ. lia.
Qed.

Lemma write_backwards_numeral radix : 2 <= radix <= 16 -> forall index value rest,
  0 <= value < radix ^ (Z.of_nat index + 1) ->
  exists l, write_backwards index radix value rest = l ++ rest /\ is_numeral radix value l.
Proof.
  intros Hr. induction index as [|index IH]; intros value rest Hv; simpl.
  - assert (Hsmall : value < radix) by (rewrite Z.pow_1_r in Hv; lia).
    rewrite (Z.mod_small value), (Z.div_small value) by lia. simpl. exists [hex_digit value]. split; [done|].
    destruct (hex_digit_value value ltac:(lia)) as [Hd Hz]. split; [unfold numeral_value; simpl; lia|]. split.
    + intros c ->%list_elem_of_singleton. exists value. split; [lia|done].
    + by exists (hex_digit value), [].
  - pose proof (Z.mod_pos_bound value radix ltac:(lia)) as Hm. destruct (hex_digit_value (value mod radix) ltac:(lia)) as [Hd Hz].
    pose proof (Z.div_mod value radix ltac:(lia)) as Hdm.
    destruct (Z.eqb_spec (value / radix) 0) as [H0|H0].
    + exists [hex_digit (value mod radix)]. split; [done|]. split; [unfold numeral_value; simpl; lia|]. split.
      * intros c ->%list_elem_of_singleton. exists (value mod radix). split; [lia|done].
      * by exists (hex_digit (value mod radix)), [].
    + assert (Hq : 0 <= value / radix < radix ^ (Z.of_nat index + 1)).
      { split; [apply Z.div_pos; lia|]. apply Z.div_lt_upper_bound; [lia|].
        rewrite <- Z.pow_succ_r by lia. replace (Z.succ (Z.of_nat index + 1)) with (Z.of_nat (Datatypes.S index) + 1) by lia. lia. }
      destruct (IH (value / radix) (hex_digit (value mod radix) :: rest) Hq) as (l & -> & Hval & Hdigits & c & l' & -> & Hhead).
      exists (c :: l' ++ [hex_digit (value mod radix)]). split; [by rewrite <- !app_comm_cons, <- app_assoc|]. split; [|split].
      * unfold numeral_value in *. rewrite app_comm_cons, fold_left_app, Hval. simpl. rewrite Hd. lia.
      * intros x. rewrite app_comm_cons, elem_of_app, list_elem_of_singleton. intros [Hx| ->]; [by apply Hdigits|].
        exists (value mod radix). split; [lia|done].
      * exists c, (l' ++ [hex_digit (value mod radix)]). split; [done|]. intros _ Ec.
        destruct l' as [|y l']; [|by apply (Hhead ltac:(done))]. unfold numeral_value in Hval. cbn [fold_left] in Hval.
        rewrite Ec in Hval. change (digit_value (ch "0")) with 0 in Hval. lia.
Qed.

Lemma fold_digits_lower radix l acc : 2 <= radix <= 16 -> (forall c, c ∈ l -> exists d, 0 <= d < radix /\ c = hex_digit d) -> 0 <= acc ->
  acc * radix ^ Z.of_nat (length l) <= fold_left (fun n c => n * radix + digit_value c) l acc.
Proof.
  intros Hr. revert acc. induction l as [|c l IH]; intros acc Hl Hacc; [simpl; lia|]. cbn [fold_left length].
  destruct (Hl c ltac:(by left)) as (d & Hd & ->). destruct (hex_digit_value d ltac:(lia)) as [-> _].
  etrans; [|apply IH; [intros x Hx; apply Hl; by right|nia]].
  rewrite Nat2Z.inj_succ, Z.pow_succ_r by lia. assert (0 < radix ^ Z.of_nat (length l)) by (apply Z.pow_pos_nonneg; lia). nia.
Qed.

(** A number below [radix ^ k] has no more than [k] digits. *)
Lemma numeral_length radix n l k : 2 <= radix <= 16 -> is_numeral radix n l -> (1 <= k)%nat -> n < radix ^ Z.of_nat k ->
  (length l <= k)%nat.
Proof.
  intros Hr (Hval & Hl & c & l' & -> & Hhead) Hk Hn. destruct (decide (l' = [])) as [->|Hne]; [simpl; lia|]. cbn [length].
  destruct (Hl c ltac:(by left)) as (d & Hd & Hc). destruct (hex_digit_value d ltac:(lia)) as [Hv Hz].
  unfold numeral_value in Hval. cbn [fold_left] in Hval.
  assert (Hpos : 1 <= d) by (assert (d <> 0) by (intros E; apply (Hhead Hne); rewrite Hc; by apply Hz); lia).
  pose proof (fold_digits_lower radix l' (0 * radix + digit_value c) Hr ltac:(intros x Hx; apply Hl; by right) ltac:(rewrite Hc; lia)) as Hlow.
  rewrite Hval, Hc, Hv in Hlow.
  assert (Hlt : radix ^ Z.of_nat (length l') < radix ^ Z.of_nat k).
  { assert (0 < radix ^ Z.of_nat (length l')) by (apply Z.pow_pos_nonneg; lia). nia. }
  apply Z.pow_lt_mono_r_iff in Hlt; lia.
Qed.

(** 64 digits hold any 64-bit number. *)
Lemma temp_string_numeral radix value : 8 <= radix <= 16 -> 0 <= value < 2 ^ 64 -> is_numeral radix value (temp_string radix value).
Proof.
  intros Hr Hv. unfold temp_string. destruct (write_backwards_numeral radix ltac:(lia) 63 value []) as (l & -> & Hl).
  - split; [lia|]. apply (Z.lt_le_trans _ (2 ^ 64)); [lia|]. change (Z.of_nat 63 + 1) with 64. apply Z.pow_le_mono_l. lia.
  - by rewrite app_nil_r.
Qed.

Definition collect (c : Z) (s : list Z) : result (list Z) := Done (s ++ [u8 c]).

Example prints_hex :
  vprintf kernel_variant collect (chars "ab%08x %s%%-%3d.") [ArgInt 0xbeef; ArgString (chars "str" ++ [0]); ArgInt (2 ^ 32 - 5)] []
  = Done (chars "ab0000beef str%--  5.").
Proof. vm_compute. reflexivity. Qed.

Example prints_float :
  vprintf kernel_variant collect (chars "%f %.2f") [ArgDouble (value_as_float 0x3fc00000); ArgDouble (value_as_float 0xc0490fdb)] []
  = Done (chars "1.5 -3.141").
Proof. vm_compute. reflexivity. Qed.

(** The [double] nearest to 0.1, with 53 bits in libc, has the fraction of the nearest [float]. *)
Example prints_double :
  vprintf (libc_variant 53 1024) collect (chars "%f %f") [ArgDouble (S754_finite false 0x1999999999999a (-56)); ArgDouble (value_as_float 0x3dcccccd)] []
  = vprintf kernel_variant collect (chars "%f %f") [ArgDouble (value_as_float 0x3dcccccd); ArgDouble (value_as_float 0x3dcccccd)] [].
Proof. vm_compute. reflexivity. Qed.

(** The integer a conversion shows. *)
Definition shown (v : variant) (conversion value : Z) : Z :=
  let w := if has_long_long v then 64 else 32 in
  if is_signed conversion && Z.testbit value (w - 1) then value - 2 ^ w else value.

Lemma testbit_top w x : 0 < w -> 0 <= x < 2 ^ w -> Z.testbit x (w - 1) = true -> 2 ^ (w - 1) <= x.
Proof.
  intros Hw Hx Hbit. apply Z.le_ngt. intros Hlt. rewrite <- (Z.mod_small x (2 ^ (w - 1))) in Hbit by lia.
  rewrite Z.mod_pow2_bits_high in Hbit by lia. done.
Qed.

Lemma take_sign_spec v conversion value sign rest :
  0 <= value < 2 ^ (if has_long_long v then 64 else 32) -> take_sign v conversion value = (sign, rest) ->
  rest = Z.abs (shown v conversion value) /\ 0 <= rest < 2 ^ 64
  /\ sign = if shown v conversion value <? 0 then [ch "-"] else [].
Proof.
  intros Hv Hsign. unfold take_sign in Hsign. unfold shown. destruct (is_signed conversion); cbn [andb] in *.
  - destruct (has_long_long v); cbv iota in *.
    + change (64 - 1) with 63. destruct (Z.testbit value 63) eqn:Hbit; injection Hsign as <- <-.
      * pose proof (testbit_top 64 value ltac:(lia) Hv Hbit). unfold u64. rewrite <- (Z.mod_add (- value) 1) by lia.
        rewrite Z.mod_small by lia. rewrite (proj2 (Z.ltb_lt (value - 2 ^ 64) 0)) by lia. by split_and!; [lia..|].
      * rewrite (proj2 (Z.ltb_ge value 0)) by lia. by split_and!; [lia..|].
    + change (32 - 1) with 31. destruct (Z.testbit value 31) eqn:Hbit; injection Hsign as <- <-.
      * pose proof (testbit_top 32 value ltac:(lia) Hv Hbit). unfold u32. rewrite <- (Z.mod_add (- value) 1) by lia.
        rewrite Z.mod_small by lia. rewrite (proj2 (Z.ltb_lt (value - 2 ^ 32) 0)) by lia. by split_and!; [lia..|].
      * rewrite (proj2 (Z.ltb_ge value 0)) by lia. by split_and!; [lia..|].
  - injection Hsign as <- <-. rewrite (proj2 (Z.ltb_ge value 0)) by lia. destruct (has_long_long v); (by split_and!; [lia..|]).
Qed.

Lemma radix_range conversion : 8 <= radix_of conversion <= 16.
Proof. unfold radix_of. repeat case_match; lia. Qed.

Lemma integer_text_spec v zero width precision conversion value :
  0 <= value < 2 ^ (if has_long_long v then 64 else 32) ->
  exists pad digits,
    integer_text v zero width precision conversion value
    = (if shown v conversion value <? 0 then [ch "-"] else []) ++ pad ++ digits
    /\ is_numeral (radix_of conversion) (Z.abs (shown v conversion value)) digits
    /\ Z.of_nat (length pad) = Z.max 0 (Z.max width precision - Z.of_nat (length digits))
    /\ forall c, c ∈ pad -> c = ch " " \/ c = ch "0".
Proof.
  intros Hv. unfold integer_text.
  destruct (take_sign v conversion value) as [sign rest] eqn:Hsign.
  destruct (take_sign_spec v conversion value sign rest Hv Hsign) as (-> & Hrange & ->).
  set (digits := temp_string _ _). set (count := Z.of_nat (length digits)).
  exists (repeat_char (width - count) (if zero then ch "0" else ch " ") ++ repeat_char (precision - Z.max count width) (ch "0")), digits.
  rewrite <- app_assoc. split; [done|]. split; [|split].
  - apply temp_string_numeral; [apply radix_range|done].
  - rewrite length_app. unfold repeat_char. rewrite !length_replicate. lia.
  - intros c. unfold repeat_char. rewrite elem_of_app, !elem_of_replicate. destruct zero; tauto.
Qed.

(** C23: formatted output.  A format string is a sequence of characters, [%%] and directives with
    flags, a width, a precision and prefixes in any number and order the syntax allows.  For
    every such sequence the scanner, a loop over six states that looks at a character up to six
    times, puts out what the pieces say one after the other, takes the arguments in their order,
    stops at the first argument that does not fit, and always ends; in the kernel and in the
    library.  An integer comes out as its sign, the padding and its digits without leading zeros,
    and the padding fills the larger of width and precision.  (So the sign stands before the
    spaces and does not count for the width; the flags [-], [+] and space do nothing.) *)
Theorem vprintf_renders v {S} (putc : Z -> S -> result S) l args s :
  prefixes_ok v -> Forall (piece_ok v) l ->
  vprintf v putc (concat (map unparse l)) args s = ('(_, s) <-- print_pieces v putc l args s;; Done s)
  /\ forall zero width precision conversion value,
     0 <= value < 2 ^ (if has_long_long v then 64 else 32) ->
     exists pad digits,
       integer_text v zero width precision conversion value
       = (if shown v conversion value <? 0 then [ch "-"] else []) ++ pad ++ digits
       /\ is_numeral (radix_of conversion) (Z.abs (shown v conversion value)) digits
       /\ Z.of_nat (length pad) = Z.max 0 (Z.max width precision - Z.of_nat (length digits))
       /\ forall c, c ∈ pad -> c = ch " " \/ c = ch "0".
Proof.
  intros Hpre Hok. split; [by rewrite vprintf_prints, prints_pieces|].
  intros zero width precision conversion value. apply integer_text_spec.
Qed.

(** [kprintf("%5d-%s", -7, "ok")] *)
Definition example_pieces : list piece :=
  [Directive [] [ch "5"] None [] (ch "d"); Literal (ch "-"); Directive [] [] None [] (ch "s")].

Lemma vprintf_renders_witness :
  vprintf kernel_variant collect (chars "%5d-%s") [ArgInt (2 ^ 32 - 7); ArgString (chars "ok" ++ [0])] []
  = Done (chars "-    7-ok").
Proof.
  assert (Hok : Forall (piece_ok kernel_variant) example_pieces).
  { assert (Hnone : forall set, all_in [] set) by by intros set c ?%elem_of_nil.
    assert (Hdigits : forall c l, isdigit c = true -> digits_only l -> digits_only (c :: l)).
    { intros c l Hc Hl x [->|Hx]%elem_of_cons; [done|by apply Hl]. }
    assert (Hno : digits_only []) by by intros c ?%elem_of_nil.
    repeat (apply Forall_cons; split); [|done| |by apply Forall_nil]; simpl; (split_and!; try done; try vm_decide).
    by apply Hdigits. }
  change (chars "%5d-%s") with (concat (map unparse example_pieces)).
  rewrite (proj1 (vprintf_renders kernel_variant collect example_pieces _ _ kernel_prefixes_ok Hok)).
  vm_compute. reflexivity.
Defined.
