(* ===== verification/Stdio.v ===== *)
(** * Stdio: output to strings and to the console, and reading a number back
      (software/libs/libc/src/stdio.c, atoi of stdlib.c)

    A [FILE] with a buffer writes to memory, [stdout] to the console; a buffer is the array from
    its address on.  Writing to an open file is refused by the bare-metal library (write in
    libos/bare-metal/fs.c) and changes nothing. *)

From Stdlib Require Import Ascii String.
From S2P Require Export Printf.
From stdpp Require Import list.
Import stdpp.list_relations.list.

#[local] Open Scope Z_scope.

(** ** Streams *)

Record FILE := { write_buf : option (list Z); write_offset : Z; write_buf_len : Z }.

#[export]
Instance FILE_fields : Fields FILE := fun f => Build_FILE (write_buf f) (write_offset f) (write_buf_len f).

(** [stdout] and what it has shown, or another stream. *)
Inductive stream := Stdout (console : list Z) | Stream (f : FILE).

Definition fputc (c : Z) (s : stream) : result stream :=
  match s with
  | Stdout console => Done (Stdout (console ++ [u8 c]))
  | Stream f =>
      match write_buf f with
      | None => Done s
      | Some buf =>
          if write_offset f <? write_buf_len f then
            match buf !! Z.to_nat (write_offset f) with
            | None => Fault OutOfBounds
            | Some _ =>
                Done (Stream (f <| write_buf := Some (<[Z.to_nat (write_offset f) := u8 c]> buf) |> <| write_offset ::= Z.add 1 |>))
            end
          else Done s
      end
  end.

(** [for (c = str; *c; c++)] *)
Fixpoint fputs_loop (str : list Z) (count : Z) (s : stream) : result (Z * stream) :=
  match str with
  | [] => Fault OutOfBounds
  | c :: str => if c =? 0 then Done (count, s) else s <-- fputc c s;; fputs_loop str (count + 1) s
  end.

Definition fputs (str : list Z) (s : stream) : result (Z * stream) := fputs_loop str 0 s.

(** [s] is [stdout]. *)
Definition puts (str : list Z) (s : stream) : result (Z * stream) :=
  '(n, s) <-- fputs_loop str 0 s;; s <-- fputc 10 s;; Done (n + 1, s).

Fixpoint fwrite_loop (count : nat) (out : list Z) (s : stream) : result stream :=
  match count with
  | O => Done s
  | S count => match out with [] => Fault OutOfBounds | c :: out => s <-- fputc c s;; fwrite_loop count out s end
  end.

Definition fwrite (ptr : list Z) (size count : Z) (s : stream) : result (Z * stream) :=
  s <-- fwrite_loop (Z.to_nat (u32 (size * count))) ptr s;; Done (count, s).

Section Formatted.

(** The compiler's [double]. *)
Context (prec emax : Z).

Definition vfprintf (fmt : list Z) (args : list argument) (s : stream) : result stream :=
  vprintf (libc_variant prec emax) fputc fmt args s.

Definition printf (fmt : list Z) (args : list argument) (console : list Z) : result stream := vfprintf fmt args (Stdout console).

(** The result and the buffer. *)
Definition vsnprintf (buf : list Z) (length : Z) (fmt : list Z) (args : list argument) : result (Z * list Z) :=
  s <-- vfprintf fmt args (Stream {| write_buf := Some buf; write_offset := 0; write_buf_len := s32 length |});;
  s <-- fputc 0 s;;
  match s with
  | Stream {| write_buf := Some buf; write_offset := n |} => Done (n, buf)
  | _ => Fault OutOfBounds
  end.

Definition snprintf (buf : list Z) (length : Z) (fmt : list Z) (args : list argument) : result (Z * list Z) :=
  vsnprintf buf length fmt args.

Definition sprintf (buf : list Z) (fmt : list Z) (args : list argument) : result (Z * list Z) :=
  vsnprintf buf 0x7fffffff fmt args.

(** *** atoi *)

Fixpoint atoi_loop (num : list Z) (value : Z) : result Z :=
  match num with
  | [] => Fault OutOfBounds
  | c :: num => if negb (c =? 0) && isdigit c then atoi_loop num (s32 (value * 10 + c - ch "0")) else Done value
  end.

Definition atoi (num : list Z) : result Z := atoi_loop num 0.

(** ** Writing to a string *)

(** After [text]: as much of it as fits in [len], and what was behind it. *)
Definition written (buf text : list Z) (len : Z) : stream :=
  let fits := take (Z.to_nat len) text in
  Stream {| write_buf := Some (fits ++ drop (length fits) buf); write_offset := Z.of_nat (length fits); write_buf_len := len |}.

Lemma fputc_written buf text len c : 0 <= len -> (Z.of_nat (length text) < len -> (length text < length buf)%nat) ->
  fputc c (written buf text len) = Done (written buf (text ++ [u8 c]) len).
Proof.
  intros Hlen Hroom. unfold fputc, written. cbn [write_buf write_offset write_buf_len].
  destruct (Z.ltb_spec (Z.of_nat (length (take (Z.to_nat len) text))) len) as [Hlt|Hge].
  - assert (Hall : (length text < Z.to_nat len)%nat) by (rewrite length_take in Hlt; lia).
    rewrite !(take_ge text), (take_ge (text ++ [u8 c])) by (rewrite ?length_app; simpl; lia).
    rewrite Nat2Z.id. destruct (lookup_lt_is_Some_2 buf (length text)) as [x Hx]; [lia|].
    rewrite lookup_app_r, Nat.sub_diag by done. rewrite (drop_S _ x) by done. cbn [lookup list_lookup].
    unfold update. cbn [write_buf write_offset write_buf_len]. rewrite insert_app_r_alt, Nat.sub_diag by done. cbn [insert list_insert].
    rewrite length_app, <- app_assoc. cbn [length app]. rewrite Nat.add_1_r. do 3 f_equal. lia.
  - rewrite length_take in Hge. rewrite take_app_le by lia. done.
Qed.

Lemma written_nil buf len : written buf [] len = Stream {| write_buf := Some buf; write_offset := 0; write_buf_len := len |}.
Proof. unfold written. by rewrite take_nil. Qed.

Lemma vfprintf_written buf len fmt args : 0 <= len <= Z.of_nat (length buf) ->
  vfprintf fmt args (Stream {| write_buf := Some buf; write_offset := 0; write_buf_len := len |})
  = (text <-- vprintf (libc_variant prec emax) collect fmt args [];; Done (written buf text len)).
Proof.
  intros Hlen. rewrite <- written_nil.
  pose proof (vprintf_rel (libc_variant prec emax) (fun text s => s = written buf text len) collect fputc) as Hsim.
  specialize (Hsim (fun c s t (H : t = written buf s len) => ltac:(rewrite H; rewrite fputc_written by lia; done)) fmt args [] (written buf [] len) eq_refl).
  unfold vfprintf, result_rel in *.
  destruct (vprintf _ collect fmt args []), (vprintf _ fputc fmt args _); cbn [bind_result]; [by rewrite Hsim|done|done|by rewrite Hsim].
Qed.

Lemma vsnprintf_written buf length_ fmt args : 0 <= s32 length_ <= Z.of_nat (length buf) ->
  vsnprintf buf length_ fmt args
  = (text <-- vprintf (libc_variant prec emax) collect fmt args [];;
     let fits := take (Z.to_nat (s32 length_)) (text ++ [0]) in
     Done (Z.of_nat (length fits), fits ++ drop (length fits) buf)).
Proof.
  intros Hlen. unfold vsnprintf. rewrite vfprintf_written by done.
  destruct (vprintf _ collect fmt args []) as [text|]; [|done]. cbn [bind_result]. by rewrite fputc_written by lia.
Qed.

Lemma put_all_written l buf text len :
  Z.of_nat (length buf) <= len -> (length text + length l <= length buf)%nat ->
  put_all fputc l (written buf text len) = Done (written buf (text ++ map u8 l) len).
Proof.
  revert text. induction l as [|c l IH]; intros text Hlen Hroom; cbn [put_all length map] in *; [by rewrite app_nil_r|].
  rewrite fputc_written by lia. cbn [bind_result]. rewrite IH by (rewrite ?length_app; cbn [length]; lia). by rewrite <- app_assoc.
Qed.

(** C39: formatting into a buffer.  For any format and arguments, [snprintf] (and [vsnprintf])
    with a buffer of at least [n] bytes makes the text that printing on a stream would, puts as
    much of it and its terminator as [n] bytes hold into the buffer, and leaves every byte after
    them alone.  The result counts the terminator; and a text of [n] bytes or more is cut without
    one. *)
Theorem snprintf_bounded buf n fmt args :
  0 <= n <= Z.of_nat (length buf) -> n < 2 ^ 31 ->
  match vprintf (libc_variant prec emax) collect fmt args [] with
  | Fault f => snprintf buf n fmt args = Fault f
  | Done text =>
      exists r buf', snprintf buf n fmt args = Done (r, buf') /\ length buf' = length buf
      /\ r = Z.min n (Z.of_nat (length text) + 1)
      /\ drop (Z.to_nat r) buf' = drop (Z.to_nat r) buf
      /\ (Z.of_nat (length text) < n -> take (Z.to_nat r) buf' = text ++ [0])
      /\ (n <= Z.of_nat (length text) -> take (Z.to_nat r) buf' = take (Z.to_nat n) text)
  end.
Proof.
  intros Hn Hmax. assert (Hs : s32 n = n) by (apply s32_small; lia).
  unfold snprintf. rewrite vsnprintf_written by (rewrite Hs; lia). rewrite Hs.
  destruct (vprintf _ collect fmt args []) as [text|f]; [|done]. cbn [bind_result]. cbv zeta.
  set (fits := take (Z.to_nat n) (text ++ [0])).
  assert (Hfits : length fits = Nat.min (Z.to_nat n) (length text + 1)) by (unfold fits; rewrite length_take, length_app; simpl; lia).
  exists (Z.of_nat (length fits)), (fits ++ drop (length fits) buf). rewrite Nat2Z.id. split; [done|].
  split; [rewrite length_app, length_drop; lia|]. split; [lia|]. rewrite drop_app_length, take_app_length. split; [done|].
  split; intros Hcase; unfold fits; [rewrite take_ge by (rewrite length_app; simpl; lia)|rewrite take_app_le by lia]; done.
Qed.

(** *** Reading back *)

Lemma decimal_digit c d : 0 <= d < 10 -> c = hex_digit d -> isdigit c = true /\ c - ch "0" = d /\ c =? 0 = false /\ u8 c = c.
Proof.
  intros Hd ->. assert (Hall : Forall (fun d => isdigit (hex_digit d) = true /\ hex_digit d - ch "0" = d /\ hex_digit d =? 0 = false
    /\ u8 (hex_digit d) = hex_digit d) (seqZ 0 10)) by (repeat constructor; vm_compute; done).
  rewrite Forall_forall in Hall. apply Hall, elem_of_seqZ. lia.
Qed.

Definition decimal_digits_only (l : list Z) : Prop := forall c, c ∈ l -> exists d, 0 <= d < 10 /\ c = hex_digit d.

Lemma numeral_grows l acc : decimal_digits_only l -> 0 <= acc ->
  acc <= fold_left (fun n c => n * 10 + digit_value c) l acc.
Proof.
  revert acc. induction l as [|c l IH]; intros acc Hl Hacc; simpl; [lia|].
  destruct (Hl c ltac:(by left)) as (d & Hd & ->). destruct (hex_digit_value d ltac:(lia)) as [-> _].
  assert (Hl' : decimal_digits_only l) by (intros x Hx; apply Hl; by right).
  specialize (IH (acc * 10 + d) Hl' ltac:(lia)). lia.
Qed.

Lemma atoi_numeral l acc rest : decimal_digits_only l -> 0 <= acc ->
  fold_left (fun n c => n * 10 + digit_value c) l acc < 2 ^ 31 ->
  atoi_loop (l ++ 0 :: rest) acc = Done (fold_left (fun n c => n * 10 + digit_value c) l acc).
Proof.
  revert acc. induction l as [|c l IH]; intros acc Hl Hacc Hmax; [done|].
  destruct (Hl c ltac:(by left)) as (d & Hd & Hc). destruct (decimal_digit c d Hd Hc) as (H1 & H2 & H3 & _).
  assert (Hl' : decimal_digits_only l) by (intros x Hx; apply Hl; by right).
  simpl in *. rewrite H1, H3. simpl. replace (acc * 10 + c - ch "0") with (acc * 10 + d) by lia.
  assert (digit_value c = d) as Hv by (rewrite Hc; apply hex_digit_value; lia). rewrite Hv in *.
  pose proof (numeral_grows l (acc * 10 + d) Hl' ltac:(lia)). rewrite s32_small by lia. by apply IH; [|lia|].
Qed.
(** ["%d"] puts out a sign and digits. *)
Lemma prints_int n : - 2 ^ 31 <= n < 2 ^ 31 ->
  exists digits, is_numeral 10 (Z.abs n) digits /\ (length digits <= 10)%nat
  /\ forall (S : Type) (putc : Z -> S -> result S) s,
     vprintf (libc_variant prec emax) putc (chars "%d") [ArgInt (u32 n)] s
     = put_all putc ((if n <? 0 then [ch "-"] else []) ++ digits) s.
Proof.
  intros Hn. assert (Hs : s32 (u32 n) = n) by (rewrite signed_u32; by apply s32_small).
  assert (Hu : 0 <= u64 n < 2 ^ 64) by (unfold u64; apply Z.mod_pos_bound; lia).
  assert (Hshown : shown (libc_variant prec emax) (ch "d") (u64 n) = n).
  { unfold shown. simpl has_long_long. change (is_signed (ch "d")) with true. cbv iota. cbn [andb]. change (64 - 1) with 63.
    unfold u64 in *. destruct (Z.ltb_spec n 0).
    - assert (E : n mod 2 ^ 64 = n + 2 ^ 64) by (rewrite <- (Z.mod_add n 1) by lia; rewrite Z.mod_small; lia).
      rewrite E. assert (Z.testbit (n + 2 ^ 64) 63 = true) as ->; [|lia].
      rewrite Z.testbit_true by lia. rewrite <- (Z.div_unique (n + 2 ^ 64) (2 ^ 63) 1 (n + 2 ^ 63)) by lia. done.
    - rewrite Z.mod_small by lia. assert (Z.testbit n 63 = false) as ->; [|done].
      rewrite Z.testbit_false by lia. by rewrite Z.div_small by lia. }
  destruct (integer_text_spec (libc_variant prec emax) false 0 0 (ch "d") (u64 n) Hu) as (pad & digits & Htext & Hnum & Hpad & _).
  rewrite Hshown in Htext, Hnum. change (radix_of (ch "d")) with 10 in Hnum.
  assert (Hlen : (length digits <= 10)%nat) by (apply (numeral_length 10 (Z.abs n)); [lia|done|lia|change (10 ^ Z.of_nat 10) with 10000000000; lia]).
  assert (pad = []) as -> by (apply length_zero_iff_nil; lia). cbn [app] in Htext.
  exists digits. split; [done|]. split; [done|]. intros S putc s.
  change (chars "%d") with (concat (map unparse [Directive [] [] None [] (ch "d")])).
  rewrite vprintf_prints, prints_pieces; [|apply libc_prefixes_ok|].
  - cbn [print_pieces render decimal fold_left bits_of]. unfold convert, bits_of. cbn [fold_left].
    change (is_integer_conversion (ch "d")) with true. change (ch "d" =? ch "p") with false. cbv iota. unfold integer_value.
    change (has_long_long (libc_variant prec emax) && bit_of_is_set (kPrefixCharacters (libc_variant prec emax)) (ch "L") 0) with false.
    change (has_long_long (libc_variant prec emax) && is_signed (ch "d")) with true. cbv iota. cbn [bind_result]. rewrite Hs.
    change (false || bit_of_is_set kFlagCharacters (ch "0") 0) with false. rewrite Htext. by destruct (put_all putc _ s).
  - apply Forall_singleton. simpl. split_and!; try done; try (by intros ? ?%elem_of_nil); vm_decide.
Qed.

(** C34: a printed number reads back.  [sprintf] with ["%d"] writes an [int] into any buffer with
    room for the number and its terminator, and touches nothing after it; its result is one more
    than the number of characters, since it counts the terminator.  [atoi] of the buffer gives a
    number back that was not negative, and 0 for one that was: it does not know the sign. *)
Theorem number_reads_back n buf :
  - 2 ^ 31 <= n < 2 ^ 31 -> (12 <= length buf)%nat -> Z.of_nat (length buf) < 2 ^ 31 ->
  exists buf' r, sprintf buf (chars "%d") [ArgInt (u32 n)] = Done (r, buf')
  /\ length buf' = length buf /\ drop (Z.to_nat r) buf' = drop (Z.to_nat r) buf
  /\ buf' !! Z.to_nat (r - 1) = Some 0
  /\ atoi buf' = Done (Z.max 0 n).
Proof.
  intros Hn Hroom Hmax. destruct (prints_int n Hn) as (digits & (Hval & Hdigits & c & l' & Hd & _) & Hlen & Hprint).
  set (text := (if n <? 0 then [ch "-"] else []) ++ digits).
  assert (Hplain : map u8 text = text).
  { unfold text. rewrite map_app. f_equal; [by destruct (n <? 0)|]. clear -Hdigits. induction digits as [|x digits IH]; [done|].
    simpl. f_equal; [|apply IH; intros y Hy; apply Hdigits; by right].
    destruct (Hdigits x ltac:(by left)) as (d & Hd & Hx). by apply (decimal_digit x d). }
  assert (Htext : (length text <= 11)%nat) by (unfold text; rewrite length_app; destruct (n <? 0); simpl; lia).
  unfold sprintf, vsnprintf, vfprintf. rewrite Hprint. fold text. change (s32 0x7fffffff) with 0x7fffffff.
  rewrite <- written_nil, put_all_written by (simpl; lia). cbn [bind_result app]. rewrite Hplain, fputc_written by (simpl; lia).
  change (u8 0) with 0. unfold written. cbn [bind_result].
  rewrite take_ge by (rewrite length_app; cbn [length]; lia). set (whole := text ++ [0]).
  assert (Hw : length whole = S (length text)) by (unfold whole; rewrite length_app; simpl; lia).
  exists (whole ++ drop (length whole) buf), (Z.of_nat (length whole)). rewrite Nat2Z.id. split; [done|].
  split; [rewrite length_app, length_drop; lia|]. split; [by rewrite drop_app_length|]. split.
  - rewrite Hw. replace (Z.to_nat (Z.of_nat (S (length text)) - 1)) with (length text) by lia.
    rewrite lookup_app_l by lia. unfold whole. by rewrite lookup_app_r, Nat.sub_diag.
  - unfold whole. rewrite <- app_assoc. unfold text. destruct (Z.ltb_spec n 0) as [Hneg|Hpos].
    + rewrite Z.max_l by lia. reflexivity.
    + cbn [app]. unfold atoi. rewrite atoi_numeral; [|exact Hdigits|lia|].
      * unfold numeral_value in Hval. rewrite Hval. f_equal. lia.
      * unfold numeral_value in Hval. rewrite Hval. lia.
Qed.

End Formatted.

Lemma snprintf_bounded_witness :
  exists buf', snprintf 24 128 (replicate 6 7) 4 (chars "x%u") [ArgInt 12345] = Done (4, buf')
  /\ buf' = chars "x123" ++ [7; 7].
Proof.
  assert (Htext : vprintf (libc_variant 24 128) collect (chars "x%u") [ArgInt 12345] [] = Done (chars "x12345")) by (vm_compute; reflexivity).
  pose proof (snprintf_bounded 24 128 (replicate 6 7) 4 (chars "x%u") [ArgInt 12345] ltac:(simpl; lia) ltac:(lia)) as H.
  rewrite Htext in H. destruct H as (r & buf' & Hrun & _ & Hr & Hrest & _ & Hcut).
  change (Z.min 4 (Z.of_nat (length (chars "x12345")) + 1)) with 4 in Hr. subst r. exists buf'. split; [exact Hrun|].
  change (Z.to_nat 4) with 4%nat in *. rewrite <- (take_drop 4 buf'). rewrite Hcut, Hrest by (vm_compute; discriminate). reflexivity.
Defined.

Lemma number_reads_back_witness :
  exists buf' r, sprintf 24 128 (replicate 16 7) (chars "%d") [ArgInt (u32 (-40))] = Done (r, buf') /\ atoi buf' = Done 0.
Proof.
  destruct (number_reads_back 24 128 (-40) (replicate 16 7) ltac:(lia) ltac:(simpl; lia) ltac:(simpl; lia))
    as (buf' & r & Hrun & _ & _ & _ & Hread).
  exists buf', r. split; [exact Hrun|exact Hread].
Defined.
