(* ===== verification/Syscall.v ===== *)
(** * Syscall: system calls (kernel/syscall.c, user_copy.S, vga.c)

    The kernel runs in the address space of the process that called it.  Its loads at a user's
    address go through the page tables; a page that is not there faults, and the handler in
    trap.c maps it, or jumps to the fault handler of the hardware thread, or stops the kernel.
    The structures the allocators give are the argument [o]; what the address spaces and the loader
    themselves print is left out. *)

From Stdlib Require Import Ascii String.
From S2P Require Export Printf Vga Process.
From stdpp Require Import list gmap.
Import stdpp.list_relations.list.

#[local] Open Scope Z_scope.

(** ** Numbers *)

Definition SYS_spawn_thread : Z := 1.
Definition SYS_get_current_thread_id : Z := 2.
Definition SYS_exec : Z := 3.
Definition SYS_thread_exit : Z := 4.
Definition SYS_init_vga : Z := 5.
Definition SYS_create_area : Z := 6.
Definition SYS_set_perf_counter : Z := 7.
Definition SYS_read_perf_counter : Z := 8.
Definition SYS_get_cycle_count : Z := 9.
Definition SYS_write_console : Z := 10.

Definition ENOEXEC : Z := 8.
Definition EFAULT : Z := 14.
Definition EINVAL : Z := 22.

Definition NUM_PERF_COUNTERS : Z := 4.
Definition REG_PERF0_SEL : Z := 0x0200.
Definition REG_PERF0_VAL : Z := 0x0210.

(** [sizeof(tmp)] *)
Definition tmp_size : Z := 64.

(** ** State *)

(** The kernel, what it has put out, [fault_handler] of trap.c (0 is none) and the device registers. *)
Record system {B : Type} := {
  kernel : kernel_state;
  console : list Z;
  fault_handler : list Z;
  board : B
}.

Arguments system : clear implicits.

#[export]
Instance system_fields {B} : Fields (system B) := fun s =>
  Build_system B (kernel s) (console s) (fault_handler s) (board s).

(** What the allocators give during a system call. *)
Record call_objects := {
  new_thread : thread_objects;
  new_process : process_objects;
  new_area : vm_area;
  new_cache : Z;
  new_cache_file : Z
}.

Definition putc {B} (c : Z) (s : system B) : result (system B) := Done (s <| console ::= fun l => l ++ [u8 c] |>).

Definition kprintf {B} (fmt : list Z) (args : list argument) (s : system B) : result (system B) :=
  vprintf kernel_variant putc fmt args s.

(** A string constant that ends in a newline. *)
Definition line (s : string) : list Z := CString.chars s ++ [10].

Section Calls.

Context {B : Type} {registers : Registers B}.
(** The names in the directory of the mounted file system, and the handle that opening each gives. *)
Context (directory : list (list Z * Z)) (read_file : Z -> Z -> Z -> option (list Z)).
(** Addresses the linker gives, [uc_fault] and [usc_fault] of user_copy.S among them. *)
Context (process_list_head user_thread_kernel_start new_process_start uc_fault usc_fault : Z).
(** The hardware thread and its cycle counter. *)
Context (hwthread : nat) (cycle_count : Z).

Definition on_kernel (f : kernel_state -> result kernel_state) (s : system B) : result (system B) :=
  k <-- f (kernel s);; Done (s <| kernel := k |>).

Definition on_board (f : B -> result B) (s : system B) : result (system B) := b <-- f (board s);; Done (s <| board := b |>).

(** ** Memory of the process *)

(** [current_thread()->proc->space]; [None] is the kernel's. *)
Definition current_space (k : kernel_state) : result (option Z) :=
  proc <-- current_process hwthread k;; p <-- get_process proc k;; Done (proc_space p).

(** A load that finds its page. *)
Definition load_mapped (va : Z) (k : kernel_state) : result (option Z) :=
  sp <-- current_space k;;
  a <-- get_space sp (address_spaces k);;
  let m := vm (cs (address_spaces k)) in
  ptentry <-- query_translation_map (VmSpace.translation_map a) va m;;
  if Z.land ptentry PAGE_PRESENT =? 0 then Done None
  else Done (Some (phys_byte (PAGE_ALIGN ptentry + va mod PAGE_SIZE) (memory_of m))).

(** The fault of a load, as handle_trap treats it; no process of the kernel makes system calls. *)
Definition page_fault (va : Z) (is_store : bool) (k : kernel_state) : result (bool * kernel_state) :=
  sp <-- current_space k;;
  match sp with
  | None => Fault OutOfBounds
  | Some sp =>
      '(r, s) <-- handle_page_fault read_file sp va is_store (address_spaces k);;
      Done (r, k <| address_spaces := s |>)
  end.

Definition get_fault_handler (s : system B) : result Z :=
  match fault_handler s !! hwthread with Some h => Done h | None => Fault OutOfBounds end.

Definition set_fault_handler (h : Z) (s : system B) : system B := s <| fault_handler ::= <[hwthread := h]> |>.

(** A load by the kernel: [None] goes on at the fault handler; without one the kernel panics. *)
Definition load_byte (va : Z) (s : system B) : result (option Z * system B) :=
  b <-- load_mapped va (kernel s);;
  match b with
  | Some b => Done (Some b, s)
  | None =>
      '(r, k) <-- page_fault va false (kernel s);;
      let s := s <| kernel := k |> in
      if (r : bool) then
        b <-- load_mapped va k;;
        match b with Some b => Done (Some b, s) | None => Fault OutOfFuel end
      else
        h <-- get_fault_handler s;;
        if h =? 0 then Fault AssertFailed else Done (None, s)
  end.

(** *** user_copy.S *)

(** The bytes copied to [dest]; [None] is -1. *)
Fixpoint user_copy_loop (count : nat) (src : Z) (s : system B) : result (option (list Z) * system B) :=
  match count with
  | O => Done (Some [], s)
  | S count =>
      '(b, s) <-- load_byte src s;;
      match b with
      | None => Done (None, s)
      | Some b =>
          '(rest, s) <-- user_copy_loop count (u32 (src + 1)) s;;
          Done (match rest with Some l => Some (b :: l) | None => None end, s)
      end
  end.

Definition user_copy (src : Z) (count : nat) (s : system B) : result (option (list Z) * system B) :=
  '(l, s) <-- user_copy_loop count src (set_fault_handler uc_fault s);;
  Done (l, set_fault_handler 0 s).

(** The characters before the terminator, which is stored after them. *)
Fixpoint user_strlcpy_loop (count : nat) (src : Z) (s : system B) : result (option (list Z) * system B) :=
  match count with
  | O => Done (Some [], s)
  | S O => Done (Some [], s)
  | S count =>
      '(b, s) <-- load_byte src s;;
      match b with
      | None => Done (None, s)
      | Some b =>
          if b =? 0 then Done (Some [], s) else
          '(rest, s) <-- user_strlcpy_loop count (u32 (src + 1)) s;;
          Done (match rest with Some l => Some (b :: l) | None => None end, s)
      end
  end.

Definition user_strlcpy (src : Z) (count : nat) (s : system B) : result (option (list Z) * system B) :=
  '(l, s) <-- user_strlcpy_loop count src (set_fault_handler usc_fault s);;
  Done (l, set_fault_handler 0 s).

(** *** Names read without [user_copy] *)

(** A name that is copied up to its terminator, [count] characters being looked at. *)
Fixpoint read_name (count : nat) (src : Z) (s : system B) : result (list Z * system B) :=
  match count with
  | O => Done ([], s)
  | S count =>
      '(b, s) <-- load_byte src s;;
      match b with
      | None => Fault AssertFailed
      | Some b => if b =? 0 then Done ([], s) else '(l, s) <-- read_name count (u32 (src + 1)) s;; Done (b :: l, s)
      end
  end.

(** [strcmp(entry->name, path) == 0]: characters of the path are loaded as long as they are those
    of the name, whose terminator is not in the list. *)
Fixpoint same_name (name : list Z) (path : Z) (s : system B) : result (bool * system B) :=
  '(b, s) <-- load_byte path s;;
  match b with
  | None => Fault AssertFailed
  | Some b =>
      match name with
      | [] => Done (b =? 0, s)
      | c :: name => if c =? b then same_name name (u32 (path + 1)) s else Done (false, s)
      end
  end.

(** The loop of [open_file]. *)
Fixpoint lookup_name (entries : list (list Z * Z)) (path : Z) (s : system B) : result (option Z * system B) :=
  match entries with
  | [] => Done (None, s)
  | (name, handle) :: entries =>
      '(same, s) <-- same_name name path s;;
      if (same : bool) then Done (Some handle, s) else lookup_name entries path s
  end.

(** ** init_vga of the kernel *)

Definition allocate_frames (size : Z) (k : kernel_state) : result (Z * kernel_state) :=
  let s := address_spaces k in
  '(pa, f) <-- allocate_contiguous_memory size (frames (vm (cs s)));;
  Done (pa, k <| address_spaces := s <| cs := cs s <| vm := vm (cs s) <| frames := f |> |> |> |>).

Definition frame_buffer_name : list Z := CString.chars "frame buffer".

Definition kernel_init_vga (o : call_objects) (mode : Z) (s : system B) : result (Z * system B) :=
  s <-- on_board (register_write Vga.REG_VGA_ENABLE 0) s;;
  match enum_of_Z mode with
  | None => Done (0, s)
  | Some m =>
      let t := mode_timing m in
      s <-- on_board (compile_microcode t) s;;
      let fb_size := hres t * vres t * 4 in
      '(phys_addr, k) <-- allocate_frames fb_size (kernel s);;
      sp <-- current_space k;;
      '(area, sps) <-- map_contiguous_memory sp (new_area o) 0x40000000 fb_size PLACE_SEARCH_UP frame_buffer_name
                         (Z.lor AREA_WIRED AREA_WRITABLE) phys_addr (address_spaces k);;
      let s := s <| kernel := k <| address_spaces := sps |> |> in
      s <-- on_board (register_write Vga.REG_VGA_BASE phys_addr) s;;
      s <-- on_board (register_write REG_VGA_LENGTH (fb_size / 4)) s;;
      s <-- on_board (register_write Vga.REG_VGA_ENABLE 1) s;;
      s <-- kprintf (line "mapped frame buffer at %08x") [ArgInt fb_size] s;;
      match area with
      | None => Fault OutOfBounds
      | Some area => Done (low_address area, s)
      end
  end.

(** ** handle_syscall *)

Definition placement_of (place : Z) : option placement :=
  if place =? 0 then Some PLACE_EXACT else if place =? 1 then Some PLACE_SEARCH_DOWN
  else if place =? 2 then Some PLACE_SEARCH_UP else None.

(** [create_area] with a number for the placement: one that is none makes no area. *)
Definition create_area_anywhere (sp : option Z) (o : call_objects) (address size place : Z) (name : list Z) (area_flags : Z)
    (s : space_state) : result (option vm_area * space_state) :=
  match placement_of place with
  | Some p => create_area read_file sp (new_area o) (new_cache o) (new_cache_file o) address size p name area_flags 0 0 s
  | None => s <-- on_caches (create_vm_cache (new_cache o) (new_cache_file o) 0) s;; Done (None, s)
  end.

Definition sys_write_console (data length : Z) (s : system B) : result (Z * system B) :=
  if tmp_size - 2 <=? length then
    s <-- kprintf (line "size out of range") [] s;; Done (- EINVAL, s)
  else
    '(copied, s) <-- user_copy data (Z.to_nat length) s;;
    match copied with
    | None => s <-- kprintf (line "user copy failed") [] s;; Done (- EFAULT, s)
    | Some tmp => s <-- kprintf (CString.chars "%s") [ArgString (tmp ++ [0])] s;; Done (0, s)
    end.

Definition sys_create_area (o : call_objects) (address size place name area_flags : Z) (s : system B) : result (Z * system B) :=
  '(tmp, s) <-- user_strlcpy name (Z.to_nat tmp_size) s;;
  match tmp with
  | None => Done (0, s)
  | Some tmp =>
      sp <-- current_space (kernel s);;
      '(area, sps) <-- create_area_anywhere sp o address size place tmp area_flags (address_spaces (kernel s));;
      let s := s <| kernel := kernel s <| address_spaces := sps |> |> in
      match area with
      | None => Done (0, s)
      | Some area => Done (low_address area, s)
      end
  end.

(** The name of a thread is copied as far as 33 characters are read. *)
Definition sys_spawn_thread (o : call_objects) (name start_address : Z) (s : system B) : result (Z * system B) :=
  '(name, s) <-- read_name 33 name s;;
  proc <-- current_process hwthread (kernel s);;
  '(_, k) <-- spawn_user_thread read_file user_thread_kernel_start (new_thread o) name proc start_address (kernel s);;
  Done (0, s <| kernel := k |>).

(** The path is looked up by [load_program], when the process is already in the list. *)
Definition sys_exec (o : call_objects) (path : Z) (s : system B) : result (Z * system B) :=
  s <-- on_kernel (begin_program process_list_head (new_process o)) s;;
  '(file, s) <-- lookup_name directory path s;;
  '(proc, k) <-- finish_program (fun _ => file) read_file new_process_start (new_process o) [] (kernel s);;
  let s := s <| kernel := k |> in
  match proc with
  | None => Done (- ENOEXEC, s)
  | Some proc =>
      p <-- get_process proc k;;
      s <-- on_kernel (dec_proc_ref hwthread proc) s;;
      Done (process_id p, s)
  end.

Definition sys_set_perf_counter (counter event : Z) (s : system B) : result (Z * system B) :=
  if (0 <=? s32 counter) && (s32 counter <? NUM_PERF_COUNTERS)
  then s <-- on_board (register_write (REG_PERF0_SEL + 4 * s32 counter) event) s;; Done (0, s)
  else Done (0, s).

Definition sys_read_perf_counter (counter : Z) (s : system B) : result (Z * system B) :=
  if (0 <=? s32 counter) && (s32 counter <? NUM_PERF_COUNTERS)
  then '(x, b) <-- register_read (REG_PERF0_VAL + 4 * s32 counter) (board s);; Done (x, s <| board := b |>)
  else Done (0, s).

(** [None]: the call does not return. *)
Definition handle_syscall (o : call_objects) (index arg0 arg1 arg2 arg3 arg4 : Z) (s : system B)
    : result (option Z * system B) :=
  let answer (r : result (Z * system B)) := '(x, s) <-- r;; Done (Some (u32 x), s) in
  if index =? SYS_write_console then answer (sys_write_console arg0 arg1 s)
  else if index =? SYS_spawn_thread then answer (sys_spawn_thread o arg0 arg1 s)
  else if index =? SYS_get_current_thread_id then
    th <-- Sched.current_thread hwthread (scheduler (kernel s));; t <-- get_thread th (kernel s);; Done (Some (thread_id t), s)
  else if index =? SYS_exec then answer (sys_exec o arg0 s)
  else if index =? SYS_thread_exit then s <-- on_kernel (thread_exit hwthread) s;; Done (None, s)
  else if index =? SYS_init_vga then answer (kernel_init_vga o arg0 s)
  else if index =? SYS_create_area then answer (sys_create_area o arg0 arg1 arg2 arg3 arg4 s)
  else if index =? SYS_set_perf_counter then answer (sys_set_perf_counter arg0 arg1 s)
  else if index =? SYS_read_perf_counter then answer (sys_read_perf_counter arg0 s)
  else if index =? SYS_get_cycle_count then Done (Some (u32 cycle_count), s)
  else s <-- kprintf (line "Unknown syscall %d") [ArgInt (u32 index)] s;; Done (Some (u32 (- EINVAL)), s).

End Calls.
