(* ===== verification/KernelTrap.v ===== *)
(** * KernelTrap: traps and interrupts (kernel/trap.c, start_timer of kernel/main.c)

    [handle_trap] runs with the registers of the interrupted thread in a frame on the kernel
    stack; what it leaves there is restored (trap_entry.S).  It reads control registers, here
    [trap_registers], and writes them through [write_control].  A handler of an interrupt is a
    function on the system. *)

From Stdlib Require Import Ascii String.
From S2P Require Export Syscall.
From stdpp Require Import list gmap.
Import stdpp.list_relations.list.

#[local] Open Scope Z_scope.

(** ** State *)

Record interrupt_frame := { frame_gpr : list Z; frame_pc : Z; frame_flags : Z; frame_subcycle : Z }.

#[export]
Instance interrupt_frame_fields : Fields interrupt_frame := fun f =>
  Build_interrupt_frame (frame_gpr f) (frame_pc f) (frame_flags f) (frame_subcycle f).

Record trap_registers := { cr_trap_cause : Z; cr_trap_addr : Z; cr_syscall_index : Z; cr_interrupt_pending : Z }.

Definition CR_INTERRUPT_ENABLE : Z := 14.
Definition CR_INTERRUPT_ACK : Z := 15.
Definition FLAG_SUPERVISOR_EN : Z := 4.
Definition NUM_INTERRUPTS : nat := 16.
Definition REG_TIMER_INTERVAL : Z := 0x0240.
Definition TIMER_INTERVAL : Z := 500000.

(** [handlers], null or a function, and [enabled_interrupts]. *)
Record traps {B : Type} := {
  machine : system B;
  handlers : list (option (system B -> result (system B)));
  enabled_interrupts : list Z
}.

Arguments traps : clear implicits.

#[export]
Instance traps_fields {B} : Fields (traps B) := fun t => Build_traps B (machine t) (handlers t) (enabled_interrupts t).

Definition TRAP_NAMES : list string :=
  ["reset"; "Illegal Instruction"; "Privileged Op"; "Interrupt"; "Syscall"; "Unaligned Access"; "Page Fault"; "TLB Miss";
   "Illegal Store"; "Illegal Supervisor Page Access"; "Page Non Executable"]%string.

Section Traps.

Context {B : Type} {registers : Registers B} (write_control : Z -> Z -> B -> B).
Context (directory : list (list Z * Z)) (read_file : Z -> Z -> Z -> option (list Z)).
Context (process_list_head user_thread_kernel_start new_process_start uc_fault usc_fault : Z).
Context (hwthread : nat) (cycle_count : Z).

(** ** Interrupts *)

Definition unmask_interrupt (interrupt : Z) (t : traps B) : result (traps B) :=
  match enabled_interrupts t !! hwthread with
  | None => Fault OutOfBounds
  | Some e =>
      let e := u32 (Z.lor e (Z.shiftl 1 interrupt)) in
      Done (t <| enabled_interrupts ::= <[hwthread := e]> |>
              <| machine ::= fun s => s <| board ::= write_control CR_INTERRUPT_ENABLE e |> |>)
  end.

Definition register_interrupt_handler (interrupt : Z) (handler : system B -> result (system B)) (t : traps B) : result (traps B) :=
  if (0 <=? interrupt) && (Z.to_nat interrupt <? length (handlers t))%nat
  then unmask_interrupt interrupt (t <| handlers ::= <[Z.to_nat interrupt := Some handler]> |>)
  else Fault OutOfBounds.

Definition ack_interrupt (interrupt : Z) (s : system B) : system B :=
  s <| board ::= write_control CR_INTERRUPT_ACK (u32 (Z.shiftl 1 interrupt)) |>.

Definition start_timer (s : system B) : result (system B) := on_board (register_write REG_TIMER_INTERVAL TIMER_INTERVAL) s.

(** thread.c, as a handler. *)
Definition timer_tick_handler (s : system B) : result (system B) :=
  s <-- start_timer s;;
  on_kernel (fun k => on_scheduler (Sched.timer_tick (scheduling_info k) hwthread) k) (ack_interrupt 1 s).

(** Calling [handlers[next_int]]. *)
Definition run_handler (hs : list (option (system B -> result (system B)))) (next_int : Z) (s : system B) : result (system B) :=
  match hs !! Z.to_nat next_int with
  | None => Fault OutOfBounds
  | Some None => Fault AssertFailed
  | Some (Some handler) => handler s
  end.

Fixpoint handle_interrupt_loop (fuel : nat) (hs : list (option (system B -> result (system B)))) (interrupt_bitmap : Z) (s : system B)
    : result (system B) :=
  if interrupt_bitmap =? 0 then Done s
  else match fuel with
       | O => Fault OutOfFuel
       | S fuel =>
           let next_int := builtin_ctz interrupt_bitmap in
           s <-- run_handler hs next_int s;;
           handle_interrupt_loop fuel hs (Z.land interrupt_bitmap (lnot32 (u32 (Z.shiftl 1 next_int)))) s
       end.

(** A bitmap has 32 bits. *)
Definition handle_interrupt (pending : Z) (t : traps B) : result (traps B) :=
  s <-- handle_interrupt_loop 32 (handlers t) pending (machine t);; Done (t <| machine := s |>).

(** ** Faults *)

Fixpoint dump_registers (reg : Z) (gpr : list Z) (s : system B) : result (system B) :=
  match gpr with
  | [] => Done s
  | value :: gpr =>
      s <-- (if reg <? 10 then kprintf (CString.chars " ") [] s else Done s);;
      s <-- kprintf (CString.chars "s%d %08x ") [ArgInt reg; ArgInt value] s;;
      s <-- (if reg mod 8 =? 7 then kprintf [10] [] s else Done s);;
      dump_registers (reg + 1) gpr s
  end.

(** The types of trap an address is shown for. *)
Definition has_address (trap_type : Z) : bool :=
  bool_decide (trap_type ∈ map enum_value [TT_UNALIGNED_ACCESS; TT_PAGE_FAULT; TT_TLB_MISS; TT_ILLEGAL_STORE; TT_SUPERVISOR_ACCESS]).

Definition flag_letter (frame : interrupt_frame) (flag : Z) (letter : string) (s : system B) : result (system B) :=
  if Z.land (frame_flags frame) flag =? 0 then Done s else kprintf (CString.chars letter) [] s.

Definition dump_interrupt_frame (trap_cause trap_address : Z) (frame : interrupt_frame) (s : system B) : result (system B) :=
  let trap_type := Z.land trap_cause 0xf in
  s <-- (match TRAP_NAMES !! Z.to_nat trap_type with
         | Some name =>
             s <-- kprintf (CString.chars "%s ") [ArgString (CString.chars name ++ [0])] s;;
             if has_address trap_type then
               kprintf (line "@%08x %s %s")
                 [ArgInt trap_address; ArgString (CString.chars (if Z.land trap_cause 0x20 =? 0 then "icache" else "dcache") ++ [0]);
                  ArgString (CString.chars (if Z.land trap_cause 0x10 =? 0 then "load" else "store") ++ [0])] s
             else Done s
         | None => kprintf (line "Unknown trap cause %02x") [ArgInt trap_cause] s
         end);;
  s <-- kprintf (line "REGISTERS") [] s;;
  s <-- dump_registers 0 (frame_gpr frame) s;;
  s <-- kprintf (CString.chars "pc %08x ") [ArgInt (frame_pc frame)] s;;
  s <-- kprintf (CString.chars "Flags: ") [] s;;
  s <-- flag_letter frame 1 "I" s;;
  s <-- flag_letter frame 2 "M" s;;
  s <-- flag_letter frame 4 "S" s;;
  kprintf (line " (%02x)" ++ [10]) [ArgInt (frame_flags frame)] s.

(** A fault in the kernel stops it; one in user mode ends the thread, and does not return. *)
Definition bad_fault (trap_cause trap_address : Z) (frame : interrupt_frame) (s : system B) : result (system B) :=
  th <-- Sched.current_thread hwthread (scheduler (kernel s));;
  t <-- get_thread th (kernel s);;
  if Z.land (frame_flags frame) FLAG_SUPERVISOR_EN =? 0 then
    s <-- kprintf (line "user space thread %d crashed") [ArgInt (thread_id t)] s;;
    s <-- dump_interrupt_frame trap_cause trap_address frame s;;
    on_kernel (thread_exit hwthread) s
  else Fault AssertFailed.

(** ** handle_trap *)

Definition get_gpr (i : nat) (frame : interrupt_frame) : result Z :=
  match frame_gpr frame !! i with Some v => Done v | None => Fault OutOfBounds end.

Definition system_call (o : call_objects) (index : Z) (frame : interrupt_frame) (s : system B)
    : result (option interrupt_frame * system B) :=
  a0 <-- get_gpr 0 frame;; a1 <-- get_gpr 1 frame;; a2 <-- get_gpr 2 frame;; a3 <-- get_gpr 3 frame;; a4 <-- get_gpr 4 frame;;
  '(r, s) <-- handle_syscall directory read_file process_list_head user_thread_kernel_start new_process_start uc_fault usc_fault
                hwthread cycle_count o index a0 a1 a2 a3 a4 s;;
  match r with
  | None => Done (None, s)
  | Some r => Done (Some (frame <| frame_gpr ::= <[O := r]> |> <| frame_pc ::= fun pc => u32 (pc + 4) |>), s)
  end.

(** The frame to restore; [None] when the interrupted thread is not resumed. *)
Definition handle_trap (o : call_objects) (c : trap_registers) (frame : interrupt_frame) (t : traps B)
    : result (option interrupt_frame * traps B) :=
  let trap_cause := cr_trap_cause c in
  let type := Z.land trap_cause 0xf in
  let bad address s := s <-- bad_fault trap_cause address frame s;; Done (None, t <| machine := s |>) in
  if (type =? enum_value TT_PAGE_FAULT) || (type =? enum_value TT_ILLEGAL_STORE) then
    let address := cr_trap_addr c in
    '(r, k) <-- page_fault read_file hwthread address (negb (Z.land trap_cause 0x10 =? 0)) (kernel (machine t));;
    let s := machine t <| kernel := k |> in
    if (r : bool) then Done (Some frame, t <| machine := s |>)
    else
      h <-- get_fault_handler hwthread s;;
      if h =? 0 then bad address s
      else Done (Some (frame <| frame_pc := h |>), t <| machine := s |>)
  else if type =? enum_value TT_SYSCALL then
    '(f, s) <-- system_call o (cr_syscall_index c) frame (machine t);; Done (f, t <| machine := s |>)
  else if type =? enum_value TT_INTERRUPT then
    t <-- handle_interrupt (cr_interrupt_pending c) t;; Done (Some frame, t)
  else bad 0 (machine t).

End Traps.
