(* ===== verification/UserCalls.v ===== *)
(** * UserCalls: what a program sees of its system calls (kernel/trap.c, syscall.c, user_copy.S)

    A trap of a process whose address space is as the loader leaves it ([space_ready] of
    VmSpace): what the kernel reads of the program's memory is what its pages hold, and its areas where
    there is no page yet; missing pages are faulted in on the way.  A pointer into the user half
    where there is neither is an error or, for the calls that read without [user_copy], the end of
    the kernel when it gets there. *)

From Stdlib Require Import Ascii String.
From S2P Require Export KernelTrap.
From stdpp Require Import list gmap.
Import stdpp.list_relations.list.

#[local] Open Scope Z_scope.

(** ** Printing in the kernel *)

Lemma put_all_putc {B} l (s : system B) : put_all putc l s = Done (s <| console ::= fun c => c ++ map u8 l |>).
Proof.
  revert s. induction l as [|c l IH]; intros s; simpl.
  - unfold update. rewrite app_nil_r. by destruct s.
  - rewrite IH. unfold update. simpl. by rewrite <- app_assoc.
Qed.

Lemma print_literals v {S} (put : Z -> S -> result S) l args s :
  print_pieces v put (map Literal l) args s = (s <-- put_all put l s;; Done (args, s)).
Proof.
  revert s. induction l as [|c l IH]; intros s; [done|]. simpl. destruct (put c s) as [s'|]; [|done]. simpl. apply IH.
Qed.

(** A text without directives. *)
Lemma kprintf_text {B} l args (s : system B) : Forall (fun c => c <> ch "%") l ->
  kprintf l args s = Done (s <| console ::= fun c => c ++ map u8 l |>).
Proof.
  intros Hl. unfold kprintf. rewrite vprintf_prints.
  assert (Hcat : l = concat (map unparse (map Literal l))).
  { clear Hl. induction l as [|c l IH]; [done|]. simpl. by f_equal. }
  rewrite Hcat at 1. rewrite prints_pieces; [|apply kernel_prefixes_ok|].
  - rewrite print_literals, put_all_putc. done.
  - apply Forall_fmap. eapply Forall_impl; [exact Hl|]. done.
Qed.

Fixpoint before_nul (l : list Z) : list Z :=
  match l with [] => [] | c :: l => if c =? 0 then [] else c :: before_nul l end.

Lemma string_chars_nul l m : Z.of_nat (length l) < m -> string_chars m (l ++ [0]) = Done (before_nul l).
Proof.
  revert m. induction l as [|c l IH]; intros m Hm; cbn [length app string_chars before_nul] in *.
  - by rewrite (proj2 (Z.leb_gt m 0)) by lia.
  - rewrite (proj2 (Z.leb_gt m 0)) by lia. destruct (c =? 0); [done|]. by rewrite IH by lia.
Qed.

Lemma before_nul_length l : (length (before_nul l) <= length l)%nat.
Proof. induction l as [|c l IH]; simpl; [lia|]. destruct (c =? 0); simpl; lia. Qed.

(** [kprintf("%s", tmp)] *)
Lemma kprintf_string {B} l (s : system B) : Z.of_nat (length l) < 2 ^ 31 - 1 ->
  kprintf (CString.chars "%s") [ArgString (l ++ [0])] s = Done (s <| console ::= fun c => c ++ map u8 (before_nul l) |>).
Proof.
  intros Hl. unfold kprintf. change (CString.chars "%s") with (concat (map unparse [Directive [] [] None [] (ch "s")])).
  rewrite vprintf_prints, prints_pieces; [|apply kernel_prefixes_ok|].
  - cbn [print_pieces render decimal fold_left bits_of]. unfold convert. change (is_integer_conversion (ch "s")) with false.
    change (ch "s" =? ch "c") with false. change (ch "s" =? ch "s") with true. cbv iota. unfold string_text. cbn [Z.eqb].
    rewrite string_chars_nul by lia. cbn [bind_result]. pose proof (before_nul_length l).
    replace (repeat_char _ _) with (@nil Z) by (unfold repeat_char; replace (Z.to_nat _) with O by lia; done).
    rewrite app_nil_r, put_all_putc. done.
  - apply Forall_singleton. simpl. split_and!; try done; try (by intros ? ?%elem_of_nil); vm_decide.
Qed.

(** ** Loads from a process's memory *)

(** What the areas of a space hold, by address. *)
Definition byte_at (K : vm_area -> Z -> Z -> Z) (a : vm_address_space) (va : Z) : Z :=
  match lookup_area (area_map a) va with Some area => K area va (va mod PAGE_SIZE) | None => 0 end.

(** The contents of a page do not depend on the address that faults it in. *)
Definition by_page (K : vm_area -> Z -> Z -> Z) (a : vm_address_space) : Prop := forall area va va',
  area ∈ area_list (area_map a) -> covers area va -> covers area va' -> va / PAGE_SIZE = va' / PAGE_SIZE -> K area va = K area va'.

Definition covered (a : vm_address_space) (va : Z) : Prop := exists area, area ∈ area_list (area_map a) /\ covers area va.

Section Loads.

Context {B : Type} (read_file : Z -> Z -> Z -> option (list Z)) (first last sp : Z) (K : vm_area -> Z -> Z -> Z)
  (a : vm_address_space) (hwthread : nat).
Context (Hreads : reads_ok read_file) (Hpages : by_page K a).

(** The process is in a system call. *)
Record in_call (bound : Z) (s : system B) : Prop := {
  call_space : current_space hwthread (kernel s) = Done (Some sp);
  call_ready : space_ready read_file first last bound sp K a (address_spaces (kernel s))
}.

Lemma in_call_weaken bound bound' s : in_call bound s -> bound <= bound' -> in_call bound' s.
Proof.
  intros [Hsp [H1 H2 H3 H4 H5 H6 H7 (own & holds & users & M & Hok & Hidle & Hbound & Hserves)]] Hle. split; [done|].
  constructor; try done. exists own, holds, users, M. split; [done|]. split; [done|]. split; [|done].
  intros page. specialize (Hbound page). lia.
Qed.

Definition with_spaces (s : system B) (sps : space_state) : system B := s <| kernel := kernel s <| address_spaces := sps |> |>.

Definition page_of (s : system B) (va : Z) : result (option Z) := load_mapped hwthread va (kernel s).

Lemma page_of_eq bound s va : in_call bound s ->
  page_of s va = (m <-- query_translation_map (VmSpace.translation_map a) va (vm (cs (address_spaces (kernel s))));;
    if Z.land m PAGE_PRESENT =? 0 then Done None
    else Done (Some (phys_byte (PAGE_ALIGN m + va mod PAGE_SIZE) (memory_of (vm (cs (address_spaces (kernel s)))))))).
Proof.
  intros [Hsp Hready]. unfold page_of, load_mapped. rewrite Hsp. cbn [bind_result get_space].
  by rewrite (space_here _ _ _ _ _ _ _ _ Hready).
Qed.

Lemma covered_user bound s va : in_call bound s -> covered a va -> 0 <= va < KERNEL_BASE.
Proof.
  intros [_ Hready] (area & Hin & Hva). destruct (space_each _ _ _ _ _ _ _ _ Hready area Hin) as (_ & _ & Hlow & _).
  pose proof (ok_between _ (space_areas _ _ _ _ _ _ _ _ Hready)) as Hbet. destruct (between_member _ _ _ _ Hbet Hin).
  pose proof (space_user _ _ _ _ _ _ _ _ Hready). destruct Hva. lia.
Qed.

(** Areas are whole pages. *)
Lemma covers_page area va va' : whole_pages area -> 0 <= va -> 0 <= va' -> covers area va -> va / PAGE_SIZE = va' / PAGE_SIZE -> covers area va'.
Proof.
  intros [Hlow Hhigh] Hva Hva' [H1 H2] Hpage. unfold page_aligned in *. split.
  - pose proof (Z.div_mod (low_address area) PAGE_SIZE ltac:(done)). pose proof (Z.div_mod va' PAGE_SIZE ltac:(done)).
    pose proof (Z.mod_pos_bound va' PAGE_SIZE ltac:(done)). assert (low_address area / PAGE_SIZE <= va / PAGE_SIZE) by (apply Z.div_le_mono; done). nia.
  - pose proof (Z.div_mod (high_address area + 1) PAGE_SIZE ltac:(done)). pose proof (Z.div_mod va' PAGE_SIZE ltac:(done)).
    pose proof (Z.mod_pos_bound va' PAGE_SIZE ltac:(done)).
    assert (va / PAGE_SIZE < (high_address area + 1) / PAGE_SIZE).
    { pose proof (Z.div_mod va PAGE_SIZE ltac:(done)). pose proof (Z.mod_pos_bound va PAGE_SIZE ltac:(done)). unfold PAGE_SIZE in *. lia. }
    unfold PAGE_SIZE in *. lia.
Qed.

Lemma query_same_page va va' v : 0 <= va < KERNEL_BASE -> 0 <= va' < KERNEL_BASE -> va / PAGE_SIZE = va' / PAGE_SIZE ->
  query_translation_map (VmSpace.translation_map a) va v = query_translation_map (VmSpace.translation_map a) va' v.
Proof.
  intros H1 H2 Hpage. unfold query_translation_map. rewrite (proj2 (Z.leb_gt KERNEL_BASE va)), (proj2 (Z.leb_gt KERNEL_BASE va')) by lia.
  destruct (get_map _ _) as [m|]; [|done]. cbn [bind_result]. f_equal. by apply walk_page.
Qed.

(** *** What a load reads *)

(** The byte is there, in a page of a cache. *)
Definition held (s : system B) (va b : Z) : Prop :=
  page_of s va = Done (Some b) /\ 0 <= va < KERNEL_BASE
  /\ exists page mapping, query_translation_map (VmSpace.translation_map a) va (vm (cs (address_spaces (kernel s)))) = Done mapping
     /\ PAGE_ALIGN mapping = page * PAGE_SIZE /\ in_cache page (cs (address_spaces (kernel s))).

(** The byte of the process at an address: what its memory has there, or, where there is no page yet,
    what its area has. *)
Definition reads_as (s : system B) (va b : Z) : Prop :=
  held s va b \/ (covered a va /\ page_of s va = Done None /\ b = byte_at K a va).

Lemma reads_user bound s va b : in_call bound s -> reads_as s va b -> 0 <= va < KERNEL_BASE.
Proof. intros Hcall [(_ & Huser & _)|(Hcov & _)]; [done|]. by apply (covered_user bound s). Qed.

(** A page fault of a load in an area. *)
Lemma fault_in bound s va :
  in_call bound s -> bound < 2 ^ 31 - 2 -> covered a va -> page_of s va = Done None ->
  match page_fault read_file hwthread va false (kernel s) with
  | Fault f => f = HostExit
  | Done (r, k) => r = true /\ exists sps, k = kernel s <| address_spaces := sps |>
      /\ in_call (bound + 1) (with_spaces s sps)
      /\ held (with_spaces s sps) va (byte_at K a va)
      /\ (forall va' b, reads_as s va' b -> reads_as (with_spaces s sps) va' b)
      /\ (forall va', 0 <= va' < KERNEL_BASE -> ~ covered a va' -> page_of s va' = Done None ->
            page_of (with_spaces s sps) va' = Done None)
  end.
Proof.
  intros Hcall Hmax Hcov Habsent. pose proof Hcov as (area & Hin & Hva). pose proof (covered_user _ _ _ Hcall Hcov) as Huser.
  pose proof Hcall as [Hsp Hready]. unfold page_fault. rewrite Hsp. cbn [bind_result].
  pose proof (space_fault read_file first last bound sp K a _ area va false Hreads Hready Hmax Hin Hva ltac:(done)) as Hfault.
  pose proof (space_fault_elsewhere read_file first last bound sp K a (address_spaces (kernel s)) area va false) as Helse.
  pose proof (space_fault_keeps read_file first last bound sp K a (address_spaces (kernel s)) area va false) as Hkeeps.
  destruct (handle_page_fault read_file sp va false _) as [[r sps]|f]; [|done]. cbn [bind_result].
  destruct Hfault as (-> & Hready' & page & mapping & Hq & Halign & Hpresent & Hbytes). split; [done|]. exists sps. split; [done|].
  destruct (Hkeeps sps Hreads Hready Hmax Hin Hva ltac:(done) eq_refl) as (Hkept & page' & mapping' & Hq' & Halign' & Hcached).
  rewrite Hq in Hq'. injection Hq' as <-. assert (page' = page) as -> by (unfold PAGE_SIZE in *; lia). clear Halign'.
  assert (Hcall' : in_call (bound + 1) (with_spaces s sps)) by (split; [exact Hsp|exact Hready']).
  pose proof (space_areas _ _ _ _ _ _ _ _ Hready) as Hmap.
  assert (Hsame : forall va', covered a va' -> va' / PAGE_SIZE = va / PAGE_SIZE -> held (with_spaces s sps) va' (byte_at K a va')).
  { intros va' Hcov' Hpage. pose proof (covered_user _ _ _ Hcall Hcov') as Huser'.
    assert (Hva' : covers area va').
    { apply (covers_page area va); try lia; [|done]. pose proof (ok_pages _ Hmap) as Hall. rewrite Forall_forall in Hall. by apply Hall. }
    assert (Hq' : query_translation_map (VmSpace.translation_map a) va' (vm (cs sps)) = Done mapping) by (rewrite <- Hq; by apply query_same_page).
    split; [|split; [done|by exists page, mapping]].
    rewrite (page_of_eq (bound + 1) _ va' Hcall'). cbn [kernel with_spaces update address_spaces].
    rewrite Hq'. cbn [bind_result]. rewrite (proj2 (Z.eqb_neq _ _) Hpresent). do 2 f_equal.
    rewrite Halign, Hbytes by (apply Z.mod_pos_bound; done).
    unfold byte_at. rewrite (proj2 (lookup_area_spec _ _ _ Hmap) (conj Hin Hva')). by rewrite (Hpages area va va' Hin Hva Hva'). }
  assert (Hnone : forall va', 0 <= va' < KERNEL_BASE -> va' / PAGE_SIZE <> va / PAGE_SIZE -> page_of s va' = Done None ->
            page_of (with_spaces s sps) va' = Done None).
  { intros va' Huser' Hpage Hnone. rewrite (page_of_eq bound s va' Hcall) in Hnone.
    rewrite (page_of_eq (bound + 1) _ va' Hcall'). cbn [kernel with_spaces update address_spaces].
    rewrite (Helse sps va' Hreads Hready Hmax Hin Hva ltac:(done) eq_refl Huser' Hpage).
    apply bind_Done_inv in Hnone as (m & Hm & Hnone). rewrite Hm. cbn [bind_result].
    by destruct (Z.land m PAGE_PRESENT =? 0). }
  split; [done|]. split; [by apply Hsame|]. split.
  - intros va' b [(Hb & Huser' & page' & m & Hm & Hmalign & Hin')|(Hcov' & Habsent' & ->)].
    + left. assert (Hpage : va' / PAGE_SIZE <> va / PAGE_SIZE).
      { intros Hpage. rewrite (page_of_eq bound s va Hcall) in Habsent. rewrite (page_of_eq bound s va' Hcall) in Hb.
        rewrite (query_same_page va va') in Habsent by done. rewrite Hm in *. cbn [bind_result] in *.
        by destruct (Z.land m PAGE_PRESENT =? 0). }
      destruct (Hkept page' Hin') as [Hin'' Hsame']. 
      assert (Hm' : query_translation_map (VmSpace.translation_map a) va' (vm (cs sps)) = Done m)
        by (by rewrite (Helse sps va' Hreads Hready Hmax Hin Hva ltac:(done) eq_refl Huser' Hpage)).
      split; [|split; [done|by exists page', m]].
      rewrite (page_of_eq (bound + 1) _ va' Hcall'). cbn [kernel with_spaces update address_spaces].
      rewrite (page_of_eq bound s va' Hcall) in Hb. rewrite Hm in Hb. rewrite Hm'. cbn [bind_result] in *.
      destruct (Z.land m PAGE_PRESENT =? 0); [done|]. rewrite Hmalign in *. rewrite Hsame' by (apply Z.mod_pos_bound; done). exact Hb.
    + destruct (decide (va' / PAGE_SIZE = va / PAGE_SIZE)) as [Hp|Hp]; [left; by apply Hsame|right].
      split; [done|]. split; [|done]. apply Hnone; [by apply (covered_user bound s)|done|done].
  - intros va' Huser' Hnot Hva''. apply Hnone; [done| |done]. intros Hp. apply Hnot. exists area. split; [done|].
    pose proof (ok_pages _ Hmap) as Hall. rewrite Forall_forall in Hall.
    by apply (covers_page area va); [apply Hall|lia|lia|done|].
Qed.

(** A byte of the process, there already or not. *)
Lemma load_reads bound s va b :
  in_call bound s -> bound < 2 ^ 31 - 2 -> reads_as s va b ->
  match load_byte read_file hwthread va s with
  | Fault f => f = HostExit
  | Done (r, s') => r = Some b /\ exists sps, s' = with_spaces s sps /\ in_call (bound + 1) s'
      /\ (forall va' b', reads_as s va' b' -> reads_as s' va' b')
      /\ (forall va', 0 <= va' < KERNEL_BASE -> ~ covered a va' -> page_of s va' = Done None -> page_of s' va' = Done None)
  end.
Proof.
  intros Hcall Hmax Hb. unfold load_byte. fold (page_of s va). destruct Hb as [(Hva & _)|(Hcov & Hva & ->)]; rewrite Hva; cbn [bind_result].
  - split; [done|]. exists (address_spaces (kernel s)).
    assert (Hs : s = with_spaces s (address_spaces (kernel s))) by (destruct s as [[] ? ? ?]; done).
    split; [exact Hs|]. split; [apply (in_call_weaken bound); [done|lia]|done].
  - pose proof (fault_in bound s va Hcall Hmax Hcov Hva) as Hfault.
    destruct (page_fault read_file hwthread va false (kernel s)) as [[r k]|f]; [|done]. cbn [bind_result].
    destruct Hfault as (-> & sps & -> & Hcall' & (Hheld & _) & Hkeep & Helse). cbv zeta.
    change (load_mapped hwthread va (kernel s <| address_spaces := sps |>)) with (page_of (with_spaces s sps) va).
    rewrite Hheld. cbn [bind_result]. split; [done|]. by exists sps.
Qed.

(** *** Copying *)

(** The bytes of the process from [src] on. *)
Definition readable (bytes : Z -> Z) (s : system B) (src : Z) (count : nat) : Prop :=
  forall i, 0 <= i < Z.of_nat count -> reads_as s (src + i) (bytes (src + i)).

(** What is left to read after a load. *)
Lemma load_readable bytes bound s src count :
  in_call bound s -> bound < 2 ^ 31 - 2 -> readable bytes s src (S count) ->
  match load_byte read_file hwthread src s with
  | Fault f => f = HostExit
  | Done (r, s') => r = Some (bytes src) /\ exists sps, s' = with_spaces s sps /\ in_call (bound + 1) s'
      /\ readable bytes s' (src + 1) count /\ u32 (src + 1) = src + 1
      /\ (forall va', 0 <= va' < KERNEL_BASE -> ~ covered a va' -> page_of s va' = Done None -> page_of s' va' = Done None)
  end.
Proof.
  intros Hcall Hmax Hread. pose proof (Hread 0 ltac:(lia)) as H0. rewrite Z.add_0_r in H0.
  pose proof (reads_user _ _ _ _ Hcall H0) as Huser.
  pose proof (load_reads bound s src _ Hcall Hmax H0) as Hload.
  destruct (load_byte read_file hwthread src s) as [[r s']|f]; [|done].
  destruct Hload as (-> & sps & -> & Hcall' & Hkeep & Helse). split; [done|]. exists sps. split; [done|]. split; [done|]. split; [|split; [|done]].
  - intros i Hi. replace (src + 1 + i) with (src + (i + 1)) by lia. apply Hkeep, Hread. lia.
  - apply u32_small. unfold KERNEL_BASE in *. lia.
Qed.

Lemma copy_covered bytes count bound s src :
  in_call bound s -> bound + Z.of_nat count < 2 ^ 31 - 2 -> readable bytes s src count ->
  match user_copy_loop read_file hwthread count src s with
  | Fault f => f = HostExit
  | Done (r, s') => r = Some (map bytes (seqZ src (Z.of_nat count)))
      /\ exists sps, s' = with_spaces s sps /\ in_call (bound + Z.of_nat count) s'
  end.
Proof.
  revert bound s src. induction count as [|count IH]; intros bound s src Hcall Hmax Hread; cbn [user_copy_loop].
  - split; [done|]. exists (address_spaces (kernel s)). split; [by destruct s as [[] ? ? ?]|]. by rewrite Z.add_0_r.
  - pose proof (load_readable bytes bound s src count Hcall ltac:(lia) Hread) as Hload.
    destruct (load_byte read_file hwthread src s) as [[r s1]|f]; [|done]. cbn [bind_result].
    destruct Hload as (-> & sps & -> & Hcall1 & Hread1 & -> & _). specialize (IH (bound + 1) _ (src + 1) Hcall1 ltac:(lia) Hread1).
    destruct (user_copy_loop _ _ _ _ _) as [[r s2]|f]; [|done]. cbn [bind_result]. destruct IH as (-> & sps2 & -> & Hcall2).
    split.
    + rewrite (seqZ_cons src) by lia. replace (Z.pred (Z.of_nat (S count))) with (Z.of_nat count) by lia. done.
    + exists sps2. split; [done|]. replace (bound + Z.of_nat (S count)) with (bound + 1 + Z.of_nat count) by lia. done.
Qed.

(** A load outside the areas. *)
Lemma load_uncovered bound s va h :
  in_call bound s -> 0 <= va < KERNEL_BASE -> ~ covered a va -> page_of s va = Done None -> get_fault_handler hwthread s = Done h ->
  load_byte read_file hwthread va s = if h =? 0 then Fault AssertFailed else Done (None, s).
Proof.
  intros Hcall Huser Hnot Hnone Hh. pose proof Hcall as [Hsp Hready]. unfold load_byte. fold (page_of s va). rewrite Hnone.
  cbn [bind_result]. unfold page_fault. rewrite Hsp. cbn [bind_result]. unfold handle_page_fault.
  rewrite (proj2 (Z.leb_gt _ _)) by lia. cbn [get_space]. rewrite (space_here _ _ _ _ _ _ _ _ Hready). cbn [bind_result].
  destruct (lookup_area (area_map a) va) as [area|] eqn:Hlookup.
  { apply (lookup_area_spec _ _ _ (space_areas _ _ _ _ _ _ _ _ Hready)) in Hlookup. destruct Hnot. by exists area. }
  cbn [bind_result]. cbv zeta.
  assert (Hs : s <| kernel := kernel s <| address_spaces := address_spaces (kernel s) |> |> = s) by by destruct s as [[] ? ? ?].
  rewrite Hs, Hh. done.
Qed.

Lemma copy_uncovered bytes j count bound s src h :
  in_call bound s -> bound + Z.of_nat j < 2 ^ 31 - 2 -> readable bytes s src j -> (j < count)%nat ->
  0 <= src + Z.of_nat j < KERNEL_BASE -> ~ covered a (src + Z.of_nat j) -> page_of s (src + Z.of_nat j) = Done None ->
  get_fault_handler hwthread s = Done h -> h <> 0 ->
  match user_copy_loop read_file hwthread count src s with
  | Fault f => f = HostExit
  | Done (r, s') => r = None /\ exists sps, s' = with_spaces s sps /\ in_call (bound + Z.of_nat j) s'
  end.
Proof.
  revert count bound s src. induction j as [|j IH]; intros [|count] bound s src Hcall Hmax Hread Hj Huser Hnot Hnone Hh Hne; try lia; cbn [user_copy_loop].
  - rewrite Z.add_0_r in *. rewrite (load_uncovered bound s src h), (proj2 (Z.eqb_neq _ _) Hne) by done. cbn [bind_result].
    split; [done|]. exists (address_spaces (kernel s)). split; [by destruct s as [[] ? ? ?]|done].
  - pose proof (load_readable bytes bound s src j Hcall ltac:(lia) Hread) as Hload.
    destruct (load_byte read_file hwthread src s) as [[r s1]|f]; [|done]. cbn [bind_result].
    destruct Hload as (-> & sps & -> & Hcall1 & Hread1 & -> & Helse).
    replace (src + Z.of_nat (S j)) with (src + 1 + Z.of_nat j) in * by lia.
    specialize (IH count (bound + 1) _ (src + 1) Hcall1 ltac:(lia) Hread1 ltac:(lia) Huser Hnot (Helse _ Huser Hnot Hnone) Hh Hne).
    destruct (user_copy_loop _ _ _ _ _) as [[r s2]|f]; [|done]. cbn [bind_result]. destruct IH as (-> & sps2 & -> & Hcall2).
    split; [done|]. exists sps2. split; [done|]. replace (bound + Z.of_nat (S j)) with (bound + 1 + Z.of_nat j) by lia. done.
Qed.

(** A name that is read without [user_copy] and leaves the areas before it ends. *)
Lemma name_uncovered bytes j count bound s src :
  in_call bound s -> bound + Z.of_nat j < 2 ^ 31 - 2 -> readable bytes s src j -> (j < count)%nat ->
  (forall i, 0 <= i < Z.of_nat j -> bytes (src + i) <> 0) ->
  0 <= src + Z.of_nat j < KERNEL_BASE -> ~ covered a (src + Z.of_nat j) -> page_of s (src + Z.of_nat j) = Done None ->
  get_fault_handler hwthread s = Done 0 ->
  exists f, read_name read_file hwthread count src s = Fault f /\ (f = AssertFailed \/ f = HostExit).
Proof.
  revert count bound s src. induction j as [|j IH]; intros [|count] bound s src Hcall Hmax Hread Hj Hchars Huser Hnot Hnone Hh; try lia; cbn [read_name].
  - rewrite Z.add_0_r in *. rewrite (load_uncovered bound s src 0) by done. cbn [Z.eqb bind_result]. exists AssertFailed. auto.
  - pose proof (load_readable bytes bound s src j Hcall ltac:(lia) Hread) as Hload.
    destruct (load_byte read_file hwthread src s) as [[r s1]|f]; [|exists f; auto]. cbn [bind_result].
    destruct Hload as (-> & sps & -> & Hcall1 & Hread1 & -> & Helse).
    pose proof (Hchars 0 ltac:(lia)) as H0. rewrite Z.add_0_r in H0. rewrite (proj2 (Z.eqb_neq _ _) H0).
    replace (src + Z.of_nat (S j)) with (src + 1 + Z.of_nat j) in * by lia.
    destruct (IH count (bound + 1) (with_spaces s sps) (src + 1)) as (f & -> & Hf); try done; try lia; [|by apply Helse|by exists f].
    intros i Hi. replace (src + 1 + i) with (src + (i + 1)) by lia. apply Hchars. lia.
Qed.

(** What a process can read, and what is neither mapped nor in an area, stays so. *)
Record extends (s s' : system B) : Prop := {
  extends_reads : forall va b, reads_as s va b -> reads_as s' va b;
  extends_none : forall va, 0 <= va < KERNEL_BASE -> ~ covered a va -> page_of s va = Done None -> page_of s' va = Done None
}.

#[local] Instance extends_preorder : PreOrder extends.
Proof. split; [by split|]. intros s1 s2 s3 [H1 H2] [H3 H4]. split; [auto|]. intros va ? ? ?. apply H4; auto. Qed.

(** The characters at [src] that can be read begin this name. *)
Definition begins (bytes : Z -> Z) (j : nat) (src : Z) (name : list Z) : Prop := take j name = map bytes (seqZ src (Z.of_nat j)).

Lemma begins_cons bytes j src name :
  begins bytes (S j) src name <-> exists name', name = bytes src :: name' /\ begins bytes j (src + 1) name'.
Proof.
  unfold begins. rewrite (seqZ_cons src) by lia. replace (Z.pred (Z.of_nat (S j))) with (Z.of_nat j) by lia.
  change (Z.succ src) with (src + 1). destruct name as [|c name]; cbn [take map].
  - split; [done|]. by intros (? & ? & _).
  - split; [intros [= -> Hname]; by exists name|]. by intros (? & [= -> ->] & ->).
Qed.

(** Comparing a name with a path that leaves the areas before it ends. *)
Lemma same_name_uncovered bytes name j bound s src :
  in_call bound s -> bound + Z.of_nat j < 2 ^ 31 - 2 -> readable bytes s src j ->
  (forall i, 0 <= i < Z.of_nat j -> bytes (src + i) <> 0) ->
  0 <= src + Z.of_nat j < KERNEL_BASE -> ~ covered a (src + Z.of_nat j) -> page_of s (src + Z.of_nat j) = Done None ->
  get_fault_handler hwthread s = Done 0 ->
  match same_name read_file hwthread name src s with
  | Fault f => f = HostExit \/ f = AssertFailed /\ begins bytes j src name
  | Done (r, s') => r = false /\ ~ begins bytes j src name
      /\ exists sps, s' = with_spaces s sps /\ in_call (bound + Z.of_nat j) s' /\ extends s s'
  end.
Proof.
  revert name bound s src. induction j as [|j IH]; intros name bound s src Hcall Hmax Hread Hchars Huser Hnot Hnone Hh.
  - rewrite Z.add_0_r in *. assert (Hload := load_uncovered bound s src 0 Hcall Huser Hnot Hnone Hh).
    destruct name; cbn [same_name]; rewrite Hload; cbn [Z.eqb bind_result]; by right.
  - pose proof (Hread 0 ltac:(lia)) as H0. pose proof (Hchars 0 ltac:(lia)) as Hc0. rewrite Z.add_0_r in H0, Hc0.
    pose proof (reads_user _ _ _ _ Hcall H0) as Hsrc. pose proof (load_reads bound s src _ Hcall ltac:(lia) H0) as Hload.
    assert (Hstop : forall sps, in_call (bound + 1) (with_spaces s sps) -> in_call (bound + Z.of_nat (S j)) (with_spaces s sps)).
    { intros sps H. apply (in_call_weaken (bound + 1)); [done|lia]. }
    destruct name as [|c name]; cbn [same_name]; destruct (load_byte read_file hwthread src s) as [[r s1]|f]; try (by left); cbn [bind_result];
      destruct Hload as (-> & sps & -> & Hcall1 & Hkeep & Helse).
    + rewrite (proj2 (Z.eqb_neq _ _) Hc0). split; [done|]. split; [by intros (? & ? & _)%begins_cons|].
      exists sps. split; [done|]. split; [by apply Hstop|by split].
    + destruct (Z.eqb_spec c (bytes src)) as [->|Hne].
      * rewrite u32_small by (unfold KERNEL_BASE in *; lia). replace (src + Z.of_nat (S j)) with (src + 1 + Z.of_nat j) in * by lia.
        specialize (IH name (bound + 1) (with_spaces s sps) (src + 1) Hcall1 ltac:(lia)).
        assert (Hread1 : readable bytes (with_spaces s sps) (src + 1) j).
        { intros i Hi. replace (src + 1 + i) with (src + (i + 1)) by lia. apply Hkeep, Hread. lia. }
        assert (Hchars1 : forall i, 0 <= i < Z.of_nat j -> bytes (src + 1 + i) <> 0).
        { intros i Hi. replace (src + 1 + i) with (src + (i + 1)) by lia. apply Hchars. lia. }
        specialize (IH Hread1 Hchars1 Huser Hnot (Helse _ Huser Hnot Hnone) Hh).
        destruct (same_name _ _ _ _ _) as [[r s2]|f].
        -- destruct IH as (-> & Hno & sps2 & -> & Hcall2 & Hext). split; [done|]. split.
           { intros (? & [= <-] & ?)%begins_cons. done. }
           exists sps2. split; [done|]. split; [by replace (bound + Z.of_nat (S j)) with (bound + 1 + Z.of_nat j) by lia|].
           transitivity (with_spaces s sps); [by split|done].
        -- destruct IH as [?|[? ?]]; [by left|right]. split; [done|]. apply begins_cons. by exists name.
      * split; [done|]. split; [intros (? & [= -> _] & _)%begins_cons; done|].
        exists sps. split; [done|]. split; [by apply Hstop|by split].
Qed.

(** Looking such a path up stops at the first name of the directory that begins with it. *)
Lemma lookup_name_uncovered bytes entries j bound s src :
  in_call bound s -> bound + Z.of_nat (length entries * j) < 2 ^ 31 - 2 -> readable bytes s src j ->
  (forall i, 0 <= i < Z.of_nat j -> bytes (src + i) <> 0) ->
  0 <= src + Z.of_nat j < KERNEL_BASE -> ~ covered a (src + Z.of_nat j) -> page_of s (src + Z.of_nat j) = Done None ->
  get_fault_handler hwthread s = Done 0 ->
  match lookup_name read_file hwthread entries src s with
  | Fault f => f = HostExit \/ f = AssertFailed /\ Exists (fun e => begins bytes j src e.1) entries
  | Done (r, s') => r = None /\ ~ Exists (fun e => begins bytes j src e.1) entries
      /\ exists sps, s' = with_spaces s sps /\ in_call (bound + Z.of_nat (length entries * j)) s'
  end.
Proof.
  revert bound s. induction entries as [|[name handle] entries IH]; intros bound s Hcall Hmax Hread Hchars Huser Hnot Hnone Hh; cbn [lookup_name].
  - split; [done|]. split; [intros H; inversion H|]. exists (address_spaces (kernel s)). split; [by destruct s as [[] ? ? ?]|].
    by rewrite Z.add_0_r.
  - cbn [length Nat.mul] in Hmax.
    pose proof (same_name_uncovered bytes name j bound s src Hcall ltac:(lia) Hread Hchars Huser Hnot Hnone Hh) as Hsame.
    destruct (same_name _ _ _ _ _) as [[r s1]|f]; cbn [bind_result].
    + destruct Hsame as (-> & Hno & sps & -> & Hcall1 & [Hkeep Helse]).
      assert (Hbound : bound + Z.of_nat j + Z.of_nat (length entries * j) < 2 ^ 31 - 2) by lia.
      specialize (IH (bound + Z.of_nat j) (with_spaces s sps) Hcall1 Hbound (fun i Hi => Hkeep _ _ (Hread i Hi)) Hchars Huser Hnot
        (Helse _ Huser Hnot Hnone) Hh).
      destruct (lookup_name _ _ _ _ _) as [[r s2]|f]; rewrite Exists_cons; [|destruct IH as [?|[? ?]]; auto].
      destruct IH as (-> & Hnone' & sps2 & -> & Hcall2). split; [done|]. split; [by intros [?|?]|].
      exists sps2. split; [done|]. replace (bound + Z.of_nat (length ((name, handle) :: entries) * j))
        with (bound + Z.of_nat j + Z.of_nat (length entries * j)) by (cbn [length Nat.mul]; lia). done.
    + rewrite Exists_cons. destruct Hsame as [?|[? ?]]; auto.
Qed.

(** A process that is begun for another program: the one that runs sees its memory as before. *)
Lemma begin_program_call process_list_head bound s o k :
  in_call bound s -> space_object o <> sp -> maps (vm (cs (address_spaces (kernel s)))) !! map_object o = None ->
  processes (kernel s) !! process_object o = None ->
  begin_program process_list_head o (kernel s) = Done k ->
  in_call bound (s <| kernel := k |>) /\ extends s (s <| kernel := k |>).
Proof.
  intros Hcall Hspace Hmap Hproc Hbegin. pose proof Hcall as [Hsp Hready]. unfold begin_program in Hbegin. cbv zeta in Hbegin.
  apply bind_Done_inv in Hbegin as (sps & Hcreate & Hbegin). apply bind_Done_inv in Hbegin as (h & _ & Hbegin).
  unfold add_process, on_process_nodes in Hbegin. apply bind_Done_inv in Hbegin as ([u h'] & _ & [= <-]).
  destruct (create_space_ready _ _ _ _ _ _ _ _ _ _ _ Hready Hspace Hmap Hcreate) as (Hready' & Hquery & Hbytes).
  set (s' := s <| kernel := _ |>).
  assert (Hcall' : in_call bound s').
  { split; [|exact Hready']. revert Hsp. unfold current_space, current_process. change (scheduler (kernel s')) with (scheduler (kernel s)).
    destruct (Sched.current_thread _ _) as [th|]; [|done]. cbn [bind_result]. change (get_thread th (kernel s')) with (get_thread th (kernel s)).
    destruct (get_thread th (kernel s)) as [t|]; [|done]. cbn [bind_result].
    unfold get_process. intros Hp. change (processes (kernel s')) with (<[process_object o := {| process_id := next_process_id (kernel s); thread_list := [];
      proc_space := Some (space_object o) |}]> (processes (kernel s))).
    rewrite lookup_insert_ne; [exact Hp|]. intros E. rewrite <- E, Hproc in Hp. done. }
  assert (Hnone : forall va, 0 <= va < KERNEL_BASE -> page_of s va = Done None -> page_of s' va = Done None).
  { intros va Huser Hva. rewrite (page_of_eq bound s va Hcall) in Hva. rewrite (page_of_eq bound s' va Hcall').
    change (vm (cs (address_spaces (kernel s')))) with (vm (cs sps)). rewrite (Hquery va Huser).
    apply bind_Done_inv in Hva as (m & -> & Hva). cbn [bind_result]. by destruct (Z.land m PAGE_PRESENT =? 0). }
  split; [exact Hcall'|]. split; [|by intros va ? _; apply Hnone].
  intros va b [(Hb & Huser & page & m & Hm & Halign & Hin)|(Hcov & Hva & ->)].
  - left. destruct (Hbytes page Hin) as [Hin' Hsame].
    assert (Hm' : query_translation_map (VmSpace.translation_map a) va (vm (cs (address_spaces (kernel s')))) = Done m)
      by (rewrite <- Hm; by apply Hquery).
    split; [|split; [done|by exists page, m]].
    rewrite (page_of_eq bound s va Hcall), Hm in Hb. rewrite (page_of_eq bound s' va Hcall'), Hm'. cbn [bind_result] in *.
    destruct (Z.land m PAGE_PRESENT =? 0); [done|]. rewrite Halign in *.
    change (vm (cs (address_spaces (kernel s')))) with (vm (cs sps)). rewrite Hsame by (apply Z.mod_pos_bound; done). exact Hb.
  - right. split; [done|]. split; [|done]. apply Hnone; [by apply (covered_user bound s)|done].
Qed.

Lemma user_strlcpy_step count src (s : system B) :
  user_strlcpy_loop read_file hwthread (S (S count)) src s =
    ('(b, s) <-- load_byte read_file hwthread src s;;
     match b with
     | None => Done (None, s)
     | Some b =>
         if b =? 0 then Done (Some [], s) else
         '(rest, s) <-- user_strlcpy_loop read_file hwthread (S count) (u32 (src + 1)) s;;
         Done (match rest with Some l => Some (b :: l) | None => None end, s)
     end).
Proof. done. Qed.

(** The same with [user_strlcpy]. *)
Lemma strlcpy_uncovered bytes j count bound s src h :
  in_call bound s -> bound + Z.of_nat j < 2 ^ 31 - 2 -> readable bytes s src j -> (S j < count)%nat ->
  (forall i, 0 <= i < Z.of_nat j -> bytes (src + i) <> 0) ->
  0 <= src + Z.of_nat j < KERNEL_BASE -> ~ covered a (src + Z.of_nat j) -> page_of s (src + Z.of_nat j) = Done None ->
  get_fault_handler hwthread s = Done h -> h <> 0 ->
  match user_strlcpy_loop read_file hwthread count src s with
  | Fault f => f = HostExit
  | Done (r, s') => r = None /\ exists sps, s' = with_spaces s sps /\ in_call (bound + Z.of_nat j) s'
  end.
Proof.
  revert count bound s src. induction j as [|j IH]; intros [|[|count]] bound s src Hcall Hmax Hread Hj Hchars Huser Hnot Hnone Hh Hne; try lia;
    rewrite user_strlcpy_step.
  - rewrite Z.add_0_r in *. rewrite (load_uncovered bound s src h), (proj2 (Z.eqb_neq _ _) Hne) by done. cbn [bind_result].
    split; [done|]. exists (address_spaces (kernel s)). split; [by destruct s as [[] ? ? ?]|done].
  - pose proof (load_readable bytes bound s src j Hcall ltac:(lia) Hread) as Hload.
    destruct (load_byte read_file hwthread src s) as [[r s1]|f]; [|done]. cbn [bind_result].
    destruct Hload as (-> & sps & -> & Hcall1 & Hread1 & -> & Helse).
    pose proof (Hchars 0 ltac:(lia)) as H0. rewrite Z.add_0_r in H0. rewrite (proj2 (Z.eqb_neq _ _) H0).
    replace (src + Z.of_nat (S j)) with (src + 1 + Z.of_nat j) in * by lia.
    specialize (IH (S count) (bound + 1) _ (src + 1) Hcall1 ltac:(lia) Hread1 ltac:(lia)).
    assert (Hchars1 : forall i, 0 <= i < Z.of_nat j -> bytes (src + 1 + i) <> 0).
    { intros i Hi. replace (src + 1 + i) with (src + (i + 1)) by lia. apply Hchars. lia. }
    specialize (IH Hchars1 Huser Hnot (Helse _ Huser Hnot Hnone) Hh Hne).
    destruct (user_strlcpy_loop _ _ (S count) _ _) as [[r s2]|f]; [|done]. cbn [bind_result]. destruct IH as (-> & sps2 & -> & Hcall2).
    split; [done|]. exists sps2. split; [done|]. replace (bound + Z.of_nat (S j)) with (bound + 1 + Z.of_nat j) by lia. done.
Qed.

End Loads.

(** Memory that is mapped is read, whoever's it is. *)
Lemma copy_mapped {B} (read_file : Z -> Z -> Z -> option (list Z)) hwthread (bytes : Z -> Z) count (s : system B) src :
  0 <= src -> src + Z.of_nat count <= 2 ^ 32 ->
  (forall i, 0 <= i < Z.of_nat count -> load_mapped hwthread (src + i) (kernel s) = Done (Some (bytes (src + i)))) ->
  user_copy_loop read_file hwthread count src s = Done (Some (map bytes (seqZ src (Z.of_nat count))), s).
Proof.
  revert src. induction count as [|count IH]; intros src Hsrc Hmax Hmapped; cbn [user_copy_loop]; [done|].
  unfold load_byte. pose proof (Hmapped 0 ltac:(lia)) as H0. rewrite Z.add_0_r in H0. rewrite H0. cbn [bind_result].
  rewrite (seqZ_cons src) by lia. replace (Z.pred (Z.of_nat (S count))) with (Z.of_nat count) by lia.
  destruct count as [|count]; [done|]. rewrite u32_small by lia. rewrite IH; [done|lia|lia|].
  intros i Hi. replace (src + 1 + i) with (src + (i + 1)) by lia. apply Hmapped. lia.
Qed.

(** ** System calls *)

Section SystemCalls.

Context {B : Type} {registers : Registers B}.
Context (directory : list (list Z * Z)) (read_file : Z -> Z -> Z -> option (list Z)).
Context (process_list_head user_thread_kernel_start new_process_start uc_fault usc_fault : Z).
Context (hwthread : nat) (cycle_count : Z) (Huc : uc_fault <> 0).

#[local] Abbreviation trap := (handle_trap directory read_file process_list_head user_thread_kernel_start
  new_process_start uc_fault usc_fault hwthread cycle_count).

(** The trap is a system call with these arguments. *)
Record calls (index a0 a1 : Z) (c : trap_registers) (frame : interrupt_frame) : Prop := {
  calls_cause : Z.land (cr_trap_cause c) 0xf = enum_value TT_SYSCALL;
  calls_index : cr_syscall_index c = index;
  calls_args : exists a2 a3 a4 rest, frame_gpr frame = a0 :: a1 :: a2 :: a3 :: a4 :: rest
}.

(** The frame of a thread that gets [r] as the result and goes on after the instruction. *)
Definition answer (r : Z) (frame : interrupt_frame) : interrupt_frame :=
  frame <| frame_gpr ::= <[O := u32 r]> |> <| frame_pc ::= fun pc => u32 (pc + 4) |>.

Definition shows (out : list Z) (s : system B) : system B := s <| console ::= fun c => c ++ out |>.

Lemma trap_write_console o c frame t data length_ :
  calls SYS_write_console data length_ c frame ->
  trap o c frame t =
    ('(r, s) <-- sys_write_console read_file uc_fault hwthread data length_ (machine t);;
     Done (Some (answer r frame), t <| machine := s |>)).
Proof.
  intros [Hcause Hindex (a2 & a3 & a4 & rest & Hgpr)]. unfold handle_trap. rewrite Hcause, Hindex.
  change (enum_value TT_SYSCALL =? enum_value TT_PAGE_FAULT) with false. change (enum_value TT_SYSCALL =? enum_value TT_ILLEGAL_STORE) with false.
  change (enum_value TT_SYSCALL =? enum_value TT_SYSCALL) with true. cbn [orb]. unfold system_call, get_gpr. rewrite Hgpr. cbn [lookup list_lookup bind_result].
  unfold handle_syscall. change (SYS_write_console =? SYS_write_console) with true. cbv iota zeta.
  destruct (sys_write_console _ _ _ _ _ _) as [[r s]|f]; done.
Qed.

(** A console write that copies. *)
Lemma console_copies data length_ s copied s' :
  length_ < 62 ->
  user_copy_loop read_file hwthread (Z.to_nat length_) data (set_fault_handler hwthread uc_fault s) = Done (copied, s') ->
  match copied with Some l => (length l <= 62)%nat | None => True end ->
  sys_write_console read_file uc_fault hwthread data length_ s =
    Done (match copied with Some _ => 0 | None => - EFAULT end,
          shows (match copied with Some l => map u8 (before_nul l) | None => line "user copy failed" end) (set_fault_handler hwthread 0 s')).
Proof.
  intros Hlen Hcopy Hl. unfold sys_write_console. rewrite (proj2 (Z.leb_gt _ _)) by (unfold tmp_size; lia). unfold user_copy.
  rewrite Hcopy. cbn [bind_result]. destruct copied as [l|].
  - by rewrite kprintf_string by lia.
  - rewrite kprintf_text; [done|]. apply (bool_decide_unpack _). vm_compute. exact I.
Qed.

Lemma handler_restored (s : system B) sps h : fault_handler s !! hwthread = Some 0 ->
  set_fault_handler hwthread 0 (with_spaces (set_fault_handler hwthread h s) sps) = with_spaces s sps.
Proof.
  intros Hh. unfold set_fault_handler, with_spaces, update. cbn [fault_handler kernel console board].
  by rewrite list_insert_insert_eq, list_insert_id.
Qed.

Lemma handler_there (s : system B) h : fault_handler s !! hwthread = Some 0 ->
  get_fault_handler hwthread (set_fault_handler hwthread h s) = Done h.
Proof.
  intros Hh. unfold get_fault_handler, set_fault_handler, update. cbn [fault_handler].
  by rewrite list_lookup_insert_eq by by eapply lookup_lt_Some.
Qed.

(** C9: writing to the console.  A process with an address space as the loader leaves it and faults
    keep it ([space_ready]: the reads of its files succeed, and its pages have few enough
    references, [bound]) traps with the number of write_console, an address
    and a length; the fault handler is off.  62 bytes or more are refused with -EINVAL without looking
    at them.  If the bytes are the process's, there already in pages of its caches or in areas where
    there is no page yet, the kernel brings the missing pages in and shows what the memory has, and
    the areas (for a program, its file) where there was none, up to the first NUL, and the result
    is 0.  If at one of them, in the user half, there is neither a page nor an area, nothing of
    the buffer is shown and the result is -EFAULT; only running out of memory stops any of this, and
    the process's space stays as good as before.  Whatever is mapped is shown, the memory of the
    kernel too: addresses are not tested.  In each case the thread goes on after the trap with its
    other registers unchanged and the fault handler is off again. *)
Theorem console_write first last sp K a bound o c frame t data length_ :
  reads_ok read_file -> by_page K a -> in_call read_file first last sp K a hwthread bound (machine t) ->
  bound + 62 < 2 ^ 31 - 2 -> fault_handler (machine t) !! hwthread = Some 0 -> 0 <= length_ ->
  calls SYS_write_console data length_ c frame ->
  (62 <= length_ -> trap o c frame t = Done (Some (answer (- EINVAL) frame), t <| machine ::= shows (line "size out of range") |>))
  /\ (forall (bytes : Z -> Z) (count : nat), Z.of_nat count <= length_ < 62 -> readable K a hwthread bytes (machine t) data count ->
    (Z.of_nat count = length_
     \/ 0 <= data + Z.of_nat count < KERNEL_BASE /\ ~ covered a (data + Z.of_nat count)
        /\ page_of hwthread (machine t) (data + Z.of_nat count) = Done None) ->
    match trap o c frame t with
    | Fault f => f = HostExit
    | Done (f, t') =>
        exists sps r out, f = Some (answer r frame) /\ t' = t <| machine := shows out (with_spaces (machine t) sps) |>
        /\ in_call read_file first last sp K a hwthread (bound + 62) (machine t')
        /\ if Z.of_nat count =? length_ then r = 0 /\ out = map u8 (before_nul (map bytes (seqZ data length_)))
           else r = - EFAULT /\ out = line "user copy failed"
    end)
  /\ (forall bytes : Z -> Z, length_ < 62 -> 0 <= data -> data + length_ <= 2 ^ 32 ->
    (forall i, 0 <= i < length_ -> page_of hwthread (machine t) (data + i) = Done (Some (bytes (data + i)))) ->
    trap o c frame t = Done (Some (answer 0 frame), t <| machine ::= shows (map u8 (before_nul (map bytes (seqZ data length_)))) |>)).
Proof.
  intros Hreads Hpages Hcall Hmax Hh Hlen Hcalls. rewrite (trap_write_console o c frame t data length_ Hcalls).
  set (s := set_fault_handler hwthread uc_fault (machine t)). split; [|split].
  - intros Hbig. unfold sys_write_console. rewrite (proj2 (Z.leb_le _ _)) by (unfold tmp_size; lia).
    rewrite kprintf_text; [done|]. apply (bool_decide_unpack _). vm_compute. exact I.
  - intros bytes count Hcount Hread Hend.
    assert (Hcall' : in_call read_file first last sp K a hwthread bound s) by (destruct Hcall; by split).
    assert (Hloop : match user_copy_loop read_file hwthread (Z.to_nat length_) data s with
      | Fault f => f = HostExit
      | Done (r, s') => r = (if Z.of_nat count =? length_ then Some (map bytes (seqZ data length_)) else None)
          /\ exists sps, s' = with_spaces s sps /\ in_call read_file first last sp K a hwthread (bound + Z.of_nat count) s'
      end).
    { destruct (Z.eqb_spec (Z.of_nat count) length_) as [<-|Hne].
      - rewrite Nat2Z.id. by apply (copy_covered read_file first last sp K a hwthread); try done; lia.
      - destruct Hend as [?|(Huser & Hnot & Hnone)]; [done|].
        apply (copy_uncovered read_file first last sp K a hwthread Hreads Hpages bytes count _ bound s data uc_fault); try done; try lia.
        by apply handler_there. }
    destruct (user_copy_loop _ _ _ _ s) as [[copied s']|f] eqn:Hcopy.
    + destruct Hloop as (-> & sps & -> & Hafter).
      rewrite (console_copies data length_ (machine t) _ _ ltac:(lia) Hcopy); [|destruct (_ =? _); [rewrite length_map, length_seqZ; lia|done]].
      cbn [bind_result]. unfold s at 1. rewrite handler_restored by done.
      exists sps. eexists _, _. split; [done|]. split; [done|]. split.
      * apply (in_call_weaken _ _ _ _ _ _ _ (bound + Z.of_nat count)); [|lia]. destruct Hafter. by split.
      * by destruct (Z.of_nat count =? length_).
    + unfold sys_write_console. rewrite (proj2 (Z.leb_gt _ _)) by (unfold tmp_size; lia). unfold user_copy. fold s. by rewrite Hcopy.
  - intros bytes Hsmall Hdata Htop Hmapped.
    pose proof (copy_mapped read_file hwthread bytes (Z.to_nat length_) s data Hdata ltac:(lia)
      ltac:(intros i Hi; apply Hmapped; lia)) as Hcopy. rewrite Z2Nat.id in Hcopy by done.
    rewrite (console_copies data length_ (machine t) _ _ Hsmall Hcopy) by (rewrite length_map, length_seqZ; lia).
    cbn [bind_result]. replace (set_fault_handler hwthread 0 s) with (machine t); [done|].
    unfold s, set_fault_handler, update. cbn [fault_handler kernel console board].
    rewrite list_insert_insert_eq, list_insert_id by done. by destruct (machine t).
Qed.

(** The trap is a system call with this number. *)
Definition calls_number (index : Z) (c : trap_registers) : Prop :=
  Z.land (cr_trap_cause c) 0xf = enum_value TT_SYSCALL /\ cr_syscall_index c = index.

(** A name of characters that can be read, and then an address in no area and no page. *)
Record unfinished_name (K : vm_area -> Z -> Z -> Z) (a : vm_address_space) (s : system B) (bytes : Z -> Z) (name : Z) (j : nat) : Prop := {
  name_there : readable K a hwthread bytes s name j;
  name_chars : forall i, 0 <= i < Z.of_nat j -> bytes (name + i) <> 0;
  name_user : 0 <= name + Z.of_nat j < KERNEL_BASE;
  name_leaves : ~ covered a (name + Z.of_nat j) /\ page_of hwthread s (name + Z.of_nat j) = Done None
}.

(** C24: a bad name pointer of a process with such an address space, to [j] characters that can be read and then an address in the user half
    where there is neither an area nor a page; the fault handler is off.  The name of an area is
    copied with [user_strlcpy]: when it leaves the process's memory before 63 characters, create_area
    answers 0, the thread goes on and the fault handler is off again.  Names of threads and
    paths of programs are read where they are, without a fault handler.  The name of a thread that
    leaves the memory within the characters looked at is a page fault of the kernel itself, and the machine
    stops.  The path of a program is read as far as it agrees with the names in the directory: if one of them
    begins with the [j] characters the kernel faults in the same way, and else exec answers
    -ENOEXEC and the thread goes on.  (The new process, which stays in the list, has structures
    that are not in use.) *)
Theorem bad_name_pointers first last sp K a bound o c frame t bytes name j a0 a1 a2 a3 a4 rest :
  reads_ok read_file -> by_page K a -> in_call read_file first last sp K a hwthread bound (machine t) ->
  bound + Z.of_nat (S (length directory) * j) < 2 ^ 31 - 2 -> fault_handler (machine t) !! hwthread = Some 0 -> usc_fault <> 0 ->
  unfinished_name K a (machine t) bytes name j -> frame_gpr frame = a0 :: a1 :: a2 :: a3 :: a4 :: rest ->
  (calls_number SYS_spawn_thread c -> a0 = name -> (j < 33)%nat ->
     exists f, trap o c frame t = Fault f /\ (f = AssertFailed \/ f = HostExit))
  /\ (calls_number SYS_exec c -> a0 = name -> space_object (new_process o) <> sp ->
      maps (vm (cs (address_spaces (kernel (machine t))))) !! map_object (new_process o) = None ->
      processes (kernel (machine t)) !! process_object (new_process o) = None ->
      match begin_program process_list_head (new_process o) (kernel (machine t)) with
      | Fault f => trap o c frame t = Fault f
      | Done k =>
          match trap o c frame t with
          | Fault f => f = HostExit \/ f = AssertFailed /\ Exists (fun e => begins bytes j name e.1) directory
          | Done (f, t') => ~ Exists (fun e => begins bytes j name e.1) directory
              /\ exists sps, f = Some (answer (- ENOEXEC) frame)
                /\ t' = t <| machine := machine t <| kernel := k <| address_spaces := sps |> |> |>
                /\ in_call read_file first last sp K a hwthread (bound + Z.of_nat (length directory * j)) (machine t')
          end
      end)
  /\ (calls_number SYS_create_area c -> a3 = name -> (j < 63)%nat ->
      match trap o c frame t with
      | Fault f => f = HostExit
      | Done (f, t') => exists sps, f = Some (answer 0 frame) /\ t' = t <| machine := with_spaces (machine t) sps |>
          /\ in_call read_file first last sp K a hwthread (bound + Z.of_nat j) (machine t')
      end).
Proof.
  intros Hreads Hpages Hcall Hmax Hh Husc [Hread Hchars Huser [Hnot Hnone]] Hgpr. cbn [Nat.mul] in Hmax.
  assert (Hoff : get_fault_handler hwthread (machine t) = Done 0) by (unfold get_fault_handler; by rewrite Hh).
  split; [|split].
  - intros [Hcause Hindex] -> Hj.
    destruct (name_uncovered read_file first last sp K a hwthread Hreads Hpages bytes j 33 bound (machine t) name) as (f & E & Hf); try done; [lia|].
    exists f. split; [|done]. unfold handle_trap; rewrite Hcause, Hindex; unfold system_call, get_gpr; rewrite Hgpr. cbn.
    unfold sys_spawn_thread. by rewrite E.
  - intros [Hcause Hindex] -> Hspace Hmap Hproc.
    assert (Htrap : trap o c frame t =
      ('(r, s) <-- sys_exec directory read_file process_list_head new_process_start hwthread o name (machine t);;
       Done (Some (answer r frame), t <| machine := s |>))).
    { unfold handle_trap; rewrite Hcause, Hindex; unfold system_call, get_gpr; rewrite Hgpr. cbn.
      by destruct (sys_exec _ _ _ _ _ _ _ _) as [[r s]|]. }
    rewrite Htrap. unfold sys_exec, on_kernel.
    destruct (begin_program process_list_head (new_process o) (kernel (machine t))) as [k|f] eqn:Hbegin; [|done]. cbn [bind_result].
    destruct (begin_program_call read_file first last sp K a hwthread _ _ _ _ _ Hcall Hspace Hmap Hproc Hbegin) as [Hcall1 [Hkeep Helse]].
    pose proof (lookup_name_uncovered read_file first last sp K a hwthread Hreads Hpages bytes directory j bound (machine t <| kernel := k |>) name
      Hcall1 ltac:(lia) (fun i Hi => Hkeep _ _ (Hread i Hi)) Hchars Huser Hnot (Helse _ Huser Hnot Hnone) Hoff) as Hlookup.
    destruct (lookup_name _ _ _ _ _) as [[r s]|f]; [|exact Hlookup]. destruct Hlookup as (-> & Hno & sps & -> & Hcall2).
    cbn. split; [done|]. exists sps. split; [done|]. split; [done|]. exact Hcall2.
  - intros [Hcause Hindex] -> Hj. set (s := set_fault_handler hwthread usc_fault (machine t)).
    assert (Hcall' : in_call read_file first last sp K a hwthread bound s) by (destruct Hcall; by split).
    pose proof (strlcpy_uncovered read_file first last sp K a hwthread Hreads Hpages bytes j (Z.to_nat tmp_size) bound s name usc_fault
      Hcall' ltac:(lia) Hread ltac:(change (Z.to_nat tmp_size) with 64%nat; lia) Hchars Huser Hnot Hnone (handler_there _ _ Hh) Husc) as Hloop.
    unfold handle_trap. rewrite Hcause, Hindex. unfold system_call, get_gpr. rewrite Hgpr. cbn [lookup list_lookup bind_result].
    change (handle_syscall directory read_file process_list_head user_thread_kernel_start new_process_start uc_fault usc_fault hwthread
      cycle_count o SYS_create_area a0 a1 a2 name a4 (machine t))
      with ('(x, s) <-- sys_create_area read_file usc_fault hwthread o a0 a1 a2 name a4 (machine t);; Done (Some (u32 x), s)).
    unfold sys_create_area, user_strlcpy. fold s. destruct (user_strlcpy_loop _ _ _ _ s) as [[r s']|f]; [|done].
    destruct Hloop as (-> & sps & -> & Hafter). cbn [bind_result]. unfold s at 1. rewrite handler_restored by done.
    exists sps. split; [done|]. split; [done|]. destruct Hafter. by split.
Qed.

End SystemCalls.

(** ** A program's call *)

(** What an area holds of a program is the same from any address of the page. *)
Lemma area_byte_by_page prog (a : vm_address_space) : map_ok (area_map a) ->
  (forall area, area ∈ area_list (area_map a) -> 0 <= low_address area /\ high_address area < low_address area + 2 ^ 31) ->
  by_page (area_byte prog) a.
Proof.
  intros Hmap Heach area va va' Hin [H1 H2] [H3 H4] Hpage. destruct (Heach area Hin) as [Hlow Hsize].
  pose proof (ok_pages _ Hmap) as Hall. rewrite Forall_forall in Hall. destruct (Hall area Hin) as [Haligned _].
  unfold area_byte. replace (area_page area va') with (area_page area va); [done|]. unfold area_page.
  rewrite !u32_small by lia. rewrite !PAGE_ALIGN_mod by (unfold is_u32, is_unsigned; lia).
  unfold page_aligned, PAGE_SIZE in *. Z.div_mod_to_equations. lia.
Qed.

Definition loaded_process (sps : space_state) : kernel_state := {|
  address_spaces := sps;
  scheduler := {| thread_states := fun _ => THREAD_RUNNING; cur_thread := [5]; ready_q := []; dead_q := [];
                  disable_preempt_count := [0]; trap_kernel_stack := [0]; hw_translation_map := [0x100] |};
  threads := {[5 := {| thread_name := [112]; thread_id := 1; kernel_stack_top := 0; current_stack := 0; kernel_stack_area := area_object;
                       user_stack_area := None; thread_proc := 7; start_func := 0; thread_param := 0 |}]};
  processes := {[7 := {| process_id := 1; thread_list := [5]; proc_space := Some 0x600 |}]};
  process_nodes := {[0x700 := {| prev := 0x700; next := 0x700 |}]}; next_thread_id := 2; next_process_id := 2; kernel_proc := 0
|}.

Definition loaded_system (sps : space_state) : traps sequencer := {|
  machine := {| kernel := loaded_process sps; console := []; fault_handler := [0]; board := reset_sequencer |};
  handlers := replicate NUM_INTERRUPTS None; enabled_interrupts := [0] |}.

Definition call_registers (index : Z) : trap_registers :=
  {| cr_trap_cause := enum_value TT_SYSCALL; cr_trap_addr := 0; cr_syscall_index := index; cr_interrupt_pending := 0 |}.

Definition call_frame (a0 a1 a2 a3 : Z) : interrupt_frame :=
  {| frame_gpr := a0 :: a1 :: a2 :: a3 :: replicate 28 0; frame_pc := 0x5010; frame_flags := 3; frame_subcycle := 0 |}.

Definition no_thread : thread_objects := {|
  thread_object := 0; name_bytes := []; kernel_area_object := area_object; kernel_cache_object := 0; kernel_cache_file := 0;
  user_area_object := area_object; user_cache_object := 0; user_cache_file := 0 |}.

Definition no_objects : call_objects := {|
  new_thread := no_thread;
  new_process := {| process_object := 8; process_words := {| prev := 0; next := 0 |}; space_object := 0x640; map_object := 0x140;
                    program_objects := small_objects; first_thread := no_thread |};
  new_area := area_object; new_cache := 0; new_cache_file := 0 |}.

Definition small_trap (names : list (list Z * Z)) (index a0 a1 a2 a3 : Z) (sps : space_state) : result (option interrupt_frame * traps sequencer) :=
  handle_trap names small_read 0x700 0x800 0x900 0xa00 0xb00 0 12 no_objects (call_registers index)
    (call_frame a0 a1 a2 a3) (loaded_system sps).

(** The code and the data of [small_program]. *)
Definition small_text : segment :=
  {| seg_offset := 0x1000; seg_vaddr := 0x5000; seg_filesz := 0x1000; seg_memsz := 0x1000; seg_p_flags := 5 |}.

Definition small_data : segment :=
  {| seg_offset := 0x2000; seg_vaddr := 0x7000; seg_filesz := 4; seg_memsz := 0x1800; seg_p_flags := 6 |}.

(** The program is loaded, no page of it is there yet, and there is nothing after its segments. *)
Lemma small_loaded : exists s1 a, load_program program_handle small_read 0x600 [112] small_objects empty_space = Done (Some 0x5004, s1)
  /\ in_call small_read 2 15 0x600 (area_byte small_program) a 0 0 (machine (loaded_system s1))
  /\ (forall seg va, seg ∈ [small_text; small_data] -> in_segment seg va ->
        covered a va /\ byte_at (area_byte small_program) a va = segment_byte small_program seg (va - seg_vaddr seg))
  /\ (forall va, va ∈ [0x6000; 0x9000] -> ~ covered a va)
  /\ forall va, va ∈ seqZ 0x5fff 2 ++ seqZ 0x7000 6 ++ seqZ 0x8ffd 4 -> page_of 0 (machine (loaded_system s1)) va = Done None.
Proof.
  destruct small_ready as [own Hready]. destruct small_read_ok as [Hok Hfrom].
  destruct (load_program_ok program_handle small_read 2 15 own (fun _ => 0) (fun _ => 0) ∅ 0x600 small_objects _
    empty_space [112] 7 small_program 0 eq_refl ltac:(lia) Hfrom small_program_ok Hready ltac:(lia)) as (s1 & m & Hload & Hs1 & Hareas).
  exists s1. eexists. split; [exact Hload|]. split; [by split|]. split; [|split].
  - intros seg va Hin_list Hin_seg. assert (Hseg : seg ∈ program_segments small_program).
    { replace (program_segments small_program) with [small_text; small_data]; [done|vm_compute; reflexivity]. }
    assert (Haligned : seg_vaddr seg mod PAGE_SIZE = 0 /\ seg_vaddr seg < 2 ^ 16 /\ round_up (seg_memsz seg) <= 2 ^ 16).
    { apply elem_of_cons in Hin_list as [->|Hin_list%list_elem_of_singleton]; [|subst seg]; split_and!; vm_compute; congruence. }
    destruct (Hareas _ Hseg) as (area & Hin & Harea).
    destruct (segment_fault_in_space small_objects small_program area seg va false Hseg Harea Hin_seg ltac:(done)) as [Hcov _].
    split; [exists area; split; [exact Hin|exact Hcov]|]. unfold byte_at. pose proof (space_areas _ _ _ _ _ _ _ _ Hs1) as Hmap.
    rewrite (proj2 (lookup_area_spec _ _ _ Hmap) (conj Hin Hcov)).
    rewrite (area_segment_byte small_objects small_program small_program_ok area seg) by (done || apply Z.mod_pos_bound; done). f_equal.
    unfold in_segment in Hin_seg. rewrite PAGE_ALIGN_mod by (unfold is_u32, is_unsigned; lia).
    unfold PAGE_SIZE in *. Z.div_mod_to_equations. lia.
  - assert (Hgap : match load_program program_handle small_read 0x600 [112] small_objects empty_space with
      Done (_, s) => match spaces s !! 0x600 with
                     | Some a => forallb (fun va => match lookup_area (area_map a) va with None => true | _ => false end) [0x6000; 0x9000]
                     | None => false end
      | _ => false end = true) by (vm_compute; reflexivity).
    rewrite Hload, (space_here _ _ _ _ _ _ _ _ Hs1), forallb_forall in Hgap. intros va Hva (area & Hin & Hcov).
    specialize (Hgap va ltac:(by apply list_elem_of_In)).
    by rewrite (proj2 (lookup_area_spec _ _ _ (space_areas _ _ _ _ _ _ _ _ Hs1)) (conj Hin Hcov)) in Hgap.
  - assert (Hnone : match load_program program_handle small_read 0x600 [112] small_objects empty_space with
      Done (_, s) => forallb (fun va => match page_of 0 (machine (loaded_system s)) va with Done None => true | _ => false end)
        (seqZ 0x5fff 2 ++ seqZ 0x7000 6 ++ seqZ 0x8ffd 4) | _ => false end = true) by (vm_compute; reflexivity).
    rewrite Hload, forallb_forall in Hnone. intros va Hva. specialize (Hnone va ltac:(by apply list_elem_of_In)).
    by destruct (page_of _ _ va) as [[]|].
Qed.

Lemma small_by_page a s : in_call (B:=sequencer) small_read 2 15 0x600 (area_byte small_program) a 0 0 s -> by_page (area_byte small_program) a.
Proof.
  intros [_ Hready]. apply area_byte_by_page; [exact (space_areas _ _ _ _ _ _ _ _ Hready)|].
  intros area Hin. apply (space_each _ _ _ _ _ _ _ _ Hready area Hin).
Qed.

Lemma small_calls data length_ : calls SYS_write_console data length_ (call_registers SYS_write_console) (call_frame data length_ 0 0).
Proof. split; [done|done|by eexists _, _, _, _]. Qed.

Lemma small_trap_eq names index a0 a1 a2 a3 sps :
  handle_trap names small_read 0x700 0x800 0x900 0xa00 0xb00 0 12 no_objects (call_registers index)
    (call_frame a0 a1 a2 a3) (loaded_system sps)
  = small_trap names index a0 a1 a2 a3 sps.
Proof. done. Qed.

Lemma done_of {A} (r : result A) : match r with Done _ => True | _ => False end -> exists x, r = Done x.
Proof. destruct r as [x|]; [by exists x|done]. Qed.

#[local] Opaque small_trap.

(** The names in the directory. *)
Definition small_names : list (list Z * Z) := [([112], 7)].

(** What the program's text and data are where they are not there yet. *)
Lemma small_readable s1 a seg src count :
  (forall va, in_segment seg va -> covered a va /\ byte_at (area_byte small_program) a va = segment_byte small_program seg (va - seg_vaddr seg)) ->
  (forall va, src <= va < src + Z.of_nat count -> in_segment seg va /\ page_of 0 (machine (loaded_system s1)) va = Done None) ->
  readable (area_byte small_program) a 0 (fun va => segment_byte small_program seg (va - seg_vaddr seg)) (machine (loaded_system s1)) src count.
Proof.
  intros Hseg Hva i Hi. right. destruct (Hva (src + i) ltac:(lia)) as [Hin Hnone]. destruct (Hseg _ Hin) as [Hcov Hbyte]. by split_and!.
Qed.

Lemma console_write_witness :
  exists s1 t1 t2 t3, load_program program_handle small_read 0x600 [112] small_objects empty_space = Done (Some 0x5004, s1)
    /\ small_trap small_names SYS_write_console 0x7000 6 0 0 s1 = Done (Some (answer 0 (call_frame 0x7000 6 0 0)), t1)
    /\ console (machine t1) = [61; 62; 63; 64]
    /\ small_trap small_names SYS_write_console 0x8ffd 6 0 0 s1 = Done (Some (answer (- EFAULT) (call_frame 0x8ffd 6 0 0)), t2)
    /\ console (machine t2) = line "user copy failed"
    /\ small_trap small_names SYS_write_console 0x7000 62 0 0 s1 = Done (Some (answer (- EINVAL) (call_frame 0x7000 62 0 0)),
         loaded_system s1 <| machine ::= shows (line "size out of range") |>)
    /\ small_trap small_names SYS_write_console KERNEL_BASE 0 0 0 s1 = Done (Some (answer 0 (call_frame KERNEL_BASE 0 0 0)), t3).
Proof.
  destruct small_loaded as (s1 & a & Hload & Hcall & Hsegs & Hgap & Hfresh). destruct small_read_ok as [Hok _].
  pose proof (small_by_page _ _ Hcall) as Hpages.
  pose proof (fun data length_ Hlen => @console_write sequencer _ small_names small_read 0x700 0x800 0x900 0xa00 0xb00 0 12 ltac:(discriminate) 2 15 0x600
    (area_byte small_program) a 0 no_objects (call_registers SYS_write_console)
    (call_frame data length_ 0 0) (loaded_system s1) data length_ Hok Hpages Hcall
    ltac:(reflexivity) eq_refl Hlen (small_calls data length_)) as Htrap.
  assert (Hends : match load_program program_handle small_read 0x600 [112] small_objects empty_space with
    | Done (_, s) => match small_trap small_names SYS_write_console 0x7000 6 0 0 s with Done _ => True | _ => False end
        /\ match small_trap small_names SYS_write_console 0x8ffd 6 0 0 s with Done _ => True | _ => False end
    | _ => False end) by (vm_compute; done).
  rewrite Hload in Hends. destruct Hends as [([f1 t1] & E1)%done_of ([f2 t2] & E2)%done_of].
  destruct (Htrap 0x7000 6 ltac:(lia)) as (_ & Hall & _). destruct (Htrap 0x8ffd 6 ltac:(lia)) as (_ & Hpart & _).
  destruct (Htrap 0x7000 62 ltac:(lia)) as (Hbig & _ & _). destruct (Htrap KERNEL_BASE 0 ltac:(lia)) as (_ & _ & Hmapped).
  set (bytes := fun va => segment_byte small_program small_data (va - seg_vaddr small_data)).
  assert (Hdata : forall src count, 0x7000 <= src -> src + Z.of_nat count <= 0x9000 ->
    (forall va, src <= va < src + Z.of_nat count -> page_of 0 (machine (loaded_system s1)) va = Done None) ->
    readable (area_byte small_program) a 0 bytes (machine (loaded_system s1)) src count).
  { intros src count H1 H2 Hnone. apply small_readable; [intros va; apply Hsegs; by right; left|].
    intros va Hva. split; [|by apply Hnone]. unfold in_segment. change (seg_vaddr small_data + round_up (seg_memsz small_data)) with 0x9000. simpl. lia. }
  specialize (Hall bytes 6%nat ltac:(lia) (Hdata 0x7000 6%nat ltac:(lia) ltac:(lia) ltac:(intros va Hva; apply Hfresh; rewrite !elem_of_app, !elem_of_seqZ; lia))).
  specialize (Hpart bytes 3%nat ltac:(lia) (Hdata 0x8ffd 3%nat ltac:(lia) ltac:(lia) ltac:(intros va Hva; apply Hfresh; rewrite !elem_of_app, !elem_of_seqZ; lia))).
  specialize (Hmapped bytes ltac:(lia) ltac:(vm_compute; congruence) ltac:(vm_compute; congruence) ltac:(intros i Hi; lia)).
  rewrite small_trap_eq in Hall, Hpart, Hbig, Hmapped.
  rewrite E1 in Hall. rewrite E2 in Hpart.
  destruct Hall as (sps & r & out & -> & -> & _ & -> & ->); [by left|].
  destruct Hpart as (sps' & r' & out' & -> & -> & _ & -> & ->).
  { right. split; [unfold KERNEL_BASE; lia|]. split; [apply Hgap; by right; left|]. apply Hfresh. rewrite !elem_of_app, !elem_of_seqZ. lia. }
  exists s1. eexists _, _, _. split; [exact Hload|]. split; [exact E1|]. split; [|split; [exact E2|split; [reflexivity|split]]].
  - vm_compute. reflexivity.
  - apply Hbig. lia.
  - exact Hmapped.
Defined.

(** The last byte of the code, 9, and nothing after it. *)
Lemma bad_name_pointers_witness :
  exists s1 sps t1, load_program program_handle small_read 0x600 [112] small_objects empty_space = Done (Some 0x5004, s1)
    /\ small_trap small_names SYS_spawn_thread 0x5fff 0 0 0 s1 = Fault AssertFailed
    /\ small_trap [([112], 7); ([9; 10], 8)] SYS_exec 0x5fff 0 0 0 s1 = Fault AssertFailed
    /\ small_trap small_names SYS_exec 0x5fff 0 0 0 s1 = Done (Some (answer (- ENOEXEC) (call_frame 0x5fff 0 0 0)), t1)
    /\ small_trap small_names SYS_create_area 0xa000 0x1000 0 0x5fff s1 =
        Done (Some (answer 0 (call_frame 0xa000 0x1000 0 0x5fff)), loaded_system s1 <| machine := with_spaces (machine (loaded_system s1)) sps |>).
Proof.
  destruct small_loaded as (s1 & a & Hload & Hcall & Hsegs & Hgap & Hfresh). destruct small_read_ok as [Hok _].
  pose proof (small_by_page _ _ Hcall) as Hpages.
  set (bytes := fun va => segment_byte small_program small_text (va - seg_vaddr small_text)).
  assert (Hname : unfinished_name 0 (area_byte small_program) a (machine (loaded_system s1)) bytes 0x5fff 1).
  { split; [|intros i Hi; replace i with 0 by lia; vm_compute; discriminate|unfold KERNEL_BASE; lia|].
    - apply small_readable; [intros va; apply Hsegs; by left|]. intros va Hva. split.
      + unfold in_segment. change (seg_vaddr small_text + round_up (seg_memsz small_text)) with 0x6000. simpl. lia.
      + apply Hfresh. rewrite !elem_of_app, !elem_of_seqZ. lia.
    - split; [apply Hgap; by left|]. apply Hfresh. rewrite !elem_of_app, !elem_of_seqZ. lia. }
  pose proof (fun names index a0 a1 a2 a3 Hsmall Hgpr => @bad_name_pointers sequencer _ names small_read 0x700 0x800 0x900 0xa00 0xb00 0 12
    2 15 0x600 (area_byte small_program) a 0 no_objects (call_registers index) (call_frame a0 a1 a2 a3) (loaded_system s1) bytes 0x5fff 1
    a0 a1 a2 a3 0 (replicate 27 0) Hok Hpages Hcall Hsmall eq_refl ltac:(discriminate) Hname Hgpr) as Htrap.
  assert (Hends : match load_program program_handle small_read 0x600 [112] small_objects empty_space with
    | Done (_, s) => match small_trap small_names SYS_create_area 0xa000 0x1000 0 0x5fff s with Done _ => True | _ => False end
        /\ match small_trap small_names SYS_exec 0x5fff 0 0 0 s with Done _ => True | _ => False end
        /\ match small_trap small_names SYS_spawn_thread 0x5fff 0 0 0 s with Fault f => f <> HostExit | _ => False end
        /\ match small_trap [([112], 7); ([9; 10], 8)] SYS_exec 0x5fff 0 0 0 s with Fault f => f <> HostExit | _ => False end
        /\ match begin_program 0x700 (new_process no_objects) (loaded_process s) with Done _ => True | _ => False end
        /\ match maps (vm (cs s)) !! 0x140 with None => True | _ => False end
    | _ => False end) by (vm_compute; split_and!; try exact I; discriminate).
  rewrite Hload in Hends.
  destruct Hends as ([[f1 t1] E1]%done_of & [[f2 t2] E2]%done_of & Hspawn & Hexec & [k Ek]%done_of & Hmap).
  assert (Hfree : maps (vm (cs s1)) !! 0x140 = None) by (by destruct (_ !! 0x140)). clear Hmap.
  destruct (Htrap small_names SYS_spawn_thread 0x5fff 0 0 0 ltac:(reflexivity) eq_refl) as (H1 & _ & _).
  destruct (Htrap [([112], 7); ([9; 10], 8)] SYS_exec 0x5fff 0 0 0 ltac:(reflexivity) eq_refl) as (_ & H2 & _).
  destruct (Htrap small_names SYS_exec 0x5fff 0 0 0 ltac:(reflexivity) eq_refl) as (_ & H3 & _).
  destruct (Htrap small_names SYS_create_area 0xa000 0x1000 0 0x5fff ltac:(reflexivity) eq_refl) as (_ & _ & H4).
  specialize (H2 (conj eq_refl eq_refl) eq_refl ltac:(discriminate) Hfree eq_refl).
  specialize (H3 (conj eq_refl eq_refl) eq_refl ltac:(discriminate) Hfree eq_refl).
  change (kernel (machine (loaded_system s1))) with (loaded_process s1) in H2, H3. rewrite Ek in H2, H3.
  rewrite small_trap_eq in H1, H2, H3, H4. destruct (H1 (conj eq_refl eq_refl) eq_refl ltac:(lia)) as (f & Ef & Hf).
  specialize (H4 (conj eq_refl eq_refl) eq_refl ltac:(lia)). rewrite E1 in H4. destruct H4 as (sps & -> & -> & _).
  rewrite E2 in H3. destruct H3 as (_ & sps2 & -> & -> & _). rewrite Ef in Hspawn.
  exists s1, sps. eexists. split; [exact Hload|]. split; [|split; [|split; [exact E2|exact E1]]].
  - destruct Hf as [-> | ->]; [exact Ef|by destruct Hspawn].
  - revert Hexec H2. destruct (small_trap [([112], 7); ([9; 10], 8)] SYS_exec 0x5fff 0 0 0 s1) as [r|f']; [done|]. intros Hexec [->|[-> _]]; [by destruct Hexec|done].
Defined.
